(* ===== verification/_CoqProject ===== *)
-Q . S2P
Prelude.v
Float64.v
WaitStatus.v
Scheduler.v
SchedulerInv.v
SchedulerProofs.v
SchedulerSafety.v
SchedulerTheorems.v
SchedulerExamples.v
MemoryRange.v
KernelMapping.v
Watchpoints.v
WatchpointProofs.v
WatchMemory.v
AddressSpace.v
AddressSpaceProofs.v
AddressSpaceOps.v
AddressSpaceTheorems.v
AddressSpaceExamples.v
GdbExpression.v
GdbExpressionProofs.v
GdbExpressionCompile.v
GdbText.v
GdbRequest.v
GdbConnection.v
GdbParse.v
GdbPackets.v
GdbReplies.v
GdbTextProofs.v
GdbConnectionProofs.v
GdbRoundtrip.v
GdbDelivery.v
GdbReplyProofs.v
GdbExamples.v
CompressedWriter.v
CompressedReader.v
CompressedFormat.v
CompressedStream.v
CompressedThreads.v
CompressedTheorems.v
CompressedExamples.v
SeccompFilter.v
SeccompProofs.v
SeccompTheorems.v
TraceeMemory.v
Breakpoints.v
BreakpointProofs.v
SyscallState.v
SyscallStateProofs.v
SyscallResults.v
SyscallDirect.v
SyscallTheorems.v
SyscallExamples.v
FdTable.v
FdTableProofs.v
FdTableInv.v
FdTableTasks.v
FdTableTheorems.v
FdTableExamples.v
FileMonitors.v
FileMonitorProofs.v
Dirents.v
DirentProofs.v
FileMonitorExamples.v
Timeline.v
TimelineRun.v
TimelineSpec.v
TimelineMarks.v
TimelineCheckpoints.v
TimelineAutomatic.v
TimelineSeek.v
TimelineTowards.v
TimelineForward.v
TimelineBackward.v
TimelineSearch.v
TimelineRequests.v
TimelineTheorems.v
TimelineExamples.v
TimelineVfork.v
