(* ===== verification/Prelude.v ===== *)
(** * rd: a verification development

    rd records the execution of a group of Linux processes and replays it under a
    debugger.  Its parts interact as follows.  The recorder ([record_session.rs],
    [record_task.rs], [record_syscall.rs]) runs one tracee at a time; which one, and
    for how long, is decided by the scheduler ([scheduler.rs]) from the wait statuses
    ([wait_status.rs]) the kernel reports.  Every process has an address space
    ([address_space.rs]) that mirrors the memory map the kernel keeps for it and
    multiplexes watchpoints over the debug registers.  System calls of tracees stop for
    the recorder through seccomp filters ([seccomp_bpf.rs],
    [seccomp_filter_rewriter.rs]); those that may block run on scratch memory, and what
    they changed goes to the trace, which is a set of compressed streams.  On replay the debug server
    ([gdb_server.rs]) receives requests and answers them through a connection that
    speaks the remote protocol of gdb ([gdb_connection.rs]); breakpoint conditions
    come as bytecode ([gdb_expression.rs]).  It moves through the execution, forward and
    backward, with a timeline of replay sessions ([replay_timeline.rs]).

    ** Conventions

    Pure functions are functions, stateful code passes its state explicitly or runs in
    a state monad over [res] (below), and loops without a structural measure have
    fuel.  Machine integers are integers in [Z] with their wrap-around or their
    overflow check written out ([wrap], [swrap], [checked_add]); a checked build is
    modelled, in which overflow panics.  Everything is executable, and the theorems
    with hypotheses are applied to concrete inputs next to them or in the files named
    [...Examples].  Logging is left out everywhere.

    ** Files

    - [Prelude] (this file): the monad [res], machine integers, and lemmas and tactics
      every component uses.  [Float64] has the binary64 numbers of the clock.
    - [WaitStatus]: signals and wait statuses ([sig.rs], [wait_status.rs]), bit for
      bit.
    - [Scheduler]: [scheduler.rs] and [priority_tup.rs].  The class [Env] is the
      kernel, the clock, the random generator and the ptrace side of a task.
      [SchedulerInv], [SchedulerProofs], [SchedulerSafety] and [SchedulerTheorems] have
      the invariant of the two collections of tasks, what a search for a runnable task
      does, and the theorems; [SchedulerExamples] an environment to run it in.
    - [MemoryRange], [KernelMapping]: [remote_ptr.rs], [memory_range.rs],
      [kernel_mapping.rs] and the parts of [util.rs] they use.
    - [Watchpoints], with [WatchpointProofs] and [WatchMemory]: the watchpoints of
      [address_space.rs].
    - [AddressSpace]: the memory map of [address_space.rs] and the operations on it.
      [AddressSpaceProofs] and [AddressSpaceOps] show what each operation does to the
      mapping of every byte; [AddressSpaceTheorems] states the refinement.
    - [GdbExpression], with [GdbExpressionProofs] and [GdbExpressionCompile]: the
      bytecode interpreter of [gdb_expression.rs] and breakpoint conditions.
    - [GdbText], [GdbRequest], [GdbConnection], [GdbParse], [GdbPackets],
      [GdbReplies]: the number parsers of [util.rs], and [gdb_connection.rs] in the
      order of the code: requests, buffers and framing, parts of packets, packets,
      replies.  The socket is a script of what reads, writes and polls will do.  The
      crates [memchr] and [regex] are the class [Lib], what their documentation
      promises is the class [LibSpec], and [reference_lib] is an instance of both.
      [GdbTextProofs], [GdbConnectionProofs], [GdbRoundtrip], [GdbDelivery] and
      [GdbReplyProofs] have the proofs, [GdbExamples] the concrete packets.
    - [CompressedWriter], [CompressedReader]: the compressed streams of a trace
      ([trace/compressed_writer.rs], [trace/compressed_reader.rs]).  The writer is a
      system of steps: one producer, the compression threads, a mutex whose critical
      sections are atomic, a condition variable with its sleepers, and a ring buffer
      that is shared without a lock.  The brotli library is the class [Brotli] with the
      promises [BrotliSpec].  [CompressedFormat] and [CompressedStream] show that the
      reader reads the format, [CompressedThreads] has the invariant of the threads,
      [CompressedTheorems] the theorems and [CompressedExamples] an encoder that
      stores its input.
    - [SeccompFilter]: the filters rd installs, the rewriting of the filters of tracees
      and the dispatch of seccomp stops ([seccomp_bpf.rs],
      [seccomp_filter_rewriter.rs], [task_inner.rs], [record_session.rs]).
      [SeccompProofs] has the filter machine of the kernel, [SeccompTheorems] what a
      tracee observes.
    - [TraceeMemory]: tracee memory as a map of bytes.  [Breakpoints] and
      [BreakpointProofs]: the breakpoints of [address_space.rs], and the reads and
      writes of [gdb_server.rs] and [replay_task.rs] that go around them.
    - [SyscallState]: the memory parameters of a recorded system call
      ([TaskSyscallState], [MemoryParam], [ParamSize] of [record_syscall.rs]).
      [SyscallStateProofs] has the layout of scratch memory and the preparation,
      [SyscallResults] and [SyscallDirect] the results with and without scratch memory,
      [SyscallTheorems] the theorems and [SyscallExamples] concrete calls.
    - [FdTable]: the tables of monitored descriptors ([fd_table.rs]) with the array in
      tracee memory that tells the preload library which descriptors it may buffer,
      and what tasks do to tables when they start, clone, exec, unshare or exit.
      [FdTableProofs], [FdTableInv] and [FdTableTasks] show that every operation keeps
      the array up to date, [FdTableTheorems] states it for all sequences of
      operations, [FdTableExamples] has a run.
    - [FileMonitors], [Dirents]: the monitors of [file_monitor/] and the filter of
      directory listings ([proc_fd_dir_monitor.rs]), with [FileMonitorProofs],
      [DirentProofs] and [FileMonitorExamples].
    - [Timeline], [TimelineRun]: the replay timeline of the debugger
      ([replay_timeline.rs]): marks, breakpoints and checkpoints, and seeking, running
      forward and reverse execution.  A replay session is the class [Sessions], a
      machine the class [Machine].  [TimelineSpec] states what the timeline relies on:
      an execution is a sequence of states, and the class [ReplayLaws] says what a
      step does in terms of it.  [TimelineMarks], [TimelineCheckpoints],
      [TimelineAutomatic], [TimelineSeek], [TimelineTowards], [TimelineForward],
      [TimelineBackward] and [TimelineSearch] show what each operation does to the
      position in the execution, the marks and the checkpoints; [TimelineRequests]
      has the sequences of requests, [TimelineTheorems] the theorems and
      [TimelineExamples] a machine that satisfies the laws.  [TimelineVfork] has one on
      which a breakpoint of rd is left behind.

    ** What the theorems show

    The comment before a theorem has all its conditions; the ones that leave out a case
    that can happen are also named here.

    - Memory map: valid operations never panic and act on every byte as an abstract
      memory does ([address_space_refines], [reachable_refines]); coalescing is
      invisible; look-ups are exact.  Mappings with a monitor are left out, and so are
      operations that take away a mapping shared with rd where the code panics
      ([unmap_local_panics]).
    - Scheduler: [reschedule] never fails its assertions ([reschedule_safe]) when its
      callers and the kernel keep to [may_reschedule], and the collections of tasks stay
      consistent over sequences of such operations and changes of the settings
      ([reachable_queues]); the search goes by priority and round robin
      ([find_next_runnable_task_order]); the selection loop ends.  The priority
      [i32::MAX] is left out: the search panics with it.
    - Watchpoints: ranges are split over the fewest registers, allocation arms every
      watched byte, and changes are reported exactly.
    - Expressions: compiled expressions evaluate to the value of their tree
      ([evaluate_compiled]); a step at an opcode gives a state, or panics in exactly
      the three ways [step_panics_exactly] lists.  What a byte that is no opcode does is
      undefined in the code and a parameter of the model.
    - Gdb connection: packets that arrive in one piece arrive as the requests they stand
      for ([get_request_delivers]), replies are read back by the debugger
      ([reply_answers]), and whatever bytes come in the connection returns a well
      typed request, panics or exits, but never hangs ([get_request_ends],
      [get_request_typed]).  Packets in several pieces panic ([split_packet_panics]) and
      the signal 0 is not delivered as none ([vcont_signal_zero]).
    - Wait statuses: classification, accessors and constructors agree.
    - Compressed streams: every schedule of the threads ends with the whole file and a
      client that reads it gets the data ([writer_completes]); the producer and the
      threads never use the same byte of the ring buffer ([writer_race_free]); the
      reader refines reading from the data ([reader_refines]), but for rewinding an
      empty stream or while a saved state is to be restored ([rewind_empty],
      [restore_after_rewind]).
    - Seccomp: with any number of filters a system call gets the decision of the last
      filter that does not allow it, or is a fatal error of rd ([filters_decide]); for
      one filter that loads the accumulator first that is what the kernel would have
      done, otherwise it need not be ([accumulator_not_clear], [precedence_lost]).
    - Breakpoints: over sequences of taking and giving back references and applying data
      of the trace the debugger reads the program as if there were no breakpoints
      ([breakpoints_transparent]); its own writes lose breakpoints
      ([debugger_write_loses_breakpoint]).
    - Recorded system calls: moving buffers to scratch memory is invisible to the
      tracee, results arrive, and what is recorded turns memory before the call into
      memory after it, with and without scratch memory ([scratch_syscall_replays],
      [direct_syscall_replays]); giving up restores everything ([abort_restores]).
    - Descriptors: a monitored descriptor is never buffered in its process, whatever
      tasks do ([monitored_fd_traced]), tables never panic, and closing a descriptor
      within the array makes it bufferable again exactly when it can be
      ([close_reenables_buffering]); descriptors beyond the array can be buffered
      ([beyond_array_buffered]).
    - File monitors: bytes written to a file that is mapped are recorded as memory
      shows them ([mapped_write_recorded]), unless the recorder panics
      ([low_mapping_panics]); listings hide the descriptors of rd and
      nothing else ([listing_hides_rd_fds]).
    - Replay timeline: over sequences of marks, checkpoints, seeks, breakpoints, steps
      forward and [reverse_continue]s that find a stop, marks are ordered as the states
      they are of ([marks_follow_execution]), checkpoints keep their users
      ([checkpoints_counted]) and seeking gets to its mark ([requests_succeed]);
      running backward ends at the last stop of the debugger before the current state
      ([reverse_continue_finds_last_stop]); a lazy reverse singlestep gives the mark one
      instruction before exactly when it may ([lazy_singlestep_one_before]); automatic
      checkpoints stay few ([automatic_checkpoints_logarithmic]).  Watchpoints and other
      reverse singlesteps are modelled, but not part of these sequences; and no task may
      execute a program in an address space it shares ([ExecAlone]), where a breakpoint
      is left behind ([vfork_leaves_breakpoint]).

    ** Fuel and bounds

    [reschedule] takes its fuel as an argument: how long it waits is up to the
    tracees, so its safety holds for any fuel, and [select_loop_terminates] shows that
    the selection loop ends within one more turn than the queue is long.  The other
    loops compute the fuel they need from their input.  Those that read from the socket
    have one turn per read that is left and two more, and [get_request] one per byte
    that can still arrive; [get_request_ends] shows that no loop runs out.  That the
    loops over the memory map end is part of [address_space_refines].  The evaluation of
    an expression has the limit of 10000 steps of the source.
    The steps of the compression threads need no fuel: that every schedule ends is part
    of [writer_completes].  A read or skip of a stream has one turn per byte asked for and one
    per byte of the file.
    The filter of a listing takes its fuel as an argument; one turn per entry of a
    buffer and one more are enough.
    The loops of the timeline run a session, so their fuel is an argument.  One turn per
    state of the execution and one more are enough to make marks and to seek, and the
    square of the number of states for [reverse_continue]; the theorems state these
    bounds and that an operation with this fuel returns.

    ** Not modelled

    Code whose meaning is the behaviour of the kernel under ptrace is outside this
    development: the record, replay and diversion sessions, the tasks and their
    register and memory accessors, the handlers of single system calls,
    remote system calls, the patching of system-call sites, performance counters, and
    the code injected into tracees ([preload]).  So are command-line handling and
    output, the generated bindings and system-call tables, and the files and sockets
    themselves.  Of the components that are modelled, [AddressSpace] leaves out
    the verification against [/proc] and what depends on live tasks,
    [WaitStatus] the printed forms, the gdb connection the accepting of a connection,
    and the timeline the printed forms and what happens when it is dropped; the counters
    of its checkpoints do not wrap. *)

From Stdlib Require Export ZArith Lia.
From stdpp Require Export base tactics option numbers list gmap strings relations sorting.

Open Scope Z_scope.

(** ** Fallible computations

    Rust code that can fail without returning is modelled in the monad [res].
    [Panic] is a failed check of the program itself: [unwrap], [panic!],
    [ed_assert!], [debug_assert!], an index out of range, or an arithmetic
    overflow of the checked build.  [Fatal] is rd giving up on something the
    kernel or the tracee did ([fatal!], and an [ed_assert!] about what the
    kernel reported).  [Spin] is a loop that has not ended within the fuel it
    was given. *)

Inductive res (A : Type) : Type :=
| Ok (a : A)
| Panic
| Fatal
| Spin.

Arguments Ok {A} a.
Arguments Panic {A}.
Arguments Fatal {A}.
Arguments Spin {A}.

#[global] Instance res_ret : MRet res := @Ok.

#[global] Instance res_bind : MBind res :=
  fun A B f m => match m with Ok a => f a | Panic => Panic | Fatal => Fatal | Spin => Spin end.

Definition is_ok {A} (m : res A) : bool :=
  match m with Ok _ => true | _ => false end.

(** [debug_assert!]/[ed_assert!]: the checked build stops when it fails. *)
Definition assert_ (b : bool) : res unit := if b then Ok tt else Panic.

(** [Option::unwrap]. *)
Definition unwrap {A} (o : option A) : res A :=
  match o with Some a => Ok a | None => Panic end.

Lemma bind_Ok {A B} (m : res A) (f : A -> res B) (b : B) :
  (m ≫= f) = Ok b <-> exists a, m = Ok a /\ f a = Ok b.
Proof.
  split; [|by intros (a & -> & ?)].
  destruct m as [a| | |]; simpl; [by exists a|discriminate..].
Qed.

Lemma assert_Ok b u : assert_ b = Ok u <-> b = true.
Proof. destruct b, u; naive_solver. Qed.

Lemma unwrap_Ok {A} (o : option A) a : unwrap o = Ok a <-> o = Some a.
Proof. destruct o; naive_solver. Qed.

(** Take an [Ok] computation apart into its steps. *)
Ltac res_inv :=
  repeat match goal with
  | H : (_ ≫= _) = Ok _ |- _ =>
      apply bind_Ok in H; destruct H as (? & ? & H)
  | H : assert_ _ = Ok _ |- _ => apply assert_Ok in H
  | H : unwrap _ = Ok _ |- _ => apply unwrap_Ok in H
  | H : mret _ = Ok _ |- _ => injection H as H
  | H : Ok _ = Ok _ |- _ => injection H as H
  | H : Panic = Ok _ |- _ => discriminate H
  | H : Fatal = Ok _ |- _ => discriminate H
  | H : Spin = Ok _ |- _ => discriminate H
  end.

(** ** Machine integers *)

(** [wrap w z] is [z] reduced to an unsigned [w]-bit integer, [swrap w z] to a
    two's complement signed one: Rust's [as] casts and wrapping operations. *)
Definition wrap (w z : Z) : Z := z mod 2 ^ w.
Definition swrap (w z : Z) : Z :=
  let u := z mod 2 ^ w in if u <? 2 ^ (w - 1) then u else u - 2 ^ w.

Abbreviation USIZE := 18446744073709551616.
Abbreviation I64_BOUND := 9223372036854775808.

(** Checked [usize]/[u64] arithmetic of the debug build. *)
Definition checked_add (a b : Z) : res Z :=
  if a + b <? USIZE then Ok (a + b) else Panic.
Definition checked_sub (a b : Z) : res Z :=
  if b <=? a then Ok (a - b) else Panic.

Definition in_usize (z : Z) : Prop := 0 <= z < USIZE.
Definition in_i64 (z : Z) : Prop := - I64_BOUND <= z < I64_BOUND.

Lemma wrap_range w z : 0 <= w -> 0 <= wrap w z < 2 ^ w.
Proof. intros. apply Z.mod_pos_bound. lia. Qed.

Lemma wrap_small w z : 0 <= z < 2 ^ w -> wrap w z = z.
Proof. apply Z.mod_small. Qed.

Lemma swrap_range w z : 0 < w -> - 2 ^ (w - 1) <= swrap w z < 2 ^ (w - 1).
Proof.
  intros Hw. unfold swrap.
  assert (2 ^ w = 2 * 2 ^ (w - 1)) as E
    by (rewrite <- Z.pow_succ_r by lia; f_equal; lia).
  pose proof (Z.mod_pos_bound z (2 ^ w) ltac:(lia)).
  destruct (Z.ltb_spec (z mod 2 ^ w) (2 ^ (w - 1))); lia.
Qed.

Lemma swrap_small w z : 0 < w -> - 2 ^ (w - 1) <= z < 2 ^ (w - 1) -> swrap w z = z.
Proof.
  intros Hw Hz. unfold swrap.
  assert (2 ^ w = 2 * 2 ^ (w - 1)) as E
    by (rewrite <- Z.pow_succ_r by lia; f_equal; lia).
  destruct (Z.leb_spec 0 z).
  - rewrite Z.mod_small by lia. destruct (Z.ltb_spec z (2 ^ (w - 1))); lia.
  - replace (z mod 2 ^ w) with (z + 2 ^ w).
    + destruct (Z.ltb_spec (z + 2 ^ w) (2 ^ (w - 1))); lia.
    + apply Z.mod_unique with (-1); lia.
Qed.

Lemma swrap_wrap w z : 0 < w -> swrap w (wrap w z) = swrap w z.
Proof.
  intros. unfold swrap, wrap. rewrite Z.mod_mod by lia. done.
Qed.

Lemma wrap_swrap w z : 0 < w -> wrap w (swrap w z) = wrap w z.
Proof.
  intros. unfold swrap, wrap. destruct (_ <? _).
  - by rewrite Z.mod_mod by lia.
  - rewrite <- (Z.mod_mod z (2 ^ w)) at 2 by lia.
    rewrite <- (Z_mod_plus_full (z mod 2 ^ w - 2 ^ w) 1 (2 ^ w)). f_equal. lia.
Qed.

(** ** Bit masks as remainders *)

Lemma land_ones_mod z n k : 0 <= n -> k = Z.ones n -> Z.land z k = z mod 2 ^ n.
Proof. intros ? ->. by apply Z.land_ones. Qed.

Lemma land_7f z : Z.land z 127 = z mod 128.
Proof. by rewrite (land_ones_mod z 7). Qed.

Lemma land_ff z : Z.land z 255 = z mod 256.
Proof. by rewrite (land_ones_mod z 8). Qed.

Lemma shiftr_div z n : 0 <= n -> Z.shiftr z n = z / 2 ^ n.
Proof. apply Z.shiftr_div_pow2. Qed.

(** ** Bounded quantification by evaluation *)

(** [below n P] checks [P] on [0 .. n-1]; a property of a byte or of a signal
    number is decided by evaluating it at every value. *)
Fixpoint below (n : nat) (P : Z -> bool) : bool :=
  match n with
  | O => true
  | S n' => P (Z.of_nat n') && below n' P
  end.

Lemma below_spec n P : below n P = true -> forall z, 0 <= z < Z.of_nat n -> P z = true.
Proof.
  induction n as [|n IH]; simpl; intros H z Hz; [lia|].
  apply andb_true_iff in H as [H1 H2].
  destruct (decide (z = Z.of_nat n)) as [->|]; [done|]. apply IH; [done|lia].
Qed.

Ltac by_enumeration P n :=
  let z := fresh "z" in
  let H := fresh in
  refine (fun z => _);
  assert (below n P = true) as H by (vm_compute; reflexivity);
  generalize (below_spec n P H z); clear H.

(** ** Automation shared by the components *)

(** Split a conjunction, without introducing what is under binders. *)
Ltac splits := repeat match goal with |- _ /\ _ => split end.

(** [lia] with [/] and [mod] by constants. *)
Ltac zdiv_lia := Z.to_euclidean_division_equations; lia.

Create HintDb rd discriminated.

#[export] Hint Resolve wrap_range swrap_range : rd.

Ltac bool_cases :=
  repeat match goal with
  | |- context [if ?b then _ else _] => destruct b eqn:?
  | H : context [if ?b then _ else _] |- _ => destruct b eqn:?
  end.

(** Turn boolean comparisons in the context into arithmetic facts. *)
Ltac to_Z :=
  repeat match goal with
  | H : (_ && _) = true |- _ => apply andb_true_iff in H; destruct H
  | H : (_ || _) = false |- _ => apply orb_false_iff in H; destruct H
  | H : negb _ = true |- _ => apply negb_true_iff in H
  | H : negb _ = false |- _ => apply negb_false_iff in H
  | H : (_ =? _) = true |- _ => apply Z.eqb_eq in H
  | H : (_ =? _) = false |- _ => apply Z.eqb_neq in H
  | H : (_ <? _) = true |- _ => apply Z.ltb_lt in H
  | H : (_ <? _) = false |- _ => apply Z.ltb_ge in H
  | H : (_ <=? _) = true |- _ => apply Z.leb_le in H
  | H : (_ <=? _) = false |- _ => apply Z.leb_gt in H
  end.

(** ** Boolean filters *)

Lemma elem_of_bfilter {A} (f : A -> bool) l x : x ∈ List.filter f l <-> x ∈ l /\ f x = true.
Proof. rewrite !list_elem_of_In. apply filter_In. Qed.

Lemma bfilter_length_le {A} (f : A -> bool) l : (length (List.filter f l) <= length l)%nat.
Proof. induction l; simpl; [lia|]. destruct (f _); simpl; lia. Qed.

Lemma bfilter_length_lt {A} (f g : A -> bool) l x :
  (forall y, g y = true -> f y = true) -> x ∈ l -> f x = true -> g x = false ->
  (length (List.filter g l) < length (List.filter f l))%nat.
Proof.
  intros Himp Hx Hf Hg.
  assert (forall l, (length (List.filter g l) <= length (List.filter f l))%nat) as Hle.
  { clear -Himp. induction l as [|y l IH]; simpl; [done|]. pose proof (Himp y).
    destruct (g y), (f y); simpl; first [lia | naive_solver]. }
  induction l as [|y l IH]; [set_solver|]. simpl.
  apply elem_of_cons in Hx as [<-|Hx].
  - rewrite Hf, Hg. simpl. pose proof (Hle l). lia.
  - pose proof (Himp y). specialize (IH Hx).
    destruct (g y), (f y); simpl; first [lia | naive_solver].
Qed.

Lemma bfilter_sorted {A} (R : A -> A -> Prop) (f : A -> bool) l :
  StronglySorted R l -> StronglySorted R (List.filter f l).
Proof.
  induction 1 as [|y l Hs IH Hy]; simpl; [constructor|].
  destruct (f y); [|done]. constructor; [done|]. apply Forall_forall. intros z [Hz _]%elem_of_bfilter.
  by eapply Forall_forall in Hy.
Qed.

Lemma bfilter_ext {A} (f g : A -> bool) l :
  (forall x, x ∈ l -> f x = g x) -> List.filter f l = List.filter g l.
Proof.
  induction l as [|y l IH]; simpl; intros He; [done|].
  rewrite (He y ltac:(set_solver)), IH; [done|set_solver].
Qed.

Lemma bfilter_bfilter {A} (f g : A -> bool) l :
  List.filter f (List.filter g l) = List.filter (fun x => g x && f x) l.
Proof.
  induction l as [|y l IH]; simpl; [done|].
  destruct (g y); simpl; [destruct (f y)|]; by rewrite IH.
Qed.

(** Splitting a filter by a second test. *)
Lemma bfilter_split_perm {A} (f g : A -> bool) l :
  List.filter f l ≡ₚ List.filter (fun x => f x && g x) l ++ List.filter (fun x => f x && negb (g x)) l.
Proof.
  induction l as [|y l IH]; simpl; [done|].
  destruct (f y), (g y); simpl; rewrite IH; [done| |done|done].
  by rewrite Permutation_middle.
Qed.

Lemma bfilter_neg_perm {A} (f : A -> bool) l :
  List.filter (fun x => negb (f x)) l ++ List.filter f l ≡ₚ l.
Proof.
  induction l as [|y l IH]; simpl; [done|]. destruct (f y); simpl; [|by rewrite IH].
  by rewrite <- Permutation_middle, IH.
Qed.

Lemma StronglySorted_app_intro {A} (R : A -> A -> Prop) l1 l2 :
  StronglySorted R l1 -> StronglySorted R l2 ->
  (forall x y, x ∈ l1 -> y ∈ l2 -> R x y) -> StronglySorted R (l1 ++ l2).
Proof.
  induction 1 as [|x l1 Hs IH Hx]; simpl; intros H2 H12; [done|].
  constructor; [apply IH; set_solver|]. apply Forall_app. split; [done|].
  apply Forall_forall. set_solver.
Qed.

(** ** Ordered sets

    Rust's [BTreeSet] and the key side of [BTreeMap], as the list of the
    elements in increasing order.  [cmp] is the element's [Ord]; elements that
    compare [Eq] are one element for the set even when they differ. *)

Class CmpLaws {A : Type} (cmp : A -> A -> comparison) : Prop := {
  cmp_antisym : forall x y, cmp y x = CompOpp (cmp x y);
  cmp_trans : forall x y z, cmp x y = Lt -> cmp y z = Lt -> cmp x z = Lt;
  cmp_eq_l : forall x y z, cmp x y = Eq -> cmp x z = cmp y z
}.

Arguments cmp_antisym {A} cmp {_} x y.
Arguments cmp_trans {A} cmp {_} x y z _ _.
Arguments cmp_eq_l {A} cmp {_} x y z _.

Section OrdSet.
Context {A : Type} (cmp : A -> A -> comparison).

(** [BTreeSet::insert]: an element that is already there is kept. *)
Fixpoint bt_insert (x : A) (l : list A) : list A :=
  match l with
  | [] => [x]
  | y :: l' =>
      match cmp x y with
      | Lt => x :: l
      | Eq => l
      | Gt => y :: bt_insert x l'
      end
  end.

(** [BTreeSet::remove]. *)
Fixpoint bt_remove (x : A) (l : list A) : list A :=
  match l with
  | [] => []
  | y :: l' => match cmp x y with Eq => l' | _ => y :: bt_remove x l' end
  end.

(** [BTreeSet::contains]. *)
Definition bt_contains (x : A) (l : list A) : bool :=
  existsb (fun y => match cmp x y with Eq => true | _ => false end) l.

(** [BTreeSet::range(x..)]. *)
Definition bt_range_from (x : A) (l : list A) : list A :=
  List.filter (fun y => match cmp y x with Lt => false | _ => true end) l.

Definition bt_sorted : list A -> Prop := StronglySorted (fun x y => cmp x y = Lt).

Context {Laws : CmpLaws cmp}.

Lemma cmp_refl x : cmp x x = Eq.
Proof. pose proof (cmp_antisym cmp x x) as H. by destruct (cmp x x). Qed.

Lemma cmp_gt_lt x y : cmp x y = Gt <-> cmp y x = Lt.
Proof. rewrite (cmp_antisym cmp x y). by destruct (cmp x y). Qed.

Lemma cmp_eq_sym x y : cmp x y = Eq <-> cmp y x = Eq.
Proof. rewrite (cmp_antisym cmp x y). by destruct (cmp x y). Qed.

Lemma cmp_eq_r x y z : cmp y z = Eq -> cmp x y = cmp x z.
Proof.
  intros H. rewrite (cmp_antisym cmp y x), (cmp_antisym cmp z x). f_equal. by apply (cmp_eq_l cmp).
Qed.

Lemma elem_of_bt_insert_inv x l z : z ∈ bt_insert x l -> z = x \/ z ∈ l.
Proof.
  induction l as [|y l IH]; simpl; [set_solver|]. destruct (cmp x y); set_solver.
Qed.

Lemma elem_of_bt_insert x l z :
  (forall y, y ∈ l -> cmp x y <> Eq) -> z ∈ bt_insert x l <-> z = x \/ z ∈ l.
Proof.
  induction l as [|y l IH]; simpl; intros Hn; [set_solver|].
  specialize (IH ltac:(set_solver)). pose proof (Hn y ltac:(set_solver)).
  destruct (cmp x y); set_solver.
Qed.

Lemma bt_insert_sorted x l : bt_sorted l -> bt_sorted (bt_insert x l).
Proof.
  intros Hs. induction Hs as [|y l Hs IH Hy]; simpl; [repeat constructor|].
  destruct (cmp x y) eqn:E.
  - by constructor.
  - constructor; [by constructor|]. constructor; [done|].
    eapply Forall_impl; [exact Hy|]. intros z Hz. by eapply (cmp_trans cmp).
  - constructor; [done|]. apply Forall_forall. intros z Hz%elem_of_bt_insert_inv.
    destruct Hz as [->|Hz]; [by apply cmp_gt_lt|]. by eapply Forall_forall in Hy.
Qed.

Lemma elem_of_bt_remove x l z :
  bt_sorted l -> z ∈ bt_remove x l <-> z ∈ l /\ cmp x z <> Eq.
Proof.
  intros Hs. induction Hs as [|y l Hs IH Hy]; simpl; [set_solver|].
  rewrite Forall_forall in Hy. destruct (cmp x y) eqn:E.
  - split; [|set_solver]. intros Hz. split; [set_solver|].
    rewrite (cmp_eq_l cmp _ _ z E), (Hy z Hz). done.
  - rewrite !elem_of_cons, IH. naive_solver congruence.
  - rewrite !elem_of_cons, IH. naive_solver congruence.
Qed.

Lemma bt_remove_sorted x l : bt_sorted l -> bt_sorted (bt_remove x l).
Proof.
  intros Hs. induction Hs as [|y l Hs IH Hy]; simpl; [constructor|].
  destruct (cmp x y); [done|..];
    (constructor; [done|]; apply Forall_forall; intros z Hz;
     apply elem_of_bt_remove in Hz as [Hz _]; [by eapply Forall_forall in Hy|done]).
Qed.

Lemma bt_contains_spec x l :
  bt_contains x l = true <-> exists y, y ∈ l /\ cmp x y = Eq.
Proof.
  unfold bt_contains. rewrite existsb_exists.
  split; intros (y & H1 & H2); exists y; rewrite ?list_elem_of_In in *; destruct (cmp x y); naive_solver.
Qed.

Lemma bt_sorted_NoDup l : bt_sorted l -> NoDup l.
Proof.
  induction 1 as [|y l Hs IH Hy]; constructor; [|done].
  intros Hin. eapply Forall_forall in Hy; [|done]. by rewrite cmp_refl in Hy.
Qed.

(** A sorted list has one element per class of [Eq]. *)
Lemma bt_sorted_eq l x y : bt_sorted l -> x ∈ l -> y ∈ l -> cmp x y = Eq -> x = y.
Proof.
  intros Hs. induction Hs as [|z l Hs IH Hz]; [set_solver|]. rewrite Forall_forall in Hz.
  rewrite !elem_of_cons. intros [->|Hx] [->|Hy] E; [done| | |auto].
  - by rewrite (Hz y Hy) in E.
  - apply cmp_eq_sym in E. by rewrite (Hz x Hx) in E.
Qed.

Lemma bt_range_from_sorted x l : bt_sorted l -> bt_sorted (bt_range_from x l).
Proof.
  unfold bt_range_from.
  induction 1 as [|y l Hs IH Hy]; simpl; [constructor|].
  destruct (cmp y x); [|done|]; (constructor; [done|]; apply Forall_forall; intros z Hz;
    apply elem_of_bfilter in Hz as [Hz _]; by eapply Forall_forall in Hy).
Qed.

End OrdSet.
