(* ===== verification/Float64.v ===== *)
(** IEEE-754 binary64 as the scheduler uses it: the operations of Rust's [f64]
    on the executable specification floats of the Standard Library. *)

From Stdlib Require Import SpecFloat.
From S2P Require Import Prelude.

Module F64.

Abbreviation f64 := spec_float.
Abbreviation prec := 53.
Abbreviation emax := 1024.

Definition zero : f64 := S754_zero false.

(** [as f64] on an integer. *)
Definition of_Z (z : Z) : f64 := binary_normalize prec emax z 0 false.

Definition add : f64 -> f64 -> f64 := SFadd prec emax.
Definition sub : f64 -> f64 -> f64 := SFsub prec emax.
Definition mul : f64 -> f64 -> f64 := SFmul prec emax.
Definition div : f64 -> f64 -> f64 := SFdiv prec emax.
Definition lt : f64 -> f64 -> bool := SFltb.
Definition eqb : f64 -> f64 -> bool := SFeqb.

(** [2.0_f64.powi(n)]; exact for the exponents in range. *)
Definition pow2 (n : Z) : f64 := binary_normalize prec emax 1 n false.

(** The literal [n/d]: the division is correctly rounded. *)
Definition lit (n d : Z) : f64 := div (of_Z n) (of_Z d).

(** [f64::min] and [f64::max]: a NaN operand is ignored. *)
Definition min (x y : f64) : f64 :=
  match x, y with
  | S754_nan, _ => y
  | _, S754_nan => x
  | _, _ => if lt y x then y else x
  end.

Definition max (x y : f64) : f64 :=
  match x, y with
  | S754_nan, _ => y
  | _, S754_nan => x
  | _, _ => if lt x y then y else x
  end.

(** [x % y], the exact C remainder with the sign of [x]. *)
Definition rem (x y : f64) : f64 :=
  match x, y with
  | S754_nan, _ | _, S754_nan | S754_infinity _, _ | _, S754_zero _ => S754_nan
  | S754_zero _, _ | _, S754_infinity _ => x
  | S754_finite sx mx ex, S754_finite _ my ey =>
      let e := Z.min ex ey in
      let a := Z.pos mx * 2 ^ (ex - e) in
      let b := Z.pos my * 2 ^ (ey - e) in
      let r := a mod b in
      binary_normalize prec emax (cond_Zopp sx r) e sx
  end.

(** [f64::floor]. *)
Definition floor (x : f64) : f64 :=
  match x with
  | S754_finite s m e =>
      if 0 <=? e then x
      else binary_normalize prec emax (cond_Zopp s (Z.pos m) / 2 ^ (- e)) 0 s
  | _ => x
  end.

#[global] Arguments of_Z : simpl never.
#[global] Arguments add : simpl never.
#[global] Arguments sub : simpl never.
#[global] Arguments mul : simpl never.
#[global] Arguments div : simpl never.
#[global] Arguments pow2 : simpl never.
#[global] Arguments lit : simpl never.
#[global] Arguments rem : simpl never.
#[global] Arguments lt : simpl never.

Lemma rem_zero_r x s : rem x (S754_zero s) = S754_nan.
Proof. by destruct x. Qed.

Lemma lt_nan_l y : lt S754_nan y = false.
Proof. done. Qed.

End F64.
