(* ===== verification/WaitStatus.v ===== *)
(** Signals and wait statuses: [src/src/sig.rs] and [src/src/wait_status.rs].

    A wait status is the [i32] the kernel's [waitpid] fills in.  The file
    models the accessors and the [for_*] constructors bit for bit, the libc
    status macros they use, and proves how every status is classified and
    that each constructor is decoded to what it was made from. *)

From S2P Require Import Prelude.

(** ** Signals, [sig.rs] *)

Module Signals.

(** [struct Sig(i32)]. *)
Record Sig := mkSig { as_raw : Z }.

#[global] Instance Sig_eq_dec : EqDecision Sig.
Proof. solve_decision. Defined.

(** [impl TryFrom<i32> for Sig]. *)
Definition try_from_i32 (sig : Z) : option Sig :=
  if (0 <? sig) && (sig <? 128) then Some (mkSig sig) else None.

(** [impl TryFrom<usize> for Sig]. *)
Definition try_from_usize (sig : Z) : option Sig :=
  if sig <? 128 then Some (mkSig sig) else None.

Definition SIGTRAP : Sig := mkSig 5.
Definition SIGSTOP : Sig := mkSig 19.

(** Signals that the fallible conversion from [i32] accepts. *)
Definition valid (s : Sig) : Prop := 0 < as_raw s < 128.

End Signals.
Import Signals.

(** ** Wait statuses, [wait_status.rs] *)

Module Status.

Inductive WaitType :=
| Exit
| FatalSignal
| SignalStop
| GroupStop
| SyscallStop
| PtraceEvent.

#[global] Instance WaitType_eq_dec : EqDecision WaitType.
Proof. solve_decision. Defined.

Record WaitStatus := new { status : Z }.

(** *** The libc status macros *)

Definition WIFEXITED (s : Z) : bool := Z.land s 127 =? 0.
Definition WEXITSTATUS (s : Z) : Z := Z.land (Z.shiftr s 8) 255.
Definition WIFSIGNALED (s : Z) : bool := 2 <=? swrap 8 (Z.land s 127 + 1).
Definition WTERMSIG (s : Z) : Z := Z.land s 127.
Definition WIFSTOPPED (s : Z) : bool := Z.land s 255 =? 127.
Definition WSTOPSIG (s : Z) : Z := Z.land (Z.shiftr s 8) 255.

Definition PTRACE_EVENT_STOP : Z := 128.
Definition PTRACE_O_TRACESYSGOOD : Z := 1.

(** *** The optional payloads *)

(** [MaybePtraceEvent(Option<NonZeroU8>)] and [MaybePtraceEvent::new_event]. *)
Abbreviation MaybePtraceEvent := (option Z).
Definition new_event (val : Z) : MaybePtraceEvent :=
  if (val =? 0) || (255 <? val) then None else Some val.

(** [MaybeStopSignal(Option<Sig>)] and [MaybeStopSignal::new_sig]. *)
Abbreviation MaybeStopSignal := (option Sig).
Definition new_sig (sig : Z) : MaybeStopSignal := try_from_i32 sig.

Definition is_some {A} (o : option A) : bool :=
  match o with Some _ => true | None => false end.

(** *** Accessors *)

Definition exit_code (w : WaitStatus) : option Z :=
  if WIFEXITED (status w) then Some (WEXITSTATUS (status w)) else None.

Definition fatal_sig (w : WaitStatus) : option Sig :=
  let termsig := WTERMSIG (status w) in
  if WIFSIGNALED (status w) then try_from_i32 termsig else None.

Definition maybe_stop_sig (w : WaitStatus) : MaybeStopSignal :=
  if negb (WIFSTOPPED (status w)) || negb (Z.land (Z.shiftr (status w) 16) 255 =? 0)
  then None
  else
    let sig := WSTOPSIG (status w) in
    if sig =? Z.lor (as_raw SIGTRAP) 128 then None
    else
      let sig := Z.land sig (Z.lnot 128) in
      if negb (sig =? 0) then new_sig sig else new_sig (as_raw SIGSTOP).

Definition maybe_group_stop_sig (w : WaitStatus) : MaybeStopSignal :=
  if negb (WIFSTOPPED (status w))
     || negb (Z.land (Z.shiftr (status w) 16) 255 =? PTRACE_EVENT_STOP)
  then None
  else
    let sig := Z.land (WSTOPSIG (status w)) (Z.lnot 128) in
    if negb (sig =? 0) then new_sig sig else new_sig (as_raw SIGSTOP).

Definition maybe_ptrace_event (w : WaitStatus) : MaybePtraceEvent :=
  let event := Z.land (Z.shiftr (status w) 16) 255 in
  if (event =? PTRACE_EVENT_STOP) || (event =? 0) then None else new_event event.

Definition is_syscall (w : WaitStatus) : bool :=
  if is_some (maybe_ptrace_event w) || negb (WIFSTOPPED (status w))
  then false
  else WSTOPSIG (status w) =? Z.lor (as_raw SIGTRAP) 128.

Definition ptrace_signal (w : WaitStatus) : option Sig :=
  if WIFSTOPPED (status w)
  then try_from_i32 (Z.land (WSTOPSIG (status w)) 127)
  else None.

(** [wait_type]: the order of the tests is the source's; a status no test
    accepts is [fatal!]. *)
Definition wait_type (w : WaitStatus) : res WaitType :=
  if is_some (exit_code w) then Ok Exit
  else if is_some (fatal_sig w) then Ok FatalSignal
  else if is_some (maybe_stop_sig w) then Ok SignalStop
  else if is_some (maybe_group_stop_sig w) then Ok GroupStop
  else if is_syscall w then Ok SyscallStop
  else if is_some (maybe_ptrace_event w) then Ok PtraceEvent
  else Fatal.

(** *** Constructors *)

Definition for_exit_code (code : Z) : res WaitStatus :=
  _ ← assert_ ((0 <=? code) && (code <? 256));
  Ok (new (Z.shiftl code 8)).

Definition for_fatal_sig (sig : Sig) : WaitStatus := new (as_raw sig).

Definition for_stop_sig (sig : Sig) : WaitStatus :=
  new (Z.lor (Z.shiftl (as_raw sig) 8) 127).

(** The task is used through its [emulated_ptrace_seized] flag only. *)
Definition for_group_sig (sig : Sig) (emulated_ptrace_seized : bool) : WaitStatus :=
  let code := Z.lor (Z.shiftl (as_raw sig) 8) 127 in
  new (if emulated_ptrace_seized
       then Z.lor code (Z.shiftl PTRACE_EVENT_STOP 16) else code).

(** The task is used through its [emulated_ptrace_options] only. *)
Definition for_syscall (emulated_ptrace_options : Z) : WaitStatus :=
  let code := Z.lor (Z.shiftl (as_raw SIGTRAP) 8) 127 in
  new (if negb (Z.land emulated_ptrace_options PTRACE_O_TRACESYSGOOD =? 0)
       then Z.lor code (Z.shiftl 128 8) else code).

Definition for_ptrace_event (ptrace_event : Z) : res WaitStatus :=
  _ ← assert_ ((1 <=? ptrace_event) && (ptrace_event <? 256));
  Ok (new (Z.lor (Z.lor (Z.shiftl ptrace_event 16) (Z.shiftl (as_raw SIGTRAP) 8)) 127)).

(** ** Lemmas *)

(** The fields of a status: bits 0-6, 0-7, 8-15 and 16-23. *)
Definition low7 (s : Z) : Z := s mod 128.
Definition low8 (s : Z) : Z := s mod 256.
Definition sig_byte (s : Z) : Z := (s / 256) mod 256.
Definition event_byte (s : Z) : Z := (s / 65536) mod 256.

Lemma WIFEXITED_low7 s : WIFEXITED s = (low7 s =? 0).
Proof. unfold WIFEXITED. by rewrite land_7f. Qed.

Lemma WIFSIGNALED_low7 s :
  WIFSIGNALED s = (1 <=? low7 s) && (low7 s <=? 126).
Proof.
  unfold WIFSIGNALED. rewrite land_7f. fold (low7 s).
  assert (0 <= low7 s < 128) as Hr by (apply Z.mod_pos_bound; lia).
  generalize (low7 s) Hr. intros z Hz. apply eqb_prop.
  apply (below_spec 128 (fun z => Bool.eqb (2 <=? swrap 8 (z + 1)) ((1 <=? z) && (z <=? 126))));
    [by vm_compute | lia].
Qed.

Lemma WIFSTOPPED_low8 s : WIFSTOPPED s = (low8 s =? 127).
Proof. unfold WIFSTOPPED. by rewrite land_ff. Qed.

Lemma event_byte_land s : Z.land (Z.shiftr s 16) 255 = event_byte s.
Proof. by rewrite land_ff, shiftr_div. Qed.

Lemma sig_byte_land s : WSTOPSIG s = sig_byte s.
Proof. unfold WSTOPSIG. by rewrite land_ff, shiftr_div. Qed.

Lemma clear_bit7 z : 0 <= z < 256 -> Z.land z (Z.lnot 128) = z mod 128.
Proof.
  intros Hz. apply Z.eqb_eq.
  apply (below_spec 256 (fun z => Z.land z (Z.lnot 128) =? z mod 128));
    [by vm_compute | lia].
Qed.

Lemma try_from_i32_valid z :
  0 < z < 128 -> try_from_i32 z = Some (mkSig z).
Proof.
  intros. unfold try_from_i32.
  destruct (Z.ltb_spec 0 z), (Z.ltb_spec z 128); simpl; done || lia.
Qed.

Lemma fields_range s :
  0 <= low7 s < 128 /\ 0 <= low8 s < 256 /\ 0 <= sig_byte s < 256 /\ 0 <= event_byte s < 256 /\
  (low8 s = low7 s \/ low8 s = low7 s + 128).
Proof.
  unfold low7, low8, sig_byte, event_byte.
  repeat split; try (apply Z.mod_pos_bound; lia). zdiv_lia.
Qed.

(** The signal a stop carries: bit 7 is dropped and 0 is read as [SIGSTOP]. *)
Definition stop_payload (b : Z) : Sig :=
  if b mod 128 =? 0 then SIGSTOP else mkSig (b mod 128).

Lemma stop_payload_decoded b :
  0 <= b < 256 ->
  (let sig := Z.land b (Z.lnot 128) in
   if negb (sig =? 0) then new_sig sig else new_sig (as_raw SIGSTOP))
  = Some (stop_payload b).
Proof.
  intros Hb. rewrite clear_bit7 by done. unfold stop_payload, new_sig. simpl.
  destruct (Z.eqb_spec (b mod 128) 0); simpl; [done|].
  apply try_from_i32_valid. zdiv_lia.
Qed.

(** Rewrite every accessor to the fields of the status. *)
Lemma fatal_sig_fields s :
  fatal_sig (new s)
  = if (1 <=? low7 s) && (low7 s <=? 126) then Some (mkSig (low7 s)) else None.
Proof.
  unfold fatal_sig. simpl. rewrite WIFSIGNALED_low7.
  unfold WTERMSIG. rewrite land_7f. fold (low7 s).
  destruct (_ && _) eqn:E; [|done]. to_Z. apply try_from_i32_valid. lia.
Qed.

Lemma stop_sig_fields s :
  maybe_stop_sig (new s)
  = if (low8 s =? 127) && (event_byte s =? 0) && negb (sig_byte s =? 133)
    then Some (stop_payload (sig_byte s)) else None.
Proof.
  unfold maybe_stop_sig. simpl status.
  rewrite WIFSTOPPED_low8, event_byte_land, sig_byte_land.
  rewrite stop_payload_decoded by apply fields_range.
  change (Z.lor (as_raw SIGTRAP) 128) with 133.
  destruct (low8 s =? 127), (event_byte s =? 0), (sig_byte s =? 133); done.
Qed.

Lemma group_stop_sig_fields s :
  maybe_group_stop_sig (new s)
  = if (low8 s =? 127) && (event_byte s =? 128)
    then Some (stop_payload (sig_byte s)) else None.
Proof.
  unfold maybe_group_stop_sig, PTRACE_EVENT_STOP. simpl status.
  rewrite WIFSTOPPED_low8, event_byte_land, sig_byte_land.
  rewrite stop_payload_decoded by apply fields_range.
  destruct (low8 s =? 127), (event_byte s =? 128); done.
Qed.

Lemma ptrace_event_fields s :
  maybe_ptrace_event (new s)
  = if (event_byte s =? 128) || (event_byte s =? 0) then None else Some (event_byte s).
Proof.
  unfold maybe_ptrace_event, new_event, PTRACE_EVENT_STOP. simpl status.
  rewrite event_byte_land. pose proof (fields_range s) as (_ & _ & _ & ? & _).
  destruct (Z.eqb_spec (event_byte s) 128), (Z.eqb_spec (event_byte s) 0); try done.
  destruct (Z.ltb_spec 255 (event_byte s)); [lia|done].
Qed.

Lemma is_syscall_fields s :
  is_syscall (new s)
  = (low8 s =? 127) && ((event_byte s =? 128) || (event_byte s =? 0)) && (sig_byte s =? 133).
Proof.
  unfold is_syscall. simpl status.
  rewrite ptrace_event_fields, WIFSTOPPED_low8, sig_byte_land.
  change (Z.lor (as_raw SIGTRAP) 128) with 133.
  by destruct (low8 s =? 127), (event_byte s =? 128), (event_byte s =? 0).
Qed.

Ltac status_fields :=
  rewrite ?fatal_sig_fields, ?stop_sig_fields, ?group_stop_sig_fields,
    ?is_syscall_fields, ?ptrace_event_fields.

(** Split on the fields of a status. *)
Ltac status_cases s :=
  pose proof (fields_range s);
  destruct (Z.eqb_spec (low7 s) 0), (Z.leb_spec 1 (low7 s)), (Z.leb_spec (low7 s) 126),
    (Z.eqb_spec (low8 s) 127), (Z.eqb_spec (event_byte s) 0),
    (Z.eqb_spec (event_byte s) 128), (Z.eqb_spec (sig_byte s) 133);
  simpl; try lia; try done.

(** The classification a status gets, field by field. *)
Definition classify (s : Z) : res WaitType :=
  if low7 s =? 0 then Ok Exit
  else if low7 s <=? 126 then Ok FatalSignal
  else if event_byte s =? 0 then
    if low8 s =? 127 then
      if sig_byte s =? 133 then Ok SyscallStop else Ok SignalStop
    else Fatal
  else if event_byte s =? 128 then
    if low8 s =? 127 then Ok GroupStop else Fatal
  else Ok PtraceEvent.

Lemma wait_type_classify s : wait_type (new s) = classify s.
Proof.
  unfold wait_type, classify. status_fields.
  unfold exit_code. simpl status. rewrite WIFEXITED_low7.
  status_cases s.
Qed.

(** [wait_type] classifies a 32-bit status by its fields alone, and reaches
    its [fatal!] exactly on the statuses whose low byte is 0xff and whose event
    byte is 0 or [PTRACE_EVENT_STOP] (the "continued" status 0xffff is one). *)
Theorem wait_type_spec s :
  wait_type (new s) = classify s /\
  (wait_type (new s) = Fatal <->
   low8 s = 255 /\ (event_byte s = 0 \/ event_byte s = PTRACE_EVENT_STOP)).
Proof.
  rewrite wait_type_classify. split; [done|].
  unfold classify, PTRACE_EVENT_STOP. status_cases s; split; intros; try done; lia.
Qed.

(** The accessors are exclusive: of a classified status, each of
    [exit_code], [fatal_sig], [maybe_stop_sig], [maybe_group_stop_sig] has a
    value exactly when [wait_type] names its case, [is_syscall] holds for no
    other case than a syscall or group stop, and a stop's [maybe_ptrace_event]
    has a value exactly for ptrace events. *)
Theorem accessors_exclusive w t :
  wait_type w = Ok t ->
  (is_some (exit_code w) = true <-> t = Exit) /\
  (is_some (fatal_sig w) = true <-> t = FatalSignal) /\
  (is_some (maybe_stop_sig w) = true <-> t = SignalStop) /\
  (is_some (maybe_group_stop_sig w) = true <-> t = GroupStop) /\
  (t = SyscallStop -> is_syscall w = true) /\
  (is_syscall w = true -> t = SyscallStop \/ t = GroupStop) /\
  (WIFSTOPPED (status w) = true ->
   (is_some (maybe_ptrace_event w) = true <-> t = PtraceEvent)).
Proof.
  destruct w as [s]. rewrite wait_type_classify. unfold classify, exit_code.
  status_fields. simpl status. rewrite WIFEXITED_low7, WIFSTOPPED_low8.
  status_cases s; intros [= <-]; naive_solver.
Qed.

Lemma accessors_exclusive_witness :
  wait_type (new 4991) = Ok SignalStop /\ is_some (maybe_stop_sig (new 4991)) = true.
Proof.
  assert (wait_type (new 4991) = Ok SignalStop) as H by (vm_compute; reflexivity).
  split; [exact H|].
  destruct (accessors_exclusive (new 4991) SignalStop H) as (_ & _ & Hs & _).
  by apply Hs.
Defined.

(** *** Constructors: evaluation over all signals, codes and events *)

Definition opt_sig_eqb (o : option Sig) (z : Z) : bool :=
  match o with Some s => as_raw s =? z | None => false end.

Definition type_eqb (r : res WaitType) (t : WaitType) : bool :=
  match r with Ok t' => bool_decide (t' = t) | _ => false end.

Lemma opt_sig_eqb_true o z : opt_sig_eqb o z = true -> o = Some (mkSig z).
Proof. destruct o as [[x]|]; simpl; [by intros ->%Z.eqb_eq|congruence]. Qed.

Lemma type_eqb_true r t : type_eqb r t = true -> r = Ok t.
Proof. destruct r; simpl; [by intros ->%bool_decide_eq_true|congruence..]. Qed.

(** [P] holds of every valid signal when it evaluates to [true] on 1..127. *)
Lemma valid_sig_enum (P : Sig -> bool) :
  below 128 (fun z => (z =? 0) || P (mkSig z)) = true ->
  forall s, valid s -> P s = true.
Proof.
  intros H [z] Hv. unfold valid in Hv. simpl in Hv.
  pose proof (below_spec _ _ H z ltac:(lia)) as Hz.
  cbv beta in Hz. destruct (Z.eqb_spec z 0); [lia|exact Hz].
Qed.

Lemma for_exit_code_decoded code :
  0 <= code < 256 ->
  exists w, for_exit_code code = Ok w /\ wait_type w = Ok Exit /\ exit_code w = Some code.
Proof.
  intros Hc. exists (new (Z.shiftl code 8)). unfold for_exit_code.
  destruct (Z.leb_spec 0 code), (Z.ltb_spec code 256); try lia.
  rewrite wait_type_classify. unfold classify, exit_code. simpl status.
  rewrite WIFEXITED_low7. fold (WSTOPSIG (Z.shiftl code 8)).
  unfold WEXITSTATUS. fold (WSTOPSIG (Z.shiftl code 8)). rewrite sig_byte_land.
  rewrite Z.shiftl_mul_pow2 by lia. unfold low7, sig_byte.
  assert ((code * 2 ^ 8) mod 128 = 0) as -> by zdiv_lia.
  assert ((code * 2 ^ 8 / 256) mod 256 = code) as -> by zdiv_lia. done.
Qed.

Lemma for_fatal_sig_decoded sig :
  valid sig -> as_raw sig <> 127 ->
  wait_type (for_fatal_sig sig) = Ok FatalSignal /\ fatal_sig (for_fatal_sig sig) = Some sig.
Proof.
  destruct sig as [z]. unfold valid, for_fatal_sig. simpl. intros Hv Hn.
  rewrite wait_type_classify, fatal_sig_fields. unfold classify, low7.
  rewrite Z.mod_small by lia.
  destruct (Z.eqb_spec z 0), (Z.leb_spec 1 z), (Z.leb_spec z 126); done || lia.
Qed.

Lemma for_stop_sig_decoded sig :
  valid sig ->
  wait_type (for_stop_sig sig) = Ok SignalStop /\ maybe_stop_sig (for_stop_sig sig) = Some sig.
Proof.
  intros Hv.
  pose proof (valid_sig_enum
    (fun s => type_eqb (wait_type (for_stop_sig s)) SignalStop
              && opt_sig_eqb (maybe_stop_sig (for_stop_sig s)) (as_raw s))
    ltac:(by vm_compute) sig Hv) as [H1 H2]%andb_true_iff.
  apply type_eqb_true in H1. apply opt_sig_eqb_true in H2. by destruct sig.
Qed.

Lemma for_group_sig_decoded sig :
  valid sig ->
  wait_type (for_group_sig sig true) = Ok GroupStop /\
  maybe_group_stop_sig (for_group_sig sig true) = Some sig /\
  for_group_sig sig false = for_stop_sig sig.
Proof.
  intros Hv.
  pose proof (valid_sig_enum
    (fun s => type_eqb (wait_type (for_group_sig s true)) GroupStop
              && opt_sig_eqb (maybe_group_stop_sig (for_group_sig s true)) (as_raw s))
    ltac:(by vm_compute) sig Hv) as [H1 H2]%andb_true_iff.
  apply type_eqb_true in H1. apply opt_sig_eqb_true in H2. by destruct sig.
Qed.

Definition opt_eqb (o : option Z) (z : Z) : bool :=
  match o with Some x => x =? z | None => false end.

Lemma for_ptrace_event_decoded ev :
  1 <= ev < 256 -> ev <> PTRACE_EVENT_STOP ->
  exists w, for_ptrace_event ev = Ok w /\ wait_type w = Ok PtraceEvent /\
    maybe_ptrace_event w = Some ev /\ ptrace_signal w = Some SIGTRAP.
Proof.
  intros Hv Hn. unfold for_ptrace_event, PTRACE_EVENT_STOP in *.
  destruct (Z.leb_spec 1 ev), (Z.ltb_spec ev 256); try lia. simpl. eexists. split; [done|].
  pose proof (below_spec 256
    (fun z => let w := new (Z.lor (Z.lor (Z.shiftl z 16) 1280) 127) in
       (z =? 0) || (z =? 128) || (type_eqb (wait_type w) PtraceEvent
       && (opt_eqb (maybe_ptrace_event w) z && opt_sig_eqb (ptrace_signal w) 5)))
    ltac:(by vm_compute) ev ltac:(lia)) as Hz. cbv zeta beta in Hz.
  destruct (Z.eqb_spec ev 0), (Z.eqb_spec ev 128); try lia.
  apply andb_true_iff in Hz as [H1 [H2 H3]%andb_true_iff].
  apply type_eqb_true in H1. apply opt_sig_eqb_true in H3.
  unfold opt_eqb in H2. destruct (maybe_ptrace_event _) as [e|]; [|done].
  apply Z.eqb_eq in H2 as ->. done.
Qed.

(** Decoding inverts construction: the status each [for_*] constructor
    makes is classified as its own case and its accessor returns the exit
    code, signal or event it was made from.  The one exception is signal 127,
    which [for_fatal_sig] encodes as a stop status. *)
Theorem constructors_roundtrip :
  (forall code, 0 <= code < 256 ->
     exists w, for_exit_code code = Ok w /\ wait_type w = Ok Exit /\ exit_code w = Some code) /\
  (forall sig, valid sig -> as_raw sig <> 127 ->
     wait_type (for_fatal_sig sig) = Ok FatalSignal /\ fatal_sig (for_fatal_sig sig) = Some sig) /\
  wait_type (for_fatal_sig (mkSig 127)) = Ok SignalStop /\
  (forall sig, valid sig ->
     wait_type (for_stop_sig sig) = Ok SignalStop /\ maybe_stop_sig (for_stop_sig sig) = Some sig) /\
  (forall sig, valid sig ->
     wait_type (for_group_sig sig true) = Ok GroupStop /\
     maybe_group_stop_sig (for_group_sig sig true) = Some sig /\
     for_group_sig sig false = for_stop_sig sig) /\
  (forall ev, 1 <= ev < 256 -> ev <> PTRACE_EVENT_STOP ->
     exists w, for_ptrace_event ev = Ok w /\ wait_type w = Ok PtraceEvent /\
       maybe_ptrace_event w = Some ev /\ ptrace_signal w = Some SIGTRAP) /\
  (forall opts, wait_type (for_syscall opts)
     = Ok (if Z.testbit opts 0 then SyscallStop else SignalStop)).
Proof.
  split_and!; auto using for_exit_code_decoded, for_fatal_sig_decoded, for_stop_sig_decoded,
    for_group_sig_decoded, for_ptrace_event_decoded.
  intros opts. unfold for_syscall, PTRACE_O_TRACESYSGOOD.
  rewrite (land_ones_mod opts 1) by done.
  change (2 ^ 1) with 2. rewrite <- Z.bit0_mod. by destruct (Z.testbit opts 0).
Qed.

End Status.
Import Status.
