(* ===== verification/Scheduler.v ===== *)
(** The recording scheduler: [src/src/scheduler.rs] and [src/src/priority_tup.rs].

    The scheduler's fields, the fields of [RecordTask] it reads and writes and
    the session's task map are the state; the kernel (ptrace, waitpid, timers,
    clock), the random number generator and the ptrace side of a task are an
    environment [W] with the operations of the class [Env].  Operations are
    functions of a state and error monad. *)

From Stdlib Require Import SpecFloat.
From S2P Require Import Prelude Float64 WaitStatus.

Module Sched.
Import F64 Status.

(** ** Data *)

(** The identity of a task, [Rc::ptr_eq] on [TaskSharedPtr]. *)
Abbreviation TaskId := positive.

(** The fields of [RecordTask] the scheduler uses. *)
Record Task := mkTask {
  tid : Z;
  tgid : Z;
  stable_serial : Z;
  priority : Z;
  in_round_robin_queue : bool;
  unstable : bool;
  stable_exit : bool
}.

Definition set_priority (p : Z) (t : Task) : Task :=
  mkTask (tid t) (tgid t) (stable_serial t) p (in_round_robin_queue t) (unstable t) (stable_exit t).
Definition set_in_rrq (b : bool) (t : Task) : Task :=
  mkTask (tid t) (tgid t) (stable_serial t) (priority t) b (unstable t) (stable_exit t).
Definition set_unstable (b : bool) (t : Task) : Task :=
  mkTask (tid t) (tgid t) (stable_serial t) (priority t) (in_round_robin_queue t) b (stable_exit t).
Definition set_tid (n : Z) (t : Task) : Task :=
  mkTask n (tgid t) (stable_serial t) (priority t) (in_round_robin_queue t) (unstable t) (stable_exit t).

(** [struct PriorityTup(i32, u32, TaskSharedWeakPtr)]; its order ignores the
    pointer. *)
Record PriorityTup := mkTup { tup_priority : Z; tup_serial : Z; tup_task : TaskId }.

#[global] Instance PriorityTup_eq_dec : EqDecision PriorityTup.
Proof. solve_decision. Defined.

Definition tup_cmp (a b : PriorityTup) : comparison :=
  match tup_priority a ?= tup_priority b with
  | Lt => Lt
  | Eq => tup_serial a ?= tup_serial b
  | Gt => Gt
  end.

Inductive Switchable := PreventSwitch | AllowSwitch.

Record Rescheduled := mkRescheduled {
  interrupted_by_signal : bool;
  by_waitpid : bool;
  started_new_timeslice : bool
}.

(** [struct Scheduler]; the affinity mask is in [Affinity] below. *)
Record Scheduler := mkScheduler {
  task_priority_set : list PriorityTup;
  task_round_robin_queue : list TaskId;
  current_ : option TaskId;
  current_timeslice_end_ : Z;
  hpo_refresh_time : f64;
  hpo_start : f64;
  hpo_duration : f64;
  hpo_period : f64;
  priorities_refresh_time : f64;
  max_ticks_ : Z;
  must_run_task : option TaskId;
  in_exec_tgid : option Z;
  always_switch : bool;
  enable_chaos : bool;
  enable_poll : bool;
  last_reschedule_in_high_priority_only_interval : bool;
  pretend_num_cores_ : Z
}.

Definition new (max_ticks : Z) (always_switch : bool) : Scheduler :=
  mkScheduler [] [] None 0 zero zero zero zero zero max_ticks None None
    always_switch false false false 1.

(** ** The environment *)

Inductive WaitResult :=
| Waited (wtid raw_status : Z)
| WaitFailed (errno : Z).

Definition EINTR : Z := 4.
Definition PTRACE_EVENT_EXEC : Z := 4.
Definition PTRACE_EVENT_EXIT : Z := 6.

Class Env (W : Type) := {
  (* kernel and C library *)
  clock_gettime : W -> (Z * Z) * W;
  nanosleep : W -> Z -> Z -> W;
  waitpid : W -> WaitResult * W;
  setitimer : W -> Z -> Z * W;
  ptrace_geteventmsg : W -> Z -> option Z * W;
  (* rand *)
  random_u16 : W -> Z * W;
  random_u32 : W -> Z * W;
  random_u64 : W -> Z * W;
  shuffle : W -> list PriorityTup -> list PriorityTup * W;
  (* the ptrace side of a task *)
  tick_count : W -> TaskId -> Z;
  is_running : W -> TaskId -> bool;
  is_dying : W -> TaskId -> bool;
  processing_syscall : W -> TaskId -> option Z;
  emulated_stopped : W -> TaskId -> bool;
  sigcont_pending : W -> TaskId -> bool;
  is_sched_yield_syscall : W -> TaskId -> Z -> bool;
  is_exit_syscall : W -> TaskId -> Z -> bool;
  is_exit_group_syscall : W -> TaskId -> Z -> bool;
  emulate_sigcont : W -> TaskId -> W;
  resume_execution : W -> TaskId -> W;
  try_wait : W -> TaskId -> bool * W;
  wait_blocking : W -> TaskId -> option f64 -> W;
  did_waitpid : W -> TaskId -> WaitStatus -> W
}.

Section Monad.
Context {W : Type}.

Record St := mkSt {
  sch : Scheduler;
  tasks : gmap TaskId Task;
  task_map : gmap Z TaskId;
  world : W
}.

Definition M (A : Type) : Type := St -> res (A * St).

#[global] Instance M_ret : MRet M := fun A a s => Ok (a, s).
#[global] Instance M_bind : MBind M :=
  fun A B f m s => match m s with
                   | Ok (a, s') => f a s'
                   | Panic => Panic
                   | Fatal => Fatal
                   | Spin => Spin
                   end.

Definition get : M St := fun s => Ok (s, s).
Definition panic {A} : M A := fun _ => Panic.
Definition fatal {A} : M A := fun _ => Fatal.
(** [fatal!] when the condition does not hold. *)
Definition fatal_unless (b : bool) : M unit := fun s => if b then Ok (tt, s) else Fatal.
Definition spin {A} : M A := fun _ => Spin.
Definition assert (b : bool) : M unit := fun s => if b then Ok (tt, s) else Panic.
Definition mod_sch (f : Scheduler -> Scheduler) : M unit :=
  fun s => Ok (tt, mkSt (f (sch s)) (tasks s) (task_map s) (world s)).
Definition gets {A} (f : Scheduler -> A) : M A := fun s => Ok (f (sch s), s).
Definition mod_tasks (f : gmap TaskId Task -> gmap TaskId Task) : M unit :=
  fun s => Ok (tt, mkSt (sch s) (f (tasks s)) (task_map s) (world s)).
Definition set_task_map (m : gmap Z TaskId) : M unit :=
  fun s => Ok (tt, mkSt (sch s) (tasks s) m (world s)).
(** An operation of the environment, with and without effect. *)
Definition env {A} (f : W -> A * W) : M A :=
  fun s => let '(a, w) := f (world s) in Ok (a, mkSt (sch s) (tasks s) (task_map s) w).
Definition env_ (f : W -> W) : M unit := env (fun w => (tt, f w)).
Definition ask {A} (f : W -> A) : M A := fun s => Ok (f (world s), s).
End Monad.

Arguments St W : clear implicits.
Arguments M W A : clear implicits.

(** ** Field updates of the scheduler *)

Definition set_pset l s := mkScheduler l (task_round_robin_queue s) (current_ s) (current_timeslice_end_ s) (hpo_refresh_time s) (hpo_start s) (hpo_duration s) (hpo_period s) (priorities_refresh_time s) (max_ticks_ s) (must_run_task s) (in_exec_tgid s) (always_switch s) (enable_chaos s) (enable_poll s) (last_reschedule_in_high_priority_only_interval s) (pretend_num_cores_ s).
Definition set_queue q s := mkScheduler (task_priority_set s) q (current_ s) (current_timeslice_end_ s) (hpo_refresh_time s) (hpo_start s) (hpo_duration s) (hpo_period s) (priorities_refresh_time s) (max_ticks_ s) (must_run_task s) (in_exec_tgid s) (always_switch s) (enable_chaos s) (enable_poll s) (last_reschedule_in_high_priority_only_interval s) (pretend_num_cores_ s).
Definition set_current_ c s := mkScheduler (task_priority_set s) (task_round_robin_queue s) c (current_timeslice_end_ s) (hpo_refresh_time s) (hpo_start s) (hpo_duration s) (hpo_period s) (priorities_refresh_time s) (max_ticks_ s) (must_run_task s) (in_exec_tgid s) (always_switch s) (enable_chaos s) (enable_poll s) (last_reschedule_in_high_priority_only_interval s) (pretend_num_cores_ s).
Definition set_timeslice_end e s := mkScheduler (task_priority_set s) (task_round_robin_queue s) (current_ s) e (hpo_refresh_time s) (hpo_start s) (hpo_duration s) (hpo_period s) (priorities_refresh_time s) (max_ticks_ s) (must_run_task s) (in_exec_tgid s) (always_switch s) (enable_chaos s) (enable_poll s) (last_reschedule_in_high_priority_only_interval s) (pretend_num_cores_ s).
Definition set_hpo refresh start duration period s := mkScheduler (task_priority_set s) (task_round_robin_queue s) (current_ s) (current_timeslice_end_ s) refresh start duration period (priorities_refresh_time s) (max_ticks_ s) (must_run_task s) (in_exec_tgid s) (always_switch s) (enable_chaos s) (enable_poll s) (last_reschedule_in_high_priority_only_interval s) (pretend_num_cores_ s).
Definition set_priorities_refresh_time p s := mkScheduler (task_priority_set s) (task_round_robin_queue s) (current_ s) (current_timeslice_end_ s) (hpo_refresh_time s) (hpo_start s) (hpo_duration s) (hpo_period s) p (max_ticks_ s) (must_run_task s) (in_exec_tgid s) (always_switch s) (enable_chaos s) (enable_poll s) (last_reschedule_in_high_priority_only_interval s) (pretend_num_cores_ s).
Definition set_must_run m s := mkScheduler (task_priority_set s) (task_round_robin_queue s) (current_ s) (current_timeslice_end_ s) (hpo_refresh_time s) (hpo_start s) (hpo_duration s) (hpo_period s) (priorities_refresh_time s) (max_ticks_ s) m (in_exec_tgid s) (always_switch s) (enable_chaos s) (enable_poll s) (last_reschedule_in_high_priority_only_interval s) (pretend_num_cores_ s).
Definition set_in_exec_tgid g s := mkScheduler (task_priority_set s) (task_round_robin_queue s) (current_ s) (current_timeslice_end_ s) (hpo_refresh_time s) (hpo_start s) (hpo_duration s) (hpo_period s) (priorities_refresh_time s) (max_ticks_ s) (must_run_task s) g (always_switch s) (enable_chaos s) (enable_poll s) (last_reschedule_in_high_priority_only_interval s) (pretend_num_cores_ s).
Definition set_enable_poll b s := mkScheduler (task_priority_set s) (task_round_robin_queue s) (current_ s) (current_timeslice_end_ s) (hpo_refresh_time s) (hpo_start s) (hpo_duration s) (hpo_period s) (priorities_refresh_time s) (max_ticks_ s) (must_run_task s) (in_exec_tgid s) (always_switch s) (enable_chaos s) b (last_reschedule_in_high_priority_only_interval s) (pretend_num_cores_ s).
Definition set_last_hpo b s := mkScheduler (task_priority_set s) (task_round_robin_queue s) (current_ s) (current_timeslice_end_ s) (hpo_refresh_time s) (hpo_start s) (hpo_duration s) (hpo_period s) (priorities_refresh_time s) (max_ticks_ s) (must_run_task s) (in_exec_tgid s) (always_switch s) (enable_chaos s) (enable_poll s) b (pretend_num_cores_ s).

Definition set_max_ticks_ n s := mkScheduler (task_priority_set s) (task_round_robin_queue s) (current_ s) (current_timeslice_end_ s) (hpo_refresh_time s) (hpo_start s) (hpo_duration s) (hpo_period s) (priorities_refresh_time s) n (must_run_task s) (in_exec_tgid s) (always_switch s) (enable_chaos s) (enable_poll s) (last_reschedule_in_high_priority_only_interval s) (pretend_num_cores_ s).
Definition set_always b s := mkScheduler (task_priority_set s) (task_round_robin_queue s) (current_ s) (current_timeslice_end_ s) (hpo_refresh_time s) (hpo_start s) (hpo_duration s) (hpo_period s) (priorities_refresh_time s) (max_ticks_ s) (must_run_task s) (in_exec_tgid s) b (enable_chaos s) (enable_poll s) (last_reschedule_in_high_priority_only_interval s) (pretend_num_cores_ s).
Definition set_chaos b s := mkScheduler (task_priority_set s) (task_round_robin_queue s) (current_ s) (current_timeslice_end_ s) (hpo_refresh_time s) (hpo_start s) (hpo_duration s) (hpo_period s) (priorities_refresh_time s) (max_ticks_ s) (must_run_task s) (in_exec_tgid s) (always_switch s) b (enable_poll s) (last_reschedule_in_high_priority_only_interval s) (pretend_num_cores_ s).
Definition set_cores n s := mkScheduler (task_priority_set s) (task_round_robin_queue s) (current_ s) (current_timeslice_end_ s) (hpo_refresh_time s) (hpo_start s) (hpo_duration s) (hpo_period s) (priorities_refresh_time s) (max_ticks_ s) (must_run_task s) (in_exec_tgid s) (always_switch s) (enable_chaos s) (enable_poll s) (last_reschedule_in_high_priority_only_interval s) n.

(** ** Operations *)

Section Ops.
Context {W : Type} `{Env W}.

(** [Weak::upgrade().unwrap()] followed by a field access. *)
Definition task (t : TaskId) : M W Task :=
  fun s => match tasks s !! t with Some T => Ok (T, s) | None => Panic end.

Definition update_task (t : TaskId) (f : Task -> Task) : M W unit :=
  T ← task t; mod_tasks (<[t := f T]>).

Definition current : M W (option TaskId) :=
  c ← gets current_;
  match c with
  | None => mret None
  | Some t => _ ← task t; mret (Some t)
  end.

Definition set_current (maybe_t : option TaskId) : M W unit :=
  mod_sch (set_current_ maybe_t).

Definition expire_timeslice : M W unit := mod_sch (set_timeslice_end 0).

(** *** Settings *)

Definition MaxMaxTicks : Z := 1000000000.

Definition set_max_ticks (max_ticks : Z) : M W unit :=
  _ ← assert (max_ticks <=? MaxMaxTicks); mod_sch (set_max_ticks_ max_ticks).
Definition set_always_switch (always : bool) : M W unit := mod_sch (set_always always).
Definition set_enable_chaos (chaos : bool) : M W unit := mod_sch (set_chaos chaos).
Definition set_num_cores (num_cores : Z) : M W unit := mod_sch (set_cores num_cores).

(** [PriorityTup(t.priority, t.stable_serial(), t)]. *)
Definition tup_of (t : TaskId) (T : Task) : PriorityTup :=
  mkTup (priority T) (stable_serial T) t.

Definition pset_insert (p : PriorityTup) : M W unit :=
  mod_sch (fun s => set_pset (bt_insert tup_cmp p (task_priority_set s)) s).
Definition pset_remove (p : PriorityTup) : M W unit :=
  mod_sch (fun s => set_pset (bt_remove tup_cmp p (task_priority_set s)) s).

(** *** Time and randomness *)

(** [util.rs: monotonic_now_sec]. *)
Definition monotonic_now_sec : M W f64 :=
  ts ← env clock_gettime;
  mret (add (of_Z ts.1) (div (of_Z ts.2) (of_Z 1000000000))).

Definition random_frac : M W f64 :=
  r ← env random_u32; mret (div (of_Z r) (of_Z 4294967295)).

(** [sleep_time(0.001)]: the whole and the nanosecond part. *)
Definition sleep_time_1ms : M W unit := env_ (fun w => nanosleep w 0 1000000).

Definition LOW_PRIORITY_PROBABILITY : f64 := lit 1 10.
Definition MAIN_THREAD_LOW_PRIORITY_PROBABILITY : f64 := lit 3 10.
Definition VERY_SHORT_TIMESLICE_PROBABILITY : f64 := lit 1 10.
Definition VERY_SHORT_TIMESLICE_MAX_DURATION : Z := 100.
Definition SHORT_TIMESLICE_PROBABILITY : f64 := lit 1 10.
Definition SHORT_TIMESLICE_MAX_DURATION : Z := 10000.
Definition PRIORITIES_REFRESH_MAX_INTERVAL : Z := 20.
Definition MIN_HIGH_PRIORITY_ONLY_DURATION : f64 := lit 1 1000.
Definition HIGH_PRIORITY_ONLY_DURATION_STEPS : Z := 12.
Definition HIGH_PRIORITY_ONLY_FRACTION : f64 := lit 1 5.

Definition choose_random_priority (t : TaskId) : M W Z :=
  T ← task t;
  let prob := if tgid T =? tid T then MAIN_THREAD_LOW_PRIORITY_PROBABILITY
              else LOW_PRIORITY_PROBABILITY in
  r ← random_frac;
  mret (if lt r prob then 1 else 0).

Definition maybe_reset_high_priority_only_intervals (now : f64) : M W unit :=
  s ← gets id;
  if negb (enable_chaos s) || lt now (hpo_refresh_time s) then mret tt
  else
    r ← env random_u16;
    let duration_step := r mod HIGH_PRIORITY_ONLY_DURATION_STEPS in
    let duration := mul MIN_HIGH_PRIORITY_ONLY_DURATION (pow2 duration_step) in
    let period := div duration HIGH_PRIORITY_ONLY_FRACTION in
    frac ← random_frac;
    let start := add now (mul frac (sub period duration)) in
    let refresh := add now
      (div (mul MIN_HIGH_PRIORITY_ONLY_DURATION (pow2 (HIGH_PRIORITY_ONLY_DURATION_STEPS - 1)))
         HIGH_PRIORITY_ONLY_FRACTION) in
    mod_sch (set_hpo refresh start duration period).

Definition in_high_priority_only_interval (now : f64) (s : Scheduler) : bool :=
  if lt now (hpo_start s) then false
  else lt (rem (sub now (hpo_start s)) (hpo_period s)) (hpo_duration s).

Definition interrupt_after_elapsed_time : M W f64 :=
  s ← gets id;
  delay ← (if enable_chaos s then
      now ← monotonic_now_sec;
      let delay := of_Z 3 in
      let delay :=
        if negb (eqb (hpo_start s) zero) then
          let next_interval_start :=
            add (mul (add (floor (div (sub now (hpo_start s)) (hpo_period s))) (of_Z 1))
                     (hpo_period s)) (hpo_start s) in
          min delay (sub next_interval_start now)
        else delay in
      let delay :=
        if negb (eqb (hpo_refresh_time s) zero)
        then min delay (sub (hpo_refresh_time s) now) else delay in
      mret (if negb (eqb (priorities_refresh_time s) zero)
            then min delay (sub (priorities_refresh_time s) now) else delay)
    else mret (of_Z 3));
  mret (max (lit 1 1000) delay).

(** *** Priorities *)

Definition update_task_priority_internal (t : TaskId) (value : Z) : M W unit :=
  T ← task t;
  chaos ← gets enable_chaos;
  let value := if stable_exit T && negb chaos then -9999 else value in
  if priority T =? value then mret tt
  else if in_round_robin_queue T then update_task t (set_priority value)
  else
    _ ← pset_remove (tup_of t T);
    _ ← update_task t (set_priority value);
    T' ← task t;
    pset_insert (tup_of t T').

Definition update_task_priority (t : TaskId) (value : Z) : M W unit :=
  chaos ← gets enable_chaos;
  if negb chaos then update_task_priority_internal t value else mret tt.

Definition in_stable_exit (t : TaskId) : M W unit :=
  T ← task t; update_task_priority_internal t (priority T).

Fixpoint for_each {A} (f : A -> M W unit) (l : list A) : M W unit :=
  match l with
  | [] => mret tt
  | a :: l' => _ ← f a; for_each f l'
  end.

Definition maybe_reset_priorities (now : f64) : M W unit :=
  s ← gets id;
  if negb (enable_chaos s) || lt now (priorities_refresh_time s) then mret tt
  else
    r ← random_frac;
    _ ← mod_sch (set_priorities_refresh_time
                   (add now (mul r (of_Z PRIORITIES_REFRESH_MAX_INTERVAL))));
    let ts := map tup_task (task_priority_set s) ++ task_round_robin_queue s in
    for_each (fun t => p ← choose_random_priority t; update_task_priority_internal t p) ts.

(** *** The round-robin queue *)

Definition get_round_robin_task : M W (option TaskId) :=
  q ← gets task_round_robin_queue;
  match q with
  | [] => mret None
  | t :: _ => _ ← task t; mret (Some t)
  end.

Definition maybe_pop_round_robin_task (t : TaskId) : M W unit :=
  q ← gets task_round_robin_queue;
  match q with
  | [] => mret tt
  | front :: rest =>
      if decide (front = t) then
        _ ← mod_sch (set_queue rest);
        _ ← update_task t (set_in_rrq false);
        T ← task t;
        pset_insert (tup_of t T)
      else mret tt
  end.

Definition schedule_one_round_robin (t : TaskId) : M W unit :=
  c ← current;
  match c : option TaskId with
  | None => panic
  | Some curr =>
      _ ← assert (bool_decide (curr = t));
      _ ← maybe_pop_round_robin_task t;
      T ← task t;
      _ ← assert (negb (in_round_robin_queue T));
      ps ← gets task_priority_set;
      _ ← for_each (fun p =>
             tt_ ← task (tup_task p);
             if negb (bool_decide (t = tup_task p)) && negb (in_round_robin_queue tt_) then
               _ ← mod_sch (fun s => set_queue (task_round_robin_queue s ++ [tup_task p]) s);
               update_task (tup_task p) (set_in_rrq true)
             else mret tt) ps;
      _ ← mod_sch (set_pset []);
      _ ← mod_sch (fun s => set_queue (task_round_robin_queue s ++ [t]) s);
      _ ← update_task t (set_in_rrq true);
      expire_timeslice
  end.

(** *** Creation, destruction, execve *)

Definition on_create_task (t : TaskId) : M W unit :=
  T ← task t;
  _ ← assert (negb (in_round_robin_queue T));
  chaos ← gets enable_chaos;
  _ ← (if chaos : bool then p ← choose_random_priority t; update_task t (set_priority p)
       else mret tt);
  T ← task t;
  pset_insert (tup_of t T).

(** [thread_group_len] is [t.thread_group().borrow().task_set().len()]. *)
Fixpoint remove_first (t : TaskId) (q : list TaskId) : list TaskId :=
  match q with
  | [] => []
  | x :: q' => if decide (x = t) then q' else x :: remove_first t q'
  end.

Definition on_destroy_task (t : TaskId) (thread_group_len : Z) : M W unit :=
  c ← gets current_;
  _ ← (if decide (c = Some t) then mod_sch (set_current_ None) else mret tt);
  T ← task t;
  g ← gets in_exec_tgid;
  _ ← (if bool_decide (g = Some (tgid T)) && (thread_group_len =? 1)
       then mod_sch (set_in_exec_tgid None) else mret tt);
  if in_round_robin_queue T
  then mod_sch (fun s => set_queue (remove_first t (task_round_robin_queue s)) s)
  else pset_remove (tup_of t T).

Definition did_enter_execve (t : TaskId) : M W unit :=
  g ← gets in_exec_tgid;
  _ ← assert (bool_decide (g = None));
  T ← task t;
  mod_sch (set_in_exec_tgid (Some (tgid T))).

Definition did_exit_execve (t : TaskId) : M W unit :=
  g ← gets in_exec_tgid;
  T ← task t;
  _ ← assert (bool_decide (g = Some (tgid T)));
  mod_sch (set_in_exec_tgid None).

(** *** Runnable tasks *)

(** [RecordTask::may_be_blocked]. *)
Definition may_be_blocked (w : W) (t : TaskId) : bool :=
  bool_decide (is_Some (processing_syscall w t)) || emulated_stopped w t.

Definition treat_syscall_as_nonblocking (w : W) (t : TaskId) (syscallno : Z) : bool :=
  is_sched_yield_syscall w t syscallno || is_exit_syscall w t syscallno
  || is_exit_group_syscall w t syscallno.

(** [Task::wait] asserts that the task is stable before it blocks. *)
Definition wait (t : TaskId) (timeout : option f64) : M W unit :=
  T ← task t;
  _ ← assert (negb (unstable T));
  env_ (fun w => wait_blocking w t timeout).

Definition must_run (t : TaskId) : M W unit := mod_sch (set_must_run (Some t)).

(** [is_task_runnable]: the result and the new value of [*by_waitpid]. *)
Definition is_task_runnable (t : TaskId) (bw : bool) : M W (bool * bool) :=
  m ← gets must_run_task;
  _ ← assert (bool_decide (m = None));
  T ← task t;
  if unstable T then mret (true, bw)
  else
  blocked ← ask (fun w => may_be_blocked w t);
  if negb blocked then mret (true, bw)
  else
  stopped ← ask (fun w => emulated_stopped w t);
  if stopped : bool then
    cont ← ask (fun w => sigcont_pending w t);
    if cont : bool then
      _ ← env_ (fun w => emulate_sigcont w t);
      _ ← env_ (fun w => resume_execution w t);
      _ ← must_run t;
      mret (true, true)
    else
      _ ← mod_sch (set_enable_poll true);
      _ ← env (fun w => try_wait w t);
      d ← ask (fun w => is_dying w t);
      mret (d, bw)
  else
  running ← ask (fun w => is_running w t);
  if negb running then _ ← must_run t; mret (true, true)
  else
  nonblocking ← ask (fun w => match processing_syscall w t with
                              | Some n => treat_syscall_as_nonblocking w t n
                              | None => false
                              end);
  if nonblocking : bool then
    _ ← wait t None;
    _ ← must_run t;
    mret (true, true)
  else
  did_wait ← env (fun w => try_wait w t);
  if did_wait : bool then _ ← must_run t; mret (true, true)
  else mret (false, bw).

(** *** Search for the next task *)

Definition i32_add (a b : Z) : M W Z :=
  if (-2147483648 <=? a + b) && (a + b <=? 2147483647) then mret (a + b) else panic.

(** The [for] loop over a group of tasks with one priority. *)
Fixpoint first_runnable (l : list PriorityTup) (bw : bool) : M W (option TaskId * bool) :=
  match l with
  | [] => mret (None, bw)
  | p :: l' =>
      r ← is_task_runnable (tup_task p) bw;
      if (r : bool * bool).1 then mret (Some (tup_task p), r.2)
      else first_runnable l' r.2
  end.

(** [range(start..end)] of the priority set. *)
Definition pset_range (start end_ : PriorityTup) (l : list PriorityTup) : list PriorityTup :=
  List.filter (fun p => match tup_cmp p start, tup_cmp p end_ with
                        | Lt, _ => false
                        | _, Lt => true
                        | _, _ => false
                        end) l.

(** The order a group is searched in when chaos mode is off: round-robin after
    [maybe_t] when it belongs to the group. *)
Definition group_order (maybe_t : option (TaskId * Task)) (pset : list PriorityTup)
    (prio : Z) (group : list PriorityTup) : list PriorityTup :=
  match maybe_t with
  | Some (t, T) =>
      if (priority T =? prio)
         && bt_contains tup_cmp (mkTup prio (stable_serial T) t) pset
      then
        let lte p := match tup_cmp p (mkTup prio (stable_serial T) t) with
                     | Gt => false | _ => true end in
        List.filter (fun p => negb (lte p)) group ++ List.filter lte group
      else group
  | None => group
  end.

Fixpoint find_loop (fuel : nat) (maybe_t : option TaskId) (bw : bool)
    (priority_threshold : Z) (range : list PriorityTup) : M W (option TaskId * bool) :=
  match fuel with
  | O => spin
  | S fuel' =>
      match range with
      | [] => mret (None, bw)
      | first :: _ =>
          let prio := tup_priority first in
          if priority_threshold <? prio then mret (None, bw)
          else
            next ← i32_add prio 1;
            pset ← gets task_priority_set;
            let group := pset_range (mkTup prio 0 1) (mkTup next 0 1) pset in
            chaos ← gets enable_chaos;
            order ← (if negb chaos then
                match maybe_t with
                | Some t => T ← task t; mret (group_order (Some (t, T)) pset prio group)
                | None => mret (group_order None pset prio group)
                end
              else env (fun w => shuffle w group));
            r ← first_runnable order bw;
            match (r : option TaskId * bool).1 with
            | Some t => mret (Some t, r.2)
            | None =>
                find_loop fuel' maybe_t r.2 priority_threshold
                  (bt_range_from tup_cmp (mkTup next 0 1) pset)
            end
      end
  end.

(** [find_next_runnable_task]: the task and the new [*by_waitpid]; each turn of
    the loop leaves at least one task of the set behind. *)
Definition find_next_runnable_task (maybe_t : option TaskId) (priority_threshold : Z)
  : M W (option TaskId * bool) :=
  pset ← gets task_priority_set;
  find_loop (S (length pset)) maybe_t false priority_threshold pset.

Definition treat_as_high_priority (t : TaskId) : M W bool :=
  pset ← gets task_priority_set;
  if (1 <? length pset)%nat then T ← task t; mret (priority T =? 0) else mret false.

Definition setup_new_timeslice : M W unit :=
  s ← gets id;
  dur ← (if enable_chaos s then
      frac ← random_frac;
      mret (if lt frac VERY_SHORT_TIMESLICE_PROBABILITY
            then VERY_SHORT_TIMESLICE_MAX_DURATION
            else if lt frac (add VERY_SHORT_TIMESLICE_PROBABILITY SHORT_TIMESLICE_PROBABILITY)
            then SHORT_TIMESLICE_MAX_DURATION
            else max_ticks_ s)
    else mret (max_ticks_ s));
  c ← current;
  match c : option TaskId with
  | None => panic
  | Some curr =>
      ticks ← ask (fun w => tick_count w curr);
      r ← env random_u64;
      let m := Z.min (max_ticks_ s) dur in
      _ ← assert (negb (m =? 0));
      let e := ticks + r mod m in
      _ ← assert (e <? USIZE);
      mod_sch (set_timeslice_end e)
  end.

Definition validate_scheduled_task : M W unit :=
  c ← current;
  match c : option TaskId with
  | None => panic
  | Some curr =>
      m ← gets must_run_task;
      _ ← match m : option TaskId with
          | None => mret tt
          | Some t => _ ← task t; assert (bool_decide (t = curr))
          end;
      q ← gets task_round_robin_queue;
      match q : list TaskId with
      | [] => mret tt
      | front :: _ => _ ← task front; assert (bool_decide (curr = front))
      end
  end.

(** *** Rescheduling *)

(** How the selection loop of [reschedule] ends: the current task carries on
    (the function returns), or the loop is left with a candidate. *)
Inductive Selection :=
| CarryOn (bw : bool)
| Candidate (maybe_next : option TaskId) (bw : bool) (now : f64).

(** "Determine if we should run current_ again": a runnable task of higher
    priority ([inl (Some _)]), the current task itself ([inl None]), or neither. *)
Inductive CurrentChoice :=
| HigherPriority (t : TaskId) (bw : bool)
| KeepCurrent (bw : bool)
| RejectCurrent (bw : bool).

Definition consider_current (curr : TaskId) (bw : bool) : M W CurrentChoice :=
  rr ← get_round_robin_task;
  T ← task curr;
  r ← match rr : option TaskId with
      | None => thr ← i32_add (priority T) (-1); find_next_runnable_task (Some curr) thr
      | Some _ => mret (None, bw)
      end;
  match (r : option TaskId * bool).1 with
  | Some t => mret (HigherPriority t r.2)
  | None =>
      let bw := r.2 in
      ticks ← ask (fun w => tick_count w curr);
      s ← gets id;
      high ← treat_as_high_priority curr;
      if negb (unstable T) && negb (always_switch s)
         && match rr with None => true | Some t => bool_decide (t = curr) end
         && (high || negb (last_reschedule_in_high_priority_only_interval s))
         && (ticks <? current_timeslice_end_ s)
      then
        q ← is_task_runnable curr bw;
        mret (if (q : bool * bool).1 then KeepCurrent q.2 else RejectCurrent q.2)
      else mret (RejectCurrent bw)
  end.

Fixpoint select_loop (fuel : nat) (maybe_next : option TaskId) (bw : bool) (now : f64)
  : M W Selection :=
  match fuel with
  | O => spin
  | S fuel' =>
      g ← gets in_exec_tgid;
      match g : option Z with
      | Some _ => mret (Candidate maybe_next bw now)
      | None =>
          _ ← maybe_reset_high_priority_only_intervals now;
          _ ← mod_sch (fun s => set_last_hpo (in_high_priority_only_interval now s) s);
          c ← current;
          choice ← match c : option TaskId with
                   | Some curr => consider_current curr bw
                   | None => mret (RejectCurrent bw)
                   end;
          match choice : CurrentChoice with
          | HigherPriority t bw => mret (Candidate (Some t) bw now)
          | KeepCurrent bw => _ ← validate_scheduled_task; mret (CarryOn bw)
          | RejectCurrent bw =>
              _ ← match c with
                  | Some curr => maybe_pop_round_robin_task curr
                  | None => mret tt
                  end;
              rr ← get_round_robin_task;
              match rr : option TaskId with
              | Some nt =>
                  q ← is_task_runnable nt bw;
                  if (q : bool * bool).1 then mret (Candidate (Some nt) q.2 now)
                  else
                    _ ← maybe_pop_round_robin_task nt;
                    select_loop fuel' (Some nt) q.2 now
              | None =>
                  c ← current;
                  r ← find_next_runnable_task c 2147483647;
                  let bw := (r : option TaskId * bool).2 in
                  match r.1 with
                  | Some nt =>
                      high ← treat_as_high_priority nt;
                      s ← gets id;
                      if negb high && last_reschedule_in_high_priority_only_interval s
                         && negb bw
                      then
                        _ ← sleep_time_1ms;
                        now ← monotonic_now_sec;
                        select_loop fuel' (Some nt) bw now
                      else mret (Candidate (Some nt) bw now)
                  | None => mret (Candidate None bw now)
                  end
              end
          end
      end
  end.

(** [record_session.rs: revive_task_for_exec], without the trace events. *)
Definition revive_task_for_exec (rec_tid : Z) : M W TaskId :=
  msg ← env (fun w => ptrace_geteventmsg w rec_tid);
  match msg : option Z with
  | None => fatal
  | Some old =>
      s ← get;
      match task_map s !! old with
      | None => fatal
      | Some t =>
          T ← task t;
          _ ← assert (rec_tid =? tgid T);
          _ ← set_task_map (<[rec_tid := t]> (delete (tid T) (task_map s)));
          _ ← update_task t (set_unstable false);
          _ ← update_task t (set_tid rec_tid);
          mret t
      end
  end.

(** The polling timer around [waitpid]. *)
Definition poll_timer (secs : Z) : M W unit :=
  p ← gets enable_poll;
  if p : bool then r ← env (fun w => setitimer w secs); fatal_unless (0 <=? r) else mret tt.

Definition timed_waitpid : M W WaitResult :=
  _ ← poll_timer 1;
  wr ← env waitpid;
  _ ← poll_timer 0;
  mret wr.

(** The task a wait status belongs to, before the "blocked or unstable" check. *)
Definition waited_task (wtid : Z) (status : WaitStatus) : M W (option TaskId) :=
  s ← get;
  let found := task_map s !! wtid in
  if bool_decide (maybe_ptrace_event status = Some PTRACE_EVENT_EXEC) then
    match found with
    | Some nt => _ ← update_task nt (set_unstable false); mret (Some nt)
    | None => t ← revive_task_for_exec wtid; mret (Some t)
    end
  else mret found.

(** The blocking [waitpid(-1)] loop; [None] is an interruption by a signal. *)
Fixpoint wait_loop (fuel : nat) : M W (option TaskId) :=
  match fuel with
  | O => spin
  | S fuel' =>
      wr ← timed_waitpid;
      match wr : WaitResult with
      | WaitFailed e =>
          if e =? EINTR then
            c ← current;
            match c : option TaskId with
            | None => panic
            | Some _ =>
                m ← gets must_run_task;
                _ ← assert (bool_decide (m = None));
                mret None
            end
          else fatal
      | Waited wtid raw_status =>
          let status := Status.new raw_status in
          found ← waited_task wtid status;
          match found : option TaskId with
          | None => wait_loop fuel'
          | Some nt =>
              T ← task nt;
              blocked ← ask (fun w => may_be_blocked w nt);
              _ ← assert (unstable T || blocked
                          || bool_decide (maybe_ptrace_event status = Some PTRACE_EVENT_EXIT));
              _ ← env_ (fun w => did_waitpid w nt status);
              g ← gets in_exec_tgid;
              if bool_decide (is_Some g) && negb (bool_decide (g = Some (tgid T)))
              then wait_loop fuel'
              else mret (Some nt)
          end
      end
  end.

(** Clear the round-robin queue: [while let Some(t) = get_round_robin_task()]. *)
Fixpoint clear_queue (fuel : nat) : M W unit :=
  match fuel with
  | O => spin
  | S fuel' =>
      rr ← get_round_robin_task;
      match rr : option TaskId with
      | None => mret tt
      | Some t => _ ← maybe_pop_round_robin_task t; clear_queue fuel'
      end
  end.

(** An invalid time: [now = -1.0] after [waitpid]. *)
Definition invalid_now : f64 := of_Z (-1).

(** The end of [reschedule]: switch to [nt] and give it a time slice. *)
Definition switch_to (nt : TaskId) (bw : bool) (now : f64) : M W Rescheduled :=
  _ ← maybe_reset_high_priority_only_intervals now;
  _ ← mod_sch (set_current_ (Some nt));
  _ ← validate_scheduled_task;
  _ ← setup_new_timeslice;
  mret (mkRescheduled false bw true).

(** The branch of [reschedule] in which all tasks are blocked, or an unstable
    task was found. *)
Definition wait_for_task (fuel : nat) (bw : bool) : M W Rescheduled :=
  q ← gets task_round_robin_queue;
  _ ← clear_queue (S (length q));
  r ← wait_loop fuel;
  match r : option TaskId with
  | None => mret (mkRescheduled true bw false)
  | Some nt => _ ← must_run nt; switch_to nt true invalid_now
  end.

Definition reschedule (fuel : nat) (switchable : Switchable) : M W Rescheduled :=
  _ ← mod_sch (set_must_run None);
  _ ← mod_sch (set_enable_poll false);
  now ← monotonic_now_sec;
  _ ← maybe_reset_priorities now;
  c ← current;
  match c : option TaskId, switchable with
  | Some curr, PreventSwitch =>
      running ← ask (fun w => is_running w curr);
      bw ← (if running : bool then
              d ← interrupt_after_elapsed_time;
              _ ← wait curr (Some d);
              mret true
            else mret false);
      _ ← validate_scheduled_task;
      mret (mkRescheduled false bw false)
  | _, _ =>
      sel ← select_loop fuel None false now;
      match sel : Selection with
      | CarryOn bw => mret (mkRescheduled false bw false)
      | Candidate (Some nt) bw now =>
          T ← task nt;
          if negb (unstable T) then switch_to nt bw now else wait_for_task fuel bw
      | Candidate None bw now => wait_for_task fuel bw
      end
  end.

End Ops.

(** ** The affinity mask reported to tracees *)

(** [CpuSet] of the nix crate: a set of CPU numbers below 1024. *)
Definition CPU_SETSIZE : Z := 1024.

Definition cpu_set (mask : gset Z) (cpu : Z) : res (gset Z) :=
  if cpu <? CPU_SETSIZE then Ok (mask ∪ {[cpu]}) else Panic.

Fixpoint cpu_set_all (mask : gset Z) (cpus : list Z) : res (gset Z) :=
  match cpus with
  | [] => Ok mask
  | c :: cs => m ← cpu_set mask c; cpu_set_all m cs
  end.

(** [other_cpus[i]] for [i] in [0..n]; an index out of range panics. *)
Definition take_checked (n : nat) (l : list Z) : res (list Z) :=
  if (n <=? length l)%nat then Ok (take n l) else Panic.

(** [regenerate_affinity_mask]: [aff] is what [sched_getaffinity] returned,
    [maybe_cpu] the CPU the tracees are bound to, [np] what [sysconf] returned
    and [shuffle] the permutation the random generator makes. *)
Definition regenerate_affinity_mask (aff : option (gset Z)) (maybe_cpu : option Z) (np : Z)
    (pretend_num_cores : Z) (shuffle : list Z -> list Z) : res (gset Z) :=
  aff ← unwrap aff;
  match maybe_cpu with
  | None => Ok aff
  | Some cpu =>
      if negb (cpu <? CPU_SETSIZE) || negb (bool_decide (cpu ∈ aff)) then Ok aff
      else
        _ ← assert_ (negb (np <? 0));
        let faked_num_cpus := if np <? pretend_num_cores then pretend_num_cores else np in
        mask ← cpu_set ∅ cpu;
        if 1 <? pretend_num_cores then
          let other_cpus := List.filter (fun i => negb (i =? cpu)) (seqZ 0 faked_num_cpus) in
          chosen ← take_checked (Z.to_nat (pretend_num_cores - 1)) (shuffle other_cpus);
          cpu_set_all mask chosen
        else Ok mask
  end.

End Sched.
