(* ===== verification/SchedulerInv.v ===== *)
(** The invariant of the scheduler's two task collections.

    [scheduler.rs] documents that "every task of this session is either in
    task_priority_set (when in_round_robin_queue is false), or in
    task_round_robin_queue (when in_round_robin_queue is true)".  [queues_ok]
    states it, with the order of the set and the uniqueness of the queue; the
    lemmas show how each kind of update keeps it. *)

From S2P Require Import Prelude Float64 WaitStatus Scheduler.

Module SchedInv.
Import Sched.

#[global] Instance tup_cmp_laws : CmpLaws tup_cmp.
Proof.
  split.
  - intros x y. unfold tup_cmp.
    rewrite (Z.compare_antisym (tup_priority x)), (Z.compare_antisym (tup_serial x)).
    by destruct (tup_priority x ?= tup_priority y).
  - intros x y z. unfold tup_cmp.
    destruct (Z.compare_spec (tup_priority x) (tup_priority y)),
      (Z.compare_spec (tup_priority y) (tup_priority z)),
      (Z.compare_spec (tup_priority x) (tup_priority z)); try done; try lia.
    rewrite !Z.compare_lt_iff. lia.
  - intros x y z. unfold tup_cmp.
    destruct (Z.compare_spec (tup_priority x) (tup_priority y)) as [->| |]; try done.
    by intros ->%Z.compare_eq_iff.
Qed.

Lemma tup_cmp_eq a b :
  tup_cmp a b = Eq <-> tup_priority a = tup_priority b /\ tup_serial a = tup_serial b.
Proof.
  unfold tup_cmp. destruct (Z.compare_spec (tup_priority a) (tup_priority b));
    rewrite ?Z.compare_eq_iff; naive_solver lia.
Qed.

(** Priorities for which [priority - 1] and [priority + 1] are [i32]s. *)
Definition priority_ok (T : Task) : Prop := -2147483648 < priority T < 2147483647.

Record queues_ok (ps : list PriorityTup) (q : list TaskId) (ts : gmap TaskId Task) : Prop := {
  ok_sorted : bt_sorted tup_cmp ps;
  ok_nodup : NoDup q;
  ok_set : forall p, p ∈ ps <->
    exists T, ts !! tup_task p = Some T /\ p = tup_of (tup_task p) T /\ in_round_robin_queue T = false;
  ok_queue : forall t, t ∈ q <-> exists T, ts !! t = Some T /\ in_round_robin_queue T = true;
  ok_serial : forall t1 t2 T1 T2, ts !! t1 = Some T1 -> ts !! t2 = Some T2 ->
    stable_serial T1 = stable_serial T2 -> t1 = t2;
  ok_prio : forall t T, ts !! t = Some T -> priority_ok T /\ 0 <= stable_serial T
}.

(** What an update of task [t] to [T] must respect, given the other tasks. *)
Definition task_fits (t : TaskId) (T : Task) (ts : gmap TaskId Task) : Prop :=
  priority_ok T /\ 0 <= stable_serial T /\
  forall t' T', t' <> t -> ts !! t' = Some T' -> stable_serial T' <> stable_serial T.

Lemma task_fits_update ps q ts t T T' :
  queues_ok ps q ts -> ts !! t = Some T ->
  stable_serial T' = stable_serial T -> priority_ok T' -> task_fits t T' ts.
Proof.
  intros Hok Ht Hs Hp. split_and!; [done| |].
  - rewrite Hs. by eapply ok_prio.
  - intros t' T2 Hne Ht' Heq. apply Hne. eapply ok_serial; eauto. congruence.
Qed.

(** Removing a task from the set. *)
Lemma ok_remove_set ps q ts t T :
  queues_ok ps q ts -> ts !! t = Some T -> in_round_robin_queue T = false ->
  queues_ok (bt_remove tup_cmp (tup_of t T) ps) q (delete t ts).
Proof.
  intros Hok Ht Hf. destruct (Hok) as [Hs Hn Hset Hq Hser Hp]. split.
  - by apply (bt_remove_sorted tup_cmp).
  - done.
  - intros p. rewrite (elem_of_bt_remove tup_cmp) by done. rewrite Hset. split.
    + intros [(T2 & H1 & H2 & H3) Hne]. exists T2. rewrite lookup_delete_ne; [done|].
      intros E. apply Hne, tup_cmp_eq. rewrite <- E in H1, H2. rewrite H2. by simplify_eq.
    + intros (T2 & [Hne H1]%lookup_delete_Some & H2 & H3). split; [eauto|].
      rewrite tup_cmp_eq. intros [_ E]. apply Hne. eapply Hser; eauto.
      rewrite H2 in E. done.
  - intros t'. rewrite Hq. split.
    + intros (T2 & H1 & H2). exists T2. rewrite lookup_delete_ne; [done|]. intros ->. simplify_eq. congruence.
    + intros (T2 & [Hne H1]%lookup_delete_Some & H2). eauto.
  - intros t1 t2 T1 T2 [? ?]%lookup_delete_Some [? ?]%lookup_delete_Some. eauto.
  - intros t1 T1 [? ?]%lookup_delete_Some. eauto.
Qed.

Lemma elem_of_remove_first t q x : NoDup q -> x ∈ remove_first t q <-> x ∈ q /\ x <> t.
Proof.
  induction 1 as [|y q Hy Hq IH]; simpl; [set_solver|].
  destruct (decide (y = t)); set_solver.
Qed.

Lemma NoDup_remove_first t q : NoDup q -> NoDup (remove_first t q).
Proof.
  induction 1 as [|y q Hy Hq IH]; simpl; [constructor|].
  destruct (decide (y = t)); [done|]. constructor; [|done].
  rewrite elem_of_remove_first by done. set_solver.
Qed.

(** Removing a task from the queue. *)
Lemma ok_remove_queue ps q ts t T :
  queues_ok ps q ts -> ts !! t = Some T -> in_round_robin_queue T = true ->
  queues_ok ps (remove_first t q) (delete t ts).
Proof.
  intros Hok Ht Hf. destruct (Hok) as [Hs Hn Hset Hq Hser Hp]. split.
  - done.
  - by apply NoDup_remove_first.
  - intros p. rewrite Hset. split.
    + intros (T2 & H1 & H2 & H3). exists T2. rewrite lookup_delete_ne; [done|].
      intros E. rewrite <- E in H1. congruence.
    + intros (T2 & [Hne H1]%lookup_delete_Some & H2 & H3). eauto.
  - intros t'. rewrite elem_of_remove_first, Hq by done. split.
    + intros [(T2 & H1 & H2) Hne]. exists T2. rewrite lookup_delete_ne; done.
    + intros (T2 & [Hne H1]%lookup_delete_Some & H2). eauto.
  - intros t1 t2 T1 T2 [? ?]%lookup_delete_Some [? ?]%lookup_delete_Some. eauto.
  - intros t1 T1 [? ?]%lookup_delete_Some. eauto.
Qed.

(** The parts of the invariant that are about the tasks alone. *)
Lemma ok_insert_tasks ps q ts t T :
  queues_ok ps q (delete t ts) -> task_fits t T ts ->
  (forall t1 t2 T1 T2, <[t := T]> ts !! t1 = Some T1 -> <[t := T]> ts !! t2 = Some T2 ->
     stable_serial T1 = stable_serial T2 -> t1 = t2) /\
  (forall t1 T1, <[t := T]> ts !! t1 = Some T1 -> priority_ok T1 /\ 0 <= stable_serial T1).
Proof.
  intros Hok (Hp & Hs & Hfr). split.
  - intros t1 t2 T1 T2 [[<- <-]|[? H1]]%lookup_insert_Some [[<- <-]|[? H2]]%lookup_insert_Some E;
      [done|..].
    + exfalso. by eapply Hfr.
    + exfalso. by eapply Hfr.
    + eapply (ok_serial _ _ _ Hok); eauto; by apply lookup_delete_Some.
  - intros t1 T1 [[<- <-]|[? H1]]%lookup_insert_Some; [done|].
    eapply (ok_prio _ _ _ Hok). by apply lookup_delete_Some.
Qed.

(** Adding a task to the set. *)
Lemma ok_add_set ps q ts t T :
  queues_ok ps q (delete t ts) -> task_fits t T ts -> in_round_robin_queue T = false ->
  queues_ok (bt_insert tup_cmp (tup_of t T) ps) q (<[t := T]> ts).
Proof.
  intros Hok Hfit Hf. destruct (ok_insert_tasks _ _ _ _ _ Hok Hfit) as [Hser' Hp'].
  destruct (Hok) as [Hs Hn Hset Hq Hser Hp]. destruct Hfit as (_ & _ & Hfr).
  assert (forall y, y ∈ ps -> tup_cmp (tup_of t T) y <> Eq) as Hno.
  { intros y (T2 & [Hne H1]%lookup_delete_Some & H2 & H3)%Hset [_ E]%tup_cmp_eq.
    rewrite H2 in E. simpl in E. by eapply (Hfr (tup_task y) T2). }
  split; [by apply (bt_insert_sorted tup_cmp)|done| | |done|done].
  - intros p. rewrite (elem_of_bt_insert tup_cmp) by done. rewrite Hset. split.
    + intros [->|(T2 & [Hne H1]%lookup_delete_Some & H2 & H3)].
      * exists T. simpl. rewrite lookup_insert_eq. done.
      * exists T2. rewrite lookup_insert_ne; done.
    + intros (T2 & [[E <-]|[Hne H1]]%lookup_insert_Some & H2 & H3).
      * left. rewrite H2. by rewrite <- E.
      * right. exists T2. rewrite lookup_delete_ne by done. done.
  - intros t'. rewrite Hq. split.
    + intros (T2 & [Hne H1]%lookup_delete_Some & H2). exists T2. rewrite lookup_insert_ne; done.
    + intros (T2 & [[<- <-]|[Hne H1]]%lookup_insert_Some & H2); [congruence|].
      exists T2. rewrite lookup_delete_ne by done. done.
Qed.

(** Adding a task to the end of the queue. *)
Lemma ok_add_queue ps q ts t T :
  queues_ok ps q (delete t ts) -> task_fits t T ts -> in_round_robin_queue T = true ->
  queues_ok ps (q ++ [t]) (<[t := T]> ts).
Proof.
  intros Hok Hfit Hf. destruct (ok_insert_tasks _ _ _ _ _ Hok Hfit) as [Hser' Hp'].
  destruct (Hok) as [Hs Hn Hset Hq Hser Hp]. split; [done| | | |done|done].
  - apply NoDup_app. split_and!; [done| |apply NoDup_singleton].
    intros x (T2 & [Hne _]%lookup_delete_Some & _)%Hq. set_solver.
  - intros p. rewrite Hset. split.
    + intros (T2 & [Hne H1]%lookup_delete_Some & H2 & H3). exists T2. rewrite lookup_insert_ne; done.
    + intros (T2 & [[E <-]|[Hne H1]]%lookup_insert_Some & H2 & H3); [congruence|].
      exists T2. rewrite lookup_delete_ne by done. done.
  - intros t'. rewrite elem_of_app, list_elem_of_singleton, Hq. split.
    + intros [(T2 & [Hne H1]%lookup_delete_Some & H2)| ->].
      * exists T2. rewrite lookup_insert_ne; done.
      * exists T. by rewrite lookup_insert_eq.
    + intros (T2 & [[<- <-]|[Hne H1]]%lookup_insert_Some & H2); [by right|left].
      exists T2. rewrite lookup_delete_ne by done. done.
Qed.

(** Changing fields of a task that decide neither its place nor its key, or the
    priority of a task in the queue. *)
Lemma ok_change ps q ts t T T' :
  queues_ok ps q ts -> ts !! t = Some T ->
  stable_serial T' = stable_serial T -> in_round_robin_queue T' = in_round_robin_queue T ->
  priority_ok T' -> (in_round_robin_queue T = false -> priority T' = priority T) ->
  queues_ok ps q (<[t := T']> ts).
Proof.
  intros Hok Ht E1 E2 Hp' E3.
  assert (queues_ok ps q (<[t := T]> ts)) as Hok' by by rewrite insert_id.
  destruct Hok as [Hs Hn Hset Hq Hser Hp].
  split; [done|done| | | |].
  - intros p. rewrite Hset. split.
    + intros (T2 & H1 & H2 & H3). destruct (decide (t = tup_task p)) as [->|].
      * exists T'. rewrite lookup_insert_eq. simplify_eq. split_and!; [done| |congruence].
        rewrite H2. unfold tup_of. simpl. by rewrite E1, E3.
      * exists T2. rewrite lookup_insert_ne; done.
    + intros (T2 & [[<- <-]|[? ?]]%lookup_insert_Some & H2 & H3); [|eauto].
      exists T. split_and!; [done| |congruence]. rewrite H2. unfold tup_of. simpl.
      rewrite E1, E3; congruence.
  - intros t'. rewrite Hq. split.
    + intros (T2 & H1 & H2). destruct (decide (t = t')) as [->|].
      * exists T'. rewrite lookup_insert_eq. naive_solver congruence.
      * exists T2. rewrite lookup_insert_ne; done.
    + intros (T2 & [[<- <-]|[? ?]]%lookup_insert_Some & H2); [|eauto]. naive_solver congruence.
  - intros t1 t2 T1 T2 [[<- <-]|[? H1]]%lookup_insert_Some [[<- <-]|[? H2]]%lookup_insert_Some E;
      eauto; eapply Hser; eauto; congruence.
  - intros t1 T1 [[<- <-]|[? H1]]%lookup_insert_Some; [|eauto]. split; [done|].
    rewrite E1. by eapply Hp.
Qed.

(** *** Derived updates *)

(** A task of the set gets another priority. *)
Lemma ok_reprioritize ps q ts t T v :
  queues_ok ps q ts -> ts !! t = Some T -> in_round_robin_queue T = false ->
  priority_ok (set_priority v T) ->
  queues_ok (bt_insert tup_cmp (tup_of t (set_priority v T)) (bt_remove tup_cmp (tup_of t T) ps))
    q (<[t := set_priority v T]> ts).
Proof.
  intros Hok Ht Hf Hv. apply ok_add_set; [by apply ok_remove_set| |done].
  by eapply task_fits_update.
Qed.

(** The task at the front of the queue goes back to the set. *)
Lemma ok_pop ps q ts t T :
  queues_ok ps (t :: q) ts -> ts !! t = Some T ->
  queues_ok (bt_insert tup_cmp (tup_of t (set_in_rrq false T)) ps) q
    (<[t := set_in_rrq false T]> ts).
Proof.
  intros Hok Ht. assert (in_round_robin_queue T = true) as Hin.
  { destruct (proj1 (ok_queue _ _ _ Hok t)) as (T2 & ? & ?); [set_solver|]. by simplify_eq. }
  apply ok_add_set; [|eapply task_fits_update; try done;
      change (priority_ok T); by eapply ok_prio|done].
  pose proof (ok_remove_queue _ _ _ _ _ Hok Ht Hin) as H. simpl in H.
  by rewrite decide_True in H.
Qed.

(** A task of the set goes to the end of the queue. *)
Lemma ok_enqueue ps q ts t T :
  queues_ok ps q ts -> ts !! t = Some T -> in_round_robin_queue T = false ->
  queues_ok (bt_remove tup_cmp (tup_of t T) ps) (q ++ [t]) (<[t := set_in_rrq true T]> ts).
Proof.
  intros Hok Ht Hf. apply ok_add_queue; [by apply ok_remove_set| |done].
  eapply task_fits_update; try done. change (priority_ok T). by eapply ok_prio.
Qed.

End SchedInv.
