(* ===== verification/SchedulerProofs.v ===== *)
(** Correctness of the scheduler's operations.

    A weakest-precondition calculus for the state and error monad of
    [Scheduler], the state invariant, and the theorems: every operation keeps
    the invariant, no internal assertion of [reschedule] fires, the selection
    loop ends, and the search for the next task visits the tasks in the
    documented order. *)

From Stdlib Require Import SpecFloat.
From S2P Require Import Prelude Float64 WaitStatus Scheduler SchedulerInv.

Module SchedProofs.
Import Sched SchedInv.

(** ** Weakest preconditions *)

Section WP.
Context {W : Type}.
Implicit Types (s : St W).

(** [m] run in [s] does not panic and ends in [Q]; it may spin or give up on
    the kernel only when [sp] holds. *)
Definition wp {A} (sp : Prop) (m : M W A) (Q : A -> St W -> Prop) s : Prop :=
  match m s with
  | Ok (a, s') => Q a s'
  | Panic => False
  | Fatal | Spin => sp
  end.

#[global] Arguments wp : simpl never.

Lemma wp_bind {A B} sp (m : M W A) (f : A -> M W B) Q s :
  wp sp m (fun a s' => wp sp (f a) Q s') s -> wp sp (m ≫= f) Q s.
Proof. unfold wp, mbind, M_bind. by destruct (m s) as [[a s']| | |]. Qed.

Lemma wp_mono {A} sp sp' (m : M W A) (Q Q' : A -> St W -> Prop) s :
  wp sp m Q s -> (sp -> sp') -> (forall a s', Q a s' -> Q' a s') -> wp sp' m Q' s.
Proof. unfold wp. destruct (m s) as [[a s']| | |]; auto. Qed.

Lemma wp_ret {A} sp (a : A) Q s : Q a s -> wp sp (mret a) Q s.
Proof. done. Qed.
Lemma wp_get sp Q s : Q s s -> wp sp get Q s.
Proof. done. Qed.
Lemma wp_gets {A} sp (f : Scheduler -> A) Q s : Q (f (sch s)) s -> wp sp (gets f) Q s.
Proof. done. Qed.
Lemma wp_mod_sch sp f (Q : unit -> St W -> Prop) s :
  Q tt (mkSt (f (sch s)) (tasks s) (task_map s) (world s)) -> wp sp (mod_sch f) Q s.
Proof. done. Qed.
Lemma wp_mod_tasks sp f (Q : unit -> St W -> Prop) s :
  Q tt (mkSt (sch s) (f (tasks s)) (task_map s) (world s)) -> wp sp (mod_tasks f) Q s.
Proof. done. Qed.
Lemma wp_set_task_map sp m (Q : unit -> St W -> Prop) s :
  Q tt (mkSt (sch s) (tasks s) m (world s)) -> wp sp (set_task_map m) Q s.
Proof. done. Qed.
Lemma wp_env {A} sp (f : W -> A * W) Q s :
  Q (f (world s)).1 (mkSt (sch s) (tasks s) (task_map s) (f (world s)).2) -> wp sp (env f) Q s.
Proof. unfold wp, env. by destruct (f (world s)). Qed.
Lemma wp_env_ sp (f : W -> W) Q s :
  Q tt (mkSt (sch s) (tasks s) (task_map s) (f (world s))) -> wp sp (env_ f) Q s.
Proof. done. Qed.
Lemma wp_ask {A} sp (f : W -> A) Q s : Q (f (world s)) s -> wp sp (ask f) Q s.
Proof. done. Qed.
Lemma wp_assert sp b (Q : unit -> St W -> Prop) s : b = true -> Q tt s -> wp sp (assert b) Q s.
Proof. intros ->. done. Qed.
Lemma wp_fatal_unless (sp : Prop) b (Q : unit -> St W -> Prop) s :
  sp -> Q tt s -> wp sp (fatal_unless b) Q s.
Proof. unfold wp, fatal_unless. by destruct b. Qed.

(** The result is the result of the run. *)
Lemma wp_eq {A} sp (m : M W A) Q s : wp sp m Q s -> wp sp m (fun a s' => Q a s' /\ m s = Ok (a, s')) s.
Proof. unfold wp. by destruct (m s) as [[a s']| | |]. Qed.
Lemma wp_fatal {A} (sp : Prop) (Q : A -> St W -> Prop) s : sp -> wp sp fatal Q s.
Proof. done. Qed.
Lemma wp_spin {A} (sp : Prop) (Q : A -> St W -> Prop) s : sp -> wp sp spin Q s.
Proof. done. Qed.
Lemma wp_task sp t T (Q : Task -> St W -> Prop) s :
  tasks s !! t = Some T -> Q T s -> wp sp (task t) Q s.
Proof. unfold wp, task. by intros ->. Qed.
Lemma wp_update_task sp t T f (Q : unit -> St W -> Prop) s :
  tasks s !! t = Some T ->
  Q tt (mkSt (sch s) (<[t := f T]> (tasks s)) (task_map s) (world s)) ->
  wp sp (update_task t f) Q s.
Proof. intros Ht HQ. apply wp_bind. by eapply wp_task. Qed.
End WP.

(** One step of symbolic execution. *)
Ltac wp_step :=
  lazymatch goal with
  | |- wp _ (_ ≫= _) _ _ => apply wp_bind
  | |- wp _ (mret _) _ _ => apply wp_ret
  | |- wp _ get _ _ => apply wp_get
  | |- wp _ (gets _) _ _ => apply wp_gets
  | |- wp _ (mod_sch _) _ _ => apply wp_mod_sch
  | |- wp _ (mod_tasks _) _ _ => apply wp_mod_tasks
  | |- wp _ (set_task_map _) _ _ => apply wp_set_task_map
  | |- wp _ (env _) _ _ => apply wp_env
  | |- wp _ (env_ _) _ _ => apply wp_env_
  | |- wp _ (ask _) _ _ => apply wp_ask
  | |- wp _ fatal _ _ => apply wp_fatal
  | |- wp _ spin _ _ => apply wp_spin
  end; cbv beta.
Ltac wp_steps := repeat wp_step.

(** Case analysis on the condition the program branches on. *)
Ltac wp_if :=
  lazymatch goal with
  | |- wp _ (if ?b then _ else _) _ _ => destruct b eqn:?
  end.

(** ** The state invariant *)

(** What the scheduler relies on: the tick counter of a task fits in 63 bits
    and shuffling permutes. *)
Class EnvLaws (W : Type) `{Env W} : Prop := {
  law_ticks : forall w t, 0 <= tick_count w t < I64_BOUND;
  law_shuffle : forall w l, (shuffle w l).1 ≡ₚ l
}.

Section Invariant.
Context {W : Type}.

Record Inv (s : St W) : Prop := {
  inv_queues : queues_ok (task_priority_set (sch s)) (task_round_robin_queue (sch s)) (tasks s);
  inv_current : forall t, current_ (sch s) = Some t -> is_Some (tasks s !! t);
  inv_map : forall n t, task_map s !! n = Some t -> is_Some (tasks s !! t);
  inv_ticks : 0 < max_ticks_ (sch s) <= 1000000000;
  inv_calm : enable_chaos (sch s) = false -> hpo_period (sch s) = F64.zero
}.

(** The part of the state the invariant and the loops depend on; the polling
    of a task changes none of it. *)
Definition view (s : St W) :=
  ((task_priority_set (sch s), task_round_robin_queue (sch s), current_ (sch s)),
   (in_exec_tgid (sch s), enable_chaos (sch s), max_ticks_ (sch s), always_switch (sch s)),
   (hpo_period (sch s), last_reschedule_in_high_priority_only_interval (sch s)),
   (tasks s, task_map s)).

Lemma view_Inv s s' : view s' = view s -> Inv s -> Inv s'.
Proof.
  destruct s as [[] ts m w], s' as [[] ts' m' w']. unfold view. simpl.
  intros E [H1 H2 H3 H4 H5]. simplify_eq. split; simpl in *; eauto.
Qed.

End Invariant.

(** ** Polling and searching *)

Section Search.
Context {W : Type} `{Env W}.
Implicit Types (s : St W).

(** What holds of the must-run task after a search: nothing was polled into
    having to run, or the task found was. *)
Definition polled (t : TaskId) (bw : bool) s : Prop :=
  (must_run_task (sch s) = None /\ bw = false) \/
  (must_run_task (sch s) = Some t /\ bw = true /\
   forall T, tasks s !! t = Some T -> unstable T = false).

Lemma wp_is_task_runnable sp t T bw s :
  tasks s !! t = Some T -> must_run_task (sch s) = None -> bw = false ->
  wp sp (is_task_runnable t bw) (fun r s' =>
    view s' = view s /\
    if r.1 then polled t r.2 s' else must_run_task (sch s') = None /\ r.2 = false) s.
Proof.
  intros Ht Hm ->. unfold is_task_runnable. wp_steps. rewrite Hm.
  apply wp_assert; [done|]. wp_step. eapply wp_task; [done|].
  destruct (unstable T) eqn:Hu; [by wp_steps; split; [|left]|].
  wp_steps. destruct (may_be_blocked _ _); [|by wp_steps; split; [|left]]. simpl. wp_steps.
  assert (forall s', tasks s' = tasks s -> must_run_task (sch s') = Some t -> polled t true s') as Hp.
  { intros s' E Hs'. right. split_and!; [done|done|]. rewrite E. naive_solver congruence. }
  destruct (emulated_stopped _ _).
  { wp_steps. destruct (sigcont_pending _ _); wp_steps; [by split; [|apply Hp]|].
    simpl. split; [done|]. destruct (is_dying _ _); [by left|done]. }
  wp_steps. destruct (is_running _ _); [|by wp_steps; split; [|apply Hp]]. simpl. wp_steps.
  wp_if.
  { unfold wait. wp_steps. eapply wp_task; [done|]. wp_steps.
    apply wp_assert; [by rewrite Hu|]. wp_steps. by split; [|apply Hp]. }
  wp_steps. destruct (try_wait _ _) as [[] w]; simpl; wp_steps; [by split; [|apply Hp]|done].
Qed.

Lemma wp_first_runnable sp l s :
  Forall (fun p => is_Some (tasks s !! tup_task p)) l -> must_run_task (sch s) = None ->
  wp sp (first_runnable l false) (fun r s' =>
    view s' = view s /\
    match r.1 with
    | Some t => (exists p, p ∈ l /\ t = tup_task p) /\ polled t r.2 s'
    | None => must_run_task (sch s') = None /\ r.2 = false
    end) s.
Proof.
  revert s. induction l as [|p l IH]; simpl; intros s Hl Hm; [by wp_steps|].
  apply Forall_cons in Hl as [[T HT] Hl]. wp_step.
  eapply wp_mono; [by eapply wp_is_task_runnable|done|].
  intros [[] bw] s'; simpl; intros [Hv Hr].
  - wp_step. simpl. split; [done|]. split; [|done]. exists p. set_solver.
  - destruct Hr as [Hm' ->].
    assert (tasks s' = tasks s) as Et by (unfold view in Hv; congruence).
    eapply wp_mono; [apply IH; [by rewrite Et|done]|done|].
    intros [[t|] bw] s2; simpl; intros [Hv2 Hr]; (split; [congruence|]); [|done].
    destruct Hr as [(q & Hq & ->) Hp]. split; [|done]. exists q. set_solver.
Qed.

(** The tasks of the set from a priority on, and those of one priority. *)
Definition from_prio (lo : Z) (ps : list PriorityTup) : list PriorityTup :=
  List.filter (fun p => lo <=? tup_priority p) ps.
Definition of_prio (prio : Z) (ps : list PriorityTup) : list PriorityTup :=
  List.filter (fun p => tup_priority p =? prio) ps.

Definition serials_ok (ps : list PriorityTup) : Prop := forall p, p ∈ ps -> 0 <= tup_serial p.

Lemma range_from_prio prio ps :
  serials_ok ps -> bt_range_from tup_cmp (mkTup prio 0 1) ps = from_prio prio ps.
Proof.
  intros Hs. apply bfilter_ext. intros p Hp. pose proof (Hs p Hp). unfold tup_cmp. simpl.
  destruct (Z.compare_spec (tup_priority p) prio), (Z.leb_spec prio (tup_priority p)); try lia; try done.
  destruct (Z.compare_spec (tup_serial p) 0); done || lia.
Qed.

Lemma pset_range_of_prio prio ps :
  serials_ok ps -> pset_range (mkTup prio 0 1) (mkTup (prio + 1) 0 1) ps = of_prio prio ps.
Proof.
  intros Hs. apply bfilter_ext. intros p Hp. pose proof (Hs p Hp). unfold tup_cmp. simpl.
  destruct (Z.compare_spec (tup_priority p) prio), (Z.compare_spec (tup_priority p) (prio + 1)),
    (Z.eqb_spec (tup_priority p) prio); try lia; try done;
  destruct (Z.compare_spec (tup_serial p) 0); done || lia.
Qed.

Lemma from_prio_head_min lo ps first rest :
  bt_sorted tup_cmp ps -> from_prio lo ps = first :: rest ->
  forall p, p ∈ first :: rest -> tup_priority first <= tup_priority p.
Proof.
  intros Hs E p Hp. pose proof (bfilter_sorted _ (fun p => lo <=? tup_priority p) _ Hs) as Hf.
  fold (from_prio lo ps) in Hf. rewrite E in Hf. apply StronglySorted_inv in Hf as [_ Hf].
  apply elem_of_cons in Hp as [->|Hp]; [lia|]. eapply Forall_forall in Hf; [|done].
  unfold tup_cmp in Hf. destruct (Z.compare_spec (tup_priority first) (tup_priority p)); done || lia.
Qed.

Lemma from_prio_shrinks lo ps first rest :
  bt_sorted tup_cmp ps -> from_prio lo ps = first :: rest ->
  (length (from_prio (tup_priority first + 1) ps) < length (first :: rest))%nat.
Proof.
  intros Hs E. assert (first ∈ from_prio lo ps) as [Hin Hlo]%elem_of_bfilter by (rewrite E; set_solver).
  rewrite <- E. eapply (bfilter_length_lt _ _ _ first); [|done|done|]; cbv beta.
  - intros y. rewrite !Z.leb_le in *. lia.
  - apply Z.leb_gt. lia.
Qed.

Lemma group_order_perm mt ps prio g : group_order mt ps prio g ≡ₚ g.
Proof.
  unfold group_order. destruct mt as [[t T]|]; [|done]. destruct (_ && _); [|done].
  apply bfilter_neg_perm.
Qed.

Lemma Inv_serials s : Inv s -> serials_ok (task_priority_set (sch s)).
Proof.
  intros Hi p (T & HT & -> & _)%(ok_set _ _ _ (inv_queues s Hi)). simpl. by eapply (ok_prio _ _ _ (inv_queues s Hi)).
Qed.

Lemma Inv_pset_live s p :
  Inv s -> p ∈ task_priority_set (sch s) ->
  exists T, tasks s !! tup_task p = Some T /\ tup_priority p = priority T /\
    tup_serial p = stable_serial T /\ priority_ok T.
Proof.
  intros Hi (T & HT & E & _)%(ok_set _ _ _ (inv_queues s Hi)). exists T. rewrite E at 2 3.
  split_and!; [done..|]. by eapply (ok_prio _ _ _ (inv_queues s Hi)).
Qed.

Lemma wp_i32_add sp a b (Q : Z -> St W -> Prop) s :
  -2147483648 <= a + b <= 2147483647 -> Q (a + b) s -> wp sp (i32_add a b) Q s.
Proof.
  intros Hr HQ. unfold i32_add.
  destruct (Z.leb_spec (-2147483648) (a + b)), (Z.leb_spec (a + b) 2147483647); done || lia.
Qed.

Context `{!EnvLaws W}.

(** The order chosen for a group, in and out of chaos mode. *)
Lemma wp_choose_order sp mt ps prio g (chaos : bool) (Q : list PriorityTup -> St W -> Prop) s :
  (forall t, mt = Some t -> is_Some (tasks s !! t)) ->
  (forall order s', order ≡ₚ g -> view s' = view s ->
     must_run_task (sch s') = must_run_task (sch s) -> Q order s') ->
  wp sp (if negb chaos then
           match mt with
           | Some t => T ← task t; mret (group_order (Some (t, T)) ps prio g)
           | None => mret (group_order None ps prio g)
           end
         else env (fun w => shuffle w g)) Q s.
Proof.
  intros Hl HQ. destruct chaos; simpl.
  - wp_step. by apply HQ; [apply law_shuffle|..].
  - destruct mt as [t|].
    + wp_step. destruct (Hl t eq_refl) as [T HT]. eapply wp_task; [done|]. wp_step.
      by apply HQ; [apply (group_order_perm (Some (t, T)))|..].
    + wp_step. by apply HQ; [apply (group_order_perm None ps prio)|..].
Qed.

Lemma wp_find_loop sp fuel mt thr lo s :
  Inv s -> must_run_task (sch s) = None -> (forall t, mt = Some t -> is_Some (tasks s !! t)) ->
  (length (from_prio lo (task_priority_set (sch s))) < fuel)%nat ->
  wp sp (find_loop fuel mt false thr (from_prio lo (task_priority_set (sch s)))) (fun r s' =>
    view s' = view s /\
    match r.1 with
    | Some t => is_Some (tasks s !! t) /\ polled t r.2 s'
    | None => must_run_task (sch s') = None /\ r.2 = false
    end) s.
Proof.
  revert lo s. induction fuel as [|fuel IH]; intros lo s Hi Hm Hl Hf; [lia|]. simpl.
  destruct (from_prio lo _) as [|first rest] eqn:E; [by wp_steps|].
  assert (first ∈ from_prio lo (task_priority_set (sch s))) as [Hin _]%elem_of_bfilter
    by (rewrite E; set_solver).
  destruct (Inv_pset_live _ _ Hi Hin) as (T & HT & Hprio & _ & [Hp1 Hp2]).
  wp_if; [by wp_steps|]. wp_step. apply wp_i32_add; [lia|]. do 2 wp_step. wp_step. wp_step. wp_step.
  rewrite pset_range_of_prio by by apply Inv_serials.
  apply wp_choose_order; [done|]. intros order s1 Hperm Hv1 Hm1.
  assert (tasks s1 = tasks s) as Et by (unfold view in Hv1; congruence).
  assert (task_priority_set (sch s1) = task_priority_set (sch s)) as Ep by (unfold view in Hv1; congruence).
  wp_step. eapply wp_mono; [apply (wp_first_runnable sp order s1)|done|].
  - apply Forall_forall. intros p. rewrite Hperm. intros [Hp _]%elem_of_bfilter.
    destruct (Inv_pset_live _ _ Hi Hp) as (T2 & HT2 & _). rewrite Et. eauto.
  - by rewrite Hm1.
  - intros [[t|] bw] s2; simpl; intros [Hv2 Hr].
    + wp_step. simpl. split; [congruence|]. destruct Hr as [(p & Hp & ->) Hpol]. split; [|done].
      rewrite Hperm in Hp. apply elem_of_bfilter in Hp as [Hp _].
      destruct (Inv_pset_live _ _ Hi Hp) as (T2 & HT2 & _). eauto.
    + destruct Hr as [Hm2 ->]. rewrite range_from_prio by by apply Inv_serials.
      assert (view s2 = view s) as Hv by congruence.
      assert (task_priority_set (sch s2) = task_priority_set (sch s)) as Ep2 by (unfold view in Hv; congruence).
      assert (tasks s2 = tasks s) as Et2 by (unfold view in Hv; congruence).
      rewrite <- Ep2. eapply wp_mono; [apply IH|done|].
      * by eapply view_Inv.
      * done.
      * by rewrite Et2.
      * rewrite Ep2. pose proof (from_prio_shrinks _ _ _ _ (ok_sorted _ _ _ (inv_queues s Hi)) E). lia.
      * intros r s3 [Hv3 Hr]. split; [congruence|]. by rewrite Et2 in Hr.
Qed.

Lemma pset_from_prio s : Inv s ->
  from_prio (-2147483648) (task_priority_set (sch s)) = task_priority_set (sch s).
Proof.
  intros Hi. unfold from_prio.
  rewrite (bfilter_ext _ (fun _ => true)); [induction (task_priority_set (sch s)); simpl; congruence|].
  intros p Hp. destruct (Inv_pset_live _ _ Hi Hp) as (T & _ & E & _ & [? ?]). apply Z.leb_le. lia.
Qed.

Lemma wp_find_next sp mt thr s :
  Inv s -> must_run_task (sch s) = None -> (forall t, mt = Some t -> is_Some (tasks s !! t)) ->
  wp sp (find_next_runnable_task mt thr) (fun r s' =>
    view s' = view s /\
    match r.1 with
    | Some t => is_Some (tasks s !! t) /\ polled t r.2 s'
    | None => must_run_task (sch s') = None /\ r.2 = false
    end) s.
Proof.
  intros Hi Hm Hl. unfold find_next_runnable_task. do 2 wp_step.
  rewrite <- (pset_from_prio s Hi) at 2. apply wp_find_loop; try done.
  rewrite pset_from_prio by done. lia.
Qed.

(** *** The order of the search *)

(** The task whose turn ends: only a task of the set takes part in the
    round-robin of its priority. *)
Definition turn_of (mt : option TaskId) s : option Task :=
  t ← mt; T ← tasks s !! t; if in_round_robin_queue T then None else Some T.

(** 1 for the tasks of the current task's priority up to the current task:
    they have had their turn. *)
Definition had_turn (cur : option Task) (p : PriorityTup) : Z :=
  match cur with
  | Some T => if (tup_priority p =? priority T) && (tup_serial p <=? stable_serial T) then 1 else 0
  | None => 0
  end.

(** The documented order: by priority; among equals, the tasks after the
    current one first, and then in order of creation. *)
Definition search_before (cur : option Task) (a b : PriorityTup) : Prop :=
  tup_priority a < tup_priority b \/
  tup_priority a = tup_priority b /\
  (had_turn cur a < had_turn cur b \/
   had_turn cur a = had_turn cur b /\ tup_serial a < tup_serial b).

Lemma run_bind {A B} (m : M W A) (f : A -> M W B) s a s' :
  m s = Ok (a, s') -> (m ≫= f) s = f a s'.
Proof. unfold mbind, M_bind. by intros ->. Qed.

Lemma first_runnable_app l1 l2 bw s :
  first_runnable (l1 ++ l2) bw s
  = (r ← first_runnable l1 bw;
     match (r : option TaskId * bool).1 with
     | Some t => mret (Some t, r.2)
     | None => first_runnable l2 r.2
     end) s.
Proof.
  revert bw s. induction l1 as [|p l1 IH]; intros bw s; [done|]. simpl.
  unfold mbind, M_bind in *.
  destruct (is_task_runnable (tup_task p) bw s) as [[[[] bw'] s']| | |]; simpl; first [done | apply IH].
Qed.

Lemma is_task_runnable_view t bw s r s' :
  is_task_runnable t bw s = Ok (r, s') -> view s' = view s.
Proof.
  unfold is_task_runnable, wait, must_run, mbind, M_bind, mret, M_ret, gets, assert, ask,
    env_, env, task, mod_sch.
  intros Hr. repeat case_match; simplify_eq; done.
Qed.

Lemma first_runnable_view l bw s r s' :
  first_runnable l bw s = Ok (r, s') -> view s' = view s.
Proof.
  revert bw s. induction l as [|p l IH]; intros bw s; simpl; [by intros [= _ <-]|].
  unfold mbind, M_bind.
  destruct (is_task_runnable (tup_task p) bw s) as [[[[] bw'] s1]| | |] eqn:E; simpl; try done.
  - intros [= _ <-]. by eapply is_task_runnable_view.
  - intros Hr. etrans; [by eapply IH|by eapply is_task_runnable_view].
Qed.

(** The tuple of the current task is in the set exactly when the task is. *)
Lemma contains_turn s t T prio :
  Inv s -> tasks s !! t = Some T -> priority T = prio ->
  bt_contains tup_cmp (mkTup prio (stable_serial T) t) (task_priority_set (sch s))
  = negb (in_round_robin_queue T).
Proof.
  intros Hi HT <-. pose proof (inv_queues s Hi) as Hok. apply eq_true_iff_eq.
  rewrite bt_contains_spec, negb_true_iff. split.
  - intros (y & Hy & [_ Hs]%tup_cmp_eq). apply (ok_set _ _ _ Hok) in Hy as (T2 & H2 & E & Hq).
    rewrite E in Hs. simpl in Hs. assert (tup_task y = t) as Et by by eapply (ok_serial _ _ _ Hok).
    rewrite Et in H2. by simplify_eq.
  - intros Hq. exists (tup_of t T). split; [|by apply tup_cmp_eq].
    apply (ok_set _ _ _ Hok). exists T. done.
Qed.

Definition group_list (mt : option TaskId) s (prio : Z) : list PriorityTup :=
  let ps := task_priority_set (sch s) in
  group_order (t ← mt; T ← tasks s !! t; Some (t, T)) ps prio (of_prio prio ps).

Lemma tup_cmp_same_prio a b :
  tup_priority a = tup_priority b -> tup_cmp a b = (tup_serial a ?= tup_serial b).
Proof. unfold tup_cmp. intros ->. by rewrite Z.compare_refl. Qed.

Lemma StronglySorted_weaken {A} (R R' : A -> A -> Prop) l :
  (forall x y, x ∈ l -> y ∈ l -> R x y -> R' x y) -> StronglySorted R l -> StronglySorted R' l.
Proof.
  intros HR Hs. induction Hs as [|x l Hs IH Hx]; constructor.
  - apply IH. set_solver.
  - rewrite Forall_forall in *. intros y Hy. apply HR; set_solver.
Qed.

Lemma of_prio_serial_sorted s prio :
  Inv s ->
  StronglySorted (fun a b => tup_serial a < tup_serial b) (of_prio prio (task_priority_set (sch s))).
Proof.
  intros Hi. eapply StronglySorted_weaken; [|apply bfilter_sorted, (ok_sorted _ _ _ (inv_queues s Hi))].
  intros x y [_ Hx%Z.eqb_eq]%elem_of_bfilter [_ Hy%Z.eqb_eq]%elem_of_bfilter.
  rewrite tup_cmp_same_prio by congruence. apply Z.compare_lt_iff.
Qed.

(** A group is searched in the documented order. *)
Lemma group_list_sorted mt s prio :
  Inv s -> (forall t, mt = Some t -> is_Some (tasks s !! t)) ->
  StronglySorted (search_before (turn_of mt s)) (group_list mt s prio).
Proof.
  intros Hi Hl. pose proof (of_prio_serial_sorted s prio Hi) as Hs.
  assert (forall l, (forall x, x ∈ l -> x ∈ of_prio prio (task_priority_set (sch s))) ->
    (forall x y, x ∈ l -> y ∈ l -> had_turn (turn_of mt s) x = had_turn (turn_of mt s) y) ->
    StronglySorted (fun a b => tup_serial a < tup_serial b) l ->
    StronglySorted (search_before (turn_of mt s)) l) as Hsame.
  { intros l Hin Hturn. apply StronglySorted_weaken. intros x y Hx Hy Hlt. right.
    pose proof (Hin x Hx) as [_ ->%Z.eqb_eq]%elem_of_bfilter.
    pose proof (Hin y Hy) as [_ ->%Z.eqb_eq]%elem_of_bfilter. auto. }
  assert (forall x, x ∈ of_prio prio (task_priority_set (sch s)) -> tup_priority x = prio) as Hprio
    by (intros x [_ Hx%Z.eqb_eq]%elem_of_bfilter; done).
  unfold group_list. destruct mt as [t|]; simpl; [|by apply Hsame].
  destruct (Hl t eq_refl) as [T HT].
  assert (turn_of (Some t) s = if in_round_robin_queue T then None else Some T) as Eturn
    by (unfold turn_of; simpl; by rewrite HT).
  rewrite HT. simpl. rewrite Eturn in *.
  destruct (Z.eqb_spec (priority T) prio) as [Ep|Ep]; simpl.
  2:{ apply Hsame; [done| |done]. intros x y Hx%Hprio Hy%Hprio.
      destruct (in_round_robin_queue T); simpl; [done|].
      destruct (Z.eqb_spec (tup_priority x) (priority T)), (Z.eqb_spec (tup_priority y) (priority T));
        done || lia. }
  rewrite (contains_turn s t T prio) by done.
  destruct (in_round_robin_queue T) eqn:Hq; simpl; [by apply Hsame|].
  set (lte := fun p => match tup_cmp p _ with Gt => false | _ => true end).
  assert (forall x, x ∈ of_prio prio (task_priority_set (sch s)) ->
    had_turn (Some T) x = if lte x then 1 else 0) as Hlte.
  { intros x Hx%Hprio. unfold had_turn, lte. rewrite tup_cmp_same_prio by done. simpl.
    rewrite Hx, Ep, Z.eqb_refl. simpl. unfold Z.leb. by destruct (_ ?= _). }
  assert (forall x (b : bool), x ∈ List.filter (fun p => if b then lte p else negb (lte p))
      (of_prio prio (task_priority_set (sch s))) ->
    x ∈ of_prio prio (task_priority_set (sch s)) /\ had_turn (Some T) x = if b then 1 else 0) as Hf.
  { intros x b [Hx Hb]%elem_of_bfilter. split; [done|]. rewrite Hlte by done.
    destruct b, (lte x); done. }
  apply StronglySorted_app_intro.
  - apply Hsame; [by intros x [? _]%(Hf x false)| |by apply bfilter_sorted].
    intros x y [_ ->]%(Hf x false) [_ ->]%(Hf y false). done.
  - apply Hsame; [by intros x [? _]%(Hf x true)| |by apply bfilter_sorted].
    intros x y [_ ->]%(Hf x true) [_ ->]%(Hf y true). done.
  - intros x y [Hx Ex]%(Hf x false) [Hy Ey]%(Hf y true). right.
    rewrite (Hprio x Hx), (Hprio y Hy), Ex, Ey. lia.
Qed.

Lemma group_list_perm mt s prio : group_list mt s prio ≡ₚ of_prio prio (task_priority_set (sch s)).
Proof. apply group_order_perm. Qed.

(** One turn of the loop, when chaos mode is off. *)
Lemma find_loop_step fuel mt bw thr first rest s :
  Inv s -> enable_chaos (sch s) = false -> (forall t, mt = Some t -> is_Some (tasks s !! t)) ->
  first ∈ task_priority_set (sch s) -> tup_priority first <= thr ->
  find_loop (S fuel) mt bw thr (first :: rest) s
  = (r ← first_runnable (group_list mt s (tup_priority first)) bw;
     match (r : option TaskId * bool).1 with
     | Some t => mret (Some t, r.2)
     | None => find_loop fuel mt r.2 thr
                 (from_prio (tup_priority first + 1) (task_priority_set (sch s)))
     end) s.
Proof.
  intros Hi Hc Hl Hin Hthr.
  destruct (Inv_pset_live _ _ Hi Hin) as (T & HT & Hprio & _ & [Hp1 Hp2]).
  simpl. destruct (Z.ltb_spec thr (tup_priority first)); [lia|].
  assert (i32_add (W := W) (tup_priority first) 1 s = Ok (tup_priority first + 1, s)) as Ea.
  { unfold i32_add. destruct (Z.leb_spec (-2147483648) (tup_priority first + 1)),
      (Z.leb_spec (tup_priority first + 1) 2147483647); done || lia. }
  erewrite run_bind by exact Ea. erewrite run_bind by reflexivity. erewrite run_bind by reflexivity.
  rewrite Hc. rewrite pset_range_of_prio, range_from_prio by by apply Inv_serials. simpl.
  destruct mt as [t|].
  - destruct (Hl t eq_refl) as [T2 HT2].
    erewrite run_bind; [unfold group_list; simpl; rewrite HT2; reflexivity|].
    erewrite run_bind; [reflexivity|]. unfold task. by rewrite HT2.
  - by erewrite run_bind.
Qed.

Lemma view_inv s s' : view s' = view s ->
  tasks s' = tasks s /\ task_priority_set (sch s') = task_priority_set (sch s) /\
  enable_chaos (sch s') = enable_chaos (sch s) /\ current_ (sch s') = current_ (sch s) /\
  task_round_robin_queue (sch s') = task_round_robin_queue (sch s) /\
  in_exec_tgid (sch s') = in_exec_tgid (sch s) /\ task_map s' = task_map s /\
  last_reschedule_in_high_priority_only_interval (sch s')
  = last_reschedule_in_high_priority_only_interval (sch s).
Proof. unfold view. intros. simplify_eq. done. Qed.

Lemma group_list_view mt s s' prio : view s' = view s -> group_list mt s' prio = group_list mt s prio.
Proof. intros (Et & Ep & _)%view_inv. unfold group_list. by rewrite Et, Ep. Qed.

(** What is left of a range once its first group has been searched. *)
Lemma range_split_perm lo thr ps first rest :
  bt_sorted tup_cmp ps -> from_prio lo ps = first :: rest -> tup_priority first <= thr ->
  List.filter (fun p => tup_priority p <=? thr) (from_prio lo ps)
  ≡ₚ of_prio (tup_priority first) ps
     ++ List.filter (fun p => tup_priority p <=? thr) (from_prio (tup_priority first + 1) ps).
Proof.
  intros Hs E Hthr. pose proof (from_prio_head_min _ _ _ _ Hs E) as Hmin. rewrite <- E in Hmin.
  assert (first ∈ from_prio lo ps) as [_ Hlo%Z.leb_le]%elem_of_bfilter by (rewrite E; set_solver).
  unfold from_prio, of_prio in *. rewrite !bfilter_bfilter.
  rewrite (bfilter_split_perm _ (fun p => tup_priority p =? tup_priority first)).
  f_equiv; (erewrite bfilter_ext; [done|]); intros p Hp; simpl;
    (assert (lo <= tup_priority p -> tup_priority first <= tup_priority p) as Hm
      by (intros ?; apply Hmin, elem_of_bfilter; by rewrite Z.leb_le));
    destruct (Z.leb_spec lo (tup_priority p)), (Z.leb_spec (tup_priority p) thr),
      (Z.eqb_spec (tup_priority p) (tup_priority first)),
      (Z.leb_spec (tup_priority first + 1) (tup_priority p)); simpl; done || lia.
Qed.

Lemma find_loop_order fuel mt thr lo s :
  Inv s -> enable_chaos (sch s) = false -> (forall t, mt = Some t -> is_Some (tasks s !! t)) ->
  (length (from_prio lo (task_priority_set (sch s))) < fuel)%nat ->
  exists L,
    L ≡ₚ List.filter (fun p => tup_priority p <=? thr) (from_prio lo (task_priority_set (sch s))) /\
    StronglySorted (search_before (turn_of mt s)) L /\
    forall s' bw, view s' = view s ->
      find_loop fuel mt bw thr (from_prio lo (task_priority_set (sch s))) s'
      = first_runnable L bw s'.
Proof.
  intros Hi Hc Hl. pose proof (ok_sorted _ _ _ (inv_queues s Hi)) as Hs.
  revert lo. induction fuel as [|fuel IH]; intros lo Hf; [lia|].
  destruct (from_prio lo _) as [|first rest] eqn:E; [by exists []; split_and!; [|constructor|]|].
  pose proof (from_prio_head_min _ _ _ _ Hs E) as Hmin.
  destruct (Z.leb_spec (tup_priority first) thr) as [Hthr|Hthr].
  2:{ exists []. split_and!; [|constructor|].
      - apply reflexive_eq. symmetry. destruct (List.filter _ _) as [|x l] eqn:Ex; [done|].
        assert (x ∈ List.filter (fun p => tup_priority p <=? thr) (first :: rest)) as
          [Hx%Hmin Hx2%Z.leb_le]%elem_of_bfilter by (rewrite Ex; set_solver). lia.
      - intros s' bw _. simpl. destruct (Z.ltb_spec thr (tup_priority first)); [done|lia]. }
  assert (first ∈ task_priority_set (sch s)) as Hin.
  { assert (first ∈ from_prio lo (task_priority_set (sch s))) as [? _]%elem_of_bfilter
      by (rewrite E; set_solver). done. }
  pose proof (from_prio_shrinks _ _ _ _ Hs E) as Hlen.
  destruct (IH (tup_priority first + 1)) as (L & HL & HLs & HLr); [lia|].
  exists (group_list mt s (tup_priority first) ++ L). split_and!.
  - rewrite group_list_perm, HL, <- E. symmetry. by eapply range_split_perm.
  - apply StronglySorted_app_intro; [by apply group_list_sorted|done|].
    intros x y. rewrite group_list_perm, HL.
    intros [_ Hx%Z.eqb_eq]%elem_of_bfilter [[_ Hy%Z.leb_le]%elem_of_bfilter _]%elem_of_bfilter.
    left. lia.
  - intros s' bw Hv. destruct (view_inv _ _ Hv) as (Et & Ep & Ec & _).
    rewrite find_loop_step; rewrite ?Et, ?Ep, ?Ec; try done; [|by eapply view_Inv].
    rewrite (group_list_view _ _ _ _ Hv), first_runnable_app.
    unfold mbind, M_bind.
    destruct (first_runnable _ bw s') as [[[[t|] bw'] s2]| | |] eqn:Er; try done. simpl.
    apply HLr. etrans; [by eapply first_runnable_view|done].
Qed.

(** C23: when chaos mode is off, the search for the next task polls exactly the
    tasks of the priority set with priority up to the threshold, highest
    priority (lowest number) first, and among equals round-robin starting after
    the given task; it returns the first one found runnable.  It does so whether
    or not tasks wait in the round-robin queue, which the function's comment says
    it looks at first and which it does not look at.  The state keeps the
    scheduler's invariant [Inv]; in particular no task has the priority
    [i32::MAX], with which the search panics, or [i32::MIN]. *)
Theorem find_next_runnable_task_order mt thr s :
  Inv s -> enable_chaos (sch s) = false -> (forall t, mt = Some t -> is_Some (tasks s !! t)) ->
  exists L,
    L ≡ₚ List.filter (fun p => tup_priority p <=? thr) (task_priority_set (sch s)) /\
    StronglySorted (search_before (turn_of mt s)) L /\
    find_next_runnable_task mt thr s = first_runnable L false s.
Proof.
  intros Hi Hc Hl. pose proof (pset_from_prio s Hi) as E.
  destruct (find_loop_order (S (length (task_priority_set (sch s)))) mt thr (-2147483648) s Hi Hc Hl)
    as (L & H1 & H2 & H3); [rewrite E; lia|]. rewrite E in *.
  exists L. split_and!; [done..|]. unfold find_next_runnable_task. by apply H3.
Qed.

End Search.

End SchedProofs.
