(* ===== verification/SchedulerSafety.v ===== *)
(** The scheduler's operations keep its invariant, and [reschedule] keeps its
    promises: none of its assertions fires, the task it leaves current is the
    one that has to run, and its loops end. *)

From Stdlib Require Import SpecFloat.
From S2P Require Import Prelude Float64 WaitStatus Scheduler SchedulerInv SchedulerProofs.

Module SchedSafety.
Import Sched SchedInv SchedProofs.

Section Safety.
Context {W : Type} `{Env W} `{!EnvLaws W}.
Implicit Types (s : St W).

(** ** Frames *)

(** The fields of a task the scheduler's queues do not depend on. *)
Definition static (T : Task) := (tid T, tgid T, stable_serial T, unstable T, stable_exit T).

(** Nothing but the two collections, the priorities and queue flags of tasks,
    the bookkeeping of one call and the environment differs. *)
Record frame s s' : Prop := {
  fr_current : current_ (sch s') = current_ (sch s);
  fr_exec : in_exec_tgid (sch s') = in_exec_tgid (sch s);
  fr_chaos : enable_chaos (sch s') = enable_chaos (sch s);
  fr_ticks : max_ticks_ (sch s') = max_ticks_ (sch s);
  fr_calm : enable_chaos (sch s) = false -> hpo_period (sch s') = hpo_period (sch s);
  fr_map : task_map s' = task_map s;
  fr_static : static <$> tasks s' = static <$> tasks s
}.

(** As [frame], and the must-run task and the kind of interval are the same. *)
Definition quiet s s' : Prop :=
  frame s s' /\ must_run_task (sch s') = must_run_task (sch s) /\
  last_reschedule_in_high_priority_only_interval (sch s')
  = last_reschedule_in_high_priority_only_interval (sch s).

#[global] Instance frame_refl : Reflexive frame.
Proof. done. Qed.
#[global] Instance frame_trans : Transitive frame.
Proof.
  intros s1 s2 s3 [? ? Hc ? H1 ? ?] [? ? ? ? H2 ? ?]. split; try congruence.
  intros Hch. rewrite H2 by congruence. by apply H1.
Qed.
#[global] Instance quiet_refl : Reflexive quiet.
Proof. done. Qed.
#[global] Instance quiet_trans : Transitive quiet.
Proof.
  intros s1 s2 s3 (? & ? & ?) (? & ? & ?).
  split_and!; [by etrans|congruence..].
Qed.

Lemma static_insert (ts : gmap TaskId Task) t T T' :
  ts !! t = Some T -> static T' = static T -> static <$> <[t := T']> ts = static <$> ts.
Proof.
  intros HT E. rewrite fmap_insert, E. apply insert_id. by rewrite lookup_fmap, HT.
Qed.

Lemma static_live (ts ts' : gmap TaskId Task) t T :
  static <$> ts' = static <$> ts -> ts !! t = Some T ->
  exists T', ts' !! t = Some T' /\ static T' = static T.
Proof.
  intros E HT. assert ((static <$> ts') !! t = Some (static T)) as Hl
    by (rewrite E, lookup_fmap; by rewrite HT).
  rewrite lookup_fmap in Hl. apply fmap_Some in Hl as (T' & ? & ?). eauto.
Qed.

Lemma static_is_Some (ts ts' : gmap TaskId Task) t :
  static <$> ts' = static <$> ts -> is_Some (ts !! t) -> is_Some (ts' !! t).
Proof. intros E [T HT]. destruct (static_live _ _ _ _ E HT) as (T' & ? & _). eauto. Qed.

(** The invariant is that of the queues, when only they changed. *)
Lemma frame_Inv s s' :
  Inv s -> frame s s' ->
  queues_ok (task_priority_set (sch s')) (task_round_robin_queue (sch s')) (tasks s') -> Inv s'.
Proof.
  intros [H1 H2 H3 H4 H5] [Fc Fe Fch Ft Fp Fmap Fs] Hq. split; [done|..].
  - intros t Ht. eapply static_is_Some; [done|]. apply H2. congruence.
  - intros n t Ht. eapply static_is_Some; [done|]. eapply (H3 n). congruence.
  - by rewrite Ft.
  - rewrite Fch. intros Hc. by rewrite Fp, H5.
Qed.

Lemma view_frame s s' : view s' = view s -> frame s s'.
Proof.
  destruct s as [[] ts m w], s' as [[] ts' m' w']. unfold view. simpl.
  intros E. simplify_eq. done.
Qed.

(** ** Queue operations *)

Lemma wp_current sp (Q : option TaskId -> St W -> Prop) s :
  Inv s -> Q (current_ (sch s)) s -> wp sp current Q s.
Proof.
  intros Hi HQ. unfold current. do 2 wp_step.
  destruct (current_ (sch s)) as [t|] eqn:E; [|done]. destruct (inv_current s Hi t E) as [T HT].
  wp_step. by eapply wp_task.
Qed.

Lemma wp_get_rr sp (Q : option TaskId -> St W -> Prop) s :
  Inv s -> Q (head (task_round_robin_queue (sch s))) s -> wp sp get_round_robin_task Q s.
Proof.
  intros Hi HQ. unfold get_round_robin_task. do 2 wp_step.
  destruct (task_round_robin_queue (sch s)) as [|t q] eqn:E; [done|].
  destruct (proj1 (ok_queue _ _ _ (inv_queues s Hi) t)) as (T & HT & _); [rewrite E; set_solver|].
  wp_step. by eapply wp_task.
Qed.

Definition pop_front (t : TaskId) (q : list TaskId) : list TaskId :=
  match q with
  | [] => []
  | x :: q' => if decide (x = t) then q' else q
  end.

Lemma wp_maybe_pop sp t s :
  Inv s ->
  wp sp (maybe_pop_round_robin_task t) (fun _ s' =>
    Inv s' /\ quiet s s' /\
    task_round_robin_queue (sch s') = pop_front t (task_round_robin_queue (sch s)) /\
    forall t', t' <> t -> tasks s' !! t' = tasks s !! t') s.
Proof.
  intros Hi. unfold maybe_pop_round_robin_task, pset_insert. do 2 wp_step.
  destruct (task_round_robin_queue (sch s)) as [|x q] eqn:E; [by wp_step; rewrite E|].
  simpl. destruct (decide (x = t)) as [->|Hne]; [|by wp_step; rewrite E].
  pose proof (inv_queues s Hi) as Hok. rewrite E in Hok.
  destruct (proj1 (ok_queue _ _ _ Hok t)) as (T & HT & _); [set_solver|].
  do 3 wp_step. eapply wp_update_task; [done|]. wp_step.
  eapply wp_task; [apply lookup_insert_eq|]. wp_step.
  match goal with |- Inv ?s' /\ _ => assert (quiet s s') as Hfr end.
  { split; [|done]. split; try done. simpl. by eapply static_insert. }
  split_and!; [|done|done|by intros; apply lookup_insert_ne].
  eapply frame_Inv; [done|apply Hfr|]. simpl. by apply ok_pop.
Qed.

Lemma wp_clear_queue sp fuel s :
  Inv s -> (length (task_round_robin_queue (sch s)) < fuel)%nat ->
  wp sp (clear_queue fuel) (fun _ s' =>
    Inv s' /\ quiet s s' /\ task_round_robin_queue (sch s') = []) s.
Proof.
  revert s. induction fuel as [|fuel IH]; intros s Hi Hf; [lia|]. simpl. wp_step.
  apply wp_get_rr; [done|].
  destruct (task_round_robin_queue (sch s)) as [|t q] eqn:E; simpl; [by wp_step|].
  wp_step. eapply wp_mono; [by apply wp_maybe_pop|done|]. intros _ s' (Hi' & Hfr & Eq & _).
  rewrite E in Eq. simpl in *. rewrite decide_True in Eq by done.
  eapply wp_mono; [apply IH; [done|rewrite Eq; lia]|done|].
  intros _ s2 (Hi2 & Hfr2 & Eq2). split_and!; [done|by etrans|done].
Qed.

(** ** Priorities *)

Lemma wp_update_priority sp t v s :
  Inv s -> is_Some (tasks s !! t) -> -2147483648 < v < 2147483647 ->
  wp sp (update_task_priority_internal t v) (fun _ s' =>
    Inv s' /\ quiet s s' /\
    task_round_robin_queue (sch s') = task_round_robin_queue (sch s)) s.
Proof.
  intros Hi [T HT] Hv. pose proof (inv_queues s Hi) as Hok.
  unfold update_task_priority_internal, pset_remove, pset_insert. wp_step.
  eapply wp_task; [done|]. do 2 wp_step.
  set (value := if stable_exit T && _ then -9999 else v).
  assert (priority_ok (set_priority value T)) as Hp.
  { unfold priority_ok, value. simpl. destruct (_ && _); lia. }
  wp_if; [by wp_step|]. wp_if.
  - eapply wp_update_task; [done|].
    match goal with |- Inv ?s' /\ _ => assert (quiet s s') as Hfr end.
    { split; [|done]. split; try done. simpl. by eapply static_insert. }
    split; [|done]. eapply frame_Inv; [done|apply Hfr|]. simpl.
    eapply ok_change; try done. congruence.
  - do 3 wp_step. eapply wp_update_task; [done|]. wp_step.
    eapply wp_task; [apply lookup_insert_eq|]. wp_step.
    match goal with |- Inv ?s' /\ _ => assert (quiet s s') as Hfr end.
    { split; [|done]. split; try done. simpl. by eapply static_insert. }
    split; [|done]. eapply frame_Inv; [done|apply Hfr|]. simpl. by apply ok_reprioritize.
Qed.

Lemma wp_random_frac sp (Q : F64.f64 -> St W -> Prop) s :
  (forall r w, Q r (mkSt (sch s) (tasks s) (task_map s) w)) -> wp sp random_frac Q s.
Proof. intros HQ. unfold random_frac. wp_steps. apply HQ. Qed.

Lemma wp_choose_random sp t (Q : Z -> St W -> Prop) s :
  is_Some (tasks s !! t) ->
  (forall p w, p = 0 \/ p = 1 -> Q p (mkSt (sch s) (tasks s) (task_map s) w)) ->
  wp sp (choose_random_priority t) Q s.
Proof.
  intros [T HT] HQ. unfold choose_random_priority. wp_step. eapply wp_task; [done|].
  wp_step. apply wp_random_frac. intros r w. wp_step. apply HQ. destruct (F64.lt _ _); auto.
Qed.

Lemma wp_for_each {A} sp (f : A -> M W unit) l (I : St W -> Prop) s :
  (forall a s', a ∈ l -> I s' -> wp sp (f a) (fun _ => I) s') -> I s ->
  wp sp (for_each f l) (fun _ => I) s.
Proof.
  revert s. induction l as [|a l IH]; intros s Hf HI; [by apply wp_ret|]. simpl. wp_step.
  eapply wp_mono; [apply Hf; [set_solver|done]|done|]. intros ? s' HI'. apply IH; [|done]. set_solver.
Qed.

(** Updates of the bookkeeping only. *)
Lemma quiet_Inv s s' :
  Inv s -> frame s s' -> tasks s' = tasks s ->
  task_priority_set (sch s') = task_priority_set (sch s) ->
  task_round_robin_queue (sch s') = task_round_robin_queue (sch s) -> Inv s'.
Proof. intros Hi Hf E1 E2 E3. eapply frame_Inv; [done..|]. rewrite E1, E2, E3. apply Hi. Qed.

Lemma wp_maybe_reset_priorities sp now s :
  Inv s ->
  wp sp (maybe_reset_priorities now) (fun _ s' =>
    Inv s' /\ quiet s s' /\
    task_round_robin_queue (sch s') = task_round_robin_queue (sch s)) s.
Proof.
  intros Hi. pose proof (inv_queues s Hi) as Hok. unfold maybe_reset_priorities. do 2 wp_step.
  wp_if; [by wp_step|]. wp_step. apply wp_random_frac. intros r w. do 2 wp_step.
  apply wp_for_each.
  - intros t s1 Ht (Hi1 & Hq1 & Eq1).
    assert (is_Some (tasks s1 !! t)) as Hl.
    { apply (static_is_Some (tasks s)); [apply Hq1|]. apply elem_of_app in Ht as [Ht|Ht].
      - apply list_elem_of_fmap in Ht as (p & -> & Hp).
        destruct (Inv_pset_live _ _ Hi Hp) as (T & HT & _). eauto.
      - apply (ok_queue _ _ _ Hok) in Ht as (T & HT & _). eauto. }
    wp_step. apply wp_choose_random; [done|]. intros p w1 Hp.
    eapply wp_mono; [apply wp_update_priority; simpl|done|]; [by eapply quiet_Inv|done|lia|].
    intros _ s2 (Hi2 & Hq2 & Eq2). split_and!; [done| |by rewrite Eq2].
    etrans; [exact Hq1|]. etrans; [|exact Hq2]. done.
  - split_and!; [|done|done]. by eapply quiet_Inv.
Qed.

Lemma wp_reset_hpo sp now s :
  Inv s ->
  wp sp (maybe_reset_high_priority_only_intervals now) (fun _ s' =>
    Inv s' /\ quiet s s' /\ tasks s' = tasks s /\
    task_priority_set (sch s') = task_priority_set (sch s) /\
    task_round_robin_queue (sch s') = task_round_robin_queue (sch s)) s.
Proof.
  intros Hi. unfold maybe_reset_high_priority_only_intervals. do 2 wp_step.
  wp_if; [by wp_step|]. do 2 wp_step. wp_step. apply wp_random_frac. intros r w. wp_step.
  unfold id in *. apply orb_false_iff in Heqb as [Hc%negb_false_iff _].
  match goal with |- Inv ?s' /\ _ => assert (quiet s s') as Hfr end.
  { split; [|done]. split; try done. simpl. congruence. }
  split_and!; [|done..]. eapply quiet_Inv; [done|apply Hfr|done..].
Qed.

(** ** Selection *)

Lemma polled_view t bw s s' :
  polled t bw s -> tasks s' = tasks s -> must_run_task (sch s') = must_run_task (sch s) ->
  polled t bw s'.
Proof. unfold polled. intros Hp E1 E2. by rewrite E1, E2. Qed.

(** [curr] may stay current as far as the round-robin queue is concerned. *)
Definition front_or_empty (t : TaskId) s : Prop :=
  task_round_robin_queue (sch s) = [] \/ head (task_round_robin_queue (sch s)) = Some t.

Lemma wp_treat_as_high sp t (Q : bool -> St W -> Prop) s :
  is_Some (tasks s !! t) -> (forall b, Q b s) -> wp sp (treat_as_high_priority t) Q s.
Proof.
  intros [T HT] HQ. unfold treat_as_high_priority. do 2 wp_step. wp_if; [|by wp_step].
  wp_step. eapply wp_task; [done|]. by wp_step.
Qed.

Lemma wp_consider_current sp curr s :
  Inv s -> must_run_task (sch s) = None -> current_ (sch s) = Some curr ->
  wp sp (consider_current curr false) (fun c s' =>
    view s' = view s /\
    match c with
    | HigherPriority t bw => is_Some (tasks s !! t) /\ polled t bw s' /\ task_round_robin_queue (sch s) = []
    | KeepCurrent bw => polled curr bw s' /\ front_or_empty curr s
    | RejectCurrent bw => must_run_task (sch s') = None /\ bw = false
    end) s.
Proof.
  intros Hi Hm Hc. destruct (inv_current s Hi curr Hc) as [T HT].
  unfold consider_current. wp_step. apply wp_get_rr; [done|]. wp_step.
  eapply wp_task; [done|]. wp_step.
  eapply wp_mono with (sp := sp) (Q := fun r s' =>
    view s' = view s /\
    match r.1 with
    | Some t => is_Some (tasks s !! t) /\ polled t r.2 s' /\ task_round_robin_queue (sch s) = []
    | None => must_run_task (sch s') = None /\ r.2 = false
    end); [|done|].
  { destruct (task_round_robin_queue (sch s)) as [|f q] eqn:Eq; simpl; [|by wp_step].
    wp_step. destruct (ok_prio _ _ _ (inv_queues s Hi) curr T HT) as [[? ?] _].
    apply wp_i32_add; [lia|]. eapply wp_mono; [apply wp_find_next; [done..|]|done|].
    - intros t [= <-]. eauto.
    - intros [[t|] bw] s1; simpl; intros [Hv Hr]; [|done]. by split_and!; [|apply Hr..|]. }
  intros [[t|] bw] s1; simpl; intros [Hv Hr]; [by wp_step|]. destruct Hr as [Hm1 ->].
  destruct (view_inv _ _ Hv) as (Et & _). do 4 wp_step. wp_step.
  apply wp_treat_as_high; [rewrite Et; eauto|]. intros high. wp_if; [|by wp_step].
  wp_step. eapply wp_mono; [eapply wp_is_task_runnable; [rewrite Et; done|done..]|done|].
  intros [[] bw] s2; simpl; intros [Hv2 Hr]; wp_step; (split; [congruence|]); [|done].
  split; [done|]. to_Z. unfold front_or_empty.
  destruct (task_round_robin_queue (sch s)) as [|f q]; simpl in *; [by left|right].
  match goal with Hb : bool_decide _ = true |- _ => apply bool_decide_eq_true in Hb as -> end. done.
Qed.

(** [by_waitpid] tells whether [t] has to run because of a status change. *)
Definition must_agree (t : TaskId) (bw : bool) s : Prop :=
  (must_run_task (sch s) = None /\ bw = false) \/ (must_run_task (sch s) = Some t /\ bw = true).

Lemma polled_must_agree t bw s : polled t bw s -> must_agree t bw s.
Proof. unfold polled, must_agree. naive_solver. Qed.

Lemma wp_validate sp c s :
  Inv s -> current_ (sch s) = Some c ->
  must_run_task (sch s) = None \/ must_run_task (sch s) = Some c -> front_or_empty c s ->
  wp sp validate_scheduled_task (fun _ s' => s' = s) s.
Proof.
  intros Hi Hc Hp Hf. unfold validate_scheduled_task. wp_step. apply wp_current; [done|].
  rewrite Hc. do 3 wp_step. destruct (inv_current s Hi c Hc) as [T HT].
  eapply wp_mono with (sp := sp) (Q := fun _ s' => s' = s); [|done|].
  { destruct Hp as [-> | ->]; [by wp_step|]. wp_step. eapply wp_task; [done|].
    apply wp_assert; [by apply bool_decide_eq_true|done]. }
  intros _ s1 ->. do 2 wp_step.
  destruct Hf as [->|Hf]; [by wp_step|].
  destruct (task_round_robin_queue (sch s)) as [|f q]; [done|]. simplify_eq/=. wp_step.
  eapply wp_task; [done|]. apply wp_assert; [by apply bool_decide_eq_true|done].
Qed.

(** What the selection loop ends with. *)
Definition selected (sel : Selection) s : Prop :=
  match sel with
  | CarryOn bw => exists c, current_ (sch s) = Some c /\ polled c bw s /\ front_or_empty c s
  | Candidate (Some t) bw _ => is_Some (tasks s !! t) /\ polled t bw s /\ front_or_empty t s
  | Candidate None bw _ => must_run_task (sch s) = None /\ bw = false
  end.

Lemma calm_interval now s :
  Inv s -> enable_chaos (sch s) = false -> in_high_priority_only_interval now (sch s) = false.
Proof.
  intros Hi Hc. unfold in_high_priority_only_interval. rewrite (inv_calm s Hi Hc).
  destruct (F64.lt _ _); [done|]. unfold F64.zero. by rewrite F64.rem_zero_r, F64.lt_nan_l.
Qed.

Lemma front_or_empty_view t s s' : view s' = view s -> front_or_empty t s -> front_or_empty t s'.
Proof. intros (_ & _ & _ & _ & E & _)%view_inv. unfold front_or_empty. by rewrite E. Qed.

(** The search when the round-robin queue is empty, with the rest of the loop
    as a parameter. *)
Lemma wp_select_by_priority sp now s (again : TaskId -> bool -> F64.f64 -> M W Selection) :
  Inv s -> must_run_task (sch s) = None -> task_round_robin_queue (sch s) = [] ->
  (last_reschedule_in_high_priority_only_interval (sch s) = true ->
   forall nt now' s', Inv s' -> frame s s' -> must_run_task (sch s') = None ->
     wp sp (again nt false now') (fun sel s2 => Inv s2 /\ frame s s2 /\ selected sel s2) s') ->
  wp sp (c ← current;
         r ← find_next_runnable_task c 2147483647;
         let bw := (r : option TaskId * bool).2 in
         match r.1 with
         | Some nt =>
             high ← treat_as_high_priority nt;
             s ← gets id;
             if negb high && last_reschedule_in_high_priority_only_interval s && negb bw
             then
               _ ← sleep_time_1ms;
               now ← monotonic_now_sec;
               again nt bw now
             else mret (Candidate (Some nt) bw now)
         | None => mret (Candidate None bw now)
         end) (fun sel s' => Inv s' /\ frame s s' /\ selected sel s') s.
Proof.
  intros Hi Hm Eq Hagain. wp_step. apply wp_current; [done|]. wp_step.
  eapply wp_mono; [apply wp_find_next; [done..|apply Hi]|done|].
  intros [o bw] s1; simpl; intros [Hv Hr].
  pose proof (view_Inv _ _ Hv Hi) as Hi1. pose proof (view_frame _ _ Hv) as Hfr1.
  destruct (view_inv _ _ Hv) as (Et & _ & _ & _ & Eq1 & _ & _ & El).
  destruct o as [nt|]; [|by wp_step]. destruct Hr as [Hl Hp]. wp_step.
  apply wp_treat_as_high; [by rewrite Et|]. intros high. do 2 wp_step. unfold id. wp_if.
  - to_Z. subst bw. unfold sleep_time_1ms, monotonic_now_sec, env_. wp_steps.
    destruct Hp as [[Hm1 _]|(_ & [=] & _)].
    apply Hagain; [congruence|..]; simpl; [|by etrans; [exact Hfr1|]|done].
    eapply (quiet_Inv s1); done.
  - wp_step. simpl. split_and!; [done|done|by rewrite Et|done|].
    left. by rewrite Eq1.
Qed.

(** The task at the front of the queue, with the rest of the loop as a
    parameter. *)
Lemma wp_try_front sp nt q now s (again : bool -> M W Selection) :
  Inv s -> must_run_task (sch s) = None -> task_round_robin_queue (sch s) = nt :: q ->
  (forall s', Inv s' -> frame s s' -> must_run_task (sch s') = None ->
     task_round_robin_queue (sch s') = q ->
     wp sp (again false) (fun sel s2 => Inv s2 /\ frame s s2 /\ selected sel s2) s') ->
  wp sp (r ← is_task_runnable nt false;
         if (r : bool * bool).1 then mret (Candidate (Some nt) r.2 now)
         else _ ← maybe_pop_round_robin_task nt; again r.2)
    (fun sel s' => Inv s' /\ frame s s' /\ selected sel s') s.
Proof.
  intros Hi Hm Eq Hagain. wp_step.
  destruct (proj1 (ok_queue _ _ _ (inv_queues s Hi) nt)) as (T & HT & _); [rewrite Eq; set_solver|].
  eapply wp_mono; [by eapply wp_is_task_runnable|done|].
  intros [[] bw] s1; simpl; intros [Hv Hr]; pose proof (view_frame _ _ Hv) as Hf;
    pose proof (view_Inv _ _ Hv Hi) as Hi1; destruct (view_inv _ _ Hv) as (Et & _ & _ & _ & Eq1 & _).
  - wp_step. simpl. split_and!; [done|done|rewrite Et; eauto|done|]. right. by rewrite Eq1, Eq.
  - destruct Hr as [Hm1 ->]. wp_step. eapply wp_mono; [by apply wp_maybe_pop|done|].
    intros _ s2 (Hi2 & (Hf2 & Hm2 & _) & Eq2 & _). rewrite Eq1, Eq in Eq2. simpl in Eq2.
    rewrite decide_True in Eq2 by done. apply Hagain; [done|by etrans|congruence|done].
Qed.

(** The start of a turn of the loop: the interval bookkeeping. *)
Lemma wp_enter_turn sp now s (Q : unit -> St W -> Prop) :
  Inv s ->
  (forall s', Inv s' -> frame s s' -> must_run_task (sch s') = must_run_task (sch s) ->
     task_round_robin_queue (sch s') = task_round_robin_queue (sch s) ->
     (last_reschedule_in_high_priority_only_interval (sch s') = true -> enable_chaos (sch s) = true) ->
     Q tt s') ->
  wp sp (_ ← maybe_reset_high_priority_only_intervals now;
         mod_sch (fun x => set_last_hpo (in_high_priority_only_interval now x) x)) Q s.
Proof.
  intros Hi HQ. wp_step. eapply wp_mono; [by apply wp_reset_hpo|done|].
  intros _ s1 (Hi1 & (Hf1 & Hm1 & _) & Et & Ep & Eq). wp_step.
  apply HQ; simpl; try done.
  - eapply (quiet_Inv s1); done.
  - by etrans; [exact Hf1|].
  - intros Hl. destruct (enable_chaos (sch s)) eqn:Ec; [done|].
    rewrite calm_interval in Hl; [done|done|]. by rewrite (fr_chaos _ _ Hf1).
Qed.

Lemma bind_assoc {A B C} (m : M W A) (f : A -> M W B) (g : B -> M W C) s :
  (x ← m; y ← f x; g y) s = (y ← (x ← m; f x); g y) s.
Proof. unfold mbind, M_bind. by destruct (m s) as [[a s']| | |]. Qed.

Lemma wp_assoc {A B C} sp (m : M W A) (f : A -> M W B) (g : B -> M W C) Q s :
  wp sp (y ← (x ← m; f x); g y) Q s -> wp sp (x ← m; y ← f x; g y) Q s.
Proof. unfold wp. by rewrite bind_assoc. Qed.

Lemma pop_front_length t q : (length (pop_front t q) <= length q)%nat.
Proof. destruct q as [|x q]; simpl; [done|]. destruct (decide _); simpl; lia. Qed.

(** The task whose turn it was leaves the front of the queue. *)
Lemma wp_pop_current sp (c : option TaskId) s :
  Inv s ->
  wp sp (match c with Some curr => maybe_pop_round_robin_task curr | None => mret tt end)
    (fun _ s' => Inv s' /\ quiet s s' /\
       (length (task_round_robin_queue (sch s')) <= length (task_round_robin_queue (sch s)))%nat) s.
Proof.
  intros Hi. destruct c as [curr|]; [|by wp_step].
  eapply wp_mono; [by apply wp_maybe_pop|done|].
  intros _ s' (? & ? & -> & _). split_and!; [done..|apply pop_front_length].
Qed.

Lemma wp_select_loop sp fuel mn now s :
  Inv s -> must_run_task (sch s) = None -> (mn = None \/ in_exec_tgid (sch s) = None) ->
  (sp \/ enable_chaos (sch s) = false /\ (length (task_round_robin_queue (sch s)) < fuel)%nat) ->
  wp sp (select_loop fuel mn false now) (fun sel s' =>
    Inv s' /\ frame s s' /\ selected sel s') s.
Proof.
  revert mn now s. induction fuel as [|fuel IH]; intros mn now s Hi Hm Hmn Hsp.
  { destruct Hsp as [Hsp|[_ ?]]; [by apply wp_spin|lia]. }
  simpl. do 2 wp_step. destruct (in_exec_tgid (sch s)) as [g|] eqn:Hg.
  { wp_step. destruct Hmn as [->|]; [|done]. by split_and!. }
  apply wp_assoc, wp_bind, wp_enter_turn; [done|]. intros s1 Hi1 Hf1 Hm1 Eq1 Hl1. wp_step.
  apply wp_current; [done|]. wp_step.
  eapply wp_mono with (sp := sp) (Q := fun c s' => view s' = view s1 /\
    match c with
    | HigherPriority t bw => is_Some (tasks s1 !! t) /\ polled t bw s' /\ task_round_robin_queue (sch s1) = []
    | KeepCurrent bw => exists curr, current_ (sch s1) = Some curr /\ polled curr bw s' /\ front_or_empty curr s1
    | RejectCurrent bw => must_run_task (sch s') = None /\ bw = false
    end); [|done|].
  { destruct (current_ (sch s1)) as [curr|] eqn:Hc; [|by wp_step; rewrite Hm1].
    eapply wp_mono; [apply wp_consider_current; done || congruence|done|].
    intros [] s2 [Hv Hr]; (split; [done|]); eauto. }
  intros choice s2 [Hv2 Hr]. pose proof (view_Inv _ _ Hv2 Hi1) as Hi2.
  assert (frame s s2) as Hf2 by (etrans; [exact Hf1|by apply view_frame]).
  destruct (view_inv _ _ Hv2) as (Et2 & _ & _ & Ec2 & Eq2 & _ & _ & El2).
  destruct choice as [t bw|bw|bw].
  - wp_step. destruct Hr as (Hl & Hp & Eq). simpl. split_and!; [done|done|by rewrite Et2|done|].
    left. congruence.
  - destruct Hr as (curr & Hc & Hp & Hf). assert (front_or_empty curr s2) by by eapply front_or_empty_view.
    wp_step. eapply wp_mono; [apply (wp_validate _ curr); [done|by rewrite Ec2|unfold polled in Hp; naive_solver|done]|done|].
    intros _ s3 ->. wp_step. split_and!; [done|done|]. exists curr. split_and!; [congruence|done|done].
  - destruct Hr as [Hm2 ->]. wp_step. eapply wp_mono; [by apply wp_pop_current|done|].
    intros _ s3 (Hi3 & (Hf3 & Hm3 & Hl3) & Hlen3). wp_step. apply wp_get_rr; [done|].
    assert (frame s s3) as Hfs3 by (by etrans).
    destruct (task_round_robin_queue (sch s3)) as [|nt q] eqn:Eq3; simpl.
    + eapply wp_mono; [apply (wp_select_by_priority sp now s3 (fun nt bw now => select_loop fuel (Some nt) bw now))|done|];
        [done|congruence|done| |].
      * intros Hl nt now' s4 Hi4 Hf4 Hm4.
        destruct Hsp as [Hsp|[Hc _]]; [|rewrite Hl1 in Hc; congruence].
        eapply wp_mono; [apply IH; [done|done| |by left]|done|].
        -- right. rewrite (fr_exec _ _ Hf4), (fr_exec _ _ Hfs3). done.
        -- intros sel s5 (? & ? & ?). split_and!; [done|by etrans|done].
      * intros sel s4 (? & ? & ?). split_and!; [done|by etrans|done].
    + eapply wp_mono; [apply (wp_try_front sp nt q now s3 (fun bw => select_loop fuel (Some nt) bw now))|done|];
        [done|congruence|done| |].
      * intros s4 Hi4 Hf4 Hm4 Eq4. eapply wp_mono; [apply IH; [done|done| |]|done|].
        -- right. by rewrite (fr_exec _ _ Hf4), (fr_exec _ _ Hfs3).
        -- destruct Hsp as [?|[? ?]]; [by left|right].
           rewrite (fr_chaos _ _ Hf4), (fr_chaos _ _ Hfs3), Eq4. split; [done|].
           rewrite Eq2, Eq1 in Hlen3. simpl in Hlen3. lia.
        -- intros sel s5 (? & ? & ?). split_and!; [done|by etrans|done].
      * intros sel s4 (? & ? & ?). split_and!; [done|by etrans|done].
Qed.

(** ** Switching and waiting *)

Lemma wp_setup_timeslice sp c s :
  Inv s -> current_ (sch s) = Some c ->
  wp sp setup_new_timeslice (fun _ s' =>
    view s' = view s /\ must_run_task (sch s') = must_run_task (sch s)) s.
Proof.
  intros Hi Hc. pose proof (inv_ticks s Hi) as Hticks. unfold setup_new_timeslice. do 3 wp_step.
  eapply wp_mono with (sp := sp) (Q := fun d s' => 0 < d /\ Inv s' /\ sch s' = sch s /\
    tasks s' = tasks s /\ task_map s' = task_map s); [|done|].
  { unfold id. wp_if; [|by wp_step; split_and!; [lia|done..]]. wp_step. apply wp_random_frac. intros r w. wp_step.
    split_and!; [|by eapply quiet_Inv|done..].
    unfold VERY_SHORT_TIMESLICE_MAX_DURATION, SHORT_TIMESLICE_MAX_DURATION.
    repeat destruct (F64.lt _ _); lia. }
  intros d s1 (Hd & Hi1 & Es & Et & Em). wp_step. apply wp_current; [done|]. rewrite Es, Hc.
  do 4 wp_step. wp_step. unfold id. set (m := Z.min (max_ticks_ (sch s)) d).
  assert (0 < m <= 1000000000) as Hm by lia.
  apply wp_assert; [apply negb_true_iff, Z.eqb_neq; lia|]. wp_step.
  apply wp_assert.
  - apply Z.ltb_lt. pose proof (law_ticks (world s1) c).
    pose proof (Z.mod_pos_bound (random_u64 (world s1)).1 m ltac:(lia)). lia.
  - wp_step. unfold view. simpl. by rewrite Es, Et, Em.
Qed.

Lemma wp_switch_to sp nt bw now s :
  Inv s -> is_Some (tasks s !! nt) -> must_agree nt bw s -> front_or_empty nt s ->
  wp sp (switch_to nt bw now) (fun r s' =>
    Inv s' /\ r = mkRescheduled false bw true /\ current_ (sch s') = Some nt /\
    must_agree nt bw s' /\ front_or_empty nt s') s.
Proof.
  intros Hi Hl Hm Hf. unfold switch_to. wp_step.
  eapply wp_mono; [by apply wp_reset_hpo|done|].
  intros _ s1 (Hi1 & (Hf1 & Hm1 & _) & Et & Ep & Eq). do 3 wp_step.
  match goal with |- wp _ _ _ ?s => assert (Inv s) as Hi2 end.
  { destruct Hi1 as [H1 H2 H3 H4 H5]. split; simpl; try done. intros t [= <-]. by rewrite Et. }
  eapply wp_mono; [apply (wp_validate sp nt); simpl; try done|done|].
  - rewrite Hm1. unfold must_agree in Hm. naive_solver.
  - unfold front_or_empty in *. simpl. by rewrite Eq.
  - intros _ s2 ->. wp_step. eapply wp_mono; [by apply (wp_setup_timeslice sp nt)|done|].
    intros _ s3 [Hv Hm3]. wp_step. destruct (view_inv _ _ Hv) as (_ & _ & _ & Ec & Eq3 & _).
    split_and!; [by eapply view_Inv|done|done| |].
    + unfold must_agree in *. simpl in *. by rewrite Hm3, Hm1.
    + unfold front_or_empty in *. simpl in *. by rewrite Eq3, Eq.
Qed.

(** What waiting leaves alone. *)
Definition waiting s s' : Prop :=
  Inv s' /\ current_ (sch s') = current_ (sch s) /\ must_run_task (sch s') = must_run_task (sch s) /\
  task_round_robin_queue (sch s') = task_round_robin_queue (sch s).

Lemma waiting_trans s1 s2 s3 : waiting s1 s2 -> waiting s2 s3 -> waiting s1 s3.
Proof. unfold waiting. intros (? & ? & ? & ?) (? & ? & ? & ?). split_and!; congruence || done. Qed.

(** Changing a task's fields that the queues do not depend on. *)
Lemma wp_change_task sp t f s :
  Inv s -> is_Some (tasks s !! t) ->
  (forall T, priority (f T) = priority T /\ stable_serial (f T) = stable_serial T /\
     in_round_robin_queue (f T) = in_round_robin_queue T) ->
  wp sp (update_task t f) (fun _ s' => waiting s s' /\ task_map s' = task_map s /\
    forall t, is_Some (tasks s !! t) -> is_Some (tasks s' !! t)) s.
Proof.
  intros Hi [T HT] Hf. eapply wp_update_task; [done|]. destruct (Hf T) as (E1 & E2 & E3).
  assert (forall t', is_Some (tasks s !! t') -> is_Some (<[t := f T]> (tasks s) !! t')) as Hl.
  { intros t' Ht'. destruct (decide (t = t')) as [->|]; [rewrite lookup_insert_eq; eauto|].
    by rewrite lookup_insert_ne. }
  destruct Hi as [H1 H2 H3 H4 H5]. split; [|done]. split; [|done]. split; simpl; try done; eauto.
  eapply ok_change; try done. unfold priority_ok. rewrite E1. by eapply ok_prio.
Qed.

(** What the kernel reports about a thread that executes a program and has got a new id: it
    is the id of its thread group. *)
Definition honest_exec (n : Z) s : Prop := forall old t T,
  (ptrace_geteventmsg (world s) n).1 = Some old -> task_map s !! old = Some t -> tasks s !! t = Some T -> n = tgid T.

Lemma wp_waited_task (sp : Prop) n st s :
  sp -> Inv s ->
  (Status.maybe_ptrace_event st = Some PTRACE_EVENT_EXEC -> task_map s !! n = None -> honest_exec n s) ->
  wp sp (waited_task n st) (fun o s' =>
    waiting s s' /\ match o with Some t => is_Some (tasks s' !! t) | None => True end) s.
Proof.
  intros Hsp Hi He. unfold waited_task. do 2 wp_step. wp_if.
  2:{ wp_step. split; [done|]. destruct (_ !! _) as [t|] eqn:E; [|done]. by eapply inv_map. }
  destruct (task_map s !! n) as [t|] eqn:E.
  { pose proof (inv_map s Hi n t E) as Hl. wp_step.
    eapply wp_mono; [by apply (wp_change_task sp)|done|]. intros _ s1 (Hw & _ & Hl1). wp_step. auto. }
  unfold revive_task_for_exec. wp_steps.
  destruct (ptrace_geteventmsg _ _) as [[old|] w] eqn:Em; simpl; [|by wp_step]. wp_steps. simpl.
  destruct (task_map s !! old) as [t|] eqn:Eo; [|by wp_step].
  destruct (inv_map s Hi old t Eo) as [T HT]. wp_step. eapply wp_task; [done|]. wp_step.
  apply wp_assert.
  { apply bool_decide_eq_true in Heqb. apply Z.eqb_eq, (He Heqb eq_refl old t T); [by rewrite Em|done|done]. }
  wp_step. wp_step. wp_step.
  match goal with |- wp _ _ _ ?s => set (s1 := s) end.
  assert (waiting s s1) as (Hi1 & Hw1).
  { split_and!; try done. destruct Hi as [H1 H2 H3 H4 H5]. split; simpl; try done.
    intros m t' [[_ <-]|[_ [_ Hm]%lookup_delete_Some]]%lookup_insert_Some; [eauto|by eapply H3]. }
  assert (is_Some (tasks s1 !! t)) as Hl1 by (simpl; eauto).
  eapply wp_mono; [by apply (wp_change_task sp)|done|]. intros _ s2 ((Hi2 & Hw2) & _ & Hl2).
  wp_step. eapply wp_mono; [apply (wp_change_task sp); eauto|done|].
  intros _ s3 ((Hi3 & Hw3) & _ & Hl3). do 2 wp_step. split; [|eauto].
  eapply waiting_trans; [|exact (conj Hi3 Hw3)].
  eapply waiting_trans; [exact (conj Hi1 Hw1)|exact (conj Hi2 Hw2)].
Qed.

Lemma wp_poll_timer (sp : Prop) n s :
  sp -> Inv s -> wp sp (poll_timer n) (fun _ s' => waiting s s') s.
Proof.
  intros Hsp Hi. unfold poll_timer. do 2 wp_step. wp_if; [|by wp_step]. do 2 wp_step.
  apply wp_fatal_unless; [done|]. split; [|done]. by eapply quiet_Inv.
Qed.

Lemma wp_timed_waitpid (sp : Prop) s :
  sp -> Inv s -> wp sp timed_waitpid (fun wr s' => waiting s s' /\ exists w : W, wr = (waitpid w).1) s.
Proof.
  intros Hsp Hi. unfold timed_waitpid. wp_step. eapply wp_mono; [by apply (wp_poll_timer sp)|done|].
  intros ? s1 Hw1. do 3 wp_step. eapply wp_mono; [apply (wp_poll_timer sp); [done|]|done|].
  { eapply (quiet_Inv s1); [apply Hw1|done..]. }
  intros ? s2 Hw2. wp_step. split; [|eauto]. eapply waiting_trans; [exact Hw1|exact Hw2].
Qed.

(** The kernel reports, as long as [fuel] waits go on, only tasks that were blocked or
    unstable, or exits. *)
Fixpoint honest (fuel : nat) s : Prop :=
  match fuel with
  | O => True
  | S fuel => forall n raw s1, timed_waitpid s = Ok (Waited n raw, s1) ->
      (Status.maybe_ptrace_event (Status.new raw) = Some PTRACE_EVENT_EXEC -> task_map s1 !! n = None -> honest_exec n s1) /\
      forall o s2, waited_task n (Status.new raw) s1 = Ok (o, s2) ->
        match o with
        | None => honest fuel s2
        | Some t => (forall T, tasks s2 !! t = Some T -> unstable T || may_be_blocked (world s2) t
                       || bool_decide (Status.maybe_ptrace_event (Status.new raw) = Some PTRACE_EVENT_EXIT) = true) /\
            honest fuel (mkSt (sch s2) (tasks s2) (task_map s2) (did_waitpid (world s2) t (Status.new raw)))
        end
  end.

(** The wait for a task can be interrupted only while there is a current one. *)
Definition interruptible s : Prop :=
  current_ (sch s) <> None \/ forall w : W, (waitpid w).1 <> WaitFailed EINTR.

Lemma wp_wait_loop (sp : Prop) fuel s :
  sp -> Inv s -> must_run_task (sch s) = None -> interruptible s -> honest fuel s ->
  wp sp (wait_loop fuel) (fun o s' =>
    waiting s s' /\ match o with Some t => is_Some (tasks s' !! t) | None => True end) s.
Proof.
  intros Hsp. revert s. induction fuel as [|fuel IH]; intros s Hi Hm Hc Hh; [by apply wp_spin|]. cbn [wait_loop honest] in *.
  assert (forall s', waiting s s' -> honest fuel s' -> wp sp (wait_loop fuel) (fun o s' =>
    waiting s s' /\ match o with Some t => is_Some (tasks s' !! t) | None => True end) s') as Again.
  { intros s' Hw Hh'. pose proof Hw as (Hi' & Ec' & Em' & _). eapply wp_mono; [apply IH; try done|done|].
    - by rewrite Em'.
    - unfold interruptible. by rewrite Ec'.
    - intros o s2 [Hw2 Ho]. split; [by eapply waiting_trans|done]. }
  wp_step. eapply wp_mono; [by apply wp_eq, (wp_timed_waitpid sp)|done|]. intros wr s2 ([Hw [w Ew]] & Et).
  pose proof Hw as (Hi2 & Ec & Em & Eq). destruct wr as [wtid raw|e].
  - destruct (Hh _ _ _ Et) as [He Hr]. wp_step. eapply wp_mono; [by apply wp_eq, (wp_waited_task sp)|done|].
    intros o s3 ([Hw3 Hl] & Ewt). specialize (Hr _ _ Ewt).
    assert (waiting s s3) as Hws by by eapply waiting_trans. destruct o as [nt|]; [|by apply Again].
    destruct Hl as [T HT], Hr as [Hb Hn]. wp_step. eapply wp_task; [done|]. do 3 wp_step.
    apply wp_assert; [by apply Hb|]. do 4 wp_step.
    match goal with |- wp _ _ _ ?s => set (s4 := s) end.
    assert (waiting s s4) as Hw4.
    { eapply waiting_trans; [exact Hws|]. split; [|done]. eapply (quiet_Inv s3); [apply Hw3|done..]. }
    wp_if; [by apply Again|]. wp_step. split; [done|]. simpl. eauto.
  - wp_if; [|by wp_step]. to_Z. subst e. wp_step. apply wp_current; [done|].
    destruct (current_ (sch s2)) eqn:Ec2; [|by destruct Hc as [?|Hno]; [|destruct (Hno w)]].
    do 3 wp_step. apply wp_assert; [apply bool_decide_eq_true; congruence|]. wp_step. by split.
Qed.

(** What [reschedule] leaves behind, for a switch and for an interruption. *)
Definition rescheduled (r : Rescheduled) s : Prop :=
  Inv s /\
  if interrupted_by_signal r
  then must_run_task (sch s) = None /\ task_round_robin_queue (sch s) = []
  else exists t, current_ (sch s) = Some t /\ must_agree t (by_waitpid r) s /\ front_or_empty t s.

(** The kernel is honest once the queue has been cleared. *)
Definition honest_wait (fuel : nat) s : Prop :=
  forall s', clear_queue (S (length (task_round_robin_queue (sch s)))) s = Ok (tt, s') -> honest fuel s'.

Lemma wp_wait_for_task (sp : Prop) fuel bw s :
  sp -> Inv s -> must_run_task (sch s) = None -> interruptible s -> honest_wait fuel s ->
  wp sp (wait_for_task fuel bw) rescheduled s.
Proof.
  intros Hsp Hi Hm Hc Hh. unfold wait_for_task. do 3 wp_step.
  eapply wp_mono; [apply wp_eq, (wp_clear_queue sp); [done|lia]|done|].
  intros [] s1 ((Hi1 & (Hf1 & Hm1 & _) & Eq1) & Ecl). wp_step.
  eapply wp_mono; [apply (wp_wait_loop sp); [done|done|congruence|unfold interruptible; by rewrite (fr_current _ _ Hf1)|by apply Hh]|done|].
  intros [nt|] s2 [(Hi2 & Ec2 & Em2 & Eq2) Hl].
  - unfold must_run. do 2 wp_step. eapply wp_mono; [apply (wp_switch_to sp)|done|].
    + by eapply (quiet_Inv s2).
    + done.
    + by right.
    + left. simpl. congruence.
    + intros r s3 (Hi3 & -> & Hc3 & Hm3 & Hf3). split; [done|]. simpl. eauto.
  - wp_step. split; [done|]. simpl. split; congruence.
Qed.

(** ** One round of round-robin *)

Lemma popped_not_queued t s :
  Inv s -> front_or_empty t s -> t ∉ pop_front t (task_round_robin_queue (sch s)).
Proof.
  intros Hi Hf. pose proof (ok_nodup _ _ _ (inv_queues s Hi)) as Hn. unfold front_or_empty in Hf.
  destruct (task_round_robin_queue (sch s)) as [|x q]; simpl; [set_solver|].
  destruct Hf as [|[= ->]]; [done|]. rewrite decide_True by done. by apply NoDup_cons in Hn as [? _].
Qed.

Definition others (t : TaskId) (ps : list PriorityTup) : list PriorityTup :=
  List.filter (fun p => negb (bool_decide (t = tup_task p))) ps.

Lemma all_queued q ts t T : queues_ok [] q ts -> ts !! t = Some T -> t ∈ q.
Proof.
  intros Hok HT. apply (ok_queue _ _ _ Hok). destruct (in_round_robin_queue T) eqn:E; [eauto|].
  assert (tup_of t T ∈ []) as Hin; [|set_solver]. apply (ok_set _ _ _ Hok). exists T. done.
Qed.

(** The loop that moves the tasks of the set [ps] to the queue: while it runs,
    the tasks not yet moved form the set [V]. *)
Lemma wp_enqueue_others sp t (ps0 l : list PriorityTup) s (V : list PriorityTup) :
  (forall x, x ∈ l -> x ∈ ps0) -> bt_sorted tup_cmp l ->
  queues_ok V (task_round_robin_queue (sch s)) (tasks s) ->
  (forall y, y ∈ V <-> y ∈ l \/ (y ∈ ps0 /\ tup_task y = t)) ->
  wp sp (for_each (fun p =>
           tt_ ← task (tup_task p);
           if negb (bool_decide (t = tup_task p)) && negb (in_round_robin_queue tt_) then
             _ ← mod_sch (fun x => set_queue (task_round_robin_queue x ++ [tup_task p]) x);
             update_task (tup_task p) (set_in_rrq true)
           else mret tt) l) (fun _ s' =>
    quiet s s' /\ task_priority_set (sch s') = task_priority_set (sch s) /\
    task_round_robin_queue (sch s') = task_round_robin_queue (sch s) ++ map tup_task (others t l) /\
    exists V' : list PriorityTup, queues_ok V' (task_round_robin_queue (sch s')) (tasks s') /\
      forall y, y ∈ V' <-> y ∈ ps0 /\ tup_task y = t) s.
Proof.
  revert s V. induction l as [|p l IH]; intros s V Hl Hs Hok HV.
  { cbn [for_each]. wp_step. split_and!; [done..|by rewrite app_nil_r|]. exists V. split; [done|]. set_solver. }
  apply StronglySorted_inv in Hs as [Hs Hp]. rewrite Forall_forall in Hp.
  assert (forall x, x ∈ l -> x ∈ ps0) as Hl' by (intros x Hx; apply Hl, elem_of_cons; by right).
  assert (p ∈ V) as HpV by (apply HV; left; apply elem_of_cons; by left).
  destruct (proj1 (ok_set _ _ _ Hok p) HpV) as (T & HT & Ep & Hq). cbn [for_each]. do 2 wp_step.
  eapply wp_task; [done|]. cbv beta. rewrite Hq. simpl.
  destruct (bool_decide_reflect (t = tup_task p)) as [Et|Ht]; simpl.
  { wp_step. rewrite <- (app_nil_l (map _ _)).
    eapply wp_mono; [apply (IH s V); [exact Hl'|done|done|]|done|done].
    intros y. rewrite HV, elem_of_cons. split; [|intros [?|?]; auto].
    intros [[->|?]|?]; [right|by left|by right]. split; [apply Hl, elem_of_cons; by left|done]. }
  do 2 wp_step. eapply wp_update_task; [done|].
  pose proof (ok_enqueue _ _ _ _ _ Hok HT Hq) as Hok'. rewrite <- Ep in Hok'.
  eapply wp_mono; [apply (IH _ (bt_remove tup_cmp p V)); [exact Hl'|done|done|]|done|].
  - intros y. rewrite (elem_of_bt_remove tup_cmp), HV, elem_of_cons by apply Hok. split.
    + intros [[[->|?]|?] Hne]; [by rewrite (cmp_refl tup_cmp) in Hne|by left|by right].
    + intros Hy. assert ((y = p \/ y ∈ l) \/ y ∈ ps0 /\ tup_task y = t) as Hy' by (destruct Hy; auto).
      assert (y ∈ V) as HyV by (apply HV; by rewrite elem_of_cons). split; [done|].
      intros Heq. assert (p = y) as <- by (eapply (bt_sorted_eq tup_cmp V); [apply Hok|done..]).
      destruct Hy as [Hy|[_ Hy]]; [|done]. apply Hp in Hy. by rewrite (cmp_refl tup_cmp) in Hy.
  - intros _ s' (Hqt & Eps & Equ & HV'). split_and!; [|done| |done].
    + etrans; [|exact Hqt]. split; [|done]. split; try done. simpl. by eapply static_insert.
    + rewrite Equ. simpl. by rewrite <- app_assoc.
Qed.

Lemma wp_run {A} (m : M W A) Q s : wp False m Q s -> exists a s', m s = Ok (a, s') /\ Q a s'.
Proof. unfold wp. destruct (m s) as [[a s']| | |]; try done. eauto. Qed.

Lemma wp_schedule_one_round_robin t s :
  Inv s -> current_ (sch s) = Some t -> front_or_empty t s ->
  wp False (schedule_one_round_robin t) (fun _ s' => exists ps : list PriorityTup, Inv s' /\
    task_priority_set (sch s') = [] /\ current_timeslice_end_ (sch s') = 0 /\
    task_round_robin_queue (sch s')
    = pop_front t (task_round_robin_queue (sch s)) ++ map tup_task ps ++ [t] /\
    bt_sorted tup_cmp ps /\
    (forall p, p ∈ ps -> p ∈ task_priority_set (sch s)) /\
    (forall p, p ∈ task_priority_set (sch s) -> tup_task p <> t -> p ∈ ps) /\
    (forall t', is_Some (tasks s !! t') -> t' ∈ task_round_robin_queue (sch s'))) s.
Proof.
  intros Hi Hc Hf. pose proof (popped_not_queued t s Hi Hf) as Hnq.
  unfold schedule_one_round_robin. wp_step. apply wp_current; [done|]. rewrite Hc. wp_step.
  apply wp_assert; [by apply bool_decide_eq_true|]. wp_step.
  eapply wp_mono; [by apply (wp_maybe_pop False)|done|].
  intros _ s1 (Hi1 & (Hf1 & _) & Eq1 & Hsame). rewrite <- Eq1 in Hnq.
  destruct (inv_current s1 Hi1 t) as [T HT]; [by rewrite (fr_current _ _ Hf1)|].
  pose proof (inv_queues s1 Hi1) as Hok1.
  assert (in_round_robin_queue T = false) as HqT.
  { destruct (in_round_robin_queue T) eqn:E; [|done]. destruct Hnq. apply (ok_queue _ _ _ Hok1). eauto. }
  wp_step. eapply wp_task; [done|]. wp_step. apply wp_assert; [by rewrite HqT|]. do 3 wp_step.
  assert (tup_of t T ∈ task_priority_set (sch s1)) as HtV.
  { apply (ok_set _ _ _ Hok1). exists T. done. }
  eapply wp_mono; [apply (wp_enqueue_others False t (task_priority_set (sch s1))
    (task_priority_set (sch s1)) s1 (task_priority_set (sch s1))); [done|apply Hok1|done|set_solver]|done|].
  intros _ s2 ((Hf2 & _) & Eps & Eq2 & V & HokV & HV). unfold expire_timeslice. do 5 wp_step.
  destruct (static_live _ _ t T (fr_static _ _ Hf2) HT) as (T2 & HT2 & _).
  assert (tup_of t T ∈ V) as HtV2 by by apply HV.
  assert (in_round_robin_queue T2 = false /\ tup_of t T2 = tup_of t T) as [Hq2 Etup].
  { apply (ok_set _ _ _ HokV) in HtV2 as (T3 & HT3 & E3 & Hq3). simpl in *.
    unfold tup_of in *. simplify_eq. split; congruence. }
  eapply wp_update_task; [done|]. wp_step.
  pose proof (ok_enqueue _ _ _ _ _ HokV HT2 Hq2) as Hfin.
  assert (bt_remove tup_cmp (tup_of t T2) V = []) as Enil.
  { destruct (bt_remove _ _ _) as [|y l] eqn:Ey; [done|].
    assert (y ∈ bt_remove tup_cmp (tup_of t T2) V) as
      [HyV Hne]%(elem_of_bt_remove tup_cmp) by (rewrite Ey; set_solver || apply HokV); [|apply HokV].
    destruct Hne. apply (ok_set _ _ _ HokV) in HyV as HyV'. destruct HyV' as (T3 & HT3 & -> & _).
    apply HV in HyV as [_ Hyt]. simpl in *. subst. simplify_eq. apply (cmp_refl tup_cmp). }
  rewrite Enil in Hfin.
  match goal with |- exists _, Inv ?s' /\ _ => assert (frame s s') as Hff end.
  { etrans; [exact Hf1|]. etrans; [exact Hf2|]. split; try done. simpl. by eapply static_insert. }
  assert (forall p, tup_task p <> t -> p ∈ task_priority_set (sch s1) <-> p ∈ task_priority_set (sch s)) as Hps.
  { intros p Hp. by rewrite (ok_set _ _ _ Hok1), (ok_set _ _ _ (inv_queues s Hi)), Hsame. }
  exists (others t (task_priority_set (sch s1))). split_and!.
  - eapply frame_Inv; [exact Hi|exact Hff|]. exact Hfin.
  - done.
  - done.
  - simpl. by rewrite Eq2, Eq1, <- app_assoc.
  - apply bfilter_sorted, Hok1.
  - intros p [Hp Hne%negb_true_iff%bool_decide_eq_false]%elem_of_bfilter. by apply Hps; auto.
  - intros p Hp Hne. apply elem_of_bfilter. split; [by apply Hps|].
    apply negb_true_iff, bool_decide_eq_false. auto.
  - intros t' Ht'. apply (static_is_Some _ _ _ (fr_static _ _ Hff)) in Ht' as [T' HT'].
    eapply all_queued; [exact Hfin|exact HT'].
Qed.

(** [schedule_one_round_robin] moves every task to the round-robin queue:
    after the tasks already waiting there come the tasks of the priority set
    in priority order, and the calling task is last; the priority set is empty
    and the time slice is over. *)
Theorem schedule_one_round_robin_spec t s :
  Inv s -> current_ (sch s) = Some t -> front_or_empty t s ->
  exists s' ps, schedule_one_round_robin t s = Ok (tt, s') /\ Inv s' /\
    task_priority_set (sch s') = [] /\ current_timeslice_end_ (sch s') = 0 /\
    task_round_robin_queue (sch s')
    = pop_front t (task_round_robin_queue (sch s)) ++ map tup_task ps ++ [t] /\
    bt_sorted tup_cmp ps /\
    (forall p, p ∈ ps -> p ∈ task_priority_set (sch s)) /\
    (forall p, p ∈ task_priority_set (sch s) -> tup_task p <> t -> p ∈ ps) /\
    (forall t', is_Some (tasks s !! t') -> t' ∈ task_round_robin_queue (sch s')).
Proof.
  intros Hi Hc Hf. destruct (wp_run _ _ _ (wp_schedule_one_round_robin t s Hi Hc Hf)) as ([] & s' & E & ps & HQ).
  exists s', ps. split; [done|]. exact HQ.
Qed.

End Safety.

End SchedSafety.
