(* ===== verification/SchedulerTheorems.v ===== *)
(** The scheduler's main theorems: the safety of [reschedule], the end of its
    selection loop, the invariant of every reachable state, the reported
    affinity mask, and two inputs on which the code fails. *)

From Stdlib Require Import SpecFloat.
From S2P Require Import Prelude Float64 WaitStatus Scheduler SchedulerInv SchedulerProofs SchedulerSafety.

Module SchedTheorems.
Import Sched SchedInv SchedProofs SchedSafety.

Section Theorems.
Context {W : Type} `{Env W} `{!EnvLaws W}.
Implicit Types (s : St W).

(** ** Rescheduling *)

Lemma frame_unstable s s' t T :
  frame s s' -> tasks s' !! t = Some T ->
  exists T0, tasks s !! t = Some T0 /\ unstable T = unstable T0.
Proof.
  intros Hf HT. destruct (static_live (tasks s') (tasks s) t T) as (T0 & H0 & E);
    [symmetry; apply Hf|done|]. exists T0. split; [done|]. unfold static in E. congruence.
Qed.

(** The unswitchable case. *)
Lemma wp_prevent_switch c s :
  Inv s -> current_ (sch s) = Some c -> must_run_task (sch s) = None -> front_or_empty c s ->
  (forall T, tasks s !! c = Some T -> unstable T = false) ->
  wp True (running ← ask (fun w => is_running w c);
           bw ← (if running : bool then
                   d ← interrupt_after_elapsed_time;
                   _ ← wait c (Some d);
                   mret true
                 else mret false);
           _ ← validate_scheduled_task;
           mret (mkRescheduled false bw false))
    (fun r s' => Inv s' /\ r = mkRescheduled false (is_running (world s) c) false /\ current_ (sch s') = Some c /\
       must_run_task (sch s') = None /\ front_or_empty c s') s.
Proof.
  intros Hi Hc Hm Hf Hu. do 3 wp_step.
  eapply wp_mono with (sp := True) (Q := fun bw s' => Inv s' /\ sch s' = sch s /\ bw = is_running (world s) c); [|done|].
  { destruct (is_running (world s) c); [|by wp_step]. wp_step.
    eapply wp_mono with (sp := True) (Q := fun _ s' => Inv s' /\ sch s' = sch s /\ tasks s' = tasks s);
      [|done|].
    { unfold interrupt_after_elapsed_time, monotonic_now_sec. do 3 wp_step. unfold id.
      wp_if; wp_steps; (split; [by eapply quiet_Inv|done]). }
    intros d s1 (Hi1 & Es1 & Et1). destruct (inv_current s Hi c Hc) as [T HT].
    unfold wait. do 2 wp_step. eapply wp_task; [rewrite Et1; done|]. wp_step.
    apply wp_assert; [by rewrite (Hu T HT)|]. do 2 wp_step. split; [|done]. by eapply (quiet_Inv s1). }
  intros bw s1 (Hi1 & Es & ->). wp_step. unfold front_or_empty in *. rewrite <- Es in Hm, Hf, Hc.
  eapply wp_mono; [apply (wp_validate True c); auto|done|]. intros _ s2 ->. wp_step. done.
Qed.

(** Selections after which [reschedule] waits for a task. *)
Definition waits (sel : Selection) s : Prop :=
  match sel with
  | CarryOn _ => False
  | Candidate (Some t) _ _ => exists T, tasks s !! t = Some T /\ unstable T = true
  | Candidate None _ _ => True
  end.

(** Selecting and switching. *)
Lemma wp_select_and_switch fuel now s :
  Inv s -> interruptible s -> must_run_task (sch s) = None ->
  (forall sel s1, select_loop fuel None false now s = Ok (sel, s1) -> waits sel s1 -> honest_wait fuel s1) ->
  wp True (sel ← select_loop fuel None false now;
           match sel : Selection with
           | CarryOn bw => mret (mkRescheduled false bw false)
           | Candidate (Some nt) bw now =>
               T ← task nt;
               if negb (unstable T) then switch_to nt bw now else wait_for_task fuel bw
           | Candidate None bw now => wait_for_task fuel bw
           end) rescheduled s.
Proof.
  intros Hi Hc Hm Hh. wp_step.
  eapply wp_mono; [apply wp_eq, (wp_select_loop True); [done|done|by left|by left]|done|].
  intros sel s1 ((Hi1 & Hf1 & Hsel) & Es). specialize (Hh sel s1 Es).
  assert (interruptible s1) as Hcn by (unfold interruptible; by rewrite (fr_current _ _ Hf1)).
  destruct sel as [bw|[nt|] bw now1].
  - wp_step. destruct Hsel as (t & Ht & Hp & Hfe). split; [done|]. simpl.
    exists t. split_and!; [done|by apply polled_must_agree|done].
  - destruct Hsel as ([T HT] & Hp & Hfe). wp_step. eapply wp_task; [done|]. wp_if.
    + eapply wp_mono; [apply (wp_switch_to True); eauto using polled_must_agree|done|].
      intros r s2 (Hi2 & -> & Hc2 & Hm2 & Hf2). split; [done|]. simpl. eauto.
    + apply negb_false_iff in Heqb. apply wp_wait_for_task; try done; [|by apply Hh; exists T]. destruct Hp as [[? _]|(_ & _ & Hu)]; [done|].
      rewrite (Hu T HT) in Heqb. done.
  - apply wp_wait_for_task; try done; [apply Hsel|by apply Hh].
Qed.

(** The beginning of [reschedule]; the result is the time. *)
Definition prepare : M W F64.f64 :=
  _ ← mod_sch (set_must_run None);
  _ ← mod_sch (set_enable_poll false);
  now ← monotonic_now_sec;
  _ ← maybe_reset_priorities now;
  mret now.

(** What the caller of [reschedule] provides: a current task, or waits that no signal
    interrupts; a stable current task at the front of the queue, if it may not be switched
    away from; and a kernel that reports only tasks that were blocked or unstable, or exits,
    when [reschedule] waits for one. *)
Definition may_reschedule (fuel : nat) (sw : Switchable) s : Prop :=
  interruptible s /\
  (forall c, sw = PreventSwitch -> current_ (sch s) = Some c ->
    front_or_empty c s /\ forall T, tasks s !! c = Some T -> unstable T = false) /\
  (forall now s1 sel s2, prepare s = Ok (now, s1) -> select_loop fuel None false now s1 = Ok (sel, s2) ->
    waits sel s2 -> honest_wait fuel s2).

(** What it gets. *)
Definition reschedule_post (sw : Switchable) s (r : Rescheduled) s' : Prop :=
  Inv s' /\
  if interrupted_by_signal r
  then must_run_task (sch s') = None /\ task_round_robin_queue (sch s') = []
  else exists t, current_ (sch s') = Some t /\ front_or_empty t s' /\
    match current_ (sch s), sw with
    | Some c, PreventSwitch => t = c /\ must_run_task (sch s') = None /\ started_new_timeslice r = false /\
        forall now s1, prepare s = Ok (now, s1) -> by_waitpid r = is_running (world s1) c
    | _, _ => must_agree t (by_waitpid r) s'
    end.

Lemma wp_reschedule fuel sw s :
  Inv s -> may_reschedule fuel sw s -> wp True (reschedule fuel sw) (reschedule_post sw s) s.
Proof.
  intros Hi (Hint & Hsw & Hk). unfold reschedule. do 4 wp_step. unfold monotonic_now_sec. wp_step. do 3 wp_step.
  wp_step. match goal with |- wp _ (maybe_reset_priorities ?n) _ ?s => set (now := n); set (s1 := s) end.
  assert (Inv s1) as Hi1 by (eapply (quiet_Inv s); done).
  eapply wp_mono; [apply wp_eq, (wp_maybe_reset_priorities True _ s1 Hi1)|done|].
  intros [] s2 ((Hi2 & (Hf2 & Hm2 & _) & Eq2) & Er).
  assert (prepare s = Ok (now, s2)) as Ep.
  { unfold prepare, monotonic_now_sec, mbind, M_bind, mod_sch, env, mret, M_ret. cbn [sch tasks task_map world].
    clear -Er. subst now s1. revert Er. cbn [sch tasks task_map world]. destruct (clock_gettime (world s)) as [ts w]. cbn [fst snd]. by intros ->. }
  specialize (Hk now s2). assert (current_ (sch s2) = current_ (sch s)) as Hc2 by (rewrite (fr_current _ _ Hf2); done).
  assert (interruptible s2) as Hint2 by (unfold interruptible; by rewrite Hc2).
  assert (forall sel, wp True sel rescheduled s2 ->
    (forall c, sw = PreventSwitch -> current_ (sch s) = Some c -> False) ->
    wp True sel (reschedule_post sw s) s2) as Hsel.
  { intros sel Hw Hno. eapply wp_mono; [exact Hw|done|].
    intros r s3 [Hi3 Hr]. split; [done|]. destruct (interrupted_by_signal r); [done|].
    destruct Hr as (t & ? & ? & ?). exists t. split_and!; [done..|].
    destruct (current_ (sch s)) as [c|] eqn:Ec, sw; [by destruct (Hno c)|done..]. }
  wp_step. apply wp_current; [done|]. rewrite Hc2.
  destruct (current_ (sch s)) as [c|] eqn:Ec, sw;
    try (apply Hsel; [apply wp_select_and_switch; try done; intros sel s3; by apply Hk|done]).
  destruct (Hsw c eq_refl eq_refl) as [Hfe Hu].
  eapply wp_mono; [apply wp_prevent_switch; try done|done|].
  - unfold front_or_empty in *. by rewrite Eq2.
  - intros T HT. destruct (frame_unstable _ _ _ _ Hf2 HT) as (T0 & HT0 & ->). by apply Hu.
  - intros r s3 (? & -> & ? & ? & ?). unfold reschedule_post. cbn [interrupted_by_signal by_waitpid started_new_timeslice]. rewrite Ec. split; [done|].
    exists c. split_and!; try done. intros now' s1'. rewrite Ep. by intros [= <- <-].
Qed.

(** C21: [reschedule] never fails one of its assertions, and keeps its promises.
    Unless it was interrupted by a signal, the task it leaves current is at the
    front of the round-robin queue when the queue is not empty; it is the task
    that must run when polling made one, and [by_waitpid] says exactly whether
    that is so.  When the current task may not be switched away from it stays
    current, nothing must run, and [by_waitpid] says whether it was running and
    waited for.  The conditions ([may_reschedule]): the caller has a current
    task, or a wait that no signal interrupts; a current task that may not be
    switched away from is stable and at the front of the queue; and the kernel
    reports only tasks that were blocked or unstable, or exits, and of a thread
    that has got a new id by executing a program the id of its thread group,
    which is what two of the assertions check.  The state keeps the invariant
    [Inv], so priorities are neither [i32::MIN] nor [i32::MAX]. *)
Theorem reschedule_safe fuel sw s :
  Inv s -> may_reschedule fuel sw s ->
  reschedule fuel sw s <> Panic /\
  forall r s', reschedule fuel sw s = Ok (r, s') -> reschedule_post sw s r s'.
Proof.
  intros Hi Hsw. pose proof (wp_reschedule fuel sw s Hi Hsw) as Hwp. unfold wp in Hwp.
  destruct (reschedule fuel sw s) as [[r s']| | |]; [|done..].
  split; [done|]. intros ? ? [= <- <-]. done.
Qed.

(** C24: outside chaos mode the selection loop of [reschedule] ends: more turns
    than the round-robin queue has tasks are enough, and it ends with the
    current task or with a candidate that may be made current. *)
Theorem select_loop_terminates fuel now s :
  Inv s -> must_run_task (sch s) = None -> enable_chaos (sch s) = false ->
  (length (task_round_robin_queue (sch s)) < fuel)%nat ->
  exists sel s', select_loop fuel None false now s = Ok (sel, s') /\ Inv s' /\ selected sel s'.
Proof.
  intros Hi Hm Hc Hf. destruct (wp_run (select_loop fuel None false now) (fun sel s' =>
    Inv s' /\ frame s s' /\ selected sel s') s) as (sel & s' & E & H1 & _ & H2).
  - apply wp_select_loop; [done|done|by left|by right].
  - eauto.
Qed.

(** ** Reachable states *)

(** A task is created: the session puts it in its map first. *)
Definition add_task (t : TaskId) (T : Task) s : St W :=
  mkSt (sch s) (<[t := T]> (tasks s)) (<[tid T := t]> (task_map s)) (world s).

(** The session forgets a task after the scheduler has let go of it. *)
Definition forget (t : TaskId) s : St W :=
  mkSt (sch s) (delete t (tasks s)) (filter (fun kv => kv.2 <> t) (task_map s)) (world s).

Lemma wp_on_create_task t T s :
  Inv s -> tasks s !! t = None -> task_fits t T (tasks s) -> in_round_robin_queue T = false ->
  wp False (on_create_task t) (fun _ s' => Inv s') (add_task t T s).
Proof.
  intros [H1 H2 H3 H4 H5] Hn (Hp & Hs & Hfr) Hq. unfold on_create_task, pset_insert. wp_step.
  eapply wp_task; [apply lookup_insert_eq|]. wp_step. apply wp_assert; [by rewrite Hq|]. do 3 wp_step.
  assert (forall p (w : W), priority_ok (set_priority p T) ->
    Inv (mkSt (set_pset (bt_insert tup_cmp (tup_of t (set_priority p T)) (task_priority_set (sch s))) (sch s))
           (<[t := set_priority p T]> (tasks s)) (<[tid T := t]> (task_map s)) w)) as Hfin.
  { intros p w Hpp. split; simpl; try done.
    - apply ok_add_set; [by rewrite delete_id|done|done].
    - intros t' Ht'. apply lookup_insert_is_Some'. auto.
    - intros n t' [[_ <-]|[_ Hm]]%lookup_insert_Some; apply lookup_insert_is_Some'; eauto. }
  eapply wp_mono with (sp := False) (Q := fun _ s' => exists p w, priority_ok (set_priority p T) /\
    s' = mkSt (sch s) (<[t := set_priority p T]> (tasks s)) (<[tid T := t]> (task_map s)) w); [|done|].
  - wp_if.
    + wp_step. apply wp_choose_random; [apply lookup_insert_is_Some'; auto|]. intros p w Hpp. simpl.
      eapply wp_update_task; [apply lookup_insert_eq|]. simpl. rewrite insert_insert_eq.
      exists p, w. split; [unfold priority_ok; simpl; lia|done].
    + wp_step. exists (priority T), (world s). by destruct T.
  - intros _ s' (p & w & Hpp & ->). wp_step. eapply wp_task; [apply lookup_insert_eq|]. wp_step. by apply Hfin.
Qed.

(** The scheduler and the task it lets go of. *)
Lemma forget_Inv t s :
  Inv s -> current_ (sch s) <> Some t -> forall ps q,
  queues_ok ps q (delete t (tasks s)) -> Inv (forget t (mkSt (set_queue q (set_pset ps (sch s))) (tasks s) (task_map s) (world s))).
Proof.
  intros [H1 H2 H3 H4 H5] Hc ps q Hok. split; simpl; try done.
  - intros t' Ht'. rewrite lookup_delete_ne by congruence. auto.
  - intros n t' [Hm Hne]%map_lookup_filter_Some. simpl in Hne.
    rewrite lookup_delete_ne by congruence. eauto.
Qed.

Lemma wp_on_destroy_task t n s :
  Inv s -> is_Some (tasks s !! t) ->
  wp False (on_destroy_task t n) (fun _ s' => Inv (forget t s')) s.
Proof.
  intros Hi [T HT]. unfold on_destroy_task, pset_remove. do 3 wp_step.
  eapply wp_mono with (sp := False) (Q := fun _ s' => Inv s' /\ current_ (sch s') <> Some t /\
    tasks s' = tasks s); [|done|].
  { destruct (decide (current_ (sch s) = Some t)) as [E|E]; wp_step; [|done].
    split_and!; [|done|done]. destruct Hi as [H1 H2 H3 H4 H5]. by split. }
  intros _ s1 (Hi1 & Hc1 & Et).
  wp_step. eapply wp_task; [by rewrite Et|]. do 3 wp_step.
  eapply wp_mono with (sp := False) (Q := fun _ s' => Inv s' /\ current_ (sch s') <> Some t /\
    tasks s' = tasks s); [|done|].
  { wp_if; wp_step; [|done]. split_and!; [|done|done]. destruct Hi1 as [H1 H2 H3 H4 H5]. by split. }
  intros _ s2 (Hi2 & Hc2 & Et2). pose proof (inv_queues s2 Hi2) as Hok.
  rewrite <- Et2 in HT. wp_if; wp_step.
  - by apply (forget_Inv t s2 Hi2 Hc2 (task_priority_set (sch s2))); apply (ok_remove_queue _ _ _ _ T).
  - by apply (forget_Inv t s2 Hi2 Hc2 _ (task_round_robin_queue (sch s2))); apply ok_remove_set.
Qed.

(** Exit of a task: [prepare_exit] marks it before telling the scheduler. *)
Definition set_stable_exit (T : Task) : Task :=
  mkTask (tid T) (tgid T) (stable_serial T) (priority T) (in_round_robin_queue T) (unstable T) true.

(** The calls the session makes and the changes the tracees make in between.  Chaos mode is
    not turned off again, and the time slices are not empty. *)
Inductive sched_step : St W -> St W -> Prop :=
| step_create t T s s' :
    tasks s !! t = None -> task_fits t T (tasks s) -> in_round_robin_queue T = false ->
    on_create_task t (add_task t T s) = Ok (tt, s') -> sched_step s s'
| step_destroy t n s s' :
    is_Some (tasks s !! t) -> on_destroy_task t n s = Ok (tt, s') -> sched_step s (forget t s')
| step_set_priority t v s s' :
    is_Some (tasks s !! t) -> -2147483648 < v < 2147483647 ->
    update_task_priority t v s = Ok (tt, s') -> sched_step s s'
| step_stable_exit t s s' :
    is_Some (tasks s !! t) ->
    (_ ← update_task t set_stable_exit; in_stable_exit t) s = Ok (tt, s') -> sched_step s s'
| step_destabilize t s s' :
    is_Some (tasks s !! t) -> update_task t (set_unstable true) s = Ok (tt, s') -> sched_step s s'
| step_yield t s s' :
    current_ (sch s) = Some t -> front_or_empty t s ->
    schedule_one_round_robin t s = Ok (tt, s') -> sched_step s s'
| step_enter_execve t s s' : did_enter_execve t s = Ok (tt, s') -> sched_step s s'
| step_exit_execve t s s' : did_exit_execve t s = Ok (tt, s') -> sched_step s s'
| step_set_current t s s' :
    is_Some (tasks s !! t) -> set_current (Some t) s = Ok (tt, s') -> sched_step s s'
| step_expire s s' : expire_timeslice s = Ok (tt, s') -> sched_step s s'
| step_reschedule fuel sw r s s' :
    may_reschedule fuel sw s -> reschedule fuel sw s = Ok (r, s') -> sched_step s s'
| step_set_max_ticks n s s' : 0 < n -> set_max_ticks n s = Ok (tt, s') -> sched_step s s'
| step_set_always_switch b s s' : set_always_switch b s = Ok (tt, s') -> sched_step s s'
| step_set_enable_chaos b s s' :
    b = true \/ enable_chaos (sch s) = false -> set_enable_chaos b s = Ok (tt, s') -> sched_step s s'
| step_set_num_cores n s s' : set_num_cores n s = Ok (tt, s') -> sched_step s s'
| step_tracees w s : sched_step s (mkSt (sch s) (tasks s) (task_map s) w).

Lemma wp_elim {A} sp (m : M W A) Q s a s' : wp sp m Q s -> m s = Ok (a, s') -> Q a s'.
Proof. unfold wp. intros Hw E. by rewrite E in Hw. Qed.

(** Updates of single fields of the scheduler. *)
Lemma wp_mod_sch_Inv (f : Scheduler -> Scheduler) s :
  Inv s -> (forall x, task_priority_set (f x) = task_priority_set x /\
    task_round_robin_queue (f x) = task_round_robin_queue x /\ max_ticks_ (f x) = max_ticks_ x /\
    enable_chaos (f x) = enable_chaos x /\ hpo_period (f x) = hpo_period x) ->
  (forall t, current_ (f (sch s)) = Some t -> is_Some (tasks s !! t)) ->
  wp False (mod_sch f) (fun _ s' => Inv s') s.
Proof.
  intros [H1 H2 H3 H4 H5] Hf Hc. destruct (Hf (sch s)) as (E1 & E2 & E3 & E4 & E5). wp_step.
  split; simpl; rewrite ?E1, ?E2, ?E3, ?E4, ?E5; done.
Qed.

Lemma wp_stable_exit t s :
  Inv s -> is_Some (tasks s !! t) ->
  wp False (_ ← update_task t set_stable_exit; in_stable_exit t) (fun _ s' => Inv s') s.
Proof.
  intros Hi Hl. wp_step. eapply wp_mono; [by apply (wp_change_task False)|done|].
  intros _ s1 ((Hi1 & _) & _ & Hl1). unfold in_stable_exit. destruct (Hl1 t Hl) as [T HT]. wp_step.
  eapply wp_task; [done|]. eapply wp_mono; [apply wp_update_priority; eauto|done|].
  - by apply (ok_prio _ _ _ (inv_queues s1 Hi1) t T).
  - by intros _ s2 (? & _).
Qed.

Lemma execve_Inv t s s' :
  Inv s -> did_enter_execve t s = Ok (tt, s') \/ did_exit_execve t s = Ok (tt, s') -> Inv s'.
Proof.
  intros [H1 H2 H3 H4 H5]. unfold did_enter_execve, did_exit_execve, mbind, M_bind, gets, assert, task, mod_sch.
  intros [E|E]; repeat case_match; simplify_eq; by split.
Qed.

Lemma settings_Inv n s s' : Inv s -> 0 < n -> set_max_ticks n s = Ok (tt, s') -> Inv s'.
Proof.
  intros [H1 H2 H3 H4 H5] Hn. unfold set_max_ticks, assert, mbind, M_bind. destruct (Z.leb_spec n MaxMaxTicks); [|done].
  intros [= <-]. by split.
Qed.

Lemma sched_step_Inv s s' : Inv s -> sched_step s s' -> Inv s'.
Proof.
  intros Hi Hs. revert Hi.
  destruct Hs as [t T s1 s2 Hn Hfit Hq E|t n s1 s2 Hl E|t v s1 s2 Hl Hv E|t s1 s2 Hl E|t s1 s2 Hl E
            |t s1 s2 Hc Hf E|t s1 s2 E|t s1 s2 E|t s1 s2 Hl E|s1 s2 E|fuel sw r s1 s2 Hm E|n s1 s2 Hn E|b s1 s2 E|b s1 s2 Hb E|n s1 s2 E|w s1];
    intros Hi.
  - exact (wp_elim _ _ _ _ _ _ (wp_on_create_task t T s1 Hi Hn Hfit Hq) E).
  - exact (wp_elim _ _ _ _ _ _ (wp_on_destroy_task t n s1 Hi Hl) E).
  - unfold update_task_priority in E. unfold mbind, M_bind, gets in E.
    destruct (negb _); [|by injection E as <-].
    apply (wp_elim _ _ _ _ _ _ (wp_update_priority False t v s1 Hi Hl Hv) E).
  - exact (wp_elim _ _ _ _ _ _ (wp_stable_exit t s1 Hi Hl) E).
  - apply (wp_elim False _ _ _ _ _ (wp_change_task False t (set_unstable true) s1 Hi Hl ltac:(done)) E).
  - destruct (wp_elim _ _ _ _ _ _ (wp_schedule_one_round_robin t s1 Hi Hc Hf) E) as (ps & ? & _). done.
  - by eapply execve_Inv; [|left].
  - by eapply execve_Inv; [|right].
  - apply (wp_elim _ _ _ _ _ _ (wp_mod_sch_Inv (set_current_ (Some t)) s1 Hi ltac:(done)
      ltac:(by intros ? [= <-])) E).
  - apply (wp_elim _ _ _ _ _ _ (wp_mod_sch_Inv (set_timeslice_end 0) s1 Hi ltac:(done) (inv_current s1 Hi)) E).
  - apply (wp_elim _ _ _ _ _ _ (wp_reschedule fuel sw s1 Hi Hm) E).
  - by apply (settings_Inv n s1).
  - injection E as <-. by destruct Hi.
  - injection E as <-. destruct Hi as [H1 H2 H3 H4 H5]. split; try done. cbn. intros ->. apply H5. by destruct Hb.
  - injection E as <-. by destruct Hi.
  - by eapply (quiet_Inv s1).
Qed.

Lemma rtc_Inv s s' : rtc sched_step s s' -> Inv s -> Inv s'.
Proof. induction 1; eauto using sched_step_Inv. Qed.

(** The state of a new session. *)
Definition initial (max_ticks : Z) (always : bool) (w : W) : St W :=
  mkSt (new max_ticks always) ∅ ∅ w.

Lemma initial_Inv max_ticks always w :
  0 < max_ticks <= 1000000000 -> Inv (initial max_ticks always w).
Proof.
  intros Hm. split; simpl; try done. split; simpl; try done.
  - constructor.
  - constructor.
  - intros p. split; [set_solver|]. intros (T & HT & _). by rewrite lookup_empty in HT.
  - intros t. split; [set_solver|]. intros (T & HT & _). by rewrite lookup_empty in HT.
Qed.

(** C22: in every state that calls of the scheduler's operations lead to from a
    new session, each live task is in the priority set under its current
    priority when it is not marked as queued, and in the round-robin queue,
    once, when it is; the set is in priority order, and the two collections
    hold nothing but live tasks.  The calls are those of [sched_step], also in
    chaos mode: creating, destroying and exiting tasks, priorities, yielding,
    [execve], [reschedule] as its callers may use it ([may_reschedule]) and the
    settings.  Priorities are strictly between [i32::MIN] and [i32::MAX] (a
    tracee can ask for the latter, and the search for a task then panics), time
    slices are positive, and chaos mode is not turned off again. *)
Theorem reachable_queues max_ticks always w s :
  0 < max_ticks <= 1000000000 -> rtc sched_step (initial max_ticks always w) s ->
  bt_sorted tup_cmp (task_priority_set (sch s)) /\ NoDup (task_round_robin_queue (sch s)) /\
  (forall p, p ∈ task_priority_set (sch s) <-> exists T, tasks s !! tup_task p = Some T /\
     p = tup_of (tup_task p) T /\ in_round_robin_queue T = false) /\
  (forall t, t ∈ task_round_robin_queue (sch s) <->
     exists T, tasks s !! t = Some T /\ in_round_robin_queue T = true) /\
  (forall t, current_ (sch s) = Some t -> is_Some (tasks s !! t)).
Proof.
  intros Hm Hr. assert (Inv s) as Hi.
  { eapply rtc_Inv; [exact Hr|]. by apply initial_Inv. }
  destruct (inv_queues s Hi). split_and!; try done. apply Hi.
Qed.

(** ** Inputs the code does not handle *)

(** A task whose priority is [i32::MAX] makes the search for a runnable task
    panic when it is its turn: the search computes [priority + 1].  The value
    comes unchecked from the tracee's setpriority system call. *)
Theorem find_next_panics_at_max_priority mt p ps s :
  task_priority_set (sch s) = p :: ps -> tup_priority p = 2147483647 ->
  find_next_runnable_task mt 2147483647 s = Panic.
Proof.
  intros Ep Hp. unfold find_next_runnable_task.
  unfold mbind, M_bind, gets. rewrite Ep. cbn [find_loop length]. rewrite Hp. done.
Qed.

Lemma bind_panic {A B} (m : M W A) (f : A -> M W B) s : m s = Panic -> (m ≫= f) s = Panic.
Proof. unfold mbind, M_bind. by intros ->. Qed.

Lemma poll_off n s : enable_poll (sch s) = false -> poll_timer n s = Ok (tt, s).
Proof. intros Ep. unfold poll_timer, mbind, M_bind, gets. by rewrite Ep. Qed.

(** The wait for a task panics when a signal interrupts it and there is no
    current task: the code unwraps the current task for an assertion. *)
Theorem interrupted_without_current_panics fuel bw s :
  task_round_robin_queue (sch s) = [] -> current_ (sch s) = None -> enable_poll (sch s) = false ->
  (waitpid (world s)).1 = WaitFailed EINTR -> wait_for_task (S fuel) bw s = Panic.
Proof.
  intros Eq Ec Ep Ew. unfold wait_for_task. rewrite (run_bind _ _ s [] s) by (unfold gets; by rewrite Eq).
  rewrite (run_bind _ _ s tt s).
  2:{ cbn [clear_queue length]. unfold get_round_robin_task, mbind, M_bind, gets. by rewrite Eq. }
  apply bind_panic. cbn [wait_loop]. destruct (waitpid (world s)) as [r w] eqn:Er. simpl in Ew. subst r.
  rewrite (run_bind timed_waitpid _ s (WaitFailed EINTR) (mkSt (sch s) (tasks s) (task_map s) w)).
  2:{ unfold timed_waitpid. rewrite (run_bind _ _ s tt s) by by apply poll_off.
      erewrite run_bind by (unfold env; rewrite Er; reflexivity). by erewrite run_bind by by apply poll_off. }
  rewrite Z.eqb_refl.
  unfold current, mbind, M_bind, gets. cbn [sch]. by rewrite Ec.
Qed.

End Theorems.

(** ** The affinity mask *)

Lemma cpu_set_all_ok mask cpus :
  (forall c, c ∈ cpus -> c < CPU_SETSIZE) -> cpu_set_all mask cpus = Ok (mask ∪ list_to_set cpus).
Proof.
  revert mask. induction cpus as [|c cpus IH]; intros mask Hc; simpl.
  - f_equal. set_solver.
  - unfold cpu_set. destruct (Z.ltb_spec c CPU_SETSIZE) as [_|Hge]; simpl.
    + rewrite IH by set_solver. f_equal. set_solver.
    + specialize (Hc c ltac:(set_solver)). lia.
Qed.

Lemma other_cpus_length cpu n :
  0 <= n -> Z.of_nat (length (List.filter (fun i => negb (i =? cpu)) (seqZ 0 n))) >= n - 1.
Proof.
  intros Hn. pose proof (NoDup_seqZ 0 n) as Hnd. rewrite <- (Z2Nat.id n) at 2 by done.
  rewrite <- (length_seqZ 0 n). induction Hnd as [|x l Hx Hnd IH]; simpl; [lia|].
  destruct (Z.eqb_spec x cpu) as [->|]; simpl; [|lia].
  rewrite (bfilter_ext _ (fun _ => true)).
  - assert (List.filter (fun _ : Z => true) l = l) as -> by (clear; induction l; simpl; congruence). lia.
  - intros y Hy. apply negb_true_iff, Z.eqb_neq. intros ->. done.
Qed.

(** When the tracees are bound to a CPU they may run on, the mask reported
    to them contains that CPU and has exactly as many CPUs as rd pretends to
    have, for up to 1024 of them. *)
Theorem affinity_mask_spec a cpu np cores shuffle :
  cpu ∈ a -> 0 <= cpu < CPU_SETSIZE -> 0 <= np <= CPU_SETSIZE -> 1 <= cores <= CPU_SETSIZE ->
  (forall l, shuffle l ≡ₚ l) ->
  exists m, regenerate_affinity_mask (Some a) (Some cpu) np cores shuffle = Ok m /\
    cpu ∈ m /\ Z.of_nat (size m) = cores.
Proof.
  intros Ha Hcpu Hnp Hcores Hsh. unfold regenerate_affinity_mask. simpl.
  rewrite bool_decide_true by done. destruct (Z.ltb_spec cpu CPU_SETSIZE); [|lia]. simpl.
  destruct (Z.ltb_spec np 0); [lia|]. simpl. unfold cpu_set.
  destruct (Z.ltb_spec cpu CPU_SETSIZE); [|lia]. simpl.
  destruct (Z.ltb_spec 1 cores) as [Hc1|Hc1].
  2:{ eexists. split; [done|]. split; [set_solver|]. rewrite union_empty_l_L, size_singleton. lia. }
  set (faked := if np <? cores then cores else np).
  assert (cores <= faked <= CPU_SETSIZE) as Hf by (unfold faked; destruct (Z.ltb_spec np cores); lia).
  set (o := List.filter _ (seqZ 0 faked)).
  pose proof (other_cpus_length cpu faked ltac:(lia)) as Hlen. fold o in Hlen.
  assert (forall c, c ∈ shuffle o -> c < CPU_SETSIZE /\ c <> cpu) as Ho.
  { intros c. rewrite Hsh. intros [Hc Hne%negb_true_iff%Z.eqb_neq]%elem_of_bfilter.
    apply elem_of_seqZ in Hc. lia. }
  assert (NoDup (shuffle o)) as Hnd.
  { rewrite Hsh. apply NoDup_ListNoDup, List.NoDup_filter, NoDup_ListNoDup, NoDup_seqZ. }
  unfold take_checked. rewrite (Permutation_length (Hsh o)).
  destruct (Nat.leb_spec (Z.to_nat (cores - 1)) (length o)); [|lia]. simpl.
  assert (forall c, c ∈ take (Z.to_nat (cores - 1)) (shuffle o) -> c ∈ shuffle o) as Htake
    by (intros c (i & Hi & _)%elem_of_take; by eapply list_elem_of_lookup_2).
  rewrite cpu_set_all_ok by (intros c Hc%Htake; by apply Ho). eexists. split; [done|].
  split; [set_solver|]. rewrite union_empty_l_L, size_union, size_singleton, size_list_to_set.
  - rewrite length_take_le; [lia|]. rewrite (Permutation_length (Hsh o)). lia.
  - eapply sublist_NoDup; [done|apply sublist_take].
  - intros x Hx%elem_of_singleton Hx2%elem_of_list_to_set%Htake. subst. by apply Ho in Hx2 as [_ ?].
Qed.

End SchedTheorems.
