(* ===== verification/SchedulerExamples.v ===== *)
(** A scripted environment for the scheduler, and instances of its theorems on
    a session of three tasks. *)

From Stdlib Require Import SpecFloat.
From S2P Require Import Prelude Float64 WaitStatus Scheduler SchedulerInv SchedulerProofs.
From S2P Require Import SchedulerSafety SchedulerTheorems.

Module SchedExamples.
Import Sched SchedInv SchedProofs SchedSafety SchedTheorems.

(** ** A small environment

    A scripted kernel, to evaluate the model: [events] are the results of the
    coming waits, [blocked] the tasks that sit in a system call. *)

Module Toy.

Record World := mkWorld { events : list WaitResult; blocked : list TaskId }.

#[global] Instance toy_env : Env World := {
  clock_gettime w := ((1, 0), w);
  nanosleep w _ _ := w;
  waitpid w := match events w with
               | [] => (WaitFailed EINTR, w)
               | e :: es => (e, mkWorld es (blocked w))
               end;
  setitimer w _ := (0, w);
  ptrace_geteventmsg w _ := (None, w);
  random_u16 w := (0, w);
  random_u32 w := (0, w);
  random_u64 w := (12345, w);
  shuffle w l := (l, w);
  tick_count _ _ := 0;
  is_running w t := bool_decide (t ∈ blocked w);
  is_dying _ _ := false;
  processing_syscall w t := if bool_decide (t ∈ blocked w) then Some 0 else None;
  emulated_stopped _ _ := false;
  sigcont_pending _ _ := false;
  is_sched_yield_syscall _ _ _ := false;
  is_exit_syscall _ _ _ := false;
  is_exit_group_syscall _ _ _ := false;
  emulate_sigcont w _ := w;
  resume_execution w _ := w;
  try_wait w _ := (false, w);
  wait_blocking w _ _ := w;
  did_waitpid w t _ := mkWorld (events w) (List.filter (fun x => negb (bool_decide (x = t))) (blocked w))
}.

#[global] Instance toy_laws : EnvLaws World.
Proof. split; [intros; simpl; lia|done]. Qed.

Definition plain_task (n prio : Z) : Task := mkTask n n n prio false false false.

Definition start : St World := initial 500000 false (mkWorld [Waited 3 4991] [2%positive; 3%positive]).

Definition ok_state {A} (r : res (A * St World)) (d : St World) : St World :=
  match r with Ok (_, s) => s | _ => d end.

Definition created (t : TaskId) (n prio : Z) (s : St World) : St World :=
  ok_state (on_create_task t (add_task t (plain_task n prio) s)) s.

(** Three tasks: 1 is runnable, 2 and 3 are blocked; 3 has lower priority. *)
Definition one : St World := created 1 1 0 start.
Definition two : St World := created 2 2 0 one.
Definition three : St World := created 3 3 5 two.
Definition running : St World := ok_state (set_current (Some 1%positive) three) three.

Ltac fits :=
  split; [unfold priority_ok; simpl; lia|]; split; [simpl; lia|];
  intros t' T' Hne HT'; vm_compute in HT';
  repeat (destruct t' as [t'|t'|]; try discriminate HT'); injection HT' as <-; simpl; lia.

Lemma start_one : sched_step start one.
Proof. apply (step_create 1 (plain_task 1 0)); [reflexivity|fits|reflexivity|vm_compute; reflexivity]. Qed.
Lemma one_two : sched_step one two.
Proof. apply (step_create 2 (plain_task 2 0)); [reflexivity|fits|reflexivity|vm_compute; reflexivity]. Qed.
Lemma two_three : sched_step two three.
Proof. apply (step_create 3 (plain_task 3 5)); [reflexivity|fits|reflexivity|vm_compute; reflexivity]. Qed.
Lemma three_running : sched_step three running.
Proof. apply (step_set_current 1); [vm_compute; eauto|vm_compute; reflexivity]. Qed.

Lemma running_reachable : rtc sched_step start running.
Proof.
  eapply rtc_l; [apply start_one|]. eapply rtc_l; [apply one_two|].
  eapply rtc_l; [apply two_three|]. apply rtc_once, three_running.
Qed.

Lemma running_Inv : Inv running.
Proof. eapply rtc_Inv; [apply running_reachable|]. apply initial_Inv. lia. Qed.

(** *** Instances of the theorems *)

Lemma one_live : forall t, Some 1%positive = Some t -> is_Some (tasks running !! t).
Proof. intros t [= <-]. vm_compute. eauto. Qed.

Lemma find_next_order_witness :
  exists L, L ≡ₚ List.filter (fun p => tup_priority p <=? 2147483647) (task_priority_set (sch running)) /\
    StronglySorted (search_before (turn_of (Some 1%positive) running)) L /\
    find_next_runnable_task (Some 1%positive) 2147483647 running = first_runnable L false running.
Proof.
  exact (find_next_runnable_task_order (Some 1%positive) 2147483647 running running_Inv eq_refl one_live).
Defined.

Lemma schedule_one_round_robin_witness :
  exists s' ps, schedule_one_round_robin 1 running = Ok (tt, s') /\
    task_round_robin_queue (sch s') = [] ++ map tup_task ps ++ [1%positive].
Proof.
  destruct (schedule_one_round_robin_spec 1 running running_Inv eq_refl (or_introl eq_refl))
    as (s' & ps & E & _ & _ & _ & Hq & _).
  exists s', ps. split; [exact E|exact Hq].
Defined.

(** All tasks block; the kernel then reports task 3. *)
Definition stuck : St World := mkSt (sch running) (tasks running) (task_map running) (mkWorld [Waited 3 4991] [1%positive; 2%positive; 3%positive]).

Lemma stuck_Inv : Inv stuck.
Proof. by eapply sched_step_Inv; [apply running_Inv|apply step_tracees]. Qed.

Lemma stuck_may_reschedule : may_reschedule 10 AllowSwitch stuck.
Proof.
  split; [by left|]. split; [done|]. intros now s1 sel s2 Ep Es _ s3 Ec.
  assert ((now ← prepare; select_loop 10 None false now) stuck = Ok (sel, s2)) as E by (unfold mbind, M_bind; by rewrite Ep).
  vm_compute in E. injection E as <- <-. vm_compute in Ec. injection Ec as <-. intros n raw s4 Et. vm_compute in Et. injection Et as <- <- <-.
  split; [by intros He; vm_compute in He|]. intros o s5 Ew. vm_compute in Ew. injection Ew as <- <-.
  split; [intros T HT; vm_compute in HT; injection HT as <-; by vm_compute|]. intros n raw s6 Et. by vm_compute in Et.
Qed.

Lemma reschedule_safe_witness :
  reschedule 10 AllowSwitch stuck <> Panic /\
  exists r s', reschedule 10 AllowSwitch stuck = Ok (r, s') /\ current_ (sch s') = Some 3%positive /\ by_waitpid r = true /\
    reschedule_post AllowSwitch stuck r s'.
Proof.
  destruct (reschedule_safe 10 AllowSwitch stuck stuck_Inv stuck_may_reschedule) as [Hp Hok].
  split; [exact Hp|]. eexists _, _. split; [vm_compute; reflexivity|]. split; [reflexivity|]. split; [reflexivity|]. apply Hok. vm_compute. reflexivity.
Defined.

Lemma select_loop_terminates_witness :
  exists sel s', select_loop 1 None false F64.zero running = Ok (sel, s') /\ Inv s' /\ selected sel s'.
Proof.
  apply (select_loop_terminates 1 F64.zero running running_Inv eq_refl eq_refl). vm_compute. constructor.
Defined.

Lemma reachable_queues_witness :
  rtc sched_step start running /\ NoDup (task_round_robin_queue (sch running)).
Proof.
  split; [exact running_reachable|].
  apply (reachable_queues 500000 false (world start) running ltac:(lia) running_reachable).
Defined.

Lemma max_priority_witness :
  exists s : St World, find_next_runnable_task None 2147483647 s = Panic.
Proof.
  exists (ok_state (update_task_priority 1 2147483647 one) one).
  apply (find_next_panics_at_max_priority None (mkTup 2147483647 1 1) []); vm_compute; reflexivity.
Defined.

Lemma interrupted_without_current_witness :
  wait_for_task 1 false (initial 500000 false (mkWorld [] [])) = Panic.
Proof.
  apply (interrupted_without_current_panics 0 false (initial 500000 false (mkWorld [] []))); reflexivity.
Defined.

Lemma affinity_mask_witness :
  exists m, regenerate_affinity_mask (Some {[0; 1]}) (Some 1) 2 4 id = Ok m /\
    1 ∈ m /\ Z.of_nat (size m) = 4.
Proof.
  apply (affinity_mask_spec {[0; 1]} 1 2 4 id); try (unfold CPU_SETSIZE; lia); [set_solver|done].
Defined.

End Toy.

End SchedExamples.
