(* ===== verification/MemoryRange.v ===== *)
(** Addresses and ranges of tracee memory: [src/src/remote_ptr.rs], the page
    functions of [src/src/util.rs], [src/src/session/address_space/memory_range.rs]
    and the DONTFORK range set of [src/src/session/address_space.rs]. *)

From S2P Require Import Prelude.

Module Range.

(** ** Remote pointers

    A [RemotePtr<u8>] is an unsigned 64-bit number; its arithmetic wraps. *)

Definition ptr_add (p n : Z) : Z := wrap 64 (p + n).
Definition ptr_sub (p n : Z) : Z := wrap 64 (p - n).
Definition ptr_diff (p q : Z) : Z := wrap 64 (p - q).

Lemma ptr_add_small p n : 0 <= p -> 0 <= n -> p + n < USIZE -> ptr_add p n = p + n.
Proof. intros. apply wrap_small. lia. Qed.

Lemma ptr_diff_small p q : 0 <= q <= p -> p < USIZE -> ptr_diff p q = p - q.
Proof. intros. apply wrap_small. lia. Qed.

(** ** Pages

    The page size is asked of the system once; it is a power of two. *)

Class PageSize := {
  page_shift : Z;
  page_shift_range : 1 <= page_shift <= 32
}.

Section Pages.
Context `{PageSize}.

Definition page_size : Z := 2 ^ page_shift.

(** [(size + page_size() - 1) & !(page_size() - 1)]; the sum is checked. *)
Definition ceil_page_size (size : Z) : res Z :=
  s ← checked_add size page_size;
  Ok (Z.land (s - 1) (Z.lnot (page_size - 1))).

Definition floor_page_size (sz : Z) : Z := Z.land sz (Z.lnot (page_size - 1)).

Lemma page_size_pos : 0 < page_size.
Proof. unfold page_size. pose proof page_shift_range. lia. Qed.

Lemma page_size_divides : (page_size | USIZE).
Proof.
  unfold page_size. pose proof page_shift_range. exists (2 ^ (64 - page_shift)).
  rewrite <- Z.pow_add_r by lia. by replace (64 - page_shift + page_shift) with 64 by lia.
Qed.

Lemma floor_page_mod z : floor_page_size z = z - z mod page_size.
Proof.
  unfold floor_page_size, page_size. pose proof page_shift_range.
  rewrite Z.sub_1_r, <- Z.ones_equiv, <- Z.ldiff_land, Z.ldiff_ones_r, Z.shiftl_mul_pow2,
    Z.shiftr_div_pow2 by lia.
  assert (2 ^ page_shift <> 0) as Hnz by lia.
  pose proof (Z.div_mod z (2 ^ page_shift) Hnz). lia.
Qed.

Lemma ceil_page_Ok z c : ceil_page_size z = Ok c -> c = floor_page_size (z + page_size - 1).
Proof.
  unfold ceil_page_size, checked_add. intros Hc. res_inv.
  destruct (_ <? _) eqn:E; [|done]. res_inv. by subst.
Qed.

Definition aligned (z : Z) : Prop := (page_size | z).

Lemma floor_page_spec z : aligned (floor_page_size z) /\ floor_page_size z <= z < floor_page_size z + page_size.
Proof.
  rewrite floor_page_mod. pose proof page_size_pos.
  pose proof (Z.mod_pos_bound z page_size ltac:(lia)). split; [|lia].
  exists (z / page_size). pose proof (Z.div_mod z page_size ltac:(lia)). lia.
Qed.

Lemma floor_page_aligned z : aligned z -> floor_page_size z = z.
Proof.
  intros Ha. rewrite floor_page_mod. pose proof page_size_pos.
  apply Z.mod_divide in Ha; lia.
Qed.

(** [ceil_page_size] is the least multiple of the page size above its argument. *)
Lemma ceil_page_spec z c :
  ceil_page_size z = Ok c -> aligned c /\ z <= c < z + page_size.
Proof.
  intros ->%ceil_page_Ok. pose proof page_size_pos.
  destruct (floor_page_spec (z + page_size - 1)) as [Ha Hr]. split; [done|]. lia.
Qed.

Lemma ceil_page_aligned z : aligned z -> z + page_size < USIZE -> ceil_page_size z = Ok z.
Proof.
  intros Ha Hz. pose proof page_size_pos. unfold ceil_page_size, checked_add.
  destruct (Z.ltb_spec (z + page_size) USIZE); [|lia]. simpl.
  f_equal. fold (floor_page_size (z + page_size - 1)). destruct Ha as [k ->].
  rewrite floor_page_mod. replace (k * page_size + page_size - 1) with (page_size - 1 + k * page_size) by lia.
  rewrite Z.mod_add, Z.mod_small by lia. lia.
Qed.

Lemma aligned_add x y : aligned x -> aligned y -> aligned (x + y).
Proof. apply Z.divide_add_r. Qed.
Lemma aligned_sub x y : aligned x -> aligned y -> aligned (x - y).
Proof. apply Z.divide_sub_r. Qed.
End Pages.

(** The x86 page size, for examples. *)
#[export, refine] Instance x86_pages : PageSize := { page_shift := 12 }.
Proof. lia. Defined.

(** ** Memory ranges *)

Record MemoryRange := mkRange { start_ : Z; end_ : Z }.

#[global] Instance MemoryRange_eq_dec : EqDecision MemoryRange.
Proof. solve_decision. Defined.

Definition new_range (addr num_bytes : Z) : MemoryRange := mkRange addr (ptr_add addr num_bytes).

Definition from_range (addr end_ : Z) : res MemoryRange :=
  _ ← assert_ (addr <=? end_); Ok (mkRange addr end_).

Definition contains (r other : MemoryRange) : bool :=
  (start_ r <=? start_ other) && (end_ other <=? end_ r).

Definition contains_ptr (r : MemoryRange) (p : Z) : bool := (start_ r <=? p) && (p <? end_ r).

Definition intersect (r other : MemoryRange) : MemoryRange :=
  let s := Z.max (start_ r) (start_ other) in
  let e := Z.min (end_ r) (end_ other) in
  mkRange s (Z.max s e).

Definition intersects (r other : MemoryRange) : bool :=
  Z.max (start_ r) (start_ other) <? Z.min (end_ r) (end_ other).

Definition size (r : MemoryRange) : Z := ptr_diff (end_ r) (start_ r).

(** The order of [MemoryRangeKey]: ranges that overlap compare equal. *)
Definition key_cmp (a b : MemoryRange) : comparison :=
  if negb (intersects a b) then start_ a ?= start_ b else Eq.

(** The derived, lexicographic order of [MemoryRange]. *)
Definition range_cmp (a b : MemoryRange) : comparison :=
  match start_ a ?= start_ b with Eq => end_ a ?= end_ b | c => c end.

(** ** Lemmas *)

Lemma contains_ptr_true r p : contains_ptr r p = true <-> start_ r <= p < end_ r.
Proof. unfold contains_ptr. rewrite andb_true_iff, Z.leb_le, Z.ltb_lt. done. Qed.

Lemma contains_ptr_false r p : contains_ptr r p = false <-> p < start_ r \/ end_ r <= p.
Proof. unfold contains_ptr. rewrite andb_false_iff, Z.leb_gt, Z.ltb_ge. done. Qed.

Lemma intersects_spec a b :
  intersects a b = true <-> exists p, contains_ptr a p = true /\ contains_ptr b p = true.
Proof.
  unfold intersects. rewrite Z.ltb_lt. split.
  - intros Hlt. exists (Z.max (start_ a) (start_ b)). rewrite !contains_ptr_true. lia.
  - intros (p & Ha%contains_ptr_true & Hb%contains_ptr_true). lia.
Qed.

(** [before a b]: [a] ends where [b] starts, or earlier. *)
Definition before (a b : MemoryRange) : Prop := end_ a <= start_ b.
Definition nonempty (r : MemoryRange) : Prop := start_ r < end_ r.

Lemma key_cmp_lt a b :
  nonempty a -> nonempty b -> key_cmp a b = Lt <-> before a b.
Proof.
  unfold nonempty, before, key_cmp, intersects. intros Ha Hb.
  destruct (Z.ltb_spec (Z.max (start_ a) (start_ b)) (Z.min (end_ a) (end_ b))); simpl.
  - split; [done|lia].
  - rewrite Z.compare_lt_iff. lia.
Qed.

Lemma key_cmp_gt a b :
  nonempty a -> nonempty b -> key_cmp a b = Gt <-> before b a.
Proof.
  unfold nonempty, before, key_cmp, intersects. intros Ha Hb.
  destruct (Z.ltb_spec (Z.max (start_ a) (start_ b)) (Z.min (end_ a) (end_ b))); simpl.
  - split; [done|lia].
  - rewrite Z.compare_gt_iff. lia.
Qed.

Lemma key_cmp_eq a b :
  nonempty a -> nonempty b -> key_cmp a b = Eq <-> intersects a b = true.
Proof.
  unfold nonempty, key_cmp. intros Ha Hb. destruct (intersects a b) eqn:E; simpl; [done|].
  unfold intersects in E. to_Z. rewrite Z.compare_eq_iff. split; [|done]. lia.
Qed.

#[global] Instance range_cmp_laws : CmpLaws range_cmp.
Proof.
  split.
  - intros x y. unfold range_cmp. rewrite (Z.compare_antisym (start_ x)), (Z.compare_antisym (end_ x)).
    by destruct (start_ x ?= start_ y).
  - intros x y z. unfold range_cmp.
    destruct (Z.compare_spec (start_ x) (start_ y)), (Z.compare_spec (start_ y) (start_ z)),
      (Z.compare_spec (start_ x) (start_ z)); try done; try lia.
    rewrite !Z.compare_lt_iff. lia.
  - intros x y z. unfold range_cmp.
    destruct (Z.compare_spec (start_ x) (start_ y)) as [->| |]; try done.
    by intros ->%Z.compare_eq_iff.
Qed.

Lemma range_cmp_eq a b : range_cmp a b = Eq <-> a = b.
Proof.
  unfold range_cmp. destruct a as [s1 e1], b as [s2 e2]. simpl.
  destruct (Z.compare_spec s1 s2) as [->| |]; [|naive_solver lia..].
  rewrite Z.compare_eq_iff. naive_solver.
Qed.

(** ** The DONTFORK ranges

    [BTreeSet<MemoryRange>] with the derived order.  [remove_range] loops while
    the set has an element equal to the range. *)

Fixpoint remove_range_loop (fuel : nat) (ranges : list MemoryRange) (range : MemoryRange)
  : res (list MemoryRange) :=
  match fuel with
  | O => Spin
  | S fuel' =>
      match List.find (fun r => match range_cmp range r with Eq => true | _ => false end) ranges with
      | None => Ok ranges
      | Some matched =>
          let ranges := bt_remove range_cmp matched ranges in
          ranges ← (if start_ matched <? start_ range
                    then r ← from_range (start_ matched) (start_ range); Ok (bt_insert range_cmp r ranges)
                    else Ok ranges);
          ranges ← (if end_ range <? end_ matched
                    then r ← from_range (end_ range) (end_ matched); Ok (bt_insert range_cmp r ranges)
                    else Ok ranges);
          remove_range_loop fuel' ranges range
      end
  end.

Definition remove_range (ranges : list MemoryRange) (range : MemoryRange) : res (list MemoryRange) :=
  remove_range_loop (S (S (length ranges))) ranges range.

Definition add_range (ranges : list MemoryRange) (range : MemoryRange) : res (list MemoryRange) :=
  ranges ← remove_range ranges range; Ok (bt_insert range_cmp range ranges).

Lemma find_exact range ranges :
  List.find (fun r => match range_cmp range r with Eq => true | _ => false end) ranges
  = if bool_decide (range ∈ ranges) then Some range else None.
Proof.
  induction ranges as [|r l IH]; simpl; [done|].
  destruct (range_cmp range r) eqn:E;
    [apply range_cmp_eq in E as ->; by rewrite bool_decide_true by set_solver|..];
    (assert (range <> r) by (intros ->; by rewrite (cmp_refl range_cmp) in E));
    rewrite IH; repeat case_bool_decide; set_solver.
Qed.

(** Only a range equal to the argument is ever found, so nothing is split. *)
Lemma remove_range_exact ranges range :
  bt_sorted range_cmp ranges -> remove_range ranges range = Ok (bt_remove range_cmp range ranges).
Proof.
  intros Hs. unfold remove_range.
  assert (forall n l, bt_sorted range_cmp l -> range ∉ l -> remove_range_loop (S n) l range = Ok l) as Hnone.
  { intros n l Hl Hn. cbn [remove_range_loop]. rewrite find_exact. by rewrite bool_decide_false. }
  destruct (decide (range ∈ ranges)) as [Hin|Hin].
  - cbn [remove_range_loop]. rewrite find_exact, bool_decide_true by done.
    rewrite !Z.ltb_irrefl. simpl mbind. unfold mbind at 1 2. simpl res_bind. apply Hnone.
    + by apply (bt_remove_sorted range_cmp).
    + rewrite (elem_of_bt_remove range_cmp) by done. intros [_ Hne]. apply Hne. by apply range_cmp_eq.
  - rewrite Hnone by done. f_equal. clear Hs Hnone. induction ranges as [|r l IH]; simpl; [done|].
    destruct (range_cmp range r) eqn:E; [apply range_cmp_eq in E; set_solver|..];
      f_equal; apply IH; set_solver.
Qed.

(** [remove_range] removes a range only when it is an element of the set.
    A range that overlaps the argument without being equal to it stays in the
    set whole, although the loop is written to split it (the set's order is
    the lexicographic one, under which only equal ranges match). *)
Theorem remove_range_keeps_overlaps ranges range r :
  bt_sorted range_cmp ranges -> r ∈ ranges -> r <> range ->
  exists ranges', remove_range ranges range = Ok ranges' /\ r ∈ ranges'.
Proof.
  intros Hs Hr Hne. exists (bt_remove range_cmp range ranges).
  split; [by apply remove_range_exact|]. apply (elem_of_bt_remove range_cmp); [done|].
  split; [done|]. rewrite range_cmp_eq. congruence.
Qed.

Lemma remove_range_keeps_overlaps_witness :
  exists ranges', remove_range [mkRange 0 12288] (mkRange 4096 8192) = Ok ranges' /\
    mkRange 0 12288 ∈ ranges' /\ intersects (mkRange 0 12288) (mkRange 4096 8192) = true.
Proof.
  destruct (remove_range_keeps_overlaps [mkRange 0 12288] (mkRange 4096 8192) (mkRange 0 12288))
    as (l & E & Hin); [repeat constructor|apply list_elem_of_singleton; reflexivity|discriminate|].
  exists l. split; [exact E|]. split; [exact Hin|reflexivity].
Defined.

End Range.
