(* ===== verification/KernelMapping.v ===== *)
(** Mappings: [src/src/session/address_space/kernel_mapping.rs], the [Mapping]
    of [src/src/session/address_space.rs] and the functions that decide which
    mappings are one resource. *)

From Stdlib Require Import Ascii String.
From S2P Require Import Prelude MemoryRange.

Module KMap.
Import Range.

(** ** Byte strings *)

Abbreviation OsString := (list ascii).
Definition os (s : string) : OsString := list_ascii_of_string s.

(** [slice::starts_with]. *)
Fixpoint starts_with {A} `{EqDecision A} (s prefix : list A) : bool :=
  match prefix, s with
  | [], _ => true
  | p :: prefix', x :: s' => bool_decide (x = p) && starts_with s' prefix'
  | _, [] => false
  end.

(** [util.rs: find]; [rest] is what is left of the haystack at index [i]. *)
Fixpoint find_loop {A} `{EqDecision A} (needle : list A) (len : nat) (rest : list A) (i : nat)
  : option nat :=
  if (len <? i + length needle)%nat then None
  else if starts_with rest needle then Some i
  else match rest with
       | [] => None
       | _ :: rest' => find_loop needle len rest' (S i)
       end.

Definition find {A} `{EqDecision A} (haystack needle : list A) : option nat :=
  find_loop needle (length haystack) haystack 0.

(** ** Kernel mappings *)

Record KernelMapping := mkKM {
  mr : MemoryRange;
  fsname_ : OsString;
  device_ : Z;
  inode_ : Z;
  prot_ : Z;
  flags_ : Z;
  offset : Z
}.

Definition km_start (m : KernelMapping) : Z := start_ (mr m).
Definition km_end (m : KernelMapping) : Z := end_ (mr m).
Definition km_size (m : KernelMapping) : Z := size (mr m).

Definition NO_DEVICE : Z := 0.
Definition NO_INODE : Z := 0.

Definition MAP_SHARED : Z := 1.
Definition MAP_PRIVATE : Z := 2.
Definition MAP_ANONYMOUS : Z := 32.
Definition MAP_GROWSDOWN : Z := 256.
Definition MAP_NORESERVE : Z := 16384.
Definition MAP_STACK : Z := 131072.

Definition MAP_FLAGS_MASK : Z :=
  Z.lor MAP_ANONYMOUS (Z.lor MAP_NORESERVE (Z.lor MAP_PRIVATE
    (Z.lor MAP_SHARED (Z.lor MAP_STACK MAP_GROWSDOWN)))).

Definition PROT_READ : Z := 1.
Definition PROT_WRITE : Z := 2.
Definition PROT_EXEC : Z := 4.
Definition PROT_GROWSDOWN : Z := 16777216.

Section Mappings.
Context `{PageSize}.

Definition assert_valid (m : KernelMapping) : res unit :=
  _ ← assert_ (km_start m <=? km_end m);
  _ ← assert_ (km_size m mod page_size =? 0);
  _ ← assert_ (Z.land (flags_ m) (Z.lnot MAP_FLAGS_MASK) =? 0);
  assert_ (offset m mod page_size =? 0).

Definition new_with_opts (start end_ : Z) (fsname : OsString) (device inode prot flags offset : Z)
  : res KernelMapping :=
  r ← from_range start end_;
  let result := mkKM r fsname device inode prot (Z.land flags MAP_FLAGS_MASK) offset in
  _ ← assert_valid result;
  Ok result.

Definition is_real_device (m : KernelMapping) : bool := NO_DEVICE <? device_ m.

Definition extend (m : KernelMapping) (end_ : Z) : res KernelMapping :=
  _ ← assert_ (km_end m <=? end_);
  new_with_opts (km_start m) end_ (fsname_ m) (device_ m) (inode_ m) (prot_ m) (flags_ m) (offset m).

Definition set_range (m : KernelMapping) (start end_ : Z) : res KernelMapping :=
  new_with_opts start end_ (fsname_ m) (device_ m) (inode_ m) (prot_ m) (flags_ m) (offset m).

(** [self.offset + start_addr] is a checked [u64] sum. *)
Definition subrange (m : KernelMapping) (start end_ : Z) : res KernelMapping :=
  _ ← assert_ ((km_start m <=? start) && (end_ <=? km_end m));
  let start_addr := if is_real_device m then ptr_diff start (km_start m) else 0 in
  off ← checked_add (offset m) start_addr;
  new_with_opts start end_ (fsname_ m) (device_ m) (inode_ m) (prot_ m) (flags_ m) off.

Definition set_prot (m : KernelMapping) (prot : Z) : res KernelMapping :=
  new_with_opts (km_start m) (km_end m) (fsname_ m) (device_ m) (inode_ m) prot (flags_ m) (offset m).

Definition is_vdso (m : KernelMapping) : bool := bool_decide (fsname_ m = os "[vdso]").
Definition is_heap (m : KernelMapping) : bool := bool_decide (fsname_ m = os "[heap]").
Definition is_stack (m : KernelMapping) : bool :=
  match find (fsname_ m) (os "[stack") with
  | Some loc => (loc =? 0)%nat
  | None => false
  end.

(** ** Mappings of an address space *)

(** Pointers to emulated files and to monitored memory, the stat data and local
    addresses are numbers; [mflags] are the [MappingFlags]. *)
Record Mapping := mkMapping {
  map : KernelMapping;
  recorded_map : KernelMapping;
  emu_file : option Z;
  mapped_file_stat : option Z;
  local_addr : option Z;
  monitored_shared_memory : option Z;
  mflags : Z
}.

Definition new_mapping (map recorded_map : KernelMapping) (emu_file mapped_file_stat local_addr
    monitored : option Z) : Mapping :=
  mkMapping map recorded_map emu_file mapped_file_stat local_addr monitored 0.

Definition with_flags (m : Mapping) (f : Z) : Mapping :=
  mkMapping (map m) (recorded_map m) (emu_file m) (mapped_file_stat m) (local_addr m)
    (monitored_shared_memory m) f.

Inductive HandleHeap := TreatHeapAsAnonymous | RespectHeap.
#[global] Instance HandleHeap_eq_dec : EqDecision HandleHeap.
Proof. solve_decision. Defined.

Definition strip_deleted (s : OsString) : OsString :=
  match find s (os " (deleted)") with Some loc => take loc s | None => s end.

Definition normalized_file_names_equal (km1 km2 : KernelMapping) (handle_heap : HandleHeap) : bool :=
  if is_stack km1 || is_stack km2 then true
  else if bool_decide (handle_heap = TreatHeapAsAnonymous) && (is_heap km1 || is_heap km2) then true
  else bool_decide (strip_deleted (fsname_ km1) = strip_deleted (fsname_ km2)).

(** [maybe_flags_to_check] is a mask; all flags by default. *)
Definition is_adjacent_mapping (mleft mright : KernelMapping) (handle_heap : HandleHeap)
    (maybe_flags_to_check : option Z) : res bool :=
  if negb (km_end mleft =? km_start mright) then Ok false
  else
    let flags_to_check := match maybe_flags_to_check with Some f => f | None => Z.lnot 0 end in
    if negb (Z.land (Z.lxor (flags_ mleft) (flags_ mright)) flags_to_check =? 0)
       || negb (prot_ mleft =? prot_ mright) then Ok false
    else if negb (normalized_file_names_equal mleft mright handle_heap) then Ok false
    else if negb (device_ mleft =? device_ mright) || negb (inode_ mleft =? inode_ mright) then Ok false
    else if is_real_device mleft then
      e ← checked_add (offset mleft) (km_size mleft);
      Ok (e =? offset mright)
    else Ok true.

Definition is_coalescable (mleft mright : Mapping) : res bool :=
  a ← is_adjacent_mapping (map mleft) (map mright) RespectHeap None;
  if negb a then Ok false
  else
    b ← is_adjacent_mapping (recorded_map mleft) (recorded_map mright) RespectHeap None;
    if negb b then Ok false else Ok (mflags mleft =? mflags mright).

Definition assert_coalesceable (lower higher : Mapping) : res unit :=
  _ ← assert_ (bool_decide (emu_file lower = emu_file higher));
  _ ← match local_addr lower, local_addr higher with
      | Some l, Some h => s ← checked_add l (km_size (map lower)); assert_ (s =? h)
      | Some _, None => Panic
      | None, o => assert_ (bool_decide (o = None))
      end;
  _ ← assert_ (mflags lower =? mflags higher);
  assert_ (bool_decide (monitored_shared_memory lower = None)
           && bool_decide (monitored_shared_memory higher = None)).

End Mappings.
End KMap.
