(* ===== verification/Watchpoints.v ===== *)
(** Watchpoints: the [Watchpoint] records of [src/src/session/address_space.rs],
    the splitting of ranges over debug registers, and the re-reading of watched
    memory. *)

From S2P Require Import Prelude MemoryRange.

Module Watch.
Import Range.

(** ** Data *)

Inductive WatchType := WatchExec | WatchWrite | WatchReadWrite.
#[global] Instance WatchType_eq_dec : EqDecision WatchType.
Proof. solve_decision. Defined.

Record WatchConfig := mkConfig { w_addr : Z; w_num_bytes : Z; w_type : WatchType }.
#[global] Instance WatchConfig_eq_dec : EqDecision WatchConfig.
Proof. solve_decision. Defined.

(** [RwxBits]. *)
Definition EXEC_BIT : Z := 1.
Definition READ_BIT : Z := 2.
Definition WRITE_BIT : Z := 4.
Definition READ_WRITE_BITS : Z := Z.lor READ_BIT WRITE_BIT.
Definition has_bits (which bits : Z) : bool := Z.land which bits =? bits.

Definition access_bits_of (type_ : WatchType) : Z :=
  match type_ with
  | WatchExec => EXEC_BIT
  | WatchWrite => WRITE_BIT
  | WatchReadWrite => READ_WRITE_BITS
  end.

Record Watchpoint := mkWatchpoint {
  exec_count : Z;
  read_count : Z;
  write_count : Z;
  debug_regs_for_exec_read : list Z;
  value_bytes : list Z;
  valid : bool;
  changed : bool
}.

Definition new (num_bytes : Z) : Watchpoint :=
  mkWatchpoint 0 0 0 [] (replicate (Z.to_nat num_bytes) 0) false false.

Definition set_counts (e r w : Z) (p : Watchpoint) : Watchpoint :=
  mkWatchpoint e r w (debug_regs_for_exec_read p) (value_bytes p) (valid p) (changed p).
Definition set_regs (l : list Z) (p : Watchpoint) : Watchpoint :=
  mkWatchpoint (exec_count p) (read_count p) (write_count p) l (value_bytes p) (valid p) (changed p).
Definition set_value (b : list Z) (v : bool) (p : Watchpoint) : Watchpoint :=
  mkWatchpoint (exec_count p) (read_count p) (write_count p) (debug_regs_for_exec_read p) b v (changed p).
Definition set_changed (c : bool) (p : Watchpoint) : Watchpoint :=
  mkWatchpoint (exec_count p) (read_count p) (write_count p) (debug_regs_for_exec_read p)
    (value_bytes p) (valid p) c.

(** [u32] counters. *)
Definition u32_incr (b : bool) (n : Z) : res Z :=
  if b then (if n + 1 <? 4294967296 then Ok (n + 1) else Panic) else Ok n.
Definition u32_decr (b : bool) (n : Z) : res Z :=
  if b then (if 0 <? n then Ok (n - 1) else Panic) else Ok n.

Definition watch (which : Z) (p : Watchpoint) : res Watchpoint :=
  e ← u32_incr (has_bits which EXEC_BIT) (exec_count p);
  r ← u32_incr (has_bits which READ_BIT) (read_count p);
  w ← u32_incr (has_bits which WRITE_BIT) (write_count p);
  Ok (set_counts e r w p).

Definition unwatch (which : Z) (p : Watchpoint) : res (Z * Watchpoint) :=
  e ← u32_decr (has_bits which EXEC_BIT) (exec_count p);
  r ← u32_decr (has_bits which READ_BIT) (read_count p);
  w ← u32_decr (has_bits which WRITE_BIT) (write_count p);
  if e + r + w <? 4294967296 then Ok (e + r + w, set_counts e r w p) else Panic.

Definition watched_bits (p : Watchpoint) : Z :=
  Z.lor (if 0 <? exec_count p then EXEC_BIT else 0)
    (Z.lor (if 0 <? read_count p then READ_BIT else 0)
           (if 0 <? write_count p then WRITE_BIT else 0)).

(** ** Splitting a range over debug registers *)

(** [try_split_unaligned_range]: the rest of the range and the piece cut off. *)
Definition try_split_unaligned_range (range : MemoryRange) (bytes : Z)
  : option (MemoryRange * MemoryRange) :=
  if negb (Z.land (start_ range) (bytes - 1) =? 0) || (size range <? bytes) then None
  else Some (mkRange (ptr_add (start_ range) bytes) (end_ range),
             new_range (start_ range) bytes).

(** One turn of the loop of [split_range], on a 64-bit build. *)
Definition split_step (r : MemoryRange) : option (MemoryRange * MemoryRange) :=
  match try_split_unaligned_range r 8 with
  | Some x => Some x
  | None =>
      match try_split_unaligned_range r 4 with
      | Some x => Some x
      | None =>
          match try_split_unaligned_range r 2 with
          | Some x => Some x
          | None => try_split_unaligned_range r 1
          end
      end
  end.

Fixpoint split_loop (fuel : nat) (r : MemoryRange) (result : list MemoryRange)
  : res (list MemoryRange) :=
  match fuel with
  | O => Spin
  | S fuel' =>
      if 0 <? size r then
        match split_step r with
        | None => Panic
        | Some (r', piece) => split_loop fuel' r' (result ++ [piece])
        end
      else Ok result
  end.

Definition split_range (range : MemoryRange) : res (list MemoryRange) :=
  split_loop (S (Z.to_nat (size range))) range [].

(** [configure_watch_registers]: the configurations and, when asked for, the
    register numbers assigned, which have to fit in a [u8]. *)
Fixpoint push_regs (regs : list WatchConfig) (split_ranges : list MemoryRange)
    (watchtype : WatchType) (assigned : option (list Z)) : res (list WatchConfig * option (list Z)) :=
  match split_ranges with
  | [] => Ok (regs, assigned)
  | r :: rest =>
      assigned ← match assigned with
                 | Some l =>
                     if Z.of_nat (length regs) <? 256
                     then Ok (Some (l ++ [Z.of_nat (length regs)])) else Panic
                 | None => Ok None
                 end;
      push_regs (regs ++ [mkConfig (start_ r) (size r) watchtype]) rest watchtype assigned
  end.

Definition watch_align (range : MemoryRange) : Z :=
  if size range <=? 2 then 2 else if size range <=? 4 then 4 else 8.

Definition choose_split (range : MemoryRange) (watchtype : WatchType) : res (list MemoryRange) :=
  split_ranges ← split_range range;
  if bool_decide (watchtype = WatchWrite) && (1 <? size range) then
    let align := watch_align range in
    let aligned_start := Z.land (start_ range) (Z.lnot (align - 1)) in
    e ← checked_add (end_ range) (align - 1);
    let aligned_end := Z.land e (Z.lnot (align - 1)) in
    r ← from_range aligned_start aligned_end;
    split ← split_range r;
    Ok (if (length split <? length split_ranges)%nat then split else split_ranges)
  else Ok split_ranges.

Definition configure_watch_registers (regs : list WatchConfig) (range : MemoryRange)
    (watchtype : WatchType) (assigned : option (list Z)) : res (list WatchConfig * option (list Z)) :=
  split_ranges ← choose_split range watchtype;
  push_regs regs split_ranges watchtype assigned.

(** [range_for_watchpoint]: the last byte of memory is never watched. *)
Definition range_for_watchpoint (addr num_bytes : Z) : MemoryRange :=
  new_range addr (Z.min num_bytes (USIZE - 1 - addr)).

Definition dr_watchpoint (n : Z) : res Z :=
  if n <? 32 then Ok (Z.shiftl 1 n) else Panic.

Fixpoint watchpoint_triggered (debug_status : Z) (regs : list Z) : res bool :=
  match regs with
  | [] => Ok false
  | reg :: rest =>
      w ← dr_watchpoint reg;
      if Z.land debug_status w =? w then Ok true else watchpoint_triggered debug_status rest
  end.

(** ** The watchpoint map

    [HashMap<MemoryRange, Watchpoint>] as the list of its entries in the order of
    iteration, which is not specified. *)

Abbreviation WatchMap := (list (MemoryRange * Watchpoint)).

Fixpoint wm_get (r : MemoryRange) (m : WatchMap) : option Watchpoint :=
  match m with
  | [] => None
  | (k, w) :: m' => if decide (r = k) then Some w else wm_get r m'
  end.

(** Storing under a key keeps the place of an entry that is there. *)
Fixpoint wm_insert (r : MemoryRange) (w : Watchpoint) (m : WatchMap) : WatchMap :=
  match m with
  | [] => [(r, w)]
  | (k, w') :: m' => if decide (r = k) then (k, w) :: m' else (k, w') :: wm_insert r w m'
  end.

Fixpoint wm_remove (r : MemoryRange) (m : WatchMap) : WatchMap :=
  match m with
  | [] => []
  | (k, w) :: m' => if decide (r = k) then m' else (k, w) :: wm_remove r m'
  end.

Section Memory.
Context `{PageSize}.

(** Reading memory of some task of the address space: [None] when there is no
    task; a read returns the bytes it got, [None] for an error. *)
Abbreviation Reader := (option (Z -> Z -> option (list Z))).

(** Overwrite a part of a buffer. *)
Definition splice (buf : list Z) (pos : nat) (bytes : list Z) : list Z :=
  take pos buf ++ bytes ++ drop (pos + length bytes) buf.

Fixpoint read_loop (fuel : nat) (read : Z -> Z -> option (list Z)) (start addr num_bytes : Z)
    (buf : list Z) (valid : bool) : res (list Z * bool) :=
  match fuel with
  | O => Spin
  | S fuel' =>
      if 0 <? num_bytes then
        let buf_pos := addr - start in
        _ ← assert_ (buf_pos + num_bytes <=? Z.of_nat (length buf));
        let failed :=
          let n := Z.min num_bytes (ptr_diff (ptr_add (floor_page_size addr) page_size) addr) in
          read_loop fuel' read start (ptr_add addr n) (num_bytes - n) buf false in
        match read addr num_bytes with
        | None | Some [] => failed
        | Some bytes =>
            let n := Z.of_nat (length bytes) in
            read_loop fuel' read start (ptr_add addr n) (num_bytes - n)
              (splice buf (Z.to_nat buf_pos) bytes) valid
        end
      else Ok (buf, valid)
  end.

(** [update_watchpoint_value]: whether the value changed, and the new map. *)
Definition update_watchpoint_value (reader : Reader) (m : WatchMap) (range : MemoryRange)
    (mark_changed_if_changed : bool) : res (bool * WatchMap) :=
  w ← unwrap (wm_get range m);
  read ← unwrap reader;
  let n := size range in
  bv ← read_loop (S (Z.to_nat n)) read (start_ range) (start_ range) n
         (replicate (length (value_bytes w)) 255) true;
  let ch := negb (Bool.eqb bv.2 (valid w)) || negb (bool_decide (bv.1 = value_bytes w)) in
  let w' := set_value bv.1 bv.2 w in
  let w'' := if mark_changed_if_changed && ch then set_changed true w' else w' in
  Ok (ch, wm_insert range w'' m).

Fixpoint update_all (reader : Reader) (m : WatchMap) (ranges : list MemoryRange) : res WatchMap :=
  match ranges with
  | [] => Ok m
  | r :: rest => x ← update_watchpoint_value reader m r true; update_all reader x.2 rest
  end.

Definition update_watchpoint_values (reader : Reader) (m : WatchMap) (start end_ : Z) : res WatchMap :=
  r ← from_range start end_;
  update_all reader m (List.filter (fun k => intersects k r) (map fst m)).

End Memory.

(** ** Operations on the map *)

Inductive WatchPointFilter := AllWatchpoints | ChangedWatchpoints.

Definition configs_of (r : MemoryRange) (w : Watchpoint) : list WatchConfig :=
  let watching := watched_bits w in
  (if has_bits watching EXEC_BIT then [mkConfig (start_ r) (size r) WatchExec] else []) ++
  (if has_bits watching READ_BIT then [mkConfig (start_ r) (size r) WatchReadWrite]
   else if has_bits watching WRITE_BIT then [mkConfig (start_ r) (size r) WatchWrite] else []).

Fixpoint get_watchpoints_internal (filter : WatchPointFilter) (m : WatchMap)
  : list WatchConfig * WatchMap :=
  match m with
  | [] => ([], [])
  | (r, w) :: m' =>
      let '(cs, m'') := get_watchpoints_internal filter m' in
      match filter with
      | AllWatchpoints => (configs_of r w ++ cs, (r, w) :: m'')
      | ChangedWatchpoints =>
          if changed w then (configs_of r w ++ cs, (r, set_changed false w) :: m'')
          else (cs, (r, w) :: m'')
      end
  end.

Fixpoint get_watch_configs (regs : list WatchConfig) (setting_task_state : bool) (m : WatchMap)
  : res (list WatchConfig * WatchMap) :=
  match m with
  | [] => Ok (regs, [])
  | (r, w) :: m' =>
      let watching := watched_bits w in
      let assigned := if setting_task_state then Some [] else None in
      x ← (if has_bits watching EXEC_BIT
           then configure_watch_registers regs r WatchExec assigned else Ok (regs, assigned));
      y ← (if has_bits watching READ_BIT
           then configure_watch_registers x.1 r WatchReadWrite x.2
           else if has_bits watching WRITE_BIT
           then c ← configure_watch_registers x.1 r WatchWrite None; Ok (c.1, x.2)
           else Ok x);
      let w' := match y.2 with Some l => set_regs l w | None => w end in
      z ← get_watch_configs y.1 setting_task_state m';
      Ok (z.1, (r, w') :: z.2)
  end.

(** [allocate_watchpoints]: [set_debug_regs] is the effect on every task, true
    when all tasks accept; the result, the registers programmed last and the
    map. *)
Definition allocate_watchpoints (set_debug_regs : list WatchConfig -> bool) (m : WatchMap)
  : res (bool * list WatchConfig * WatchMap) :=
  x ← get_watch_configs [] true m;
  if (length x.1 <=? 127)%nat && set_debug_regs x.1 then Ok (true, x.1, x.2)
  else Ok (false, [], map (fun kw => (kw.1, set_regs [] kw.2)) x.2).

(** [rehash] is the order of iteration after a new key was inserted. *)
Definition add_watchpoint `{PageSize} (rehash : WatchMap -> WatchMap) (reader : option (Z -> Z -> option (list Z)))
    (set_debug_regs : list WatchConfig -> bool) (m : WatchMap) (addr num_bytes : Z) (type_ : WatchType)
  : res (bool * list WatchConfig * WatchMap) :=
  let range := range_for_watchpoint addr num_bytes in
  m ← match wm_get range m with
      | None =>
          x ← update_watchpoint_value reader (rehash (wm_insert range (new num_bytes) m)) range false; Ok x.2
      | Some _ => Ok m
      end;
  w ← unwrap (wm_get range m);
  w ← watch (access_bits_of type_) w;
  allocate_watchpoints set_debug_regs (wm_insert range w m).

Definition remove_watchpoint (set_debug_regs : list WatchConfig -> bool) (m : WatchMap)
    (addr num_bytes : Z) (type_ : WatchType) : res (bool * list WatchConfig * WatchMap) :=
  let r := range_for_watchpoint addr num_bytes in
  m ← match wm_get r m with
      | None => Ok m
      | Some w =>
          x ← unwatch (access_bits_of type_) w;
          Ok (if x.1 =? 0 then wm_remove r m else wm_insert r x.2 m)
      end;
  allocate_watchpoints set_debug_regs m.

(** ** Firing *)

(** [debug_status] against the registers of one watchpoint; a null
    [address_of_singlestep_start] is 0. *)
Definition fired (debug_status address_of_singlestep_start : Z) (k : MemoryRange) (w : Watchpoint) : res bool :=
  read_triggered ← (if has_bits (watched_bits w) READ_BIT
                    then watchpoint_triggered debug_status (debug_regs_for_exec_read w) else Ok false);
  exec_triggered ← (if has_bits (watched_bits w) EXEC_BIT
                       && ((address_of_singlestep_start =? 0) || (start_ k =? address_of_singlestep_start))
                    then watchpoint_triggered debug_status (debug_regs_for_exec_read w) else Ok false);
  Ok (read_triggered || exec_triggered).

Fixpoint mark_fired (debug_status address_of_singlestep_start : Z) (m : WatchMap) : res (bool * WatchMap) :=
  match m with
  | [] => Ok (false, [])
  | (k, w) :: m' =>
      f ← fired debug_status address_of_singlestep_start k w;
      x ← mark_fired debug_status address_of_singlestep_start m';
      Ok (f || x.1, (k, if f then set_changed true w else w) :: x.2)
  end.

Fixpoint update_written `{PageSize} (reader : option (Z -> Z -> option (list Z))) (m : WatchMap)
    (ranges : list MemoryRange) (triggered : bool) : res (bool * WatchMap) :=
  match ranges with
  | [] => Ok (triggered, m)
  | r :: rest =>
      x ← update_watchpoint_value reader m r true;
      update_written reader x.2 rest (x.1 || triggered)
  end.

Definition notify_watchpoint_fired `{PageSize} (reader : option (Z -> Z -> option (list Z)))
    (debug_status address_of_singlestep_start : Z) (m : WatchMap) : res (bool * WatchMap) :=
  x ← mark_fired debug_status address_of_singlestep_start m;
  let for_update := map fst (List.filter (fun kw : MemoryRange * Watchpoint => has_bits (watched_bits kw.2) WRITE_BIT) x.2) in
  update_written reader x.2 for_update x.1.

Definition has_any_watchpoint_changes (m : WatchMap) : bool := existsb (fun kw : MemoryRange * Watchpoint => changed kw.2) m.

Definition has_exec_watchpoint_fired (addr : Z) (m : WatchMap) : bool :=
  existsb (fun kw : MemoryRange * Watchpoint => changed kw.2 && (0 <? exec_count kw.2) && (start_ kw.1 =? addr)) m.

Definition consume_watchpoint_changes (m : WatchMap) : list WatchConfig * WatchMap :=
  get_watchpoints_internal ChangedWatchpoints m.

Definition all_watchpoints (m : WatchMap) : list WatchConfig :=
  fst (get_watchpoints_internal AllWatchpoints m).


End Watch.
