(* ===== verification/WatchpointProofs.v ===== *)
(** Splitting ranges over debug registers: the pieces tile the range, no tiling
    by aligned pieces has fewer, and every watched byte gets a register. *)

From S2P Require Import Prelude MemoryRange Watchpoints.

Module WatchProofs.
Import Range Watch.

(** ** Aligned pieces *)

(** What a debug register can watch: 1, 2, 4 or 8 aligned bytes. *)
Definition piece_ok (p : MemoryRange) : Prop :=
  exists k, (k = 1 \/ k = 2 \/ k = 4 \/ k = 8) /\ end_ p = start_ p + k /\ (k | start_ p).

(** The pieces follow each other from [s] to [e]. *)
Fixpoint tiles (s e : Z) (ps : list MemoryRange) : Prop :=
  match ps with
  | [] => s = e
  | p :: ps' => start_ p = s /\ tiles (end_ p) e ps'
  end.

Definition tiling (s e : Z) (ps : list MemoryRange) : Prop := tiles s e ps /\ Forall piece_ok ps.

Lemma tiles_snoc s e ps p : tiles s e ps -> start_ p = e -> tiles s (end_ p) (ps ++ [p]).
Proof. revert s. induction ps as [|q ps IH]; simpl; [naive_solver|]. intros s [? ?] ?. auto. Qed.

Lemma tiling_le s e ps : tiling s e ps -> s <= e.
Proof.
  intros [Ht Hf]. revert s Ht. induction Hf as [|p ps (k & Hk & He & _) _ IH]; simpl; intros s; [lia|].
  intros [<- H%IH]. lia.
Qed.

(** Every byte between the ends is in a piece, and only those. *)
Lemma tiling_covers s e ps a : tiling s e ps ->
  s <= a < e <-> exists p, p ∈ ps /\ contains_ptr p a = true.
Proof.
  intros [Ht Hf]. revert s Ht. induction Hf as [|p ps Hp Hf IH]; simpl; intros s.
  - intros <-. split; [lia|]. by intros (? & ?%not_elem_of_nil & _).
  - intros [<- Ht]. specialize (IH _ Ht). pose proof (tiling_le _ _ _ (conj Ht Hf)).
    destruct Hp as (k & Hk & He & _). split.
    + intros Ha. destruct (Z.lt_ge_cases a (end_ p)).
      * exists p. split; [left|]. apply contains_ptr_true. lia.
      * destruct (proj1 IH) as (q & ? & ?); [lia|]. exists q. split; [by right|done].
    + intros (q & [->|Hq]%elem_of_cons & Hc).
      * apply contains_ptr_true in Hc. lia.
      * assert (end_ p <= a < e) by (apply IH; eauto). lia.
Qed.

(** ** [split_range] *)

Lemma land_pred_mod a k : k = 1 \/ k = 2 \/ k = 4 \/ k = 8 -> Z.land a (k - 1) = a mod k.
Proof.
  intros Hk. assert (exists n, 0 <= n /\ k = 2 ^ n) as (n & Hn & ->).
  { destruct Hk as [->|[->|[->| ->]]]; [exists 0|exists 1|exists 2|exists 3]; done. }
  rewrite Z.sub_1_r, <- Z.ones_equiv. by apply Z.land_ones.
Qed.

Definition fits (s e k : Z) : bool := (s mod k =? 0) && (s + k <=? e).

Lemma fits_spec s e k : 0 < k -> BoolSpec ((k | s) /\ s + k <= e) (~ ((k | s) /\ s + k <= e)) (fits s e k).
Proof.
  intros Hk. unfold fits. pose proof (Z.mod_divide s k ltac:(lia)) as Hd.
  destruct (Z.eqb_spec (s mod k) 0), (Z.leb_spec (s + k) e); simpl; constructor; naive_solver lia.
Qed.

Lemma try_split_spec s e k : k = 1 \/ k = 2 \/ k = 4 \/ k = 8 -> 0 <= s <= e -> e < USIZE ->
  try_split_unaligned_range (mkRange s e) k
  = if fits s e k then Some (mkRange (s + k) e, mkRange s (s + k)) else None.
Proof.
  intros Hk Hr He. unfold try_split_unaligned_range, size, new_range, fits. simpl.
  rewrite ptr_diff_small, land_pred_mod by (done || lia).
  destruct (Z.eqb_spec (s mod k) 0); simpl; [|done].
  destruct (Z.ltb_spec (e - s) k), (Z.leb_spec (s + k) e); try lia; [done|].
  by rewrite !ptr_add_small by lia.
Qed.

(** The largest piece that fits. *)
Definition largest (s e k : Z) : Prop :=
  (k = 1 \/ k = 2 \/ k = 4 \/ k = 8) /\ (k | s) /\ s + k <= e
  /\ forall k', k' = 1 \/ k' = 2 \/ k' = 4 \/ k' = 8 -> (k' | s) -> s + k' <= e -> k' <= k.

Lemma split_step_spec s e : 0 <= s < e -> e < USIZE ->
  exists k, largest s e k /\ split_step (mkRange s e) = Some (mkRange (s + k) e, mkRange s (s + k)).
Proof.
  intros Hr He. unfold split_step, largest. rewrite !try_split_spec by lia.
  destruct (fits_spec s e 8) as [H8|H8]; [lia|exists 8; split; [split_and!; naive_solver lia|done]|].
  destruct (fits_spec s e 4) as [H4|H4]; [lia|exists 4; split; [split_and!; naive_solver lia|done]|].
  destruct (fits_spec s e 2) as [H2|H2]; [lia|exists 2; split; [split_and!; naive_solver lia|done]|].
  destruct (fits_spec s e 1) as [H1|H1]; [lia|exists 1; split; [split_and!; naive_solver lia|done]|].
  destruct H1. split; [apply Z.divide_1_l|lia].
Qed.

Lemma piece_divides k k' : k = 1 \/ k = 2 \/ k = 4 \/ k = 8 -> k' = 1 \/ k' = 2 \/ k' = 4 \/ k' = 8 ->
  k' <= k -> (k' | k).
Proof. intros Hk Hk' Hle. exists (k / k'). destruct Hk as [->|[->|[->| ->]]], Hk' as [->|[->|[->| ->]]]; done || lia. Qed.

Lemma divide_between k x : (k | x) -> 0 < x -> k <= x.
Proof. intros ? ?. by apply Z.divide_pos_le. Qed.

(** Aligned pieces do not straddle: one that starts inside the largest first
    piece of a range ends inside it. *)
Lemma piece_inside s e k t k' : largest s e k -> s <= t < s + k ->
  k' = 1 \/ k' = 2 \/ k' = 4 \/ k' = 8 -> (k' | t) -> t + k' <= e -> t + k' <= s + k.
Proof.
  intros (Hk & Hd & Hle & Hmax) Ht Hk' Hd' He. destruct (Z.le_gt_cases k' k) as [Hc|Hc].
  - pose proof (piece_divides k k' Hk Hk' Hc) as Hkk.
    assert (k' <= s + k - t); [|lia]. apply divide_between; [|lia].
    apply Z.divide_sub_r; [|done]. apply Z.divide_add_r; [|done]. by etrans.
  - assert (t = s) as ->; [|specialize (Hmax k' Hk' Hd' He); lia].
    destruct (Z.eq_dec t s) as [|Hne]; [done|]. pose proof (piece_divides k' k Hk' Hk ltac:(lia)) as Hkk.
    assert (k <= t - s); [|lia]. apply divide_between; [|lia].
    apply Z.divide_sub_r; [|done]. by etrans.
Qed.

(** A tiling passes the end of the largest first piece. *)
Lemma tiling_cut s e k ps t : largest s e k -> s <= t <= s + k -> tiling t e ps ->
  exists ps1 ps2, ps = ps1 ++ ps2 /\ tiling (s + k) e ps2 /\ (t < s + k -> ps1 <> []).
Proof.
  intros Hl Ht [Hti Hf]. revert t Ht Hti. induction Hf as [|p ps Hp Hf IH]; intros t Ht Hti; simpl in Hti.
  - destruct Hl as (_ & _ & ? & _). exists [], []. split_and!; try done; [|lia]. split; [simpl; lia|constructor].
  - destruct Hti as [Hs Hti]. destruct (Z.eq_dec t (s + k)) as [Heq|Hne].
    { exists [], (p :: ps). split_and!; try done; [|lia]. split; [by rewrite <- Heq|by constructor]. }
    destruct Hp as (k' & Hk' & He & Hd). pose proof (tiling_le _ _ _ (conj Hti Hf)).
    assert (t + k' <= s + k) by (apply (piece_inside s e k t k'); try done; [lia|by rewrite <- Hs|lia]).
    destruct (IH (end_ p)) as (ps1 & ps2 & -> & Ht2 & _); [lia|done|].
    by exists (p :: ps1), ps2.
Qed.

Lemma split_loop_spec fuel : forall s e acc,
  0 <= s <= e -> e < USIZE -> e - s < Z.of_nat fuel ->
  exists ps, split_loop fuel (mkRange s e) acc = Ok (acc ++ ps) /\ tiling s e ps
    /\ forall qs, tiling s e qs -> (length ps <= length qs)%nat.
Proof.
  induction fuel as [|fuel IH]; intros s e acc Hr He Hf; [lia|]. cbn [split_loop].
  unfold size. cbn [start_ end_]. rewrite ptr_diff_small by lia. destruct (Z.ltb_spec 0 (e - s)).
  - destruct (split_step_spec s e ltac:(lia) He) as (k & Hl & ->).
    destruct (Hl) as (Hk & Hd & Hle & _).
    destruct (IH (s + k) e (acc ++ [mkRange s (s + k)]) ltac:(lia) He ltac:(lia)) as (ps & -> & [Hti Hps] & Hmin).
    exists (mkRange s (s + k) :: ps). split; [by rewrite <- app_assoc|]. split.
    + split; [done|]. constructor; [|done]. by exists k.
    + intros qs Hqs. destruct (tiling_cut s e k qs s Hl ltac:(lia) Hqs) as (q1 & q2 & -> & H2 & Hne).
      specialize (Hmin _ H2). rewrite length_app. destruct q1; [by destruct Hne; [lia|]|simpl; lia].
  - exists []. rewrite app_nil_r. split_and!; [done|split; [simpl; lia|constructor]|simpl; lia].
Qed.

Lemma split_range_spec s e : 0 <= s <= e -> e < USIZE ->
  exists ps, split_range (mkRange s e) = Ok ps /\ tiling s e ps
    /\ forall qs, tiling s e qs -> (length ps <= length qs)%nat.
Proof.
  intros Hr He. unfold split_range, size. cbn [start_ end_]. rewrite ptr_diff_small by lia.
  apply (split_loop_spec _ s e []); lia.
Qed.

(** ** [configure_watch_registers] *)

Lemma land_lnot_align a k : k = 1 \/ k = 2 \/ k = 4 \/ k = 8 -> Z.land a (Z.lnot (k - 1)) = a - a mod k.
Proof.
  intros Hk. assert (exists n, 0 <= n /\ k = 2 ^ n) as (n & Hn & ->).
  { destruct Hk as [->|[->|[->| ->]]]; [exists 0|exists 1|exists 2|exists 3]; done. }
  rewrite Z.sub_1_r, <- Z.ones_equiv, <- Z.ldiff_land, Z.ldiff_ones_r, Z.shiftl_mul_pow2,
    Z.shiftr_div_pow2 by done.
  pose proof (Z.div_mod a (2 ^ n) ltac:(lia)). lia.
Qed.

(** Registers for at least the bytes of the range, for exactly those unless
    writes are watched, and never more than an exact tiling needs. *)
Lemma choose_split_spec s e ty : 0 <= s <= e -> e + 8 <= USIZE ->
  exists ps lo hi, choose_split (mkRange s e) ty = Ok ps /\ tiling lo hi ps
    /\ s - 8 < lo <= s /\ e <= hi < e + 8 /\ (ty <> WatchWrite -> lo = s /\ hi = e)
    /\ forall qs, tiling s e qs -> (length ps <= length qs)%nat.
Proof.
  intros Hr He. destruct (split_range_spec s e Hr ltac:(lia)) as (ps & Hps & Ht & Hmin).
  unfold choose_split. rewrite Hps. cbn [mbind res_bind].
  destruct (bool_decide (ty = WatchWrite) && (1 <? size (mkRange s e))) eqn:Ew.
  2: { exists ps, s, e. split_and!; try done; lia. }
  apply andb_true_iff in Ew as [Ew%bool_decide_eq_true _].
  set (k := watch_align (mkRange s e)).
  assert (k = 1 \/ k = 2 \/ k = 4 \/ k = 8) as Hk.
  { unfold k, watch_align. destruct (_ <=? _); [lia|]. destruct (_ <=? _); lia. }
  unfold checked_add. cbn [start_ end_]. destruct (Z.ltb_spec (e + (k - 1)) USIZE); [|lia]. cbn [mbind res_bind].
  rewrite !land_lnot_align by done.
  pose proof (Z.mod_pos_bound s k ltac:(lia)). pose proof (Z.mod_pos_bound (e + (k - 1)) k ltac:(lia)).
  pose proof (Z.mod_le s k ltac:(lia) ltac:(lia)).
  unfold from_range. rewrite (proj2 (Z.leb_le _ _)) by lia. cbn [assert_ mbind res_bind].
  destruct (split_range_spec (s - s mod k) (e + (k - 1) - (e + (k - 1)) mod k)) as (qs & -> & Hqt & _); [lia|lia|].
  cbn [mbind res_bind]. destruct (Nat.ltb_spec (length qs) (length ps)).
  - exists qs, (s - s mod k), (e + (k - 1) - (e + (k - 1)) mod k).
    split_and!; try done; try lia. intros rs Hrs. specialize (Hmin rs Hrs). lia.
  - exists ps, s, e. split_and!; try done; lia.
Qed.

Definition config_of (ty : WatchType) (r : MemoryRange) : WatchConfig := mkConfig (start_ r) (size r) ty.

Lemma push_regs_spec ps ty : forall regs assigned,
  assigned = None \/ Z.of_nat (length regs + length ps) <= 256 ->
  push_regs regs ps ty assigned
  = Ok (regs ++ (config_of ty <$> ps), (fun l => l ++ (Z.of_nat <$> seq (length regs) (length ps))) <$> assigned).
Proof.
  induction ps as [|p ps IH]; intros regs assigned Hlen; cbn [push_regs].
  - rewrite app_nil_r. simpl. destruct assigned; simpl; [by rewrite app_nil_r|done].
  - destruct assigned as [l|].
    + simpl in Hlen. destruct Hlen as [|Hlen]; [done|]. destruct (Z.ltb_spec (Z.of_nat (length regs)) 256); [|lia].
      cbn [mbind res_bind]. rewrite IH by (right; rewrite length_app; simpl; lia).
      rewrite length_app. simpl. rewrite <- !app_assoc. do 4 f_equal. simpl. by rewrite Nat.add_1_r.
    + cbn [mbind res_bind]. rewrite IH by (by left). by rewrite <- app_assoc.
Qed.

Lemma push_regs_inv ps ty : forall regs assigned x,
  push_regs regs ps ty assigned = Ok x -> assigned = None \/ ps = [] \/ Z.of_nat (length regs + length ps) <= 256.
Proof.
  induction ps as [|p ps IH]; intros regs assigned x Hx; cbn [push_regs] in Hx; [auto|].
  destruct assigned as [l|]; [|by left]. right. right. simpl.
  destruct (Z.ltb_spec (Z.of_nat (length regs)) 256); [|done]. cbn [mbind res_bind] in Hx.
  apply IH in Hx as [?|[->|Hx]]; [done|simpl; lia|]. rewrite length_app in Hx. simpl in Hx. lia.
Qed.

(** The byte is watched by the register. *)
Definition covers (c : WatchConfig) (a : Z) : Prop := w_addr c <= a < w_addr c + w_num_bytes c.

Lemma piece_size p : piece_ok p -> size p = end_ p - start_ p.
Proof. intros (k & Hk & E & _). unfold size, ptr_diff. rewrite E. apply wrap_small. lia. Qed.

Lemma configure_spec regs s e ty assigned x : 0 <= s <= e -> e + 8 <= USIZE ->
  configure_watch_registers regs (mkRange s e) ty assigned = Ok x ->
  exists cs, x.1 = regs ++ cs
    /\ x.2 = (fun l => l ++ (Z.of_nat <$> seq (length regs) (length cs))) <$> assigned
    /\ (forall c, c ∈ cs -> w_type c = ty)
    /\ (forall a, s <= a < e -> exists c, c ∈ cs /\ covers c a).
Proof.
  intros Hr He Hx. unfold configure_watch_registers in Hx.
  destruct (choose_split_spec s e ty Hr He) as (ps & lo & hi & Hps & Ht & Hlo & Hhi & _).
  rewrite Hps in Hx. cbn [mbind res_bind] in Hx.
  assert (x = (regs ++ (config_of ty <$> ps),
    (fun l => l ++ (Z.of_nat <$> seq (length regs) (length ps))) <$> assigned)) as ->.
  { destruct (push_regs_inv _ _ _ _ _ Hx) as [?|[->|?]].
    - rewrite push_regs_spec in Hx by auto. congruence.
    - injection Hx as <-. simpl. rewrite app_nil_r. destruct assigned; simpl; by rewrite ?app_nil_r.
    - rewrite push_regs_spec in Hx by auto. congruence. }
  exists (config_of ty <$> ps). simpl. rewrite length_fmap. split_and!; try done.
  - intros c (p & -> & _)%list_elem_of_fmap. done.
  - intros a Ha. destruct (proj1 (tiling_covers _ _ _ a Ht)) as (p & Hp & Hc); [lia|].
    exists (config_of ty p). split; [by apply list_elem_of_fmap_2|].
    apply contains_ptr_true in Hc. destruct Ht as [_ Ht]. apply (proj1 (Forall_forall _ _) Ht) in Hp.
    unfold covers, config_of. simpl. rewrite piece_size by done. lia.
Qed.


(** ** [get_watch_configs] *)

(** Every byte of the range is watched by a register, listed in [l]. *)
Definition armed (regs : list WatchConfig) (l : option (list Z)) (ty : WatchType) (r : MemoryRange) : Prop :=
  forall a, start_ r <= a < end_ r ->
  exists i c, regs !! i = Some c /\ w_type c = ty /\ covers c a /\ from_option (fun l => Z.of_nat i ∈ l) True l.

Definition extends (l l' : option (list Z)) : Prop :=
  match l, l' with Some x, Some y => forall i, i ∈ x -> i ∈ y | None, None => True | _, _ => False end.

Lemma armed_mono regs regs' l l' ty r :
  armed regs l ty r -> regs `prefix_of` regs' -> extends l l' -> armed regs' l' ty r.
Proof.
  intros Ha [more ->] Hl a Hr. destruct (Ha a Hr) as (i & c & Hi & Ht & Hc & Hin). exists i, c. split_and!; try done.
  - by apply lookup_app_l_Some.
  - destruct l, l'; simpl in *; auto; done.
Qed.

Lemma extends_refl l : extends l l.
Proof. destruct l; simpl; auto. Qed.

Definition range_fits (r : MemoryRange) : Prop := 0 <= start_ r <= end_ r /\ end_ r + 8 <= USIZE.

Lemma configure_armed regs r ty assigned x : range_fits r ->
  configure_watch_registers regs r ty assigned = Ok x ->
  armed x.1 x.2 ty r /\ regs `prefix_of` x.1 /\ extends assigned x.2.
Proof.
  destruct r as [s e]. intros [Hr He] Hx. simpl in *.
  destruct (configure_spec _ _ _ _ _ _ Hr He Hx) as (cs & -> & -> & Hty & Hcov). split_and!.
  - intros a Ha. simpl in Ha. destruct (Hcov a Ha) as (c & Hc & Hca).
    pose proof Hc as (j & Hj)%list_elem_of_lookup_1. exists (length regs + j)%nat, c. split_and!.
    + rewrite lookup_app_r by lia. by replace (length regs + j - length regs)%nat with j by lia.
    + by apply Hty.
    + done.
    + destruct assigned; simpl; [|done]. apply elem_of_app. right. apply list_elem_of_fmap_2, elem_of_seq.
      apply lookup_lt_Some in Hj. lia.
  - by exists cs.
  - destruct assigned; simpl; [|done]. intros i Hi. by apply elem_of_app; left.
Qed.

(** What the registers of one watchpoint have to do. *)
Definition served (regs : list WatchConfig) (l : option (list Z)) (r : MemoryRange) (w : Watchpoint) : Prop :=
  (has_bits (watched_bits w) EXEC_BIT = true -> armed regs l WatchExec r)
  /\ (has_bits (watched_bits w) READ_BIT = true -> armed regs l WatchReadWrite r)
  /\ (has_bits (watched_bits w) READ_BIT = false -> has_bits (watched_bits w) WRITE_BIT = true ->
      armed regs None WatchWrite r).

Lemma served_mono regs regs' l r w : served regs l r w -> regs `prefix_of` regs' -> served regs' l r w.
Proof.
  intros (H1 & H2 & H3) Hp. split_and!; intros; (eapply armed_mono; [by auto|done|apply extends_refl]).
Qed.

Lemma get_watch_configs_spec b m : forall regs x,
  Forall (fun kw => range_fits kw.1) m ->
  get_watch_configs regs b m = Ok x ->
  regs `prefix_of` x.1
  /\ Forall2 (fun kw kw' => exists l, kw' = (kw.1, match l with Some l => set_regs l kw.2 | None => kw.2 end)
                 /\ bool_decide (is_Some l) = b /\ served x.1 l kw.1 kw.2) m x.2.
Proof.
  induction m as [|[r w] m IH]; intros regs x Hf Hx; cbn [get_watch_configs] in Hx.
  - injection Hx as <-. by split.
  - apply Forall_cons in Hf as [Hr Hf]. simpl in Hr. apply bind_Ok in Hx as (y & Hy & Hx).
    apply bind_Ok in Hx as (z & Hz & Hx). apply bind_Ok in Hx as (v & Hv & Hx). injection Hx as <-.
    destruct (IH _ _ Hf Hv) as [Hpre Hall]. simpl.
    set (asg := if b then Some [] else None) in *.
    assert (regs `prefix_of` y.1 /\ extends asg y.2
      /\ (has_bits (watched_bits w) EXEC_BIT = true -> armed y.1 y.2 WatchExec r)) as (Hp1 & He1 & Ha1).
    { destruct (has_bits (watched_bits w) EXEC_BIT).
      - destruct (configure_armed _ _ _ _ _ Hr Hy) as (? & ? & ?). done.
      - injection Hy as <-. split_and!; try done. apply extends_refl. }
    assert (y.1 `prefix_of` z.1 /\ extends y.2 z.2
      /\ (has_bits (watched_bits w) READ_BIT = true -> armed z.1 z.2 WatchReadWrite r)
      /\ (has_bits (watched_bits w) READ_BIT = false -> has_bits (watched_bits w) WRITE_BIT = true ->
          armed z.1 None WatchWrite r)) as (Hp2 & He2 & Ha2 & Ha3).
    { destruct (has_bits (watched_bits w) READ_BIT).
      - destruct (configure_armed _ _ _ _ _ Hr Hz) as (? & ? & ?). done.
      - destruct (has_bits (watched_bits w) WRITE_BIT).
        + apply bind_Ok in Hz as (c & Hc & Hz). injection Hz as <-.
          destruct (configure_armed _ _ _ _ _ Hr Hc) as (Ha & ? & ?). simpl in *.
          split_and!; try done; [apply extends_refl|]. intros _ _. by destruct c as [? [|]].
        + injection Hz as <-. split_and!; try done. apply extends_refl. }
    split; [by etrans; [|etrans]|]. constructor; [|done]. exists z.2. split_and!.
    + done.
    + destruct b, y.2, z.2; simpl in *; done.
    + apply (served_mono z.1); [|done]. split_and!; try done.
      intros Hx. by eapply armed_mono; [apply Ha1| |].
Qed.

(** C29: [split_range] returns aligned pieces of 1, 2, 4 or 8 bytes that follow
    each other from the start to the end of the range, and no list of such pieces
    that does so is shorter: the fewest debug registers are used. *)
Theorem split_range_optimal s e : 0 <= s <= e -> e < USIZE ->
  exists ps, split_range (mkRange s e) = Ok ps /\ tiles s e ps /\ Forall piece_ok ps
    /\ forall qs, tiles s e qs -> Forall piece_ok qs -> (length ps <= length qs)%nat.
Proof.
  intros Hr He. destruct (split_range_spec s e Hr He) as (ps & ? & [? ?] & Hmin).
  exists ps. split_and!; try done. intros qs ? ?. by apply Hmin.
Qed.

Lemma split_range_optimal_witness :
  exists ps, split_range (mkRange 4099 4115) = Ok ps /\ tiles 4099 4115 ps /\ Forall piece_ok ps
    /\ forall qs, tiles 4099 4115 qs -> Forall piece_ok qs -> (length ps <= length qs)%nat.
Proof. apply (split_range_optimal 4099 4115); lia. Defined.

(** C30: when [allocate_watchpoints] succeeds, every task accepted the registers,
    and every byte of every watchpoint is watched by a register of the kind asked
    for, whose number the watchpoint keeps if it is for execution or reads. When it
    fails no register is set and the watchpoints keep no register number. *)
Theorem allocate_watchpoints_armed set_debug_regs m ok regs m' :
  Forall (fun kw => range_fits kw.1) m ->
  allocate_watchpoints set_debug_regs m = Ok (ok, regs, m') ->
  if ok then
    (length regs <= 127)%nat /\ set_debug_regs regs = true
    /\ Forall2 (fun kw kw' => exists l, kw' = (kw.1, set_regs l kw.2) /\ served regs (Some l) kw.1 kw.2) m m'
  else
    regs = [] /\ Forall2 (fun kw kw' => kw' = (kw.1, set_regs [] kw.2)) m m'.
Proof.
  intros Hf Hx. unfold allocate_watchpoints in Hx. apply bind_Ok in Hx as (x & Hx & He).
  apply get_watch_configs_spec in Hx as [_ Hall]; [|done].
  assert (Forall2 (fun kw kw' => exists l, kw' = (kw.1, set_regs l kw.2) /\ served x.1 (Some l) kw.1 kw.2) m x.2) as Hall'.
  { eapply Forall2_impl; [exact Hall|]. intros kw kw' ([l|] & -> & Hb & Hs); [by exists l|by case_bool_decide]. }
  destruct ((length x.1 <=? 127)%nat && set_debug_regs x.1) eqn:E.
  - injection He as <- <- <-. apply andb_true_iff in E as [E1%Nat.leb_le E2]. done.
  - injection He as <- <- <-. split; [done|]. clear -Hall'.
    induction Hall' as [|kw kw' m m' (l & -> & _) _ IH]; simpl; constructor; done.
Qed.

Definition wpage : Watchpoint := set_counts 1 0 1 (new 12).
Definition all_ok (_ : list WatchConfig) : bool := true.

Lemma allocate_watchpoints_armed_witness :
  exists regs m',
  (length regs <= 127)%nat /\ all_ok regs = true
  /\ Forall2 (fun kw kw' => exists l, kw' = (kw.1, set_regs l kw.2) /\ served regs (Some l) kw.1 kw.2)
       [(mkRange 4099 4111, wpage)] m'.
Proof.
  eexists _, _. eapply (allocate_watchpoints_armed all_ok [(mkRange 4099 4111, wpage)] true).
  - repeat constructor; simpl; lia.
  - vm_compute. reflexivity.
Defined.

Lemma tiling_length s e ps : tiling s e ps -> e - s <= 8 * Z.of_nat (length ps).
Proof.
  intros [Ht Hf]. revert s Ht. induction Hf as [|p ps (k & Hk & He & _) _ IH]; simpl; intros s; [lia|].
  intros [<- Ht%IH]. lia.
Qed.

(** A watchpoint for execution or reads on more than 2048 bytes needs more
    than 256 registers: configuring them for the tasks panics in the conversion
    of the register number to a byte, before [allocate_watchpoints] can see that
    there are too many registers and fail. *)
Theorem wide_watchpoint_panics s e ty : 0 <= s -> s + 2048 < e -> e + 8 <= USIZE -> ty <> WatchWrite ->
  configure_watch_registers [] (mkRange s e) ty (Some []) = Panic.
Proof.
  intros H0 Hw He Hty. destruct (choose_split_spec s e ty ltac:(lia) He) as (ps & lo & hi & Hps & Ht & _ & _ & Heq & _).
  destruct (Heq Hty) as [-> ->]. apply tiling_length in Ht. unfold configure_watch_registers. rewrite Hps.
  cbn [mbind res_bind]. clear -Ht Hw.
  assert (forall ps regs l, 256 < Z.of_nat (length regs + length ps) -> (length regs <= 256)%nat -> push_regs regs ps ty (Some l) = Panic) as Hp.
  { clear. induction ps as [|p ps IH]; intros regs l Hl Hb; simpl in Hl; [lia|]. cbn [push_regs].
    destruct (Z.ltb_spec (Z.of_nat (length regs)) 256); [|done]. cbn [mbind res_bind].
    apply IH; rewrite length_app; simpl; lia. }
  apply Hp; simpl; lia.
Qed.

Lemma wide_watchpoint_panics_witness :
  configure_watch_registers [] (mkRange 4096 8192) WatchReadWrite (Some []) = Panic.
Proof. apply (wide_watchpoint_panics 4096 8192 WatchReadWrite); done. Defined.

(** Removing a watch undoes adding it: the counts return to what they were
    and the number of watches left is theirs; while it is there the bits of its
    kind are watched. *)
Theorem watch_unwatch_roundtrip which p p' :
  0 <= exec_count p -> 0 <= read_count p -> 0 <= write_count p ->
  exec_count p + read_count p + write_count p < 4294967296 ->
  watch which p = Ok p' ->
  unwatch which p' = Ok (exec_count p + read_count p + write_count p, p)
  /\ (forall bit, bit = EXEC_BIT \/ bit = READ_BIT \/ bit = WRITE_BIT ->
        has_bits which bit = true -> has_bits (watched_bits p') bit = true).
Proof.
  intros He Hr Hw Hs Hp. unfold watch in Hp. apply bind_Ok in Hp as (e & Hpe & Hp).
  apply bind_Ok in Hp as (r & Hpr & Hp). apply bind_Ok in Hp as (w & Hpw & Hp). injection Hp as <-.
  assert (forall b n n', 0 <= n -> u32_incr b n = Ok n' -> u32_decr b n' = Ok n /\ (b = true -> 0 < n') /\ 0 <= n') as Hinv.
  { intros b n n' Hn. unfold u32_incr, u32_decr. destruct b; [|naive_solver].
    destruct (_ <? _); [|done]. intros [= <-]. destruct (Z.ltb_spec 0 (n + 1)); [|lia].
    split_and!; [f_equal|..]; lia. }
  apply Hinv in Hpe as (He' & Hbe & _); [|done]. apply Hinv in Hpr as (Hr' & Hbr & _); [|done].
  apply Hinv in Hpw as (Hw' & Hbw & _); [|done]. split.
  - unfold unwatch. simpl. rewrite He', Hr', Hw'. cbn [mbind res_bind].
    destruct (Z.ltb_spec (exec_count p + read_count p + write_count p) 4294967296); [|lia].
    by destruct p.
  - unfold watched_bits. cbn [exec_count read_count write_count set_counts].
    intros bit [->|[->| ->]] Hbit; [specialize (Hbe Hbit)|specialize (Hbr Hbit)|specialize (Hbw Hbit)];
      destruct (Z.ltb_spec 0 e), (Z.ltb_spec 0 r), (Z.ltb_spec 0 w); (reflexivity || lia).
Qed.

Lemma watch_unwatch_roundtrip_witness :
  unwatch READ_WRITE_BITS (set_counts 0 1 1 (new 4)) = Ok (0, new 4)
  /\ (forall bit, bit = EXEC_BIT \/ bit = READ_BIT \/ bit = WRITE_BIT ->
        has_bits READ_WRITE_BITS bit = true -> has_bits (watched_bits (set_counts 0 1 1 (new 4))) bit = true).
Proof. apply (watch_unwatch_roundtrip READ_WRITE_BITS (new 4)); done. Defined.

End WatchProofs.
