(* ===== verification/WatchMemory.v ===== *)
(** Re-reading watched memory: what the stored bytes are, when a change is
    reported, and that the watchpoint map keeps its keys. *)

From S2P Require Import Prelude MemoryRange Watchpoints.

Module WatchMem.
Import Range Watch.

Section Read.
Context `{PageSize}.

(** The memory of the tracee: the byte at an address, where there is one;
    memory is there by whole pages. *)
Context (memory : Z -> option Z) (read : Z -> Z -> option (list Z)).

(** [read_bytes_fallible] returns bytes from the address on, no more than asked
    for, and reads at least one byte where there is memory. *)
Record reads_memory : Prop := {
  read_pages : forall a b, floor_page_size a = floor_page_size b -> memory a = None -> memory b = None;
  read_fails : forall a n, 0 < n -> (read a n = None \/ read a n = Some []) -> memory a = None;
  read_bytes : forall a n bytes, 0 < n -> read a n = Some bytes ->
    Z.of_nat (length bytes) <= n /\ forall i b, bytes !! i = Some b -> memory (a + Z.of_nat i) = Some b
}.

(** The byte a watchpoint keeps for an address. *)
Definition seen (a : Z) : Z := from_option id 255 (memory a).
Definition mapped (a : Z) : bool := match memory a with Some _ => true | None => false end.

(** The page step taken after a failed read. *)
Lemma page_step a : 0 <= a < USIZE ->
  ptr_diff (ptr_add (floor_page_size a) page_size) a = floor_page_size a + page_size - a.
Proof.
  intros Ha. pose proof (floor_page_spec a) as [_ ?]. pose proof page_size_pos.
  assert (page_size < USIZE).
  { unfold page_size. pose proof page_shift_range. apply (Z.pow_lt_mono_r 2 page_shift 64); lia. }
  unfold ptr_diff, ptr_add, wrap. rewrite Zminus_mod_idemp_l. apply Z.mod_small. lia.
Qed.

Lemma floor_page_same a b : floor_page_size a <= b < floor_page_size a + page_size -> floor_page_size b = floor_page_size a.
Proof.
  intros Hb. pose proof (floor_page_spec a) as [[x Ex] ?]. pose proof (floor_page_spec b) as [[y Ey] ?].
  pose proof page_size_pos. rewrite Ex, Ey in *. f_equal. nia.
Qed.

(** The buffer when [k] bytes have been read. *)
Definition filled (s k : Z) (len : nat) : list Z :=
  (seen <$> seqZ s k) ++ replicate (len - Z.to_nat k) 255.

Lemma length_filled s k len : (Z.to_nat k <= len)%nat -> length (filled s k len) = len.
Proof. intros. unfold filled. rewrite length_app, length_fmap, length_seqZ, length_replicate. lia. Qed.

(** Bytes read at the end of what is filled. *)
Lemma splice_filled s k len bytes :
  0 <= k -> (Z.to_nat k + length bytes <= len)%nat ->
  (forall i b, bytes !! i = Some b -> seen (s + k + Z.of_nat i) = b) ->
  splice (filled s k len) (Z.to_nat k) bytes = filled s (k + Z.of_nat (length bytes)) len.
Proof.
  intros Hk Hlen Hb. unfold splice, filled.
  rewrite seqZ_app by lia. rewrite fmap_app, <- app_assoc.
  rewrite take_app_length' by (by rewrite length_fmap, length_seqZ). f_equal.
  rewrite drop_app_ge, length_fmap, length_seqZ by (rewrite length_fmap, length_seqZ; lia). f_equal.
  - apply list_eq. intros i. destruct (bytes !! i) as [b|] eqn:Ei.
    + pose proof (lookup_lt_Some _ _ _ Ei). symmetry. rewrite list_lookup_fmap, lookup_seqZ_lt by lia.
      simpl. f_equal. by apply Hb.
    + symmetry. apply lookup_ge_None in Ei. apply lookup_ge_None. rewrite length_fmap, length_seqZ. lia.
  - rewrite drop_replicate. f_equal. lia.
Qed.

(** Skipping bytes where there is no memory. *)
Lemma skip_filled s k len n : 0 <= k -> 0 <= n -> (Z.to_nat (k + n) <= len)%nat ->
  (forall a, s + k <= a < s + k + n -> memory a = None) -> filled s (k + n) len = filled s k len.
Proof.
  intros Hk Hn Hlen Hm. unfold filled. rewrite seqZ_app by lia. rewrite fmap_app, <- app_assoc. f_equal.
  replace (len - Z.to_nat k)%nat with (Z.to_nat n + (len - Z.to_nat (k + n)))%nat by lia.
  rewrite replicate_add. f_equal. apply list_eq. intros i.
  destruct (seqZ (s + k) n !! i) as [a|] eqn:Ei.
  - rewrite list_lookup_fmap, Ei. simpl. apply lookup_seqZ in Ei as [-> Hi].
    unfold seen. rewrite Hm by lia. symmetry. apply lookup_replicate_2. lia.
  - rewrite list_lookup_fmap, Ei. simpl. symmetry. apply lookup_ge_None in Ei. apply lookup_ge_None.
    rewrite length_seqZ in Ei. by rewrite length_replicate.
Qed.

Lemma forallb_seqZ_app s n k : 0 <= n -> 0 <= k ->
  forallb mapped (seqZ s (n + k)) = forallb mapped (seqZ s n) && forallb mapped (seqZ (s + n) k).
Proof. intros. by rewrite seqZ_app, forallb_app by lia. Qed.

Lemma unmapped_seqZ s n : 0 < n -> memory s = None -> forallb mapped (seqZ s n) = false.
Proof. intros Hn Hm. rewrite seqZ_cons by done. simpl. unfold mapped at 1. by rewrite Hm. Qed.

Lemma mapped_seqZ s n : (forall a, s <= a < s + n -> exists b, memory a = Some b) -> forallb mapped (seqZ s n) = true.
Proof.
  intros Hm. apply forallb_forall. intros a Ha. apply list_elem_of_In, elem_of_seqZ in Ha.
  destruct (Hm a Ha) as [b Hb]. unfold mapped. by rewrite Hb.
Qed.

(** The rest of a page without memory. *)
Lemma page_unmapped a n b : reads_memory -> memory a = None -> 0 <= a ->
  n <= floor_page_size a + page_size - a -> a <= b < a + n -> memory b = None.
Proof.
  intros Hr Ha H0 Hn Hb. pose proof (floor_page_spec a) as [_ ?].
  apply (read_pages Hr a); [|done]. symmetry. apply floor_page_same. lia.
Qed.

(** The loop fills the buffer with the memory it can see, and remembers whether
    all of it was there. *)
Lemma read_loop_spec s len (Hr : reads_memory) : 0 <= s -> forall fuel k n v,
  0 <= k -> 0 <= n -> s + k + n < USIZE -> (Z.to_nat (k + n) <= len)%nat -> n < Z.of_nat fuel ->
  read_loop fuel read s (s + k) n (filled s k len) v
  = Ok (filled s (k + n) len, v && forallb mapped (seqZ (s + k) n)).
Proof.
  intros Hs. induction fuel as [|fuel IH]; intros k n v Hk Hn Hb Hlen Hf; [lia|]. cbn [read_loop].
  destruct (Z.ltb_spec 0 n) as [Hpos|].
  2: { assert (n = 0) as -> by lia. rewrite Z.add_0_r. simpl. by rewrite andb_true_r. }
  rewrite length_filled by lia. rewrite (proj2 (Z.leb_le _ _)) by lia. cbn [assert_ mbind res_bind].
  rewrite page_step by lia. replace (s + k - s) with k by lia.
  set (n' := Z.min n (floor_page_size (s + k) + page_size - (s + k))).
  assert (memory (s + k) = None ->
    read_loop fuel read s (ptr_add (s + k) n') (n - n') (filled s k len) false
    = Ok (filled s (k + n) len, v && forallb mapped (seqZ (s + k) n))) as Hfail.
  { intros Hm. pose proof (floor_page_spec (s + k)) as [_ ?].
    rewrite ptr_add_small, <- Z.add_assoc by lia.
    rewrite <- (skip_filled s k len n') by first [lia|intros; eapply (page_unmapped (s + k) n'); try done; lia].
    rewrite IH by lia. do 2 f_equal; [f_equal; lia|].
    rewrite (unmapped_seqZ (s + k)) by done. by rewrite andb_false_r. }
  destruct (read (s + k) n) as [[|b bytes]|] eqn:Er.
  - apply Hfail. apply (read_fails Hr _ n); [done|by right].
  - destruct (read_bytes Hr _ _ _ Hpos Er) as [Hle Hbytes]. clear Hfail. cbv zeta.
    set (bs := b :: bytes) in *. assert (0 < Z.of_nat (length bs)) by (simpl; lia).
    rewrite splice_filled; [|done|lia|].
    2: { intros i x Hx. unfold seen. by rewrite (Hbytes _ _ Hx). }
    rewrite ptr_add_small, <- Z.add_assoc by lia. rewrite IH by lia. do 2 f_equal; [f_equal; lia|].
    replace n with (Z.of_nat (length bs) + (n - Z.of_nat (length bs))) at 2 by lia.
    rewrite forallb_seqZ_app by lia. rewrite (mapped_seqZ (s + k) (Z.of_nat (length bs))).
    + simpl. by rewrite Z.add_assoc.
    + intros a Ha. destruct (lookup_lt_is_Some_2 bs (Z.to_nat (a - (s + k)))) as [x Hx]; [lia|].
      exists x. rewrite <- (Hbytes _ _ Hx). f_equal. lia.
  - apply Hfail. apply (read_fails Hr _ n); [done|by left].
Qed.

(** ** The watchpoint map *)

Definition wm_ok (m : WatchMap) : Prop := NoDup m.*1.

Lemma wm_middle l1 k w w' l2 : wm_ok (l1 ++ (k, w) :: l2) ->
  wm_get k (l1 ++ (k, w) :: l2) = Some w
  /\ wm_insert k w' (l1 ++ (k, w) :: l2) = l1 ++ (k, w') :: l2.
Proof.
  unfold wm_ok. induction l1 as [|[k1 w1] l1 IH]; simpl; intros Hm.
  - by destruct (decide (k = k)).
  - apply NoDup_cons in Hm as [Hni Hm]. destruct (decide (k = k1)) as [->|].
    { destruct Hni. rewrite fmap_app, fmap_cons. apply elem_of_app. right. left. }
    by destruct (IH Hm) as [-> ->].
Qed.

Record wp_ok (kw : MemoryRange * Watchpoint) : Prop := {
  wp_range : 0 <= start_ kw.1 <= end_ kw.1 /\ end_ kw.1 < USIZE;
  wp_buffer : (Z.to_nat (end_ kw.1 - start_ kw.1) <= length (value_bytes kw.2))%nat
}.

(** What the watchpoint holds once its memory has been read again. *)
Definition observed (kw : MemoryRange * Watchpoint) : list Z :=
  filled (start_ kw.1) (end_ kw.1 - start_ kw.1) (length (value_bytes kw.2)).
Definition all_there (k : MemoryRange) : bool := forallb mapped (seqZ (start_ k) (end_ k - start_ k)).
Definition differs (kw : MemoryRange * Watchpoint) : bool :=
  negb (Bool.eqb (all_there kw.1) (valid kw.2)) || negb (bool_decide (observed kw = value_bytes kw.2)).
Definition refresh (mark : bool) (kw : MemoryRange * Watchpoint) : MemoryRange * Watchpoint :=
  let w := set_value (observed kw) (all_there kw.1) kw.2 in
  (kw.1, if mark && differs kw then set_changed true w else w).

Lemma update_value_spec (Hr : reads_memory) l1 kw l2 mark :
  wm_ok (l1 ++ kw :: l2) -> wp_ok kw ->
  update_watchpoint_value (Some read) (l1 ++ kw :: l2) kw.1 mark
  = Ok (differs kw, l1 ++ refresh mark kw :: l2).
Proof.
  destruct kw as [k w]. intros Hm [[Hk Hb] Hlen]. simpl in Hk, Hb, Hlen. unfold update_watchpoint_value. cbn [fst].
  destruct (wm_middle l1 k w w l2 Hm) as [-> _]. cbn [unwrap mbind res_bind].
  unfold size. rewrite ptr_diff_small by lia.
  replace (replicate (length (value_bytes w)) 255) with (filled (start_ k) 0 (length (value_bytes w))).
  2: { unfold filled. simpl. f_equal. lia. }
  replace (start_ k) with (start_ k + 0) at 3 by lia.
  rewrite read_loop_spec by (done || lia). cbn [mbind res_bind fst snd andb]. rewrite Z.add_0_l, Z.add_0_r.
  do 2 f_equal. by apply (wm_middle l1 k w _ l2 Hm).
Qed.

Definition touch (r : MemoryRange) (kw : MemoryRange * Watchpoint) : MemoryRange * Watchpoint :=
  if intersects kw.1 r then refresh true kw else kw.

Lemma touch_key r kw : (touch r kw).1 = kw.1.
Proof. unfold touch. by destruct (intersects kw.1 r). Qed.

Lemma wm_ok_keys (m m' : WatchMap) : m.*1 = m'.*1 -> wm_ok m -> wm_ok m'.
Proof. unfold wm_ok. by intros ->. Qed.

Lemma update_all_spec (Hr : reads_memory) r l2 : forall l1,
  wm_ok (l1 ++ l2) -> Forall wp_ok l2 ->
  update_all (Some read) (l1 ++ l2) (List.filter (fun k => intersects k r) (List.map fst l2))
  = Ok (l1 ++ (touch r <$> l2)).
Proof.
  induction l2 as [|kw l2 IH]; intros l1 Hm Hf; simpl; [done|].
  apply Forall_cons in Hf as [Hk Hf]. unfold touch at 1. destruct (intersects kw.1 r) eqn:Ei.
  - cbn [update_all]. rewrite update_value_spec by done. cbn [mbind res_bind snd].
    rewrite !cons_middle, !app_assoc in *. apply IH; [|done].
    revert Hm. apply wm_ok_keys. by rewrite !fmap_app.
  - rewrite !cons_middle, !app_assoc in *. by apply IH.
Qed.

Lemma update_values_spec (Hr : reads_memory) m s e : wm_ok m -> Forall wp_ok m -> s <= e ->
  update_watchpoint_values (Some read) m s e = Ok (touch (mkRange s e) <$> m).
Proof.
  intros Hm Hf Hse. unfold update_watchpoint_values, from_range. rewrite (proj2 (Z.leb_le s e)) by done.
  cbn [assert_ mbind res_bind]. by apply (update_all_spec Hr _ m []).
Qed.

Lemma refresh_stable mark kw : wp_ok kw -> differs (refresh mark kw) = false.
Proof.
  intros [[Hr _] Hl]. assert (length (observed kw) = length (value_bytes kw.2)) as El by (by apply length_filled).
  unfold differs, refresh. destruct (mark && _); simpl; rewrite Bool.eqb_reflx; simpl;
    rewrite bool_decide_eq_true_2; try done; unfold observed at 1; simpl; by rewrite El.
Qed.

(** ** [notify_watchpoint_fired] *)

(** A debug register of the watchpoint is set in the status. *)
Definition status_hits (debug_status : Z) (w : Watchpoint) : bool :=
  existsb (fun n => Z.testbit debug_status n) (debug_regs_for_exec_read w).

Definition regs_ok (w : Watchpoint) : Prop := Forall (fun n => 0 <= n < 32) (debug_regs_for_exec_read w).

Lemma land_bit d n : 0 <= n -> (Z.land d (Z.shiftl 1 n) =? Z.shiftl 1 n) = Z.testbit d n.
Proof.
  intros Hn. rewrite Z.shiftl_1_l. destruct (Z.testbit d n) eqn:E.
  - apply Z.eqb_eq, Z.bits_inj'. intros i Hi. rewrite Z.land_spec, Z.pow2_bits_eqb by lia.
    destruct (Z.eqb_spec n i) as [<-|]; [by rewrite E|by rewrite andb_false_r].
  - apply Z.eqb_neq. intros Heq. apply (f_equal (fun z => Z.testbit z n)) in Heq.
    rewrite Z.land_spec, E, Z.pow2_bits_true in Heq by done. done.
Qed.

Lemma triggered_spec d w : regs_ok w -> watchpoint_triggered d (debug_regs_for_exec_read w) = Ok (status_hits d w).
Proof.
  unfold regs_ok, status_hits. induction 1 as [|n l Hn Hl IH]; simpl; [done|].
  unfold dr_watchpoint. rewrite (proj2 (Z.ltb_lt n 32)) by lia. simpl. rewrite land_bit by lia.
  by destruct (Z.testbit d n).
Qed.

(** The watchpoint fires for a read, or for execution where the last step
    started. *)
Definition hw_fires (d start : Z) (kw : MemoryRange * Watchpoint) : bool :=
  status_hits d kw.2
  && (has_bits (watched_bits kw.2) READ_BIT
      || has_bits (watched_bits kw.2) EXEC_BIT && ((start =? 0) || (start_ kw.1 =? start))).

Lemma fired_spec d start kw : regs_ok kw.2 -> fired d start kw.1 kw.2 = Ok (hw_fires d start kw).
Proof.
  intros Hr. unfold fired, hw_fires. rewrite triggered_spec by done.
  destruct (has_bits (watched_bits kw.2) READ_BIT), (has_bits (watched_bits kw.2) EXEC_BIT),
    (start =? 0), (start_ kw.1 =? start), (status_hits d kw.2); done.
Qed.

Definition hw_mark (d start : Z) (kw : MemoryRange * Watchpoint) : MemoryRange * Watchpoint :=
  (kw.1, if hw_fires d start kw then set_changed true kw.2 else kw.2).

Lemma mark_fired_spec d start m : Forall (fun kw => regs_ok kw.2) m ->
  mark_fired d start m = Ok (existsb (hw_fires d start) m, hw_mark d start <$> m).
Proof.
  induction 1 as [|[k w] m Hk Hm IH]; simpl; [done|].
  pose proof (fired_spec d start (k, w) Hk) as E. simpl in E. rewrite E. simpl. by rewrite IH.
Qed.

Definition written (kw : MemoryRange * Watchpoint) : bool := has_bits (watched_bits kw.2) WRITE_BIT.

Lemma update_written_spec (Hr : reads_memory) l2 : forall l1 t,
  wm_ok (l1 ++ l2) -> Forall wp_ok l2 ->
  update_written (Some read) (l1 ++ l2) (List.map fst (List.filter written l2)) t
  = Ok (t || existsb (fun kw => written kw && differs kw) l2,
        l1 ++ ((fun kw => if written kw then refresh true kw else kw) <$> l2)).
Proof.
  induction l2 as [|kw l2 IH]; intros l1 t Hm Hf; simpl; [by rewrite orb_false_r|].
  apply Forall_cons in Hf as [Hk Hf]. destruct (written kw) eqn:Ei.
  - cbn [List.map update_written]. rewrite update_value_spec by done. cbn [mbind res_bind fst snd].
    rewrite !cons_middle, !app_assoc in *. rewrite IH; [|revert Hm; apply wm_ok_keys; by rewrite !fmap_app|done].
    do 2 f_equal. simpl. by destruct (differs kw), t.
  - rewrite !cons_middle, !app_assoc in *. by rewrite IH.
Qed.

End Read.
(** ** Theorems *)

Lemma observed_refresh `{PageSize} memory mark kw : wp_ok kw ->
  observed memory (refresh memory mark kw) = observed memory kw.
Proof.
  intros [[Hr _] Hl]. unfold refresh. destruct (mark && _); simpl; unfold observed; simpl;
    by rewrite length_filled.
Qed.

Lemma wp_ok_touch `{PageSize} memory r kw : wp_ok kw -> wp_ok (touch memory r kw).
Proof.
  intros [Hk Hl]. split; [by rewrite touch_key|]. rewrite touch_key. unfold touch, refresh.
  destruct (intersects _ _); [|done]. destruct (true && _); simpl; unfold observed; by rewrite length_filled.
Qed.

Lemma refresh_idemp `{PageSize} memory kw : wp_ok kw ->
  refresh memory true (refresh memory true kw) = refresh memory true kw.
Proof.
  intros Hk. pose proof (refresh_stable memory true kw Hk) as Hd. pose proof (observed_refresh memory true kw Hk) as Ho.
  unfold refresh at 1. rewrite Hd, Ho. simpl. unfold refresh. simpl. by destruct (differs memory kw).
Qed.

(** When the memory of a range changes, the watchpoints that meet it are read
    again: their bytes are the memory there is, with 0xFF where there is none,
    they are valid when all of it is there, and they are marked changed when bytes
    or validity differ from those kept; the other watchpoints stay, and reading
    again finds no further change. *)
Theorem update_watchpoint_values_sees `{PageSize} memory read m s e :
  reads_memory memory read -> wm_ok m -> Forall wp_ok m -> s <= e ->
  exists m', update_watchpoint_values (Some read) m s e = Ok m'
    /\ update_watchpoint_values (Some read) m' s e = Ok m'
    /\ Forall2 (fun kw kw' => kw'.1 = kw.1 /\
         if intersects kw.1 (mkRange s e) then
           value_bytes kw'.2 = observed memory kw /\ valid kw'.2 = all_there memory kw.1
           /\ changed kw'.2 = changed kw.2 || differs memory kw
         else kw' = kw) m m'.
Proof.
  intros Hr Hm Hf Hse. exists (touch memory (mkRange s e) <$> m). split; [by apply update_values_spec|]. split.
  - rewrite (update_values_spec memory read Hr); [| | |done].
    + f_equal. rewrite <- list_fmap_compose. apply list_fmap_ext. intros i kw Hi. simpl.
      apply (Forall_lookup_1 _ _ _ _ Hf) in Hi. unfold touch at 1. rewrite touch_key.
      destruct (intersects kw.1 (mkRange s e)) eqn:Ei; [|done]. unfold touch. rewrite Ei. by apply refresh_idemp.
    + revert Hm. apply wm_ok_keys. rewrite <- list_fmap_compose. apply list_fmap_ext. intros. symmetry. apply touch_key.
    + apply Forall_fmap, (Forall_impl _ _ _ Hf). intros kw. apply wp_ok_touch.
  - clear Hm. induction Hf as [|kw m Hk Hf IH]; constructor; [|done]. split; [apply touch_key|].
    unfold touch. destruct (intersects _ _); [|done]. unfold refresh. simpl.
    destruct (differs memory kw); simpl; by rewrite ?orb_true_r, ?orb_false_r.
Qed.

(** What a status and the memory leave of a watchpoint. *)
Definition after_notify (memory : Z -> option Z) (d start : Z) (kw kw' : MemoryRange * Watchpoint) : Prop :=
  kw'.1 = kw.1 /\
  changed kw'.2 = changed kw.2 || hw_fires d start kw || written kw && differs memory kw /\
  (if written kw then value_bytes kw'.2 = observed memory kw /\ valid kw'.2 = all_there memory kw.1
   else value_bytes kw'.2 = value_bytes kw.2 /\ valid kw'.2 = valid kw.2) /\
  exec_count kw'.2 = exec_count kw.2 /\ read_count kw'.2 = read_count kw.2 /\ write_count kw'.2 = write_count kw.2 /\
  debug_regs_for_exec_read kw'.2 = debug_regs_for_exec_read kw.2.

Lemma notified memory d start kw : after_notify memory d start kw
  (if written (hw_mark d start kw) then refresh memory true (hw_mark d start kw) else hw_mark d start kw).
Proof.
  destruct kw as [k w]. unfold after_notify, hw_mark, written, refresh, differs, observed. cbn [fst snd].
  destruct (hw_fires d start (k, w)); cbn [fst snd andb orb]; rewrite ?orb_true_r, ?orb_false_r.
  - change (watched_bits (set_changed true w)) with (watched_bits w). destruct (has_bits (watched_bits w) WRITE_BIT); cbn [fst snd]; [|by splits].
    change (valid (set_changed true w)) with (valid w). change (value_bytes (set_changed true w)) with (value_bytes w). by destruct (_ || _); splits.
  - destruct (has_bits (watched_bits w) WRITE_BIT); cbn [fst snd andb]; rewrite ?orb_false_r; [|by splits].
    destruct (negb _ || _); splits; cbn; rewrite ?orb_true_r, ?orb_false_r; done.
Qed.

(** C31: [notify_watchpoint_fired] reports a hit exactly when a register of
    a read watchpoint is set in the status, one of an execution watchpoint at the
    address the step started at (if that is known), or the memory of a write
    watchpoint differs from what was kept.  Exactly the watchpoints for which
    that is so are marked as changed, besides those that were; write watchpoints
    keep the memory there is, and everything else of the watchpoints stays.
    Memory is read in pages that are there or not, and the watchpoints are
    well-formed: their ranges are distinct and do not wrap, they keep as many
    bytes as their ranges have ([wm_ok], [wp_ok]), and the numbers of their debug
    registers are below 32 ([regs_ok]). *)
Theorem notify_watchpoint_fired_reports `{PageSize} memory read d start m :
  reads_memory memory read -> wm_ok m -> Forall wp_ok m -> Forall (fun kw => regs_ok kw.2) m ->
  exists t m', notify_watchpoint_fired (Some read) d start m = Ok (t, m')
    /\ t = existsb (fun kw => hw_fires d start kw || written kw && differs memory kw) m
    /\ Forall2 (after_notify memory d start) m m'.
Proof.
  intros Hr Hm Hf Hregs. unfold notify_watchpoint_fired. rewrite mark_fired_spec by done. cbn [mbind res_bind fst snd].
  set (m1 := hw_mark d start <$> m).
  assert (m1.*1 = m.*1) as Hk1 by (unfold m1; rewrite <- list_fmap_compose; by apply list_fmap_ext).
  rewrite (update_written_spec memory read Hr m1 []).
  2: { revert Hm. by apply wm_ok_keys. }
  2: { unfold m1. apply Forall_fmap, (Forall_impl _ _ _ Hf). intros kw [? ?].
       split; [done|]. unfold hw_mark. simpl. by destruct (hw_fires d start kw). }
  eexists _, _. split; [done|]. split.
  - unfold m1. clear. induction m as [|kw m IH]; [done|]. rewrite fmap_cons. cbn [existsb]. rewrite <- IH.
    assert (written (hw_mark d start kw) && differs memory (hw_mark d start kw) = written kw && differs memory kw) as ->.
    { unfold hw_mark. destruct kw as [k w]. simpl. by destruct (hw_fires d start (k, w)). }
    destruct (hw_fires d start kw), (written kw && differs memory kw), (existsb (hw_fires d start) m); done.
  - cbn [app]. unfold m1. rewrite <- list_fmap_compose. apply Forall2_fmap_r, Forall_Forall2_diag, Forall_true. intros kw. apply notified.
Qed.

(** Consuming the changes returns the configurations of the changed
    watchpoints only, and leaves none changed and everything else as it was. *)
Theorem consume_watchpoint_changes_clears m :
  consume_watchpoint_changes m
  = (concat ((fun kw => configs_of kw.1 kw.2) <$> List.filter (fun kw => changed kw.2) m),
     (fun kw => (kw.1, set_changed false kw.2)) <$> m)
  /\ has_any_watchpoint_changes (consume_watchpoint_changes m).2 = false.
Proof.
  assert (consume_watchpoint_changes m
    = (concat ((fun kw => configs_of kw.1 kw.2) <$> List.filter (fun kw => changed kw.2) m),
     (fun kw => (kw.1, set_changed false kw.2)) <$> m)) as E.
  { unfold consume_watchpoint_changes. induction m as [|[k w] m IH]; [done|]. simpl. rewrite IH.
    destruct (changed w) eqn:Ec; [done|]. do 2 f_equal. f_equal. destruct w. simpl in *. by subst. }
  split; [done|]. rewrite E. simpl. unfold has_any_watchpoint_changes. clear. by induction m.
Qed.

(** *** One page of memory *)

Definition page_memory (a : Z) : option Z := if (4096 <=? a) && (a <? 8192) then Some (a mod 7) else None.
Definition page_read (a n : Z) : option (list Z) :=
  if (4096 <=? a) && (a <? 8192) then Some ((fun x => x mod 7) <$> seqZ a (Z.min n (8192 - a))) else None.

Lemma page_reads : reads_memory page_memory page_read.
Proof.
  split.
  - intros a b. rewrite !floor_page_mod. unfold page_memory. change page_size with 4096.
    destruct (Z.leb_spec 4096 a), (Z.ltb_spec a 8192), (Z.leb_spec 4096 b), (Z.ltb_spec b 8192);
      try done; intros E; zdiv_lia.
  - intros a n Hn. unfold page_read, page_memory.
    destruct (Z.leb_spec 4096 a), (Z.ltb_spec a 8192); try done. simpl.
    rewrite seqZ_cons by lia. intros [?|?]; done.
  - intros a n bytes Hn. unfold page_read, page_memory.
    destruct (Z.leb_spec 4096 a), (Z.ltb_spec a 8192); try done. intros [= <-].
    rewrite length_fmap, length_seqZ. split; [|intros i b].
    + lia.
    + rewrite list_lookup_fmap. intros (x & Hx & ->)%fmap_Some. apply lookup_seqZ in Hx as [-> Hi].
      rewrite (proj2 (Z.leb_le _ _)), (proj2 (Z.ltb_lt _ _)) by lia. done.
Qed.

(** A watchpoint at the end of the page, reaching outside it. *)
Definition page_watch : WatchMap :=
  [(mkRange 8190 8194, set_regs [0] (set_counts 0 1 0 (new 4)));
   (mkRange 8191 8192, set_counts 0 0 1 (new 1))].

Lemma page_watch_ok : wm_ok page_watch /\ Forall wp_ok page_watch /\ Forall (fun kw => regs_ok kw.2) page_watch.
Proof.
  split; [|split].
  - unfold wm_ok. simpl. repeat (apply NoDup_cons; split; [set_solver|]). constructor.
  - repeat constructor; simpl; lia.
  - repeat constructor; simpl; lia.
Qed.

Lemma update_watchpoint_values_sees_witness :
  exists m', update_watchpoint_values (Some page_read) page_watch 8192 12288 = Ok m'
    /\ update_watchpoint_values (Some page_read) m' 8192 12288 = Ok m'
    /\ Forall2 (fun kw kw' => kw'.1 = kw.1 /\
         if intersects kw.1 (mkRange 8192 12288) then
           value_bytes kw'.2 = observed page_memory kw /\ valid kw'.2 = all_there page_memory kw.1
           /\ changed kw'.2 = changed kw.2 || differs page_memory kw
         else kw' = kw) page_watch m'.
Proof.
  destruct page_watch_ok as (H1 & H2 & _).
  apply (update_watchpoint_values_sees page_memory page_read page_watch 8192 12288 page_reads H1 H2). lia.
Defined.

Lemma notify_watchpoint_fired_reports_witness :
  exists t m', notify_watchpoint_fired (Some page_read) 1 0 page_watch = Ok (t, m')
    /\ t = existsb (fun kw => hw_fires 1 0 kw || written kw && differs page_memory kw) page_watch
    /\ Forall2 (after_notify page_memory 1 0) page_watch m'.
Proof.
  destruct page_watch_ok as (H1 & H2 & H3).
  apply (notify_watchpoint_fired_reports page_memory page_read 1 0 page_watch page_reads H1 H2 H3).
Defined.

End WatchMem.
