(* ===== verification/AddressSpace.v ===== *)
(** The memory map of an address space: [AddressSpace] of
    [src/src/session/address_space.rs], its mapping, unmapping, protection,
    moving and coalescing operations. *)

From Stdlib Require Import Ascii String.
From S2P Require Import Prelude MemoryRange KernelMapping Watchpoints.

Module AddrSpace.
Import Range KMap.

(** ** The memory map

    [BTreeMap<MemoryRangeKey, Mapping>] as the list of its entries in key order.
    Keys that overlap compare equal. *)

Abbreviation Entry := (MemoryRange * Mapping)%type.
Abbreviation MemoryMap := (list (MemoryRange * Mapping)).

Fixpoint mem_get (k : MemoryRange) (l : MemoryMap) : option Mapping :=
  match l with
  | [] => None
  | (k', m) :: l' => match key_cmp k k' with Eq => Some m | _ => mem_get k l' end
  end.

(** [BTreeMap::insert]: an equal key keeps its place and gets the new value. *)
Fixpoint mem_insert (k : MemoryRange) (m : Mapping) (l : MemoryMap) : MemoryMap :=
  match l with
  | [] => [(k, m)]
  | (k', m') :: l' =>
      match key_cmp k k' with
      | Lt => (k, m) :: l
      | Eq => (k', m) :: l'
      | Gt => (k', m') :: mem_insert k m l'
      end
  end.

Fixpoint mem_remove (k : MemoryRange) (l : MemoryMap) : MemoryMap :=
  match l with
  | [] => []
  | (k', m) :: l' => match key_cmp k k' with Eq => l' | _ => (k', m) :: mem_remove k l' end
  end.

(** [range((Included(k), Unbounded))]. *)
Fixpoint mem_from (k : MemoryRange) (l : MemoryMap) : MemoryMap :=
  match l with
  | [] => []
  | (k', m) :: l' => match key_cmp k' k with Lt => mem_from k l' | _ => l end
  end.

(** [range((Unbounded, Included(k)))]. *)
Fixpoint mem_upto (k : MemoryRange) (l : MemoryMap) : MemoryMap :=
  match l with
  | [] => []
  | (k', m) :: l' => match key_cmp k' k with Gt => [] | _ => (k', m) :: mem_upto k l' end
  end.

(** ** The address space *)

Record AddressSpace := mkAS {
  mem : MemoryMap;
  monitored_mem : gset Z;
  dont_fork : list MemoryRange;
  watchpoints : list (MemoryRange * Watch.Watchpoint);
  brk_end : Z;
  vdso_start_addr : Z;
  (** the calls of munmap on rd's own memory, latest first *)
  local_munmaps : list (Z * Z)
}.

Definition set_mem (l : MemoryMap) (s : AddressSpace) : AddressSpace :=
  mkAS l (monitored_mem s) (dont_fork s) (watchpoints s) (brk_end s) (vdso_start_addr s) (local_munmaps s).
Definition set_monitored (x : gset Z) (s : AddressSpace) : AddressSpace :=
  mkAS (mem s) x (dont_fork s) (watchpoints s) (brk_end s) (vdso_start_addr s) (local_munmaps s).
Definition set_dont_fork (x : list MemoryRange) (s : AddressSpace) : AddressSpace :=
  mkAS (mem s) (monitored_mem s) x (watchpoints s) (brk_end s) (vdso_start_addr s) (local_munmaps s).
Definition set_watchpoints x (s : AddressSpace) : AddressSpace :=
  mkAS (mem s) (monitored_mem s) (dont_fork s) x (brk_end s) (vdso_start_addr s) (local_munmaps s).
Definition set_brk_end (x : Z) (s : AddressSpace) : AddressSpace :=
  mkAS (mem s) (monitored_mem s) (dont_fork s) (watchpoints s) x (vdso_start_addr s) (local_munmaps s).
Definition set_vdso (x : Z) (s : AddressSpace) : AddressSpace :=
  mkAS (mem s) (monitored_mem s) (dont_fork s) (watchpoints s) (brk_end s) x (local_munmaps s).
Definition log_munmap (x : Z * Z) (s : AddressSpace) : AddressSpace :=
  mkAS (mem s) (monitored_mem s) (dont_fork s) (watchpoints s) (brk_end s) (vdso_start_addr s)
    (x :: local_munmaps s).

Inductive IterateHow := IterateDefault | IterateContiguous.
#[global] Instance IterateHow_eq_dec : EqDecision IterateHow.
Proof. solve_decision. Defined.

Definition MADV_DONTFORK : Z := 10.
Definition MADV_DOFORK : Z := 11.

Section Ops.
Context `{PageSize}.
(** Reading tracee memory (for watchpoints), and unmapping memory of rd. *)
Context (reader : option (Z -> Z -> option (list Z))) (munmap : Z -> Z -> bool).

Definition remove_from_map (range : MemoryRange) (s : AddressSpace) : AddressSpace :=
  set_monitored (monitored_mem s ∖ {[start_ range]}) (set_mem (mem_remove range (mem s)) s).

Definition add_to_map (m : Mapping) (s : AddressSpace) : AddressSpace :=
  let s := match monitored_shared_memory m with
           | Some _ => set_monitored ({[km_start (map m)]} ∪ monitored_mem s) s
           | None => s
           end in
  set_mem (mem_insert (mr (map m)) m (mem s)) s.

(** [MonitoredSharedMemory::subrange] is not supported: it always panics. *)
Definition monitored_subrange (o : option Z) : res (option Z) :=
  match o with Some _ => Panic | None => Ok None end.

(** [mapping_of]. *)
Definition mapping_of (s : AddressSpace) (addr : Z) : option Mapping :=
  match mem_from (new_range addr 1) (mem s) with
  | (k, found) :: _ => if contains_ptr (mr (map found)) addr then mem_get k (mem s) else None
  | [] => None
  end.

(** [for_each_in_range]: the loop, with the start of the region and of the part
    still to be examined.  The callback also updates a value [x] of the caller. *)
Fixpoint for_each_loop {X} (fuel : nat)
    (f : MemoryRange -> MemoryRange -> X -> AddressSpace -> res (X * AddressSpace))
    (how : IterateHow) (region_start region_end last : Z) (x : X) (s : AddressSpace)
  : res (X * AddressSpace) :=
  match fuel with
  | O => Spin
  | S fuel' =>
      if last <? region_end then
        rem ← from_range last region_end;
        match mem_from (new_range (start_ rem) 1) (mem s) with
        | [] => Ok (x, s)
        | (range, _) :: _ =>
            if end_ rem <=? start_ range then Ok (x, s)
            else if bool_decide (how = IterateContiguous)
                    && negb ((start_ range <? region_start) || (start_ rem =? start_ range))
            then Ok (x, s)
            else
              r ← f range rem x s;
              for_each_loop fuel' f how region_start region_end (end_ range) r.1 r.2
        end
      else Ok (x, s)
  end.

(** Each turn passes one mapping of the map it started with. *)
Definition for_each_in_range {X} (addr num_bytes : Z)
    (f : MemoryRange -> MemoryRange -> X -> AddressSpace -> res (X * AddressSpace))
    (how : IterateHow) (x : X) (s : AddressSpace) : res (X * AddressSpace) :=
  let region_start := floor_page_size addr in
  region_end ← ceil_page_size (ptr_add addr num_bytes);
  for_each_loop (S (S (length (mem s)))) f how region_start region_end region_start x s.

(** A part of a mapping: [Mapping::new] on subranges, with the flags kept. *)
Definition part (m : Mapping) (start end_ : Z) (local monitored : option Z) : res Mapping :=
  k ← subrange (map m) start end_;
  r ← subrange (recorded_map m) start end_;
  Ok (with_flags (new_mapping k r (emu_file m) (mapped_file_stat m) local monitored) (mflags m)).

(** The part of [m] after [rem]. *)
Definition overflow_part (m : Mapping) (rem : MemoryRange) : res Mapping :=
  let new_local := (fun a => a + ptr_diff (end_ rem) (km_start (map m))) <$> local_addr m in
  new_monitored ← monitored_subrange (monitored_shared_memory m);
  part m (end_ rem) (km_end (map m)) new_local new_monitored.

(** The callback of [unmap_internal]. *)
Definition unmapper (m_key rem : MemoryRange) (s : AddressSpace) : res AddressSpace :=
  m ← unwrap (mem_get m_key (mem s));
  let s := remove_from_map (mr (map m)) s in
  s ← (if km_start (map m) <? start_ rem
       then u ← part m (km_start (map m)) (start_ rem) (local_addr m) (monitored_shared_memory m);
            Ok (add_to_map u s)
       else Ok s);
  s ← (if end_ rem <? km_end (map m)
       then o ← overflow_part m rem; Ok (add_to_map o s)
       else Ok s);
  match local_addr m with
  | None => Ok s
  | Some local =>
      let d := ptr_diff (start_ rem) (km_start (map m)) in
      sz ← checked_sub (km_size (map m)) d;
      let sz := Z.min (size rem) sz in
      if munmap (local + d) sz then Ok (log_munmap (local + d, sz) s) else Fatal
  end.

Definition update_watch (start end_ : Z) (s : AddressSpace) : res AddressSpace :=
  w ← Watch.update_watchpoint_values reader (watchpoints s) start end_;
  Ok (set_watchpoints w s).

Definition unmap_internal (addr num_bytes : Z) (s : AddressSpace) : res AddressSpace :=
  r ← for_each_in_range addr num_bytes (fun k rem _ s => s ← unmapper k rem s; Ok (tt, s))
        IterateDefault tt s;
  update_watch addr (ptr_add addr num_bytes) r.2.

Definition prot_contains (prot bits : Z) : bool := Z.land prot bits =? bits.

(** The callback of [protect]; also the key of the overlap it made. *)
Definition protector (prot : Z) (m_key rem : MemoryRange) (s : AddressSpace)
  : res (MemoryRange * AddressSpace) :=
  m ← unwrap (mem_get m_key (mem s));
  let s := remove_from_map (mr (map m)) s in
  let new_start :=
    if (km_start (map m) <? start_ rem) && prot_contains prot PROT_GROWSDOWN
    then km_start (map m) else start_ rem in
  s ← (if km_start (map m) <? new_start
       then k ← subrange (map m) (km_start (map m)) (start_ rem);
            r ← subrange (recorded_map m) (km_start (recorded_map m)) (start_ rem);
            Ok (add_to_map (with_flags (new_mapping k r (emu_file m) (mapped_file_stat m)
                              (local_addr m) (monitored_shared_memory m)) (mflags m)) s)
       else Ok s);
  let new_end := Z.min (end_ rem) (km_end (map m)) in
  let new_prot := Z.land prot (Z.lor PROT_READ (Z.lor PROT_WRITE PROT_EXEC)) in
  let new_local := (fun a => a + ptr_diff new_start (km_start (map m))) <$> local_addr m in
  new_monitored ← monitored_subrange (monitored_shared_memory m);
  k ← subrange (map m) new_start new_end;
  k ← set_prot k new_prot;
  r ← subrange (recorded_map m) new_start new_end;
  r ← set_prot r new_prot;
  let overlap := with_flags (new_mapping k r (emu_file m) (mapped_file_stat m) new_local new_monitored)
                   (mflags m) in
  let s := add_to_map overlap s in
  s ← (if end_ rem <? km_end (map m)
       then o ← overflow_part m rem; Ok (add_to_map o s)
       else Ok s);
  Ok (mr (map overlap), s).

(** *** Coalescing *)

Fixpoint coalesce_back (first : Entry) (prevs : list Entry) : res Entry :=
  match prevs with
  | [] => Ok first
  | p :: rest =>
      c ← is_coalescable p.2 first.2;
      if negb c then Ok first
      else _ ← assert_coalesceable p.2 first.2; coalesce_back p rest
  end.

Fixpoint coalesce_forward (last : Entry) (nexts : list Entry) : res Entry :=
  match nexts with
  | [] => Ok last
  | n :: rest =>
      c ← is_coalescable last.2 n.2;
      if negb c then Ok last
      else _ ← assert_coalesceable last.2 n.2; coalesce_forward n rest
  end.

Definition remove_keys (ks : list MemoryRange) (l : MemoryMap) : MemoryMap :=
  fold_left (fun l k => mem_remove k l) ks l.

Definition coalesce_around (key : MemoryRange) (s : AddressSpace) : res AddressSpace :=
  back ← unwrap (match rev (mem_upto key (mem s)) with [] => None | e :: es => Some (e, es) end);
  first_kv ← coalesce_back back.1 back.2;
  fwd ← unwrap (match mem_from key (mem s) with [] => None | e :: es => Some (e, es) end);
  last_kv ← coalesce_forward fwd.1 fwd.2;
  if match key_cmp first_kv.1 last_kv.1 with Eq => true | _ => false end then Ok s
  else
    k ← extend (map first_kv.2) (end_ last_kv.1);
    r ← extend (recorded_map first_kv.2) (end_ last_kv.1);
    let new_m := with_flags (new_mapping k r (emu_file first_kv.2) (mapped_file_stat first_kv.2)
                   (local_addr first_kv.2) (monitored_shared_memory first_kv.2)) (mflags first_kv.2) in
    let to_remove := fst <$> mem_upto last_kv.1 (mem_from first_kv.1 (mem s)) in
    let l := remove_keys to_remove (mem s) in
    _ ← assert_ (match mem_get (mr (map new_m)) l with Some _ => false | None => true end);
    Ok (set_mem (mem_insert (mr (map new_m)) new_m l) s).

Definition map_and_coalesce (km recorded_km : KernelMapping) (emu_file mapped_file_stat local_addr
    monitored : option Z) (s : AddressSpace) : res AddressSpace :=
  let s := match monitored with
           | Some _ => set_monitored ({[km_start km]} ∪ monitored_mem s) s
           | None => s
           end in
  let s := set_mem (mem_insert (mr km)
             (new_mapping km recorded_km emu_file mapped_file_stat local_addr monitored) (mem s)) s in
  s ← coalesce_around (mr km) s;
  update_watch (km_start km) (km_end km) s.

(** *** The operations *)

Definition map_op (addr num_bytes prot flags offset_bytes : Z) (fsname : OsString) (device inode : Z)
    (mapped_file_stat : option Z) (record_map : option KernelMapping)
    (emu_file local_addr monitored : option Z) (s : AddressSpace) : res (KernelMapping * AddressSpace) :=
  num_bytes ← ceil_page_size num_bytes;
  m ← new_with_opts addr (ptr_add addr num_bytes) fsname device inode prot
        (Z.land flags MAP_FLAGS_MASK) offset_bytes;
  _ ← assert_ (0 <? num_bytes);
  df ← remove_range (dont_fork s) (new_range addr num_bytes);
  let s := set_dont_fork df s in
  s ← unmap_internal addr num_bytes s;
  let actual_recorded_map := match record_map with Some km => km | None => m end in
  let s := if is_vdso actual_recorded_map then set_vdso addr s else s in
  s ← map_and_coalesce m actual_recorded_map emu_file mapped_file_stat local_addr monitored s;
  Ok (m, s).

Definition unmap (addr num_bytes : Z) (s : AddressSpace) : res AddressSpace :=
  num_bytes ← ceil_page_size num_bytes;
  if num_bytes =? 0 then Ok s
  else
    df ← remove_range (dont_fork s) (new_range addr num_bytes);
    unmap_internal addr num_bytes (set_dont_fork df s).

Definition protect (addr num_bytes prot : Z) (s : AddressSpace) : res AddressSpace :=
  r ← for_each_in_range addr num_bytes
        (fun k rem _ s => r ← protector prot k rem s; Ok (Some r.1, r.2)) IterateContiguous None s;
  match r.1 with
  | Some last_overlap_key => coalesce_around last_overlap_key r.2
  | None => Ok r.2
  end.

Definition advise (addr num_bytes advice : Z) (s : AddressSpace) : res AddressSpace :=
  num_bytes ← ceil_page_size num_bytes;
  if advice =? MADV_DONTFORK then
    df ← add_range (dont_fork s) (new_range addr num_bytes); Ok (set_dont_fork df s)
  else if advice =? MADV_DOFORK then
    df ← remove_range (dont_fork s) (new_range addr num_bytes); Ok (set_dont_fork df s)
  else Ok s.

Definition brk (addr prot : Z) (s : AddressSpace) : res AddressSpace :=
  old_brk ← ceil_page_size (brk_end s);
  new_brk ← ceil_page_size addr;
  s ← (if old_brk <? new_brk then
         r ← map_op old_brk (ptr_diff new_brk old_brk) prot (Z.lor MAP_ANONYMOUS MAP_PRIVATE) 0
               (os "[heap]") NO_DEVICE NO_INODE None None None None None s;
         Ok r.2
       else unmap new_brk (ptr_diff old_brk new_brk) s);
  Ok (set_brk_end addr s).

(** The DONTFORK part of [remap]: what happens to the marked range. *)
Definition remap_dont_fork (df : list MemoryRange) (old new : MemoryRange) : res (list MemoryRange) :=
  let next := head (bt_range_from range_cmp old df) in
  match next with
  | Some n =>
      if start_ n <? end_ old then
        _ ← assert_ (bool_decide (n = old));
        df ← remove_range df old; add_range df new
      else df ← remove_range df old; remove_range df new
  | None => df ← remove_range df old; remove_range df new
  end.

Definition remap (old_addr old_num_bytes new_addr new_num_bytes : Z) (s : AddressSpace)
  : res AddressSpace :=
  old_num_bytes ← ceil_page_size old_num_bytes;
  m ← unwrap (mapping_of s old_addr);
  _ ← assert_ (bool_decide (monitored_shared_memory m = None));
  km ← subrange (map m) old_addr (Z.min (km_end (map m)) (ptr_add old_addr old_num_bytes));
  s ← unmap_internal old_addr old_num_bytes s;
  _ ← assert_ (negb (new_num_bytes =? 0));
  new_num_bytes ← ceil_page_size new_num_bytes;
  df ← remap_dont_fork (dont_fork s) (new_range old_addr old_num_bytes)
         (new_range new_addr new_num_bytes);
  s ← unmap_internal new_addr new_num_bytes (set_dont_fork df s);
  let new_end := ptr_add new_addr new_num_bytes in
  k ← set_range km new_addr new_end;
  r ← set_range (recorded_map m) new_addr new_end;
  map_and_coalesce k r (emu_file m) (mapped_file_stat m) None None s.

(** *** Free memory *)

Fixpoint find_free_loop (required_space : Z) (current : Mapping) (rest : list Entry) : res Z :=
  match rest with
  | [] =>
      if km_end (map current) <=? ptr_add (km_end (map current)) required_space
      then Ok (km_end (map current)) else Panic
  | next :: rest' =>
      if ptr_add (km_end (map current)) required_space <=? km_start (map next.2)
      then Ok (km_end (map current))
      else find_free_loop required_space next.2 rest'
  end.

Definition find_free_memory (s : AddressSpace) (required_space : Z) (maybe_after : option Z) : res Z :=
  let after := match maybe_after with Some a => a | None => 0 end in
  match mem_from (mkRange after after) (mem s) with
  | [] => Panic
  | current :: rest => find_free_loop required_space current.2 rest
  end.

End Ops.
End AddrSpace.
