(* ===== verification/AddressSpaceProofs.v ===== *)
(** Well-formed memory maps, what they map each byte to, and how the callbacks
    and the coalescing of [AddressSpace] change that. *)

From S2P Require Import Prelude MemoryRange KernelMapping Watchpoints WatchMemory AddressSpace.

Module AddrProofs.
Import Range KMap AddrSpace.

(** ** Results with a reason to panic *)

(** [m] returns a value of [Q], unless [bad] holds: then it may also fail. *)
Definition rwp {A} (bad : Prop) (m : res A) (Q : A -> Prop) : Prop :=
  match m with
  | Ok a => Q a
  | Panic | Fatal | Spin => bad
  end.

Lemma rwp_bind {A B} bad (m : res A) (f : A -> res B) Q :
  rwp bad m (fun a => rwp bad (f a) Q) -> rwp bad (m ≫= f) Q.
Proof. by destruct m. Qed.

Lemma rwp_mono {A} bad (m : res A) (Q Q' : A -> Prop) :
  rwp bad m Q -> (forall a, Q a -> Q' a) -> rwp bad m Q'.
Proof. destruct m; simpl; auto. Qed.

Lemma rwp_assert bad b (Q : unit -> Prop) : (b = true -> Q tt) -> bad \/ b = true -> rwp bad (assert_ b) Q.
Proof. destruct b; simpl; naive_solver. Qed.

Lemma rwp_Ok {A} bad (m : res A) (Q : A -> Prop) a : m = Ok a -> Q a -> rwp bad m Q.
Proof. by intros ->. Qed.

(** ** Well-formed mappings *)

Record Files := mkFiles { emulated :> Z -> Z -> Z -> option Z; shared : Z -> Z -> option Z }.

Section Proofs.
Context `{PageSize}.

Record km_ok (k : KernelMapping) : Prop := {
  km_nonempty : 0 <= km_start k < km_end k;
  km_bound : km_end k + page_size <= USIZE;
  km_start_al : aligned (km_start k);
  km_end_al : aligned (km_end k);
  km_flags : Z.land (flags_ k) MAP_FLAGS_MASK = flags_ k;
  km_offset : 0 <= offset k /\ aligned (offset k);
  km_file : is_real_device k = true -> offset k + (km_end k - km_start k) < USIZE;
  km_off_bound : offset k < USIZE
}.

Lemma km_size_ok k : km_ok k -> km_size k = km_end k - km_start k.
Proof.
  intros [[? ?] ? _ _ _ _ _ _]. unfold km_size, size. fold (km_end k) (km_start k).
  pose proof page_size_pos. apply ptr_diff_small; lia.
Qed.

Lemma masked_flags f : Z.land f MAP_FLAGS_MASK = f -> Z.land f (Z.lnot MAP_FLAGS_MASK) = 0.
Proof.
  intros E. rewrite <- E, <- Z.land_assoc, Z.land_lnot_diag, Z.land_0_r. done.
Qed.

Lemma mod_aligned z : aligned z -> (z mod page_size =? 0) = true.
Proof. intros Ha. apply Z.eqb_eq, Z.mod_divide; [|done]. pose proof page_size_pos. lia. Qed.

Lemma new_with_opts_ok s e name dev ino prot flags off :
  0 <= s <= e -> e < USIZE -> aligned s -> aligned e -> aligned off ->
  new_with_opts s e name dev ino prot flags off
  = Ok (mkKM (mkRange s e) name dev ino prot (Z.land flags MAP_FLAGS_MASK) off).
Proof.
  intros Hr He Ha1 Ha2 Ha3. unfold new_with_opts, from_range.
  rewrite (proj2 (Z.leb_le s e)) by lia. simpl. unfold assert_valid.
  unfold km_start, km_end, km_size, size. simpl.
  rewrite (proj2 (Z.leb_le s e)) by lia. simpl.
  rewrite ptr_diff_small by lia. rewrite (mod_aligned (e - s)) by (by apply aligned_sub). simpl.
  rewrite masked_flags by (by rewrite <- Z.land_assoc, Z.land_diag). simpl. by rewrite mod_aligned.
Qed.

(** A part of a mapping. *)
Definition km_part (k : KernelMapping) (s e : Z) : KernelMapping :=
  mkKM (mkRange s e) (fsname_ k) (device_ k) (inode_ k) (prot_ k) (flags_ k)
    (if is_real_device k then offset k + (s - km_start k) else offset k).

Definition inside (s e : Z) (k : KernelMapping) : Prop :=
  km_start k <= s /\ s < e /\ e <= km_end k /\ aligned s /\ aligned e.

Lemma km_part_ok k s e : km_ok k -> inside s e k -> km_ok (km_part k s e).
Proof.
  intros [[? ?] ? ? ? ? [? ?] Hf ?] (? & ? & ? & ? & ?). unfold km_part. split; unfold km_start, km_end; simpl; try done.
  - unfold km_start, km_end in *. lia.
  - unfold km_end in *. lia.
  - fold (km_start k). destruct (is_real_device k); [|done].
    split; [lia|]. apply aligned_add; [done|]. by apply aligned_sub.
  - unfold is_real_device in *. simpl. intros Hr. rewrite Hr. specialize (Hf Hr).
    unfold km_start, km_end in *. lia.
  - fold (km_start k). destruct (is_real_device k) eqn:Hr; [|done]. specialize (Hf eq_refl).
    unfold km_start, km_end in *. lia.
Qed.

Lemma subrange_ok k s e : km_ok k -> inside s e k -> subrange k s e = Ok (km_part k s e).
Proof.
  intros Hok Hin. pose proof (km_part_ok k s e Hok Hin) as Hok'. pose proof page_size_pos.
  destruct Hin as (H1 & H2 & H3 & H4 & H5).
  destruct (Hok) as [[? ?] ? ? ? Hfl [? ?] Hf ?]. unfold subrange.
  rewrite (proj2 (Z.leb_le _ _) H1), (proj2 (Z.leb_le _ _) H3). simpl.
  assert (checked_add (offset k) (if is_real_device k then ptr_diff s (km_start k) else 0)
    = Ok (if is_real_device k then offset k + (s - km_start k) else offset k)) as ->.
  { unfold checked_add. destruct (is_real_device k) eqn:Hr.
    - rewrite ptr_diff_small by lia. specialize (Hf eq_refl).
      destruct (Z.ltb_spec (offset k + (s - km_start k)) USIZE); [done|lia].
    - rewrite Z.add_0_r. destruct (Z.ltb_spec (offset k) USIZE); [done|lia]. }
  simpl. rewrite new_with_opts_ok; try done; try lia; [|apply Hok'].
  unfold km_part. by rewrite Hfl.
Qed.

Definition km_set_prot (k : KernelMapping) (p : Z) : KernelMapping :=
  mkKM (mr k) (fsname_ k) (device_ k) (inode_ k) p (flags_ k) (offset k).

Lemma set_prot_ok k p : km_ok k -> set_prot k p = Ok (km_set_prot k p) /\ km_ok (km_set_prot k p).
Proof.
  intros Hok. destruct (Hok) as [[? ?] ? ? ? Hfl [? ?] Hf ?]. pose proof page_size_pos. split.
  - unfold set_prot. rewrite new_with_opts_ok by (done || lia). unfold km_set_prot. rewrite Hfl.
    by destruct k as [[]].
  - by destruct Hok.
Qed.

Definition km_extend (k : KernelMapping) (e : Z) : KernelMapping :=
  mkKM (mkRange (km_start k) e) (fsname_ k) (device_ k) (inode_ k) (prot_ k) (flags_ k) (offset k).

Lemma extend_ok k e :
  km_ok k -> km_end k <= e -> aligned e -> e + page_size <= USIZE ->
  extend k e = Ok (km_extend k e).
Proof.
  intros [[? ?] ? ? ? Hfl [? ?] Hf ?] He Ha Hb. pose proof page_size_pos. unfold extend.
  rewrite (proj2 (Z.leb_le _ _) He). simpl. rewrite new_with_opts_ok by (done || lia).
  unfold km_extend. by rewrite Hfl.
Qed.

(** ** Entries and maps *)

(** The mapping and its recorded counterpart cover the key. *)
Record entry_ok (e : Entry) : Prop := {
  eo_key : mr (map e.2) = e.1;
  eo_rec : mr (recorded_map e.2) = e.1;
  eo_map : km_ok (map e.2);
  eo_recorded : km_ok (recorded_map e.2)
}.

Definition ebefore (e1 e2 : Entry) : Prop := before e1.1 e2.1.

Definition mem_ok (l : MemoryMap) : Prop := StronglySorted ebefore l /\ Forall entry_ok l.

Lemma entry_nonempty e : entry_ok e -> nonempty e.1.
Proof. intros [<- _ [[? ?] _ _ _ _ _ _ _] _]. done. Qed.

Lemma mem_ok_app l1 l2 :
  mem_ok (l1 ++ l2) <-> mem_ok l1 /\ mem_ok l2 /\ (forall e1 e2, e1 ∈ l1 -> e2 ∈ l2 -> ebefore e1 e2).
Proof.
  unfold mem_ok. rewrite Forall_app. split.
  - intros [Hs [H1 H2]]. split_and!; try done.
    + by eapply StronglySorted_app_1_l.
    + by eapply StronglySorted_app_1_r.
    + intros. by eapply (StronglySorted_app_1_elem_of _ l1 l2).
  - intros ([Hs1 H1] & [Hs2 H2] & H12). split; [|done]. by apply StronglySorted_app_intro.
Qed.

Lemma mem_ok_cons e l : mem_ok (e :: l) <-> entry_ok e /\ mem_ok l /\ (forall e2, e2 ∈ l -> ebefore e e2).
Proof.
  unfold mem_ok. rewrite Forall_cons. split.
  - intros [Hs [H1 H2]]. apply StronglySorted_inv in Hs as [Hs Hf]. split_and!; try done. by apply Forall_forall.
  - intros (He & [Hs Hl] & Hf). split; [|done]. constructor; [done|]. by apply Forall_forall.
Qed.

Lemma mem_ok_entry l1 e l2 : mem_ok (l1 ++ e :: l2) -> entry_ok e.
Proof. intros (_ & (He & _)%mem_ok_cons & _)%mem_ok_app. done. Qed.

Lemma mem_ok_nil : mem_ok [].
Proof. split; constructor. Qed.

(** ** What a map says of each byte *)

(** A mapping says the same of a byte wherever its ends are: protection, flags,
    file and the distance between addresses and file offsets.  Names and stat
    data are left out: coalescing keeps those of the first mapping. *)
Record KAttrs := mkKAttrs { ka_prot : Z; ka_flags : Z; ka_dev : Z; ka_ino : Z; ka_base : Z }.
Record Attrs := mkAttrs {
  at_map : KAttrs;
  at_rec : KAttrs;
  at_emu : option Z;
  at_local : option Z;
  at_mon : option Z;
  at_flags : Z
}.

Definition kattrs (k : KernelMapping) : KAttrs :=
  mkKAttrs (prot_ k) (flags_ k) (device_ k) (inode_ k)
    (if is_real_device k then offset k - km_start k else 0).

Definition attrs (m : Mapping) : Attrs :=
  mkAttrs (kattrs (map m)) (kattrs (recorded_map m)) (emu_file m)
    ((fun l => l - km_start (map m)) <$> local_addr m) (monitored_shared_memory m) (mflags m).

Definition ka_set_prot (p : Z) (a : KAttrs) : KAttrs :=
  mkKAttrs p (ka_flags a) (ka_dev a) (ka_ino a) (ka_base a).
Definition at_set_prot (p : Z) (a : Attrs) : Attrs :=
  mkAttrs (ka_set_prot p (at_map a)) (ka_set_prot p (at_rec a)) (at_emu a) (at_local a) (at_mon a) (at_flags a).

(** The mapping of a byte. *)
Fixpoint view (l : MemoryMap) (a : Z) : option Attrs :=
  match l with
  | [] => None
  | e :: l' => if contains_ptr e.1 a then Some (attrs e.2) else view l' a
  end.

Lemma view_app l1 l2 a : view (l1 ++ l2) a = match view l1 a with Some x => Some x | None => view l2 a end.
Proof. induction l1 as [|e l1 IH]; simpl; [done|]. by destruct (contains_ptr e.1 a). Qed.

Lemma view_below l a z : (forall e, e ∈ l -> end_ e.1 <= z) -> z <= a -> view l a = None.
Proof.
  intros Hl Ha. induction l as [|e l IH]; simpl; [done|].
  pose proof (Hl e ltac:(left)).
  destruct (contains_ptr e.1 a) eqn:E; [apply contains_ptr_true in E; lia|].
  apply IH. intros e' He'. apply Hl. by right.
Qed.

Lemma view_above l a z : (forall e, e ∈ l -> z <= start_ e.1) -> a < z -> view l a = None.
Proof.
  intros Hl Ha. induction l as [|e l IH]; simpl; [done|].
  pose proof (Hl e ltac:(left)).
  destruct (contains_ptr e.1 a) eqn:E; [apply contains_ptr_true in E; lia|].
  apply IH. intros e' He'. apply Hl. by right.
Qed.

Lemma view_elem l e a : mem_ok l -> e ∈ l -> contains_ptr e.1 a = true -> view l a = Some (attrs e.2).
Proof.
  intros Hl He Hc. apply list_elem_of_split in He as (l1 & l2 & ->).
  apply mem_ok_app in Hl as (_ & Hl2 & H12). apply contains_ptr_true in Hc as Hc'.
  rewrite view_app, (view_below l1 a (start_ e.1)); [simpl; by rewrite Hc| |lia].
  intros e1 He1. apply (H12 e1 e); [done|left].
Qed.

Lemma view_Some_elem l a x : view l a = Some x -> exists e, e ∈ l /\ contains_ptr e.1 a = true /\ x = attrs e.2.
Proof.
  induction l as [|e l IH]; simpl; [done|]. destruct (contains_ptr e.1 a) eqn:E.
  - intros [= <-]. exists e. split; [left|done].
  - intros (e' & ? & ?)%IH. exists e'. split; [by right|done].
Qed.

(** Replacing the middle of a map changes the bytes the middle changes. *)
Lemma view_middle l1 X Y l2 a :
  view X a = view Y a -> view (l1 ++ X ++ l2) a = view (l1 ++ Y ++ l2) a.
Proof. intros E. by rewrite !view_app, E. Qed.

(** ** The operations of the B-tree on a well-formed map *)

Lemma key_cmp_self k : nonempty k -> key_cmp k k = Eq.
Proof. intros. apply key_cmp_eq; try done. unfold intersects, nonempty in *. lia. Qed.

Lemma key_gt_head k' m' l1 k m l2 : mem_ok ((k', m') :: l1 ++ (k, m) :: l2) -> key_cmp k k' = Gt.
Proof.
  intros (He & Hl & Hb)%mem_ok_cons. apply mem_ok_app in Hl as (_ & Hl & _).
  apply mem_ok_cons in Hl as (He' & _).
  apply (key_cmp_gt k k' (entry_nonempty _ He') (entry_nonempty _ He)), (Hb (k, m)). set_solver.
Qed.

Lemma mem_get_middle l1 k m l2 : mem_ok (l1 ++ (k, m) :: l2) -> mem_get k (l1 ++ (k, m) :: l2) = Some m.
Proof.
  induction l1 as [|[k' m'] l1 IH]; simpl; intros Hl.
  - apply mem_ok_cons in Hl as (He & _). by rewrite key_cmp_self by apply (entry_nonempty _ He).
  - rewrite (key_gt_head _ _ _ _ _ _ Hl). apply mem_ok_cons in Hl as (_ & Hl & _). by apply IH.
Qed.

Lemma mem_remove_middle l1 k m l2 : mem_ok (l1 ++ (k, m) :: l2) -> mem_remove k (l1 ++ (k, m) :: l2) = l1 ++ l2.
Proof.
  induction l1 as [|[k' m'] l1 IH]; simpl; intros Hl.
  - apply mem_ok_cons in Hl as (He & _). by rewrite key_cmp_self by apply (entry_nonempty _ He).
  - rewrite (key_gt_head _ _ _ _ _ _ Hl). apply mem_ok_cons in Hl as (_ & Hl & _). by rewrite IH.
Qed.

Lemma mem_insert_middle l1 k m l2 :
  mem_ok (l1 ++ (k, m) :: l2) -> mem_insert k m (l1 ++ l2) = l1 ++ (k, m) :: l2.
Proof.
  induction l1 as [|[k' m'] l1 IH]; simpl; intros Hl.
  - apply mem_ok_cons in Hl as (He & Hl & Hb). destruct l2 as [|[k' m'] l2]; simpl; [done|].
    apply mem_ok_cons in Hl as (He' & _).
    by rewrite (proj2 (key_cmp_lt k k' (entry_nonempty _ He) (entry_nonempty _ He')) (Hb (k', m') ltac:(left))).
  - rewrite (key_gt_head _ _ _ _ _ _ Hl). apply mem_ok_cons in Hl as (_ & Hl & _). by rewrite IH.
Qed.

Lemma mem_get_None k l : nonempty k -> Forall entry_ok l ->
  (forall e, e ∈ l -> before e.1 k \/ before k e.1) -> mem_get k l = None.
Proof.
  intros Hk Hf Hd. induction Hf as [|[k' m'] l He Hf IH]; simpl; [done|].
  specialize (IH ltac:(intros; apply Hd; by right)).
  destruct (Hd (k', m') ltac:(left)) as [Hb|Hb].
  - by rewrite (proj2 (key_cmp_gt k k' Hk (entry_nonempty _ He)) Hb).
  - by rewrite (proj2 (key_cmp_lt k k' Hk (entry_nonempty _ He)) Hb).
Qed.

(** The entries from a key on. *)
Lemma mem_from_app k l1 l2 : nonempty k -> Forall entry_ok (l1 ++ l2) ->
  (forall e, e ∈ l1 -> before e.1 k) -> (forall e, head l2 = Some e -> ~ before e.1 k) ->
  mem_from k (l1 ++ l2) = l2.
Proof.
  intros Hk Hf H1 H2. induction l1 as [|[k' m'] l1 IH]; simpl in *.
  - destruct l2 as [|[k' m'] l2]; simpl; [done|]. apply Forall_cons in Hf as [He _].
    pose proof (key_cmp_lt k' k (entry_nonempty _ He) Hk) as Hc. specialize (H2 (k', m') eq_refl).
    destruct (key_cmp k' k); try done. by destruct H2; apply Hc.
  - apply Forall_cons in Hf as [He Hf].
    rewrite (proj2 (key_cmp_lt k' k (entry_nonempty _ He) Hk) (H1 (k', m') ltac:(left))).
    apply IH; [done|]. intros. apply H1. by right.
Qed.

Lemma mem_upto_app k l1 l2 : nonempty k -> Forall entry_ok (l1 ++ l2) ->
  (forall e, e ∈ l1 -> ~ before k e.1) -> (forall e, head l2 = Some e -> before k e.1) ->
  mem_upto k (l1 ++ l2) = l1.
Proof.
  intros Hk Hf H1 H2. induction l1 as [|[k' m'] l1 IH]; simpl in *.
  - destruct l2 as [|[k' m'] l2]; simpl; [done|]. apply Forall_cons in Hf as [He _].
    by rewrite (proj2 (key_cmp_gt k' k (entry_nonempty _ He) Hk) (H2 (k', m') eq_refl)).
  - apply Forall_cons in Hf as [He Hf].
    pose proof (key_cmp_gt k' k (entry_nonempty _ He) Hk) as Hc. specialize (H1 (k', m') ltac:(left)) as Hn.
    rewrite IH; [|done|]. { destruct (key_cmp k' k); try done. by destruct Hn; apply Hc. }
    intros. apply H1. by right.
Qed.

(** Every map splits at an address: what ends by then, and the rest. *)
Lemma mem_split l z : mem_ok l ->
  exists l1 l2, l = l1 ++ l2 /\ (forall e, e ∈ l1 -> end_ e.1 <= z) /\ (forall e, e ∈ l2 -> z < end_ e.1).
Proof.
  induction l as [|e l IH]; intros Hl; [exists [], []; set_solver|].
  apply mem_ok_cons in Hl as (He & Hl & Hb). destruct (Z.le_gt_cases (end_ e.1) z) as [Hz|Hz].
  - destruct (IH Hl) as (l1 & l2 & -> & H1 & H2). exists (e :: l1), l2. split_and!; try done.
    intros e' [->|?]%elem_of_cons; auto.
  - exists [], (e :: l). split_and!; [done|set_solver|]. intros e' [->|Hin]%elem_of_cons; [done|].
    specialize (Hb e' Hin). unfold ebefore, before in Hb.
    destruct Hl as [_ Hf]. apply (proj1 (Forall_forall _ _) Hf), entry_nonempty in Hin. unfold nonempty in Hin. lia.
Qed.

(** ** Parts of mappings *)

(** What is known of files: the emulated file of a file and flags, and the address in rd
    at which the beginning of a file that rd shares with the tracee is mapped.  No mapping
    is monitored. *)
Context (files : Files).

Definition plain (m : Mapping) : Prop :=
  monitored_shared_memory m = None
  /\ emu_file m = files (device_ (map m)) (inode_ (map m)) (flags_ (map m))
  /\ at_local (attrs m) = (fun b => b + ka_base (kattrs (map m))) <$> shared files (device_ (map m)) (inode_ (map m))
  /\ forall l, local_addr m = Some l -> l + (km_end (map m) - km_start (map m)) < USIZE.

Definition plain_mem (l : MemoryMap) : Prop := Forall (fun e => plain e.2) l.

Definition m_part (m : Mapping) (s e : Z) (local : option Z) : Mapping :=
  mkMapping (km_part (map m) s e) (km_part (recorded_map m) s e) (emu_file m) (mapped_file_stat m)
    local (monitored_shared_memory m) (mflags m).

Definition local_at (m : Mapping) (s : Z) : option Z :=
  (fun a => a + (s - km_start (map m))) <$> local_addr m.

Lemma inside_rec e s t : entry_ok e -> inside s t (map e.2) -> inside s t (recorded_map e.2).
Proof. intros [E1 E2 _ _]. unfold inside, km_start, km_end. by rewrite E1, E2. Qed.

Lemma m_part_entry e s t loc : entry_ok e -> inside s t (map e.2) ->
  entry_ok (mkRange s t, m_part e.2 s t loc).
Proof.
  intros He Hi. pose proof (inside_rec _ _ _ He Hi). destruct He.
  split; try done; simpl; by apply km_part_ok.
Qed.

Lemma kattrs_part k s t : kattrs (km_part k s t) = kattrs k.
Proof.
  unfold kattrs, km_part, is_real_device, km_start. simpl. f_equal. destruct (NO_DEVICE <? device_ k); [lia|done].
Qed.

Lemma attrs_part m s t : attrs (m_part m s t (local_at m s)) = attrs m.
Proof.
  unfold attrs, m_part, local_at. simpl. rewrite !kattrs_part. f_equal.
  unfold km_start. simpl. destruct (local_addr m); simpl; [|done]. f_equal. lia.
Qed.

Lemma plain_part m s t : t <= km_end (map m) -> plain m -> plain (m_part m s t (local_at m s)).
Proof.
  intros Ht (? & ? & El & Hl). split_and!; try done; [rewrite attrs_part, El; cbn [m_part map]; by rewrite kattrs_part|].
  unfold m_part, local_at, km_part, km_end, km_start in *. simpl. destruct (local_addr m) as [l|]; [|done]. intros ? [= <-].
  specialize (Hl l eq_refl). lia.
Qed.

Lemma local_at_start m : local_at m (km_start (map m)) = local_addr m.
Proof. unfold local_at. destruct (local_addr m); simpl; [|done]. f_equal. lia. Qed.

Lemma part_ok e s t loc mon : entry_ok e -> inside s t (map e.2) -> mon = monitored_shared_memory e.2 ->
  part e.2 s t loc mon = Ok (m_part e.2 s t loc).
Proof.
  intros He Hi ->. pose proof (inside_rec _ _ _ He Hi). destruct He. unfold part.
  rewrite !subrange_ok by done. done.
Qed.

Lemma overflow_part_ok bad e rem (Q : Mapping -> Prop) :
  entry_ok e -> inside (end_ rem) (km_end (map e.2)) (map e.2) -> bad \/ plain e.2 ->
  Q (m_part e.2 (end_ rem) (km_end (map e.2)) (local_at e.2 (end_ rem))) ->
  rwp bad (overflow_part e.2 rem) Q.
Proof.
  intros He Hi Hb HQ. unfold overflow_part. destruct (monitored_shared_memory e.2) as [x|] eqn:Em; simpl.
  - destruct Hb as [|(? & _)]; [done|congruence].
  - rewrite part_ok by done. pose proof (eo_map _ He) as []. destruct Hi as (? & ? & ? & _).
    pose proof page_size_pos. rewrite ptr_diff_small by lia. apply HQ.
Qed.

(** New entries inside an old one keep the map well formed. *)
Definition within (X : list Entry) (k : MemoryRange) : Prop :=
  forall x, x ∈ X -> start_ k <= start_ x.1 /\ end_ x.1 <= end_ k.

Lemma mem_ok_replace l1 e l2 X :
  mem_ok (l1 ++ e :: l2) -> mem_ok X -> within X e.1 -> mem_ok (l1 ++ X ++ l2).
Proof.
  intros (H1 & Hl2 & H12)%mem_ok_app HX Hw. apply mem_ok_cons in Hl2 as (He & H2 & Hb).
  unfold ebefore, before in *. apply mem_ok_app. split_and!; [done| |].
  - apply mem_ok_app. split_and!; try done. intros x e2 Hx He2. specialize (Hb e2 He2).
    specialize (Hw x Hx). unfold ebefore, before. lia.
  - intros e1 x He1 [Hx|Hx]%elem_of_app; [|apply H12; [done|by right]].
    specialize (H12 e1 e He1 ltac:(left)). specialize (Hw x Hx). unfold ebefore, before. lia.
Qed.

Lemma mem_ok_singleton e : entry_ok e -> mem_ok [e].
Proof. intros. apply mem_ok_cons. split; [done|]. split; [apply mem_ok_nil|by intros ? ?%not_elem_of_nil]. Qed.

(** Inserting in the gap that a removed entry left. *)
Lemma mem_insert_gap l1 e l2 X Y k m :
  mem_ok (l1 ++ e :: l2) -> mem_ok (X ++ (k, m) :: Y) -> within (X ++ (k, m) :: Y) e.1 ->
  mem_insert k m (l1 ++ (X ++ Y) ++ l2) = l1 ++ (X ++ (k, m) :: Y) ++ l2.
Proof.
  intros Hl HX Hw. pose proof (mem_ok_replace _ _ _ _ Hl HX Hw) as Hok.
  rewrite <- !app_assoc in *. rewrite !(app_assoc l1 X) in *. simpl in *. by apply mem_insert_middle.
Qed.

(** ** [unmapper] *)

(** What an operation on mappings leaves alone. *)
Definition same_rest (s s' : AddressSpace) : Prop :=
  dont_fork s' = dont_fork s /\ watchpoints s' = watchpoints s /\ brk_end s' = brk_end s
  /\ vdso_start_addr s' = vdso_start_addr s.

Lemma same_rest_trans s1 s2 s3 : same_rest s1 s2 -> same_rest s2 s3 -> same_rest s1 s3.
Proof. unfold same_rest. intuition congruence. Qed.

Lemma mem_add_to_map m s : mem (add_to_map m s) = mem_insert (mr (map m)) m (mem s).
Proof. unfold add_to_map. by destruct (monitored_shared_memory m). Qed.

Lemma same_add_to_map m s : same_rest s (add_to_map m s).
Proof. unfold add_to_map. by destruct (monitored_shared_memory m). Qed.

(** The pieces of a mapping outside [rem]. *)
Definition low_piece (e : Entry) (t : Z) : list Entry :=
  if km_start (map e.2) <? t
  then [(mkRange (km_start (map e.2)) t, m_part e.2 (km_start (map e.2)) t (local_at e.2 (km_start (map e.2))))]
  else [].
Definition high_piece (e : Entry) (t : Z) : list Entry :=
  if t <? km_end (map e.2)
  then [(mkRange t (km_end (map e.2)), m_part e.2 t (km_end (map e.2)) (local_at e.2 t))]
  else [].

Lemma low_inside e t : entry_ok e -> aligned t -> t <= km_end (map e.2) -> km_start (map e.2) < t ->
  inside (km_start (map e.2)) t (map e.2).
Proof. intros [_ _ [] _] ???. unfold inside. split_and!; try done; lia. Qed.

Lemma high_inside e t : entry_ok e -> aligned t -> km_start (map e.2) <= t -> t < km_end (map e.2) ->
  inside t (km_end (map e.2)) (map e.2).
Proof. intros [_ _ [] _] ???. unfold inside. split_and!; try done; lia. Qed.

Lemma low_piece_ok e t : entry_ok e -> aligned t -> t <= km_end (map e.2) -> mem_ok (low_piece e t).
Proof.
  intros He Ha Ht. unfold low_piece. destruct (Z.ltb_spec (km_start (map e.2)) t); [|apply mem_ok_nil].
  apply mem_ok_singleton, m_part_entry; [done|]. by apply low_inside.
Qed.

Lemma high_piece_ok e t : entry_ok e -> aligned t -> km_start (map e.2) <= t -> mem_ok (high_piece e t).
Proof.
  intros He Ha Ht. unfold high_piece. destruct (Z.ltb_spec t (km_end (map e.2))); [|apply mem_ok_nil].
  apply mem_ok_singleton, m_part_entry; [done|]. by apply high_inside.
Qed.

Lemma view_low e t a : entry_ok e ->
  view (low_piece e t) a = if (km_start (map e.2) <=? a) && (a <? t) then Some (attrs e.2) else None.
Proof.
  intros He. unfold low_piece. destruct (Z.ltb_spec (km_start (map e.2)) t).
  - simpl. unfold contains_ptr. simpl. by rewrite attrs_part.
  - simpl. destruct (Z.leb_spec (km_start (map e.2)) a), (Z.ltb_spec a t); simpl; (done || lia).
Qed.

Lemma view_high e t a : entry_ok e ->
  view (high_piece e t) a = if (t <=? a) && (a <? km_end (map e.2)) then Some (attrs e.2) else None.
Proof.
  intros He. unfold high_piece. destruct (Z.ltb_spec t (km_end (map e.2))).
  - simpl. unfold contains_ptr. simpl. by rewrite attrs_part.
  - simpl. destruct (Z.leb_spec t a), (Z.ltb_spec a (km_end (map e.2))); simpl; (done || lia).
Qed.

Lemma low_elem e t x : x ∈ low_piece e t ->
  x.1 = mkRange (km_start (map e.2)) t /\ km_start (map e.2) < t /\ (t <= km_end (map e.2) -> plain e.2 -> plain x.2).
Proof.
  unfold low_piece. destruct (Z.ltb_spec (km_start (map e.2)) t); [|by intros ?%not_elem_of_nil].
  intros ->%list_elem_of_singleton. split_and!; try done. apply plain_part.
Qed.

Lemma high_elem e t x : x ∈ high_piece e t ->
  x.1 = mkRange t (km_end (map e.2)) /\ t < km_end (map e.2) /\ (plain e.2 -> plain x.2).
Proof.
  unfold high_piece. destruct (Z.ltb_spec t (km_end (map e.2))); [|by intros ?%not_elem_of_nil].
  intros ->%list_elem_of_singleton. split_and!; try done. by apply plain_part.
Qed.

Context (reader : option (Z -> Z -> option (list Z))) (munmap : Z -> Z -> bool) (bad : Prop).

(** Unmapping memory of rd succeeds. *)
Definition unmaps : Prop := bad \/ forall a n, munmap a n = true.

Definition meets (e : Entry) (rem : MemoryRange) : Prop :=
  start_ e.1 < end_ rem /\ start_ rem < end_ e.1 /\ start_ rem < end_ rem
  /\ aligned (start_ rem) /\ aligned (end_ rem).

Lemma meets_map e rem : entry_ok e -> meets e rem ->
  km_start (map e.2) < end_ rem /\ start_ rem < km_end (map e.2) /\ start_ rem < end_ rem
  /\ aligned (start_ rem) /\ aligned (end_ rem).
Proof. intros [E _ _ _]. unfold meets, km_start, km_end. by rewrite E. Qed.

(** Pieces before, in and after [rem], in order, are a well-formed map. *)
Lemma pieces_ok e rem M :
  entry_ok e -> meets e rem -> mem_ok M ->
  (forall x, x ∈ M -> km_start (map e.2) <= start_ x.1 /\ end_ x.1 <= km_end (map e.2)
                      /\ start_ rem <= start_ x.1 /\ end_ x.1 <= end_ rem) ->
  mem_ok (low_piece e (start_ rem) ++ M ++ high_piece e (end_ rem))
  /\ within (low_piece e (start_ rem) ++ M ++ high_piece e (end_ rem)) e.1.
Proof.
  intros He Hm HM HMx. destruct (meets_map _ _ He Hm) as (? & ? & ? & ? & ?). split.
  - apply mem_ok_app. split; [apply low_piece_ok; (done || lia)|]. split.
    + apply mem_ok_app. split; [done|]. split; [apply high_piece_ok; (done || lia)|].
      intros x y Hx (Ey & ? & _)%high_elem. specialize (HMx x Hx). unfold ebefore, before. rewrite Ey. simpl. lia.
    + intros x y (Ex & ? & _)%low_elem Hy. unfold ebefore, before. rewrite Ex. simpl.
      apply elem_of_app in Hy as [Hy|(Ey & ? & _)%high_elem]; [specialize (HMx y Hy); lia|]. rewrite Ey. simpl. lia.
  - intros x Hx. destruct He as [E _ _ _]. rewrite <- E. fold (km_start (map e.2)) (km_end (map e.2)).
    apply elem_of_app in Hx as [(-> & ? & _)%low_elem|[Hx|(-> & ? & _)%high_elem]%elem_of_app]; simpl; try lia.
    specialize (HMx x Hx). lia.
Qed.

Lemma pieces_plain e rem M :
  start_ rem <= km_end (map e.2) -> bad \/ plain e.2 -> bad \/ plain_mem M ->
  bad \/ plain_mem (low_piece e (start_ rem) ++ M ++ high_piece e (end_ rem)).
Proof.
  intros Hr [?|Hp] [?|HM]; auto. right. unfold plain_mem. rewrite !Forall_app, !Forall_forall.
  split; [by intros x (_ & _ & ?)%low_elem; auto|]. split; [by apply Forall_forall|].
  by intros x (_ & _ & ?)%high_elem; auto.
Qed.

(** Adding a piece after those already added. *)
Lemma add_piece l1 e l2 X m Y s :
  mem_ok (l1 ++ e :: l2) -> mem_ok (X ++ (mr (map m), m) :: Y) -> within (X ++ (mr (map m), m) :: Y) e.1 ->
  mem s = l1 ++ X ++ l2 ->
  mem (add_to_map m s) = l1 ++ (X ++ [(mr (map m), m)]) ++ l2.
Proof.
  intros Hl HX Hw Hs. rewrite mem_add_to_map, Hs.
  pose proof (mem_insert_gap l1 e l2 X [] (mr (map m)) m Hl) as Hi. rewrite app_nil_r in Hi. apply Hi.
  - rewrite cons_middle, app_assoc in HX. by apply mem_ok_app in HX as [? _].
  - intros x Hx. apply Hw. rewrite cons_middle, app_assoc. by apply elem_of_app; left.
Qed.

Lemma add_low l1 e l2 t Y s (Q : AddressSpace -> Prop) :
  mem_ok (l1 ++ e :: l2) -> mem_ok (low_piece e t ++ Y) -> within (low_piece e t ++ Y) e.1 ->
  aligned t -> t <= km_end (map e.2) -> mem s = l1 ++ l2 ->
  (forall s', mem s' = l1 ++ low_piece e t ++ l2 -> same_rest s s' -> Q s') ->
  rwp bad (if km_start (map e.2) <? t
           then u ← part e.2 (km_start (map e.2)) t (local_addr e.2) (monitored_shared_memory e.2);
                Ok (add_to_map u s)
           else Ok s) Q.
Proof.
  intros Hl HX Hw Ha Ht Hs HQ. unfold low_piece in *.
  pose proof (mem_ok_entry _ _ _ Hl) as He.
  destruct (Z.ltb_spec (km_start (map e.2)) t) as [Hlt|_]; [|by apply HQ].
  rewrite part_ok by (done || by apply low_inside). rewrite local_at_start in *. apply HQ; [|apply same_add_to_map].
  by apply (add_piece l1 e l2 [] (m_part e.2 (km_start (map e.2)) t (local_addr e.2)) Y s).
Qed.

Lemma add_high l1 e l2 rem X s (Q : AddressSpace -> Prop) :
  mem_ok (l1 ++ e :: l2) -> mem_ok (X ++ high_piece e (end_ rem)) -> within (X ++ high_piece e (end_ rem)) e.1 ->
  aligned (end_ rem) -> km_start (map e.2) <= end_ rem -> bad \/ plain e.2 -> mem s = l1 ++ X ++ l2 ->
  (forall s', mem s' = l1 ++ (X ++ high_piece e (end_ rem)) ++ l2 -> same_rest s s' -> Q s') ->
  rwp bad (if end_ rem <? km_end (map e.2)
           then o ← overflow_part e.2 rem; Ok (add_to_map o s)
           else Ok s) Q.
Proof.
  intros Hl HX Hw Ha Ht Hb Hs HQ. unfold high_piece in *.
  pose proof (mem_ok_entry _ _ _ Hl) as He.
  destruct (Z.ltb_spec (end_ rem) (km_end (map e.2))) as [Hlt|_].
  - apply rwp_bind, overflow_part_ok; [done|by apply high_inside|done|].
    apply HQ; [|apply same_add_to_map]. by apply (add_piece l1 e l2 X (m_part e.2 (end_ rem) (km_end (map e.2)) (local_at e.2 (end_ rem))) [] s).
  - rewrite app_nil_r in HQ. by apply HQ.
Qed.

Lemma entry_range e : entry_ok e -> km_start (map e.2) = start_ e.1 /\ km_end (map e.2) = end_ e.1.
Proof. intros [E _ _ _]. unfold km_start, km_end. by rewrite E. Qed.

(** [unmapper] takes the part in [rem] out of a mapping. *)
Lemma unmapper_spec l1 e l2 rem s : unmaps ->
  mem s = l1 ++ e :: l2 -> mem_ok (mem s) -> meets e rem -> bad \/ plain_mem (mem s) ->
  bad \/ (is_Some (local_addr e.2) -> start_ e.1 <= start_ rem) ->
  let X := low_piece e (start_ rem) ++ high_piece e (end_ rem) in
  rwp bad (unmapper munmap e.1 rem s) (fun s' => mem s' = l1 ++ X ++ l2 /\ same_rest s s').
Proof.
  intros Hmunmap Hs Hok Hm Hb Hloc X. rewrite Hs in *. destruct e as [k m]. unfold unmapper. rewrite Hs. cbn [fst].
  rewrite mem_get_middle by done. cbn [unwrap mbind res_bind].
  pose proof (mem_ok_entry _ _ _ Hok) as He.
  destruct (meets_map _ _ He Hm) as (? & ? & ? & ? & ?).
  assert (bad \/ plain m) as Hbm.
  { destruct Hb as [|Hb]; [by left|right]. apply Forall_app in Hb as [_ [? _]%Forall_cons]. done. }
  destruct (pieces_ok (k, m) rem [] He Hm mem_ok_nil) as [HX Hw]; [by intros ? ?%not_elem_of_nil|]. simpl in HX, Hw.
  pose proof (eo_key _ He) as Ek. simpl in Ek. rewrite Ek.
  apply rwp_bind. eapply (add_low l1 (k, m) l2 (start_ rem)); [done|exact HX|exact Hw|done|simpl in *; lia| |].
  { unfold remove_from_map. simpl. rewrite Hs. by apply (mem_remove_middle l1 k m l2). }
  intros s1 Hs1 Hr1. apply rwp_bind.
  eapply (add_high l1 (k, m) l2 rem (low_piece (k, m) (start_ rem))); [done|done|done|done|simpl in *; lia|done|done|].
  intros s2 Hs2 Hr2. assert (same_rest s s2) as Hr by (by eapply same_rest_trans; [|exact Hr2]).
  destruct (local_addr m) as [loc|] eqn:El; [|done].
  destruct (entry_range _ He) as [Es Ee]. cbn [fst snd] in Es, Ee.
  apply rwp_bind. unfold checked_sub. destruct (Z.leb_spec (ptr_diff (start_ rem) (km_start (map m))) (km_size (map m))) as [|Hgt]; simpl.
  - destruct (munmap _ _) eqn:Eu; simpl; [done|]. destruct Hmunmap as [|Hu]; [done|]. by rewrite Hu in Eu.
  - destruct Hloc as [|Hloc]; [done|]. cbn [fst snd] in Hloc. specialize (Hloc ltac:(rewrite El; eauto)). pose proof (eo_map _ He) as Hkm. cbn [snd] in Hkm.
    pose proof (km_bound _ Hkm). pose proof (km_nonempty _ Hkm). pose proof page_size_pos. cbn [snd] in *. rewrite km_size_ok in Hgt by done. rewrite ptr_diff_small in Hgt by lia. lia.
Qed.

(** ** [unmap_internal] *)

Definition in_part (a lo hi : Z) : bool := (lo <=? a) && (a <? hi).

Lemma in_part_spec a lo hi : BoolSpec (lo <= a < hi) (~ lo <= a < hi) (in_part a lo hi).
Proof.
  unfold in_part. destruct (Z.leb_spec lo a), (Z.ltb_spec a hi); simpl; constructor; lia.
Qed.

Lemma view_tail l1 e l2 a : mem_ok (l1 ++ e :: l2) -> a < end_ e.1 -> view l2 a = None.
Proof.
  intros (_ & (_ & _ & Hb)%mem_ok_cons & _)%mem_ok_app Ha. by apply (view_above l2 a (end_ e.1)).
Qed.

Lemma view_unmapped l1 e l2 rem a :
  mem_ok (l1 ++ e :: l2) -> meets e rem -> (forall x, x ∈ l1 -> end_ x.1 <= start_ rem) ->
  view (l1 ++ (low_piece e (start_ rem) ++ high_piece e (end_ rem)) ++ l2) a
  = if in_part a (start_ rem) (end_ rem) && (a <? end_ e.1) then None else view (l1 ++ e :: l2) a.
Proof.
  intros Hok (Hm1 & Hm2 & Hm3 & _) H1. pose proof (mem_ok_entry _ _ _ Hok) as He. destruct (entry_range _ He) as [Es Ee].
  pose proof (entry_nonempty _ He) as Hne. unfold nonempty in Hne.
  rewrite !view_app, view_low, view_high, Es, Ee by done. simpl. unfold contains_ptr.
  destruct (in_part_spec a (start_ rem) (end_ rem)) as [Hr|Hr]; simpl.
  - destruct (Z.ltb_spec a (end_ e.1)) as [Ha|Ha]; simpl.
    + rewrite (view_below l1 a (start_ rem)) by (done || lia). rewrite (view_tail l1 e l2) by done.
      destruct (Z.leb_spec (start_ e.1) a), (Z.ltb_spec a (start_ rem)), (Z.leb_spec (end_ rem) a); simpl; (done || lia).
    + rewrite !andb_false_r. destruct (Z.ltb_spec a (start_ rem)); [lia|]. by rewrite andb_false_r.
  - destruct (Z.leb_spec (start_ e.1) a), (Z.ltb_spec a (start_ rem)), (Z.leb_spec (end_ rem) a),
      (Z.ltb_spec a (end_ e.1)); simpl; try done; try lia; by destruct (view l1 a).
Qed.

Lemma mem_from_split l1 l2 last : 0 <= last -> last + 1 < USIZE -> Forall entry_ok (l1 ++ l2) ->
  (forall e, e ∈ l1 -> end_ e.1 <= last) -> (forall e, e ∈ l2 -> last < end_ e.1) ->
  mem_from (new_range last 1) (l1 ++ l2) = l2.
Proof.
  intros ? ? Hf H1 H2. unfold new_range. rewrite ptr_add_small by lia.
  apply mem_from_app; unfold nonempty, before; simpl; [lia|done|done|].
  intros e He. destruct l2; [done|]. injection He as ->. specialize (H2 e ltac:(left)). lia.
Qed.

(** The state of a loop over the mappings from [last] on. *)
Record at_ (l1 l2 : MemoryMap) (last re : Z) (s : AddressSpace) : Prop := {
  at_mem : mem s = l1 ++ l2;
  at_ok : mem_ok (mem s);
  at_plain : bad \/ plain_mem (mem s);
  at_low : forall e, e ∈ l1 -> end_ e.1 <= last;
  at_high : forall e, e ∈ l2 -> last < end_ e.1;
  at_last : 0 <= last /\ aligned last;
  at_end : aligned re /\ re < USIZE
}.

(** The state after an entry has been replaced by pieces of it. *)
Lemma at_next l1 e l2 X last re s s' :
  at_ l1 (e :: l2) last re s -> mem_ok X -> within X e.1 -> bad \/ plain_mem X ->
  mem s' = l1 ++ X ++ l2 -> at_ (l1 ++ X) l2 (end_ e.1) re s'.
Proof.
  intros [Hs Hok Hb H1 H2 Hla Hre] HX Hw HbX Hs'. rewrite Hs in *. pose proof (mem_ok_entry _ _ _ Hok) as He.
  pose proof (entry_nonempty _ He) as Hne. unfold nonempty in Hne.
  pose proof (eo_map _ He) as Hkm. destruct (entry_range _ He) as [Es Ee].
  pose proof (mem_ok_replace _ _ _ _ Hok HX Hw) as Hok'. split; rewrite ?Hs'; try done.
  - by rewrite app_assoc.
  - destruct Hb as [|Hb]; [by left|]. destruct HbX as [|HbX]; [by left|right]. unfold plain_mem in *.
    rewrite !Forall_app in *. rewrite Forall_cons in Hb. tauto.
  - apply mem_ok_app in Hok as (_ & _ & H12).
    intros x [Hx|Hx]%elem_of_app; [|by apply Hw].
    specialize (H12 x e Hx ltac:(left)). unfold ebefore, before in H12. lia.
  - intros x Hx. apply mem_ok_app in Hok as (_ & (_ & Hl2 & Hb2)%mem_ok_cons & _).
    specialize (Hb2 x Hx). unfold ebefore, before in Hb2. destruct Hl2 as [_ Hl2].
    apply (proj1 (Forall_forall _ _) Hl2), entry_nonempty in Hx. unfold nonempty in Hx. lia.
  - rewrite <- Ee. destruct Hkm. split; [lia|done].
Qed.

Lemma for_each_step {X} fuel f how rs l1 l2 last re (x : X) s :
  at_ l1 l2 last re s ->
  for_each_loop (S fuel) f how rs re last x s
  = if last <? re then
      match l2 with
      | [] => Ok (x, s)
      | e :: _ =>
          if re <=? start_ e.1 then Ok (x, s)
          else if bool_decide (how = IterateContiguous) && negb ((start_ e.1 <? rs) || (last =? start_ e.1))
          then Ok (x, s)
          else r ← f e.1 (mkRange last re) x s; for_each_loop fuel f how rs re (end_ e.1) r.1 r.2
      end
    else Ok (x, s).
Proof.
  intros [Hs [_ Hok] _ H1 H2 [Hla _] [_ Hre]]. cbn [for_each_loop].
  destruct (Z.ltb_spec last re) as [Hlt|]; [|done].
  unfold from_range. rewrite (proj2 (Z.leb_le last re)) by lia. cbn. rewrite Hs in *.
  rewrite mem_from_split by (done || lia). by destruct l2 as [|[k m] l2].
Qed.

Lemma at_meets l1 e l2 last re s :
  at_ l1 (e :: l2) last re s -> last < re -> start_ e.1 < re ->
  meets e (mkRange last re) /\ entry_ok e /\ (bad \/ plain e.2).
Proof.
  intros [Hs Hok Hb _ H2 [_ Hla] [Hre _]] Hlt Hmeet. rewrite Hs in *. split_and!.
  - specialize (H2 e ltac:(left)). unfold meets. done.
  - by apply mem_ok_entry in Hok.
  - destruct Hb as [|Hb]; [by left|right]. by apply Forall_app in Hb as [_ [? _]%Forall_cons].
Qed.

Lemma view_gap l1 l2 last re s a :
  at_ l1 l2 last re s -> last <= a -> (forall e, head l2 = Some e -> a < start_ e.1) -> view (mem s) a = None.
Proof.
  intros [Hs Hok Hb H1 H2 _ _] Ha Hh. rewrite Hs in *. rewrite view_app, (view_below l1 a last) by done.
  destruct l2 as [|e l2]; [done|]. simpl. specialize (Hh e eq_refl).
  destruct (contains_ptr e.1 a) eqn:Ec; [apply contains_ptr_true in Ec; lia|].
  apply (view_tail l1 e l2); [done|]. pose proof (entry_nonempty _ (mem_ok_entry _ _ _ Hok)). unfold nonempty in *. lia.
Qed.

(** Unmapping from [last] to [re] comes to the start of every mapping that is also mapped
    in rd with the end of another mapping or with its own start. *)
Fixpoint linked (last re : Z) (l : MemoryMap) : Prop :=
  match l with
  | [] => True
  | e :: l' => (is_Some (local_addr e.2) -> start_ e.1 < re -> start_ e.1 <= last) /\ linked (end_ e.1) re l'
  end.

Lemma unmap_loop fuel : unmaps -> forall s rs last re l1 l2,
  at_ l1 l2 last re s -> (length l2 < fuel)%nat -> bad \/ linked last re l2 ->
  rwp bad (for_each_loop fuel (fun k rem _ s => s ← unmapper munmap k rem s; Ok (tt, s))
             IterateDefault rs re last tt s)
    (fun r => mem_ok (mem r.2) /\ (bad \/ plain_mem (mem r.2)) /\ same_rest s r.2
       /\ forall a, view (mem r.2) a = if in_part a last re then None else view (mem s) a).
Proof.
  intros Hmunmap. induction fuel as [|fuel IH]; intros s rs last re l1 l2 Hat Hfuel Hlk; [lia|].
  destruct (Hat) as [Hs Hok Hb H1 _ _ _]. rewrite (for_each_step _ _ _ _ _ _ _ _ _ _ Hat).
  destruct (Z.ltb_spec last re) as [Hlt|Hge].
  2: { split_and!; try done. intros a. by destruct (in_part_spec a last re); [lia|]. }
  destruct l2 as [|e l2].
  { split_and!; try done. intros a. destruct (in_part_spec a last re); [|done].
    apply (view_gap _ _ _ _ _ _ Hat); [lia|done]. }
  destruct (Z.leb_spec re (start_ e.1)) as [Hge|Hmeet].
  { split_and!; try done. intros a. destruct (in_part_spec a last re); [|done].
    apply (view_gap _ _ _ _ _ _ Hat); [lia|]. intros ? [= <-]. lia. }
  rewrite bool_decide_eq_false_2 by done. cbn [andb]. apply rwp_bind, rwp_bind.
  destruct (at_meets _ _ _ _ _ _ Hat Hlt Hmeet) as (Hm & He & Hbe).
  destruct (pieces_ok e (mkRange last re) [] He Hm mem_ok_nil) as [HX Hw]; [by intros ? ?%not_elem_of_nil|].
  destruct (meets_map _ _ He Hm) as (_ & Hmr & _).
  pose proof (pieces_plain e (mkRange last re) [] ltac:(lia) Hbe ltac:(right; constructor)) as Hp.
  eapply rwp_mono; [eapply (unmapper_spec l1 e l2); try done; destruct Hlk as [|[Hlk _]]; [by left|right; auto]|]. cbn [app start_ end_]. intros s' [Hs' Hr]. unfold rwp at 1. cbn [fst snd].
  pose proof (at_next _ _ _ _ _ _ _ _ Hat HX Hw Hp Hs') as Hat'.
  eapply rwp_mono; [apply (IH s' rs (end_ e.1) re _ _ Hat'); [simpl in Hfuel; lia|destruct Hlk as [|[_ Hlk]]; [by left|by right]]|].
  intros r (Hok' & Hb' & Hr' & Hv). split_and!; try done; [by eapply same_rest_trans|]. intros a.
  rewrite Hs in Hok. rewrite Hv, Hs', (view_unmapped l1 e l2 (mkRange last re)), Hs by done. simpl.
  pose proof (at_high _ _ _ _ _ Hat e ltac:(left)).
  destruct (in_part_spec a (end_ e.1) re), (in_part_spec a last re), (Z.ltb_spec a (end_ e.1)); simpl; (done || lia).
Qed.

(** Reading the watched memory works. *)
Definition watch_ready (s : AddressSpace) : Prop :=
  exists memory read, reader = Some read /\ WatchMem.reads_memory memory read
    /\ WatchMem.wm_ok (watchpoints s) /\ Forall WatchMem.wp_ok (watchpoints s).

(** The invariant of an address space, as far as [bad] does not hold. *)
Record Inv (s : AddressSpace) : Prop := {
  inv_mem : mem_ok (mem s);
  inv_plain : bad \/ plain_mem (mem s);
  inv_watch : bad \/ watch_ready s;
  inv_dont_fork : bt_sorted range_cmp (dont_fork s)
}.

Lemma update_watch_spec start e s (Q : AddressSpace -> Prop) :
  start <= e -> bad \/ watch_ready s ->
  (forall w, (bad \/ watch_ready (set_watchpoints w s)) -> Q (set_watchpoints w s)) ->
  rwp bad (update_watch reader start e s) Q.
Proof.
  intros Hse Hw HQ. unfold update_watch. destruct Hw as [Hbad|(memory & read & Hr & Hrm & Hm & Hf)].
  - destruct (Watch.update_watchpoint_values _ _ _ _) as [w| | |]; simpl; try done. apply HQ. by left.
  - rewrite Hr, (WatchMem.update_values_spec memory) by done. simpl. apply HQ. right.
    exists memory, read. split_and!; try done; simpl.
    + revert Hm. apply WatchMem.wm_ok_keys. rewrite <- list_fmap_compose. apply list_fmap_ext. intros.
      symmetry. apply WatchMem.touch_key.
    + apply Forall_fmap, (Forall_impl _ _ _ Hf). intros kw. apply WatchMem.wp_ok_touch.
Qed.

(** The parts of the address space other than mappings and watchpoints. *)
Definition same_other (s s' : AddressSpace) : Prop :=
  dont_fork s' = dont_fork s /\ brk_end s' = brk_end s /\ vdso_start_addr s' = vdso_start_addr s.

(** A region of whole pages that an operation works on. *)
Definition region_ok (addr n : Z) : Prop := 0 <= addr /\ 0 <= n /\ addr + n + page_size < USIZE.

Definition region_end (addr n : Z) : Z := floor_page_size (addr + n + page_size - 1).

Lemma region_end_spec addr n : region_ok addr n ->
  ceil_page_size (ptr_add addr n) = Ok (region_end addr n)
  /\ aligned (region_end addr n) /\ addr + n <= region_end addr n < USIZE.
Proof.
  intros (? & ? & ?). pose proof page_size_pos. rewrite ptr_add_small by lia.
  assert (ceil_page_size (addr + n) = Ok (region_end addr n)) as E.
  { unfold ceil_page_size, checked_add, region_end. by destruct (Z.ltb_spec (addr + n + page_size) USIZE); [|lia]. }
  split; [done|]. destruct (ceil_page_spec _ _ E) as [? ?]. split; [done|]. lia.
Qed.

(** The loop over a region starts with the mappings that end after its start. *)
Lemma at_start addr n s : Inv s -> region_ok addr n ->
  exists l1 l2, at_ l1 l2 (floor_page_size addr) (region_end addr n) s
    /\ (length l2 <= length (mem s))%nat.
Proof.
  intros [Hok Hb _ _] Hr. destruct (region_end_spec addr n Hr) as (_ & Hre & Hre2).
  destruct (mem_split (mem s) (floor_page_size addr) Hok) as (l1 & l2 & E & H1 & H2).
  destruct Hr as (? & _). pose proof (floor_page_spec addr) as [[x Hx] ?]. pose proof page_size_pos.
  exists l1, l2. split; [|rewrite E, length_app; lia]. split; try done; [|split; [done|lia]].
  split; [|by exists x]. rewrite Hx in *. assert (0 <= x) by nia. nia.
Qed.

(** The mappings in a region that are also mapped in rd can be unmapped: those that do not
    begin at or before the region follow another mapping. *)
Definition detachable (rs re : Z) (s : AddressSpace) : Prop :=
  forall e, e ∈ mem s -> is_Some (local_addr e.2) -> rs < start_ e.1 < re -> exists e', e' ∈ mem s /\ end_ e'.1 = start_ e.1.

Lemma detachable_linked rs re l : forall l1 last, mem_ok (l1 ++ l) -> (forall e, e ∈ l1 -> end_ e.1 <= last) -> (forall e, e ∈ l -> rs < end_ e.1) -> rs <= last ->
  (forall e, e ∈ l1 ++ l -> is_Some (local_addr e.2) -> rs < start_ e.1 < re -> exists e', e' ∈ l1 ++ l /\ end_ e'.1 = start_ e.1) -> linked last re l.
Proof.
  induction l as [|e l IH]; intros l1 last Hok H1 H2 Hrs Hd; [done|].
  pose proof (mem_ok_entry _ _ _ Hok) as Hne%entry_nonempty. pose proof Hok as (_ & (_ & [_ Hf] & Hb)%mem_ok_cons & H12)%mem_ok_app. unfold nonempty in Hne. split.
  - intros Hi Hlt. destruct (Z.le_gt_cases (start_ e.1) last) as [|Hgt]; [done|].
    destruct (Hd e) as (e' & He' & Ee'); [set_solver|done|lia|]. exfalso.
    apply elem_of_app in He' as [He'|[->|He']%elem_of_cons]; [specialize (H1 e' He'); lia|lia|].
    specialize (Hb e' He'). unfold ebefore, before in Hb. rewrite Forall_forall in Hf. apply Hf, entry_nonempty in He'. unfold nonempty in He'. lia.
  - rewrite cons_middle, app_assoc in Hok, Hd. apply (IH (l1 ++ [e])); try done; [|intros x Hx; apply H2; by right|specialize (H2 e ltac:(left)); lia].
    intros x [Hx| ->%list_elem_of_singleton]%elem_of_app; [|lia]. specialize (H12 x e Hx ltac:(left)). unfold ebefore, before in H12. lia.
Qed.

Lemma unmap_internal_spec addr n s : unmaps ->
  Inv s -> region_ok addr n -> bad \/ detachable (floor_page_size addr) (region_end addr n) s ->
  rwp bad (unmap_internal reader munmap addr n s) (fun s' =>
    Inv s' /\ same_other s s'
    /\ forall a, view (mem s') a
         = if in_part a (floor_page_size addr) (region_end addr n) then None else view (mem s) a).
Proof.
  intros Hmunmap Hi Hr Hdet. destruct (at_start addr n s Hi Hr) as (l1 & l2 & Hat & Hlen). destruct Hi as [Hok Hb Hw Hd].
  unfold unmap_internal, for_each_in_range. rewrite (proj1 (region_end_spec addr n Hr)).
  cbn [mbind res_bind]. apply rwp_bind.
  eapply rwp_mono; [apply (unmap_loop _ Hmunmap s _ _ _ _ _ Hat); [lia|destruct Hdet; [by left|right]]|].
  { destruct Hat as [Hs Hok1 _ H1 H2 _ _]. unfold detachable in *. rewrite Hs in *. by apply (detachable_linked (floor_page_size addr) _ l2 l1). }
  intros [[] s1] (Hok' & Hb' & (Ed & Ew & Ebr & Ev) & Hv). cbn [snd] in *.
  assert (bad \/ watch_ready s1) as Hw1 by (unfold watch_ready; by rewrite Ew).
  apply update_watch_spec; [|done|].
  { destruct Hr as (? & ? & ?). pose proof page_size_pos. rewrite ptr_add_small; lia. }
  intros w Hw2. split; [split; simpl; [done|done|done|by rewrite Ed]|]. done.
Qed.

(** ** Coalescing *)

Lemma adjacent_spec l r : km_ok l -> km_ok r ->
  exists b, is_adjacent_mapping l r RespectHeap None = Ok b
    /\ (b = true -> km_end l = km_start r /\ kattrs l = kattrs r).
Proof.
  intros Hl Hr. unfold is_adjacent_mapping. destruct (Z.eqb_spec (km_end l) (km_start r)) as [E|]; simpl; [|by exists false].
  destruct (Z.eqb_spec (Z.land (Z.lxor (flags_ l) (flags_ r)) (Z.lnot 0)) 0) as [Ef|]; simpl; [|by exists false].
  destruct (Z.eqb_spec (prot_ l) (prot_ r)) as [Ep|]; simpl; [|by exists false].
  destruct (normalized_file_names_equal _ _ _); simpl; [|by exists false].
  destruct (Z.eqb_spec (device_ l) (device_ r)) as [Ed|]; simpl; [|by exists false].
  destruct (Z.eqb_spec (inode_ l) (inode_ r)) as [Ei|]; simpl; [|by exists false].
  rewrite Z.lnot_0, Z.land_m1_r in Ef. apply Z.lxor_eq in Ef.
  assert (is_real_device l = is_real_device r) as Er by (unfold is_real_device; by rewrite Ed).
  destruct (is_real_device l) eqn:El.
  - unfold checked_add. rewrite km_size_ok by done. pose proof (km_file _ Hl El).
    destruct (Z.ltb_spec (offset l + (km_end l - km_start l)) USIZE); [|lia]. simpl. eexists. split; [done|].
    intros Eo%Z.eqb_eq. split; [done|]. unfold kattrs. rewrite El, <- Er, Ep, Ef, Ed, Ei. f_equal. lia.
  - exists true. split; [done|]. intros _. split; [done|]. unfold kattrs. by rewrite El, <- Er, Ep, Ef, Ed, Ei.
Qed.

Lemma coalescable_spec e1 e2 : entry_ok e1 -> entry_ok e2 ->
  exists b, is_coalescable e1.2 e2.2 = Ok b
    /\ (b = true -> end_ e1.1 = start_ e2.1 /\ kattrs (map e1.2) = kattrs (map e2.2)
          /\ kattrs (recorded_map e1.2) = kattrs (recorded_map e2.2) /\ mflags e1.2 = mflags e2.2).
Proof.
  intros H1 H2. destruct (entry_range _ H1) as [_ E1]. destruct (entry_range _ H2) as [E2 _].
  destruct (adjacent_spec _ _ (eo_map _ H1) (eo_map _ H2)) as ([] & Ha & Hb); unfold is_coalescable; rewrite Ha; simpl.
  2: { by exists false. }
  destruct (Hb eq_refl) as [? ?].
  destruct (adjacent_spec _ _ (eo_recorded _ H1) (eo_recorded _ H2)) as ([] & Hc & Hd); rewrite Hc; simpl.
  2: { by exists false. }
  destruct (Hd eq_refl) as [? ?]. eexists. split; [done|]. intros ?%Z.eqb_eq. split_and!; try done. congruence.
Qed.

Lemma assert_coalesceable_spec e1 e2 (Q : unit -> Prop) :
  entry_ok e1 -> entry_ok e2 -> bad \/ (plain e1.2 /\ plain e2.2) ->
  end_ e1.1 = start_ e2.1 -> kattrs (map e1.2) = kattrs (map e2.2) ->
  kattrs (recorded_map e1.2) = kattrs (recorded_map e2.2) -> mflags e1.2 = mflags e2.2 ->
  (attrs e1.2 = attrs e2.2 -> Q tt) ->
  rwp bad (assert_coalesceable e1.2 e2.2) Q.
Proof.
  intros H1 H2 Hb Ej Em Er Ef HQ. destruct (entry_range _ H1) as [E1 E1']. destruct (entry_range _ H2) as [E2 _].
  assert (bad \/ (emu_file e1.2 = emu_file e2.2 /\ at_local (attrs e1.2) = at_local (attrs e2.2)
    /\ monitored_shared_memory e1.2 = None /\ monitored_shared_memory e2.2 = None
    /\ forall l, local_addr e2.2 = Some l -> l < USIZE)) as Hb'.
  { destruct Hb as [|[(? & Hu1 & Hl1 & _) (? & Hu2 & Hl2 & Hb2)]]; [by left|right].
    pose proof Em as [= _ E3 E4 E5 _]. rewrite Hl1, Hl2, Hu1, Hu2, Em, E3, E4, E5. split_and!; try done.
    intros l El. specialize (Hb2 l El). pose proof (km_nonempty _ (eo_map _ H2)). lia. }
  unfold assert_coalesceable. apply rwp_bind, rwp_assert.
  2: { destruct Hb' as [|(? & _)]; [by left|right]. by apply bool_decide_eq_true. }
  intros Eu%bool_decide_eq_true. apply rwp_bind.
  apply (rwp_mono _ _ (fun _ => at_local (attrs e1.2) = at_local (attrs e2.2))).
  { unfold attrs. cbn [at_local]. unfold attrs in Hb'. cbn [at_local] in Hb'.
    destruct (local_addr e1.2) as [l1|] eqn:L1, (local_addr e2.2) as [l2|] eqn:L2; simpl in *;
      try done; try (by destruct Hb' as [|(_ & ? & _)]).
    pose proof (km_size_ok _ (eo_map _ H1)) as Esz. unfold checked_add.
    destruct (Z.ltb_spec (l1 + km_size (map e1.2)) USIZE) as [|Hov]; simpl.
    - destruct (Z.eqb_spec (l1 + km_size (map e1.2)) l2) as [El|Hne]; simpl; [f_equal; lia|].
      destruct Hb' as [|(_ & El & _)]; [done|]. injection El as El. lia.
    - destruct Hb' as [|(_ & El & _ & _ & Hl)]; [done|]. injection El as El. specialize (Hl l2 eq_refl). lia. }
  intros [] El. apply rwp_bind, rwp_assert; [|right; by apply Z.eqb_eq]. intros _.
  apply rwp_assert.
  - intros [M1%bool_decide_eq_true M2%bool_decide_eq_true]%andb_true_iff. apply HQ. unfold attrs in *. cbn [at_local] in El. congruence.
  - destruct Hb' as [|(_ & _ & -> & -> & _)]; [by left|by right].
Qed.

(** Entries with the same attributes that follow each other. *)
Fixpoint run (A : Attrs) (s e : Z) (R : list Entry) : Prop :=
  match R with
  | [] => s = e
  | x :: R' => start_ x.1 = s /\ attrs x.2 = A /\ run A (end_ x.1) e R'
  end.

Lemma run_app A s e R1 R2 : run A s e (R1 ++ R2) <-> exists m, run A s m R1 /\ run A m e R2.
Proof.
  revert s. induction R1 as [|x R1 IH]; intros s; simpl.
  - split; [by exists s|by intros (? & -> & ?)].
  - rewrite IH. split; [intros (? & ? & m & ? & ?); by exists m|intros (m & (? & ? & ?) & ?); eauto].
Qed.

Lemma run_le A s e R : run A s e R -> Forall entry_ok R -> s <= e.
Proof.
  revert s. induction R as [|x R IH]; simpl; intros s; [lia|]. intros (<- & _ & Hr) [He Hf]%Forall_cons.
  apply entry_nonempty in He. unfold nonempty in He. specialize (IH _ Hr Hf). lia.
Qed.

Lemma view_run A s e R a : run A s e R -> Forall entry_ok R -> view R a = if in_part a s e then Some A else None.
Proof.
  revert s. induction R as [|x R IH]; simpl; intros s.
  - intros -> _. destruct (in_part_spec a e e); [lia|done].
  - intros (<- & Ha & Hr) [He Hf]%Forall_cons. pose proof (run_le _ _ _ _ Hr Hf). rewrite (IH _ Hr Hf), Ha.
    apply entry_nonempty in He. unfold nonempty in He. unfold contains_ptr. fold (in_part a (start_ x.1) (end_ x.1)).
    destruct (in_part_spec a (start_ x.1) (end_ x.1)), (in_part_spec a (end_ x.1) e), (in_part_spec a (start_ x.1) e); (done || lia).
Qed.

(** One step of the search for neighbours. *)
Lemma coalesce_step {B} e1 e2 (stop : B) (k : res B) (Q : B -> Prop) :
  entry_ok e1 -> entry_ok e2 -> bad \/ (plain e1.2 /\ plain e2.2) -> Q stop ->
  (end_ e1.1 = start_ e2.1 -> attrs e1.2 = attrs e2.2 -> rwp bad k Q) ->
  rwp bad (c ← is_coalescable e1.2 e2.2;
           if negb c then Ok stop else _ ← assert_coalesceable e1.2 e2.2; k) Q.
Proof.
  intros H1 H2 Hb Hstop Hk. destruct (coalescable_spec e1 e2 H1 H2) as ([] & -> & Hc); simpl; [|done].
  destruct (Hc eq_refl) as (Ej & Em & Er & Ef). apply rwp_bind, assert_coalesceable_spec; try done. intros. by apply Hk.
Qed.

Lemma plain_two l e1 e2 : bad \/ plain_mem l -> e1 ∈ l -> e2 ∈ l -> bad \/ (plain e1.2 /\ plain e2.2).
Proof.
  intros [?|Hl] ? ?; [by left|right]. unfold plain_mem in Hl. rewrite Forall_forall in Hl. auto.
Qed.

Lemma coalesce_back_spec prevs : forall first,
  Forall entry_ok (first :: prevs) -> bad \/ plain_mem (first :: prevs) ->
  rwp bad (coalesce_back first prevs) (fun f => exists R rest,
    first :: prevs = rev (f :: R) ++ rest /\ run (attrs first.2) (start_ f.1) (end_ first.1) (f :: R)).
Proof.
  induction prevs as [|p prevs IH]; intros first Hf Hb; cbn [coalesce_back].
  - exists [], []. done.
  - apply Forall_cons in Hf as [He Hf]. pose proof Hf as [Hp _]%Forall_cons.
    apply coalesce_step; [done|done|apply (plain_two _ p first Hb); set_solver|by exists [], (p :: prevs)|].
    intros Ej Ea. eapply rwp_mono; [apply IH; [done|]|].
    { destruct Hb as [|Hb]; [by left|right]. by apply Forall_cons in Hb as [_ ?]. }
    intros f (R & rest & E & Hr). exists (R ++ [first]), rest. split.
    + rewrite app_comm_cons, rev_unit. simpl in *. by rewrite E.
    + rewrite app_comm_cons. apply run_app. exists (end_ p.1). rewrite <- Ea. split; [done|]. simpl. by rewrite Ea.
Qed.

Lemma coalesce_forward_spec nexts : forall last,
  Forall entry_ok (last :: nexts) -> bad \/ plain_mem (last :: nexts) ->
  rwp bad (coalesce_forward last nexts) (fun g => exists R rest,
    last :: nexts = (R ++ [g]) ++ rest /\ run (attrs last.2) (start_ last.1) (end_ g.1) (R ++ [g])).
Proof.
  induction nexts as [|n nexts IH]; intros last Hf Hb; cbn [coalesce_forward].
  - exists [], []. done.
  - apply Forall_cons in Hf as [He Hf]. pose proof Hf as [Hn _]%Forall_cons.
    apply coalesce_step; [done|done|apply (plain_two _ last n Hb); set_solver|by exists [], (n :: nexts)|].
    intros Ej Ea. eapply rwp_mono; [apply IH; [done|]|].
    { destruct Hb as [|Hb]; [by left|right]. by apply Forall_cons in Hb as [_ ?]. }
    intros g (R & rest & E & Hr). exists (last :: R), rest. split; [simpl; by rewrite E|].
    simpl. split_and!; try done. by rewrite Ej, Ea.
Qed.

Lemma remove_keys_middle R : forall l1 l2, mem_ok (l1 ++ R ++ l2) -> remove_keys (fst <$> R) (l1 ++ R ++ l2) = l1 ++ l2.
Proof.
  induction R as [|[k m] R IH]; intros l1 l2 Hok; simpl; [done|]. unfold remove_keys in *. simpl.
  rewrite mem_remove_middle by done. apply IH.
  apply mem_ok_app in Hok as (H1 & (_ & H2 & _)%mem_ok_cons & H12). apply mem_ok_app. split_and!; try done.
  intros e1 e2 He1 He2. apply H12; [done|by right].
Qed.

Definition m_extend (m : Mapping) (e : Z) : Mapping :=
  mkMapping (km_extend (map m) e) (km_extend (recorded_map m) e) (emu_file m) (mapped_file_stat m)
    (local_addr m) (monitored_shared_memory m) (mflags m).

Lemma km_extend_ok k g : km_ok k -> km_ok g -> km_end k <= km_end g -> kattrs k = kattrs g ->
  km_ok (km_extend k (km_end g)).
Proof.
  intros [] [] Hle E. unfold kattrs in E. injection E as _ _ Ed _ Eb.
  split; unfold km_extend, km_start, km_end; simpl; try done.
  - unfold km_start, km_end in *. lia.
  - unfold is_real_device in *. simpl. intros Hr. rewrite <- Ed, Hr in *.
    unfold km_start, km_end in *. specialize (km_file1 eq_refl). lia.
Qed.

(** An extended entry in place of a run of entries. *)
Lemma extend_entry f g : entry_ok f -> entry_ok g -> attrs f.2 = attrs g.2 -> end_ f.1 <= end_ g.1 ->
  extend (map f.2) (end_ g.1) = Ok (km_extend (map f.2) (end_ g.1))
  /\ extend (recorded_map f.2) (end_ g.1) = Ok (km_extend (recorded_map f.2) (end_ g.1))
  /\ entry_ok (mkRange (start_ f.1) (end_ g.1), m_extend f.2 (end_ g.1)).
Proof.
  intros Hf Hg Ea Hle. destruct (entry_range _ Hg) as [_ Eg].
  pose proof (f_equal at_map Ea) as Em. pose proof (f_equal at_rec Ea) as Er. simpl in Em, Er.
  destruct Hf as [F1 F2 F3 F4], Hg as [G1 G2 G3 G4].
  assert (km_end (recorded_map g.2) = end_ g.1) as Eg' by (unfold km_end; by rewrite G2).
  pose proof (km_bound _ G3). pose proof (km_end_al _ G3). rewrite Eg in *.
  assert (km_end (map f.2) <= end_ g.1) by (unfold km_end; by rewrite F1).
  assert (km_end (recorded_map f.2) <= end_ g.1) by (unfold km_end; by rewrite F2).
  split_and!; [by apply extend_ok..|]. split; simpl.
  - unfold km_extend, km_start. simpl. by rewrite F1.
  - unfold km_extend, km_start. simpl. by rewrite F2.
  - rewrite <- Eg. apply km_extend_ok; try done. by rewrite Eg.
  - rewrite <- Eg'. apply km_extend_ok; try done. by rewrite Eg'.
Qed.

(** The run back to [f] and the run forward to [g] of the same entry. *)
Lemma runs_join A l1 e l2 f g R1 rest1 R2 rest2 :
  e :: rev l1 = rev (f :: R1) ++ rest1 -> run A (start_ f.1) (end_ e.1) (f :: R1) ->
  e :: l2 = (R2 ++ [g]) ++ rest2 -> run A (start_ e.1) (end_ g.1) (R2 ++ [g]) ->
  exists L1 R L2, l1 ++ e :: l2 = L1 ++ R ++ L2 /\ run A (start_ f.1) (end_ g.1) R
    /\ (exists R', R = f :: R') /\ (exists R', R = R' ++ [g]).
Proof.
  intros E1 Hr1 E2 Hr2.
  assert (l1 ++ [e] = rev rest1 ++ f :: R1) as E1'.
  { apply (f_equal (@rev _)) in E1. rewrite rev_app_distr, rev_involutive in E1. simpl in E1. by rewrite rev_involutive in E1. }
  destruct (exists_last (l := f :: R1)) as (R0 & x & E0); [done|].
  rewrite E0, app_assoc in E1'. apply app_inj_tail in E1' as [-> <-].
  destruct R2 as [|y R2]; simpl in E2; injection E2 as -> ->.
  - exists (rev rest1), (R0 ++ [g]), rest2. rewrite <- app_assoc. simpl. rewrite <- app_assoc. split; [done|].
    rewrite <- E0. split; [done|]. split; [by exists R1|]. exists R0. done.
  - exists (rev rest1), (R0 ++ y :: R2 ++ [g]), rest2. split; [|split; [|split]].
    + rewrite <- !app_assoc. simpl. by rewrite <- app_assoc.
    + rewrite E0 in Hr1. apply run_app in Hr1 as (m & Hm & Hy). apply run_app. exists m. split; [done|].
      simpl in Hr2, Hy. simpl. destruct Hy as (<- & ? & _). tauto.
    + exists (tail R0 ++ if R0 then R2 ++ [g] else y :: R2 ++ [g]).
      destruct R0 as [|z R0]; simpl in *; injection E0 as -> ?; done.
    + exists (R0 ++ y :: R2). by rewrite <- app_assoc.
Qed.

Lemma run_elem A s e R x : run A s e R -> Forall entry_ok R -> x ∈ R ->
  s <= start_ x.1 /\ end_ x.1 <= e /\ attrs x.2 = A.
Proof.
  revert s. induction R as [|y R IH]; intros s; [by intros _ _ ?%not_elem_of_nil|]. simpl.
  intros (<- & Ha & Hr) [He Hf]%Forall_cons Hx. pose proof (run_le _ _ _ _ Hr Hf).
  apply entry_nonempty in He. unfold nonempty in He.
  apply elem_of_cons in Hx as [->|Hx]; [split_and!; (done || lia)|].
  destruct (IH _ Hr Hf Hx) as (? & ? & ?). split_and!; (done || lia).
Qed.

(** A run of entries replaced by one entry that covers it. *)
Lemma run_replace A L1 R L2 s e m :
  mem_ok (L1 ++ R ++ L2) -> run A s e R -> s < e -> entry_ok (mkRange s e, m) -> attrs m = A ->
  mem_ok (L1 ++ (mkRange s e, m) :: L2)
  /\ (forall x, x ∈ L1 ++ L2 -> before x.1 (mkRange s e) \/ before (mkRange s e) x.1)
  /\ forall a, view (L1 ++ (mkRange s e, m) :: L2) a = view (L1 ++ R ++ L2) a.
Proof.
  intros Hok Hr Hse He Ha. pose proof Hok as (H1 & (HR & H2 & HR2)%mem_ok_app & H12)%mem_ok_app.
  assert (forall x, x ∈ L1 -> end_ x.1 <= s) as HL1.
  { intros x Hx. destruct R as [|y R]; simpl in Hr; [lia|]. destruct Hr as (<- & _). apply (H12 x y); [done|left]. }
  assert (forall x, x ∈ L2 -> e <= start_ x.1) as HL2.
  { intros x Hx. destruct (exists_last (l := R)) as (R0 & y & ->); [by intros ->; simpl in Hr; lia|].
    apply run_app in Hr as (m' & _ & Hy). simpl in Hy. destruct Hy as (_ & _ & <-).
    apply (HR2 y x); [|done]. apply elem_of_app. right. left. }
  split_and!.
  - apply mem_ok_app. split_and!; [done| |].
    + by apply mem_ok_cons.
    + intros x y Hx [->|Hy]%elem_of_cons; [by apply HL1|]. apply H12; [done|]. apply elem_of_app. by right.
  - intros x [Hx|Hx]%elem_of_app; [left; by apply HL1|right; by apply HL2].
  - intros a. rewrite !view_app, (view_run A s e R) by (done || apply HR). simpl.
    unfold contains_ptr. simpl. fold (in_part a s e). rewrite Ha. by destruct (in_part a s e).
Qed.

(** What a coalescing keeps. *)
Definition kept (s s' : AddressSpace) : Prop :=
  mem_ok (mem s') /\ (bad \/ plain_mem (mem s')) /\ same_rest s s'
  /\ forall a, view (mem s') a = view (mem s) a.

Lemma attrs_extend m e : attrs (m_extend m e) = attrs m.
Proof. done. Qed.

Lemma mem_from_key l1 e l2 : mem_ok (l1 ++ e :: l2) -> mem_from e.1 (l1 ++ e :: l2) = e :: l2.
Proof.
  intros Hok. pose proof (entry_nonempty _ (mem_ok_entry _ _ _ Hok)) as Hne.
  pose proof Hok as (_ & _ & H12)%mem_ok_app. apply mem_from_app; [done|apply Hok| |].
  - intros x Hx. apply (H12 x e Hx). left.
  - intros x [= <-]. unfold before, nonempty in *. lia.
Qed.

Lemma mem_upto_key l1 e l2 : mem_ok (l1 ++ e :: l2) -> mem_upto e.1 (l1 ++ e :: l2) = l1 ++ [e].
Proof.
  intros Hok. pose proof (entry_nonempty _ (mem_ok_entry _ _ _ Hok)) as Hne. unfold nonempty in Hne.
  pose proof Hok as ([_ H1] & (_ & _ & Hb)%mem_ok_cons & H12)%mem_ok_app. rewrite Forall_forall in H1.
  rewrite (cons_middle e l1 l2), app_assoc in *. apply mem_upto_app; [done|apply Hok| |].
  - unfold before. intros x [Hx|Hx]%elem_of_app.
    + specialize (H12 x e Hx ltac:(left)). apply H1, entry_nonempty in Hx. unfold ebefore, before, nonempty in *. lia.
    + apply list_elem_of_singleton in Hx as ->. lia.
  - intros x Hx. destruct l2; [done|]. injection Hx as ->. apply (Hb x). left.
Qed.

Lemma plain_extend (f g : Entry) : entry_ok g -> plain f.2 -> plain g.2 -> attrs f.2 = attrs g.2 -> plain (m_extend f.2 (end_ g.1)).
Proof.
  intros Hg (Hm & Hu & Hl & _) (_ & _ & _ & Hb) Ea. split_and!; try done. destruct (entry_range _ Hg) as [Es Ee].
  unfold m_extend, km_extend, km_end, km_start in *. cbn [local_addr map mr start_ end_]. intros l El.
  apply (f_equal at_local) in Ea. unfold attrs, km_start in Ea. cbn [at_local] in Ea. rewrite El in Ea.
  destruct (local_addr g.2) as [lg|]; [|done]. specialize (Hb lg eq_refl). injection Ea as Ea. lia.
Qed.

Lemma kept_refl s : mem_ok (mem s) -> bad \/ plain_mem (mem s) -> kept s s.
Proof. by unfold kept, same_rest. Qed.

(** The last step: a run of two or more entries becomes one. *)
Lemma coalesce_replace A L1 R L2 f g s :
  mem s = L1 ++ R ++ L2 -> mem_ok (mem s) -> bad \/ plain_mem (mem s) ->
  run A (start_ f.1) (end_ g.1) R -> (exists R', R = f :: R') -> (exists R', R = R' ++ [g]) ->
  rwp bad (k ← extend (map f.2) (end_ g.1);
    r ← extend (recorded_map f.2) (end_ g.1);
    let new_m := with_flags (new_mapping k r (emu_file f.2) (mapped_file_stat f.2)
                   (local_addr f.2) (monitored_shared_memory f.2)) (mflags f.2) in
    let to_remove := fst <$> mem_upto g.1 (mem_from f.1 (mem s)) in
    let l := remove_keys to_remove (mem s) in
    _ ← assert_ (match mem_get (mr (map new_m)) l with Some _ => false | None => true end);
    Ok (set_mem (mem_insert (mr (map new_m)) new_m l) s)) (kept s).
Proof.
  intros Hs Hok Hb Hr [R1 Ef] [R2 Eg]. rewrite Hs in *. pose proof Hok as (_ & (HR & HL2 & _)%mem_ok_app & _)%mem_ok_app.
  assert (f ∈ R) as Hinf by (rewrite Ef; left).
  assert (g ∈ R) as Hing by (rewrite Eg; apply elem_of_app; right; left).
  destruct HR as [HsR HR]. destruct (run_elem _ _ _ _ _ Hr HR Hinf) as (_ & Hle & Af).
  destruct (run_elem _ _ _ _ _ Hr HR Hing) as (_ & _ & Ag).
  pose proof HR as HR'. rewrite Forall_forall in HR'.
  destruct (extend_entry f g) as (-> & -> & Hnew); [by apply HR'|by apply HR'|congruence|done|].
  pose proof (entry_nonempty _ (HR' f Hinf)) as Hnf. unfold nonempty in Hnf.
  destruct (run_replace A L1 R L2 _ _ _ Hok Hr ltac:(lia) Hnew) as (Hok' & Hdis & Hview); [by rewrite attrs_extend|].
  assert (mem_upto g.1 (mem_from f.1 (L1 ++ R ++ L2)) = R) as ->.
  { rewrite Ef in Hok |- * at 1. simpl in *. rewrite mem_from_key by done. rewrite app_comm_cons, <- Ef.
    apply mem_ok_app in Hok as (_ & Hok & _). rewrite app_comm_cons, <- Ef in Hok.
    rewrite Eg in *. rewrite <- app_assoc in *. simpl in *. by apply mem_upto_key. }
  cbn [mbind res_bind]. cbv zeta. rewrite remove_keys_middle by done.
  change (with_flags _ (mflags f.2)) with (m_extend f.2 (end_ g.1)).
  rewrite (eo_key _ Hnew : mr (map (m_extend f.2 (end_ g.1))) = mkRange (start_ f.1) (end_ g.1)).
  rewrite mem_get_None; [|apply (entry_nonempty _ Hnew)| |done].
  2: { destruct Hok' as [_ Hf]. rewrite Forall_app, Forall_cons in Hf. rewrite Forall_app. tauto. }
  cbn [assert_ mbind res_bind rwp]. unfold kept. cbn [mem set_mem].
  rewrite (mem_insert_middle L1 _ (m_extend f.2 (end_ g.1)) L2 Hok').
  split_and!; [done| |done|by rewrite Hs].
  destruct Hb as [|Hb]; [by left|right]. unfold plain_mem in *. rewrite !Forall_app, Forall_cons in *.
  destruct Hb as (? & Hbf & ?). rewrite Forall_forall in Hbf. split; [done|]. split; [|done].
  apply (plain_extend f g); [by apply HR'|by apply Hbf|by apply Hbf|congruence].
Qed.

Lemma coalesce_around_spec l1 e l2 s :
  mem s = l1 ++ e :: l2 -> mem_ok (mem s) -> bad \/ plain_mem (mem s) ->
  rwp bad (coalesce_around e.1 s) (kept s).
Proof.
  intros Hs Hok Hb. unfold coalesce_around. rewrite Hs in Hok.
  assert (mem_upto e.1 (mem s) = l1 ++ [e]) as -> by (rewrite Hs; by apply mem_upto_key).
  assert (mem_from e.1 (mem s) = e :: l2) as -> by (rewrite Hs; by apply mem_from_key).
  rewrite rev_unit. cbn [unwrap mbind res_bind fst snd].
  assert (Forall entry_ok l1 /\ Forall entry_ok (e :: l2)) as [Hf1 Hf2].
  { destruct Hok as [_ Hok]. by apply Forall_app in Hok. }
  assert (bad \/ plain_mem (e :: rev l1)) as Hb1.
  { destruct Hb as [|Hb]; [by left|right]. unfold plain_mem in *.
    rewrite Hs, Forall_app, Forall_cons in Hb. rewrite Forall_cons. split; [tauto|]. apply Forall_rev. tauto. }
  assert (bad \/ plain_mem (e :: l2)) as Hb2.
  { destruct Hb as [|Hb]; [by left|right]. unfold plain_mem in *. rewrite Hs, Forall_app in Hb. tauto. }
  apply rwp_bind. eapply rwp_mono; [apply (coalesce_back_spec _ _)|].
  { apply Forall_cons in Hf2 as [? _]. constructor; [done|]. by apply Forall_rev. }
  { done. }
  intros f (R1 & rest1 & E1 & Hr1). apply rwp_bind. eapply rwp_mono; [by apply coalesce_forward_spec|].
  intros g (R2 & rest2 & E2 & Hr2).
  destruct (runs_join _ _ _ _ _ _ _ _ _ _ E1 Hr1 E2 Hr2) as (L1 & R & L2 & E & Hr & HRf & HRg).
  destruct (match key_cmp f.1 g.1 with Eq => true | _ => false end).
  - apply kept_refl; [by rewrite Hs|done].
  - apply (coalesce_replace (attrs e.2) L1 R L2); try done; rewrite Hs; done.
Qed.

End Proofs.
End AddrProofs.
