(* ===== verification/AddressSpaceOps.v ===== *)
(** The operations of [AddressSpace] on well-formed memory maps: what each byte is
    mapped to afterwards, and that the operations keep the map well formed. *)

From S2P Require Import Prelude MemoryRange KernelMapping Watchpoints WatchMemory AddressSpace AddressSpaceProofs.

Module AddrOps.
Import Range KMap AddrSpace AddrProofs.

Section Ops.
Context `{PageSize} (files : Files)
  (reader : option (Z -> Z -> option (list Z))) (munmap : Z -> Z -> bool) (bad : Prop).

Local Notation Inv := (Inv files reader bad).
Local Notation plain := (plain files).
Local Notation plain_mem := (plain_mem files).
Local Notation at_ := (at_ files bad).

(** ** [mapping_of] *)

Lemma mapping_of_spec s a : mem_ok (mem s) -> 0 <= a -> a + 1 < USIZE ->
  match mapping_of s a with
  | Some m => (mr (map m), m) ∈ mem s /\ contains_ptr (mr (map m)) a = true /\ view (mem s) a = Some (attrs m)
  | None => view (mem s) a = None
  end.
Proof.
  intros Hok H0 Ha. destruct (mem_split (mem s) a Hok) as (l1 & l2 & E & H1 & H2). unfold mapping_of.
  rewrite E in *. rewrite mem_from_split by (done || apply Hok).
  destruct l2 as [|[k m] l2]; [rewrite app_nil_r; by apply (view_below l1 a a)|].
  pose proof (mem_ok_entry _ _ _ Hok) as He. pose proof (eo_key _ He) as Ek. simpl in Ek. rewrite Ek.
  assert (view (l1 ++ (k, m) :: l2) a = if contains_ptr k a then Some (attrs m) else None) as Hv.
  { rewrite view_app, (view_below l1 a a) by (done || lia). simpl. destruct (contains_ptr k a); [done|].
    apply (view_tail l1 (k, m) l2); [done|]. apply (H2 (k, m)). left. }
  destruct (contains_ptr k a) eqn:Ec; [|done]. rewrite mem_get_middle by done. rewrite Ek.
  split_and!; [|done|done]. apply elem_of_app. right. left.
Qed.

(** ** Mapping *)

(** A region without mappings splits the map. *)
Lemma free_split l s e : mem_ok l -> s < e -> (forall a, s <= a < e -> view l a = None) ->
  exists l1 l2, l = l1 ++ l2 /\ (forall x, x ∈ l1 -> end_ x.1 <= s) /\ (forall x, x ∈ l2 -> e <= start_ x.1).
Proof.
  intros Hok Hse Hv. destruct (mem_split l s Hok) as (l1 & l2 & -> & H1 & H2). exists l1, l2. split_and!; try done.
  intros x Hx. destruct (Z.le_gt_cases e (start_ x.1)); [done|]. specialize (H2 x Hx).
  assert (x ∈ l1 ++ l2) as Hin by (apply elem_of_app; by right).
  pose proof Hok as [_ Hf]. rewrite Forall_forall in Hf. pose proof (entry_nonempty _ (Hf x Hin)) as Hne.
  unfold nonempty in Hne.
  specialize (Hv (Z.max s (start_ x.1)) ltac:(lia)).
  rewrite (view_elem _ x _ Hok Hin) in Hv; [done|]. apply contains_ptr_true. lia.
Qed.

Lemma map_and_coalesce_spec km rec emuf stat local mon s :
  let m := new_mapping km rec emuf stat local mon in
  Inv s -> entry_ok (mr km, m) -> bad \/ plain m ->
  (forall a, contains_ptr (mr km) a = true -> view (mem s) a = None) ->
  rwp bad (map_and_coalesce reader km rec emuf stat local mon s) (fun s' =>
    Inv s' /\ same_other s s'
    /\ forall a, view (mem s') a = if contains_ptr (mr km) a then Some (attrs m) else view (mem s) a).
Proof.
  intros m [Hok Hb Hw Hd] He Hbm Hfree. pose proof (entry_nonempty _ He) as Hne. unfold nonempty in Hne. simpl in Hne.
  destruct (free_split (mem s) (start_ (mr km)) (end_ (mr km)) Hok Hne) as (l1 & l2 & E & H1 & H2).
  { intros a Ha. apply Hfree. by apply contains_ptr_true. }
  unfold map_and_coalesce. fold m.
  set (s1 := set_mem _ _).
  assert (mem_ok (l1 ++ (mr km, m) :: l2)) as Hok1.
  { rewrite E in Hok. apply mem_ok_app in Hok as (? & ? & H12). apply mem_ok_app. split_and!; try done.
    - apply mem_ok_cons. done.
    - intros x y Hx [->|Hy]%elem_of_cons; [by apply H1|auto]. }
  assert (mem s1 = l1 ++ (mr km, m) :: l2) as E1.
  { unfold s1. simpl. transitivity (mem_insert (mr km) m (mem s)); [by destruct mon|]. rewrite E. by apply mem_insert_middle. }
  assert (same_rest s s1) as Hr by (by destruct mon).
  apply rwp_bind. eapply rwp_mono; [apply (coalesce_around_spec files bad l1 (mr km, m) l2)|].
  { done. }
  { by rewrite E1. }
  { rewrite E1. destruct Hb as [|Hb]; [by left|]. destruct Hbm as [|Hbm]; [by left|right].
    unfold AddrProofs.plain_mem in *. rewrite E, Forall_app in Hb. rewrite Forall_app, Forall_cons. tauto. }
  intros s2 (Hok2 & Hb2 & Hr2 & Hv2). pose proof (same_rest_trans _ _ _ Hr Hr2) as (Ed & Ew & Ebr & Ev).
  apply (update_watch_spec reader bad); [unfold km_start, km_end; lia| |].
  { destruct Hw as [|Hw]; [by left|right]. unfold watch_ready. by rewrite Ew. }
  intros w Hw2. split; [split; simpl; [done|done|done|by rewrite Ed]|]. split; [done|].
  simpl. intros a. rewrite Hv2, E1, view_app. simpl. rewrite E, view_app.
  destruct (contains_ptr (mr km) a) eqn:Ec; [|done].
  apply contains_ptr_true in Ec. by rewrite (view_below l1 a (start_ (mr km))) by (done || lia).
Qed.

(** The arguments of [map]: a non-empty region of whole pages, a file offset that
    is a multiple of the page size, and a recorded mapping of the same region. *)
Record map_args (addr n size dev off : Z) (record_map : option KernelMapping) : Prop := {
  ma_size : ceil_page_size n = Ok size;
  ma_pos : 0 < size;
  ma_region : region_ok addr size;
  ma_addr : aligned addr;
  ma_off : 0 <= off < USIZE /\ aligned off;
  ma_file : NO_DEVICE < dev -> off + size < USIZE;
  ma_rec : forall r, record_map = Some r -> km_ok r /\ mr r = mkRange addr (addr + size)
}.

Lemma region_end_aligned addr size : region_ok addr size -> aligned addr -> aligned size ->
  region_end addr size = addr + size.
Proof.
  intros (? & ? & ?) Ha Hs. pose proof page_size_pos. unfold region_end.
  pose proof (floor_page_spec (addr + size + page_size - 1)) as [[x Hx] ?].
  destruct (aligned_add _ _ Ha Hs) as [y Hy]. rewrite Hx, Hy in *.
  assert (x < y + 1) by nia. assert (y < x + 1) by nia. by replace x with y by lia.
Qed.

Lemma dont_fork_step s r : Inv s -> Inv (set_dont_fork (bt_remove range_cmp r (dont_fork s)) s).
Proof. intros [Hok Hb Hw Hd]. split; simpl; try done. by apply bt_remove_sorted; [apply _|]. Qed.

Definition mapped_km (addr size prot flags off : Z) (fsname : OsString) (dev ino : Z) : KernelMapping :=
  mkKM (mkRange addr (addr + size)) fsname dev ino prot (Z.land flags MAP_FLAGS_MASK) off.

Lemma map_op_spec addr n size prot flags off fsname dev ino stat record_map emuf local mon s :
  let km := mapped_km addr size prot flags off fsname dev ino in
  let rec := match record_map with Some r => r | None => km end in
  unmaps munmap bad -> Inv s -> map_args addr n size dev off record_map -> bad \/ detachable addr (addr + size) s ->
  bad \/ plain (new_mapping km rec emuf stat local mon) ->
  rwp bad (map_op reader munmap addr n prot flags off fsname dev ino stat record_map emuf local mon s) (fun r =>
    r.1 = km /\ Inv r.2
    /\ dont_fork r.2 = bt_remove range_cmp (mkRange addr (addr + size)) (dont_fork s)
    /\ brk_end r.2 = brk_end s
    /\ vdso_start_addr r.2 = (if is_vdso rec then addr else vdso_start_addr s)
    /\ forall a, view (mem r.2) a
         = if in_part a addr (addr + size) then Some (attrs (new_mapping km rec emuf stat local mon))
           else view (mem s) a).
Proof.
  intros km rec Hmunmap Hi [Hsz Hpos Hreg Ha [Ho Hoa] Hfile Hrec] Hdet Hb. pose proof page_size_pos.
  pose proof Hreg as (? & ? & ?). destruct (ceil_page_spec _ _ Hsz) as [Hsa _].
  unfold map_op. rewrite Hsz. cbn [mbind res_bind]. unfold new_range. rewrite ptr_add_small by lia.
  rewrite new_with_opts_ok by (done || lia || by apply aligned_add). rewrite <- Z.land_assoc, Z.land_diag.
  fold (mapped_km addr size prot flags off fsname dev ino). fold km. cbn [mbind res_bind].
  rewrite (proj2 (Z.ltb_lt _ _)) by done. cbn [assert_ mbind res_bind].
  rewrite remove_range_exact by apply Hi. cbn [mbind res_bind]. apply rwp_bind.
  eapply rwp_mono; [apply (unmap_internal_spec files); [done|by apply dont_fork_step|done|by rewrite floor_page_aligned, region_end_aligned]|].
  intros s1 (Hi1 & (Ed & Eb & Ev) & Hv1). rewrite floor_page_aligned, region_end_aligned in Hv1 by done.
  cbv zeta. fold rec. set (s2 := if is_vdso rec then _ else _).
  assert (mem s2 = mem s1 /\ dont_fork s2 = dont_fork s1 /\ brk_end s2 = brk_end s1 /\ Inv s2) as (Em2 & Ed2 & Eb2 & Hi2).
  { unfold s2. destruct (is_vdso rec); [|done]. destruct Hi1. done. }
  assert (entry_ok (mr km, new_mapping km rec emuf stat local mon)) as He.
  { assert (km_ok km) as Hkm.
    { split; unfold km_start, km_end; simpl; try done; try lia; [by apply aligned_add|..].
      - by rewrite <- Z.land_assoc, Z.land_diag.
      - split; [lia|done].
      - unfold is_real_device. simpl. intros Hd%Z.ltb_lt. specialize (Hfile Hd). lia. }
    unfold rec. destruct record_map as [r|]; [|done]. destruct (Hrec r eq_refl) as [Hr1 Hr2]. done. }
  apply rwp_bind. eapply rwp_mono; [apply map_and_coalesce_spec; [done|done|done|]|].
  { intros a Hin. rewrite Em2, Hv1. apply contains_ptr_true in Hin. simpl in Hin.
    by destruct (in_part_spec a addr (addr + size)). }
  intros s3 (Hi3 & (Ed3 & Eb3 & Ev3) & Hv3). cbn [rwp fst snd]. split_and!; try done.
  - by rewrite Ed3, Ed2, Ed.
  - by rewrite Eb3, Eb2, Eb.
  - rewrite Ev3. unfold s2. destruct (is_vdso rec); [done|]. by rewrite Ev.
  - intros a. rewrite Hv3, Em2, Hv1. unfold contains_ptr. simpl. fold (in_part a addr (addr + size)).
    by destruct (in_part a addr (addr + size)).
Qed.

(** ** Unmapping *)

Lemma unmap_spec addr n size s :
  unmaps munmap bad -> Inv s -> ceil_page_size n = Ok size -> region_ok addr size ->
  bad \/ detachable (floor_page_size addr) (region_end addr size) s ->
  rwp bad (unmap reader munmap addr n s) (fun s' =>
    Inv s' /\ brk_end s' = brk_end s /\ vdso_start_addr s' = vdso_start_addr s
    /\ dont_fork s' = (if size =? 0 then dont_fork s
                       else bt_remove range_cmp (mkRange addr (addr + size)) (dont_fork s))
    /\ forall a, view (mem s') a
         = if negb (size =? 0) && in_part a (floor_page_size addr) (region_end addr size) then None
           else view (mem s) a).
Proof.
  intros Hmunmap Hi Hsz Hreg Hdet. unfold unmap. rewrite Hsz. cbn [mbind res_bind]. pose proof Hreg as (? & ? & ?).
  pose proof page_size_pos. destruct (Z.eqb_spec size 0) as [->|Hne]; [done|].
  unfold new_range. rewrite ptr_add_small by lia. rewrite remove_range_exact by apply Hi. cbn [mbind res_bind].
  eapply rwp_mono; [apply (unmap_internal_spec files); [done|by apply dont_fork_step|done|done]|].
  intros s1 (Hi1 & (Ed & Eb & Ev) & Hv1). done.
Qed.

(** ** Protection *)

Definition new_prot (prot : Z) : Z := Z.land prot (Z.lor PROT_READ (Z.lor PROT_WRITE PROT_EXEC)).

Definition km_protect (k : KernelMapping) (s t prot : Z) : KernelMapping := km_set_prot (km_part k s t) prot.

Definition m_protect (m : Mapping) (s t prot : Z) : Mapping :=
  mkMapping (km_protect (map m) s t prot) (km_protect (recorded_map m) s t prot) (emu_file m)
    (mapped_file_stat m) (local_at m s) None (mflags m).

Lemma m_protect_entry e s t prot : entry_ok e -> inside s t (map e.2) ->
  entry_ok (mkRange s t, m_protect e.2 s t prot).
Proof.
  intros He Hi. pose proof (inside_rec _ _ _ He Hi). destruct He.
  split; try done; simpl; apply set_prot_ok; by apply km_part_ok.
Qed.

Lemma attrs_protect m s t prot : monitored_shared_memory m = None ->
  attrs (m_protect m s t prot) = at_set_prot prot (attrs m).
Proof.
  intros Hm. pose proof (f_equal at_local (attrs_part m s t)) as El. unfold attrs, at_set_prot, m_protect in *. simpl in *.
  rewrite Hm. f_equal; try done.
  - transitivity (ka_set_prot prot (kattrs (km_part (map m) s t))); [done|]. by rewrite kattrs_part.
  - transitivity (ka_set_prot prot (kattrs (km_part (recorded_map m) s t))); [done|]. by rewrite kattrs_part.
Qed.

(** Where the change of a mapping that contains [last] starts. *)
Definition grow_start (prot : Z) (e : Entry) (last : Z) : Z :=
  if prot_contains prot PROT_GROWSDOWN then start_ e.1 else last.

Definition protect_pieces (prot : Z) (e : Entry) (last re : Z) : list Entry :=
  let ns := grow_start prot e last in
  let ne := Z.min re (end_ e.1) in
  low_piece e ns ++ [(mkRange ns ne, m_protect e.2 ns ne (new_prot prot))] ++ high_piece e re.

Lemma protect_inside prot e last re : entry_ok e -> meets e (mkRange last re) -> start_ e.1 <= last ->
  inside (grow_start prot e last) (Z.min re (end_ e.1)) (map e.2).
Proof.
  intros He (? & ? & ? & ? & ?) Hle. destruct (entry_range _ He) as [Es Ee]. simpl in *.
  pose proof (km_start_al _ (eo_map _ He)) as As. pose proof (km_end_al _ (eo_map _ He)) as Ae.
  rewrite Es in As. rewrite Ee in Ae. unfold inside. rewrite Es, Ee. unfold grow_start.
  split_and!; [destruct (prot_contains _ _); lia|destruct (prot_contains _ _); lia|lia|by destruct (prot_contains _ _)|].
  destruct (Z.min_spec re (end_ e.1)) as [[_ ->]|[_ ->]]; done.
Qed.

Lemma protect_pieces_ok prot e last re : entry_ok e -> meets e (mkRange last re) -> start_ e.1 <= last ->
  mem_ok (protect_pieces prot e last re) /\ within (protect_pieces prot e last re) e.1.
Proof.
  intros He Hm Hle. pose proof (protect_inside prot e last re He Hm Hle) as Hin.
  destruct (entry_range _ He) as [Es Ee]. destruct Hm as (Hm1 & Hm2 & Hm3 & Hm4 & Hm5). simpl in *.
  pose proof Hin as (Hi1 & Hi2 & Hi3 & Hi4 & _). rewrite Es in Hi1.
  apply (pieces_ok files e (mkRange (grow_start prot e last) re)); [done| |apply mem_ok_singleton; by apply m_protect_entry|].
  - unfold meets. simpl. split_and!; try done; try lia.
  - intros x ->%list_elem_of_singleton. simpl. rewrite Es, Ee. lia.
Qed.

(** The first piece, as [protector] makes it. *)
Lemma protect_low m ns last s :
  mr (recorded_map m) = mr (map m) -> (km_start (map m) < ns -> ns = last) ->
  (if km_start (map m) <? ns
   then k ← subrange (map m) (km_start (map m)) last;
        r ← subrange (recorded_map m) (km_start (recorded_map m)) last;
        Ok (add_to_map (with_flags (new_mapping k r (emu_file m) (mapped_file_stat m)
                          (local_addr m) (monitored_shared_memory m)) (mflags m)) s)
   else Ok s)
  = (if km_start (map m) <? ns
     then u ← part m (km_start (map m)) ns (local_addr m) (monitored_shared_memory m); Ok (add_to_map u s)
     else Ok s).
Proof.
  intros Em Hns. destruct (Z.ltb_spec (km_start (map m)) ns) as [Hlt|]; [|done]. rewrite (Hns Hlt).
  assert (km_start (recorded_map m) = km_start (map m)) as -> by (unfold km_start; by rewrite Em). unfold part.
  destruct (subrange (map m) (km_start (map m)) last); [|done..]. simpl.
  by destruct (subrange (recorded_map m) (km_start (map m)) last).
Qed.

Lemma mem_get_entry l1 e l2 : mem_ok (l1 ++ e :: l2) -> mem_get e.1 (l1 ++ e :: l2) = Some e.2.
Proof. destruct e. apply mem_get_middle. Qed.
Lemma mem_remove_entry l1 e l2 : mem_ok (l1 ++ e :: l2) -> mem_remove e.1 (l1 ++ e :: l2) = l1 ++ l2.
Proof. destruct e. apply mem_remove_middle. Qed.

(** The callback replaces the entry by those pieces. *)
Lemma protector_spec prot l1 e l2 last re s :
  mem s = l1 ++ e :: l2 -> mem_ok (mem s) -> meets e (mkRange last re) -> start_ e.1 <= last ->
  bad \/ plain_mem (mem s) ->
  rwp bad (protector prot e.1 (mkRange last re) s) (fun r =>
    r.1 = mkRange (grow_start prot e last) (Z.min re (end_ e.1))
    /\ monitored_shared_memory e.2 = None
    /\ mem r.2 = l1 ++ protect_pieces prot e last re ++ l2 /\ same_rest s r.2).
Proof.
  intros Hs Hok Hm Hle Hb. rewrite Hs in *. pose proof (mem_ok_entry _ _ _ Hok) as He.
  pose proof (protect_inside prot e last re He Hm Hle) as Hin. pose proof (inside_rec _ _ _ He Hin) as Hin'.
  destruct (protect_pieces_ok prot e last re He Hm Hle) as [HX Hw]. destruct (entry_range _ He) as [Es Ee].
  assert (bad \/ plain e.2) as Hbe.
  { destruct Hb as [|Hb]; [by left|right]. by apply Forall_app in Hb as [_ [? _]%Forall_cons]. }
  destruct Hm as (Hm1 & Hm2 & Hm3 & Hm4 & Hm5). cbn [start_ end_] in *.
  set (ns := grow_start prot e last) in *. set (ne := Z.min re (end_ e.1)) in *.
  unfold protector. cbn [start_ end_]. rewrite Hs, mem_get_entry by done.
  cbn [unwrap mbind res_bind]. cbv zeta. rewrite (eo_key _ He).
  assert ((if (km_start (map e.2) <? last) && prot_contains prot PROT_GROWSDOWN
           then km_start (map e.2) else last) = ns) as ->.
  { unfold ns, grow_start. rewrite Es. destruct (Z.ltb_spec (start_ e.1) last); simpl; [done|].
    destruct (prot_contains prot PROT_GROWSDOWN); lia. }
  rewrite protect_low; [|by rewrite (eo_rec _ He), (eo_key _ He)|].
  2: { rewrite Es. unfold ns, grow_start. destruct (prot_contains _ _); lia. }
  apply rwp_bind. pose proof Hin as (_ & _ & Hne & Hnsa & _).
  eapply (add_low bad l1 e l2 ns); [done|exact HX|exact Hw|done|destruct Hin as (_ & ? & ? & _); lia| |].
  { unfold remove_from_map. simpl. rewrite Hs. by apply mem_remove_entry. }
  intros s1 Hs1 Hr1. rewrite Ee. fold ne.
  destruct (monitored_shared_memory e.2) as [x|] eqn:Em.
  { destruct Hbe as [|(? & _)]; [done|congruence]. }
  cbn [monitored_subrange mbind res_bind]. rewrite (subrange_ok (map e.2) ns ne) by (done || apply He). cbn [mbind res_bind].
  rewrite (proj1 (set_prot_ok _ _ (km_part_ok _ _ _ (eo_map _ He) Hin))). cbn [mbind res_bind].
  rewrite (subrange_ok (recorded_map e.2) ns ne) by (done || apply He). cbn [mbind res_bind].
  rewrite (proj1 (set_prot_ok _ _ (km_part_ok _ _ _ (eo_recorded _ He) Hin'))). cbn [mbind res_bind].
  pose proof Hin as (Hn1 & Hn2 & _). pose proof (km_nonempty _ (eo_map _ He)). pose proof (km_bound _ (eo_map _ He)).
  pose proof page_size_pos. rewrite ptr_diff_small by lia.
  change (with_flags _ (mflags e.2)) with (m_protect e.2 ns ne (new_prot prot)).
  assert (mem (add_to_map (m_protect e.2 ns ne (new_prot prot)) s1)
    = l1 ++ (low_piece e ns ++ [(mkRange ns ne, m_protect e.2 ns ne (new_prot prot))]) ++ l2) as Hs2.
  { by apply (add_piece l1 e l2 (low_piece e ns) (m_protect e.2 ns ne (new_prot prot)) (high_piece e re)). }
  apply rwp_bind. rewrite <- Ee. unfold protect_pieces in HX, Hw. rewrite app_assoc in HX, Hw.
  eapply (add_high files bad l1 e l2 (mkRange last re)); [done|exact HX|exact Hw|done|cbn [end_]; lia|done|exact Hs2|].
  cbn [end_]. intros s3 Hs3 Hr3. cbn [rwp fst snd]. split_and!; try done.
  - rewrite Hs3. unfold protect_pieces. fold ns ne. by rewrite <- !app_assoc.
  - eapply same_rest_trans; [|exact Hr3]. by eapply same_rest_trans; [exact Hr1|apply same_add_to_map].
Qed.

Lemma view_protected prot l1 e l2 last re a :
  mem_ok (l1 ++ e :: l2) -> meets e (mkRange last re) -> start_ e.1 <= last -> monitored_shared_memory e.2 = None ->
  view (l1 ++ protect_pieces prot e last re ++ l2) a
  = if in_part a (grow_start prot e last) (Z.min re (end_ e.1))
    then at_set_prot (new_prot prot) <$> view (l1 ++ e :: l2) a else view (l1 ++ e :: l2) a.
Proof.
  intros Hok Hm Hle Hmon. pose proof (mem_ok_entry _ _ _ Hok) as He. destruct (entry_range _ He) as [Es Ee].
  pose proof (protect_inside prot e last re He Hm Hle) as (Hn1 & Hn2 & Hn3 & _). rewrite Es in Hn1. rewrite Ee in Hn3.
  destruct Hm as (Hm1 & Hm2 & Hm3 & _). simpl in *.
  set (ns := grow_start prot e last) in *. set (ne := Z.min re (end_ e.1)) in *.
  assert (view (protect_pieces prot e last re) a
    = if in_part a ns ne then Some (at_set_prot (new_prot prot) (attrs e.2))
      else if in_part a (start_ e.1) (end_ e.1) then Some (attrs e.2) else None) as Hv.
  { unfold protect_pieces. fold ns ne. rewrite !view_app, view_low, view_high, Es, Ee by done. simpl.
    unfold contains_ptr. simpl. rewrite attrs_protect by done. fold (in_part a ns ne) (in_part a (start_ e.1) ns) (in_part a re (end_ e.1)).
    destruct (in_part_spec a ns ne), (in_part_spec a (start_ e.1) ns), (in_part_spec a re (end_ e.1)),
      (in_part_spec a (start_ e.1) (end_ e.1)); (done || lia). }
  rewrite !view_app, Hv. simpl. unfold contains_ptr. fold (in_part a (start_ e.1) (end_ e.1)).
  destruct (in_part_spec a ns ne) as [Hin|]; [|by destruct (in_part a (start_ e.1) (end_ e.1))].
  rewrite (view_below l1 a (start_ e.1)); [|apply mem_ok_app in Hok as (_ & _ & H12)|lia].
  - by destruct (in_part_spec a (start_ e.1) (end_ e.1)); [|lia].
  - intros x Hx. apply (H12 x e Hx). left.
Qed.

Lemma plain_protect m s t prot : t <= km_end (map m) -> plain m -> plain (m_protect m s t prot).
Proof.
  intros Ht Hp. pose proof (plain_part files m s t Ht Hp) as (_ & Hu & Hl & Hb). split_and!; [done|exact Hu|exact Hl|exact Hb].
Qed.

(** One mapping of a contiguous run. *)
Lemma protect_step prot l1 e l2 last re s :
  at_ l1 (e :: l2) last re s -> last < re -> start_ e.1 <= last ->
  rwp bad (protector prot e.1 (mkRange last re) s) (fun r =>
    at_ (l1 ++ protect_pieces prot e last re) l2 (end_ e.1) re r.2
    /\ (exists m, (r.1, m) ∈ l1 ++ protect_pieces prot e last re) /\ same_rest s r.2
    /\ forall a, view (mem r.2) a
       = if in_part a (grow_start prot e last) (Z.min re (end_ e.1))
         then at_set_prot (new_prot prot) <$> view (mem s) a else view (mem s) a).
Proof.
  intros Hat Hlt Hle. destruct (at_meets _ _ _ _ _ _ _ _ Hat Hlt ltac:(lia)) as (Hm & He & Hbe).
  pose proof (at_mem _ _ _ _ _ _ _ Hat) as Hs. pose proof (at_ok _ _ _ _ _ _ _ Hat) as Hok.
  eapply rwp_mono; [apply (protector_spec prot l1 e l2 last re s); try done; by destruct Hat|].
  intros [k s'] (Ek & Hmon & Hs' & Hr). cbn [fst snd] in *.
  destruct (protect_pieces_ok prot e last re He Hm Hle) as [HX Hw].
  assert (bad \/ plain_mem (protect_pieces prot e last re)) as Hp.
  { destruct (protect_inside prot e last re He Hm Hle) as (_ & Hns & Hne & _).
    apply (pieces_plain files bad e (mkRange (grow_start prot e last) re)); [cbn [start_]; lia|done|].
    destruct Hbe as [|Hpe]; [by left|right]. constructor; [|constructor]. by apply plain_protect. }
  split; [by eapply at_next|]. split_and!; try done.
  - eexists. apply elem_of_app. right. unfold protect_pieces. apply elem_of_app. right. rewrite Ek. left.
  - intros a. rewrite Hs', Hs. rewrite Hs in Hok. by apply view_protected.
Qed.

(** What the loop of [protect] did from [last] on: the mapped bytes up to [stop],
    and those from [lo] before it. *)
Record protected (prot lo last re : Z) (s : AddressSpace) (r : option MemoryRange * AddressSpace) : Prop := {
  pr_ok : mem_ok (mem r.2);
  pr_plain : bad \/ plain_mem (mem r.2);
  pr_rest : same_rest s r.2;
  pr_key : forall k, r.1 = Some k -> exists m, (k, m) ∈ mem r.2;
  pr_view : exists stop, last <= stop <= Z.max last re
    /\ (forall a, last <= a < stop -> view (mem s) a <> None)
    /\ (stop < re -> view (mem s) stop = None)
    /\ forall a, view (mem r.2) a = if in_part a lo stop then at_set_prot (new_prot prot) <$> view (mem s) a
                                    else view (mem s) a
}.

Lemma protected_none prot last re s x : mem_ok (mem s) -> bad \/ plain_mem (mem s) ->
  (forall k, x = Some k -> exists m, (k, m) ∈ mem s) ->
  (last < re -> view (mem s) last = None) -> protected prot last last re s (x, s).
Proof.
  intros Hok Hb Hx Hv. split; try done. exists last. split_and!; try done; try lia.
  intros a. by destruct (in_part_spec a last last); [lia|].
Qed.

(** A step from [last] to the end of the mapping, and the rest of the loop. *)
Lemma protected_join prot lo last re e s s1 r :
  last < re -> lo <= last < end_ e -> same_rest s s1 ->
  (forall a, last <= a < end_ e -> view (mem s) a <> None) ->
  (forall a, view (mem s1) a = if in_part a lo (Z.min re (end_ e))
     then at_set_prot (new_prot prot) <$> view (mem s) a else view (mem s) a) ->
  protected prot (end_ e) (end_ e) re s1 r -> protected prot lo last re s r.
Proof.
  intros Hlt Hle Hr Hmapped Hv [Hok Hb Hrest Hk (stop & Hstop & Hm & Hn & Hv')]. split; try done.
  { by eapply same_rest_trans. }
  exists (if end_ e <? re then stop else re). destruct (Z.ltb_spec (end_ e) re) as [Hc|Hc].
  - rewrite Z.min_r in Hv by lia. split_and!; [lia|lia| | |].
    + intros a Ha. destruct (Z.lt_ge_cases a (end_ e)); [apply Hmapped; lia|]. specialize (Hm a ltac:(lia)).
      rewrite Hv in Hm. by destruct (in_part_spec a lo (end_ e)); [lia|].
    + intros Hs. rewrite <- Hn, Hv by done. by destruct (in_part_spec stop lo (end_ e)); [lia|].
    + intros a. rewrite Hv', Hv.
      destruct (in_part_spec a (end_ e) stop), (in_part_spec a lo (end_ e)), (in_part_spec a lo stop); (done || lia).
  - rewrite Z.min_l in Hv by lia. split_and!; [lia|lia| |lia|].
    + intros a Ha. apply Hmapped. lia.
    + intros a. rewrite Hv', Hv. by destruct (in_part_spec a (end_ e) stop); [lia|].
Qed.

Definition protect_callback (prot : Z) (k rem : MemoryRange) (_ : option MemoryRange) (s : AddressSpace)
  : res (option MemoryRange * AddressSpace) :=
  r ← protector prot k rem s; Ok (Some r.1, r.2).

Lemma entry_mapped l1 e l2 last re s a : at_ l1 (e :: l2) last re s -> start_ e.1 <= a < end_ e.1 -> view (mem s) a <> None.
Proof.
  intros Hat Ha. rewrite (view_elem _ e a); [done|by destruct Hat| |by apply contains_ptr_true].
  rewrite (at_mem _ _ _ _ _ _ _ Hat). apply elem_of_app. right. left.
Qed.

Lemma at_elems l1 l2 last re s (k : MemoryRange) : at_ l1 l2 last re s ->
  (exists m, (k, m) ∈ l1) -> exists m, (k, m) ∈ mem s.
Proof. intros Hat [m Hm]. exists m. rewrite (at_mem _ _ _ _ _ _ _ Hat). apply elem_of_app. by left. Qed.

Lemma protect_tail prot rs re fuel : forall s l1 l2 last x,
  at_ l1 l2 last re s -> rs <= last -> (forall e, e ∈ l2 -> last <= start_ e.1) ->
  (forall k, x = Some k -> exists m, (k, m) ∈ l1) -> (length l2 < fuel)%nat ->
  rwp bad (for_each_loop fuel (protect_callback prot) IterateContiguous rs re last x s)
    (protected prot last last re s).
Proof.
  induction fuel as [|fuel IH]; intros s l1 l2 last x Hat Hrs Hge Hx Hfuel; [lia|].
  assert (forall k, x = Some k -> exists m, (k, m) ∈ mem s) as Hx'.
  { intros k Hk. by apply (at_elems l1 l2 last re), Hx. }
  rewrite (for_each_step _ _ _ _ _ _ _ _ _ _ _ _ Hat). destruct (Z.ltb_spec last re) as [Hlt|].
  2: { apply protected_none; [by destruct Hat..|done|lia]. }
  destruct l2 as [|e l2]; [apply protected_none; [by destruct Hat..|done|intros _; by apply (view_gap _ _ _ _ _ _ _ _ Hat)]|].
  pose proof (Hge e ltac:(left)) as Hge_e. pose proof (at_high _ _ _ _ _ _ _ Hat e ltac:(left)).
  destruct (Z.leb_spec re (start_ e.1)).
  { apply protected_none; [by destruct Hat..|done|intros _; apply (view_gap _ _ _ _ _ _ _ _ Hat); [lia|intros ? [= <-]; lia]]. }
  rewrite bool_decide_eq_true_2 by done. cbn [andb].
  destruct (Z.ltb_spec (start_ e.1) rs); [lia|]. destruct (Z.eqb_spec last (start_ e.1)) as [Heq|]; cbn [orb negb].
  2: { apply protected_none; [by destruct Hat..|done|intros _; apply (view_gap _ _ _ _ _ _ _ _ Hat); [lia|intros ? [= <-]; lia]]. }
  apply rwp_bind, rwp_bind. eapply rwp_mono; [apply (protect_step prot l1 e l2 last re s Hat); lia|].
  intros r (Hat' & Hk & Hr & Hv). unfold rwp at 1. cbn [fst snd].
  assert (grow_start prot e last = last) as Hg by (unfold grow_start; destruct (prot_contains _ _); lia). rewrite Hg in Hv.
  eapply rwp_mono; [eapply IH; [exact Hat'|lia| |intros ? [= <-]; exact Hk|simpl in Hfuel; lia]|].
  - intros x' Hx2. pose proof (at_ok _ _ _ _ _ _ _ Hat) as Hok. rewrite (at_mem _ _ _ _ _ _ _ Hat) in Hok.
    apply mem_ok_app in Hok as (_ & (_ & _ & Hb)%mem_ok_cons & _). by apply Hb.
  - intros r' Hp. eapply (protected_join prot last last re e.1 s r.2); try done.
    intros a Ha. apply (entry_mapped _ _ _ _ _ _ _ Hat). lia.
Qed.

(** Where [protect] starts to change the mappings. *)
Definition protect_start (prot : Z) (s : AddressSpace) (rs : Z) : Z :=
  match mapping_of s rs with
  | Some m => if prot_contains prot PROT_GROWSDOWN then km_start (map m) else rs
  | None => rs
  end.

Lemma protect_start_none prot s rs re l1 l2 : at_ l1 l2 rs re s -> rs < re -> view (mem s) rs = None ->
  protect_start prot s rs = rs.
Proof.
  intros Hat Hlt Hv. unfold protect_start. destruct (at_last _ _ _ _ _ _ _ Hat). destruct (at_end _ _ _ _ _ _ _ Hat).
  pose proof (mapping_of_spec s rs (at_ok _ _ _ _ _ _ _ Hat) ltac:(done) ltac:(lia)) as Hm.
  destruct (mapping_of s rs); [|done]. destruct Hm as (_ & _ & ?). congruence.
Qed.

Lemma protect_start_some prot s rs re l1 e l2 : at_ l1 (e :: l2) rs re s -> rs < re -> start_ e.1 <= rs ->
  protect_start prot s rs = grow_start prot e rs.
Proof.
  intros Hat Hlt Hle. pose proof (at_high _ _ _ _ _ _ _ Hat e ltac:(left)).
  unfold protect_start, grow_start. destruct (at_last _ _ _ _ _ _ _ Hat). destruct (at_end _ _ _ _ _ _ _ Hat).
  pose proof (at_ok _ _ _ _ _ _ _ Hat) as Hok. rewrite (at_mem _ _ _ _ _ _ _ Hat) in Hok.
  unfold mapping_of. rewrite (at_mem _ _ _ _ _ _ _ Hat), mem_from_split; try done; try lia; [|by apply Hok|by apply Hat..].
  destruct e as [k m]. pose proof (eo_key _ (mem_ok_entry _ _ _ Hok)) as Ek. simpl in *. rewrite Ek.
  rewrite (proj2 (contains_ptr_true k rs)) by lia. rewrite mem_get_middle by done.
  destruct (prot_contains _ _); [|done]. unfold km_start. by rewrite Ek.
Qed.

Lemma protect_loop prot rs re fuel s l1 l2 :
  at_ l1 l2 rs re s -> rs < re -> (length l2 < fuel)%nat ->
  rwp bad (for_each_loop fuel (protect_callback prot) IterateContiguous rs re rs None s)
    (protected prot (protect_start prot s rs) rs re s).
Proof.
  intros Hat Hlt Hfuel. destruct fuel as [|fuel]; [lia|].
  rewrite (for_each_step _ _ _ _ _ _ _ _ _ _ _ _ Hat). rewrite (proj2 (Z.ltb_lt rs re)) by done.
  assert (view (mem s) rs = None -> protected prot (protect_start prot s rs) rs re s (None, s)) as Hnone.
  { intros Hv. rewrite (protect_start_none _ _ _ _ _ _ Hat) by done. by apply protected_none; [by destruct Hat..| |]. }
  destruct l2 as [|e l2]; [apply Hnone; by apply (view_gap _ _ _ _ _ _ _ _ Hat)|].
  pose proof (at_high _ _ _ _ _ _ _ Hat e ltac:(left)).
  destruct (Z.leb_spec re (start_ e.1)).
  { apply Hnone, (view_gap _ _ _ _ _ _ _ _ Hat); [lia|intros ? [= <-]; lia]. }
  rewrite bool_decide_eq_true_2 by done. cbn [andb].
  destruct (Z.le_gt_cases (start_ e.1) rs) as [Hle|Hgt].
  2: { destruct (Z.ltb_spec (start_ e.1) rs), (Z.eqb_spec rs (start_ e.1)); try lia. cbn [orb negb].
       apply Hnone, (view_gap _ _ _ _ _ _ _ _ Hat); [lia|intros ? [= <-]; lia]. }
  assert ((start_ e.1 <? rs) || (rs =? start_ e.1) = true) as -> by (destruct (Z.ltb_spec (start_ e.1) rs); simpl; [done|lia]).
  cbn [negb]. rewrite (protect_start_some _ _ _ _ _ _ _ Hat) by done.
  apply rwp_bind, rwp_bind. eapply rwp_mono; [by apply (protect_step prot l1 e l2 rs re s Hat)|].
  intros r (Hat' & Hk & Hr & Hv). unfold rwp at 1. cbn [fst snd].
  eapply rwp_mono; [eapply protect_tail; [exact Hat'|lia| |intros ? [= <-]; exact Hk|simpl in Hfuel; lia]|].
  - intros x' Hx2. pose proof (at_ok _ _ _ _ _ _ _ Hat) as Hok. rewrite (at_mem _ _ _ _ _ _ _ Hat) in Hok.
    apply mem_ok_app in Hok as (_ & (_ & _ & Hb)%mem_ok_cons & _). by apply Hb.
  - intros r' Hp. eapply (protected_join prot _ rs re e.1 s r.2); try done.
    + unfold grow_start. destruct (prot_contains _ _); lia.
    + intros a Ha. apply (entry_mapped _ _ _ _ _ _ _ Hat). lia.
Qed.

Lemma protect_spec addr n prot s :
  Inv s -> region_ok addr n -> 0 < n ->
  let rs := floor_page_size addr in
  let re := region_end addr n in
  rwp bad (protect addr n prot s) (fun s' => Inv s' /\ same_other s s' /\ watchpoints s' = watchpoints s
    /\ exists stop, rs <= stop <= re
       /\ (forall a, rs <= a < stop -> view (mem s) a <> None)
       /\ (stop < re -> view (mem s) stop = None)
       /\ forall a, view (mem s') a
            = if in_part a (protect_start prot s rs) stop
              then at_set_prot (new_prot prot) <$> view (mem s) a else view (mem s) a).
Proof.
  intros Hi Hreg Hn rs re. destruct (at_start files reader bad addr n s Hi Hreg) as (l1 & l2 & Hat & Hlen).
  destruct (region_end_spec addr n Hreg) as (Ere & _ & Hre). pose proof (floor_page_spec addr) as [_ Hrs].
  assert (rs < re) as Hlt by (unfold rs, re in *; lia).
  unfold protect, for_each_in_range. rewrite Ere. cbn [mbind res_bind]. apply rwp_bind.
  eapply rwp_mono; [by apply (protect_loop prot rs re _ s l1 l2 Hat); [|lia]|].
  intros [x s1] [Hok Hb (Ed & Ew & Eb & Ev) Hk (stop & Hs1 & Hs2 & Hs3 & Hv)]. cbn [fst snd] in *.
  assert (bad \/ watch_ready reader s1) as Hw1.
  { destruct Hi as [_ _ [|Hw] _]; [by left|right]. unfold watch_ready in *. by rewrite Ew. }
  assert (bt_sorted range_cmp (dont_fork s1)) as Hd1 by (rewrite Ed; apply Hi).
  destruct x as [k|].
  - destruct (Hk k eq_refl) as [m Hm]. apply list_elem_of_split in Hm as (m1 & m2 & Em).
    eapply rwp_mono; [by apply (coalesce_around_spec files bad m1 (k, m) m2)|].
    intros s2 (Hok2 & Hb2 & (Ed2 & Ew2 & Eb2 & Ev2) & Hv2). split; [split; try done|].
    + destruct Hw1 as [|Hw1]; [by left|right]. unfold watch_ready in *. by rewrite Ew2.
    + by rewrite Ed2.
    + split; [split_and!; congruence|]. split; [congruence|]. exists stop. split_and!; try done; try lia.
      intros a. by rewrite Hv2, Hv.
  - simpl. split; [done|]. split; [done|]. split; [done|]. exists stop. split_and!; try done; lia.
Qed.

(** ** The program break *)

Lemma plain_anon km : files NO_DEVICE NO_INODE (flags_ km) = None -> shared files NO_DEVICE NO_INODE = None -> device_ km = NO_DEVICE -> inode_ km = NO_INODE ->
  plain (new_mapping km km None None None None).
Proof. intros He Hs Hd Hi. split_and!; try done; simpl; by rewrite Hd, Hi, ?He, ?Hs. Qed.

Definition heap_flags : Z := Z.lor MAP_ANONYMOUS MAP_PRIVATE.

Definition heap_attrs (prot : Z) : Attrs :=
  let k := mkKAttrs prot heap_flags NO_DEVICE NO_INODE 0 in mkAttrs k k None None None 0.

Lemma brk_spec addr prot old new_ s :
  unmaps munmap bad -> Inv s -> (bad \/ files NO_DEVICE NO_INODE heap_flags = None /\ shared files NO_DEVICE NO_INODE = None) ->
  bad \/ detachable (Z.min old new_) (Z.max old new_) s ->
  ceil_page_size (brk_end s) = Ok old -> ceil_page_size addr = Ok new_ ->
  0 <= brk_end s -> 0 <= addr -> old + page_size < USIZE -> new_ + page_size < USIZE ->
  rwp bad (brk reader munmap addr prot s) (fun s' =>
    Inv s' /\ brk_end s' = addr
    /\ forall a, view (mem s') a
         = if in_part a old new_ then Some (heap_attrs prot)
           else if in_part a new_ old then None else view (mem s) a).
Proof.
  intros Hmunmap Hi Hemu Hdet Ho Hn H0 H1 Hob Hnb. unfold brk. rewrite Ho, Hn. cbn [mbind res_bind].
  destruct (ceil_page_spec _ _ Ho) as [Hoa Hol]. destruct (ceil_page_spec _ _ Hn) as [Hna Hnl]. pose proof page_size_pos.
  destruct (Z.ltb_spec old new_) as [Hlt|Hge].
  - rewrite ptr_diff_small by lia. apply rwp_bind, rwp_bind.
    assert (aligned (new_ - old)) as Hda by (by apply aligned_sub).
    eapply rwp_mono; [apply (map_op_spec old (new_ - old) (new_ - old) prot); [done|done| | |]|].
    + split; try done; try lia; [apply ceil_page_aligned; (done || lia)|split_and!; lia|].
      split; [lia|]. apply Z.divide_0_r.
    + replace (old + (new_ - old)) with new_ by lia. by rewrite Z.min_l, Z.max_r in Hdet by lia.
    + destruct Hemu as [|[? ?]]; [by left|right]. by apply plain_anon.
    + intros [k s1] (_ & Hi1 & _ & _ & _ & Hv). cbn [fst snd rwp] in *.
      split; [by destruct Hi1|]. split; [done|]. simpl. intros a. rewrite Hv.
      replace (old + (new_ - old)) with new_ by lia. by destruct (in_part_spec a old new_), (in_part_spec a new_ old); [lia| |lia|].
  - rewrite ptr_diff_small by lia. apply rwp_bind.
    assert (region_ok new_ (old - new_)) as Hreg by (split_and!; lia).
    eapply rwp_mono; [apply (unmap_spec new_ (old - new_) (old - new_)); [done|done| |done|]|].
    + apply ceil_page_aligned; [by apply aligned_sub|lia].
    + rewrite floor_page_aligned, region_end_aligned by (done || by apply aligned_sub). replace (new_ + (old - new_)) with old by lia.
      by rewrite Z.min_r, Z.max_l in Hdet by lia.
    + intros s1 (Hi1 & _ & _ & _ & Hv). cbn [rwp]. split; [by destruct Hi1|]. split; [done|]. simpl. intros a.
      rewrite Hv, floor_page_aligned, region_end_aligned by (done || by apply aligned_sub).
      replace (new_ + (old - new_)) with old by lia.
      destruct (in_part_spec a old new_); [lia|]. destruct (Z.eqb_spec (old - new_) 0); simpl; [|done].
      by destruct (in_part_spec a new_ old); [lia|].
Qed.

(** ** Free memory *)

(** The free bytes after a mapping, up to the next one. *)
Lemma find_free_loop_spec req : 0 < req -> forall rest l1 cur,
  mem_ok (l1 ++ cur :: rest) ->
  (forall e, e ∈ cur :: rest -> end_ e.1 + req < USIZE) ->
  exists e, e ∈ cur :: rest /\ find_free_loop req cur.2 rest = Ok (end_ e.1)
    /\ forall a, end_ e.1 <= a < end_ e.1 + req -> view (l1 ++ cur :: rest) a = None.
Proof.
  intros Hreq. induction rest as [|nxt rest IH]; intros l1 cur Hok Hb; cbn [find_free_loop].
  - exists cur. pose proof (mem_ok_entry _ _ _ Hok) as He. destruct (entry_range _ He) as [_ Ee]. rewrite Ee.
    pose proof (Hb cur ltac:(left)). pose proof (km_nonempty _ (eo_map _ He)). split; [left|].
    rewrite ptr_add_small by lia. rewrite (proj2 (Z.leb_le _ _)) by lia. split; [done|]. intros a Ha.
    apply (view_below _ a (end_ cur.1)); [|lia]. apply mem_ok_app in Hok as (_ & _ & H12).
    intros e [Hin| ->%list_elem_of_singleton]%elem_of_app; [|lia]. specialize (H12 e cur Hin ltac:(left)).
    pose proof (entry_nonempty _ He). unfold ebefore, before, nonempty in *. lia.
  - pose proof (mem_ok_entry _ _ _ Hok) as He. destruct (entry_range _ He) as [_ Ee]. rewrite Ee.
    pose proof (Hb cur ltac:(left)). pose proof (km_nonempty _ (eo_map _ He)). rewrite ptr_add_small by lia.
    pose proof Hok as Hok'. rewrite (cons_middle cur), app_assoc in Hok'.
    destruct (entry_range _ (mem_ok_entry _ _ _ Hok')) as [Es _]. rewrite Es.
    destruct (Z.leb_spec (end_ cur.1 + req) (start_ nxt.1)) as [Hfree|_].
    + exists cur. split; [left|]. split; [done|]. intros a Ha.
      pose proof Hok' as (_ & (_ & _ & Hb2)%mem_ok_cons & _)%mem_ok_app.
      rewrite (cons_middle cur), app_assoc, view_app, (view_below _ a (end_ cur.1)).
      * apply (view_above _ a (start_ nxt.1)); [|lia]. intros e [->|Hin]%elem_of_cons; [lia|].
        specialize (Hb2 e Hin). pose proof (entry_nonempty _ (mem_ok_entry _ _ _ Hok')). unfold ebefore, before, nonempty in *. lia.
      * apply mem_ok_app in Hok as (_ & _ & H12').
        intros e [Hin| ->%list_elem_of_singleton]%elem_of_app; [|lia]. specialize (H12' e cur Hin ltac:(left)).
        pose proof (entry_nonempty _ He). unfold ebefore, before, nonempty in *. lia.
      * lia.
    + destruct (IH (l1 ++ [cur]) nxt) as (e & Hin & Hf & Hv); [done|intros e He'; apply Hb; by right|].
      exists e. split; [by right|]. split; [done|]. by rewrite (cons_middle cur), app_assoc.
Qed.

Lemma mem_from_point l after : exists l1, l = l1 ++ mem_from (mkRange after after) l
  /\ (forall e, e ∈ l1 -> start_ e.1 < after)
  /\ forall e l2, mem_from (mkRange after after) l = e :: l2 -> after <= start_ e.1.
Proof.
  induction l as [|[k m] l (l1 & E & H1 & IH)]; [exists []; split_and!; try done; by intros ? ?%not_elem_of_nil|].
  cbn [mem_from].
  assert (key_cmp k (mkRange after after) = (start_ k ?= after)) as ->.
  { unfold key_cmp, intersects. simpl. destruct (Z.ltb_spec (Z.max (start_ k) after) (Z.min (end_ k) after)); [lia|done]. }
  destruct (Z.compare_spec (start_ k) after).
  - exists []. split_and!; [done|by intros ? ?%not_elem_of_nil|]. intros e l2 [= <- _]. simpl. lia.
  - exists ((k, m) :: l1). split_and!; [simpl; by rewrite <- E| |done]. intros e [->|He]%elem_of_cons; [done|auto].
  - exists []. split_and!; [done|by intros ? ?%not_elem_of_nil|]. intros e l2 [= <- _]. simpl. lia.
Qed.

Lemma find_free_memory_spec s req after :
  mem_ok (mem s) -> 0 < req -> (forall e, e ∈ mem s -> end_ e.1 + req < USIZE) ->
  (exists e, e ∈ mem s /\ after <= start_ e.1) ->
  exists p, find_free_memory s req (Some after) = Ok p /\ after < p
    /\ forall a, p <= a < p + req -> view (mem s) a = None.
Proof.
  intros Hok Hreq Hb (x & Hx & Hax). destruct (mem_from_point (mem s) after) as (l1 & E & Hl1 & Hh). unfold find_free_memory.
  destruct (mem_from (mkRange after after) (mem s)) as [|cur rest].
  { rewrite app_nil_r in E. rewrite E in Hx. specialize (Hl1 x Hx). lia. }
  rewrite E in *. destruct (find_free_loop_spec req Hreq rest l1 cur Hok) as (e & Hin & -> & Hv).
  { intros e He. apply Hb. apply elem_of_app. by right. }
  exists (end_ e.1). split; [done|]. split; [|done]. specialize (Hh cur rest eq_refl).
  pose proof (entry_nonempty _ (mem_ok_entry _ _ _ Hok)) as Hne. unfold nonempty in Hne.
  apply elem_of_cons in Hin as [->|Hin]; [lia|].
  pose proof Hok as (_ & (_ & [_ Hf] & Hb2)%mem_ok_cons & _)%mem_ok_app. specialize (Hb2 e Hin).
  rewrite Forall_forall in Hf. pose proof (entry_nonempty _ (Hf e Hin)). unfold ebefore, before, nonempty in *. lia.
Qed.

(** ** Moving a mapping *)

(** The attributes of a mapping whose byte at [from] is moved to [to]. *)
Definition ka_move (from to : Z) (a : KAttrs) : KAttrs :=
  mkKAttrs (ka_prot a) (ka_flags a) (ka_dev a) (ka_ino a)
    (if NO_DEVICE <? ka_dev a then ka_base a + from - to else 0).

(** [remap] moves the byte at the old address of the mapping, but the first byte
    of the recorded mapping. *)
Definition moved (m : Mapping) (old_addr new_addr : Z) : Attrs :=
  mkAttrs (ka_move old_addr new_addr (kattrs (map m)))
    (ka_move (km_start (recorded_map m)) new_addr (kattrs (recorded_map m))) (emu_file m) None None 0.

(** Nothing in a region is also mapped in rd. *)
Definition unshared (lo hi : Z) (s : AddressSpace) : Prop :=
  forall a A, lo <= a < hi -> view (mem s) a = Some A -> at_local A = None.

Lemma unshared_detachable lo hi s : mem_ok (mem s) -> unshared lo hi s -> detachable lo hi s.
Proof.
  intros Hok Hu e He [l Hl] Hr. pose proof Hok as [_ Hf]. rewrite Forall_forall in Hf. pose proof (entry_nonempty _ (Hf e He)) as Hne. unfold nonempty in Hne.
  assert (at_local (attrs e.2) = None) as Hn; [|by unfold attrs in Hn; cbn [at_local] in Hn; rewrite Hl in Hn].
  apply (Hu (start_ e.1)); [lia|]. apply view_elem; [done|done|]. apply contains_ptr_true. lia.
Qed.

(** As the kernel requires, the pages to move are marked DONTFORK all or none. *)
Record remap_args (s : AddressSpace) (old_addr old_n new_addr new_n old_size new_size : Z) (m : Mapping) : Prop := {
  ra_old : ceil_page_size old_n = Ok old_size;
  ra_new : ceil_page_size new_n = Ok new_size;
  ra_old_region : region_ok old_addr old_size;
  ra_new_region : region_ok new_addr new_size;
  ra_old_aligned : aligned old_addr;
  ra_new_aligned : aligned new_addr;
  ra_old_pos : 0 < old_size;
  ra_new_pos : 0 < new_n;
  ra_mapping : mapping_of s old_addr = Some m;
  ra_file : is_real_device (map m) = true -> offset (map m) + (old_addr - km_start (map m)) + new_size < USIZE;
  ra_rec_file : is_real_device (recorded_map m) = true -> offset (recorded_map m) + new_size < USIZE;
  ra_dont_fork : forall r, head (bt_range_from range_cmp (new_range old_addr old_size) (dont_fork s)) = Some r ->
    start_ r < old_addr + old_size -> r = new_range old_addr old_size;
  ra_old_unshared : unshared old_addr (old_addr + old_size) s;
  ra_new_unshared : unshared new_addr (new_addr + new_size) s
}.

Lemma remap_dont_fork_ok df old new : bt_sorted range_cmp df ->
  (forall r, head (bt_range_from range_cmp old df) = Some r -> start_ r < end_ old -> r = old) ->
  exists df', remap_dont_fork df old new = Ok df' /\ bt_sorted range_cmp df'.
Proof.
  intros Hs Hn. unfold remap_dont_fork.
  pose proof (bt_remove_sorted range_cmp old df Hs) as Hs1. pose proof (bt_remove_sorted range_cmp new _ Hs1) as Hs2.
  assert (exists df', (df1 ← remove_range df old; remove_range df1 new) = Ok df' /\ bt_sorted range_cmp df') as Ho.
  { rewrite remove_range_exact by done. cbn [mbind res_bind]. rewrite remove_range_exact by done. eauto. }
  destruct (head (bt_range_from range_cmp old df)) as [r|]; [|done]. destruct (Z.ltb_spec (start_ r) (end_ old)) as [Hlt|]; [|done].
  rewrite bool_decide_true by (by apply Hn). cbn [assert_ mbind res_bind]. rewrite remove_range_exact by done. cbn [mbind res_bind].
  unfold add_range. rewrite remove_range_exact by done. cbn [mbind res_bind]. eexists. split; [done|]. by apply (bt_insert_sorted range_cmp).
Qed.

Definition km_at (k : KernelMapping) (s e : Z) : KernelMapping :=
  mkKM (mkRange s e) (fsname_ k) (device_ k) (inode_ k) (prot_ k) (flags_ k) (offset k).

Lemma set_range_ok k s e : km_ok k -> 0 <= s < e -> e + page_size <= USIZE -> aligned s -> aligned e ->
  (is_real_device k = true -> offset k + (e - s) < USIZE) ->
  set_range k s e = Ok (km_at k s e) /\ km_ok (km_at k s e).
Proof.
  intros [[? ?] ? ? ? Hfl [? ?] ? ?] Hse He Ha1 Ha2 Hf. pose proof page_size_pos. split.
  - unfold set_range. rewrite new_with_opts_ok by (done || lia). unfold km_at. by rewrite Hfl.
  - split; unfold km_at, km_start, km_end; simpl; try done.
Qed.

Lemma kattrs_at k s e : kattrs (km_at k s e) = ka_move (km_start k) s (kattrs k).
Proof.
  unfold kattrs, ka_move, km_at, is_real_device, km_start. simpl. f_equal.
  destruct (NO_DEVICE <? device_ k); [lia|done].
Qed.

(** The last step of [remap], in a region without mappings. *)
Lemma remap_place m old_addr e1 new_addr size s :
  Inv s -> entry_ok (mr (map m), m) -> bad \/ plain m -> monitored_shared_memory m = None -> local_addr m = None ->
  inside old_addr e1 (map m) -> region_ok new_addr size -> 0 < size -> aligned new_addr -> aligned size ->
  (is_real_device (map m) = true -> offset (map m) + (old_addr - km_start (map m)) + size < USIZE) ->
  (is_real_device (recorded_map m) = true -> offset (recorded_map m) + size < USIZE) ->
  (forall a, new_addr <= a < new_addr + size -> view (mem s) a = None) ->
  rwp bad (k ← set_range (km_part (map m) old_addr e1) new_addr (new_addr + size);
           r ← set_range (recorded_map m) new_addr (new_addr + size);
           map_and_coalesce reader k r (emu_file m) (mapped_file_stat m) None None s) (fun s' =>
    Inv s' /\ dont_fork s' = dont_fork s /\ brk_end s' = brk_end s
    /\ forall a, view (mem s') a
         = if in_part a new_addr (new_addr + size) then Some (moved m old_addr new_addr) else view (mem s) a).
Proof.
  intros Hi He Hbm Hmon Hloc Hins (? & ? & ?) Hpos Han Has Hf Hrf Hfree.
  pose proof (aligned_add _ _ Han Has) as Hae. pose proof (km_part_ok _ _ _ (eo_map _ He) Hins) as Hkp.
  destruct (set_range_ok (km_part (map m) old_addr e1) new_addr (new_addr + size)) as [-> Hk1]; try done; try lia.
  { intros Hr. change (is_real_device (map m) = true) in Hr. cbn [offset km_part]. rewrite Hr. specialize (Hf Hr). lia. }
  destruct (set_range_ok (recorded_map m) new_addr (new_addr + size)) as [-> Hk2]; try done; try lia; [by apply He| |].
  { intros Hr. specialize (Hrf Hr). lia. }
  cbn [mbind res_bind]. eapply rwp_mono; [apply map_and_coalesce_spec; [done|split; done| |]|].
  - destruct Hbm as [|(_ & Hemu & Hl & _)]; [by left|right]. split_and!; try done. unfold attrs in Hl. cbn [at_local] in Hl. rewrite Hloc in Hl.
    cbn [new_mapping map km_at km_part device_ inode_]. by destruct (shared files (device_ (map m)) (inode_ (map m))).
  - intros a Ha. apply contains_ptr_true in Ha. by apply Hfree.
  - intros s' (Hi' & (Ed & Eb & _) & Hv). split; [done|]. split; [done|]. split; [done|].
    intros a. rewrite Hv. unfold contains_ptr. simpl.
    fold (in_part a new_addr (new_addr + size)). destruct (in_part a new_addr (new_addr + size)); [|done]. f_equal.
    unfold attrs, moved. simpl. by rewrite !kattrs_at, kattrs_part.
Qed.

Lemma remap_spec old_addr old_n new_addr new_n old_size new_size m s :
  unmaps munmap bad -> Inv s -> remap_args s old_addr old_n new_addr new_n old_size new_size m ->
  rwp bad (remap reader munmap old_addr old_n new_addr new_n s) (fun s' =>
    Inv s' /\ brk_end s' = brk_end s
    /\ forall a, view (mem s') a
         = if in_part a new_addr (new_addr + new_size) then Some (moved m old_addr new_addr)
           else if in_part a old_addr (old_addr + old_size) then None else view (mem s) a).
Proof.
  intros Hmunmap Hi [Ho Hn Hro Hrn Hao Han Hop Hnp Hm Hf Hrf Hdf Huo Hun]. pose proof page_size_pos.
  destruct (ceil_page_spec _ _ Ho) as [Hoa _]. destruct (ceil_page_spec _ _ Hn) as [Hna Hnge].
  pose proof Hro as (? & ? & ?). pose proof Hrn as (? & ? & ?).
  pose proof (mapping_of_spec s old_addr (inv_mem _ _ _ _ Hi) ltac:(lia) ltac:(lia)) as Hmo. rewrite Hm in Hmo.
  destruct Hmo as (Hin & Hc & Hv). apply contains_ptr_true in Hc.
  pose proof (inv_mem _ _ _ _ Hi) as [_ Hall]. rewrite Forall_forall in Hall. pose proof (Hall _ Hin) as He. clear Hall.
  assert (bad \/ plain m) as Hbm.
  { destruct (inv_plain _ _ _ _ Hi) as [|Hp]; [by left|right]. unfold AddrProofs.plain_mem in Hp. rewrite Forall_forall in Hp. apply (Hp _ Hin). }
  pose proof (eo_map _ He) as Hkm. pose proof (eo_recorded _ He) as Hkr. cbn [fst snd] in Hkm, Hkr.
  set (e1 := Z.min (km_end (map m)) (old_addr + old_size)).
  assert (inside old_addr e1 (map m)) as Hins.
  { unfold inside, km_start, km_end in *. split_and!; try lia; [done|]. unfold e1.
    destruct (Z.min_spec (end_ (mr (map m))) (old_addr + old_size)) as [[_ ->]|[_ ->]]; [by apply Hkm|by apply aligned_add]. }
  unfold remap. rewrite Ho, Hm. cbn [unwrap mbind res_bind]. apply rwp_bind, rwp_assert.
  2: { destruct Hbm as [|(? & _)]; [by left|right]. by apply bool_decide_eq_true. }
  intros Hmon%bool_decide_eq_true. rewrite ptr_add_small by lia. fold e1. rewrite (subrange_ok _ _ _ Hkm Hins). cbn [mbind res_bind].
  assert (local_addr m = None) as Hloc.
  { assert (at_local (attrs m) = None) as Hnl by (by apply (Huo old_addr); [lia|]). unfold attrs in Hnl. cbn [at_local] in Hnl. by destruct (local_addr m). }
  destruct (remap_dont_fork_ok (dont_fork s) (new_range old_addr old_size) (new_range new_addr new_size)) as (df & Edf & Hdfs); [apply Hi| |].
  { unfold new_range at 2. cbn [end_]. rewrite ptr_add_small by lia. exact Hdf. }
  apply rwp_bind. eapply rwp_mono; [apply (unmap_internal_spec files); [done|done|done|right]|].
  { rewrite floor_page_aligned, region_end_aligned by done. apply unshared_detachable; [apply Hi|done]. }
  intros s1 (Hi1 & (Ed1 & Eb1 & _) & Hv1). rewrite floor_page_aligned, region_end_aligned in Hv1 by done.
  rewrite (proj2 (Z.eqb_neq new_n 0)) by lia. cbn [negb assert_ mbind res_bind]. rewrite Hn. cbn [mbind res_bind].
  rewrite Ed1, Edf. cbn [mbind res_bind]. apply rwp_bind.
  assert (Inv (set_dont_fork df s1)) as Hi1' by (by destruct Hi1).
  eapply rwp_mono; [apply (unmap_internal_spec files); [done|done|done|right]|].
  { rewrite floor_page_aligned, region_end_aligned by done. apply unshared_detachable; [apply Hi1'|]. intros a A Ha. cbn [mem set_dont_fork]. rewrite Hv1.
    destruct (in_part a old_addr (old_addr + old_size)); [done|]. by apply Hun. }
  intros s2 (Hi2 & (Ed2 & Eb2 & _) & Hv2). rewrite floor_page_aligned, region_end_aligned in Hv2 by done.
  rewrite ptr_add_small by lia.
  eapply rwp_mono; [apply (remap_place m old_addr e1 new_addr new_size s2); try done; try lia|].
  - intros a Ha. rewrite Hv2. by destruct (in_part_spec a new_addr (new_addr + new_size)).
  - intros s3 (Hi3 & Ed3 & Eb3 & Hv3). split; [done|]. split; [by rewrite Eb3, Eb2|]. intros a.
    rewrite Hv3, Hv2. cbn [mem set_dont_fork]. rewrite Hv1. by destruct (in_part a new_addr (new_addr + new_size)).
Qed.

End Ops.
End AddrOps.
