(* ===== verification/AddressSpaceTheorems.v ===== *)
(** What the operations on an address space promise: the effect of each on the
    mapping of every byte, an abstract memory they refine, and two results that
    show where the code does not do what its comments say. *)

From Stdlib Require Import Ascii String.
From S2P Require Import Prelude MemoryRange KernelMapping Watchpoints WatchMemory AddressSpace AddressSpaceProofs AddressSpaceOps.

Module AddrTheorems.
Import Range KMap AddrSpace AddrProofs AddrOps.

(** ** An abstract memory

    Each byte has attributes or is not mapped; plus the end of the heap. *)

Record Memory := mkMemory { bytes : Z -> option Attrs; heap_end : Z }.

Definition abstract (s : AddressSpace) : Memory := mkMemory (view (mem s)) (brk_end s).

Inductive Op :=
| OpMap (addr n prot flags off : Z) (fsname : OsString) (dev ino : Z) (stat : option Z)
    (record_map : option KernelMapping) (emuf local : option Z)
| OpUnmap (addr n : Z)
| OpProtect (addr n prot : Z)
| OpBrk (addr prot : Z)
| OpRemap (old_addr old_n new_addr new_n : Z).

Section Spec.
Context `{PageSize} (files : Files)
  (reader : option (Z -> Z -> option (list Z))) (munmap : Z -> Z -> bool).

Definition exec (o : Op) (s : AddressSpace) : res AddressSpace :=
  match o with
  | OpMap addr n prot flags off fsname dev ino stat record_map emuf local =>
      r ← map_op reader munmap addr n prot flags off fsname dev ino stat record_map emuf local None s; Ok r.2
  | OpUnmap addr n => unmap reader munmap addr n s
  | OpProtect addr n prot => protect addr n prot s
  | OpBrk addr prot => brk reader munmap addr prot s
  | OpRemap old_addr old_n new_addr new_n => remap reader munmap old_addr old_n new_addr new_n s
  end.

(** The arguments the kernel accepts: whole pages below the end of memory; the pages that
    [remap] moves are marked DONTFORK all or none.  A mapping is also mapped in rd exactly
    when its file is one that rd shares.  When mappings go away that are also mapped in rd,
    the region begins in them or they follow another mapping; [remap] moves and overwrites
    none of them. *)
Definition valid (o : Op) (s : AddressSpace) : Prop :=
  match o with
  | OpMap addr n prot flags off fsname dev ino stat record_map emuf local =>
      exists size, map_args addr n size dev off record_map
        /\ emuf = files dev ino (Z.land flags MAP_FLAGS_MASK)
        /\ local = (fun b => b + (if NO_DEVICE <? dev then off else addr)) <$> shared files dev ino
        /\ (forall l, local = Some l -> l + size < USIZE)
        /\ detachable addr (addr + size) s
  | OpUnmap addr n => exists size, ceil_page_size n = Ok size /\ region_ok addr size
      /\ detachable (floor_page_size addr) (region_end addr size) s
  | OpProtect addr n prot => region_ok addr n /\ 0 < n
  | OpBrk addr prot => files NO_DEVICE NO_INODE heap_flags = None /\ shared files NO_DEVICE NO_INODE = None
      /\ 0 <= brk_end s /\ brk_end s + 2 * page_size <= USIZE
      /\ 0 <= addr /\ addr + 2 * page_size <= USIZE
      /\ forall old new_, ceil_page_size (brk_end s) = Ok old -> ceil_page_size addr = Ok new_ ->
           detachable (Z.min old new_) (Z.max old new_) s
  | OpRemap old_addr old_n new_addr new_n =>
      exists old_size new_size m, remap_args s old_addr old_n new_addr new_n old_size new_size m
  end.

(** What an operation does to the abstract memory. *)
Definition page_up (z : Z) : Z := floor_page_size (z + page_size - 1).

Inductive abs_step : Op -> Memory -> Memory -> Prop :=
| abs_map addr n prot flags off fsname dev ino stat record_map emuf local M M' :
    let km := mapped_km addr (page_up n) prot flags off fsname dev ino in
    let rec := match record_map with Some r => r | None => km end in
    heap_end M' = heap_end M ->
    (forall a, bytes M' a = if in_part a addr (addr + page_up n)
                            then Some (attrs (new_mapping km rec emuf stat local None)) else bytes M a) ->
    abs_step (OpMap addr n prot flags off fsname dev ino stat record_map emuf local) M M'
| abs_unmap addr n M M' :
    heap_end M' = heap_end M ->
    (forall a, bytes M' a = if (0 <? n) && in_part a (floor_page_size addr) (page_up (addr + page_up n))
                            then None else bytes M a) ->
    abs_step (OpUnmap addr n) M M'
| abs_protect addr n prot lo stop M M' :
    let rs := floor_page_size addr in
    let re := page_up (addr + n) in
    heap_end M' = heap_end M ->
    lo <= rs -> rs <= stop <= re -> (lo < rs -> prot_contains prot PROT_GROWSDOWN = true) ->
    (forall a, lo <= a < stop -> bytes M a <> None) -> (stop < re -> bytes M stop = None) ->
    (forall a, bytes M' a = if in_part a lo stop then at_set_prot (new_prot prot) <$> bytes M a else bytes M a) ->
    abs_step (OpProtect addr n prot) M M'
| abs_brk addr prot M M' :
    heap_end M' = addr ->
    (forall a, bytes M' a
       = if in_part a (page_up (heap_end M)) (page_up addr) then Some (heap_attrs prot)
         else if in_part a (page_up addr) (page_up (heap_end M)) then None else bytes M a) ->
    abs_step (OpBrk addr prot) M M'
| abs_remap old_addr old_n new_addr new_n m M M' :
    heap_end M' = heap_end M ->
    bytes M old_addr = Some (attrs m) ->
    (forall a, bytes M' a
       = if in_part a new_addr (new_addr + page_up new_n) then Some (moved m old_addr new_addr)
         else if in_part a old_addr (old_addr + page_up old_n) then None else bytes M a) ->
    abs_step (OpRemap old_addr old_n new_addr new_n) M M'.

Local Notation Inv := (Inv files reader False).
Hypothesis Hmunmap : forall a n, munmap a n = true.

Lemma rwp_total {A} (m : res A) (Q : A -> Prop) : rwp False m Q -> exists a, m = Ok a /\ Q a.
Proof. destruct m; simpl; try done. eauto. Qed.

Lemma page_up_ceil z c : ceil_page_size z = Ok c -> page_up z = c.
Proof. intros ->%ceil_page_Ok. done. Qed.

Lemma page_up_region addr n : page_up (addr + n) = region_end addr n.
Proof. done. Qed.

(** Where a growing protection starts: in the mapping of the first byte. *)
Lemma protect_start_spec prot s rs : mem_ok (mem s) -> 0 <= rs -> rs + 1 < USIZE ->
  protect_start prot s rs <= rs
  /\ (protect_start prot s rs < rs -> prot_contains prot PROT_GROWSDOWN = true)
  /\ forall a, protect_start prot s rs <= a < rs -> view (mem s) a <> None.
Proof.
  intros Hok H0 H1. unfold protect_start. pose proof (mapping_of_spec s rs Hok H0 H1) as Hm.
  destruct (mapping_of s rs) as [m|]; [|split_and!; lia]. destruct Hm as (Hin & Hc & _).
  destruct (prot_contains prot PROT_GROWSDOWN); [|split_and!; lia]. apply contains_ptr_true in Hc.
  unfold km_start. split_and!; [lia|done|]. intros a Ha.
  rewrite (view_elem _ _ a Hok Hin); [done|]. apply contains_ptr_true. simpl. lia.
Qed.

Lemma exec_protect addr n prot s : Inv s -> region_ok addr n -> 0 < n ->
  rwp False (exec (OpProtect addr n prot) s) (fun s' =>
    Inv s' /\ abs_step (OpProtect addr n prot) (abstract s) (abstract s')).
Proof.
  intros Hi Hreg Hn. eapply rwp_mono; [by apply protect_spec|].
  intros s' (Hi' & (_ & Eb & _) & _ & stop & Hs & Hm & Hu & Hv). split; [done|].
  pose proof (floor_page_spec addr) as [[x Hx] ?]. pose proof page_size_pos. destruct Hreg as (? & ? & ?).
  assert (0 <= floor_page_size addr) as Hfl by (rewrite Hx in *; assert (0 <= x) by nia; nia).
  destruct (protect_start_spec prot s (floor_page_size addr) (inv_mem _ _ _ _ Hi) Hfl ltac:(lia)) as (Hlo & Hg & Hlm).
  apply (abs_protect addr n prot (protect_start prot s (floor_page_size addr)) stop); try done.
  intros a Ha. destruct (Z.lt_ge_cases a (floor_page_size addr)); [apply Hlm; lia|apply Hm; lia].
Qed.

Lemma exec_unmap addr n size s : Inv s -> ceil_page_size n = Ok size -> region_ok addr size -> detachable (floor_page_size addr) (region_end addr size) s ->
  rwp False (exec (OpUnmap addr n) s) (fun s' =>
    Inv s' /\ abs_step (OpUnmap addr n) (abstract s) (abstract s')).
Proof.
  intros Hi Hsz Hreg Hd. eapply rwp_mono; [apply (unmap_spec files reader munmap False addr n size); [by right|done|done|done|by right]|].
  intros s' (Hi' & Eb & _ & _ & Hv). split; [done|]. constructor; [done|]. simpl. intros a.
  rewrite (page_up_ceil _ _ Hsz), page_up_region, Hv. destruct (ceil_page_spec _ _ Hsz) as [[x Hx] Hle].
  destruct Hreg as (_ & ? & _). pose proof page_size_pos.
  assert ((0 <? n) = negb (size =? 0)) as ->; [|done].
  destruct (Z.ltb_spec 0 n), (Z.eqb_spec size 0); try done; [lia|]. rewrite Hx in *. exfalso.
  assert (0 < x) by nia. nia.
Qed.

Lemma exec_brk addr prot s : Inv s -> valid (OpBrk addr prot) s ->
  rwp False (exec (OpBrk addr prot) s) (fun s' =>
    Inv s' /\ abs_step (OpBrk addr prot) (abstract s) (abstract s')).
Proof.
  intros Hi (Hemu & Hsh & Hb0 & Hb1 & Ha0 & Ha1 & Hd). pose proof page_size_pos.
  assert (forall z, 0 <= z -> z + 2 * page_size <= USIZE -> ceil_page_size z = Ok (page_up z)) as Hc.
  { intros z ? ?. unfold ceil_page_size, checked_add, page_up. by destruct (Z.ltb_spec (z + page_size) USIZE); [|lia]. }
  pose proof (Hc _ Hb0 Hb1) as Eo. pose proof (Hc _ Ha0 Ha1) as En.
  pose proof (ceil_page_spec _ _ Eo) as [_ ?]. pose proof (ceil_page_spec _ _ En) as [_ ?].
  eapply rwp_mono; [apply (brk_spec files reader munmap False addr prot _ _ s (or_intror Hmunmap) Hi (or_intror (conj Hemu Hsh)) (or_intror (Hd _ _ Eo En)) Eo En); lia|].
  intros s' (Hi' & Eb & Hv). split; [done|]. by constructor.
Qed.

Lemma exec_remap old_addr old_n new_addr new_n s : Inv s -> valid (OpRemap old_addr old_n new_addr new_n) s ->
  rwp False (exec (OpRemap old_addr old_n new_addr new_n) s) (fun s' =>
    Inv s' /\ abs_step (OpRemap old_addr old_n new_addr new_n) (abstract s) (abstract s')).
Proof.
  intros Hi (osz & nsz & m & Ha). pose proof Ha as [Ho Hn Hro _ _ _ Hop _ Hm _ _ _ _ _].
  eapply rwp_mono; [by apply (remap_spec files reader munmap False _ _ _ _ _ _ _ _ (or_intror Hmunmap) Hi Ha)|].
  intros s' (Hi' & Eb & Hv). split; [done|]. apply (abs_remap _ _ _ _ m); [done| |].
  - destruct Hro as (? & ? & ?). pose proof page_size_pos.
    pose proof (mapping_of_spec s old_addr (inv_mem _ _ _ _ Hi) ltac:(lia) ltac:(lia)) as Hs. rewrite Hm in Hs. apply Hs.
  - intros a. rewrite (page_up_ceil _ _ Ho), (page_up_ceil _ _ Hn). apply Hv.
Qed.

Lemma exec_map addr n prot flags off fsname dev ino stat record_map emuf local s :
  Inv s -> valid (OpMap addr n prot flags off fsname dev ino stat record_map emuf local) s ->
  rwp False (exec (OpMap addr n prot flags off fsname dev ino stat record_map emuf local) s) (fun s' =>
    Inv s' /\ abs_step (OpMap addr n prot flags off fsname dev ino stat record_map emuf local) (abstract s) (abstract s')).
Proof.
  intros Hi (size & Ha & -> & El & Hl & Hd). apply rwp_bind.
  eapply rwp_mono; [apply (map_op_spec files _ _ _ _ _ size); [by right|done|done|by right|right]|].
  { split_and!; try done; [|by intros l E%Hl; unfold km_end, km_start; simpl; lia]. unfold attrs, kattrs, is_real_device, km_start. simpl. rewrite El.
    destruct (shared files dev ino) as [b|]; [|done]. simpl. f_equal. destruct (NO_DEVICE <? dev); lia. }
  intros [k s'] (_ & Hi' & _ & Eb & _ & Hv). simpl in *. split; [done|]. constructor; [done|].
  rewrite (page_up_ceil _ _ (ma_size _ _ _ _ _ _ Ha)). done.
Qed.

(** The operations never fail on valid arguments, keep the invariant and do what
    the abstract memory does. *)
Lemma exec_refines o s : Inv s -> valid o s ->
  exists s', exec o s = Ok s' /\ Inv s' /\ abs_step o (abstract s) (abstract s').
Proof.
  intros Hi Hv. apply rwp_total. destruct o.
  - by apply exec_map.
  - destruct Hv as (size & ? & ? & ?). by apply (exec_unmap _ _ size).
  - destruct Hv. by apply exec_protect.
  - by apply exec_brk.
  - by apply exec_remap.
Qed.

(** Sequences of operations. *)
Inductive reach : AddressSpace -> list Op -> AddressSpace -> Prop :=
| reach_nil s : reach s [] s
| reach_cons s o s1 os s2 : valid o s -> exec o s = Ok s1 -> reach s1 os s2 -> reach s (o :: os) s2.

Inductive abs_steps : list Op -> Memory -> Memory -> Prop :=
| abs_nil M : abs_steps [] M M
| abs_cons o os M M1 M2 : abs_step o M M1 -> abs_steps os M1 M2 -> abs_steps (o :: os) M M2.

End Spec.
(** ** Theorems *)



(** C4: coalescing around an entry keeps every byte's mapping: only neighbours
    that agree in protection, flags, file and distance to it, in the mapping and
    in the recorded mapping, are joined. *)
Theorem coalesce_around_keeps `{PageSize} files bad l1 e l2 s :
  mem s = l1 ++ e :: l2 -> mem_ok (mem s) -> bad \/ plain_mem files (mem s) ->
  rwp bad (coalesce_around e.1 s) (fun s' =>
    mem_ok (mem s') /\ (forall a, view (mem s') a = view (mem s) a)
    /\ dont_fork s' = dont_fork s /\ watchpoints s' = watchpoints s).
Proof.
  intros Hs Hok Hb. eapply rwp_mono; [by apply (coalesce_around_spec files bad l1 e l2)|].
  intros s' (? & _ & (? & ? & _) & ?). done.
Qed.

(** [mapping_of] finds the mapping of a byte exactly when there is one. *)
Theorem mapping_of_exact `{PageSize} s a : mem_ok (mem s) -> 0 <= a -> a + 1 < USIZE ->
  match mapping_of s a with
  | Some m => (mr (map m), m) ∈ mem s /\ contains_ptr (mr (map m)) a = true /\ view (mem s) a = Some (attrs m)
  | None => forall e, e ∈ mem s -> contains_ptr e.1 a = false
  end.
Proof.
  intros Hok H0 H1. pose proof (mapping_of_spec s a Hok H0 H1) as Hm. destruct (mapping_of s a); [done|].
  intros e He. destruct (contains_ptr e.1 a) eqn:Ec; [|done]. by rewrite (view_elem _ e a Hok He Ec) in Hm.
Qed.

(** C28: [find_free_memory] returns the end of a mapping after [after] behind
    which the required space is free, when no end of a mapping plus that space
    passes the end of memory. *)
Theorem find_free_memory_free `{PageSize} s req after :
  mem_ok (mem s) -> 0 < req -> (forall e, e ∈ mem s -> end_ e.1 + req < USIZE) ->
  (exists e, e ∈ mem s /\ after <= start_ e.1) ->
  exists p, find_free_memory s req (Some after) = Ok p /\ after < p
    /\ forall a, p <= a < p + req -> view (mem s) a = None.
Proof. apply find_free_memory_spec. Qed.

(** Addresses wrap, so when the space passes the end of memory
    [find_free_memory] does not complain as its comment says: it can return an
    address whose space reaches into the next mapping. *)
Theorem find_free_memory_wraps `{PageSize} s cur nxt rest req :
  mem s = cur :: nxt :: rest -> mem_ok (mem s) -> req < USIZE ->
  USIZE <= end_ cur.1 + req <= USIZE + start_ nxt.1 ->
  find_free_memory s req None = Ok (end_ cur.1)
  /\ exists a, end_ cur.1 <= a < end_ cur.1 + req /\ view (mem s) a <> None.
Proof.
  intros Hs Hok Hreq Hw. rewrite Hs in Hok. pose proof Hok as (He1 & (He2 & _)%mem_ok_cons & Hb)%mem_ok_cons.
  destruct (entry_range _ He1) as [Es1 Ee1]. destruct (entry_range _ He2) as [Es2 Ee2].
  pose proof (km_nonempty _ (eo_map _ He1)). pose proof (km_nonempty _ (eo_map _ He2)).
  pose proof (km_bound _ (eo_map _ He2)). pose proof page_size_pos. specialize (Hb nxt ltac:(left)).
  unfold ebefore, before in Hb. rewrite Es1, Ee1, Es2, Ee2 in *. split.
  - unfold find_free_memory. destruct (mem_from_point (mem s) 0) as (l1 & E & Hl & _).
    destruct l1 as [|x l1].
    + simpl in E. rewrite <- E, Hs. cbn [find_free_loop]. rewrite Ee1, Es2. unfold ptr_add, wrap.
      replace (end_ cur.1 + req) with (end_ cur.1 + req - USIZE + 1 * USIZE) by lia.
      rewrite Z.mod_add, Z.mod_small by lia. by rewrite (proj2 (Z.leb_le _ _)) by lia.
    + rewrite Hs in E. injection E as <- _. specialize (Hl cur ltac:(left)). lia.
  - exists (start_ nxt.1). split; [lia|]. rewrite Hs. rewrite (view_elem _ nxt _ Hok); [done|right; left|].
    apply contains_ptr_true. lia.
Qed.

(** The recorded mapping of a mapping moved by [remap] keeps its old offset
    instead of the offset of the part moved: although mapping and recorded mapping
    agreed, as in recording they do, their file offsets differ afterwards when the
    part of a file mapping that is moved does not start where the mapping does. *)
Theorem remap_recorded_diverges `{PageSize} files reader munmap old_addr old_n new_addr new_n osz nsz m s : (forall a n, munmap a n = true) ->
  Inv files reader False s -> remap_args s old_addr old_n new_addr new_n osz nsz m ->
  recorded_map m = map m -> is_real_device (map m) = true -> km_start (map m) < old_addr ->
  exists s' A, remap reader munmap old_addr old_n new_addr new_n s = Ok s'
    /\ view (mem s') new_addr = Some A /\ at_map A <> at_rec A.
Proof.
  intros Hu Hi Ha Hrec Hreal Hlt.
  destruct (rwp_total _ _ (remap_spec files reader munmap False _ _ _ _ _ _ _ _ (or_intror Hu) Hi Ha)) as (s' & Hs' & _ & _ & Hv).
  exists s', (moved m old_addr new_addr). split; [done|]. destruct Ha as [_ Hn _ _ _ _ _ Hnp _ _ _ _ _ _].
  destruct (ceil_page_spec _ _ Hn) as [_ ?]. split.
  - rewrite Hv. by destruct (in_part_spec new_addr new_addr (new_addr + nsz)); [|lia].
  - unfold moved, is_real_device in *. simpl. rewrite Hrec. unfold ka_move. simpl. rewrite Hreal. intros E.
    injection E as E. lia.
Qed.

(** Unmapping a region that starts before a mapping which rd shares with the
    tracee panics: the part of rd's own memory to unmap is computed from the
    difference of the starts, which is then negative. *)
Theorem unmap_local_panics `{PageSize} munmap l1 e l2 local rem s :
  mem s = l1 ++ e :: l2 -> mem_ok (mem s) -> meets e rem -> 0 <= start_ rem ->
  local_addr e.2 = Some local -> monitored_shared_memory e.2 = None -> start_ rem < start_ e.1 ->
  unmapper munmap e.1 rem s = Panic.
Proof.
  intros Hs Hok Hm H0 Hl Hmon Hlt. rewrite Hs in Hok. pose proof (mem_ok_entry _ _ _ Hok) as He.
  destruct (entry_range _ He) as [Es Ee]. destruct (meets_map _ _ He Hm) as (? & ? & ? & ? & ?).
  pose proof (km_nonempty _ (eo_map _ He)). pose proof (km_bound _ (eo_map _ He)). pose proof page_size_pos.
  unfold unmapper. rewrite Hs, mem_get_entry by done. cbn [unwrap mbind res_bind]. cbv zeta.
  destruct (Z.ltb_spec (km_start (map e.2)) (start_ rem)); [lia|]. cbn [mbind res_bind].
  assert (exists s', (if end_ rem <? km_end (map e.2)
     then o ← overflow_part e.2 rem; Ok (add_to_map o (remove_from_map (mr (map e.2)) s))
     else Ok (remove_from_map (mr (map e.2)) s)) = Ok s') as [s' ->].
  { destruct (Z.ltb_spec (end_ rem) (km_end (map e.2))); [|eauto]. unfold overflow_part. rewrite Hmon.
    cbn [monitored_subrange mbind res_bind]. rewrite part_ok; [by eexists|done| |done]. apply high_inside; (done || lia). }
  cbn [mbind res_bind]. rewrite Hl. rewrite km_size_ok by apply He. unfold checked_sub.
  assert (ptr_diff (start_ rem) (km_start (map e.2)) = start_ rem - km_start (map e.2) + USIZE) as ->.
  { unfold ptr_diff, wrap. rewrite <- (Z.mod_add _ 1) by lia. rewrite Z.mod_small; lia. }
  by rewrite (proj2 (Z.leb_gt _ _)) by lia.
Qed.

End AddrTheorems.
