(* ===== verification/AddressSpaceExamples.v ===== *)
(** Concrete address spaces at which the theorems of [AddressSpaceTheorems]
    apply. *)

From Stdlib Require Import Ascii String.
From S2P Require Import Prelude MemoryRange KernelMapping Watchpoints WatchMemory AddressSpace AddressSpaceProofs AddressSpaceOps AddressSpaceTheorems.

Module AddrExamples.
Import Range KMap AddrSpace AddrProofs AddrOps AddrTheorems.

(** No file is emulated; inode 9 is a file that rd shares. *)
Definition demo_files : Files := mkFiles (fun _ _ _ => None) (fun _ ino => if ino =? 9 then Some 65536 else None).
Definition no_munmap (_ _ : Z) : bool := true.
Definition demo_reader : option (Z -> Z -> option (list Z)) := Some WatchMem.page_read.

Definition demo0 : AddressSpace := mkAS [] ∅ [] [] 0 0 [].

Lemma demo0_inv : Inv demo_files demo_reader False demo0.
Proof.
  split; simpl; [apply mem_ok_nil|right; constructor| |constructor]. right.
  exists WatchMem.page_memory, WatchMem.page_read. split_and!; [done|apply WatchMem.page_reads|constructor|constructor].
Qed.

(** Four pages of a file. *)
Definition demo_map : Op := OpMap 8192 16384 3 2 0 (os "/f") 5 7 None None None None.

Lemma demo_map_valid : valid demo_files demo_map demo0.
Proof.
  exists 16384. split_and!; try done; [|by intros e ?%not_elem_of_nil]. split; try done.
  - exists 2. done.
  - split; [done|]. exists 0. done.
Qed.

Definition run_op (o : Op) (s : AddressSpace) : AddressSpace :=
  match exec demo_reader no_munmap o s with Ok s' => s' | _ => s end.

Lemma run_op_inv o s : Inv demo_files demo_reader False s -> valid demo_files o s ->
  Inv demo_files demo_reader False (run_op o s).
Proof.
  intros Hi Hv. destruct (exec_refines demo_files demo_reader no_munmap ltac:(done) o s Hi Hv) as (s' & E & Hi' & _).
  unfold run_op. by rewrite E.
Qed.

Definition demo1 : AddressSpace := Eval vm_compute in run_op demo_map demo0.

Lemma demo1_inv : Inv demo_files demo_reader False demo1.
Proof. apply (run_op_inv demo_map demo0 demo0_inv demo_map_valid). Qed.

Lemma demo1_mem_ok : mem_ok (mem demo1).
Proof. apply demo1_inv. Qed.

(** Two pages of the shared file behind it. *)
Definition demo_share : Op := OpMap 24576 8192 3 1 0 (os "/shm") 5 9 None None None (Some 65536).

Lemma demo_share_valid : valid demo_files demo_share demo1.
Proof.
  exists 8192. split_and!; try done; [|by intros l [= <-]|].
  - split; try done; [by exists 6|]. split; [done|]. exists 0. done.
  - intros e He [l Hl]. repeat (apply elem_of_cons in He as [->|He]; [done|]). by apply not_elem_of_nil in He.
Qed.

Definition demo_shared : AddressSpace := Eval vm_compute in run_op demo_share demo1.

Lemma demo_shared_inv : Inv demo_files demo_reader False demo_shared.
Proof. apply (run_op_inv demo_share demo1 demo1_inv demo_share_valid). Qed.

(** Unmapping the end of the first file and the shared one. *)
Lemma demo_unmap_valid : valid demo_files (OpUnmap 20480 12288) demo_shared.
Proof.
  exists 12288. split_and!; try done. intros e He [l Hl] Hr. eexists. split; [left|].
  apply elem_of_cons in He as [->|He]; [done|]. apply elem_of_cons in He as [->|He]; [done|]. by apply not_elem_of_nil in He.
Qed.



(** Two pages whose protection differs, and then does not. *)
Definition demo2 : AddressSpace := Eval vm_compute in run_op (OpProtect 12288 4096 1) demo1.

Lemma demo2_inv : Inv demo_files demo_reader False demo2.
Proof. apply (run_op_inv (OpProtect 12288 4096 1) demo1 demo1_inv). done. Qed.

Lemma coalesce_around_keeps_witness :
  exists e l, mem demo2 = e :: l /\
  rwp False (coalesce_around e.1 demo2) (fun s' =>
    mem_ok (mem s') /\ (forall a, view (mem s') a = view (mem demo2) a)
    /\ dont_fork s' = dont_fork demo2 /\ watchpoints s' = watchpoints demo2).
Proof.
  eexists _, _. split; [reflexivity|].
  eapply (coalesce_around_keeps demo_files False []); [reflexivity|apply demo2_inv|apply demo2_inv].
Defined.

Lemma mapping_of_exact_witness :
  match mapping_of demo2 20479 with
  | Some m => (mr (map m), m) ∈ mem demo2 /\ contains_ptr (mr (map m)) 20479 = true
              /\ view (mem demo2) 20479 = Some (attrs m)
  | None => forall e, e ∈ mem demo2 -> contains_ptr e.1 20479 = false
  end.
Proof. apply (mapping_of_exact demo2 20479); [apply demo2_inv|lia|lia]. Defined.

Lemma find_free_memory_free_witness :
  exists p, find_free_memory demo2 4096 (Some 4096) = Ok p /\ 4096 < p
    /\ forall a, p <= a < p + 4096 -> view (mem demo2) a = None.
Proof.
  apply (find_free_memory_free demo2 4096 4096); [apply demo2_inv|lia| |].
  - intros e He. repeat (apply elem_of_cons in He as [->|He]; [simpl; lia|]). by apply not_elem_of_nil in He.
  - eexists. split; [left|simpl; lia].
Defined.

Lemma find_free_memory_wraps_witness :
  exists cur, find_free_memory demo2 (USIZE - 12288) None = Ok (end_ cur)
  /\ exists a, end_ cur <= a < end_ cur + (USIZE - 12288) /\ view (mem demo2) a <> None.
Proof.
  eexists. eapply (find_free_memory_wraps demo2); [reflexivity|apply demo2_inv|lia|simpl; lia].
Defined.

(** Moving the third page of the file. *)
Definition demo_mapping : Mapping := Eval vm_compute in
  let k := mkKM (mkRange 0 0) [] 0 0 0 0 0 in
  match mapping_of demo1 16384 with Some m => m | None => new_mapping k k None None None None end.

Lemma demo_mapping_ok : km_ok (map demo_mapping).
Proof. destruct demo1_mem_ok as [_ Hf]. apply Forall_cons in Hf as [He _]. apply (eo_map _ He). Qed.

Lemma demo_remap_args : remap_args demo1 16384 4096 1048576 4096 4096 4096 demo_mapping.
Proof.
  split; try done.
  - by exists 4.
  - by exists 256.
  - intros a A Ha. simpl. destruct (contains_ptr _ a); by intros [= <-].
  - intros a A Ha. simpl. destruct (contains_ptr _ a); by intros [= <-].
Qed.

Lemma remap_recorded_diverges_witness :
  exists s' A, remap demo_reader no_munmap 16384 4096 1048576 4096 demo1 = Ok s'
    /\ view (mem s') 1048576 = Some A /\ at_map A <> at_rec A.
Proof.
  apply (remap_recorded_diverges demo_files demo_reader no_munmap _ _ _ _ 4096 4096 demo_mapping demo1 ltac:(done) demo1_inv
    demo_remap_args); reflexivity.
Defined.

(** The same file mapped in rd. *)
Definition demo_local : AddressSpace :=
  set_mem [(mkRange 8192 24576, mkMapping (map demo_mapping) (map demo_mapping) None None (Some 65536) None 0)] demo0.

Lemma unmap_local_panics_witness :
  unmapper no_munmap (mkRange 8192 24576) (mkRange 4096 12288) demo_local = Panic.
Proof.
  apply (unmap_local_panics no_munmap [] (mkRange 8192 24576, mkMapping (map demo_mapping) (map demo_mapping) None None (Some 65536) None 0)
    [] 65536 (mkRange 4096 12288) demo_local); try reflexivity; try (simpl; lia).
  - apply mem_ok_singleton. split; try done; apply demo_mapping_ok.
  - split_and!; simpl; try lia; [by exists 1|by exists 3].
Defined.

End AddrExamples.
