(* ===== verification/GdbExpression.v ===== *)
(** The interpreter for gdb agent expressions of [src/src/gdb_expression.rs], and
    the breakpoint conditions of [src/src/commands/gdb_server.rs] made of them. *)

From S2P Require Import Prelude.

Module GdbExpr.

(** ** Opcodes *)

Inductive Opcode :=
| OP_float | OP_add | OP_sub | OP_mul | OP_div_signed | OP_div_unsigned | OP_rem_signed
| OP_rem_unsigned | OP_lsh | OP_rsh_signed | OP_rsh_unsigned | OP_trace | OP_trace_quick
| OP_log_not | OP_bit_and | OP_bit_or | OP_bit_xor | OP_bit_not | OP_equal | OP_less_signed
| OP_less_unsigned | OP_ext | OP_ref8 | OP_ref16 | OP_ref32 | OP_ref64 | OP_ref_float
| OP_ref_double | OP_ref_long_double | OP_l_to_d | OP_d_to_l | OP_if_goto | OP_goto | OP_const8
| OP_const16 | OP_const32 | OP_const64 | OP_reg | OP_end | OP_dup | OP_pop | OP_zero_ext | OP_swap
| OP_getv | OP_setv | OP_tracev | OP_tracenz | OP_trace16 | OP_pick | OP_rot | OP_printf.

#[global] Instance Opcode_eq_dec : EqDecision Opcode.
Proof. solve_decision. Defined.

Definition opcode_num (o : Opcode) : Z :=
  match o with
  | OP_float => 0x01 | OP_add => 0x02 | OP_sub => 0x03 | OP_mul => 0x04
  | OP_div_signed => 0x05 | OP_div_unsigned => 0x06 | OP_rem_signed => 0x07
  | OP_rem_unsigned => 0x08 | OP_lsh => 0x09 | OP_rsh_signed => 0x0a
  | OP_rsh_unsigned => 0x0b | OP_trace => 0x0c | OP_trace_quick => 0x0d
  | OP_log_not => 0x0e | OP_bit_and => 0x0f | OP_bit_or => 0x10 | OP_bit_xor => 0x11
  | OP_bit_not => 0x12 | OP_equal => 0x13 | OP_less_signed => 0x14
  | OP_less_unsigned => 0x15 | OP_ext => 0x16 | OP_ref8 => 0x17 | OP_ref16 => 0x18
  | OP_ref32 => 0x19 | OP_ref64 => 0x1a | OP_ref_float => 0x1b | OP_ref_double => 0x1c
  | OP_ref_long_double => 0x1d | OP_l_to_d => 0x1e | OP_d_to_l => 0x1f
  | OP_if_goto => 0x20 | OP_goto => 0x21 | OP_const8 => 0x22 | OP_const16 => 0x23
  | OP_const32 => 0x24 | OP_const64 => 0x25 | OP_reg => 0x26 | OP_end => 0x27
  | OP_dup => 0x28 | OP_pop => 0x29 | OP_zero_ext => 0x2a | OP_swap => 0x2b
  | OP_getv => 0x2c | OP_setv => 0x2d | OP_tracev => 0x2e | OP_tracenz => 0x2f
  | OP_trace16 => 0x30 | OP_pick => 0x32 | OP_rot => 0x33 | OP_printf => 0x34
  end.

Definition all_opcodes : list Opcode :=
  [OP_float; OP_add; OP_sub; OP_mul; OP_div_signed; OP_div_unsigned; OP_rem_signed;
   OP_rem_unsigned; OP_lsh; OP_rsh_signed; OP_rsh_unsigned; OP_trace; OP_trace_quick; OP_log_not;
   OP_bit_and; OP_bit_or; OP_bit_xor; OP_bit_not; OP_equal; OP_less_signed; OP_less_unsigned;
   OP_ext; OP_ref8; OP_ref16; OP_ref32; OP_ref64; OP_ref_float; OP_ref_double;
   OP_ref_long_double; OP_l_to_d; OP_d_to_l; OP_if_goto; OP_goto; OP_const8; OP_const16;
   OP_const32; OP_const64; OP_reg; OP_end; OP_dup; OP_pop; OP_zero_ext; OP_swap; OP_getv; OP_setv;
   OP_tracev; OP_tracenz; OP_trace16; OP_pick; OP_rot; OP_printf].

(** The [transmute] of a fetched byte; there is no value for a byte that is no opcode. *)
Definition decode (b : Z) : option Opcode :=
  List.find (fun o => opcode_num o =? b) all_opcodes.

(** ** The state of an evaluation; the top of the stack is its head *)

Record State := mkState {
  bytecode : list Z;
  stack : list Z;
  pc : Z;
  error : bool;
  ended : bool
}.

(** ** Registers and memory of the task *)

(** [GdbRegisterValue], with its value as the number it holds. *)
Inductive RegisterValue :=
| Undefined
| Sized (size value : Z)
| Generic (bytes : list Z).

Class Task := {
  (** [read_val_mem] of so many bytes, little endian *)
  read_mem : Z -> Z -> option Z;
  (** the bytes of a register: [read_register] of the registers, then of the
      extra registers *)
  read_register : Z -> option (list Z);
  (** [__DREG_NUM_LINUX_X86_64] and [MAX_REG_SIZE_BYTES] *)
  num_registers : Z;
  max_reg_size : Z;
  (** what the program does with a byte that is no opcode, also with the one that is
      fetched beyond the end: the [transmute] is undefined behaviour, and nothing is
      assumed of it *)
  undefined_opcode : Z -> State -> res State
}.

Fixpoint le_value (bytes : list Z) : Z :=
  match bytes with [] => 0 | b :: bs => b + 256 * le_value bs end.

(** [GdbServer::get_reg]. *)
Definition get_reg `{Task} (r : Z) : res RegisterValue :=
  match read_register r with
  | None => Ok Undefined
  | Some bytes =>
      let siz := Z.of_nat (length bytes) in
      if (siz =? 1) || (siz =? 2) || (siz =? 4) || (siz =? 8) then Ok (Sized siz (le_value bytes))
      else if siz <=? max_reg_size then Ok (Generic bytes)
      else Panic
  end.

(** ** Operations on the state *)

Definition new_state (bytecode : list Z) : State := mkState bytecode [] 0 false false.

Definition set_error (s : State) : State := mkState (bytecode s) (stack s) (pc s) true (ended s).
Definition set_end (s : State) : State := mkState (bytecode s) (stack s) (pc s) (error s) true.
Definition set_pc (p : Z) (s : State) : State := mkState (bytecode s) (stack s) p (error s) (ended s).
Definition set_stack (l : list Z) (s : State) : State := mkState (bytecode s) l (pc s) (error s) (ended s).

Definition push (i : Z) (s : State) : State := set_stack (i :: stack s) s.

Definition pop (s : State) : Z * State :=
  match stack s with
  | [] => (-1, set_error s)
  | v :: l => (v, set_stack l s)
  end.

Definition pop_a_b (s : State) : Z * Z * State :=
  let '(b, s) := pop s in
  let '(a, s) := pop s in
  (a, b, s).

Definition nonzero (v : Z) (s : State) : Z * State :=
  if v =? 0 then (1, set_error s) else (v, s).

(** The bytes of the code from [p] on, most significant first. *)
Fixpoint be_fold (w v : Z) (bytes : list Z) : Z :=
  match bytes with
  | [] => v
  | b :: bs => be_fold w (Z.lor (wrap w (Z.shiftl v 8)) b) bs
  end.

(** [fetch_u8], [fetch_u16], [fetch_u32] and [fetch_u64]: [n] bytes. *)
Definition fetch (n : Z) (s : State) : Z * State :=
  if Z.of_nat (length (bytecode s)) <? pc s + n then (2 ^ (8 * n) - 1, set_error s)
  else (be_fold (8 * n) 0 (take (Z.to_nat n) (drop (Z.to_nat (pc s)) (bytecode s))),
        set_pc (pc s + n) s).

Definition fetch_u8 := fetch 1.
Definition fetch_u16 := fetch 2.
Definition fetch_u32 := fetch 4.
Definition fetch_u64 := fetch 8.

Definition load `{Task} (n : Z) (s : State) : State :=
  let '(v, s) := pop s in
  if error s then s
  else match read_mem (wrap 64 v) n with
       | None => set_error s
       | Some v => push (swrap 64 v) s
       end.

Definition pick (offset : nat) (s : State) : State :=
  match stack s !! offset with
  | None => set_error s
  | Some v => push v s
  end.

(** ** One step *)

(** The checked [1i64 << n] minus one, for [0 <= n < 64]. *)
Definition n_mask (n : Z) : res Z :=
  let m := swrap 64 (Z.shiftl 1 n) - 1 in
  if - I64_BOUND <=? m then Ok m else Panic.

(** A checked [%] of [i64]. *)
Definition checked_rem (a b : Z) : res Z :=
  if (a =? - I64_BOUND) && (b =? -1) then Panic else Ok (Z.rem a b).

Definition bin (f : Z -> Z -> Z) (s : State) : res State :=
  let '(a, b, s) := pop_a_b s in Ok (push (f a b) s).

Definition of_bool (b : bool) : Z := if b then 1 else 0.

Definition shift_amount (b : Z) : Z := Z.land (wrap 32 b) 63.

Definition op_ext (s : State) : res State :=
  let '(x, s) := fetch_u8 s in
  let '(n, s) := nonzero x s in
  if 64 <=? n then Ok s
  else
    let '(a, s) := pop s in
    m ← n_mask n;
    let sign_bit := Z.land (Z.shiftr a (n - 1)) 1 in
    Ok (push (Z.lor (sign_bit * Z.lnot m) (Z.land a m)) s).

Definition op_zero_ext (s : State) : res State :=
  let '(n, s) := fetch_u8 s in
  if 64 <=? n then Ok s
  else
    let '(a, s) := pop s in
    m ← n_mask n;
    Ok (push (Z.land a m) s).

Definition op_reg `{Task} (s : State) : res State :=
  let '(r, s) := fetch_u16 s in
  if num_registers <=? r then Ok (set_error s)
  else
    v ← get_reg r;
    match v with
    | Undefined | Generic _ => Ok (set_error s)
    | Sized _ v => Ok (push (swrap 64 v) s)
    end.

Definition op_rot (s : State) : State :=
  let '(c, s) := pop s in
  let '(b, s) := pop s in
  let '(a, s) := pop s in
  push a (push b (push c s)).

(** The arms of the match in [step]. *)
Definition exec_op `{Task} (o : Opcode) (s : State) : res State :=
  match o with
  | OP_add => bin (fun a b => swrap 64 (a + b)) s
  | OP_sub => bin (fun a b => swrap 64 (a - b)) s
  | OP_mul => bin (fun a b => swrap 64 (a * b)) s
  | OP_div_signed =>
      let '(a, b, s) := pop_a_b s in
      let '(d, s) := nonzero b s in
      Ok (push (swrap 64 (Z.quot a d)) s)
  | OP_div_unsigned =>
      let '(a, b, s) := pop_a_b s in
      let '(d, s) := nonzero b s in
      Ok (push (swrap 64 (wrap 64 a / wrap 64 d)) s)
  | OP_rem_signed =>
      let '(a, b, s) := pop_a_b s in
      let '(d, s) := nonzero b s in
      r ← checked_rem a d;
      Ok (push r s)
  | OP_rem_unsigned =>
      let '(a, b, s) := pop_a_b s in
      let '(d, s) := nonzero b s in
      Ok (push (swrap 64 (wrap 64 a mod wrap 64 d)) s)
  | OP_lsh => bin (fun a b => swrap 64 (Z.shiftl a (shift_amount b))) s
  | OP_rsh_signed => bin (fun a b => Z.shiftr a (shift_amount b)) s
  | OP_rsh_unsigned => bin (fun a b => swrap 64 (Z.shiftr (wrap 64 a) (shift_amount b))) s
  | OP_log_not => let '(a, s) := pop s in Ok (push (of_bool (a =? 0)) s)
  | OP_bit_and => bin Z.land s
  | OP_bit_or => bin Z.lor s
  | OP_bit_xor => bin Z.lxor s
  | OP_bit_not => let '(a, s) := pop s in Ok (push (Z.lnot a) s)
  | OP_equal => bin (fun a b => of_bool (a =? b)) s
  | OP_less_signed => bin (fun a b => of_bool (a <? b)) s
  | OP_less_unsigned => bin (fun a b => of_bool (wrap 64 a <? wrap 64 b)) s
  | OP_ext => op_ext s
  | OP_zero_ext => op_zero_ext s
  | OP_ref8 => Ok (load 1 s)
  | OP_ref16 => Ok (load 2 s)
  | OP_ref32 => Ok (load 4 s)
  | OP_ref64 => Ok (load 8 s)
  | OP_dup => Ok (pick 0 s)
  | OP_swap => let '(a, b, s) := pop_a_b s in Ok (push a (push b s))
  | OP_pop => Ok (pop s).2
  | OP_pick => let '(offset, s) := fetch_u8 s in Ok (pick (Z.to_nat offset) s)
  | OP_rot => Ok (op_rot s)
  | OP_if_goto =>
      let '(offset, s) := fetch_u16 s in
      let '(a, s) := pop s in
      Ok (if a =? 0 then s else set_pc offset s)
  | OP_goto => let '(offset, s) := fetch_u16 s in Ok (set_pc offset s)
  | OP_const8 => let '(a, s) := fetch_u8 s in Ok (push a s)
  | OP_const16 => let '(a, s) := fetch_u16 s in Ok (push a s)
  | OP_const32 => let '(a, s) := fetch_u32 s in Ok (push a s)
  | OP_const64 => let '(a, s) := fetch_u64 s in Ok (push (swrap 64 a) s)
  | OP_reg => op_reg s
  | OP_end => Ok (set_end s)
  | _ => Ok (set_error s)
  end.

Definition step `{Task} (s : State) : res State :=
  _ ← assert_ (negb (error s));
  let '(op, s) := fetch_u8 s in
  match decode op with
  | Some o => exec_op o s
  | None => undefined_opcode op s
  end.

(** ** Evaluation *)

(** The loop of [evaluate] with [n] of its 10000 steps left; [None] when it
    returns false. *)
Fixpoint run `{Task} (n : nat) (s : State) : res (option State) :=
  if ended s then Ok (Some s)
  else if error s then Ok None
  else match n with
       | O => Ok None
       | S n' => s ← step s; run n' s
       end.

Definition max_steps : nat := Z.to_nat 10000.

(** One variant of the bytecode. *)
Definition eval_one `{Task} (b : list Z) : res (option Z) :=
  r ← run max_steps (new_state b);
  match r with
  | None => Ok None
  | Some s => let '(v, s) := pop s in if error s then Ok None else Ok (Some v)
  end.

(** The variants after the first. *)
Fixpoint eval_rest `{Task} (variants : list (list Z)) (result : Z) : res (bool * Z) :=
  match variants with
  | [] => Ok (true, result)
  | b :: bs =>
      r ← eval_one b;
      match r with
      | None => Ok (false, result)
      | Some v => if result =? v then eval_rest bs result else Ok (false, result)
      end
  end.

(** [evaluate]: whether it succeeded, and the new value of [result]. *)
Definition evaluate `{Task} (variants : list (list Z)) (result : Z) : res (bool * Z) :=
  match variants with
  | [] => Ok (false, result)
  | b :: bs =>
      r ← eval_one b;
      match r with
      | None => Ok (false, result)
      | Some v => eval_rest bs v
      end
  end.

(** [GdbExpression::new]. *)
Definition new_expression (data : list Z) : list (list Z) := [data].

(** [GdbBreakpointCondition::evaluate]: break if an expression fails or is not
    zero. *)
Fixpoint condition_evaluate `{Task} (expressions : list (list (list Z))) : res bool :=
  match expressions with
  | [] => Ok false
  | e :: es =>
      r ← evaluate e 0;
      if negb r.1 || negb (r.2 =? 0) then Ok true else condition_evaluate es
  end.

End GdbExpr.
