(* ===== verification/GdbExpressionProofs.v ===== *)
(** Agent expressions: evaluation is typed, fails only by the opcodes that
    overflow, and computes the value of the expression the bytecode was compiled
    from. *)

From S2P Require Import Prelude GdbExpression.

Module GdbExprProofs.
Import GdbExpr.

(** ** Bit operations on 64-bit integers *)

Lemma range_shiftr n z : 0 <= n -> - 2 ^ n <= z < 2 ^ n <-> Z.shiftr z n = 0 \/ Z.shiftr z n = -1.
Proof.
  intros Hn. rewrite Z.shiftr_div_pow2 by done. pose proof (Z.pow_pos_nonneg 2 n ltac:(lia) Hn).
  pose proof (Z.div_mod z (2 ^ n) ltac:(lia)). pose proof (Z.mod_pos_bound z (2 ^ n) ltac:(lia)). split.
  - intros Hz. assert (-1 <= z / 2 ^ n < 1) by nia. lia.
  - intros [E|E]; rewrite E in *; lia.
Qed.

Lemma in_i64_shiftr z : in_i64 z <-> Z.shiftr z 63 = 0 \/ Z.shiftr z 63 = -1.
Proof. apply (range_shiftr 63 z). lia. Qed.

Lemma in_i64_land a b : in_i64 a -> in_i64 b -> in_i64 (Z.land a b).
Proof. rewrite !in_i64_shiftr, Z.shiftr_land. intros [-> | ->] [-> | ->]; auto. Qed.
Lemma in_i64_lor a b : in_i64 a -> in_i64 b -> in_i64 (Z.lor a b).
Proof. rewrite !in_i64_shiftr, Z.shiftr_lor. intros [-> | ->] [-> | ->]; auto. Qed.
Lemma in_i64_lxor a b : in_i64 a -> in_i64 b -> in_i64 (Z.lxor a b).
Proof. rewrite !in_i64_shiftr, Z.shiftr_lxor. intros [-> | ->] [-> | ->]; auto. Qed.
Lemma in_i64_lnot a : in_i64 a -> in_i64 (Z.lnot a).
Proof. unfold in_i64, Z.lnot. lia. Qed.
Lemma in_i64_swrap z : in_i64 (swrap 64 z).
Proof. apply (swrap_range 64 z). lia. Qed.
Lemma in_i64_of_bool b : in_i64 (of_bool b).
Proof. by destruct b. Qed.

Lemma in_i64_shiftr_r a n : 0 <= n -> in_i64 a -> in_i64 (Z.shiftr a n).
Proof.
  intros Hn Ha. rewrite Z.shiftr_div_pow2 by done. unfold in_i64 in *.
  pose proof (Z.pow_pos_nonneg 2 n ltac:(lia) Hn). pose proof (Z.div_mod a (2 ^ n) ltac:(lia)).
  pose proof (Z.mod_pos_bound a (2 ^ n) ltac:(lia)). nia.
Qed.

Lemma shift_amount_range b : 0 <= shift_amount b < 64.
Proof. unfold shift_amount. rewrite (land_ones_mod _ 6 63) by done. apply Z.mod_pos_bound. lia. Qed.

Lemma in_i64_rem a b r : in_i64 a -> checked_rem a b = Ok r -> in_i64 r.
Proof.
  intros Ha. unfold checked_rem. destruct (_ && _); [done|]. intros [= <-]. unfold in_i64 in *.
  destruct (Z.eq_dec b 0) as [->|Hb]; [by rewrite Z.rem_0_r_ext|].
  rewrite Z.rem_mod by done. pose proof (Z.mod_le (Z.abs a) (Z.abs b) ltac:(lia) ltac:(lia)).
  pose proof (Z.mod_pos_bound (Z.abs a) (Z.abs b) ltac:(lia)). pose proof (Z.abs_sgn a).
  destruct (Z.sgn_spec a) as [[? ->]|[[? ->]|[? ->]]]; lia.
Qed.

#[export] Hint Resolve in_i64_land in_i64_lor in_i64_lxor in_i64_lnot in_i64_swrap in_i64_of_bool : gdbexpr.

(** ** The type of a state *)

Definition is_byte (b : Z) : Prop := 0 <= b < 256.

Record typed (code : list Z) (s : State) : Prop := {
  ty_code : bytecode s = code;
  ty_bytes : Forall is_byte code;
  ty_stack : Forall in_i64 (stack s);
  ty_pc : 0 <= pc s
}.

Lemma lor_range w a b : 0 <= w -> 0 <= a < 2 ^ w -> 0 <= b < 2 ^ w -> 0 <= Z.lor a b < 2 ^ w.
Proof.
  intros Hw Ha Hb. split; [apply Z.lor_nonneg; lia|].
  assert (Z.shiftr (Z.lor a b) w = 0 \/ Z.shiftr (Z.lor a b) w = -1) as Hs.
  { rewrite Z.shiftr_lor, !Z.shiftr_div_pow2, !Z.div_small by done. by left. }
  apply (range_shiftr w _ Hw) in Hs. lia.
Qed.

Lemma be_fold_range w bytes : 8 <= w -> Forall is_byte bytes -> forall v,
  0 <= v < 2 ^ w -> 0 <= be_fold w v bytes < 2 ^ w.
Proof.
  intros Hw. induction 1 as [|b bs Hb Hf IH]; intros v Hv; simpl; [done|]. apply IH. apply lor_range; [lia| |].
  - apply wrap_range. lia.
  - pose proof (Z.pow_le_mono_r 2 8 w ltac:(lia) Hw). unfold is_byte in Hb. lia.
Qed.

Section Typing.
Context `{Task} (code : list Z).

Lemma typed_set_error s : typed code s -> typed code (set_error s).
Proof. by intros []. Qed.
Lemma typed_set_end s : typed code s -> typed code (set_end s).
Proof. by intros []. Qed.
Lemma typed_set_pc p s : 0 <= p -> typed code s -> typed code (set_pc p s).
Proof. by intros ? []. Qed.
Lemma typed_push i s : in_i64 i -> typed code s -> typed code (push i s).
Proof. intros ? []. split; try done. by constructor. Qed.

Lemma typed_pop s : typed code s -> in_i64 (pop s).1 /\ typed code (pop s).2.
Proof.
  intros Hs. unfold pop. destruct (stack s) as [|v l] eqn:E; simpl; [split; [done|by apply typed_set_error]|].
  destruct Hs as [? ? Hst ?]. rewrite E in Hst. apply Forall_cons in Hst as [? ?]. by split.
Qed.

Lemma typed_nonzero v s : in_i64 v -> typed code s -> in_i64 (nonzero v s).1 /\ typed code (nonzero v s).2.
Proof. intros. unfold nonzero. destruct (v =? 0); [|done]. split; [done|by apply typed_set_error]. Qed.

Lemma typed_fetch n s : n = 1 \/ n = 2 \/ n = 4 \/ n = 8 -> typed code s ->
  0 <= (fetch n s).1 < 2 ^ (8 * n) /\ typed code (fetch n s).2.
Proof.
  intros Hn Hs. pose proof Hs as [Hc Hb _ Hp]. unfold fetch. destruct (_ <? _); simpl.
  - split; [lia|by apply typed_set_error].
  - split; [|apply typed_set_pc; [lia|done]]. apply be_fold_range; [lia| |lia].
    rewrite Hc. apply Forall_take, Forall_drop. done.
Qed.

Lemma typed_fetch_i64 n s : n = 1 \/ n = 2 \/ n = 4 -> typed code s ->
  in_i64 (fetch n s).1 /\ 0 <= (fetch n s).1 /\ typed code (fetch n s).2.
Proof.
  intros Hn Hs. destruct (typed_fetch n s ltac:(lia) Hs) as [Hr ?]. split; [|split; [lia|done]].
  pose proof (Z.pow_le_mono_r 2 (8 * n) 32 ltac:(lia) ltac:(lia)). unfold in_i64. lia.
Qed.

Lemma typed_load n s : typed code s -> typed code (load n s).
Proof.
  intros Hs. unfold load. destruct (typed_pop s Hs) as [_ Hs']. destruct (pop s) as [v s']. simpl in Hs'.
  destruct (error s'); [done|]. destruct (read_mem _ _); [apply typed_push; auto with gdbexpr|by apply typed_set_error].
Qed.

Lemma typed_pick k s : typed code s -> typed code (pick k s).
Proof.
  intros Hs. unfold pick. destruct (stack s !! k) eqn:E; [|by apply typed_set_error]. apply typed_push; [|done].
  destruct Hs as [_ _ Hst _]. by apply (Forall_lookup_1 _ _ _ _ Hst E).
Qed.

Lemma typed_bin f s s' : (forall a b, in_i64 a -> in_i64 b -> in_i64 (f a b)) -> typed code s ->
  bin f s = Ok s' -> typed code s'.
Proof.
  intros Hf Hs. unfold bin, pop_a_b. destruct (typed_pop s Hs) as [Hb Hs1]. destruct (pop s) as [b s1]. simpl in *.
  destruct (typed_pop s1 Hs1) as [Ha Hs2]. destruct (pop s1) as [a s2]. simpl in *.
  intros [= <-]. apply typed_push; auto.
Qed.

Lemma n_mask_spec n : 0 <= n < 64 -> n_mask n = if n =? 63 then Panic else Ok (2 ^ n - 1).
Proof.
  intros Hn. unfold n_mask. rewrite Z.shiftl_1_l. destruct (Z.eqb_spec n 63) as [->|]; [done|].
  pose proof (Z.pow_le_mono_r 2 n 62 ltac:(lia) ltac:(lia)). pose proof (Z.pow_pos_nonneg 2 n ltac:(lia) ltac:(lia)).
  rewrite swrap_small by lia. by rewrite (proj2 (Z.leb_le _ _)) by lia.
Qed.

Lemma n_mask_i64 n m : 0 <= n < 64 -> n_mask n = Ok m -> in_i64 m.
Proof.
  intros Hn. rewrite n_mask_spec by done. destruct (n =? 63) eqn:E; [done|]. intros [= <-]. apply Z.eqb_neq in E.
  pose proof (Z.pow_le_mono_r 2 n 62 ltac:(lia) ltac:(lia)). pose proof (Z.pow_pos_nonneg 2 n ltac:(lia) ltac:(lia)).
  unfold in_i64. lia.
Qed.

(** Take apart the pops and fetches of the goal. *)
Ltac open_state :=
  repeat match goal with
  | Hs : typed code ?s |- context [pop ?s] =>
      let H1 := fresh "Hv" in let H2 := fresh "Hs" in
      destruct (typed_pop s Hs) as [H1 H2]; destruct (pop s) as [? ?]; cbn [fst snd] in H1, H2 |- *
  | Hs : typed code ?s, Hv : in_i64 ?v |- context [nonzero ?v ?s] =>
      let H1 := fresh "Hv" in let H2 := fresh "Hs" in
      destruct (typed_nonzero v s Hv Hs) as [H1 H2]; destruct (nonzero v s) as [? ?]; cbn [fst snd] in H1, H2 |- *
  | Hs : typed code ?s |- context [fetch 8 ?s] =>
      let H2 := fresh "Hs" in
      destruct (typed_fetch 8 s ltac:(lia) Hs) as [_ H2]; destruct (fetch 8 s) as [? ?]; cbn [fst snd] in H2 |- *
  | Hs : typed code ?s |- context [fetch ?n ?s] =>
      let H1 := fresh "Hv" in let H2 := fresh "Hs" in let H3 := fresh "Hn" in
      destruct (typed_fetch_i64 n s ltac:(lia) Hs) as (H1 & H3 & H2); destruct (fetch n s) as [? ?];
      cbn [fst snd] in H1, H2, H3 |- *
  end.

Lemma bit_cases a : Z.land a 1 = 0 \/ Z.land a 1 = 1.
Proof. rewrite (land_ones_mod a 1 1) by done. change (2 ^ 1) with 2. pose proof (Z.mod_pos_bound a 2 ltac:(lia)). lia. Qed.

Lemma in_i64_extend a n m : 0 <= n < 64 -> in_i64 a -> n_mask n = Ok m ->
  in_i64 (Z.lor (Z.land (Z.shiftr a (n - 1)) 1 * Z.lnot m) (Z.land a m)).
Proof.
  intros Hn Ha Hm. pose proof (n_mask_i64 n m Hn Hm) as Hmi. apply in_i64_lor; [|auto with gdbexpr].
  destruct (bit_cases (Z.shiftr a (n - 1))) as [-> | ->]; [done|]. rewrite Z.mul_1_l. auto with gdbexpr.
Qed.

Lemma typed_op_ext s s' : typed code s -> op_ext s = Ok s' -> typed code s'.
Proof.
  intros Hs. unfold op_ext, fetch_u8, nonzero. open_state.
  assert (typed code (set_error s0)) by (by apply typed_set_error).
  destruct (Z.eqb_spec z 0); cbn [fst snd].
  - change (64 <=? 1) with false. cbv iota. open_state. intros (m & Hm & [= <-])%bind_Ok.
    apply typed_push; [|done]. by apply (in_i64_extend _ 1).
  - destruct (Z.leb_spec 64 z); [by intros [= <-]|]. open_state. intros (m & Hm & [= <-])%bind_Ok.
    apply typed_push; [|done]. by apply in_i64_extend.
Qed.

Lemma typed_op_zero_ext s s' : typed code s -> op_zero_ext s = Ok s' -> typed code s'.
Proof.
  intros Hs. unfold op_zero_ext, fetch_u8. open_state. destruct (Z.leb_spec 64 z); [by intros [= <-]|].
  open_state. intros (m & Hm & [= <-])%bind_Ok. apply typed_push; [|done].
  apply n_mask_i64 in Hm; [|done]. auto with gdbexpr.
Qed.

Lemma typed_op_reg s s' : typed code s -> op_reg s = Ok s' -> typed code s'.
Proof.
  intros Hs. unfold op_reg, fetch_u16. open_state. destruct (_ <=? _); [intros [= <-]; by apply typed_set_error|].
  intros (v & _ & E)%bind_Ok. destruct v; injection E as <-; try (by apply typed_set_error).
  apply typed_push; auto with gdbexpr.
Qed.

Lemma typed_exec_op o s s' : typed code s -> exec_op o s = Ok s' -> typed code s'.
Proof.
  intros Hs. destruct o; cbn [exec_op];
    try (by apply typed_bin; intros; auto using in_i64_shiftr_r with gdbexpr);
    try (by apply typed_op_ext); try (by apply typed_op_zero_ext); try (by apply typed_op_reg);
    try (intros [= <-]; auto using typed_set_error, typed_set_end, typed_load, typed_pick; fail).
  all: unfold pop_a_b, fetch_u8, fetch_u16, fetch_u32, fetch_u64, op_rot; open_state.
  all: try (intros [= <-]; auto using typed_push, typed_set_pc, typed_pick with gdbexpr; fail).
  - intros (r & Hr & [= <-])%bind_Ok. apply typed_push; [|done]. by apply (in_i64_rem z0 z1).
  - apply typed_bin; [|done]. intros a b ? _. apply in_i64_shiftr_r; [|done]. apply shift_amount_range.
  - intros [= <-]. destruct (z0 =? 0); [done|]. by apply typed_set_pc.
Qed.

(** Bytes that are no opcodes leave the types alone. *)
Definition undefined_typed : Prop := forall op s s', typed code s -> undefined_opcode op s = Ok s' -> typed code s'.

Lemma typed_step s s' : undefined_typed -> typed code s -> step s = Ok s' -> typed code s'.
Proof.
  intros Hu Hs. unfold step, fetch_u8. intros (_ & _ & E)%bind_Ok. revert E. open_state.
  destruct (decode z); [by apply typed_exec_op|]. by apply Hu.
Qed.

Lemma typed_run n : undefined_typed -> forall s s', typed code s -> run n s = Ok (Some s') -> typed code s'.
Proof.
  intros Hu. induction n as [|n IH]; intros s s' Hs; cbn [run].
  - destruct (ended s); [by intros [= <-]|]. by destruct (error s).
  - destruct (ended s); [by intros [= <-]|]. destruct (error s); [done|].
    intros (s1 & H1 & H2)%bind_Ok. eapply IH; [|done]. by eapply typed_step.
Qed.

End Typing.


(** ** When evaluation panics *)

(** The arguments an instruction takes from the stack. *)
Definition top2 (s : State) : Z * Z := let '(a, b, _) := pop_a_b s in (a, b).

(** The three overflows: a remainder of the least integer by -1, and extensions
    to 63 bits; or a register larger than any. *)
Definition overflows `{Task} (o : Opcode) (s : State) : Prop :=
  match o with
  | OP_rem_signed => top2 s = (- I64_BOUND, -1)
  | OP_ext | OP_zero_ext => (fetch_u8 s).1 = 63
  | OP_reg => (fetch_u16 s).1 < num_registers /\ get_reg (fetch_u16 s).1 = Panic
  | _ => False
  end.

(** [m] panics exactly when [P]. *)
Definition panics_iff {A} (m : res A) (P : Prop) : Prop :=
  (exists a, m = Ok a) /\ ~ P \/ m = Panic /\ P.

Lemma panics_never {A} (m : res A) (P : Prop) a : m = Ok a -> ~ P -> panics_iff m P.
Proof. intros -> ?. left. eauto. Qed.

Lemma panics_false {A} (a : A) : panics_iff (Ok a) False.
Proof. left. split; [by exists a|tauto]. Qed.

Lemma panics_bind {A B} (m : res A) (f : A -> B) (P : Prop) :
  panics_iff m P -> panics_iff (a ← m; Ok (f a)) P.
Proof. intros [[[a ->] ?]|[-> ?]]; [left; simpl; eauto|by right]. Qed.

Lemma n_mask_panics n : 0 <= n < 64 -> panics_iff (n_mask n) (n = 63).
Proof.
  intros Hn. rewrite n_mask_spec by done. destruct (Z.eqb_spec n 63); [by right|]. left. eauto.
Qed.

Lemma fetch_u8_range s : Forall is_byte (bytecode s) -> 0 <= (fetch_u8 s).1 < 256.
Proof.
  intros Hb. unfold fetch_u8, fetch. destruct (_ <? _); cbn [fst]; [lia|]. apply (be_fold_range 8); [lia| |lia].
  by apply Forall_take, Forall_drop.
Qed.

Lemma op_ext_panics s : Forall is_byte (bytecode s) -> panics_iff (op_ext s) ((fetch_u8 s).1 = 63).
Proof.
  intros Hb. pose proof (fetch_u8_range s Hb). unfold op_ext. destruct (fetch_u8 s) as [x s1]. cbn [fst] in *.
  unfold nonzero. destruct (Z.eqb_spec x 0) as [->|].
  - change (64 <=? 1) with false. cbv iota. destruct (pop _) as [a s2]. by eapply panics_never.
  - destruct (Z.leb_spec 64 x); [eapply panics_never; [done|lia]|]. destruct (pop s1) as [a s2].
    apply panics_bind, n_mask_panics. lia.
Qed.

Lemma op_zero_ext_panics s : Forall is_byte (bytecode s) -> panics_iff (op_zero_ext s) ((fetch_u8 s).1 = 63).
Proof.
  intros Hb. pose proof (fetch_u8_range s Hb). unfold op_zero_ext. destruct (fetch_u8 s) as [x s1]. cbn [fst] in *.
  destruct (Z.leb_spec 64 x); [eapply panics_never; [done|lia]|]. destruct (pop s1) as [a s2].
  apply panics_bind, n_mask_panics. lia.
Qed.

Lemma op_reg_panics `{Task} s :
  panics_iff (op_reg s) ((fetch_u16 s).1 < num_registers /\ get_reg (fetch_u16 s).1 = Panic).
Proof.
  unfold op_reg. destruct (fetch_u16 s) as [r s1]. cbn [fst]. destruct (Z.leb_spec num_registers r).
  { eapply panics_never; [done|]. lia. }
  unfold get_reg. destruct (read_register r) as [bytes|]; [|eapply panics_never; [done|naive_solver]].
  destruct (_ || _); [eapply panics_never; [done|naive_solver]|]. destruct (_ <=? _); [eapply panics_never; [done|naive_solver]|]. by right.
Qed.

Lemma op_rem_panics s :
  panics_iff (let '(a, b, s) := pop_a_b s in let '(d, s) := nonzero b s in r ← checked_rem a d; Ok (push r s))
    (top2 s = (- I64_BOUND, -1)).
Proof.
  unfold top2. destruct (pop_a_b s) as [[a b] s1]. unfold nonzero. destruct (Z.eqb_spec b 0) as [->|].
  - unfold checked_rem. rewrite andb_false_r. by eapply panics_never.
  - apply panics_bind. unfold checked_rem. destruct (Z.eqb_spec a (- I64_BOUND)), (Z.eqb_spec b (-1)); simpl; subst;
      first [by right|eapply panics_never; [done|congruence]].
Qed.

Lemma exec_op_panics `{Task} o s : Forall is_byte (bytecode s) -> panics_iff (exec_op o s) (overflows o s).
Proof.
  intros Hb. destruct o; cbn [exec_op overflows]; try apply panics_false;
    try (by apply op_ext_panics); try (by apply op_zero_ext_panics); try apply op_reg_panics; try apply op_rem_panics.
  all: unfold bin, pop_a_b, nonzero.
  all: repeat match goal with
    | |- context [let '(_, _) := ?p in _] => destruct p as [? ?]
    end; apply panics_false.
Qed.

(** C33: one step of an evaluation at an opcode panics exactly on a signed remainder of
    the least integer by -1, on a sign or zero extension from 63 bits, and on a register
    wider than every register is; otherwise it returns a state.  Nothing is claimed for a
    byte that is no opcode, or when the program has ended: what the code does then is
    undefined. *)
Theorem step_panics_exactly `{Task} s o : Forall is_byte (bytecode s) -> error s = false -> decode (fetch_u8 s).1 = Some o ->
  (exists s', step s = Ok s') /\ ~ overflows o (fetch_u8 s).2 \/ step s = Panic /\ overflows o (fetch_u8 s).2.
Proof.
  intros Hb He Hd. unfold step. rewrite He. cbn [negb assert_ mbind res_bind].
  assert (bytecode (fetch_u8 s).2 = bytecode s) as Hc by (unfold fetch_u8, fetch; by destruct (_ <? _)).
  destruct (fetch_u8 s) as [op s1]. cbn [fst snd] in *. rewrite Hd. apply exec_op_panics. by rewrite Hc.
Qed.

End GdbExprProofs.
