(* ===== verification/GdbExpressionCompile.v ===== *)
(** Agent expressions compiled from trees: evaluating the bytecode gives the value
    of the tree. *)

From S2P Require Import Prelude GdbExpression GdbExpressionProofs.

Module GdbExprCompile.
Import GdbExpr GdbExprProofs.

(** ** Trees *)

Inductive Width := W8 | W16 | W32 | W64.

Inductive BinOp :=
| BAdd | BSub | BMul | BDivS | BDivU | BRemS | BRemU | BLsh | BRshS | BRshU
| BAnd | BOr | BXor | BEqual | BLessS | BLessU.

Inductive UnOp := ULogNot | UBitNot | UExt (n : Z) | UZeroExt (n : Z).

Inductive Expr :=
| EConst (w : Width) (v : Z)
| EReg (r : Z)
| ELoad (w : Width) (addr : Expr)
| EUn (o : UnOp) (a : Expr)
| EBin (o : BinOp) (a b : Expr)
| EIf (c a b : Expr).

Definition bytes_of (w : Width) : Z := match w with W8 => 1 | W16 => 2 | W32 => 4 | W64 => 8 end.

(** The value of a tree; [None] is an error of the expression. *)
Definition bin_value (o : BinOp) (a b : Z) : res (option Z) :=
  match o with
  | BAdd => Ok (Some (swrap 64 (a + b)))
  | BSub => Ok (Some (swrap 64 (a - b)))
  | BMul => Ok (Some (swrap 64 (a * b)))
  | BDivS => Ok (if b =? 0 then None else Some (swrap 64 (Z.quot a b)))
  | BDivU => Ok (if b =? 0 then None else Some (swrap 64 (wrap 64 a / wrap 64 b)))
  | BRemS => if b =? 0 then Ok None else r ← checked_rem a b; Ok (Some r)
  | BRemU => Ok (if b =? 0 then None else Some (swrap 64 (wrap 64 a mod wrap 64 b)))
  | BLsh => Ok (Some (swrap 64 (a * 2 ^ shift_amount b)))
  | BRshS => Ok (Some (a / 2 ^ shift_amount b))
  | BRshU => Ok (Some (swrap 64 (wrap 64 a / 2 ^ shift_amount b)))
  | BAnd => Ok (Some (Z.land a b))
  | BOr => Ok (Some (Z.lor a b))
  | BXor => Ok (Some (Z.lxor a b))
  | BEqual => Ok (Some (of_bool (a =? b)))
  | BLessS => Ok (Some (of_bool (a <? b)))
  | BLessU => Ok (Some (of_bool (wrap 64 a <? wrap 64 b)))
  end.

(** Sign and zero extension of the low [n] bits. *)
Definition un_value (o : UnOp) (a : Z) : Z :=
  match o with
  | ULogNot => of_bool (a =? 0)
  | UBitNot => - a - 1
  | UExt n => swrap n a
  | UZeroExt n => wrap n a
  end.

Fixpoint value `{Task} (e : Expr) : res (option Z) :=
  match e with
  | EConst _ v => Ok (Some v)
  | EReg r =>
      if num_registers <=? r then Ok None
      else v ← get_reg r; Ok (match v with Sized _ v => Some (swrap 64 v) | _ => None end)
  | ELoad w a =>
      v ← value a;
      match v with
      | None => Ok None
      | Some a => Ok (option_map (swrap 64) (read_mem (wrap 64 a) (bytes_of w)))
      end
  | EUn o a => v ← value a; Ok (option_map (un_value o) v)
  | EBin o a b =>
      x ← value a;
      match x with
      | None => Ok None
      | Some x => y ← value b; match y with None => Ok None | Some y => bin_value o x y end
      end
  | EIf c a b =>
      v ← value c;
      match v with
      | None => Ok None
      | Some v => if v =? 0 then value b else value a
      end
  end.

(** ** Code *)

Fixpoint be_bytes (n : nat) (v : Z) : list Z :=
  match n with O => [] | S n' => be_bytes n' (v / 256) ++ [v mod 256] end.

Definition const_op (w : Width) : Opcode :=
  match w with W8 => OP_const8 | W16 => OP_const16 | W32 => OP_const32 | W64 => OP_const64 end.
Definition ref_op (w : Width) : Opcode :=
  match w with W8 => OP_ref8 | W16 => OP_ref16 | W32 => OP_ref32 | W64 => OP_ref64 end.
Definition bin_op (o : BinOp) : Opcode :=
  match o with
  | BAdd => OP_add | BSub => OP_sub | BMul => OP_mul | BDivS => OP_div_signed | BDivU => OP_div_unsigned
  | BRemS => OP_rem_signed | BRemU => OP_rem_unsigned | BLsh => OP_lsh | BRshS => OP_rsh_signed
  | BRshU => OP_rsh_unsigned | BAnd => OP_bit_and | BOr => OP_bit_or | BXor => OP_bit_xor
  | BEqual => OP_equal | BLessS => OP_less_signed | BLessU => OP_less_unsigned
  end.
Definition un_code (o : UnOp) : list Z :=
  match o with
  | ULogNot => [opcode_num OP_log_not]
  | UBitNot => [opcode_num OP_bit_not]
  | UExt n => [opcode_num OP_ext; n]
  | UZeroExt n => [opcode_num OP_zero_ext; n]
  end.

Fixpoint size (e : Expr) : Z :=
  match e with
  | EConst w _ => 1 + bytes_of w
  | EReg _ => 3
  | ELoad _ a => size a + 1
  | EUn o a => size a + Z.of_nat (length (un_code o))
  | EBin _ a b => size a + size b + 1
  | EIf c a b => size c + 3 + size b + 3 + size a
  end.

(** The code of a tree placed at [p]; jumps are absolute. *)
Fixpoint compile (p : Z) (e : Expr) : list Z :=
  match e with
  | EConst w v => opcode_num (const_op w) :: be_bytes (Z.to_nat (bytes_of w)) (wrap 64 v)
  | EReg r => opcode_num OP_reg :: be_bytes 2 r
  | ELoad w a => compile p a ++ [opcode_num (ref_op w)]
  | EUn o a => compile p a ++ un_code o
  | EBin o a b => compile p a ++ compile (p + size a) b ++ [opcode_num (bin_op o)]
  | EIf c a b =>
      let p_b := p + size c + 3 in
      let p_a := p_b + size b + 3 in
      compile p c ++ (opcode_num OP_if_goto :: be_bytes 2 p_a) ++ compile p_b b
        ++ (opcode_num OP_goto :: be_bytes 2 (p_a + size a)) ++ compile p_a a
  end.

Fixpoint steps (e : Expr) : nat :=
  match e with
  | EConst _ _ | EReg _ => 1
  | ELoad _ a | EUn _ a => S (steps a)
  | EBin _ a b => S (steps a + steps b)
  | EIf c a b => S (S (steps c + steps a + steps b))
  end.

(** What the code can express. *)
Fixpoint wf_expr (e : Expr) : Prop :=
  match e with
  | EConst W64 v => in_i64 v
  | EConst w v => 0 <= v < 2 ^ (8 * bytes_of w)
  | EReg r => 0 <= r < 65536
  | ELoad _ a => wf_expr a
  | EUn (UExt n) a => 1 <= n <= 62 /\ wf_expr a
  | EUn (UZeroExt n) a => 0 <= n <= 62 /\ wf_expr a
  | EUn _ a => wf_expr a
  | EBin _ a b => wf_expr a /\ wf_expr b
  | EIf c a b => wf_expr c /\ wf_expr a /\ wf_expr b
  end.

(** ** Encoding of numbers *)

Lemma be_fold_app w v l1 l2 : be_fold w v (l1 ++ l2) = be_fold w (be_fold w v l1) l2.
Proof. revert v. induction l1 as [|b l1 IH]; intros v; simpl; [done|]. by rewrite IH. Qed.

Lemma lor_shift x b : 0 <= b < 256 -> Z.lor (Z.shiftl x 8) b = 256 * x + b.
Proof.
  intros Hb. assert (Z.land (Z.shiftl x 8) b = 0) as Hl.
  { apply Z.bits_inj'. intros n Hn. rewrite Z.land_spec, Z.bits_0. destruct (Z.lt_ge_cases n 8).
    - by rewrite Z.shiftl_spec_low.
    - rewrite <- (Z.mod_small b (2 ^ 8)), Z.mod_pow2_bits_high by lia. apply andb_false_r. }
  pose proof (Z.add_lor_land (Z.shiftl x 8) b) as E. rewrite Hl in E. rewrite Z.shiftl_mul_pow2 in * by lia. lia.
Qed.

Lemma be_bytes_value w n : forall v, 0 <= v < 256 ^ Z.of_nat n -> 8 * Z.of_nat n <= w ->
  be_fold w 0 (be_bytes n v) = v.
Proof.
  induction n as [|n IH]; intros v Hv Hw; cbn [be_bytes].
  - simpl in *. lia.
  - rewrite Nat2Z.inj_succ, Z.pow_succ_r in Hv by lia.
    pose proof (Z.div_mod v 256 ltac:(lia)). pose proof (Z.mod_pos_bound v 256 ltac:(lia)).
    rewrite be_fold_app, IH by (try split; try apply Z.div_pos; try apply Z.div_lt_upper_bound; lia).
    simpl. rewrite wrap_small.
    + rewrite lor_shift by lia. lia.
    + rewrite Z.shiftl_mul_pow2 by lia. split; [lia|].
      assert (256 * 256 ^ Z.of_nat n <= 2 ^ w); [|lia].
      replace 256 with (2 ^ 8) by done. rewrite <- Z.pow_mul_r, <- Z.pow_add_r by lia. apply Z.pow_le_mono_r; lia.
Qed.

Lemma length_be_bytes n v : length (be_bytes n v) = n.
Proof. revert v. induction n as [|n IH]; intros v; simpl; [done|]. rewrite length_app, IH. simpl. lia. Qed.

Lemma size_compile e : forall p, Z.of_nat (length (compile p e)) = size e.
Proof.
  induction e; intros p; cbn [compile size];
    repeat (rewrite length_app || rewrite length_be_bytes || cbn [length]);
    rewrite ?Nat2Z.inj_succ, ?Nat2Z.inj_add, ?Nat2Z.inj_succ, ?Nat2Z.inj_add, ?IHe, ?IHe1, ?IHe2, ?IHe3; try lia.
  destruct w; simpl; lia.
Qed.

Lemma size_nonneg e : 0 <= size e.
Proof. rewrite <- (size_compile e 0). lia. Qed.

(** ** The bit operations compute the arithmetic of the trees *)

Lemma lor_high n u : 0 <= n -> 0 <= u < 2 ^ n -> Z.lor (- 2 ^ n) u = u - 2 ^ n.
Proof.
  intros Hn Hu. pose proof (Z.add_lor_land (- 2 ^ n) u) as E.
  assert (Z.land (- 2 ^ n) u = 0) as Hl; [|lia].
  replace (- 2 ^ n) with (Z.lnot (Z.ones n)) by (rewrite Z.ones_equiv; unfold Z.lnot; lia).
  rewrite Z.land_comm, <- Z.ldiff_land, Z.ldiff_ones_r, Z.shiftr_div_pow2, Z.div_small by lia.
  apply Z.shiftl_0_l.
Qed.

Lemma land_mask n a : 0 <= n -> Z.land a (2 ^ n - 1) = wrap n a.
Proof. intros. unfold wrap. rewrite <- Z.land_ones by lia. f_equal. rewrite Z.ones_equiv. lia. Qed.

Lemma ext_value n a : 1 <= n ->
  Z.lor (Z.land (Z.shiftr a (n - 1)) 1 * Z.lnot (2 ^ n - 1)) (Z.land a (2 ^ n - 1)) = swrap n a.
Proof.
  intros Hn. rewrite land_mask by lia. change 1 with (Z.ones 1) at 2. rewrite Z.land_ones, Z.shiftr_div_pow2 by lia.
  change (2 ^ 1) with 2. replace (Z.lnot (2 ^ n - 1)) with (- 2 ^ n) by (unfold Z.lnot; lia).
  assert (2 ^ n = 2 ^ (n - 1) * 2) as E by (rewrite Z.mul_comm, <- Z.pow_succ_r by lia; f_equal; lia).
  unfold swrap, wrap. pose proof (Z.mod_pos_bound a (2 ^ n) ltac:(lia)) as Hu.
  pose proof (Z.rem_mul_r a (2 ^ (n - 1)) 2 ltac:(lia) ltac:(lia)) as Er. rewrite <- E in Er.
  pose proof (Z.mod_pos_bound a (2 ^ (n - 1)) ltac:(lia)).
  pose proof (Z.mod_pos_bound (a / 2 ^ (n - 1)) 2 ltac:(lia)).
  assert ((a / 2 ^ (n - 1)) mod 2 = 0 \/ (a / 2 ^ (n - 1)) mod 2 = 1) as [Es|Es] by lia; rewrite Es in *.
  - rewrite Z.mul_0_l, Z.lor_0_l. destruct (Z.ltb_spec (a mod 2 ^ n) (2 ^ (n - 1))); lia.
  - rewrite Z.mul_1_l, lor_high by lia. destruct (Z.ltb_spec (a mod 2 ^ n) (2 ^ (n - 1))); lia.
Qed.

(** ** Running code in place *)

(** [l] is the part of [code] at [p]. *)
Definition code_at (code : list Z) (p : Z) (l : list Z) : Prop :=
  exists pre post, code = pre ++ l ++ post /\ p = Z.of_nat (length pre).

Lemma code_at_app code p l1 l2 : code_at code p (l1 ++ l2) ->
  code_at code p l1 /\ code_at code (p + Z.of_nat (length l1)) l2.
Proof.
  intros (pre & post & -> & ->). split.
  - exists pre, (l2 ++ post). by rewrite <- !app_assoc.
  - exists (pre ++ l1), post. rewrite length_app, <- !app_assoc. split; [done|lia].
Qed.

Lemma code_at_cons code p b l : code_at code p (b :: l) -> code_at code p [b] /\ code_at code (p + 1) l.
Proof. apply (code_at_app code p [b] l). Qed.

Lemma code_at_pos code p l : code_at code p l -> 0 <= p.
Proof. intros (? & ? & _ & ->). lia. Qed.

(** A running state. *)
Definition at_ (code stk : list Z) (p : Z) : State := mkState code stk p false false.

Lemma fetch_at code stk p l n : code_at code p l -> Z.of_nat (length l) = n ->
  fetch n (at_ code stk p) = (be_fold (8 * n) 0 l, at_ code stk (p + n)).
Proof.
  intros (pre & post & -> & ->) <-. unfold fetch. simpl. rewrite !length_app.
  destruct (Z.ltb_spec (Z.of_nat (length pre + (length l + length post))) (Z.of_nat (length pre) + Z.of_nat (length l))); [lia|].
  by rewrite !Nat2Z.id, drop_app_length, take_app_length.
Qed.

Lemma fetch_be code stk p n v : code_at code p (be_bytes n v) -> 0 <= v < 256 ^ Z.of_nat n ->
  fetch (Z.of_nat n) (at_ code stk p) = (v, at_ code stk (p + Z.of_nat n)).
Proof.
  intros Hc Hv. rewrite (fetch_at _ _ _ _ _ Hc) by (by rewrite length_be_bytes).
  by rewrite be_bytes_value by lia.
Qed.

Lemma decode_num o : decode (opcode_num o) = Some o.
Proof. by destruct o. Qed.

Lemma run_op `{Task} code stk p o k : code_at code p [opcode_num o] ->
  run (S k) (at_ code stk p) = (s ← exec_op o (at_ code stk (p + 1)); run k s).
Proof.
  intros Hc. cbn [run at_ ended error]. unfold step. cbn [negb assert_ mbind res_bind error].
  unfold fetch_u8. fold (at_ code stk p). rewrite (fetch_at _ _ _ _ _ Hc) by done.
  replace (be_fold (8 * 1) 0 [opcode_num o]) with (opcode_num o) by (by destruct o). by rewrite decode_num.
Qed.

Lemma run_error `{Task} k s : error s = true -> ended s = false -> run k s = Ok None.
Proof. intros Ee E. destruct k; simpl; by rewrite E, Ee. Qed.

(** ** The operators *)

(** A binary operator on the two topmost values. *)
Lemma run_bin `{Task} o code stk p a b k : code_at code p [opcode_num (bin_op o)] ->
  run (S k) (at_ code (b :: a :: stk) p)
  = (r ← bin_value o a b;
     match r with Some v => run k (at_ code (v :: stk) (p + 1)) | None => Ok None end).
Proof.
  intros Hc. rewrite (run_op _ _ _ _ _ Hc).
  pose proof (shift_amount_range b).
  destruct o; cbn [bin_op exec_op bin_value]; unfold bin, pop_a_b, pop, nonzero; cbn [stack at_ set_stack bytecode pc error ended];
    rewrite ?Z.shiftl_mul_pow2, ?Z.shiftr_div_pow2 by lia; try done;
    destruct (Z.eqb_spec b 0) as [->|]; cbn [mbind res_bind]; try done; try (by apply run_error).
  - rewrite <- (run_error k (push (Z.rem a 1) (set_error (at_ code stk (p + 1))))) by done.
    unfold checked_rem. by rewrite andb_false_r.
  - by destruct (checked_rem a b).
Qed.

(** A unary operator on the topmost value. *)
Lemma run_un `{Task} o code stk p a k : code_at code p (un_code o) ->
  match o with UExt n => 1 <= n <= 62 | UZeroExt n => 0 <= n <= 62 | _ => True end ->
  run (S k) (at_ code (a :: stk) p)
  = run k (at_ code (un_value o a :: stk) (p + Z.of_nat (length (un_code o)))).
Proof.
  intros Hc Hn. destruct o as [| |n|n].
  - by rewrite (run_op _ _ _ _ _ Hc).
  - rewrite (run_op _ _ _ _ _ Hc). cbn [exec_op pop at_ stack]. unfold Z.lnot, Z.pred.
    replace (- a + -1) with (- a - 1) by lia. done.
  - apply code_at_cons in Hc as [Hc Hb]. rewrite (run_op _ _ _ _ _ Hc). cbn [exec_op].
    unfold op_ext, fetch_u8. rewrite (fetch_at _ _ _ _ _ Hb) by done.
    change (be_fold (8 * 1) 0 [n]) with n. unfold nonzero.
    destruct (Z.eqb_spec n 0); [lia|]. destruct (Z.leb_spec 64 n); [lia|]. cbn [pop at_ stack].
    rewrite n_mask_spec by lia. destruct (Z.eqb_spec n 63); [lia|]. cbn [mbind res_bind].
    rewrite ext_value by lia. cbn [un_code length]. by rewrite <- Z.add_assoc.
  - apply code_at_cons in Hc as [Hc Hb]. rewrite (run_op _ _ _ _ _ Hc). cbn [exec_op].
    unfold op_zero_ext, fetch_u8. rewrite (fetch_at _ _ _ _ _ Hb) by done.
    change (be_fold (8 * 1) 0 [n]) with n.
    destruct (Z.leb_spec 64 n); [lia|]. cbn [pop at_ stack].
    rewrite n_mask_spec by lia. destruct (Z.eqb_spec n 63); [lia|]. cbn [mbind res_bind].
    rewrite land_mask by lia. cbn [un_code length]. by rewrite <- Z.add_assoc.
Qed.

Lemma run_const `{Task} w v code stk p k : wf_expr (EConst w v) -> code_at code p (compile p (EConst w v)) ->
  run (S k) (at_ code stk p) = run k (at_ code (v :: stk) (p + size (EConst w v))).
Proof.
  intros Hv [Hc Hb]%code_at_cons. rewrite (run_op _ _ _ _ _ Hc). cbn [size].
  destruct w; cbn [wf_expr bytes_of] in *; cbn [const_op exec_op]; unfold fetch_u8, fetch_u16, fetch_u32, fetch_u64.
  1-3: rewrite (wrap_small 64 v) in Hb by lia.
  - rewrite (fetch_be _ _ _ 1 v Hb) by (simpl; lia). cbn [mbind res_bind]. by rewrite Z.add_assoc.
  - rewrite (fetch_be _ _ _ 2 v Hb) by (simpl; lia). cbn [mbind res_bind]. by rewrite Z.add_assoc.
  - rewrite (fetch_be _ _ _ 4 v Hb) by (simpl; lia). cbn [mbind res_bind]. by rewrite Z.add_assoc.
  - rewrite (fetch_be _ _ _ 8 (wrap 64 v) Hb) by apply (Z.mod_pos_bound v (2 ^ 64)), eq_refl.
    cbn [mbind res_bind]. rewrite swrap_wrap, swrap_small by (unfold in_i64 in Hv; lia). by rewrite Z.add_assoc.
Qed.

Lemma run_reg `{Task} r code stk p k : wf_expr (EReg r) -> code_at code p (compile p (EReg r)) ->
  run (S k) (at_ code stk p)
  = (v ← value (EReg r);
     match v with Some v => run k (at_ code (v :: stk) (p + 3)) | None => Ok None end).
Proof.
  intros Hr [Hc Hb]%code_at_cons. rewrite (run_op _ _ _ _ _ Hc). cbn [value exec_op]. unfold op_reg, fetch_u16.
  rewrite (fetch_be _ _ _ 2 r Hb) by (cbn [wf_expr] in Hr; simpl; lia).
  rewrite <- Z.add_assoc. destruct (num_registers <=? r); [by apply run_error|].
  destruct (get_reg r) as [[]| | |]; cbn [mbind res_bind]; try done; by apply run_error.
Qed.

Lemma run_load `{Task} w a code stk p k : code_at code p [opcode_num (ref_op w)] ->
  run (S k) (at_ code (a :: stk) p)
  = match read_mem (wrap 64 a) (bytes_of w) with
    | Some v => run k (at_ code (swrap 64 v :: stk) (p + 1))
    | None => Ok None
    end.
Proof.
  intros Hc. rewrite (run_op _ _ _ _ _ Hc).
  destruct w; cbn [ref_op exec_op mbind res_bind bytes_of]; unfold load; cbn [pop at_ stack error set_stack];
    (destruct (read_mem _ _); [done|by apply run_error]).
Qed.

Lemma run_if_goto `{Task} q v code stk p k : 0 <= q < 65536 ->
  code_at code p (opcode_num OP_if_goto :: be_bytes 2 q) ->
  run (S k) (at_ code (v :: stk) p) = run k (at_ code stk (if v =? 0 then p + 3 else q)).
Proof.
  intros Hq [Hc Hb]%code_at_cons. rewrite (run_op _ _ _ _ _ Hc). cbn [exec_op]. unfold fetch_u16.
  rewrite (fetch_be _ _ _ 2 q Hb) by (simpl; lia). cbn [pop at_ stack mbind res_bind].
  rewrite <- Z.add_assoc. by destruct (v =? 0).
Qed.

Lemma run_goto `{Task} q code stk p k : 0 <= q < 65536 ->
  code_at code p (opcode_num OP_goto :: be_bytes 2 q) ->
  run (S k) (at_ code stk p) = run k (at_ code stk q).
Proof.
  intros Hq [Hc Hb]%code_at_cons. rewrite (run_op _ _ _ _ _ Hc). cbn [exec_op]. unfold fetch_u16.
  by rewrite (fetch_be _ _ _ 2 q Hb) by (simpl; lia).
Qed.

(** Running the code of a tree from a running state, with [steps e] steps and some
    more, leaves its value on the stack and at least the further steps. *)
Definition runs `{Task} (e : Expr) : Prop :=
  forall code stk p n k, code_at code p (compile p e) -> p + size e < 65536 -> (steps e + k <= n)%nat ->
  exists n', (k <= n')%nat /\
  run n (at_ code stk p)
  = (r ← value e;
     match r with Some v => run n' (at_ code (v :: stk) (p + size e)) | None => Ok None end).

Section Runs.
Context `{Task}.

Lemma runs_load w a : runs a -> runs (ELoad w a).
Proof.
  intros Ra code stk p n k Hc Hp Hn. cbn [compile size steps value] in *.
  apply code_at_app in Hc as [Ha Hc]. rewrite size_compile in Hc.
  destruct (Ra code stk p n (S k)) as (n1 & Hk & E); [done|lia..|]. rewrite E.
  destruct n1 as [|n1]; [lia|]. exists n1. split; [lia|].
  destruct (value a) as [[v|]| | |]; cbn [mbind res_bind]; try done.
  rewrite (run_load _ _ _ _ _ _ Hc), Z.add_assoc. by destruct (read_mem _ _).
Qed.

Lemma runs_un o a : wf_expr (EUn o a) -> runs a -> runs (EUn o a).
Proof.
  intros Hwf Ra code stk p n k Hc Hp Hn. cbn [compile size steps value] in *.
  apply code_at_app in Hc as [Ha Hc]. rewrite size_compile in Hc.
  destruct (Ra code stk p n (S k)) as (n1 & Hk & E); [done|lia..|]. rewrite E.
  destruct n1 as [|n1]; [lia|]. exists n1. split; [lia|].
  destruct (value a) as [[v|]| | |]; cbn [mbind res_bind option_map]; try done.
  rewrite (run_un _ _ _ _ _ _ Hc) by (destruct o; cbn [wf_expr] in Hwf; tauto). by rewrite Z.add_assoc.
Qed.

Lemma runs_bin o a b : runs a -> runs b -> runs (EBin o a b).
Proof.
  intros Ra Rb code stk p n k Hc Hp Hn. cbn [compile size steps value] in *.
  apply code_at_app in Hc as [Ha [Hb Hc]%code_at_app].
  rewrite size_compile in Hb, Hc. rewrite size_compile in Hc.
  pose proof (size_nonneg a). pose proof (size_nonneg b).
  destruct (Ra code stk p n (steps b + S k)%nat) as (n1 & Hn1 & E); [done|lia..|]. rewrite E.
  destruct (value a) as [[x|]| | |]; cbn [mbind res_bind]; [|by exists k..].
  destruct (Rb code (x :: stk) (p + size a) n1 (S k)) as (n2 & Hn2 & E2); [done|lia..|]. rewrite E2.
  destruct n2 as [|n2]; [lia|]. exists n2. split; [lia|].
  destruct (value b) as [[y|]| | |]; cbn [mbind res_bind]; try done.
  rewrite (run_bin _ _ _ _ _ _ _ Hc). by rewrite !Z.add_assoc.
Qed.

Lemma runs_if c a b : runs c -> runs a -> runs b -> runs (EIf c a b).
Proof.
  intros Rc Ra Rb code stk p n k Hc Hp Hn. cbn [compile size steps value] in *.
  pose proof (code_at_pos _ _ _ Hc). pose proof (size_nonneg a). pose proof (size_nonneg b). pose proof (size_nonneg c).
  apply code_at_app in Hc as [Hc [Hg Hb]%code_at_app]. rewrite size_compile in Hg, Hb.
  apply code_at_app in Hb as [Hb [Hg' Ha]%code_at_app].
  cbn [length] in Hb, Hg', Ha. rewrite length_be_bytes in Hb, Hg', Ha. rewrite !size_compile in Hg', Ha.
  change (Z.of_nat 3) with 3 in *.
  destruct (Rc code stk p n (S (S (steps a + steps b + k)))) as (n1 & Hn1 & E); [done|lia..|]. rewrite E.
  destruct (value c) as [[v|]| | |]; cbn [mbind res_bind]; [|by exists k..].
  destruct n1 as [|n1]; [lia|]. rewrite (run_if_goto _ v _ stk _ n1) with (2 := Hg) by lia.
  destruct (Z.eqb_spec v 0).
  - destruct (Rb code stk (p + size c + 3) n1 (S k)) as (n2 & Hn2 & ->); [done|lia..|].
    destruct n2 as [|n2]; [lia|]. exists n2. split; [lia|].
    destruct (value b) as [[y|]| | |]; cbn [mbind res_bind]; try done.
    rewrite (run_goto _ _ (y :: stk) _ n2) with (2 := Hg') by lia. by rewrite !Z.add_assoc.
  - destruct (Ra code stk (p + size c + 3 + size b + 3) n1 k) as (n2 & Hn2 & ->); [done|lia..|].
    exists n2. split; [lia|]. by rewrite !Z.add_assoc.
Qed.

Lemma runs_expr e : wf_expr e -> runs e.
Proof.
  induction e as [w v|r|w a IH|o a IH|o a IHa b IHb|c IHc a IHa b IHb]; intros Hwf.
  - intros code stk p [|n] k Hc Hp Hn; [simpl in Hn; lia|]. exists n. split; [simpl in Hn; lia|]. by apply run_const.
  - intros code stk p [|n] k Hc Hp Hn; [simpl in Hn; lia|]. exists n. split; [simpl in Hn; lia|]. by apply run_reg.
  - by apply runs_load, IH.
  - apply runs_un, IH; [done|]. destruct o; cbn [wf_expr] in Hwf; tauto.
  - destruct Hwf. apply runs_bin; auto.
  - destruct Hwf as (? & ? & ?). apply runs_if; auto.
Qed.

End Runs.

(** The whole program of a tree. *)
Definition program (e : Expr) : list Z := compile 0 e ++ [opcode_num OP_end].

(** What the bytecode can hold: 16-bit jumps, and the step limit. *)
Definition fits (e : Expr) : Prop := wf_expr e /\ size e < 65536 /\ (steps e < max_steps)%nat.

Lemma evaluate_program `{Task} e result : fits e ->
  evaluate (new_expression (program e)) result
  = (r ← value e; Ok (match r with Some v => (true, v) | None => (false, result) end)).
Proof.
  intros (Hwf & Hs & Hk). cbn [new_expression evaluate]. unfold eval_one, new_state. fold (at_ (program e) [] 0).
  destruct (runs_expr e Hwf (program e) [] 0 max_steps 1%nat) as (n & Hn & ->); [|lia..|].
  { by exists [], [opcode_num OP_end]. }
  destruct n as [|n]; [lia|].
  destruct (value e) as [[v|]| | |]; cbn [mbind res_bind]; try done.
  rewrite (run_op _ _ _ OP_end n).
  - cbn [exec_op mbind res_bind]. by destruct n.
  - exists (compile 0 e), []. rewrite size_compile. done.
Qed.

(** C27: evaluating the bytecode of an expression tree gives the value of the tree:
    the arithmetic, comparisons, extensions, loads, register reads and jumps of the
    stack machine compute what the tree denotes, an error of the tree (a division
    by zero, memory that cannot be read, an undefined register) makes the
    evaluation fail and leaves the result alone, and a panic of the tree is the only
    way it panics.  The tree's code has to fit 16-bit jumps and the step limit, and
    sign and zero extensions are from at most 62 bits. *)
Theorem evaluate_compiled `{Task} e result : fits e ->
  evaluate (new_expression (program e)) result
  = (r ← value e; Ok (match r with Some v => (true, v) | None => (false, result) end)).
Proof. apply evaluate_program. Qed.

Definition breaks (r : option Z) : bool := match r with Some v => negb (v =? 0) | None => true end.

(** C32: a breakpoint condition of compiled expressions holds exactly when one of
    them is not zero or cannot be evaluated. *)
Theorem condition_compiled `{Task} es rs : Forall fits es -> Forall2 (fun e r => value e = Ok r) es rs ->
  condition_evaluate (map (fun e => new_expression (program e)) es) = Ok (existsb breaks rs).
Proof.
  intros Hf Hv. induction Hv as [|e r es rs Hr Hv IH]; [done|].
  apply Forall_cons in Hf as [He Hf]. cbn [map condition_evaluate].
  rewrite (evaluate_program e 0 He), Hr. cbn [mbind res_bind].
  destruct r as [v|]; [|done]. simpl. destruct (v =? 0); [by apply IH|done].
Qed.

(** ** A task, and expressions evaluated on it *)

(** Register 0 holds 0x1003, and the memory at [a] the low byte of [a]; nothing is
    mapped below 0x1000. *)
Definition example_task : Task := {|
  read_mem a n := if a <? 4096 then None else if n =? 1 then Some (a mod 256) else Some 0;
  read_register r := if r =? 0 then Some [3; 16; 0; 0; 0; 0; 0; 0] else None;
  num_registers := 24;
  max_reg_size := 16;
  undefined_opcode _ s := Ok (set_error s)
|}.

(** [if (reg0 < 5) then 1/0 else ext8(ref8(reg0 + 0xFA))] *)
Definition example_expr : Expr :=
  EIf (EBin BLessU (EReg 0) (EConst W8 5))
    (EBin BDivS (EConst W8 1) (EConst W8 0))
    (EUn (UExt 8) (ELoad W8 (EBin BAdd (EReg 0) (EConst W8 250)))).

Lemma fits_intro e : wf_expr e -> (size e <? 65536) && (steps e <? max_steps)%nat = true -> fits e.
Proof. intros Hw [Hs%Z.ltb_lt Hk%Nat.ltb_lt]%andb_prop. done. Qed.

Lemma example_fits : fits example_expr.
Proof. apply fits_intro; [simpl; lia|vm_compute; done]. Qed.

Lemma evaluate_compiled_witness :
  evaluate (H := example_task) (new_expression (program example_expr)) 7 = Ok (true, -3).
Proof. rewrite (evaluate_compiled (H := example_task) example_expr 7); [reflexivity|apply example_fits]. Defined.

Lemma condition_compiled_witness :
  condition_evaluate (H := example_task)
    (map (fun e => new_expression (program e)) [EConst W8 0; ELoad W32 (EConst W8 8)]) = Ok true.
Proof.
  rewrite (condition_compiled (H := example_task) _ [Some 0; None]); [reflexivity| |].
  - constructor; [|constructor; [|constructor]]; (apply fits_intro; [simpl; lia|vm_compute; done]).
  - repeat constructor.
Defined.

(** ** Any bytecode *)

Lemma eval_one_typed `{Task} b v : undefined_typed b -> Forall is_byte b -> eval_one b = Ok (Some v) -> in_i64 v.
Proof.
  intros Hu Hb (r & Hr & E)%bind_Ok. destruct r as [s|]; [|done].
  assert (typed b s) as Hs by (eapply typed_run; [done| |exact Hr]; by constructor).
  pose proof (typed_pop b s Hs) as [Hv _]. destruct (pop s) as [v' s']. cbn [fst] in Hv.
  destruct (error s'); by inversion E; subst.
Qed.

(** If bytes that are no opcodes leave integers integers, a value that comes out of
    an evaluation of the variants of a program is a 64-bit signed integer. *)
Theorem evaluate_typed `{Task} variants result ok v : (forall code, undefined_typed code) -> Forall (Forall is_byte) variants -> in_i64 result ->
  evaluate variants result = Ok (ok, v) -> in_i64 v.
Proof.
  intros Hu Hb Hr. assert (forall bs r, in_i64 r -> eval_rest bs r = Ok (ok, v) -> in_i64 v) as Hrest.
  { induction bs as [|b bs IH]; intros r Hi; cbn [eval_rest]; [by intros [= _ <-]|].
    intros (o & _ & E)%bind_Ok. destruct o as [w|]; [|by inversion E; subst].
    destruct (r =? w); [by apply (IH r)|by inversion E; subst]. }
  destruct Hb as [|b bs Hb Hbs]; cbn [evaluate]; [by intros [= _ <-]|].
  intros (o & Ho & E)%bind_Ok. destruct o as [w|]; [|by inversion E; subst].
  apply (Hrest bs w); [by eapply eval_one_typed|done].
Qed.

Lemma evaluate_typed_witness : exists v,
  evaluate (H := example_task) [[opcode_num OP_const64; 255; 255; 255; 255; 255; 255; 255; 254; opcode_num OP_end]] 0
  = Ok (true, v) /\ in_i64 v.
Proof.
  exists (-2).
  assert (evaluate (H := example_task)
    [[opcode_num OP_const64; 255; 255; 255; 255; 255; 255; 255; 254; opcode_num OP_end]] 0 = Ok (true, -2)) as E
    by (vm_compute; reflexivity).
  split; [exact E|]. refine (evaluate_typed (H := example_task) _ 0 true (-2) _ _ _ E).
  - intros code op s s' Hs [= <-]. by apply typed_set_error.
  - repeat constructor; vm_compute; congruence.
  - split; vm_compute; congruence.
Defined.

Lemma step_panics_exactly_witness :
  step (H := example_task) (mkState [opcode_num OP_rem_signed] [-1; - I64_BOUND] 0 false false) = Panic.
Proof.
  destruct (step_panics_exactly (H := example_task)
    (mkState [opcode_num OP_rem_signed] [-1; - I64_BOUND] 0 false false) OP_rem_signed) as [[_ Hn]|[Hp _]].
  - repeat constructor; vm_compute; congruence.
  - reflexivity.
  - reflexivity.
  - destruct Hn. reflexivity.
  - exact Hp.
Defined.

End GdbExprCompile.
