(* ===== verification/GdbText.v ===== *)
(** Text of the gdb remote protocol: byte strings, hexadecimal numbers as
    [write!] prints them and the number parsers of [src/src/util.rs]. *)

From Stdlib Require Import Ascii String.
From S2P Require Import Prelude.

Module Text.

(** ** Byte strings *)

Definition byte_of (c : ascii) : Z := Z.of_nat (nat_of_ascii c).

Arguments byte_of c%_char_scope.

(** A byte string literal, [b"..."]. *)
Definition lit (s : string) : list Z := byte_of <$> list_ascii_of_string s.

Definition is_byte (b : Z) : Prop := 0 <= b < 256.

Definition bytes_eqb (a b : list Z) : bool := bool_decide (a = b).

(** ** Printing: the formats [{:x}] and [{:02x}] *)

Definition hex_digit (d : Z) : Z := if d <? 10 then 48 + d else 87 + d.

(** The digits of [n], for [n < 16 ^ k]. *)
Fixpoint hex_digits (k : nat) (n : Z) : list Z :=
  match k with
  | O => []
  | S k' => if n <? 16 then [hex_digit n] else hex_digits k' (n / 16) ++ [hex_digit (n mod 16)]
  end.

(** Integers have at most 64 bits. *)
Definition fmt_x (n : Z) : list Z := hex_digits 16 n.

Definition fmt_02x (n : Z) : list Z :=
  let s := fmt_x n in match s with [c] => [48; c] | _ => s end.

(** A [pid_t] is printed as the 32 bits it has. *)
Definition fmt_pid (n : Z) : list Z := fmt_02x (wrap 32 n).

(** ** Digits *)

Definition in_range (a b c : Z) : bool := (a <=? c) && (c <=? b).
Definition is_hex (c : Z) : bool := in_range 48 57 c || in_range 97 102 c || in_range 65 70 c.
Definition is_oct (c : Z) : bool := in_range 48 55 c.
Definition is_dec (c : Z) : bool := in_range 48 57 c.

Definition digit_value (c : Z) : Z :=
  if in_range 48 57 c then c - 48 else if in_range 97 102 c then c - 87 else c - 55.

Definition digits_value (base : Z) (digits : list Z) : Z :=
  fold_left (fun v c => v * base + digit_value c) digits 0.

(** [usize::from_str_radix] and [isize::from_str_radix] on digits of the radix, the
    latter also with a minus sign; [None] when the number does not fit. *)
Definition usize_from_radix (base : Z) (digits : list Z) : option Z :=
  let v := digits_value base digits in if v <? USIZE then Some v else None.
Definition isize_from_radix (base : Z) (neg : bool) (digits : list Z) : option Z :=
  let v := if neg then - digits_value base digits else digits_value base digits in
  if (- I64_BOUND <=? v) && (v <? I64_BOUND) then Some v else None.

(** ** The libraries [memchr] and [regex] *)

(** A match of one of the expressions: its first group (the sign), its second group
    (the digits), and the text behind the match. *)
Record Match := mkMatch { m_sign : option Z; m_digits : list Z; m_rest : list Z }.

Class Lib := {
  (** [memchr(c, text)] *)
  memchr : Z -> list Z -> option nat;
  (** [^\s*([\+\-])?(?:0[xX])?([0-9a-fA-F]+)] *)
  re16 : list Z -> option Match;
  (** [^\s*([\+\-])?0[xX]([0-9a-fA-F]+)] *)
  re016 : list Z -> option Match;
  (** [^\s*([\+\-])?([0-9]+)] *)
  re010 : list Z -> option Match;
  (** [^\s*([\+\-])?0([0-7]+)] *)
  re08 : list Z -> option Match
}.

(** ** What is documented of them *)

Fixpoint first_index (c : Z) (text : list Z) : option nat :=
  match text with
  | [] => None
  | b :: bs => if b =? c then Some 0%nat else option_map S (first_index c bs)
  end.

(** [\s] is a Unicode white space character, in UTF-8. *)
Definition is_ascii_space (a : Z) : bool := in_range 9 13 a || (a =? 32).
Definition is_space2 (a b : Z) : bool := (a =? 0xC2) && ((b =? 0x85) || (b =? 0xA0)).
Definition is_space3 (a b c : Z) : bool :=
  (a =? 0xE1) && (b =? 0x9A) && (c =? 0x80)
  || (a =? 0xE2) && (b =? 0x80) && (in_range 0x80 0x8A c || (c =? 0xA8) || (c =? 0xA9) || (c =? 0xAF))
  || (a =? 0xE2) && (b =? 0x81) && (c =? 0x9F)
  || (a =? 0xE3) && (b =? 0x80) && (c =? 0x80).

Fixpoint skip_space (text : list Z) : list Z :=
  match text with
  | [] => []
  | a :: l1 =>
      if is_ascii_space a then skip_space l1
      else match l1 with
           | [] => text
           | b :: l2 =>
               if is_space2 a b then skip_space l2
               else match l2 with
                    | [] => text
                    | c :: l3 => if is_space3 a b c then skip_space l3 else text
                    end
           end
  end.

Fixpoint take_while (f : Z -> bool) (text : list Z) : list Z * list Z :=
  match text with
  | c :: cs => if f c then let '(d, r) := take_while f cs in (c :: d, r) else ([], text)
  | [] => ([], [])
  end.

Definition opt_sign (text : list Z) : option Z * list Z :=
  match text with
  | c :: cs => if (c =? 43) || (c =? 45) then (Some c, cs) else (None, text)
  | [] => (None, [])
  end.

(** One or more digits. *)
Definition digits1 (f : Z -> bool) (sign : option Z) (text : list Z) : option Match :=
  let '(d, r) := take_while f text in
  match d with [] => None | _ => Some (mkMatch sign d r) end.

(** [0[xX]] *)
Definition hex_prefix (text : list Z) : option (list Z) :=
  match text with
  | z :: x :: r => if (z =? 48) && ((x =? 120) || (x =? 88)) then Some r else None
  | _ => None
  end.

(** Alternatives are tried greedy first. *)
Definition match16 (text : list Z) : option Match :=
  let '(sign, t) := opt_sign (skip_space text) in
  match hex_prefix t with
  | Some r => match digits1 is_hex sign r with Some m => Some m | None => digits1 is_hex sign t end
  | None => digits1 is_hex sign t
  end.

Definition match016 (text : list Z) : option Match :=
  let '(sign, t) := opt_sign (skip_space text) in
  match hex_prefix t with Some r => digits1 is_hex sign r | None => None end.

Definition match010 (text : list Z) : option Match :=
  let '(sign, t) := opt_sign (skip_space text) in digits1 is_dec sign t.

Definition match08 (text : list Z) : option Match :=
  let '(sign, t) := opt_sign (skip_space text) in
  match t with z :: r => if z =? 48 then digits1 is_oct sign r else None | [] => None end.

Class LibSpec (L : Lib) : Prop := {
  memchr_spec : forall c text, memchr c text = first_index c text;
  re16_spec : forall text, re16 text = match16 text;
  re016_spec : forall text, re016 text = match016 text;
  re010_spec : forall text, re010 text = match010 text;
  re08_spec : forall text, re08 text = match08 text
}.

(** ** The parsers; [None] is an error, the list the text left over *)

Section Parsers.
Context `{Lib}.

Definition is_neg (m : Match) : bool := match m_sign m with Some c => c =? 45 | None => false end.

Definition str16_to_usize (text : list Z) : option Z * list Z :=
  match re16 text with
  | Some m =>
      (if is_neg m then option_map (wrap 64) (isize_from_radix 16 true (m_digits m))
       else usize_from_radix 16 (m_digits m), m_rest m)
  | None => (Some 0, text)
  end.

Definition str16_to_isize (text : list Z) : option Z * list Z :=
  match re16 text with
  | Some m => (isize_from_radix 16 (is_neg m) (m_digits m), m_rest m)
  | None => (Some 0, text)
  end.

Definition str0_to_isize (text : list Z) : option Z * list Z :=
  match re016 text with
  | Some m => (isize_from_radix 16 (is_neg m) (m_digits m), m_rest m)
  | None =>
      match re08 text with
      | Some m => (isize_from_radix 8 (is_neg m) (m_digits m), m_rest m)
      | None =>
          match re010 text with
          | Some m => (isize_from_radix 10 (is_neg m) (m_digits m), m_rest m)
          | None => (Some 0, text)
          end
      end
  end.

End Parsers.

(** An implementation of the libraries. *)
Definition reference_lib : Lib := {|
  memchr := first_index; re16 := match16; re016 := match016; re010 := match010; re08 := match08
|}.

#[global] Instance reference_lib_spec : LibSpec reference_lib.
Proof. by constructor. Qed.

End Text.
