(* ===== verification/GdbRequest.v ===== *)
(** Debugger requests: the types [GdbRequest], [GdbThreadId], [GdbContAction] and the
    module [gdb_request] of [src/src/gdb_connection.rs], the request numbers of
    [src/bindgen/gdb_request_wrapper.h], and the accessors of a request. *)

From S2P Require Import Prelude WaitStatus.

Module Req.

(** ** Request numbers *)

Definition DREQ_NONE : Z := 0.
Definition DREQ_GET_CURRENT_THREAD : Z := 1.
Definition DREQ_GET_OFFSETS : Z := 2.
Definition DREQ_GET_REGS : Z := 3.
Definition DREQ_GET_STOP_REASON : Z := 4.
Definition DREQ_GET_THREAD_LIST : Z := 5.
Definition DREQ_INTERRUPT : Z := 6.
Definition DREQ_DETACH : Z := 7.
Definition DREQ_GET_AUXV : Z := 8.
Definition DREQ_GET_EXEC_FILE : Z := 9.
Definition DREQ_GET_IS_THREAD_ALIVE : Z := 10.
Definition DREQ_GET_THREAD_EXTRA_INFO : Z := 11.
Definition DREQ_SET_CONTINUE_THREAD : Z := 12.
Definition DREQ_SET_QUERY_THREAD : Z := 13.
Definition DREQ_TLS : Z := 14.
Definition DREQ_WRITE_SIGINFO : Z := 15.
Definition DREQ_GET_MEM : Z := 16.
Definition DREQ_SET_MEM : Z := 17.
Definition DREQ_READ_SIGINFO : Z := 18.
Definition DREQ_SEARCH_MEM : Z := 19.
Definition DREQ_MEM_FIRST : Z := DREQ_GET_MEM.
Definition DREQ_MEM_LAST : Z := DREQ_SEARCH_MEM.
Definition DREQ_REMOVE_SW_BREAK : Z := 20.
Definition DREQ_SET_SW_BREAK : Z := 25.
Definition DREQ_SET_RDWR_WATCH : Z := 29.
Definition DREQ_WATCH_FIRST : Z := DREQ_REMOVE_SW_BREAK.
Definition DREQ_WATCH_LAST : Z := DREQ_SET_RDWR_WATCH.
Definition DREQ_GET_REG : Z := 30.
Definition DREQ_SET_REG : Z := 31.
Definition DREQ_REG_FIRST : Z := DREQ_GET_REG.
Definition DREQ_REG_LAST : Z := DREQ_SET_REG.
Definition DREQ_CONT : Z := 32.
Definition DREQ_RESTART : Z := 33.
Definition DREQ_RD_CMD : Z := 34.
Definition DREQ_QSYMBOL : Z := 35.
Definition DREQ_FILE_SETFS : Z := 36.
Definition DREQ_FILE_OPEN : Z := 37.
Definition DREQ_FILE_PREAD : Z := 38.
Definition DREQ_FILE_CLOSE : Z := 39.

(** [DREG_NUM_LINUX_X86_64] of [src/bindgen/gdb_register_wrapper.h]. *)
Definition DREG_NUM_LINUX_X86_64 : Z := 76.

(** ** Data *)

Record GdbThreadId := mkThread { pid : Z; tid : Z }.

Definition ANY : GdbThreadId := mkThread 0 0.
Definition ALL : GdbThreadId := mkThread (-1) (-1).

(** [GdbRegisterValueData]; [MAX_REG_SIZE_BYTES] is 16. *)
Inductive GdbRegisterValueData :=
| ValueGeneric (bytes : list Z)
| Value1 (v : Z)
| Value2 (v : Z)
| Value4 (v : Z)
| Value8 (v : Z).

Definition MAX_SIZE : nat := 16.

Record GdbRegisterValue := mkReg {
  name : Z;
  value : GdbRegisterValueData;
  defined : bool;
  size : nat
}.

Inductive GdbRestartType := RestartFromPrevious | RestartFromEvent | RestartFromCheckpoint.
Inductive GdbActionType := ActionContinue | ActionStep.
Inductive RunDirection := RunForward | RunBackward.

Record GdbContAction := mkAction {
  a_type : GdbActionType;
  a_target : GdbThreadId;
  maybe_signal_to_deliver : option Signals.Sig
}.

(** [GdbContAction::new]. *)
Definition new_action (maybe_type : option GdbActionType) (maybe_target : option GdbThreadId)
    (sig : option Signals.Sig) : GdbContAction :=
  mkAction (default ActionContinue maybe_type) (default ANY maybe_target) sig.

Record Mem := mkMem { m_addr : Z; m_len : Z; m_data : list Z }.
Record Watch := mkWatch { w_addr : Z; w_kind : Z; w_conditions : list (list Z) }.
Record Restart := mkRestart { r_param : Z; r_param_str : list Z; r_type : GdbRestartType }.
Record Cont := mkCont { run_direction : RunDirection; actions : list GdbContAction }.
Record Tls := mkTls { t_offset : Z; load_module : Z }.
Record Symbol := mkSymbol { has_address : bool; s_address : Z; s_name : list Z }.
Record FileSetfs := mkSetfs { fs_pid : Z }.
Record FileOpen := mkOpen { file_name : list Z; fo_flags : Z; fo_mode : Z }.
Record FilePread := mkPread { fp_fd : Z; fp_size : Z; fp_offset : Z }.
Record FileClose := mkClose { fc_fd : Z }.

Inductive GdbRequestValue :=
| GdbRequestNone
| GdbRequestMem (v : Mem)
| GdbRequestWatch (v : Watch)
| GdbRequestRestart (v : Restart)
| GdbRequestRegisterValue (v : GdbRegisterValue)
| GdbRequestText (v : list Z)
| GdbRequestCont (v : Cont)
| GdbRequestTls (v : Tls)
| GdbRequestSymbol (v : Symbol)
| GdbRequestFileSetfs (v : FileSetfs)
| GdbRequestFileOpen (v : FileOpen)
| GdbRequestFilePread (v : FilePread)
| GdbRequestFileClose (v : FileClose)
| GdbRequestNoAddlData.

Record GdbRequest := mkReq {
  type_ : Z;
  val : GdbRequestValue;
  target : GdbThreadId;
  suppress_debugger_stop : bool
}.

(** The derived [Default]s. *)
Definition default_mem : Mem := mkMem 0 0 [].
Definition default_watch : Watch := mkWatch 0 0 [].
Definition default_reg : GdbRegisterValue := mkReg 0 (Value8 0) false 0.
Definition default_restart : Restart := mkRestart 0 [] RestartFromPrevious.
Definition default_cont : Cont := mkCont RunForward [].
Definition default_request : GdbRequest := mkReq DREQ_NONE GdbRequestNone ALL false.

(** ** [GdbRequest::new] *)

Definition no_addl_data : list Z :=
  [DREQ_GET_AUXV; DREQ_GET_EXEC_FILE; DREQ_GET_IS_THREAD_ALIVE; DREQ_GET_THREAD_EXTRA_INFO;
   DREQ_SET_CONTINUE_THREAD; DREQ_SET_QUERY_THREAD; DREQ_GET_CURRENT_THREAD; DREQ_GET_OFFSETS;
   DREQ_GET_REGS; DREQ_GET_STOP_REASON; DREQ_GET_THREAD_LIST; DREQ_INTERRUPT; DREQ_WRITE_SIGINFO;
   DREQ_DETACH].

Definition default_value (t : Z) : res GdbRequestValue :=
  if t =? DREQ_NONE then Ok GdbRequestNone
  else if (DREQ_MEM_FIRST <=? t) && (t <=? DREQ_MEM_LAST) then Ok (GdbRequestMem default_mem)
  else if (DREQ_WATCH_FIRST <=? t) && (t <=? DREQ_WATCH_LAST) then Ok (GdbRequestWatch default_watch)
  else if (DREQ_REG_FIRST <=? t) && (t <=? DREQ_REG_LAST) then Ok (GdbRequestRegisterValue default_reg)
  else if t =? DREQ_RESTART then Ok (GdbRequestRestart default_restart)
  else if t =? DREQ_CONT then Ok (GdbRequestCont default_cont)
  else if t =? DREQ_RD_CMD then Ok (GdbRequestText [])
  else if t =? DREQ_TLS then Ok (GdbRequestTls (mkTls 0 0))
  else if t =? DREQ_QSYMBOL then Ok (GdbRequestSymbol (mkSymbol false 0 []))
  else if t =? DREQ_FILE_SETFS then Ok (GdbRequestFileSetfs (mkSetfs 0))
  else if t =? DREQ_FILE_OPEN then Ok (GdbRequestFileOpen (mkOpen [] 0 0))
  else if t =? DREQ_FILE_PREAD then Ok (GdbRequestFilePread (mkPread 0 0 0))
  else if t =? DREQ_FILE_CLOSE then Ok (GdbRequestFileClose (mkClose 0))
  else if existsb (Z.eqb t) no_addl_data then Ok GdbRequestNoAddlData
  else Panic.

Definition new (t : Z) : res GdbRequest :=
  v ← default_value t; Ok (mkReq t v ANY false).

Definition is_resume_request (r : GdbRequest) : bool := type_ r =? DREQ_CONT.

(** ** Accessors: the value of a request, and the request with it changed *)

Definition with_value (r : GdbRequest) (v : GdbRequestValue) : GdbRequest :=
  mkReq (type_ r) v (target r) (suppress_debugger_stop r).
Definition with_target (t : GdbThreadId) (r : GdbRequest) : GdbRequest :=
  mkReq (type_ r) (val r) t (suppress_debugger_stop r).

Definition mem (r : GdbRequest) : res Mem :=
  match val r with GdbRequestMem v => Ok v | _ => Panic end.
Definition watch (r : GdbRequest) : res Watch :=
  match val r with GdbRequestWatch v => Ok v | _ => Panic end.
Definition restart (r : GdbRequest) : res Restart :=
  match val r with GdbRequestRestart v => Ok v | _ => Panic end.
Definition reg (r : GdbRequest) : res GdbRegisterValue :=
  match val r with GdbRequestRegisterValue v => Ok v | _ => Panic end.
Definition cont (r : GdbRequest) : res Cont :=
  match val r with GdbRequestCont v => Ok v | _ => Panic end.
Definition text (r : GdbRequest) : res (list Z) :=
  match val r with GdbRequestText v => Ok v | _ => Panic end.
Definition tls (r : GdbRequest) : res Tls :=
  match val r with GdbRequestTls v => Ok v | _ => Panic end.
Definition sym (r : GdbRequest) : res Symbol :=
  match val r with GdbRequestSymbol v => Ok v | _ => Panic end.
Definition file_setfs (r : GdbRequest) : res FileSetfs :=
  match val r with GdbRequestFileSetfs v => Ok v | _ => Panic end.
Definition file_open (r : GdbRequest) : res FileOpen :=
  match val r with GdbRequestFileOpen v => Ok v | _ => Panic end.
Definition file_pread (r : GdbRequest) : res FilePread :=
  match val r with GdbRequestFilePread v => Ok v | _ => Panic end.
Definition file_close (r : GdbRequest) : res FileClose :=
  match val r with GdbRequestFileClose v => Ok v | _ => Panic end.

Definition mem_mut (f : Mem -> Mem) (r : GdbRequest) : res GdbRequest :=
  v ← mem r; Ok (with_value r (GdbRequestMem (f v))).
Definition watch_mut (f : Watch -> Watch) (r : GdbRequest) : res GdbRequest :=
  v ← watch r; Ok (with_value r (GdbRequestWatch (f v))).
Definition restart_mut (f : Restart -> Restart) (r : GdbRequest) : res GdbRequest :=
  v ← restart r; Ok (with_value r (GdbRequestRestart (f v))).
Definition reg_mut (f : GdbRegisterValue -> GdbRegisterValue) (r : GdbRequest) : res GdbRequest :=
  v ← reg r; Ok (with_value r (GdbRequestRegisterValue (f v))).
Definition cont_mut (f : Cont -> Cont) (r : GdbRequest) : res GdbRequest :=
  v ← cont r; Ok (with_value r (GdbRequestCont (f v))).
Definition text_mut (f : list Z -> list Z) (r : GdbRequest) : res GdbRequest :=
  v ← text r; Ok (with_value r (GdbRequestText (f v))).
Definition tls_mut (f : Tls -> Tls) (r : GdbRequest) : res GdbRequest :=
  v ← tls r; Ok (with_value r (GdbRequestTls (f v))).
Definition sym_mut (f : Symbol -> Symbol) (r : GdbRequest) : res GdbRequest :=
  v ← sym r; Ok (with_value r (GdbRequestSymbol (f v))).
Definition file_setfs_mut (f : FileSetfs -> FileSetfs) (r : GdbRequest) : res GdbRequest :=
  v ← file_setfs r; Ok (with_value r (GdbRequestFileSetfs (f v))).
Definition file_open_mut (f : FileOpen -> FileOpen) (r : GdbRequest) : res GdbRequest :=
  v ← file_open r; Ok (with_value r (GdbRequestFileOpen (f v))).
Definition file_pread_mut (f : FilePread -> FilePread) (r : GdbRequest) : res GdbRequest :=
  v ← file_pread r; Ok (with_value r (GdbRequestFilePread (f v))).
Definition file_close_mut (f : FileClose -> FileClose) (r : GdbRequest) : res GdbRequest :=
  v ← file_close r; Ok (with_value r (GdbRequestFileClose (f v))).

(** [request_needs_immediate_response]. *)
Definition request_needs_immediate_response (r : GdbRequest) : bool :=
  negb ((type_ r =? DREQ_NONE) || (type_ r =? DREQ_CONT)).

End Req.
