(* ===== verification/GdbConnection.v ===== *)
(** The gdb connection of [src/src/gdb_connection.rs]: its state, its buffers, and
    reading and writing packets. *)

From S2P Require Import Prelude WaitStatus GdbText GdbRequest.

Module Conn.
Import Text Req.

(** ** State *)

(** [GdbConnection].  The last four fields stand for the socket. *)
Record Conn := mkConn {
  req : GdbRequest;
  resume_thread : GdbThreadId;
  query_thread : GdbThreadId;
  tgid : Z;
  cpu_features_ : Z;
  no_ack : bool;
  inbuf : list Z;
  packetend : nat;
  outbuf : list Z;
  reverse_execution : bool;
  connection_alive_ : bool;
  multiprocess_supported_ : bool;
  (** what the next reads return; [None] is an error, and after the last the socket is closed *)
  reads : list (option (list Z));
  (** how much the next writes take; [None] is an error, and later writes take everything *)
  writes : list (option nat);
  (** what the next polls without waiting return; later ones return false *)
  polls : list bool;
  (** what was written to the socket *)
  sent : list Z
}.

(** [GdbConnection::new], with what the socket will do. *)
Definition new_connection (tgid : Z) (reverse_execution : bool) (reads : list (option (list Z)))
    (writes : list (option nat)) (polls : list bool) : Conn :=
  mkConn default_request ALL ALL tgid 0 false [] 0 [] reverse_execution true false reads writes polls [].

Definition set_req (x : GdbRequest) (s : Conn) : Conn :=
  mkConn x (resume_thread s) (query_thread s) (tgid s) (cpu_features_ s) (no_ack s) (inbuf s)
    (packetend s) (outbuf s) (reverse_execution s) (connection_alive_ s)
    (multiprocess_supported_ s) (reads s) (writes s) (polls s) (sent s).
Definition set_resume_thread (x : GdbThreadId) (s : Conn) : Conn :=
  mkConn (req s) x (query_thread s) (tgid s) (cpu_features_ s) (no_ack s) (inbuf s) (packetend
    s) (outbuf s) (reverse_execution s) (connection_alive_ s) (multiprocess_supported_ s) (reads
    s) (writes s) (polls s) (sent s).
Definition set_query_thread (x : GdbThreadId) (s : Conn) : Conn :=
  mkConn (req s) (resume_thread s) x (tgid s) (cpu_features_ s) (no_ack s) (inbuf s) (packetend
    s) (outbuf s) (reverse_execution s) (connection_alive_ s) (multiprocess_supported_ s) (reads
    s) (writes s) (polls s) (sent s).
Definition set_cpu_features (x : Z) (s : Conn) : Conn :=
  mkConn (req s) (resume_thread s) (query_thread s) (tgid s) x (no_ack s) (inbuf s) (packetend
    s) (outbuf s) (reverse_execution s) (connection_alive_ s) (multiprocess_supported_ s) (reads
    s) (writes s) (polls s) (sent s).
Definition set_no_ack (x : bool) (s : Conn) : Conn :=
  mkConn (req s) (resume_thread s) (query_thread s) (tgid s) (cpu_features_ s) x (inbuf s)
    (packetend s) (outbuf s) (reverse_execution s) (connection_alive_ s)
    (multiprocess_supported_ s) (reads s) (writes s) (polls s) (sent s).
Definition set_inbuf (x : list Z) (s : Conn) : Conn :=
  mkConn (req s) (resume_thread s) (query_thread s) (tgid s) (cpu_features_ s) (no_ack s) x
    (packetend s) (outbuf s) (reverse_execution s) (connection_alive_ s)
    (multiprocess_supported_ s) (reads s) (writes s) (polls s) (sent s).
Definition set_packetend (x : nat) (s : Conn) : Conn :=
  mkConn (req s) (resume_thread s) (query_thread s) (tgid s) (cpu_features_ s) (no_ack s) (inbuf
    s) x (outbuf s) (reverse_execution s) (connection_alive_ s) (multiprocess_supported_ s)
    (reads s) (writes s) (polls s) (sent s).
Definition set_outbuf (x : list Z) (s : Conn) : Conn :=
  mkConn (req s) (resume_thread s) (query_thread s) (tgid s) (cpu_features_ s) (no_ack s) (inbuf
    s) (packetend s) x (reverse_execution s) (connection_alive_ s) (multiprocess_supported_ s)
    (reads s) (writes s) (polls s) (sent s).
Definition set_connection_alive (x : bool) (s : Conn) : Conn :=
  mkConn (req s) (resume_thread s) (query_thread s) (tgid s) (cpu_features_ s) (no_ack s) (inbuf
    s) (packetend s) (outbuf s) (reverse_execution s) x (multiprocess_supported_ s) (reads s)
    (writes s) (polls s) (sent s).
Definition set_multiprocess_supported (x : bool) (s : Conn) : Conn :=
  mkConn (req s) (resume_thread s) (query_thread s) (tgid s) (cpu_features_ s) (no_ack s) (inbuf
    s) (packetend s) (outbuf s) (reverse_execution s) (connection_alive_ s) x (reads s) (writes
    s) (polls s) (sent s).
Definition set_reads (x : list (option (list Z))) (s : Conn) : Conn :=
  mkConn (req s) (resume_thread s) (query_thread s) (tgid s) (cpu_features_ s) (no_ack s) (inbuf
    s) (packetend s) (outbuf s) (reverse_execution s) (connection_alive_ s)
    (multiprocess_supported_ s) x (writes s) (polls s) (sent s).
Definition set_writes (x : list (option nat)) (s : Conn) : Conn :=
  mkConn (req s) (resume_thread s) (query_thread s) (tgid s) (cpu_features_ s) (no_ack s) (inbuf
    s) (packetend s) (outbuf s) (reverse_execution s) (connection_alive_ s)
    (multiprocess_supported_ s) (reads s) x (polls s) (sent s).
Definition set_polls (x : list bool) (s : Conn) : Conn :=
  mkConn (req s) (resume_thread s) (query_thread s) (tgid s) (cpu_features_ s) (no_ack s) (inbuf
    s) (packetend s) (outbuf s) (reverse_execution s) (connection_alive_ s)
    (multiprocess_supported_ s) (reads s) (writes s) x (sent s).
Definition set_sent (x : list Z) (s : Conn) : Conn :=
  mkConn (req s) (resume_thread s) (query_thread s) (tgid s) (cpu_features_ s) (no_ack s) (inbuf
    s) (packetend s) (outbuf s) (reverse_execution s) (connection_alive_ s)
    (multiprocess_supported_ s) (reads s) (writes s) (polls s) x.

(** ** Operations: a state monad over [res]; [None] when the process has exited *)

Definition G (A : Type) : Type := Conn -> res (option A * Conn).

#[global] Instance G_ret : MRet G := fun A a s => Ok (Some a, s).
#[global] Instance G_bind : MBind G :=
  fun A B f m s =>
    match m s with
    | Ok (Some a, s') => f a s'
    | Ok (None, s') => Ok (None, s')
    | Panic => Panic
    | Fatal => Fatal
    | Spin => Spin
    end.

Definition lift {A} (m : res A) : G A := fun s => a ← m; Ok (Some a, s).
Definition gets {A} (f : Conn -> A) : G A := fun s => Ok (Some (f s), s).
Definition modify (f : Conn -> Conn) : G unit := fun s => Ok (Some tt, f s).
Definition assert (b : bool) : G unit := lift (assert_ b).
(** [std::process::exit]. *)
Definition exit {A} : G A := fun s => Ok (None, s).
Definition spin {A} : G A := fun _ => Spin.

(** ** Output *)

(** The loop of [write_flush]: whether the connection is still alive, the writes
    left and everything sent. *)
Fixpoint flush_loop (ws : list (option nat)) (buf out : list Z) : bool * list (option nat) * list Z :=
  match buf with
  | [] => (true, ws, out)
  | _ =>
      match ws with
      | [] => (true, [], out ++ buf)
      | None :: ws' => (false, ws', out)
      | Some n :: ws' => flush_loop ws' (drop n buf) (out ++ take n buf)
      end
  end.

Definition write_flush : G unit :=
  modify (fun s =>
    let '(ok, ws, out) := flush_loop (writes s) (outbuf s) (sent s) in
    set_outbuf [] (set_sent out (set_writes ws (set_connection_alive (ok && connection_alive_ s) s)))).

Definition write_data_raw (data : list Z) : G unit := modify (fun s => set_outbuf (outbuf s ++ data) s).

Definition write_hex (hex : Z) : G unit := write_data_raw (fmt_02x hex).

Definition checksum (data : list Z) : Z := fold_left (fun c b => wrap 8 (c + b)) data 0.

Definition write_packet_bytes (data : list Z) : G unit :=
  _ ← write_data_raw (lit "$");
  _ ← write_data_raw data;
  _ ← write_data_raw (lit "#");
  write_hex (checksum data).

(** The escaping of [write_binary_packet]: [#], [$], [}] and [*]. *)
Definition must_escape (b : Z) : bool := (b =? 35) || (b =? 36) || (b =? 125) || (b =? 42).

Fixpoint escape (data : list Z) : list Z :=
  match data with
  | [] => []
  | b :: bs => (if must_escape b then [125; Z.lxor b 32] else [b]) ++ escape bs
  end.

Definition write_binary_packet (pfx data : list Z) : G unit := write_packet_bytes (pfx ++ escape data).

Definition hex_bytes (data : list Z) : list Z := concat (map fmt_02x data).

Definition write_hex_bytes_packet_with_prefix (prefix data : list Z) : G unit :=
  write_packet_bytes (prefix ++ hex_bytes data).

Definition write_hex_bytes_packet (data : list Z) : G unit := write_hex_bytes_packet_with_prefix [] data.

Definition write_xfer_response (data : list Z) (offset len : Z) : G unit :=
  let size := Z.of_nat (length data) in
  if size <? offset then write_packet_bytes (lit "E01")
  else if offset =? size then write_packet_bytes (lit "l")
  else
    e ← lift (checked_add offset len);
    if e <? size
    then write_binary_packet (lit "m") (take (Z.to_nat len) (drop (Z.to_nat offset) data))
    else write_binary_packet (lit "l") (drop (Z.to_nat offset) data).

Definition consume_request : G unit :=
  r ← lift (new DREQ_NONE);
  _ ← modify (set_req r);
  write_flush.

(** ** Input *)

Definition INTERRUPT_CHAR : Z := 3.

(** [poll_incoming] without waiting. *)
Definition poll_incoming : G bool :=
  fun s => match polls s with
           | [] => Ok (Some false, s)
           | b :: bs => Ok (Some b, set_polls bs s)
           end.

Definition read_data_once : G unit :=
  modify (fun s =>
    match reads s with
    | [] => set_connection_alive false s
    | r :: rs =>
        let s := set_reads rs s in
        match r with
        | None | Some [] => set_connection_alive false s
        | Some bs => set_inbuf (inbuf s ++ bs) s
        end
    end).

Definition is_start (b : Z) : bool := (b =? 36) || (b =? INTERRUPT_CHAR).

(** The input from the first start of a packet on. *)
Fixpoint find_start (buf : list Z) : list Z :=
  match buf with
  | [] => []
  | b :: bs => if is_start b then buf else find_start bs
  end.

Definition skip_to_packet_start : G bool :=
  buf ← gets inbuf;
  _ ← modify (set_inbuf (find_start buf));
  mret (negb (bool_decide (find_start buf = []))).

Definition sniff_packet : G bool :=
  b ← skip_to_packet_start;
  if b : bool then mret true
  else
    buf ← gets inbuf;
    _ ← assert (bool_decide (buf = []));
    poll_incoming.

Section Reading.
Context `{Lib}.

(** The first loop of [read_packet]. *)
Fixpoint await_start (fuel : nat) : G unit :=
  match fuel with
  | O => spin
  | S fuel' =>
      b ← skip_to_packet_start;
      alive ← gets connection_alive_;
      if negb b && alive then _ ← read_data_once; await_start fuel' else mret tt
  end.

(** The second loop: whether the end of the packet was found. *)
Fixpoint await_end (fuel : nat) (checkedlen : nat) : G bool :=
  match fuel with
  | O => spin
  | S fuel' =>
      buf ← gets inbuf;
      match memchr 35 (drop checkedlen buf) with
      | Some p => _ ← modify (set_packetend p); mret true
      | None =>
          _ ← read_data_once;
          alive ← gets connection_alive_;
          if negb alive then mret false else await_end fuel' (length buf)
      end
  end.

(** Each turn of a loop reads once, and the socket closes after the last read. *)
Definition read_fuel (s : Conn) : nat := S (S (length (reads s))).

Definition read_packet : G unit :=
  f ← gets read_fuel;
  _ ← await_start f;
  alive ← gets connection_alive_;
  if negb alive then mret tt
  else
    buf ← gets inbuf;
    b0 ← lift (unwrap (head buf));
    if b0 =? INTERRUPT_CHAR then modify (set_packetend 1%nat)
    else
      f ← gets read_fuel;
      found ← await_end f 0%nat;
      if negb found then mret tt
      else
        buf ← gets inbuf;
        b0 ← lift (unwrap (head buf));
        _ ← assert (b0 =? 36);
        e ← gets packetend;
        _ ← assert (Nat.ltb e (length buf));
        ack ← gets no_ack;
        if ack : bool then mret tt
        else _ ← write_data_raw (lit "+"); write_flush.

End Reading.

End Conn.
