(* ===== verification/GdbParse.v ===== *)
(** Parsing of gdb packets: [process_packet], the packet families it hands on and
    [get_request] of [src/src/gdb_connection.rs]. *)

From S2P Require Import Prelude WaitStatus KernelMapping GdbText GdbRequest GdbConnection.

Module Parse.
Import Text Req Conn.

(** The target descriptions rd ships, by file name; [None] when one cannot be
    read. *)
Class Resources := { read_target_desc : list Z -> option (list Z) }.

(** ** Pieces of text *)

(** [parser_assert_eq!(c, text[0])] and the text after it. *)
Definition expect (c : Z) (text : list Z) : res (list Z) :=
  match text with b :: bs => _ ← assert_ (b =? c); Ok bs | [] => Panic end.

(** [parser_assert!(text.is_empty())]. *)
Definition at_end (text : list Z) : res unit := assert_ (bool_decide (text = [])).

Definition slice (a b : nat) (text : list Z) : res (list Z) :=
  if Nat.leb a b && Nat.leb b (length text) then Ok (take (b - a) (drop a text)) else Panic.

(** Checked conversions: [try_into().unwrap()]. *)
Definition to_i32 (v : Z) : res Z := if (- 2147483648 <=? v) && (v <? 2147483648) then Ok v else Panic.
Definition to_u32 (v : Z) : res Z := if (0 <=? v) && (v <? 4294967296) then Ok v else Panic.
Definition to_u8 (v : Z) : res Z := if (0 <=? v) && (v <? 256) then Ok v else Panic.
Definition to_u64 (v : Z) : res Z := if 0 <=? v then Ok v else Panic.
(** [GdbRegister::try_from]. *)
Definition to_register (v : Z) : res Z := if v <? DREG_NUM_LINUX_X86_64 then Ok v else Panic.

Section Parsing.
Context `{Lib}.

(** [str16_to_usize(text, &mut text).unwrap()] and its like. *)
Definition usize_at (text : list Z) : res (Z * list Z) :=
  let '(o, r) := str16_to_usize text in v ← unwrap o; Ok (v, r).
Definition isize_at (text : list Z) : res (Z * list Z) :=
  let '(o, r) := str16_to_isize text in v ← unwrap o; Ok (v, r).
Definition isize0_at (text : list Z) : res (Z * list Z) :=
  let '(o, r) := str0_to_isize text in v ← unwrap o; Ok (v, r).

(** The text before and after the first [c]. *)
Definition split_at (c : Z) (text : list Z) : option (list Z * list Z) :=
  match memchr c text with Some l => Some (take l text, drop (S l) text) | None => None end.

Definition parse_threadid (text : list Z) : res (GdbThreadId * list Z) :=
  c ← unwrap (head text);
  let multiprocess := c =? 112 in
  let text := if multiprocess then tail text else text in
  p ← isize_at text;
  pid ← to_i32 p.1;
  match p.2 with
  | [] => Ok (if multiprocess then mkThread pid (-1) else mkThread (-1) pid, [])
  | text =>
      text ← expect 46 text;
      q ← isize_at text;
      tid ← to_i32 q.1;
      Ok (mkThread pid tid, q.2)
  end.

Fixpoint read_binary_data (payload : list Z) : res (list Z) :=
  match payload with
  | [] => Ok []
  | b :: bs =>
      if b =? 125 then
        match bs with
        | [] => Panic
        | n :: ns => r ← read_binary_data ns; Ok (Z.lxor 32 n :: r)
        end
      else r ← read_binary_data bs; Ok (b :: r)
  end.

(** [u8::from_str_radix(_, 16).unwrap()] of two bytes of text; a plus sign may take
    the place of the first digit. *)
Definition hex_pair (a b : Z) : res Z :=
  if is_hex a && is_hex b then Ok (16 * digit_value a + digit_value b)
  else if (a =? 43) && is_hex b then Ok (digit_value b)
  else Panic.

Fixpoint decode_pairs (encoded : list Z) : res (list Z) :=
  match encoded with
  | a :: b :: rest =>
      c ← hex_pair a b;
      _ ← assert_ (c <? 128);
      r ← decode_pairs rest;
      Ok (c :: r)
  | _ => Ok []
  end.

Definition decode_ascii_encoded_hex_str (encoded : list Z) : res (list Z) :=
  _ ← assert_ (Nat.even (length encoded));
  decode_pairs encoded.

(** [n] bytes of two hexadecimal digits each. *)
Fixpoint hex_byte_loop (text : list Z) (n : Z) : res (list Z * list Z) :=
  if n <=? 0 then Ok ([], text)
  else
    match text with
    | x :: y :: rest =>
        v ← usize_at [x; y];
        b ← to_u8 v.1;
        _ ← at_end v.2;
        r ← hex_byte_loop rest (n - 1);
        Ok (b :: r.1, r.2)
    | _ => Panic
    end.

Fixpoint le_value (bytes : list Z) : Z :=
  match bytes with [] => 0 | b :: bs => b + 256 * le_value bs end.

(** The register value of [size] bytes. *)
Definition reg_value (size : nat) (bytes : list Z) : GdbRegisterValueData :=
  match size with
  | 1%nat => Value1 (nth 0 bytes 0)
  | 2%nat => Value2 (le_value bytes)
  | 4%nat => Value4 (le_value bytes)
  | 8%nat => Value8 (le_value bytes)
  | _ => ValueGeneric (bytes ++ repeat 0 (MAX_SIZE - size))
  end.

(** [read_reg_value]: the new value and the text left. *)
Definition read_reg_value (text : list Z) (reg : GdbRegisterValue) : res (GdbRegisterValue * list Z) :=
  c ← unwrap (head text);
  if c =? 120 then Ok (mkReg (name reg) (value reg) false 0, text)
  else
    _ ← assert_ (Nat.even (length text));
    let size := Nat.div2 (length text) in
    r ← hex_byte_loop text (Z.of_nat size);
    _ ← assert_ (Nat.leb size MAX_SIZE);
    Ok (mkReg (name reg) (reg_value size r.1) true size, r.2).

(** [gdb_open_flags_to_system_flags]. *)
Definition bit (flags mask value : Z) : Z := if Z.land flags mask =? 0 then 0 else value.

Definition gdb_open_flags_to_system_flags (flags : Z) : res Z :=
  let access := Z.land flags 3 in
  _ ← assert_ (access <? 3);
  _ ← assert_ (Z.land flags (Z.lnot (Z.lor 3 (Z.lor 8 (Z.lor 0x200 (Z.lor 0x400 0x800))))) =? 0);
  Ok (Z.lor access (Z.lor (bit flags 8 1024) (Z.lor (bit flags 0x200 64)
       (Z.lor (bit flags 0x400 512) (bit flags 0x800 128))))).

(** ** Starting a request *)

Definition request (t : Z) : G unit := r ← lift (new t); modify (set_req r).

(** Change the current request. *)
Definition change (f : GdbRequest -> res GdbRequest) : G unit :=
  r ← gets req; r ← lift (f r); modify (set_req r).

Definition set_target (t : GdbThreadId) : G unit := change (fun r => Ok (with_target t r)).

Definition target_query : G unit := q ← gets query_thread; set_target q.

(** Reply and be done. *)
Definition reply_done (data : list Z) : G bool := _ ← write_packet_bytes data; mret false.

(** [unhandled_req!]. *)
Definition unhandled_req : G bool := reply_done [].

(** ** [qXfer] *)

Context `{Resources}.

Definition CPU_64BIT : Z := 1.
Definition CPU_AVX : Z := 2.

Definition target_description_name (cpu_features : Z) : res (list Z) :=
  if cpu_features =? 0 then Ok (lit "i386-linux.xml")
  else if cpu_features =? CPU_64BIT then Ok (lit "amd64-linux.xml")
  else if cpu_features =? CPU_AVX then Ok (lit "i386-avx-linux.xml")
  else if cpu_features =? Z.lor CPU_64BIT CPU_AVX then Ok (lit "amd64-avx-linux.xml")
  else Fatal.

Definition xfer (name args : list Z) : G bool :=
  ma ← lift (unwrap (split_at 58 args));
  let mode := ma.1 in
  let is_read := bytes_eqb mode (lit "read") in
  if negb is_read && negb (bytes_eqb mode (lit "write")) then reply_done []
  else
    aa ← lift (unwrap (split_at 58 ma.2));
    let annex := aa.1 in
    off ← lift (usize_at aa.2);
    let offset := off.1 in
    len ← lift (if is_read
                then r ← expect 44 off.2; l ← usize_at r; _ ← at_end l.2; Ok l.1
                else _ ← expect 58 off.2; Ok 0);
    if bytes_eqb name (lit "auxv") then
      if negb (bytes_eqb annex []) then reply_done (lit "E00")
      else if negb is_read then reply_done []
      else _ ← request DREQ_GET_AUXV; _ ← target_query; mret true
    else if bytes_eqb name (lit "exec-file") then
      if negb is_read then reply_done []
      else
        _ ← request DREQ_GET_EXEC_FILE;
        v ← lift (usize_at annex);
        t ← lift (to_i32 v.1);
        _ ← set_target (mkThread t t);
        mret true
    else if bytes_eqb name (lit "siginfo") then
      if negb (bytes_eqb annex []) then reply_done (lit "E00")
      else if is_read then
        _ ← request DREQ_READ_SIGINFO;
        _ ← target_query;
        _ ← change (mem_mut (fun m => mkMem offset len (m_data m)));
        mret true
      else _ ← request DREQ_WRITE_SIGINFO; _ ← target_query; mret true
    else if bytes_eqb name (lit "features") then
      if negb is_read then reply_done []
      else
        cpu ← gets cpu_features_;
        filename ← lift (if negb (bytes_eqb annex []) && negb (bytes_eqb annex (lit "target.xml"))
                         then Ok annex else target_description_name cpu);
        desc ← lift (unwrap (read_target_desc filename));
        _ ← write_xfer_response desc offset len;
        mret false
    else reply_done [].

End Parsing.

End Parse.
