(* ===== verification/GdbPackets.v ===== *)
(** The packets of gdb: [query], [set_var], [process_vpacket], [process_bpacket],
    [process_packet] and [get_request] of [src/src/gdb_connection.rs]. *)

From Stdlib Require Import Ascii.
From S2P Require Import Prelude WaitStatus KernelMapping GdbText GdbRequest GdbConnection GdbParse.

Module Packets.
Import Text Req Conn Parse.

Section Packets.
Context `{Lib} `{Resources}.

(** ** Queries: [q] packets *)

(** The reply to [qSupported]. *)
Definition supported (reverse : bool) : list Z :=
  lit "PacketSize=1048576;QStartNoAckMode+;qXfer:features:read+;qXfer:auxv:read+;qXfer:exec-file:read+;qXfer:siginfo:read+;qXfer:siginfo:write+;multiprocess+;ConditionalBreakpoints+;vContSupported+"
  ++ (if reverse then lit ";ReverseContinue+;ReverseStep+" else []).

Definition query_tls (args : list Z) : G bool :=
  _ ← request DREQ_TLS;
  t ← lift (parse_threadid args);
  _ ← set_target t.1;
  o ← lift (r ← expect 44 t.2; usize_at r);
  m ← lift (r ← expect 44 o.2; usize_at r);
  _ ← lift (at_end m.2);
  _ ← change (tls_mut (fun _ => mkTls o.1 m.1));
  mret true.

Definition query_symbol (args : list Z) : G bool :=
  _ ← lift (unwrap (memchr 58 args));
  _ ← request DREQ_QSYMBOL;
  c ← lift (unwrap (head args));
  a ← (if c =? 58 then
         _ ← change (sym_mut (fun s => mkSymbol false (s_address s) (s_name s))); mret args
       else
         a ← lift (usize_at args);
         _ ← change (sym_mut (fun s => mkSymbol true a.1 (s_name s)));
         mret a.2);
  r ← lift (expect 58 a);
  n ← lift (decode_ascii_encoded_hex_str r);
  _ ← change (sym_mut (fun s => mkSymbol (has_address s) (s_address s) n));
  mret true.

Definition query_search (args : list Z) : G bool :=
  match split_at 58 args with
  | Some (name, args) =>
      if bytes_eqb name (lit "memory") then
        _ ← request DREQ_SEARCH_MEM;
        _ ← target_query;
        a ← lift (usize_at args);
        l ← lift (r ← expect 59 a.2; usize_at r);
        d ← lift (r ← expect 59 l.2; read_binary_data r);
        _ ← change (mem_mut (fun _ => mkMem a.1 l.1 d));
        mret true
      else reply_done []
  | None => reply_done []
  end.

Definition query (payload : list Z) : G bool :=
  let '(name, maybe_args) := match split_at 58 payload with
                             | Some (n, a) => (n, Some a)
                             | None => (payload, None)
                             end in
  if bytes_eqb name (lit "RDCmd") then
    _ ← request DREQ_RD_CMD;
    a ← lift (unwrap maybe_args);
    _ ← change (text_mut (fun _ => a));
    mret true
  else if bytes_eqb name (lit "C") then _ ← request DREQ_GET_CURRENT_THREAD; mret true
  else if bytes_eqb name (lit "Attached") then reply_done (lit "1")
  else if bytes_eqb name (lit "fThreadInfo") then _ ← request DREQ_GET_THREAD_LIST; mret true
  else if bytes_eqb name (lit "sThreadInfo") then reply_done (lit "l")
  else if bytes_eqb name (lit "GetTLSAddr") then a ← lift (unwrap maybe_args); query_tls a
  else if bytes_eqb name (lit "Offsets") then _ ← request DREQ_GET_OFFSETS; _ ← target_query; mret true
  else
    c ← lift (unwrap (head name));
    if c =? 80 then reply_done []
    else if bytes_eqb name (lit "Supported") then
      a ← lift (unwrap maybe_args);
      _ ← modify (set_multiprocess_supported (bool_decide (is_Some (KMap.find a (lit "multiprocess+")))));
      rev ← gets reverse_execution;
      reply_done (supported rev)
    else if bytes_eqb name (lit "Symbol") then a ← lift (unwrap maybe_args); query_symbol a
    else if KMap.starts_with name (lit "ThreadExtraInfo") then
      _ ← assert (bool_decide (maybe_args = None));
      a ← lift (unwrap (split_at 44 payload));
      _ ← request DREQ_GET_THREAD_EXTRA_INFO;
      t ← lift (parse_threadid a.2);
      _ ← set_target t.1;
      _ ← lift (at_end t.2);
      mret true
    else if bytes_eqb name (lit "TStatus") then reply_done []
    else if bytes_eqb name (lit "Xfer") then
      a ← lift (unwrap maybe_args);
      na ← lift (unwrap (split_at 58 a));
      xfer na.1 na.2
    else if bytes_eqb name (lit "Search") then a ← lift (unwrap maybe_args); query_search a
    else unhandled_req.

(** ** Settings: [Q] packets *)

Definition set_var (payload : list Z) : G bool :=
  let name := match split_at 58 payload with Some (n, _) => n | None => payload end in
  if bytes_eqb name (lit "StartNoAckMode") then
    _ ← write_packet_bytes (lit "OK");
    _ ← modify (set_no_ack true);
    mret false
  else unhandled_req.

(** ** [v] packets *)

(** One action of [vCont]: the command, its target ([None] for all threads) and
    the text after the next semicolon. *)
Definition cont_item (args : list Z) : res (list Z * option GdbThreadId * list Z) :=
  let '(cmd, args) := take_while (fun c => negb (c =? 58) && negb (c =? 59)) args in
  t ← match args with
      | c :: rest =>
          if c =? 58 then t ← parse_threadid rest; Ok (Some t.1, t.2) else Ok (None, args)
      | [] => Ok (None, [])
      end;
  _ ← assert_ (negb (bool_decide (cmd = [])));
  Ok (cmd, t.1, match split_at 59 t.2 with Some (_, a) => a | None => [] end).

Inductive Command :=
| Command_ok (action : GdbActionType) (sig : option Signals.Sig)
| Command_unhandled.

Definition cont_command (cmd : list Z) : res Command :=
  match cmd with
  | [] => Panic
  | c :: sig =>
      let with_sig action :=
        v ← usize_at sig;
        Ok (if bool_decide (v.2 = []) then Command_ok action (Signals.try_from_usize v.1)
            else Command_unhandled) in
      if c =? 67 then with_sig ActionContinue
      else if c =? 99 then Ok (Command_ok ActionContinue None)
      else if c =? 83 then with_sig ActionStep
      else if c =? 115 then Ok (Command_ok ActionStep None)
      else Ok Command_unhandled
  end.

(** The loop over the actions; [None] when a command is not handled. *)
Fixpoint cont_loop (fuel : nat) (args : list Z) (acts : list GdbContAction) (def : option GdbContAction)
  : res (option (list GdbContAction * option GdbContAction)) :=
  match args with
  | [] => Ok (Some (acts, def))
  | _ =>
      match fuel with
      | O => Spin
      | S fuel' =>
          i ← cont_item args;
          let '(cmd, target, rest) := i in
          c ← cont_command cmd;
          match c with
          | Command_unhandled => Ok None
          | Command_ok action sig =>
              match target, def with
              | None, Some _ => Ok None
              | None, None => cont_loop fuel' rest acts (Some (new_action (Some action) (Some ALL) sig))
              | Some t, _ => cont_loop fuel' rest (acts ++ [new_action (Some action) (Some t) sig]) def
              end
          end
      end
  end.

Definition vpacket_cont (args : list Z) : G bool :=
  r ← lift (cont_loop (S (length args)) args [] None);
  match r : option (list GdbContAction * option GdbContAction) with
  | None => unhandled_req
  | Some (acts, def) =>
      _ ← request DREQ_CONT;
      _ ← change (cont_mut (fun _ => mkCont RunForward (acts ++ option_list def)));
      mret true
  end.

Definition vpacket_run (args : list Z) : G bool :=
  _ ← request DREQ_RESTART;
  let '(filename, args) := match split_at 59 args with Some (f, a) => (f, a) | None => (args, args) end in
  if negb (bool_decide (filename = [])) then lift Fatal
  else if bool_decide (args = []) then
    _ ← change (restart_mut (fun r => mkRestart (r_param r) (r_param_str r) RestartFromPrevious)); mret true
  else
    let arg1 := match split_at 59 args with Some (a, _) => a | None => args end in
    event_str ← lift (decode_ascii_encoded_hex_str arg1);
    c ← lift (unwrap (head event_str));
    endp ← (if c =? 99 then
              let strb := tail event_str in
              p ← lift (isize0_at strb);
              _ ← change (restart_mut (fun _ => mkRestart (Z.max 0 p.1) strb RestartFromCheckpoint));
              mret p.2
            else
              p ← lift (isize0_at event_str);
              v ← lift (to_u64 p.1);
              _ ← change (restart_mut (fun r => mkRestart v (r_param_str r) RestartFromEvent));
              mret p.2);
    _ ← (if bool_decide (endp = []) then mret tt
         else change (restart_mut (fun r => mkRestart (USIZE - 1) (r_param_str r) RestartFromPrevious)));
    mret true.

Definition vfile_open (operation : list Z) : G bool :=
  loc ← lift (unwrap (memchr 44 operation));
  file_name ← lift (slice 5 loc operation);
  _ ← request DREQ_FILE_OPEN;
  n ← lift (decode_ascii_encoded_hex_str file_name);
  f ← lift (f ← usize_at (drop (S loc) operation); flags ← to_i32 f.1; r ← expect 44 f.2; Ok (flags, r));
  flags ← lift (gdb_open_flags_to_system_flags f.1);
  m ← lift (isize_at f.2);
  mode ← lift (to_i32 m.1);
  _ ← lift (at_end m.2);
  _ ← assert (Z.land mode (Z.lnot 511) =? 0);
  _ ← change (file_open_mut (fun _ => mkOpen n flags mode));
  mret true.

Definition vfile_close (operation : list Z) : G bool :=
  f ← lift (isize_at (drop 6 operation));
  fd ← lift (to_i32 f.1);
  _ ← lift (at_end f.2);
  _ ← request DREQ_FILE_CLOSE;
  _ ← change (file_close_mut (fun _ => mkClose fd));
  mret true.

Definition vfile_pread (operation : list Z) : G bool :=
  f ← lift (isize_at (drop 6 operation));
  fd ← lift (to_i32 f.1);
  r ← lift (expect 44 f.2);
  _ ← request DREQ_FILE_PREAD;
  s ← lift (isize_at r);
  r ← lift (expect 44 s.2);
  _ ← assert (0 <=? s.1);
  o ← lift (isize_at r);
  _ ← lift (at_end o.2);
  _ ← assert (0 <=? o.1);
  _ ← change (file_pread_mut (fun _ => mkPread fd s.1 o.1));
  mret true.

Definition vfile_setfs (operation : list Z) : G bool :=
  p ← lift (isize_at (drop 6 operation));
  pid ← lift (to_i32 p.1);
  _ ← lift (at_end p.2);
  _ ← request DREQ_FILE_SETFS;
  _ ← change (file_setfs_mut (fun _ => mkSetfs pid));
  mret true.

Definition process_vpacket (payload : list Z) : G bool :=
  let '(name, maybe_args) := match split_at 59 payload with
                             | Some (n, a) => (n, Some a)
                             | None => (payload, None)
                             end in
  if bytes_eqb name (lit "Cont") then a ← lift (unwrap maybe_args); vpacket_cont a
  else if bytes_eqb name (lit "Cont?") then reply_done (lit "vCont;c;C;s;S;")
  else if bytes_eqb name (lit "Kill") then reply_done (lit "OK")
  else if bytes_eqb name (lit "Run") then a ← lift (unwrap maybe_args); vpacket_run a
  else if KMap.starts_with name (lit "File:") then
    let operation := drop 5 payload in
    if KMap.starts_with operation (lit "open:") then vfile_open operation
    else if KMap.starts_with operation (lit "close:") then vfile_close operation
    else if KMap.starts_with operation (lit "pread:") then vfile_pread operation
    else if KMap.starts_with operation (lit "setfs:") then vfile_setfs operation
    else reply_done []
  else unhandled_req.

(** ** [b] packets *)

Definition resume_backward (action : GdbActionType) : G bool :=
  _ ← request DREQ_CONT;
  t ← gets resume_thread;
  _ ← change (cont_mut (fun c => mkCont RunBackward (actions c ++ [new_action (Some action) (Some t) None])));
  mret true.

Definition process_bpacket (payload : list Z) : G bool :=
  if bytes_eqb payload (lit "c") then resume_backward ActionContinue
  else if bytes_eqb payload (lit "s") then resume_backward ActionStep
  else unhandled_req.

(** ** The other packets *)

Definition packet_continue : G bool :=
  _ ← request DREQ_CONT;
  _ ← change (cont_mut (fun c => mkCont RunForward (actions c ++ [new_action (Some ActionContinue) None None])));
  mret true.

Definition packet_select_thread (payload : list Z) : G bool :=
  c ← lift (unwrap (head payload));
  _ ← request (if c =? 99 then DREQ_SET_CONTINUE_THREAD else DREQ_SET_QUERY_THREAD);
  t ← lift (parse_threadid (tail payload));
  _ ← set_target t.1;
  _ ← lift (at_end t.2);
  mret true.

Definition packet_get_mem (payload : list Z) : G bool :=
  _ ← request DREQ_GET_MEM;
  _ ← target_query;
  a ← lift (usize_at payload);
  r ← lift (expect 44 a.2);
  l ← lift (usize_at r);
  _ ← change (mem_mut (fun m => mkMem a.1 l.1 (m_data m)));
  _ ← lift (at_end l.2);
  mret true.

(** The register number of a [p] or [P] packet. *)
Definition reg_number (payload : list Z) : res (Z * list Z) :=
  n ← usize_at payload; num ← to_u32 n.1; num ← to_register num; Ok (num, n.2).

Definition packet_get_reg (payload : list Z) : G bool :=
  _ ← request DREQ_GET_REG;
  _ ← target_query;
  n ← lift (reg_number payload);
  _ ← change (reg_mut (fun g => mkReg n.1 (value g) (defined g) (size g)));
  _ ← lift (at_end n.2);
  mret true.

Definition packet_set_reg (payload : list Z) : G bool :=
  _ ← request DREQ_SET_REG;
  _ ← target_query;
  n ← lift (reg_number payload);
  _ ← change (reg_mut (fun g => mkReg n.1 (value g) (defined g) (size g)));
  r ← lift (expect 61 n.2);
  q ← gets req;
  g ← lift (reg q);
  v ← lift (read_reg_value r g);
  _ ← change (reg_mut (fun _ => v.1));
  _ ← lift (at_end v.2);
  mret true.

Definition packet_thread_alive (payload : list Z) : G bool :=
  _ ← request DREQ_GET_IS_THREAD_ALIVE;
  t ← lift (parse_threadid payload);
  _ ← set_target t.1;
  _ ← lift (at_end t.2);
  mret true.

Definition packet_set_mem (payload : list Z) : G bool :=
  _ ← request DREQ_SET_MEM;
  _ ← target_query;
  a ← lift (usize_at payload);
  r ← lift (expect 44 a.2);
  l ← lift (usize_at r);
  r ← lift (expect 58 l.2);
  d ← lift (read_binary_data r);
  _ ← change (mem_mut (fun _ => mkMem a.1 l.1 d));
  _ ← assert (l.1 =? Z.of_nat (length d));
  mret true.

(** The conditions of a breakpoint: [X len,bytes] any number of times. *)
Fixpoint conditions_loop (fuel : nat) (text : list Z) : res (list (list Z) * list Z) :=
  match text with
  | 88 :: text =>
      match fuel with
      | O => Spin
      | S fuel' =>
          l ← usize_at text;
          r ← expect 44 l.2;
          b ← hex_byte_loop r l.1;
          c ← conditions_loop fuel' b.2;
          Ok (b.1 :: c.1, c.2)
      end
  | _ => Ok ([], text)
  end.

Definition conditions (text : list Z) : res (list (list Z) * list Z) :=
  match text with
  | 59 :: text => conditions_loop (length text) text
  | _ => Ok ([], text)
  end.

Definition packet_watch (set : bool) (payload : list Z) : G bool :=
  t ← lift (usize_at payload);
  ty ← lift (to_u32 t.1);
  r ← lift (expect 44 t.2);
  if 4 <? ty then reply_done []
  else
    _ ← request (ty + if set then DREQ_SET_SW_BREAK else DREQ_REMOVE_SW_BREAK);
    a ← lift (usize_at r);
    r ← lift (expect 44 a.2);
    k ← lift (usize_at r);
    c ← lift (conditions k.2);
    _ ← change (watch_mut (fun _ => mkWatch a.1 k.1 c.1));
    _ ← lift (at_end c.2);
    mret true.

(** The match of [process_packet] on the request character. *)
Definition dispatch (c : Z) (payload : list Z) : G bool :=
  if c =? byte_of "b" then process_bpacket payload
  else if c =? byte_of "c" then packet_continue
  else if c =? byte_of "D" then _ ← request DREQ_DETACH; mret true
  else if c =? byte_of "g" then _ ← request DREQ_GET_REGS; _ ← target_query; mret true
  else if c =? byte_of "G" then reply_done []
  else if c =? byte_of "H" then packet_select_thread payload
  else if c =? byte_of "k" then _ ← write_packet_bytes (lit "OK"); exit
  else if c =? byte_of "m" then packet_get_mem payload
  else if c =? byte_of "M" then reply_done []
  else if c =? byte_of "p" then packet_get_reg payload
  else if c =? byte_of "P" then packet_set_reg payload
  else if c =? byte_of "q" then query payload
  else if c =? byte_of "Q" then set_var payload
  else if c =? byte_of "T" then packet_thread_alive payload
  else if c =? byte_of "v" then process_vpacket payload
  else if c =? byte_of "X" then packet_set_mem payload
  else if c =? byte_of "z" then packet_watch false payload
  else if c =? byte_of "Z" then packet_watch true payload
  else if c =? byte_of "!" then reply_done (lit "OK")
  else if c =? byte_of "?" then _ ← request DREQ_GET_STOP_REASON; _ ← target_query; mret true
  else unhandled_req.

Definition process_packet : G bool :=
  buf ← gets inbuf;
  b0 ← lift (unwrap (head buf));
  e ← gets packetend;
  _ ← (if b0 =? INTERRUPT_CHAR then mret tt
       else
         _ ← assert (b0 =? 36);
         p ← lift (unwrap (memchr 35 buf));
         assert (Nat.eqb p e));
  if b0 =? INTERRUPT_CHAR then
    _ ← request DREQ_INTERRUPT;
    _ ← modify (set_inbuf (tail buf));
    mret true
  else
    c ← lift (unwrap (buf !! 1%nat));
    payload ← lift (slice 2 e buf);
    ret ← dispatch c payload;
    _ ← modify (fun s => set_inbuf (drop (S e) (inbuf s)) s);
    _ ← (if ret : bool then mret tt else consume_request);
    mret ret.

(** ** [get_request] *)

Definition notify_restart : G unit :=
  r ← gets req;
  _ ← assert (type_ r =? DREQ_RESTART);
  _ ← modify (set_resume_thread ANY);
  _ ← modify (set_query_thread ANY);
  request DREQ_NONE.

Fixpoint request_loop (fuel : nat) : G GdbRequest :=
  match fuel with
  | O => spin
  | S fuel' =>
      _ ← read_packet;
      alive ← gets connection_alive_;
      if negb alive then _ ← request DREQ_DETACH; gets req
      else
        b ← process_packet;
        if b : bool then gets req else request_loop fuel'
  end.

(** A turn of the loop takes at least one byte of input or ends it. *)
Fixpoint pending (rs : list (option (list Z))) : nat :=
  match rs with [] => 0 | r :: rs => length (default [] r) + pending rs end.
Definition input_size (s : Conn) : nat := length (inbuf s) + pending (reads s).

Definition get_request : G GdbRequest :=
  r ← gets req;
  if type_ r =? DREQ_RESTART then
    _ ← notify_restart;
    _ ← request DREQ_GET_STOP_REASON;
    _ ← target_query;
    gets req
  else
    _ ← assert (negb (request_needs_immediate_response r));
    sniffed ← sniff_packet;
    if negb sniffed && is_resume_request r then mret r
    else n ← gets input_size; request_loop (S n).


End Packets.

End Packets.
