(* ===== verification/GdbReplies.v ===== *)
(** Notifications and replies to gdb: the [notify_*], [reply_*] and [send_*] operations
    of [src/src/gdb_connection.rs]. *)

From S2P Require Import Prelude WaitStatus GdbText GdbRequest GdbConnection GdbParse.

Module Replies.
Import Text Req Conn Parse.

(** [debug_assert_eq!(t, self.req.type_)]. *)
Definition expects (t : Z) : G unit := r ← gets req; assert (type_ r =? t).

(** Send a packet and be done with the request. *)
Definition answer (data : list Z) : G unit := _ ← write_packet_bytes data; consume_request.

Definition answer_ok (ok : bool) : G unit := answer (if ok then lit "OK" else lit "E01").

(** ** Formatting *)

Definition to_gdb_signum (maybe_sig : option Signals.Sig) : Z :=
  match maybe_sig with
  | None => 0
  | Some sig =>
      match Signals.as_raw sig with
      | 1 => 1 | 2 => 2 | 3 => 3 | 4 => 4 | 5 => 5 | 6 => 6
      | 7 => 10 | 8 => 8 | 9 => 9 | 10 => 30 | 11 => 11 | 12 => 31
      | 13 => 13 | 14 => 14 | 15 => 15 | 16 => 38 | 17 => 20 | 18 => 19
      | 19 => 17 | 20 => 18 | 21 => 21 | 22 => 22 | 23 => 16 | 24 => 24
      | 25 => 25 | 26 => 26 | 27 => 27 | 28 => 28 | 29 => 23 | 30 => 32
      | 31 => 12 | 32 => 77
      | s =>
          if (33 <=? s) && (s <=? 63) then s + 12
          else if (64 <=? s) && (s <=? 127) then s + 14
          else 143
      end
  end.

Fixpoint le_bytes (k : nat) (v : Z) : list Z :=
  match k with O => [] | S k' => v mod 256 :: le_bytes k' (v / 256) end.

Definition print_reg_value (reg : GdbRegisterValue) : res (list Z) :=
  _ ← assert_ (Nat.leb (size reg) MAX_SIZE);
  Ok (if defined reg then
        match value reg with
        | ValueGeneric v => hex_bytes (take (size reg) v)
        | Value1 v => fmt_02x v
        | Value2 v => hex_bytes (le_bytes 2 v)
        | Value4 v => hex_bytes (le_bytes 4 v)
        | Value8 v => hex_bytes (le_bytes 8 v)
        end
      else concat (repeat (lit "xx") (size reg))).

(** A thread id in a stop reply or a thread list. *)
Definition fmt_thread (multiprocess : bool) (t : GdbThreadId) : list Z :=
  if multiprocess then lit "p" ++ fmt_pid (pid t) ++ lit "." ++ fmt_pid (tid t) else fmt_pid (tid t).

Definition send_stop_reply_packet (thread : GdbThreadId) (maybe_sig : option Signals.Sig) (watch_addr : Z)
  : G unit :=
  mp ← gets multiprocess_supported_;
  write_packet_bytes (lit "T" ++ fmt_02x (to_gdb_signum maybe_sig) ++ lit "thread:" ++ fmt_thread mp thread
    ++ lit ";" ++ (if watch_addr =? 0 then [] else lit "watch:" ++ fmt_x watch_addr ++ lit ";")).

(** The errno gdb knows for one of the system's. *)
Definition gdb_errno (e : Z) : Z :=
  match e with
  | 1 => 1 | 2 => 2 | 4 => 4 | 9 => 9 | 13 => 13 | 14 => 14 | 16 => 16 | 17 => 17 | 19 => 19
  | 20 => 20 | 21 => 21 | 22 => 22 | 23 => 23 | 24 => 24 | 27 => 27 | 28 => 28 | 29 => 29 | 30 => 30
  | 36 => 91
  | _ => 9999
  end.

Definition send_file_error_reply (system_errno : Z) : G unit :=
  write_packet_bytes (lit "F-01," ++ fmt_x (gdb_errno system_errno)).

(** ** Notifications *)

(** [same] is whether the request given is the current one. *)
Definition notify_no_such_thread (same : bool) : G unit :=
  _ ← assert same; answer (lit "E10").

Definition resuming : G unit :=
  r ← gets req; assert (is_resume_request r || (type_ r =? DREQ_INTERRUPT)).

Definition notify_exit_code (code : Z) : G unit := _ ← resuming; answer (lit "W" ++ fmt_02x code).

Definition notify_exit_signal (sig : Signals.Sig) : G unit :=
  _ ← resuming; answer (lit "X" ++ fmt_02x (Signals.as_raw sig)).

Definition notify_stop (thread : GdbThreadId) (maybe_sig : option Signals.Sig) (watch_addr : Z) : G unit :=
  _ ← resuming;
  tg ← gets tgid;
  if negb (tg =? pid thread) then mret tt
  else
    _ ← send_stop_reply_packet thread maybe_sig watch_addr;
    r ← gets req;
    backward ← (if is_resume_request r
                then c ← lift (cont r);
                     mret (match run_direction c with RunBackward => true | RunForward => false end)
                else mret false);
    let t := if backward : bool then ANY else thread in
    _ ← modify (set_resume_thread t);
    _ ← modify (set_query_thread t);
    consume_request.

Definition notify_restart_failed : G unit := _ ← expects DREQ_RESTART; answer (lit "E01").

(** ** Replies *)

Definition reply_get_current_thread (thread : GdbThreadId) : G unit :=
  _ ← expects DREQ_GET_CURRENT_THREAD;
  mp ← gets multiprocess_supported_;
  answer (lit "QC" ++ fmt_thread mp thread).

Definition reply_get_auxv (auxv : list Z) : G unit :=
  _ ← expects DREQ_GET_AUXV;
  _ ← (if bool_decide (auxv = []) then write_packet_bytes (lit "E01")
       else write_binary_packet (lit "l") auxv);
  consume_request.

Definition reply_get_exec_file (exec_file : list Z) : G unit :=
  _ ← expects DREQ_GET_EXEC_FILE;
  _ ← (if bool_decide (exec_file = []) then write_packet_bytes (lit "E01")
       else write_binary_packet (lit "l") exec_file);
  consume_request.

Definition reply_get_is_thread_alive (alive : bool) : G unit :=
  _ ← expects DREQ_GET_IS_THREAD_ALIVE; answer_ok alive.

Definition reply_get_thread_extra_info (info : list Z) : G unit :=
  _ ← expects DREQ_GET_THREAD_EXTRA_INFO;
  _ ← write_hex_bytes_packet info;
  consume_request.

Definition reply_select_thread (ok : bool) : G unit :=
  r ← gets req;
  _ ← assert ((type_ r =? DREQ_SET_CONTINUE_THREAD) || (type_ r =? DREQ_SET_QUERY_THREAD));
  _ ← (if ok && (type_ r =? DREQ_SET_CONTINUE_THREAD) then modify (set_resume_thread (target r))
       else if ok && (type_ r =? DREQ_SET_QUERY_THREAD) then modify (set_query_thread (target r))
       else mret tt);
  answer_ok ok.

Definition reply_get_mem (bytes : list Z) : G unit :=
  _ ← expects DREQ_GET_MEM;
  r ← gets req;
  m ← lift (mem r);
  _ ← assert (Z.of_nat (length bytes) <=? m_len m);
  _ ← (if (0 <? m_len m) && bool_decide (bytes = []) then write_packet_bytes (lit "E01")
       else write_hex_bytes_packet bytes);
  consume_request.

Definition reply_set_mem (ok : bool) : G unit := _ ← expects DREQ_SET_MEM; answer_ok ok.

Definition reply_search_mem (found : bool) (addr : Z) : G unit :=
  _ ← expects DREQ_SEARCH_MEM;
  answer (if found then lit "1," ++ fmt_x addr else lit "0").

Definition reply_get_offsets : G unit := _ ← expects DREQ_GET_OFFSETS; answer [].

Definition reply_get_reg (reg : GdbRegisterValue) : G unit :=
  _ ← expects DREQ_GET_REG;
  b ← lift (print_reg_value reg);
  answer b.

Fixpoint print_regs (file : list GdbRegisterValue) : res (list Z) :=
  match file with
  | [] => Ok []
  | reg :: rest => b ← print_reg_value reg; bs ← print_regs rest; Ok (b ++ bs)
  end.

Definition reply_get_regs (file : list GdbRegisterValue) : G unit :=
  _ ← expects DREQ_GET_REGS;
  b ← lift (print_regs file);
  answer b.

Definition reply_set_reg (ok : bool) : G unit :=
  _ ← expects DREQ_SET_REG; answer (if ok then lit "OK" else []).

Definition reply_get_stop_reason (which : GdbThreadId) (maybe_sig : option Signals.Sig) : G unit :=
  _ ← expects DREQ_GET_STOP_REASON;
  _ ← send_stop_reply_packet which maybe_sig 0;
  consume_request.

(** The thread list with a comma after each thread. *)
Definition thread_list (multiprocess : bool) (tg : Z) (threads : list GdbThreadId) : list Z :=
  concat (map (fun t => if tg =? pid t then fmt_thread multiprocess t ++ lit "," else []) threads).

Definition reply_get_thread_list (threads : list GdbThreadId) : G unit :=
  _ ← expects DREQ_GET_THREAD_LIST;
  mp ← gets multiprocess_supported_;
  tg ← gets tgid;
  answer (if bool_decide (threads = []) then lit "l"
          else let buf := lit "m" ++ thread_list mp tg threads in take (length buf - 1) buf).

Definition reply_watchpoint_request (ok : bool) : G unit :=
  r ← gets req;
  _ ← assert ((DREQ_WATCH_FIRST <=? type_ r) && (type_ r <=? DREQ_WATCH_LAST));
  answer_ok ok.

Definition reply_detach : G unit :=
  r ← gets req; _ ← assert (DREQ_DETACH <=? type_ r); answer (lit "OK").

Definition reply_read_siginfo (si_bytes : list Z) : G unit :=
  _ ← expects DREQ_READ_SIGINFO;
  _ ← (if bool_decide (si_bytes = []) then write_packet_bytes (lit "E01")
       else write_binary_packet (lit "l") si_bytes);
  consume_request.

Definition reply_write_siginfo : G unit := _ ← expects DREQ_WRITE_SIGINFO; answer (lit "E01").

Definition reply_rd_cmd (text : list Z) : G unit := _ ← expects DREQ_RD_CMD; answer text.

Definition send_qsymbol (name : list Z) : G unit :=
  _ ← expects DREQ_QSYMBOL;
  _ ← write_hex_bytes_packet_with_prefix (lit "qSymbol:") name;
  consume_request.

Definition qsymbols_finished : G unit := _ ← expects DREQ_QSYMBOL; answer (lit "OK").

Definition reply_tls_addr (maybe_addr : option Z) : G unit :=
  _ ← expects DREQ_TLS;
  answer (match maybe_addr with Some addr => fmt_x addr ++ lit ";" | None => lit "E01" end).

(** A reply to a file request: an error, or something else. *)
Definition file_reply (err : Z) (ok : G unit) : G unit :=
  _ ← (if err =? 0 then ok else send_file_error_reply err);
  consume_request.

Definition reply_setfs (err : Z) : G unit :=
  _ ← expects DREQ_FILE_SETFS; file_reply err (write_packet_bytes (lit "F0")).

Definition reply_open (fd err : Z) : G unit :=
  _ ← expects DREQ_FILE_OPEN; file_reply err (write_packet_bytes (lit "F" ++ fmt_x (wrap 32 fd))).

Definition reply_pread (bytes : list Z) (err : Z) : G unit :=
  _ ← expects DREQ_FILE_PREAD;
  file_reply err
    (write_binary_packet (lit "F" ++ fmt_x (Z.of_nat (length bytes)) ++ lit ";") bytes).

Definition reply_close (err : Z) : G unit :=
  _ ← expects DREQ_FILE_CLOSE; file_reply err (write_packet_bytes (lit "F0")).

End Replies.
