(* ===== verification/GdbTextProofs.v ===== *)
(** Printed numbers are read back, and escaped data is unescaped. *)

From S2P Require Import Prelude GdbText GdbRequest GdbConnection GdbParse.

Module TextProofs.
Import Text Conn Parse.

(** ** Digits *)

(** Decide comparisons of integers. *)
Ltac cmp :=
  repeat match goal with
  | |- context [?a <=? ?b] => destruct (Z.leb_spec a b)
  | |- context [?a <? ?b] => destruct (Z.ltb_spec a b)
  | |- context [?a =? ?b] => destruct (Z.eqb_spec a b)
  end; simpl; try done; try lia.

Lemma is_hex_digit d : 0 <= d < 16 -> is_hex (hex_digit d) = true.
Proof. intros Hd. unfold is_hex, in_range, hex_digit. destruct (Z.ltb_spec d 10); cmp. Qed.

Lemma digit_value_digit d : 0 <= d < 16 -> digit_value (hex_digit d) = d.
Proof. intros Hd. unfold digit_value, in_range, hex_digit. destruct (Z.ltb_spec d 10); cmp. Qed.

Lemma is_hex_range c : is_hex c = true -> 48 <= c <= 57 \/ 97 <= c <= 102 \/ 65 <= c <= 70.
Proof. unfold is_hex, in_range. cmp; intros; lia. Qed.

Lemma skip_space_hex c t : is_hex c = true -> skip_space (c :: t) = c :: t.
Proof.
  intros Hc%is_hex_range. cbn [skip_space]. unfold is_ascii_space, is_space2, is_space3, in_range.
  replace (9 <=? c) with true by (symmetry; apply Z.leb_le; lia).
  replace (c <=? 13) with false by (symmetry; apply Z.leb_gt; lia).
  replace (c =? 32) with false by (symmetry; apply Z.eqb_neq; lia).
  replace (c =? 0xC2) with false by (symmetry; apply Z.eqb_neq; lia).
  replace (c =? 0xE1) with false by (symmetry; apply Z.eqb_neq; lia).
  replace (c =? 0xE2) with false by (symmetry; apply Z.eqb_neq; lia).
  replace (c =? 0xE3) with false by (symmetry; apply Z.eqb_neq; lia).
  cbn [andb orb]. destruct t as [|? [|]]; done.
Qed.

Lemma opt_sign_hex c t : is_hex c = true -> opt_sign (c :: t) = (None, c :: t).
Proof. intros Hc%is_hex_range. unfold opt_sign. cmp. Qed.

(** The text after a number: no further digit, nor an [x] that would make a prefix
    of the number. *)
Definition ends_number (rest : list Z) : Prop :=
  match rest with [] => True | c :: _ => is_hex c = false /\ c <> 120 /\ c <> 88 end.

Lemma take_while_app f l rest : Forall (fun c => f c = true) l ->
  match rest with [] => True | c :: _ => f c = false end -> take_while f (l ++ rest) = (l, rest).
Proof.
  intros Hl Hr. induction Hl as [|c l Hc Hl IH]; simpl.
  - destruct rest as [|c r]; simpl; [done|by rewrite Hr].
  - by rewrite Hc, IH.
Qed.

Lemma ends_number_hex rest : ends_number rest -> match rest with [] => True | c :: _ => is_hex c = false end.
Proof. destruct rest; simpl; tauto. Qed.

(** Text of hexadecimal digits only is a number of them. *)
Lemma match16_digits l rest : l <> [] -> Forall (fun c => is_hex c = true) l -> ends_number rest ->
  match16 (l ++ rest) = Some (mkMatch None l rest).
Proof.
  intros Hn Hl Hr. destruct l as [|c l]; [done|]. pose proof (Forall_inv Hl) as Hc. simpl in Hc.
  unfold match16. cbn [app]. rewrite skip_space_hex, opt_sign_hex by done.
  assert (digits1 is_hex None (c :: l ++ rest) = Some (mkMatch None (c :: l) rest)) as Hd.
  { unfold digits1. change (c :: l ++ rest) with ((c :: l) ++ rest). rewrite (take_while_app _ (c :: l)) by (done || by apply ends_number_hex). done. }
  replace (hex_prefix (c :: l ++ rest)) with (@None (list Z)); [done|].
  symmetry. unfold hex_prefix. destruct (l ++ rest) as [|x r] eqn:E; [done|].
  assert (x <> 120 /\ x <> 88) as [Hx HX].
  { destruct l as [|d l]; simpl in E; subst; [by destruct Hr as (_ & ? & ?)|]. injection E as -> _.
    apply Forall_inv_tail, Forall_inv in Hl. apply is_hex_range in Hl. lia. }
  rewrite (proj2 (Z.eqb_neq x 120) Hx), (proj2 (Z.eqb_neq x 88) HX). by rewrite andb_false_r.
Qed.

Lemma hex_digits_ne k n : k <> O -> hex_digits k n <> [].
Proof. destruct k; [done|]. intros _. simpl. destruct (n <? 16); [done|]. intros E%app_eq_nil. by destruct E. Qed.

Lemma hex_digits_hex k : forall n, 0 <= n -> Forall (fun c => is_hex c = true) (hex_digits k n).
Proof.
  induction k as [|k IH]; intros n Hn; simpl; [constructor|].
  destruct (Z.ltb_spec n 16); [constructor; [apply is_hex_digit; lia|constructor]|].
  apply Forall_app. split; [apply IH, Z.div_pos; lia|].
  constructor; [|constructor]. apply is_hex_digit, Z.mod_pos_bound. lia.
Qed.

Lemma digits_value_snoc base l c : digits_value base (l ++ [c]) = digits_value base l * base + digit_value c.
Proof. unfold digits_value. by rewrite fold_left_app. Qed.

Lemma hex_digits_value k : forall n, 0 <= n < 16 ^ Z.of_nat k -> digits_value 16 (hex_digits k n) = n.
Proof.
  induction k as [|k IH]; intros n Hn; cbn [hex_digits]; [change (0 = n); simpl in Hn; lia|].
  rewrite Nat2Z.inj_succ, Z.pow_succ_r in Hn by lia.
  destruct (Z.ltb_spec n 16); [apply digit_value_digit; lia|].
  pose proof (Z.mod_pos_bound n 16 ltac:(lia)).
  rewrite digits_value_snoc, IH, digit_value_digit by (try split; try apply Z.div_pos; try apply Z.div_lt_upper_bound; lia).
  pose proof (Z.div_mod n 16 ltac:(lia)). lia.
Qed.

Lemma fmt_x_ne n : fmt_x n <> [].
Proof. by apply hex_digits_ne. Qed.

Lemma fmt_x_hex n : 0 <= n -> Forall (fun c => is_hex c = true) (fmt_x n).
Proof. apply hex_digits_hex. Qed.

Lemma fmt_x_value n : 0 <= n < USIZE -> digits_value 16 (fmt_x n) = n.
Proof. apply (hex_digits_value 16). Qed.

Lemma fmt_02x_byte b : is_byte b -> fmt_02x b = [hex_digit (b / 16); hex_digit (b mod 16)].
Proof.
  intros [H0 H1]. unfold fmt_02x, fmt_x. cbn [hex_digits]. destruct (Z.ltb_spec b 16).
  - rewrite Z.div_small, Z.mod_small by lia. done.
  - destruct (Z.ltb_spec (b / 16) 16) as [|Hb]; [done|].
    pose proof (Z.div_lt_upper_bound b 16 16). lia.
Qed.

(** ** Reading numbers back *)

Lemma isize_from_radix_ok base (neg : bool) l v : (if neg then - digits_value base l else digits_value base l) = v ->
  - I64_BOUND <= v < I64_BOUND -> isize_from_radix base neg l = Some v.
Proof. intros <- Hv. unfold isize_from_radix. rewrite (proj2 (Z.leb_le _ _)), (proj2 (Z.ltb_lt _ _)) by apply Hv. done. Qed.

Section Numbers.
Context `{LibSpec}.

Lemma str16_to_usize_digits l rest : l <> [] -> Forall (fun c => is_hex c = true) l -> ends_number rest ->
  digits_value 16 l < USIZE -> str16_to_usize (l ++ rest) = (Some (digits_value 16 l), rest).
Proof.
  intros Hn Hl Hr Hv. unfold str16_to_usize. rewrite re16_spec, match16_digits by done. simpl.
  unfold usize_from_radix. by rewrite (proj2 (Z.ltb_lt _ _) Hv).
Qed.

Lemma usize_at_fmt n rest : 0 <= n < USIZE -> ends_number rest -> usize_at (fmt_x n ++ rest) = Ok (n, rest).
Proof.
  intros Hn Hr. unfold usize_at.
  rewrite str16_to_usize_digits, fmt_x_value by (done || apply fmt_x_ne || (apply fmt_x_hex; lia) || (rewrite fmt_x_value; lia)).
  done.
Qed.

Lemma isize_at_fmt n rest : 0 <= n < I64_BOUND -> ends_number rest -> isize_at (fmt_x n ++ rest) = Ok (n, rest).
Proof.
  intros Hn Hr. unfold isize_at, str16_to_isize.
  rewrite re16_spec, match16_digits by (done || apply fmt_x_ne || (apply fmt_x_hex; lia)).
  cbn [is_neg m_sign m_digits m_rest]. rewrite (isize_from_radix_ok _ _ _ n); [done|apply fmt_x_value; lia|lia].
Qed.

Lemma isize_at_neg n rest : 0 < n <= I64_BOUND -> ends_number rest -> isize_at (45 :: fmt_x n ++ rest) = Ok (- n, rest).
Proof.
  intros Hn Hr. unfold isize_at, str16_to_isize. rewrite re16_spec.
  assert (match16 (45 :: fmt_x n ++ rest) = Some (mkMatch (Some 45) (fmt_x n) rest)) as ->.
  { pose proof (match16_digits (fmt_x n) rest (fmt_x_ne n) (fmt_x_hex n ltac:(lia)) Hr) as E.
    revert E. unfold match16.
    replace (skip_space (45 :: fmt_x n ++ rest)) with (45 :: fmt_x n ++ rest) by (simpl; destruct (fmt_x n ++ rest) as [|? []]; done).
    cbn [opt_sign]. change ((45 =? 43) || (45 =? 45)) with true. cbn iota.
    destruct (fmt_x n) as [|c l] eqn:El; [by destruct (fmt_x_ne n)|].
    assert (is_hex c = true) as Hc by (pose proof (fmt_x_hex n ltac:(lia)) as Hf; rewrite El in Hf; by inversion Hf).
    cbn [app]. rewrite skip_space_hex, opt_sign_hex by done. unfold digits1.
    destruct (hex_prefix _) as [r|]; [destruct (take_while is_hex r) as [[|? ?] ?]|];
      destruct (take_while is_hex (c :: l ++ rest)) as [[|? ?] ?]; intros [=]; by subst. }
  change (is_neg (mkMatch (Some 45) (fmt_x n) rest)) with true. cbn [m_digits m_rest].
  rewrite (isize_from_radix_ok _ _ _ (- n)); [done|f_equal; apply fmt_x_value; lia|lia].
Qed.

(** Two digits are a byte. *)
Lemma usize_at_byte b : is_byte b -> usize_at (fmt_02x b) = Ok (b, []).
Proof.
  intros Hb. pose proof (fmt_02x_byte b Hb) as E. destruct Hb.
  assert (0 <= b / 16 < 16) by (split; [apply Z.div_pos|apply Z.div_lt_upper_bound]; lia).
  pose proof (Z.mod_pos_bound b 16 ltac:(lia)). pose proof (Z.div_mod b 16 ltac:(lia)).
  assert (digits_value 16 (fmt_02x b) = b) as Ev by (rewrite E; unfold digits_value; simpl; rewrite !digit_value_digit by lia; lia).
  unfold usize_at. rewrite <- (app_nil_r (fmt_02x b)), str16_to_usize_digits; rewrite ?Ev; try done; try lia.
  - by rewrite E.
  - rewrite E. repeat constructor; apply is_hex_digit; lia.
Qed.

End Numbers.

(** ** Escaping *)

Lemma lxor_32 b : Z.lxor 32 (Z.lxor b 32) = b.
Proof. rewrite Z.lxor_comm, Z.lxor_assoc, Z.lxor_nilpotent. apply Z.lxor_0_r. Qed.

Lemma read_binary_escape data : read_binary_data (escape data) = Ok data.
Proof.
  induction data as [|b data IH]; [done|]. cbn [escape]. unfold must_escape.
  destruct (Z.eqb_spec b 35), (Z.eqb_spec b 36), (Z.eqb_spec b 125), (Z.eqb_spec b 42);
    cbn [orb app read_binary_data]; rewrite ?IH; cbn [mbind res_bind]; rewrite ?lxor_32; try done.
  by rewrite (proj2 (Z.eqb_neq b 125)).
Qed.

(** No byte of escaped data means something else to gdb. *)
Lemma escape_clean data : Forall (fun b => b <> 35 /\ b <> 36 /\ b <> 42) (escape data).
Proof.
  induction data as [|b data IH]; [constructor|]. cbn [escape]. unfold must_escape.
  destruct (Z.eqb_spec b 35); [subst; repeat constructor; done|].
  destruct (Z.eqb_spec b 36); [subst; repeat constructor; done|].
  destruct (Z.eqb_spec b 125); [subst; repeat constructor; done|].
  destruct (Z.eqb_spec b 42); [subst; repeat constructor; done|]. by constructor.
Qed.

End TextProofs.
