(* ===== verification/GdbConnectionProofs.v ===== *)
(** The gdb connection keeps its request well typed and always returns from waiting
    for one. *)

From S2P Require Import Prelude WaitStatus KernelMapping GdbText GdbRequest GdbConnection GdbParse GdbPackets GdbTextProofs.

Module ConnProofs.
Import Text Req Conn Parse Packets TextProofs.

(** ** The value of a request is the one of its type *)

Definition value_ok (t : Z) (v : GdbRequestValue) : bool :=
  match v with
  | GdbRequestNone => t =? DREQ_NONE
  | GdbRequestMem _ => (DREQ_MEM_FIRST <=? t) && (t <=? DREQ_MEM_LAST)
  | GdbRequestWatch _ => (DREQ_WATCH_FIRST <=? t) && (t <=? DREQ_WATCH_LAST)
  | GdbRequestRegisterValue _ => (DREQ_REG_FIRST <=? t) && (t <=? DREQ_REG_LAST)
  | GdbRequestRestart _ => t =? DREQ_RESTART
  | GdbRequestCont _ => t =? DREQ_CONT
  | GdbRequestText _ => t =? DREQ_RD_CMD
  | GdbRequestTls _ => t =? DREQ_TLS
  | GdbRequestSymbol _ => t =? DREQ_QSYMBOL
  | GdbRequestFileSetfs _ => t =? DREQ_FILE_SETFS
  | GdbRequestFileOpen _ => t =? DREQ_FILE_OPEN
  | GdbRequestFilePread _ => t =? DREQ_FILE_PREAD
  | GdbRequestFileClose _ => t =? DREQ_FILE_CLOSE
  | GdbRequestNoAddlData => existsb (Z.eqb t) no_addl_data
  end.

Definition req_ok (r : GdbRequest) : Prop := value_ok (type_ r) (val r) = true.

(** The accessors of a request return. *)
Definition accessors_ok (r : GdbRequest) : Prop :=
  (DREQ_MEM_FIRST <= type_ r <= DREQ_MEM_LAST -> is_ok (mem r) = true) /\
  (DREQ_WATCH_FIRST <= type_ r <= DREQ_WATCH_LAST -> is_ok (watch r) = true) /\
  (DREQ_REG_FIRST <= type_ r <= DREQ_REG_LAST -> is_ok (reg r) = true) /\
  (type_ r = DREQ_RESTART -> is_ok (restart r) = true) /\
  (type_ r = DREQ_CONT -> is_ok (cont r) = true) /\
  (type_ r = DREQ_RD_CMD -> is_ok (text r) = true) /\
  (type_ r = DREQ_TLS -> is_ok (tls r) = true) /\
  (type_ r = DREQ_QSYMBOL -> is_ok (sym r) = true) /\
  (type_ r = DREQ_FILE_SETFS -> is_ok (file_setfs r) = true) /\
  (type_ r = DREQ_FILE_OPEN -> is_ok (file_open r) = true) /\
  (type_ r = DREQ_FILE_PREAD -> is_ok (file_pread r) = true) /\
  (type_ r = DREQ_FILE_CLOSE -> is_ok (file_close r) = true).

Ltac unfold_dreq :=
  unfold DREQ_MEM_FIRST, DREQ_MEM_LAST, DREQ_WATCH_FIRST, DREQ_WATCH_LAST, DREQ_REG_FIRST, DREQ_REG_LAST,
    DREQ_REMOVE_SW_BREAK, DREQ_SET_RDWR_WATCH, DREQ_GET_REG, DREQ_SET_REG, DREQ_GET_MEM, DREQ_SEARCH_MEM,
    DREQ_NONE, DREQ_RESTART, DREQ_CONT, DREQ_RD_CMD, DREQ_TLS, DREQ_QSYMBOL, DREQ_FILE_SETFS, DREQ_FILE_OPEN,
    DREQ_FILE_PREAD, DREQ_FILE_CLOSE, DREQ_GET_AUXV, DREQ_GET_EXEC_FILE, DREQ_GET_IS_THREAD_ALIVE,
    DREQ_GET_THREAD_EXTRA_INFO, DREQ_SET_CONTINUE_THREAD, DREQ_SET_QUERY_THREAD, DREQ_GET_CURRENT_THREAD,
    DREQ_GET_OFFSETS, DREQ_GET_REGS, DREQ_GET_STOP_REASON, DREQ_GET_THREAD_LIST, DREQ_INTERRUPT,
    DREQ_WRITE_SIGINFO, DREQ_DETACH.

Lemma req_ok_accessors r : req_ok r -> accessors_ok r.
Proof.
  destruct r as [t v tg sd]. intros Hv. unfold req_ok in Hv. unfold accessors_ok. cbn [type_ val] in *.
  destruct v; cbn -[Z.leb Z.eqb Z.le] in Hv |- *; rewrite ?orb_false_r in Hv;
    repeat split; intros Ht; try done; exfalso; revert Hv Ht; clear; unfold_dreq; lia.
Qed.

Lemma new_ok t r : new t = Ok r -> req_ok r /\ type_ r = t /\ target r = ANY.
Proof.
  unfold new, default_value. intros (v & Hv & [= <-])%bind_Ok. split; [|done]. unfold req_ok. cbn [type_ val]. revert Hv.
  repeat match goal with
  | |- (if ?b then _ else _) = _ -> _ => destruct b eqn:?; [intros [= <-]; done|]
  end. done.
Qed.

Lemma new_not_spin t : new t <> Spin.
Proof.
  unfold new, default_value.
  repeat match goal with |- context [if ?b then _ else _] => destruct b; [done|] end. done.
Qed.

(** ** Results of parsers *)

(** A parser that ends and leaves no more text than it was given. *)
Definition ends {A} (m : res A) : Prop := m <> Spin.

Lemma ends_Ok {A} (a : A) : ends (Ok a).
Proof. done. Qed.
Lemma ends_Panic {A} : ends (@Panic A).
Proof. done. Qed.
Lemma ends_Fatal {A} : ends (@Fatal A).
Proof. done. Qed.
Lemma ends_bind {A B} (m : res A) (f : A -> res B) : ends m -> (forall a, ends (f a)) -> ends (m ≫= f).
Proof. intros Hm Hf. destruct m; [apply Hf|done..]. Qed.
Lemma ends_assert b : ends (assert_ b).
Proof. by destruct b. Qed.
Lemma ends_unwrap {A} (o : option A) : ends (unwrap o).
Proof. by destruct o. Qed.
Lemma ends_if {A} (b : bool) (m n : res A) : ends m -> ends n -> ends (if b then m else n).
Proof. by destruct b. Qed.

Create HintDb gdb.
#[export] Hint Resolve ends_Ok ends_Panic ends_Fatal ends_assert ends_unwrap new_not_spin : gdb.
#[export] Hint Resolve ends_if : gdb.
#[export] Hint Extern 2 (ends (_ ≫= _)) => apply ends_bind; [|intros ?] : gdb.
#[export] Hint Extern 3 (ends (match ?x with _ => _ end)) => destruct x : gdb.

Section Parsers.
Context `{LibSpec}.

Lemma ends_expect c t : ends (expect c t).
Proof. unfold expect. destruct t; auto with gdb. Qed.
Lemma ends_at_end t : ends (at_end t).
Proof. apply ends_assert. Qed.
Lemma ends_slice a b t : ends (slice a b t).
Proof. unfold slice. auto with gdb. Qed.
Lemma ends_usize_at t : ends (usize_at t).
Proof. unfold usize_at. auto with gdb. Qed.
Lemma ends_isize_at t : ends (isize_at t).
Proof. unfold isize_at. auto with gdb. Qed.
Lemma ends_isize0_at t : ends (isize0_at t).
Proof. unfold isize0_at. auto with gdb. Qed.
Lemma ends_to_i32 v : ends (to_i32 v).
Proof. unfold to_i32. auto with gdb. Qed.
Lemma ends_to_u32 v : ends (to_u32 v).
Proof. unfold to_u32. auto with gdb. Qed.
Lemma ends_to_u8 v : ends (to_u8 v).
Proof. unfold to_u8. auto with gdb. Qed.
Lemma ends_to_u64 v : ends (to_u64 v).
Proof. unfold to_u64. auto with gdb. Qed.
Lemma ends_to_register v : ends (to_register v).
Proof. unfold to_register. auto with gdb. Qed.

#[local] Hint Resolve ends_expect ends_at_end ends_slice ends_usize_at ends_isize_at ends_isize0_at ends_to_i32 : gdb.
#[local] Hint Resolve ends_to_u32 ends_to_u8 ends_to_u64 ends_to_register : gdb.

Lemma ends_parse_threadid t : ends (parse_threadid t).
Proof. unfold parse_threadid. auto 12 with gdb. Qed.

Lemma ends_read_binary_data t : ends (read_binary_data t).
Proof.
  remember (length t) as n eqn:Hn. assert (length t <= n)%nat as Hl by lia. clear Hn. revert t Hl.
  induction n as [|n IH]; intros [|b t] Hl; cbn [read_binary_data length] in *; auto with gdb; [lia|].
  destruct (b =? 125).
  - destruct t as [|c t]; auto with gdb. cbn [length] in Hl. apply ends_bind; [apply IH; lia|auto with gdb].
  - apply ends_bind; [apply IH; lia|auto with gdb].
Qed.

Lemma ends_decode_pairs t : ends (decode_pairs t).
Proof.
  remember (length t) as n eqn:Hn. assert (length t <= n)%nat as Hl by lia. clear Hn. revert t Hl.
  induction n as [|n IH]; intros [|b [|c t]] Hl; cbn [decode_pairs length] in *; auto with gdb; [lia|].
  apply ends_bind; [unfold hex_pair; auto with gdb|]. intros v. apply ends_bind; auto with gdb. intros _.
  apply ends_bind; [apply IH; lia|auto with gdb].
Qed.

Lemma ends_decode t : ends (decode_ascii_encoded_hex_str t).
Proof. unfold decode_ascii_encoded_hex_str. apply ends_bind; auto with gdb. intros. apply ends_decode_pairs. Qed.

Lemma ends_hex_byte_loop t : forall n, ends (hex_byte_loop t n).
Proof.
  remember (length t) as l eqn:Hn. assert (length t <= l)%nat as Hl by lia. clear Hn. revert t Hl.
  induction l as [|l IH]; intros [|b [|c t]] Hl n; cbn [hex_byte_loop length] in *; auto with gdb; [lia|].
  apply ends_if; auto with gdb.
  do 3 (apply ends_bind; [auto with gdb|intros ?]). apply ends_bind; [apply IH; lia|auto with gdb].
Qed.

(** *** Parsers leave no more text than they were given *)

Lemma skip_space_length t : (length (skip_space t) <= length t)%nat.
Proof.
  remember (length t) as n eqn:Hn. assert (length t <= n)%nat as Hl by lia. rewrite Hn. clear Hn. revert t Hl.
  induction n as [|n IH]; intros [|a t] Hl; cbn [length] in *; [done|lia|done|].
  cbn [skip_space]. destruct (is_ascii_space a); [pose proof (IH t ltac:(lia)); lia|].
  destruct t as [|b t]; [done|]. cbn [length] in *. destruct (is_space2 a b); [pose proof (IH t ltac:(lia)); lia|].
  destruct t as [|c t]; [done|]. cbn [length] in *. destruct (is_space3 a b c); [pose proof (IH t ltac:(lia)); lia|done].
Qed.

Lemma take_while_length f t : length t = (length (take_while f t).1 + length (take_while f t).2)%nat.
Proof. induction t as [|c t IH]; [done|]. simpl. destruct (f c); [|done]. destruct (take_while f t). simpl in *. lia. Qed.

Lemma digits1_length f sign t m : digits1 f sign t = Some m -> (length (m_rest m) <= length t)%nat.
Proof.
  unfold digits1. pose proof (take_while_length f t). destruct (take_while f t) as [[|d l] r]; [done|].
  intros [= <-]. simpl in *. lia.
Qed.

Lemma opt_sign_length t : (length (opt_sign t).2 <= length t)%nat.
Proof. destruct t as [|c t]; simpl; [done|]. destruct (_ || _); simpl; lia. Qed.

Lemma match16_length t m : match16 t = Some m -> (length (m_rest m) <= length t)%nat.
Proof.
  unfold match16. pose proof (skip_space_length t). pose proof (opt_sign_length (skip_space t)).
  destruct (opt_sign (skip_space t)) as [sign u]. cbn [snd] in *.
  assert (forall r, hex_prefix u = Some r -> (length r <= length u)%nat) as Hp.
  { intros r. unfold hex_prefix. destruct u as [|z [|x u]]; try done. destruct (_ && _); [|done].
    intros [= ->]. simpl. lia. }
  assert (forall r m, digits1 is_hex sign r = Some m -> (length (m_rest m) <= length r)%nat) as Hd by (intros ? ?; apply digits1_length).
  destruct (hex_prefix u) as [r|]; [|intros E; specialize (Hd _ _ E); lia].
  specialize (Hp r eq_refl). destruct (digits1 is_hex sign r) eqn:E1; intros E.
  - injection E as ->. specialize (Hd _ _ E1). lia.
  - specialize (Hd _ _ E). lia.
Qed.

Lemma usize_at_length t p : usize_at t = Ok p -> (length p.2 <= length t)%nat.
Proof.
  unfold usize_at, str16_to_usize. rewrite re16_spec. destruct (match16 t) as [m|] eqn:E.
  - intros (v & _ & [= <-])%bind_Ok. by apply match16_length.
  - intros [= <-]. done.
Qed.

Lemma isize_at_length t p : isize_at t = Ok p -> (length p.2 <= length t)%nat.
Proof.
  unfold isize_at, str16_to_isize. rewrite re16_spec. destruct (match16 t) as [m|] eqn:E.
  - intros (v & _ & [= <-])%bind_Ok. by apply match16_length.
  - intros [= <-]. done.
Qed.

Lemma expect_length c t r : expect c t = Ok r -> length t = S (length r).
Proof. destruct t as [|b t]; [done|]. simpl. intros (_ & _ & [= <-])%bind_Ok. done. Qed.

Lemma parse_threadid_length t p : parse_threadid t = Ok p -> (length p.2 <= length t)%nat.
Proof.
  unfold parse_threadid. intros (c & Hc & E)%bind_Ok. destruct t as [|c' t]; [done|].
  apply bind_Ok in E as (q & Hq & E). apply isize_at_length in Hq.
  assert (length q.2 <= S (length t))%nat as Hl by (destruct (c =? 112); simpl in *; lia).
  apply bind_Ok in E as (pid & _ & E). destruct q.2 as [|d u] eqn:Eq; [injection E as <-; simpl; lia|].
  apply bind_Ok in E as (w & Hw & E). apply expect_length in Hw.
  apply bind_Ok in E as (x & Hx & E). apply isize_at_length in Hx.
  apply bind_Ok in E as (tid & _ & E). injection E as <-. simpl in *. lia.
Qed.

Lemma split_at_length c t a b : split_at c t = Some (a, b) -> (length b <= length t)%nat.
Proof. unfold split_at. destruct (memchr c t); [|done]. intros [= _ <-]. rewrite length_drop. lia. Qed.

(** *** The loops over actions and conditions end *)

Lemma cont_item_length t i : cont_item t = Ok i -> (length i.2 < length t)%nat.
Proof.
  unfold cont_item. pose proof (take_while_length (fun c => negb (c =? 58) && negb (c =? 59)) t) as Ht.
  destruct (take_while _ t) as [cmd u]. cbn [fst snd] in Ht.
  intros (x & Hx & E)%bind_Ok. apply bind_Ok in E as ([] & Ha & E). apply assert_Ok in Ha.
  assert (cmd <> []) as Hc by (intros ->; by rewrite bool_decide_true in Ha). injection E as <-. cbn [snd].
  assert (length x.2 <= length u)%nat as Hu.
  { destruct u as [|c u]; [injection Hx as <-; done|]. destruct (c =? 58).
    - apply bind_Ok in Hx as (y & Hy & [= <-]). apply parse_threadid_length in Hy. simpl. lia.
    - injection Hx as <-. done. }
  destruct cmd as [|c' cmd]; [done|]. simpl in Ht.
  destruct (split_at 59 x.2) as [[? b]|] eqn:Es; [apply split_at_length in Es; lia|simpl; lia].
Qed.

Lemma ends_cont_item t : ends (cont_item t).
Proof.
  unfold cont_item. destruct (take_while _ t) as [cmd u]. apply ends_bind; [|auto with gdb].
  destruct u as [|c u]; auto with gdb. apply ends_if; auto with gdb.
  apply ends_bind; auto with gdb. apply ends_parse_threadid.
Qed.

Lemma ends_cont_command c : ends (cont_command c).
Proof. unfold cont_command. destruct c; auto 10 with gdb. Qed.

Lemma ends_cont_loop fuel : forall t acts def, (length t < fuel)%nat -> ends (cont_loop fuel t acts def).
Proof.
  induction fuel as [|fuel IH]; intros [|c t] acts def Hl; cbn [cont_loop]; auto with gdb; [simpl in Hl; lia|].
  destruct (cont_item (c :: t)) as [[[cmd tg] rest]| | |] eqn:Ei; try done.
  - pose proof (cont_item_length _ _ Ei) as Hi. cbn [mbind res_bind snd length] in *.
    apply ends_bind; [apply ends_cont_command|]. intros [a sg|]; auto with gdb.
    destruct tg, def; auto with gdb; apply IH; lia.
  - pose proof (ends_cont_item (c :: t)) as He. by rewrite Ei in He.
Qed.

Lemma hex_byte_loop_length t : forall n r, hex_byte_loop t n = Ok r -> (length r.2 <= length t)%nat.
Proof.
  remember (length t) as l eqn:Hn. assert (length t <= l)%nat as Hl by lia. rewrite Hn. clear Hn. revert t Hl.
  induction l as [|l IH]; intros [|b [|c t]] Hl n r; cbn [hex_byte_loop length] in *; try lia;
    (destruct (n <=? 0); [intros [= <-]; done|]); try done.
  intros (v & _ & E)%bind_Ok. apply bind_Ok in E as (x & _ & E). apply bind_Ok in E as (_ & _ & E).
  apply bind_Ok in E as (y & Hy & [= <-]). apply IH in Hy; [|lia]. cbn [snd]. lia.
Qed.

Lemma ends_conditions_loop fuel : forall t, (length t <= fuel)%nat -> ends (conditions_loop fuel t).
Proof.
  induction fuel as [|fuel IH]; intros t Hl.
  - destruct t; [done|simpl in Hl; lia].
  - assert (t = [] \/ exists c u, t = c :: u) as [->|(c & u & ->)] by (destruct t; eauto); [done|].
    destruct (decide (c = 88)) as [->|Hc].
    + cbn [conditions_loop]. destruct (usize_at u) as [x| | |] eqn:Ex; try done;
        [|pose proof (ends_usize_at u) as He; by rewrite Ex in He].
      apply usize_at_length in Ex. cbn [mbind res_bind length] in *.
      destruct (expect 44 x.2) as [r| | |] eqn:Er; try done; [|pose proof (ends_expect 44 x.2) as He; by rewrite Er in He].
      apply expect_length in Er. cbn [mbind res_bind] in *.
      destruct (hex_byte_loop r x.1) as [y| | |] eqn:Ey; try done; [|pose proof (ends_hex_byte_loop r x.1) as He; by rewrite Ey in He].
      apply hex_byte_loop_length in Ey. cbn [mbind res_bind].
      apply ends_bind; [apply IH; lia|auto with gdb].
    + replace (conditions_loop (S fuel) (c :: u)) with (Ok (@nil (list Z), c :: u)); [done|].
      cbn [conditions_loop]. destruct c; try done. repeat (destruct p as [p|p|]; try done).
Qed.

Lemma ends_conditions t : ends (conditions t).
Proof.
  unfold conditions. destruct t as [|c t]; [done|]. destruct c; try done.
  repeat (destruct p as [p|p|]; try done). apply ends_conditions_loop. done.
Qed.


End Parsers.

#[export] Hint Resolve ends_expect ends_at_end ends_slice ends_usize_at ends_isize_at ends_isize0_at ends_to_i32 : gdb.
#[export] Hint Resolve ends_to_u32 ends_to_u8 ends_to_u64 ends_to_register ends_parse_threadid ends_read_binary_data : gdb.
#[export] Hint Resolve ends_decode ends_hex_byte_loop ends_conditions : gdb.

(** ** Operations that handle a request *)

(** The part of the state only reading changes. *)
Definition same_input (s s' : Conn) : Prop :=
  inbuf s' = inbuf s /\ reads s' = reads s /\ packetend s' = packetend s.

(** [m] ends, leaves the input alone and keeps the request well typed. *)
Definition good {A} (m : G A) : Prop :=
  forall s, req_ok (req s) ->
  match m s with
  | Ok (_, s') => same_input s s' /\ req_ok (req s')
  | Spin => False
  | _ => True
  end.

Lemma same_input_refl s : same_input s s.
Proof. done. Qed.
Lemma same_input_trans s1 s2 s3 : same_input s1 s2 -> same_input s2 s3 -> same_input s1 s3.
Proof. unfold same_input. intuition congruence. Qed.

Lemma good_ret {A} (a : A) : good (mret a).
Proof. by intros s Hs. Qed.
Lemma good_bind {A B} (m : G A) (f : A -> G B) : good m -> (forall a, good (f a)) -> good (m ≫= f).
Proof.
  intros Hm Hf s Hs. specialize (Hm s Hs). unfold mbind, G_bind. destruct (m s) as [[[a|] s1]| | |]; try done.
  destruct Hm as [Hi Ht]. specialize (Hf a s1 Ht). destruct (f a s1) as [[o s2]| | |]; try done.
  destruct Hf. split; [by eapply same_input_trans|done].
Qed.
Lemma good_lift {A} (m : res A) : ends m -> good (lift m).
Proof. intros Hm s Hs. unfold lift. by destruct m. Qed.
Lemma good_gets {A} (f : Conn -> A) : good (gets f).
Proof. by intros s Hs. Qed.
Lemma good_exit {A} : good (@exit A).
Proof. by intros s Hs. Qed.
Lemma good_modify f : (forall s, same_input s (f s)) -> (forall s, req (f s) = req s) -> good (modify f).
Proof. intros Hf Hr s Hs. simpl. rewrite Hr. done. Qed.
Lemma good_assert b : good (assert b).
Proof. apply good_lift. by destruct b. Qed.
Lemma good_if {A} (b : bool) (m n : G A) : good m -> good n -> good (if b then m else n).
Proof. by destruct b. Qed.

Lemma good_request t : good (request t).
Proof.
  intros s Hs. unfold request, mbind, G_bind, lift. destruct (new t) as [r| | |] eqn:E; try done.
  - by apply new_ok in E as (? & _).
  - by apply new_not_spin in E.
Qed.

(** A change of a request that keeps it well typed. *)
Definition keeps (f : GdbRequest -> res GdbRequest) : Prop :=
  forall r, req_ok r -> match f r with Ok r' => req_ok r' | Spin => False | _ => True end.

Lemma good_change f : keeps f -> good (change f).
Proof.
  intros Hf s Hs. specialize (Hf (req s) Hs). unfold change, mbind, G_bind, gets, lift.
  by destruct (f (req s)).
Qed.

(** Open a request by the value it has. *)
Ltac keeps_tac := let r := fresh in intros r ?; unfold req_ok in *; destruct r as [? [] ? ?]; by simpl in *.

Lemma keeps_mem f : keeps (mem_mut f). Proof. keeps_tac. Qed.
Lemma keeps_watch f : keeps (watch_mut f). Proof. keeps_tac. Qed.
Lemma keeps_restart f : keeps (restart_mut f). Proof. keeps_tac. Qed.
Lemma keeps_reg f : keeps (reg_mut f). Proof. keeps_tac. Qed.
Lemma keeps_cont f : keeps (cont_mut f). Proof. keeps_tac. Qed.
Lemma keeps_text f : keeps (text_mut f). Proof. keeps_tac. Qed.
Lemma keeps_tls f : keeps (tls_mut f). Proof. keeps_tac. Qed.
Lemma keeps_sym f : keeps (sym_mut f). Proof. keeps_tac. Qed.
Lemma keeps_setfs f : keeps (file_setfs_mut f). Proof. keeps_tac. Qed.
Lemma keeps_open f : keeps (file_open_mut f). Proof. keeps_tac. Qed.
Lemma keeps_pread f : keeps (file_pread_mut f). Proof. keeps_tac. Qed.
Lemma keeps_close f : keeps (file_close_mut f). Proof. keeps_tac. Qed.
Lemma keeps_target t : keeps (fun r => Ok (with_target t r)). Proof. keeps_tac. Qed.

Lemma good_write_flush : good write_flush.
Proof. intros s Hs. unfold write_flush, modify. destruct (flush_loop _ _ _) as [[ok ws] out]. done. Qed.
Lemma good_write_data_raw d : good (write_data_raw d).
Proof. by apply good_modify. Qed.
Lemma good_multiprocess b : good (modify (set_multiprocess_supported b)).
Proof. by apply good_modify. Qed.
Lemma good_no_ack b : good (modify (set_no_ack b)).
Proof. by apply good_modify. Qed.

#[export] Hint Resolve good_ret good_gets good_exit good_assert good_if good_request good_change good_write_flush : gdb.
#[export] Hint Resolve good_write_data_raw good_lift good_multiprocess good_no_ack : gdb.
#[export] Hint Resolve keeps_mem keeps_watch keeps_restart keeps_reg keeps_cont keeps_text keeps_tls keeps_sym : gdb.
#[export] Hint Resolve keeps_setfs keeps_open keeps_pread keeps_close keeps_target : gdb.
#[export] Hint Extern 2 (good (_ ≫= _)) => apply good_bind; [|intros ?] : gdb.
#[export] Hint Extern 3 (good (match ?x with _ => _ end)) => destruct x : gdb.

Lemma good_write_packet_bytes d : good (write_packet_bytes d).
Proof. unfold write_packet_bytes, write_hex. auto 10 with gdb. Qed.
#[export] Hint Resolve good_write_packet_bytes : gdb.

Lemma good_target_query : good target_query.
Proof. unfold target_query, set_target. auto with gdb. Qed.
Lemma good_set_target t : good (set_target t).
Proof. unfold set_target. auto with gdb. Qed.
Lemma good_reply_done d : good (reply_done d).
Proof. unfold reply_done. auto with gdb. Qed.
Lemma good_unhandled : good unhandled_req.
Proof. apply good_reply_done. Qed.
Lemma good_consume : good consume_request.
Proof.
  intros s Hs. unfold consume_request, mbind, G_bind, lift, modify. cbn [new default_value res_bind mbind].
  apply (good_write_flush (set_req _ s)). done.
Qed.
Lemma good_write_xfer_response d o l : good (write_xfer_response d o l).
Proof. unfold write_xfer_response, write_binary_packet, checked_add. auto 8 with gdb. Qed.
#[export] Hint Resolve good_target_query good_set_target good_reply_done good_unhandled good_consume good_write_xfer_response : gdb.


(** Go through an operation step by step. *)
Ltac good_tac :=
  repeat first
    [ solve [auto 8 with gdb] | simple apply good_if | simple apply good_bind; [|intros ?]
    | match goal with |- good (match ?x with _ => _ end) => destruct x end ].

Section Packets.
Context `{LibSpec} `{Resources}.

Lemma ends_target_description_name c : ends (target_description_name c).
Proof. unfold target_description_name. auto 8 with gdb. Qed.
#[local] Hint Resolve ends_target_description_name : gdb.

Lemma good_xfer n a : good (xfer n a).
Proof. unfold xfer. good_tac. Qed.

Lemma good_query_tls a : good (query_tls a).
Proof. unfold query_tls. auto 20 with gdb. Qed.
Lemma good_query_symbol a : good (query_symbol a).
Proof. unfold query_symbol. auto 20 with gdb. Qed.
Lemma good_query_search a : good (query_search a).
Proof. unfold query_search. auto 20 with gdb. Qed.
#[local] Hint Resolve good_xfer good_query_tls good_query_symbol good_query_search : gdb.

Lemma good_query p : good (query p).
Proof. unfold query. destruct (split_at 58 p) as [[n a]|]; good_tac. Qed.

Lemma good_set_var p : good (set_var p).
Proof. unfold set_var. auto 8 with gdb. Qed.

Lemma good_vpacket_cont a : good (vpacket_cont a).
Proof.
  unfold vpacket_cont. apply good_bind; [apply good_lift, ends_cont_loop; lia|].
  intros [[acts def]|]; auto 8 with gdb.
Qed.
Lemma good_vpacket_run a : good (vpacket_run a).
Proof. unfold vpacket_run. destruct (split_at 59 a) as [[f b]|]; good_tac. Qed.
Lemma ends_open_flags f : ends (gdb_open_flags_to_system_flags f).
Proof. unfold gdb_open_flags_to_system_flags. auto with gdb. Qed.
#[local] Hint Resolve ends_open_flags : gdb.
Lemma good_vfile_open o : good (vfile_open o).
Proof. unfold vfile_open. good_tac. Qed.
Lemma good_vfile_close o : good (vfile_close o).
Proof. unfold vfile_close. auto 20 with gdb. Qed.
Lemma good_vfile_pread o : good (vfile_pread o).
Proof. unfold vfile_pread. auto 20 with gdb. Qed.
Lemma good_vfile_setfs o : good (vfile_setfs o).
Proof. unfold vfile_setfs. auto 20 with gdb. Qed.
#[local] Hint Resolve good_vpacket_cont good_vpacket_run good_vfile_open good_vfile_close good_vfile_pread good_vfile_setfs : gdb.

Lemma good_process_vpacket p : good (process_vpacket p).
Proof. unfold process_vpacket. destruct (split_at 59 p) as [[n a]|]; good_tac. Qed.

Lemma good_process_bpacket p : good (process_bpacket p).
Proof. unfold process_bpacket, resume_backward. auto 10 with gdb. Qed.

Lemma ends_reg_number p : ends (reg_number p).
Proof. unfold reg_number. auto with gdb. Qed.
Lemma ends_reg r : ends (reg r).
Proof. unfold reg. by destruct (val r). Qed.
Lemma ends_read_reg_value t r : ends (read_reg_value t r).
Proof. unfold read_reg_value. auto 10 with gdb. Qed.
#[local] Hint Resolve ends_reg_number ends_reg ends_read_reg_value : gdb.

#[local] Hint Resolve good_process_bpacket good_query good_set_var good_process_vpacket : gdb.

Lemma good_dispatch c p : good (dispatch c p).
Proof.
  unfold dispatch, packet_continue, packet_select_thread, packet_get_mem, packet_get_reg, packet_set_reg,
    packet_thread_alive, packet_set_mem, packet_watch. good_tac.
Qed.

End Packets.


(** ** Reading *)

(** Reading keeps the request, and only moves or drops input. *)
Definition reads_on (s s' : Conn) : Prop :=
  (input_size s' <= input_size s)%nat /\ req s' = req s /\ (length (reads s') <= length (reads s))%nat.

Lemma reads_on_refl s : reads_on s s.
Proof. done. Qed.
Lemma reads_on_trans s1 s2 s3 : reads_on s1 s2 -> reads_on s2 s3 -> reads_on s1 s3.
Proof. unfold reads_on. intros (? & ? & ?) (? & ? & ?). repeat split; [lia|congruence|lia]. Qed.

Lemma read_data_once_spec s : exists s', read_data_once s = Ok (Some tt, s') /\ reads_on s s' /\
  (exists more, inbuf s' = inbuf s ++ more) /\
  (connection_alive_ s' = false \/ (length (reads s') < length (reads s))%nat).
Proof.
  eexists. split; [done|]. unfold reads_on, input_size. destruct (reads s) as [|r rs] eqn:Er.
  - simpl. rewrite Er. split; [done|]. split; [exists []; by rewrite app_nil_r|by left].
  - destruct r as [[|b bs]|]; simpl; rewrite ?length_app; cbn [length].
    + split; [repeat split; lia|]. split; [exists []; by rewrite app_nil_r|by left].
    + split; [repeat split; lia|]. split; [by exists (b :: bs)|right; lia].
    + split; [repeat split; lia|]. split; [exists []; by rewrite app_nil_r|by left].
Qed.

Lemma find_start_length l : (length (find_start l) <= length l)%nat.
Proof. induction l as [|b l IH]; simpl; [done|]. destruct (is_start b); simpl; lia. Qed.

Lemma find_start_head l b r : find_start l = b :: r -> is_start b = true.
Proof. induction l as [|c l IH]; simpl; [done|]. destruct (is_start c) eqn:E; [by intros [= <- _]|done]. Qed.

Lemma skip_spec s : skip_to_packet_start s
  = Ok (Some (negb (bool_decide (find_start (inbuf s) = []))), set_inbuf (find_start (inbuf s)) s).
Proof. done. Qed.

Lemma skip_reads_on s : reads_on s (set_inbuf (find_start (inbuf s)) s).
Proof. unfold reads_on, input_size. simpl. pose proof (find_start_length (inbuf s)). repeat split; lia. Qed.

(** The buffer starts with the start of a packet. *)
Definition started (s : Conn) : Prop := exists b r, inbuf s = b :: r /\ is_start b = true.

Section Reading.
Context `{LibSpec}.

Lemma await_start_spec fuel : forall s,
  connection_alive_ s = false /\ (1 <= fuel)%nat \/ (length (reads s) + 2 <= fuel)%nat ->
  exists s', await_start fuel s = Ok (Some tt, s') /\ reads_on s s' /\ (connection_alive_ s' = true -> started s').
Proof.
  induction fuel as [|fuel IH]; intros s Hf; [lia|].
  cbn [await_start]. unfold mbind, G_bind. rewrite skip_spec. cbn [gets].
  set (s1 := set_inbuf _ s). pose proof (skip_reads_on s : reads_on s s1) as H1.
  change (connection_alive_ s1) with (connection_alive_ s).
  destruct (bool_decide_reflect (find_start (inbuf s) = [])) as [E|E]; cbn [negb andb].
  - destruct (connection_alive_ s) eqn:Ea; [|exists s1; split; [done|]; split; [done|]; change (connection_alive_ s1) with (connection_alive_ s); congruence].
    destruct (read_data_once_spec s1) as (s2 & E2 & H2 & _ & Hd). rewrite E2.
    destruct (IH s2) as (s3 & E3 & H3 & Hs).
    { destruct H2 as (_ & _ & ?). change (length (reads s1)) with (length (reads s)) in *. destruct Hd; [left; split; [done|]|right]; destruct Hf as [[? _]|]; try congruence; lia. }
    exists s3. split; [done|]. split; [by eapply reads_on_trans; [|eapply reads_on_trans]|done].
  - exists s1. split; [done|]. split; [done|]. intros _. destruct (find_start (inbuf s)) as [|b r] eqn:Eb; [done|].
    exists b, r. split; [done|]. by eapply find_start_head.
Qed.

Lemma first_index_bound c l p : first_index c l = Some p -> (p < length l)%nat.
Proof.
  revert p. induction l as [|b l IH]; intros p; simpl; [done|]. destruct (b =? c); [intros [= <-]; lia|].
  destruct (first_index c l); [|done]. intros [= <-]. specialize (IH n eq_refl). lia.
Qed.

Lemma await_end_spec fuel : forall c s, (length (reads s) + 1 <= fuel)%nat ->
  exists b s', await_end fuel c s = Ok (Some b, s') /\ reads_on s s' /\
  (exists more, inbuf s' = inbuf s ++ more) /\
  (b = true -> (packetend s' < length (inbuf s'))%nat) /\ (b = false -> connection_alive_ s' = false).
Proof.
  induction fuel as [|fuel IH]; intros c s Hf; [lia|].
  cbn [await_end]. unfold mbind, G_bind, gets. rewrite memchr_spec.
  destruct (first_index 35 (drop c (inbuf s))) as [p|] eqn:Ep.
  - exists true. eexists. split; [done|]. apply first_index_bound in Ep. rewrite length_drop in Ep.
    split; [done|]. split; [exists []; by rewrite app_nil_r|]. split; [intros _; simpl; lia|done].
  - destruct (read_data_once_spec s) as (s1 & E1 & H1 & (m1 & Hm1) & Hd). rewrite E1.
    destruct (connection_alive_ s1) eqn:Ea; cbn [negb].
    + destruct Hd as [|Hd]; [congruence|].
      destruct (IH (length (inbuf s)) s1) as (b & s2 & E2 & H2 & (m2 & Hm2) & Hb & Hc); [lia|].
      exists b, s2. split; [done|]. split; [by eapply reads_on_trans|].
      split; [exists (m1 ++ m2); by rewrite Hm2, Hm1, app_assoc|done].
    + exists false, s1. split; [done|]. split; [done|]. split; [by exists m1|done].
Qed.

Lemma write_flush_reads_on s : exists s', write_flush s = Ok (Some tt, s') /\ reads_on s s' /\ inbuf s' = inbuf s.
Proof. unfold write_flush, modify. destruct (flush_loop _ _ _) as [[ok ws] out]. by eexists. Qed.

(** Waiting for a packet returns, whatever the socket does. *)
Lemma read_packet_spec s :
  exists s', read_packet s = Ok (Some tt, s') /\ reads_on s s' /\ (connection_alive_ s' = true -> started s').
Proof.
  unfold read_packet. unfold mbind, G_bind, gets at 1.
  destruct (await_start_spec (read_fuel s) s) as (s1 & E1 & H1 & Hs1); [right; unfold read_fuel; lia|].
  rewrite E1. cbn [gets]. destruct (connection_alive_ s1) eqn:Ea; cbn [negb]; [|exists s1; split; [done|]; split; [done|congruence]].
  destruct (Hs1 eq_refl) as (b & r & Eb & Hb). rewrite Eb. cbn [head unwrap lift mbind res_bind].
  destruct (Z.eqb_spec b INTERRUPT_CHAR) as [|Hn].
  { eexists. split; [done|]. split; [done|]. intros _. exists b, r. done. }
  assert (b = 36) as ->. { revert Hb. unfold is_start. destruct (Z.eqb_spec b 36); [done|]. by rewrite (proj2 (Z.eqb_neq _ _) Hn). }
  destruct (await_end_spec (read_fuel s1) 0 s1) as (f & s2 & E2 & H2 & (more & Hm) & Hf & Hc); [unfold read_fuel; lia|].
  rewrite E2. pose proof (reads_on_trans _ _ _ H1 H2) as H12.
  destruct f; cbn [negb]; [|exists s2; split; [done|]; split; [done|]; rewrite Hc; done].
  rewrite Hm, Eb. cbn [app head unwrap mbind res_bind]. unfold assert, lift. cbn [mbind res_bind]. rewrite Z.eqb_refl. cbn [assert_ mbind res_bind].
  specialize (Hf eq_refl). rewrite Hm, Eb in Hf. cbn [app] in Hf.
  rewrite (proj2 (Nat.ltb_lt _ _) Hf). cbn [assert_ mbind res_bind].
  assert (started s2) as Hs2 by (exists 36, (r ++ more); by rewrite Hm, Eb).
  destruct (no_ack s2); [exists s2; done|].
  cbn [write_data_raw modify].
  match goal with |- context [write_flush ?x] => destruct (write_flush_reads_on x) as (s3 & E3 & H3 & Hi3) end.
  exists s3. split; [exact E3|]. split; [by eapply reads_on_trans|].
  intros _. destruct Hs2 as (b' & r' & ? & ?). exists b', r'. rewrite Hi3. done.
Qed.

End Reading.


(** ** Getting a request *)

(** Taking a bind apart at a state. *)
Lemma conn_bind {A B} (m : G A) (f : A -> G B) s a s' : m s = Ok (Some a, s') -> (m ≫= f) s = f a s'.
Proof. intros E. unfold mbind, G_bind. by rewrite E. Qed.

Lemma bind_inv {A B} (m : G A) (f : A -> G B) s r : (m ≫= f) s = r -> is_ok r = true ->
  (exists s', m s = Ok (None, s') /\ r = Ok (None, s')) \/ (exists a s', m s = Ok (Some a, s') /\ f a s' = r).
Proof.
  unfold mbind, G_bind. destruct (m s) as [[[a|] s']| | |]; intros <- Ho; try done; [right|left]; eauto.
Qed.

Lemma sniff_spec s : exists b s', sniff_packet s = Ok (Some b, s') /\ reads_on s s'.
Proof.
  pose proof (skip_reads_on s) as H1. unfold sniff_packet. rewrite (conn_bind _ _ _ _ _ (skip_spec s)).
  destruct (bool_decide_reflect (find_start (inbuf s) = [])) as [E|E]; cbn [negb]; [|by do 2 eexists].
  unfold gets, assert, lift, mbind, G_bind, poll_incoming. simpl. rewrite E. simpl. destruct (polls s); do 2 eexists; (split; [done|]);
    rewrite E in H1; [done|]. exact H1.
Qed.

Section Getting.
Context `{LibSpec} `{Resources}.

(** Processing a packet ends, keeps the request well typed, and takes the packet
    out of the buffer. *)
Lemma process_packet_spec s : req_ok (req s) -> started s ->
  match process_packet s with
  | Ok (_, s') => req_ok (req s') /\ reads s' = reads s /\
                  ((length (inbuf s') < length (inbuf s))%nat \/ inbuf s' = inbuf s)
  | Spin => False
  | _ => True
  end /\
  (forall s', process_packet s = Ok (Some false, s') -> (length (inbuf s') < length (inbuf s))%nat).
Proof.
  intros Hr (b & r & Eb & _). unfold process_packet.
  rewrite (conn_bind (gets inbuf) _ s (inbuf s) s) by done. rewrite Eb.
  rewrite (conn_bind (lift (unwrap (head (b :: r)))) _ s b s) by done.
  rewrite (conn_bind (gets packetend) _ s (packetend s) s) by done.
  set (chk := if b =? INTERRUPT_CHAR then mret tt else _).
  assert (chk s = Ok (Some tt, s) \/ chk s = Panic) as [Ec|Ec].
  { unfold chk. destruct (b =? INTERRUPT_CHAR); [by left|].
    unfold mbind, G_bind, assert, lift. destruct (b =? 36); cbn [assert_ mbind res_bind]; [|by right].
    destruct (unwrap _) eqn:Eu; cbn [mbind res_bind]; [|by right|by destruct (memchr 35 (b :: r))..].
    destruct (Nat.eqb _ _); [by left|by right]. }
  2:{ unfold mbind, G_bind. by rewrite Ec. }
  rewrite (conn_bind chk _ s tt s) by done. clear Ec chk.
  destruct (b =? INTERRUPT_CHAR).
  - unfold request, mbind, G_bind, lift, modify. cbn [new default_value mbind res_bind].
    split; [|done]. simpl. repeat split; left; lia.
  - pose proof (good_dispatch (H0 := H0)) as Hd.
    assert (good (c ← lift (unwrap ((b :: r) !! 1%nat)); payload ← lift (slice 2 (packetend s) (b :: r)); dispatch c payload)) as Hg
      by (good_tac; apply Hd).
    specialize (Hg s Hr). revert Hg. unfold mbind, G_bind.
    destruct (lift (unwrap ((b :: r) !! 1%nat)) s) as [[[c|] s1]| | |]; try done; [|intros [(? & ? & ?) ?]; split; [|done]; rewrite <- Eb; auto].
    destruct (lift (slice 2 (packetend s) (b :: r)) s1) as [[[pl|] s2]| | |]; try done; [|intros [(? & ? & ?) ?]; split; [|done]; rewrite <- Eb; auto].
    destruct (dispatch c pl s2) as [[[ret|] s3]| | |]; try done; [|intros [(? & ? & ?) ?]; split; [|done]; rewrite <- Eb; auto].
    intros [(Hi & Hre & _) Ht]. cbn [modify].
    set (s4 := set_inbuf (drop (S (packetend s)) (inbuf s3)) s3).
    assert (length (inbuf s4) < length (b :: r))%nat as Hlt by (unfold s4; simpl; rewrite Hi, Eb, length_drop; simpl; lia).
    assert (good (if ret then mret tt else consume_request)) as Hg by good_tac.
    specialize (Hg s4 Ht). destruct ((if ret then mret tt else consume_request) s4) as [[[[]|] s5]| | |]; try done.
    + destruct Hg as [(Hi5 & Hr5 & _) Ht5]. cbn [mret G_ret]. rewrite Hi5, Hr5. split; [|intros s' [= -> <-]; by rewrite Hi5].
      split; [done|]. split; [done|by left].
    + destruct Hg as [(Hi5 & Hr5 & _) Ht5]. rewrite Hi5, Hr5. split; [|done]. split; [done|]. split; [done|by left].
Qed.

Lemma request_loop_spec fuel : forall s, req_ok (req s) -> (input_size s < fuel)%nat ->
  match request_loop fuel s with
  | Ok (o, s') => req_ok (req s') /\ (forall r, o = Some r -> r = req s')
  | Spin => False
  | _ => True
  end.
Proof.
  induction fuel as [|fuel IH]; intros s Hr Hf; [lia|]. cbn [request_loop].
  destruct (read_packet_spec s) as (s1 & E1 & (Hz & Hq & Hl) & Hs1). rewrite (conn_bind _ _ _ _ _ E1).
  rewrite (conn_bind (gets connection_alive_) _ s1 _ s1 eq_refl).
  destruct (connection_alive_ s1) eqn:Ea; cbn [negb].
  2:{ unfold request, mbind, G_bind, lift, modify, gets. cbn [new default_value mbind res_bind].
      simpl. split; [done|]. intros ? [=]. done. }
  destruct (process_packet_spec s1) as [Hp Hlt]; [by rewrite Hq|auto|].
  unfold mbind at 1, G_bind at 1. destruct (process_packet s1) as [[[[]|] s2]| | |]; try done.
  - destruct Hp as (Ht & _). split; [done|]. intros ? [=]. done.
  - destruct Hp as (Ht & Hre & _). apply IH; [done|]. specialize (Hlt _ eq_refl).
    unfold input_size in *. rewrite Hre. lia.
  - by destruct Hp.
Qed.

Lemma get_request_spec s : req_ok (req s) ->
  match get_request s with
  | Ok (o, s') => req_ok (req s') /\ (forall r, o = Some r -> r = req s')
  | Spin => False
  | _ => True
  end.
Proof.
  intros Hr. unfold get_request. rewrite (conn_bind (gets req) _ s (req s) s) by done.
  destruct (type_ (req s) =? DREQ_RESTART) eqn:Et.
  - unfold notify_restart. rewrite (conn_bind (_ ≫= _) _ s tt (set_req (mkReq 0 GdbRequestNone ANY false)
      (set_query_thread ANY (set_resume_thread ANY s)))).
    2:{ unfold request, assert, lift, modify, gets, mbind, G_bind. rewrite Et. done. }
    unfold target_query, set_target, change, request, modify, gets, lift, mbind, G_bind.
    cbn. split; [done|]. by intros ? [=].
  - unfold assert, lift, mbind at 1, G_bind at 1. destruct (negb (request_needs_immediate_response (req s))); [|done].
    cbn [assert_ mbind res_bind].
    destruct (sniff_spec s) as (b & s1 & E1 & (_ & Hq & _)). rewrite (conn_bind _ _ _ _ _ E1).
    destruct (negb b && is_resume_request (req s)).
    + cbn. rewrite Hq. split; [done|]. by intros ? [=].
    + rewrite (conn_bind (gets input_size) _ s1 _ s1 eq_refl). apply request_loop_spec; [by rewrite Hq|lia].
Qed.

(** C25: whatever bytes the debugger sends, in whatever pieces, and however the socket
    fails, waiting for a request comes to an end: [get_request] returns a request,
    stops on malformed input, or exits, and its loops never run out of turns. *)
Theorem get_request_ends s : req_ok (req s) -> get_request s <> Spin.
Proof. intros Hr. pose proof (get_request_spec s Hr) as Hs. by destruct (get_request s). Qed.

(** C26: a request that is handed to the debug server has the value that belongs to
    its type: every accessor the server uses on requests of a type returns. *)
Theorem get_request_typed s r s' : req_ok (req s) -> get_request s = Ok (Some r, s') ->
  r = req s' /\ accessors_ok r.
Proof.
  intros Hr E. pose proof (get_request_spec s Hr) as Hs. rewrite E in Hs. destruct Hs as [Ht Hx].
  rewrite (Hx r eq_refl). split; [done|]. by apply req_ok_accessors.
Qed.

End Getting.


End ConnProofs.
