(* ===== verification/GdbRoundtrip.v ===== *)
(** Packets as a debugger writes them are read as the requests they stand for. *)

From Stdlib Require Import Ascii.
From S2P Require Import Prelude WaitStatus KernelMapping GdbText GdbRequest GdbConnection GdbParse GdbPackets GdbTextProofs GdbConnectionProofs.

Module Roundtrip.
Import Text Req Conn Parse Packets TextProofs ConnProofs.

(** ** The packets of a debugger *)

(** An action of a [vCont] packet; one without a target is for all other threads. *)
Record Action := mkItem { i_type : GdbActionType; i_sig : option Z; i_target : option GdbThreadId }.

Inductive Packet :=
| PContinue
| PReverse (action : GdbActionType)
| PDetach
| PGetRegs
| PStopReason
| PSelectThread (resume : bool) (t : GdbThreadId)
| PIsAlive (t : GdbThreadId)
| PGetMem (addr len : Z)
| PSetMem (addr : Z) (data : list Z)
| PGetReg (n : Z)
| PSetReg (n : Z) (bytes : list Z)
| PBreak (set : bool) (ty addr kind : Z) (conds : list (list Z))
| PVCont (first : Action) (rest : list Action)
| PCurrentThread
| PThreadList
| POffsets
| PTls (t : GdbThreadId) (offset load_module : Z)
| PExtraInfo (t : GdbThreadId)
| PAuxv (offset len : Z)
| PExecFile (p offset len : Z)
| PReadSiginfo (offset len : Z)
| PSearch (addr len : Z) (data : list Z)
| PRdCmd (text : list Z)
| PSymbol (address : option Z) (nm : list Z)
| PRestart
| PFileOpen (nm : list Z) (flags mode : Z)
| PFileClose (fd : Z)
| PFilePread (fd sz offset : Z)
| PFileSetfs (p : Z).

(** ** As text *)

Definition enc_id (n : Z) : list Z := if n <? 0 then 45 :: fmt_x (- n) else fmt_x n.
Definition enc_thread (t : GdbThreadId) : list Z := 112 :: enc_id (pid t) ++ 46 :: enc_id (tid t).

Definition enc_sig (c C : Z) (sig : option Z) : list Z :=
  match sig with None => [c] | Some n => C :: fmt_x n end.

Definition enc_action (a : Action) : list Z :=
  match i_type a with
  | ActionContinue => enc_sig 99 67 (i_sig a)
  | ActionStep => enc_sig 115 83 (i_sig a)
  end ++ match i_target a with Some t => 58 :: enc_thread t | None => [] end.

Definition enc_cond (bytes : list Z) : list Z :=
  88 :: fmt_x (Z.of_nat (length bytes)) ++ 44 :: hex_bytes bytes.

(** The request character and the rest of a packet. *)
Definition encode (p : Packet) : Z * list Z :=
  match p with
  | PContinue => (byte_of "c", [])
  | PReverse ActionContinue => (byte_of "b", lit "c")
  | PReverse ActionStep => (byte_of "b", lit "s")
  | PDetach => (byte_of "D", [])
  | PGetRegs => (byte_of "g", [])
  | PStopReason => (byte_of "?", [])
  | PSelectThread resume t => (byte_of "H", (if resume then 99 else 103) :: enc_thread t)
  | PIsAlive t => (byte_of "T", enc_thread t)
  | PGetMem addr len => (byte_of "m", fmt_x addr ++ 44 :: fmt_x len)
  | PSetMem addr data =>
      (byte_of "X", fmt_x addr ++ 44 :: fmt_x (Z.of_nat (length data)) ++ 58 :: escape data)
  | PGetReg n => (byte_of "p", fmt_x n)
  | PSetReg n bytes => (byte_of "P", fmt_x n ++ 61 :: hex_bytes bytes)
  | PBreak set ty addr kind conds =>
      (if set then byte_of "Z" else byte_of "z",
       fmt_x ty ++ 44 :: fmt_x addr ++ 44 :: fmt_x kind ++
       match conds with [] => [] | _ => 59 :: concat (map enc_cond conds) end)
  | PVCont a l => (byte_of "v", lit "Cont;" ++ enc_action a ++ concat (map (fun b => 59 :: enc_action b) l))
  | PCurrentThread => (byte_of "q", lit "C")
  | PThreadList => (byte_of "q", lit "fThreadInfo")
  | POffsets => (byte_of "q", lit "Offsets")
  | PTls t o m => (byte_of "q", lit "GetTLSAddr:" ++ enc_thread t ++ 44 :: fmt_x o ++ 44 :: fmt_x m)
  | PExtraInfo t => (byte_of "q", lit "ThreadExtraInfo," ++ enc_thread t)
  | PAuxv o l => (byte_of "q", lit "Xfer:auxv:read::" ++ fmt_x o ++ 44 :: fmt_x l)
  | PExecFile pid o l => (byte_of "q", lit "Xfer:exec-file:read:" ++ fmt_x pid ++ 58 :: fmt_x o ++ 44 :: fmt_x l)
  | PReadSiginfo o l => (byte_of "q", lit "Xfer:siginfo:read::" ++ fmt_x o ++ 44 :: fmt_x l)
  | PSearch addr len data =>
      (byte_of "q", lit "Search:memory:" ++ fmt_x addr ++ 59 :: fmt_x len ++ 59 :: escape data)
  | PRdCmd text => (byte_of "q", lit "RDCmd:" ++ text)
  | PSymbol None name => (byte_of "q", lit "Symbol::" ++ hex_bytes name)
  | PSymbol (Some a) name => (byte_of "q", lit "Symbol:" ++ fmt_x a ++ 58 :: hex_bytes name)
  | PRestart => (byte_of "v", lit "Run;")
  | PFileOpen name flags mode =>
      (byte_of "v", lit "File:open:" ++ hex_bytes name ++ 44 :: fmt_x flags ++ 44 :: fmt_x mode)
  | PFileClose fd => (byte_of "v", lit "File:close:" ++ fmt_x fd)
  | PFilePread fd size o => (byte_of "v", lit "File:pread:" ++ fmt_x fd ++ 44 :: fmt_x size ++ 44 :: fmt_x o)
  | PFileSetfs pid => (byte_of "v", lit "File:setfs:" ++ fmt_x pid)
  end.

(** ** The packets that can be written *)

Definition u64 (n : Z) : Prop := 0 <= n < USIZE.
Definition i32 (n : Z) : Prop := - 2147483648 <= n < 2147483648.
Definition nat31 (n : Z) : Prop := 0 <= n < 2147483648.
Definition i63 (n : Z) : Prop := 0 <= n < I64_BOUND.
Definition thread_ok (t : GdbThreadId) : Prop := i32 (pid t) /\ i32 (tid t).
Definition bytes_ok (l : list Z) : Prop := Forall is_byte l /\ Z.of_nat (length l) < USIZE.
Definition action_ok (a : Action) : Prop :=
  match i_sig a with Some n => 0 <= n < 128 | None => True end /\
  match i_target a with Some t => thread_ok t | None => True end.

Definition vcont_ok (l : list Action) : Prop :=
  Forall action_ok l /\ (length (List.filter (fun a => bool_decide (i_target a = None)) l) <= 1)%nat.

(** Packets with numbers in the range of the protocol.  The signal of an action is not zero,
    a command of rd does not contain the end of a packet, the names are plain characters,
    and the flags of a file to open are known. *)
Definition packet_ok (p : Packet) : Prop :=
  match p with
  | PSelectThread _ t | PIsAlive t | PExtraInfo t => thread_ok t
  | PGetMem a l | PAuxv a l | PReadSiginfo a l => u64 a /\ u64 l
  | PSetMem a d => u64 a /\ bytes_ok d
  | PGetReg n => 0 <= n < DREG_NUM_LINUX_X86_64
  | PSetReg n b => 0 <= n < DREG_NUM_LINUX_X86_64 /\ Forall is_byte b /\ (1 <= length b <= 16)%nat
  | PBreak _ ty a k c => 0 <= ty <= 4 /\ u64 a /\ u64 k /\ Forall bytes_ok c
  | PVCont a l => vcont_ok (a :: l) /\ Forall (fun a => i_sig a <> Some 0) (a :: l)
  | PTls t o m => thread_ok t /\ u64 o /\ u64 m
  | PExecFile p o l => nat31 p /\ u64 o /\ u64 l
  | PSearch a l d => u64 a /\ u64 l /\ Forall is_byte d
  | PRdCmd t => ~ In 35 t
  | PSymbol a n => match a with Some a => u64 a | None => True end /\ Forall (fun b => 0 <= b < 128) n
  | PFileOpen n f m => Forall (fun b => 0 <= b < 128) n /\ nat31 f /\ is_ok (gdb_open_flags_to_system_flags f) = true
                       /\ 0 <= m < 512
  | PFileClose fd => nat31 fd
  | PFilePread fd s o => nat31 fd /\ i63 s /\ i63 o
  | PFileSetfs p => nat31 p
  | _ => True
  end.

(** ** The requests they stand for *)

Definition action_of (a : Action) : GdbContAction :=
  mkAction (i_type a) (default ALL (i_target a)) (Signals.mkSig <$> i_sig a).

(** Actions with a target first. *)
Definition actions_of (l : list Action) : list GdbContAction :=
  action_of <$> (List.filter (fun a => negb (bool_decide (i_target a = None))) l
                 ++ List.filter (fun a => bool_decide (i_target a = None)) l).

Definition reg_of (bytes : list Z) : GdbRegisterValueData := reg_value (length bytes) bytes.

Definition request_of (p : Packet) (s : Conn) : GdbRequest :=
  let q := query_thread s in
  let none t tg := mkReq t GdbRequestNoAddlData tg false in
  match p with
  | PContinue => mkReq DREQ_CONT (GdbRequestCont (mkCont RunForward [mkAction ActionContinue ANY None])) ANY false
  | PReverse a => mkReq DREQ_CONT (GdbRequestCont (mkCont RunBackward [mkAction a (resume_thread s) None])) ANY false
  | PDetach => none DREQ_DETACH ANY
  | PGetRegs => none DREQ_GET_REGS q
  | PStopReason => none DREQ_GET_STOP_REASON q
  | PSelectThread resume t => none (if resume then DREQ_SET_CONTINUE_THREAD else DREQ_SET_QUERY_THREAD) t
  | PIsAlive t => none DREQ_GET_IS_THREAD_ALIVE t
  | PGetMem a l => mkReq DREQ_GET_MEM (GdbRequestMem (mkMem a l [])) q false
  | PSetMem a d => mkReq DREQ_SET_MEM (GdbRequestMem (mkMem a (Z.of_nat (length d)) d)) q false
  | PGetReg n => mkReq DREQ_GET_REG (GdbRequestRegisterValue (mkReg n (Value8 0) false 0)) q false
  | PSetReg n b => mkReq DREQ_SET_REG (GdbRequestRegisterValue (mkReg n (reg_of b) true (length b))) q false
  | PBreak set ty a k c =>
      mkReq (ty + if set then DREQ_SET_SW_BREAK else DREQ_REMOVE_SW_BREAK) (GdbRequestWatch (mkWatch a k c)) ANY false
  | PVCont a l => mkReq DREQ_CONT (GdbRequestCont (mkCont RunForward (actions_of (a :: l)))) ANY false
  | PCurrentThread => none DREQ_GET_CURRENT_THREAD ANY
  | PThreadList => none DREQ_GET_THREAD_LIST ANY
  | POffsets => none DREQ_GET_OFFSETS q
  | PTls t o m => mkReq DREQ_TLS (GdbRequestTls (mkTls o m)) t false
  | PExtraInfo t => none DREQ_GET_THREAD_EXTRA_INFO t
  | PAuxv _ _ => none DREQ_GET_AUXV q
  | PExecFile p _ _ => none DREQ_GET_EXEC_FILE (mkThread p p)
  | PReadSiginfo o l => mkReq DREQ_READ_SIGINFO (GdbRequestMem (mkMem o l [])) q false
  | PSearch a l d => mkReq DREQ_SEARCH_MEM (GdbRequestMem (mkMem a l d)) q false
  | PRdCmd t => mkReq DREQ_RD_CMD (GdbRequestText t) ANY false
  | PSymbol a n =>
      mkReq DREQ_QSYMBOL (GdbRequestSymbol (mkSymbol (bool_decide (is_Some a)) (default 0 a) n)) ANY false
  | PRestart => mkReq DREQ_RESTART (GdbRequestRestart (mkRestart 0 [] RestartFromPrevious)) ANY false
  | PFileOpen n f m =>
      mkReq DREQ_FILE_OPEN (GdbRequestFileOpen (mkOpen n (match gdb_open_flags_to_system_flags f with Ok x => x | _ => 0 end) m))
        ANY false
  | PFileClose fd => mkReq DREQ_FILE_CLOSE (GdbRequestFileClose (mkClose fd)) ANY false
  | PFilePread fd s o => mkReq DREQ_FILE_PREAD (GdbRequestFilePread (mkPread fd s o)) ANY false
  | PFileSetfs p => mkReq DREQ_FILE_SETFS (GdbRequestFileSetfs (mkSetfs p)) ANY false
  end.

(** ** Text without a character *)

Definition clean (c : Z) (l : list Z) : Prop := Forall (fun b => b <> c) l.

Lemma clean_hex c l : is_hex c = false -> Forall (fun c => is_hex c = true) l -> clean c l.
Proof. intros Hc Hl. eapply Forall_impl; [exact Hl|]. simpl. intros x Hx ->. congruence. Qed.

Lemma clean_fmt_x c n : is_hex c = false -> 0 <= n -> clean c (fmt_x n).
Proof. intros Hc Hn. apply clean_hex; [done|]. by apply fmt_x_hex. Qed.

Lemma fmt_02x_hex b : is_byte b -> Forall (fun c => is_hex c = true) (fmt_02x b).
Proof.
  intros Hb. rewrite (fmt_02x_byte b Hb). destruct Hb.
  repeat constructor; apply is_hex_digit; [split; [apply Z.div_pos|apply Z.div_lt_upper_bound]; lia|apply Z.mod_pos_bound; lia].
Qed.

Lemma hex_bytes_hex l : Forall is_byte l -> Forall (fun c => is_hex c = true) (hex_bytes l).
Proof.
  intros Hl. unfold hex_bytes. induction Hl as [|b l Hb Hl IH]; simpl; [constructor|].
  apply Forall_app. split; [by apply fmt_02x_hex|done].
Qed.

Lemma clean_enc_id c n : is_hex c = false -> c <> 45 -> clean c (enc_id n).
Proof.
  intros Hc Hm. unfold enc_id. destruct (Z.ltb_spec n 0); [constructor; [done|]|]; apply clean_fmt_x; done || lia.
Qed.

Lemma clean_enc_thread c t : is_hex c = false -> c <> 45 -> c <> 46 -> c <> 112 -> clean c (enc_thread t).
Proof.
  intros. unfold enc_thread. constructor; [done|]. apply Forall_app. split; [by apply clean_enc_id|].
  constructor; [done|by apply clean_enc_id].
Qed.

Lemma clean_escape c l : c = 35 \/ c = 36 -> clean c (escape l).
Proof. intros Hc. eapply Forall_impl; [apply escape_clean|]. simpl. intros x (? & ? & ?). destruct Hc; by subst. Qed.

(** A literal without the character. *)
Lemma clean_lit c s : forallb (fun b => negb (b =? c)) (lit s) = true -> clean c (lit s).
Proof.
  intros Hs. apply List.Forall_forall. intros x Hx. rewrite forallb_forall in Hs.
  specialize (Hs x Hx). by destruct (Z.eqb_spec x c).
Qed.

Lemma clean_app c l1 l2 : clean c l1 -> clean c l2 -> clean c (l1 ++ l2).
Proof. intros. by apply Forall_app. Qed.
Lemma clean_cons c b l : b <> c -> clean c l -> clean c (b :: l).
Proof. by constructor. Qed.
Lemma clean_nil c : clean c [].
Proof. constructor. Qed.

#[local] Hint Resolve clean_app clean_cons clean_nil : clean.
#[local] Hint Extern 2 (clean _ (fmt_x _)) => apply clean_fmt_x; [done|unfold u64, nat31, i63 in *; lia] : clean.
#[local] Hint Extern 2 (clean _ (enc_thread _)) => apply clean_enc_thread; done : clean.
#[local] Hint Extern 2 (clean _ (escape _)) => apply clean_escape; tauto : clean.
#[local] Hint Extern 2 (clean _ (lit _)) => apply clean_lit; done : clean.
#[local] Hint Extern 2 (clean _ (hex_bytes _)) => apply clean_hex; [done|apply hex_bytes_hex; done] : clean.

Lemma first_index_app c l r : clean c l -> first_index c (l ++ c :: r) = Some (length l).
Proof.
  intros Hl. induction Hl as [|b l Hb Hl IH]; simpl; [by rewrite Z.eqb_refl|].
  rewrite (proj2 (Z.eqb_neq b c) Hb). by rewrite IH.
Qed.

Lemma first_index_clean c l : clean c l -> first_index c l = None.
Proof. intros Hl. induction Hl as [|b l Hb Hl IH]; simpl; [done|]. rewrite (proj2 (Z.eqb_neq b c) Hb). by rewrite IH. Qed.

Section Decode.
Context `{LibSpec} `{Resources}.

Lemma split_at_app c l r : clean c l -> split_at c (l ++ c :: r) = Some (l, r).
Proof.
  intros Hl. unfold split_at. rewrite memchr_spec, first_index_app by done.
  rewrite take_app_length. f_equal. f_equal.
  rewrite (cons_middle c l r), app_assoc, drop_app_length'; [done|]. rewrite length_app. simpl. lia.
Qed.

Lemma split_at_clean c l : clean c l -> split_at c l = None.
Proof. intros Hl. unfold split_at. by rewrite memchr_spec, first_index_clean. Qed.

(** ** Pieces of packets *)

Lemma ends_number_char c r : is_hex c = false -> c <> 120 -> c <> 88 -> ends_number (c :: r).
Proof. done. Qed.

Lemma expect_cons c r : expect c (c :: r) = Ok r.
Proof. simpl. by rewrite Z.eqb_refl. Qed.

Lemma at_end_nil : at_end [] = Ok tt.
Proof. done. Qed.

Lemma isize_at_id n rest : i32 n -> ends_number rest -> isize_at (enc_id n ++ rest) = Ok (n, rest).
Proof.
  intros Hn Hr. unfold enc_id, i32 in *. destruct (Z.ltb_spec n 0).
  - cbn [app]. rewrite isize_at_neg by (done || lia). f_equal. f_equal. lia.
  - apply isize_at_fmt; [lia|done].
Qed.

Lemma to_i32_ok n : i32 n -> to_i32 n = Ok n.
Proof. intros [? ?]. unfold to_i32. by rewrite (proj2 (Z.leb_le _ _)), (proj2 (Z.ltb_lt _ _)). Qed.

Lemma parse_threadid_enc t rest : thread_ok t -> ends_number rest -> parse_threadid (enc_thread t ++ rest) = Ok (t, rest).
Proof.
  intros [Hp Ht] Hr. unfold parse_threadid, enc_thread. cbn [app head unwrap mbind res_bind].
  change (112 =? 112) with true. cbn iota. cbn [tail].
  rewrite <- app_assoc. cbn [app]. rewrite isize_at_id by (done || by apply ends_number_char).
  cbn [mbind res_bind fst snd]. rewrite to_i32_ok by done. cbn [mbind res_bind].
  rewrite expect_cons. cbn [mbind res_bind]. rewrite isize_at_id by done. cbn [mbind res_bind fst snd].
  rewrite to_i32_ok by done. cbn [mbind res_bind]. by destruct t.
Qed.

Lemma to_u8_ok b : is_byte b -> to_u8 b = Ok b.
Proof. intros [? ?]. unfold to_u8. by rewrite (proj2 (Z.leb_le _ _)), (proj2 (Z.ltb_lt _ _)). Qed.

Lemma hex_byte_loop_enc l rest : Forall is_byte l -> hex_byte_loop (hex_bytes l ++ rest) (Z.of_nat (length l)) = Ok (l, rest).
Proof.
  intros Hl. unfold hex_bytes. induction Hl as [|b l Hb Hl IH].
  - simpl. by destruct rest as [|? [|]].
  - cbn [map concat length]. rewrite (fmt_02x_byte b Hb). cbn [app hex_byte_loop].
    destruct (Z.leb_spec (Z.of_nat (S (length l))) 0); [lia|].
    rewrite <- (fmt_02x_byte b Hb), usize_at_byte by done. cbn [mbind res_bind fst snd]. rewrite to_u8_ok by done.
    cbn [mbind res_bind]. rewrite at_end_nil. cbn [mbind res_bind].
    replace (Z.of_nat (S (length l)) - 1) with (Z.of_nat (length l)) by lia. by rewrite IH.
Qed.

Lemma length_hex_bytes l : Forall is_byte l -> length (hex_bytes l) = (2 * length l)%nat.
Proof.
  intros Hl. unfold hex_bytes. induction Hl as [|b l Hb Hl IH]; [done|].
  cbn [map concat length]. rewrite length_app, (fmt_02x_byte b Hb). simpl in *. lia.
Qed.

Lemma hex_pair_byte b : is_byte b -> hex_pair (hex_digit (b / 16)) (hex_digit (b mod 16)) = Ok b.
Proof.
  intros [? ?]. assert (0 <= b / 16 < 16) by (split; [apply Z.div_pos|apply Z.div_lt_upper_bound]; lia).
  pose proof (Z.mod_pos_bound b 16 ltac:(lia)). pose proof (Z.div_mod b 16 ltac:(lia)).
  unfold hex_pair. rewrite !is_hex_digit, !digit_value_digit by lia. simpl. f_equal. lia.
Qed.

Lemma decode_hex_bytes l : Forall (fun b => 0 <= b < 128) l -> decode_ascii_encoded_hex_str (hex_bytes l) = Ok l.
Proof.
  intros Hl. assert (Forall is_byte l) as Hb by (eapply Forall_impl; [exact Hl|]; unfold is_byte; simpl; lia).
  unfold decode_ascii_encoded_hex_str. rewrite length_hex_bytes by done.
  replace (Nat.even (2 * length l)) with true by (symmetry; apply Nat.even_spec; by exists (length l)).
  cbn [assert_ mbind res_bind]. unfold hex_bytes. induction Hl as [|b l Hr Hl IH]; [done|].
  apply Forall_cons in Hb as [Hb Hb']. cbn [map concat]. rewrite (fmt_02x_byte b Hb). cbn [app decode_pairs].
  rewrite hex_pair_byte by done. cbn [mbind res_bind]. rewrite (proj2 (Z.ltb_lt b 128)) by lia. cbn [assert_ mbind res_bind].
  unfold hex_bytes in IH. by rewrite IH.
Qed.

Lemma conditions_loop_enc cs : Forall bytes_ok cs -> forall fuel, (length cs <= fuel)%nat ->
  conditions_loop fuel (concat (map enc_cond cs)) = Ok (cs, []).
Proof.
  intros Hc. induction Hc as [|b cs [Hb Hl] Hc IH]; intros fuel Hf; [by destruct fuel|].
  destruct fuel as [|fuel]; [simpl in Hf; lia|]. cbn [map concat]. unfold enc_cond at 1.
  rewrite <- app_comm_cons, <- app_assoc. cbn [app conditions_loop].
  rewrite usize_at_fmt by (lia || by apply ends_number_char). cbn [mbind res_bind fst snd].
  rewrite expect_cons. cbn [mbind res_bind]. rewrite hex_byte_loop_enc by done. cbn [mbind res_bind fst snd].
  rewrite IH by (simpl in Hf; lia). done.
Qed.

Lemma conditions_enc cs : Forall bytes_ok cs ->
  conditions (match cs with [] => [] | _ => 59 :: concat (map enc_cond cs) end) = Ok (cs, []).
Proof.
  intros Hc. destruct cs as [|b cs]; [done|]. cbn [conditions]. apply conditions_loop_enc; [done|].
  clear Hc. generalize (b :: cs). intros l. induction l as [|c l IH]; [done|].
  cbn [map concat length]. rewrite length_app. unfold enc_cond at 1. cbn [length]. lia.
Qed.

(** *** [vCont] *)

Definition enc_cmd (a : Action) : list Z :=
  match i_type a with ActionContinue => enc_sig 99 67 (i_sig a) | ActionStep => enc_sig 115 83 (i_sig a) end.

Definition sep_ok (tl : list Z) : Prop := tl = [] \/ exists more, tl = 59 :: more.
Definition after_sep (tl : list Z) : list Z := tail tl.

Lemma enc_cmd_plain a : action_ok a -> enc_cmd a <> [] /\
  Forall (fun c => negb (c =? 58) && negb (c =? 59) = true) (enc_cmd a).
Proof.
  intros [Hs _]. unfold enc_cmd, enc_sig.
  assert (forall n, 0 <= n -> Forall (fun c => negb (c =? 58) && negb (c =? 59) = true) (fmt_x n)) as Hx.
  { intros n Hn. eapply Forall_impl; [by apply fmt_x_hex|]. simpl. intros c Hc%is_hex_range.
    destruct (Z.eqb_spec c 58), (Z.eqb_spec c 59); done || lia. }
  destruct (i_type a), (i_sig a); (split; [done|]); repeat constructor; apply Hx; lia.
Qed.

Lemma take_while_none f tl : match tl with [] => True | c :: _ => f c = false end -> take_while f tl = ([], tl).
Proof. destruct tl as [|c tl]; simpl; [done|]. by intros ->. Qed.

Lemma sep_split tl : sep_ok tl -> match split_at 59 tl with Some (_, a) => a | None => [] end = after_sep tl.
Proof. intros [->|(more & ->)]; [by rewrite split_at_clean by constructor|]. change (59 :: more) with ([] ++ 59 :: more). by rewrite split_at_app by constructor. Qed.

Lemma cont_item_enc a tl : action_ok a -> sep_ok tl ->
  cont_item (enc_action a ++ tl) = Ok (enc_cmd a, i_target a, after_sep tl).
Proof.
  intros Ha Hs. destruct (enc_cmd_plain a Ha) as [Hne Hp]. destruct Ha as [_ Ht].
  unfold enc_action. fold (enc_cmd a). rewrite <- app_assoc. unfold cont_item.
  rewrite take_while_app; [|done|].
  2:{ destruct (i_target a); [done|]. destruct Hs as [->|(more & ->)]; done. }
  assert (ends_number tl) as He by (destruct Hs as [->|(more & ->)]; [done|by apply ends_number_char]).
  assert (negb (bool_decide (enc_cmd a = [])) = true) as Hb by (by rewrite bool_decide_false).
  rewrite Hb. cbn [assert_]. destruct (i_target a) as [t|].
  - cbn [app]. change (58 =? 58) with true. cbn iota. rewrite parse_threadid_enc by done. cbn [mbind res_bind fst snd].
    by rewrite sep_split.
  - cbn [app]. destruct Hs as [->|(more & ->)]; cbn [mbind res_bind fst snd].
    + by rewrite split_at_clean by constructor.
    + change (59 =? 58) with false. cbn [mbind res_bind fst snd]. by rewrite (sep_split (59 :: more)) by (right; by exists more).
Qed.

Lemma cont_command_enc a : action_ok a -> cont_command (enc_cmd a) = Ok (Command_ok (i_type a) (Signals.mkSig <$> i_sig a)).
Proof.
  intros [Hs _]. unfold enc_cmd, enc_sig. destruct (i_type a), (i_sig a) as [n|]; try done; cbn [cont_command];
    rewrite <- (app_nil_r (fmt_x n)), usize_at_fmt by (done || lia); cbn;
    unfold Signals.try_from_usize; rewrite (proj2 (Z.ltb_lt n 128)) by lia; done.
Qed.

Definition defaults (l : list Action) : list Action := List.filter (fun a => bool_decide (i_target a = None)) l.
Definition targeted (l : list Action) : list Action := List.filter (fun a => negb (bool_decide (i_target a = None))) l.

(** The text of actions separated by semicolons. *)
Definition enc_actions (l : list Action) : list Z :=
  match l with [] => [] | a :: l => enc_action a ++ concat (map (fun b => 59 :: enc_action b) l) end.

Lemma enc_actions_tail l : after_sep (concat (map (fun b => 59 :: enc_action b) l)) = enc_actions l
  /\ sep_ok (concat (map (fun b => 59 :: enc_action b) l)).
Proof. destruct l as [|a l]; simpl; (split; [done|]); [by left|right; by eexists]. Qed.

Lemma enc_action_ne a : action_ok a -> enc_action a <> [].
Proof. intros [Hn _]%enc_cmd_plain E%app_eq_nil. by destruct E. Qed.

Lemma cont_loop_enc l : Forall action_ok l -> forall fuel acts def,
  (length l <= fuel)%nat -> (length (defaults l) + length (option_list def) <= 1)%nat ->
  cont_loop fuel (enc_actions l) acts def
  = Ok (Some (acts ++ (action_of <$> targeted l), match def with Some d => Some d | None => head (action_of <$> defaults l) end)).
Proof.
  intros Hl. induction Hl as [|a l Ha Hl IH]; intros fuel acts def Hf Hd.
  - destruct fuel; cbn; rewrite app_nil_r; by destruct def.
  - destruct fuel as [|fuel]; [simpl in Hf; lia|]. destruct (enc_actions_tail l) as [Et Es].
    unfold enc_actions. destruct (enc_action a ++ concat (map (fun b => 59 :: enc_action b) l)) as [|c r] eqn:Ec.
    { apply app_eq_nil in Ec as [Ec _]. by apply enc_action_ne in Ec. }
    cbn [cont_loop]. rewrite <- Ec. rewrite cont_item_enc by done. cbn [mbind res_bind].
    rewrite cont_command_enc by done. cbn [mbind res_bind]. rewrite Et.
    unfold defaults, targeted in *. cbn [List.filter] in *. destruct (i_target a) as [t|] eqn:Ea.
    + rewrite bool_decide_false in * by done. cbn [negb] in *. rewrite IH by (simpl in Hf; lia). f_equal. f_equal. f_equal.
      rewrite <- app_assoc. cbn. do 2 f_equal. unfold action_of. by rewrite Ea.
    + rewrite bool_decide_true in * by done. cbn [negb] in *. cbn [length] in Hd.
      destruct def as [d|]; [simpl in Hd; lia|]. rewrite IH by (simpl in *; lia). cbn. unfold new_action, action_of. by rewrite Ea.
Qed.

Lemma length_enc_actions l : Forall action_ok l -> (length l <= length (enc_actions l))%nat.
Proof.
  intros Hl. destruct Hl as [|a l Ha Hl]; [done|]. unfold enc_actions. rewrite length_app.
  assert (length l <= length (concat (map (fun b => 59%Z :: enc_action b) l)))%nat as H1.
  { clear. induction l as [|b l IH]; [done|]. cbn [map concat length]. rewrite length_app. simpl. lia. }
  apply enc_action_ne in Ha. destruct (enc_action a); [done|]. simpl. lia.
Qed.

Lemma actions_of_eq l : (length (defaults l) <= 1)%nat ->
  (action_of <$> targeted l) ++ option_list (head (action_of <$> defaults l)) = actions_of l.
Proof.
  intros Hd. unfold actions_of. fold (targeted l) (defaults l). rewrite fmap_app. f_equal.
  destruct (defaults l) as [|d [|]]; [done|done|simpl in Hd; lia].
Qed.

(** ** Running packets *)

Lemma step_bind {A B} (m : G A) (f : A -> G B) s a s' r : m s = Ok (Some a, s') -> f a s' = r -> (m ≫= f) s = r.
Proof. intros E <-. by apply conn_bind. Qed.

Lemma run_lift {A} (m : res A) a s : m = Ok a -> lift m s = Ok (Some a, s).
Proof. by intros ->. Qed.


(** Facts about the text of a packet. *)
Ltac text_tac :=
  first [ done | lia | apply ends_number_char; done | by apply usize_at_fmt | by apply isize_at_fmt | by apply expect_cons ].

(** One operation, which only reads text or changes the request. *)
Ltac gstep :=
  eapply step_bind;
  [ first
      [ reflexivity
      | eapply run_lift; first
          [ apply usize_at_fmt; text_tac | apply isize_at_fmt; text_tac | apply expect_cons
          | apply parse_threadid_enc; text_tac | eassumption ] ]
  | cbn [fst snd] ].

(** [p] is handled by [m], whose result is its request. *)
Definition understood (m : G bool) (p : Packet) : Prop :=
  forall s, m s = Ok (Some true, set_req (request_of p s) s).

Lemma reads_get_mem addr len : u64 addr -> u64 len ->
  understood (packet_get_mem (fmt_x addr ++ 44 :: fmt_x len)) (PGetMem addr len).
Proof.
  intros Ha Hl s. unfold packet_get_mem. rewrite <- (app_nil_r (fmt_x len)). repeat gstep. reflexivity.
Qed.

Lemma reads_set_mem addr data : u64 addr -> bytes_ok data ->
  understood (packet_set_mem (fmt_x addr ++ 44 :: fmt_x (Z.of_nat (length data)) ++ 58 :: escape data)) (PSetMem addr data).
Proof.
  intros Ha [Hb Hl] s. pose proof (read_binary_escape data) as He. unfold packet_set_mem.
  do 8 gstep. eapply step_bind; [by rewrite Z.eqb_refl|]. reflexivity.
Qed.

Lemma reads_select_thread (resume : bool) t : thread_ok t ->
  understood (packet_select_thread ((if resume then 99 else 103) :: enc_thread t)) (PSelectThread resume t).
Proof.
  intros Ht s. unfold packet_select_thread. rewrite <- (app_nil_r (enc_thread t)).
  destruct resume; cbn [head tail]; repeat gstep; reflexivity.
Qed.

Lemma reads_thread_alive t : thread_ok t -> understood (packet_thread_alive (enc_thread t)) (PIsAlive t).
Proof.
  intros Ht s. unfold packet_thread_alive. rewrite <- (app_nil_r (enc_thread t)). repeat gstep; reflexivity.
Qed.

Lemma reg_number_enc n rest : 0 <= n < DREG_NUM_LINUX_X86_64 -> ends_number rest ->
  reg_number (fmt_x n ++ rest) = Ok (n, rest).
Proof.
  unfold DREG_NUM_LINUX_X86_64. intros Hn Hr. unfold reg_number. rewrite usize_at_fmt by (done || lia).
  cbn [mbind res_bind fst snd]. unfold to_u32. rewrite (proj2 (Z.leb_le _ _)), (proj2 (Z.ltb_lt _ _)) by lia.
  cbn [andb mbind res_bind]. unfold to_register, DREG_NUM_LINUX_X86_64. by rewrite (proj2 (Z.ltb_lt _ _)) by lia.
Qed.

Lemma reads_get_reg n : 0 <= n < DREG_NUM_LINUX_X86_64 -> understood (packet_get_reg (fmt_x n)) (PGetReg n).
Proof.
  intros Hn s. pose proof (reg_number_enc n [] Hn I) as Hr. rewrite app_nil_r in Hr.
  unfold packet_get_reg. repeat gstep. reflexivity.
Qed.

Lemma read_reg_value_enc b g : Forall is_byte b -> (1 <= length b <= 16)%nat ->
  read_reg_value (hex_bytes b) g = Ok (mkReg (name g) (reg_of b) true (length b), []).
Proof.
  intros Hb Hl. unfold read_reg_value. pose proof (hex_bytes_hex b Hb) as Hh. pose proof (length_hex_bytes b Hb) as Hlen.
  destruct (hex_bytes b) as [|c r] eqn:Eh; [simpl in Hlen; lia|].
  cbn [head unwrap mbind res_bind]. apply Forall_inv, is_hex_range in Hh.
  destruct (Z.eqb_spec c 120); [lia|]. rewrite <- Eh in *. rewrite Hlen.
  replace (Nat.even (2 * length b)) with true by (symmetry; apply Nat.even_spec; by exists (length b)).
  rewrite Nat.div2_double. cbn [assert_ mbind res_bind]. rewrite <- (app_nil_r (hex_bytes b)), hex_byte_loop_enc by done.
  cbn [mbind res_bind fst snd]. unfold MAX_SIZE. rewrite (proj2 (Nat.leb_le _ _)) by lia. done.
Qed.

Lemma reads_set_reg n b : 0 <= n < DREG_NUM_LINUX_X86_64 -> Forall is_byte b -> (1 <= length b <= 16)%nat ->
  understood (packet_set_reg (fmt_x n ++ 61 :: hex_bytes b)) (PSetReg n b).
Proof.
  intros Hn Hb Hl s. pose proof (reg_number_enc n (61 :: hex_bytes b) Hn ltac:(done)) as Hr. unfold packet_set_reg.
  do 7 gstep.
  eapply step_bind; [by eapply run_lift, read_reg_value_enc|]. cbn [fst snd]. repeat gstep. reflexivity.
Qed.

Lemma reads_watch set ty addr kind conds : 0 <= ty <= 4 -> u64 addr -> u64 kind -> Forall bytes_ok conds ->
  understood (packet_watch set (encode (PBreak set ty addr kind conds)).2) (PBreak set ty addr kind conds).
Proof.
  intros Ht Ha Hk Hc s. cbn [encode snd]. pose proof (conditions_enc conds Hc) as He.
  set (tl := match conds with [] => [] | _ => _ end) in *.
  assert (ends_number tl) as Htl by (destruct conds; [done|by apply ends_number_char]).
  unfold packet_watch. gstep.
  eapply step_bind; [apply run_lift; unfold to_u32; rewrite (proj2 (Z.leb_le _ _)), (proj2 (Z.ltb_lt _ _)) by lia; reflexivity|].
  gstep. destruct (Z.ltb_spec 4 ty); [lia|].
  assert (request (ty + (if set then DREQ_SET_SW_BREAK else DREQ_REMOVE_SW_BREAK)) s
    = Ok (Some tt, set_req (mkReq (ty + (if set then DREQ_SET_SW_BREAK else DREQ_REMOVE_SW_BREAK))
                              (GdbRequestWatch default_watch) ANY false) s)) as Hq.
  { assert (ty = 0 \/ ty = 1 \/ ty = 2 \/ ty = 3 \/ ty = 4) as Hty by lia.
    destruct Hty as [->|[->|[->|[->| ->]]]], set; reflexivity. }
  eapply step_bind; [exact Hq|]. cbn beta. do 3 gstep. gstep. repeat gstep. reflexivity.
Qed.

Lemma reads_vcont a l : vcont_ok (a :: l) ->
  understood (vpacket_cont (enc_actions (a :: l))) (PVCont a l).
Proof.
  intros [Hok Hd] s. unfold vpacket_cont.
  eapply step_bind; [apply run_lift, (cont_loop_enc (a :: l) Hok)|].
  - pose proof (length_enc_actions (a :: l) Hok). lia.
  - unfold defaults. simpl in *. lia.
  - cbn [app]. gstep. eapply step_bind; [reflexivity|]. rewrite actions_of_eq by done. reflexivity.
Qed.

(** The signal zero, which the documentation represents by none, is delivered as a signal. *)
Lemma vcont_signal_zero t s : thread_ok t -> exists s', vpacket_cont (enc_actions [mkItem ActionContinue (Some 0) (Some t)]) s = Ok (Some true, s') /\
  req s' = mkReq DREQ_CONT (GdbRequestCont (mkCont RunForward [mkAction ActionContinue t (Some (Signals.mkSig 0))])) ANY false.
Proof.
  intros Ht. eexists. split; [apply (reads_vcont (mkItem ActionContinue (Some 0) (Some t)) []); split; [|by apply Nat.leb_le]; apply Forall_singleton; split; [cbn; lia|exact Ht]|]. reflexivity.
Qed.

(** *** Queries *)

(** Compare literals. *)
Ltac lit_tac :=
  repeat match goal with
  | |- context [bytes_eqb (lit ?a) (lit ?b)] =>
      let v := eval vm_compute in (bytes_eqb (lit a) (lit b)) in change (bytes_eqb (lit a) (lit b)) with v
  | |- context [bytes_eqb [] []] => change (bytes_eqb [] []) with true
  | |- context [KMap.starts_with (lit ?a) (lit ?b)] =>
      let v := eval vm_compute in (KMap.starts_with (lit a) (lit b)) in
      change (KMap.starts_with (lit a) (lit b)) with v
  end; cbn iota; cbn [negb andb].

(** Split a packet at the end of the literal [nm]. *)
Ltac split_tac c nm :=
  rewrite (split_at_app c (lit nm)) by (apply clean_lit; reflexivity).

(** The first letter of the name is no P. *)
Ltac first_letter :=
  eapply step_bind; [reflexivity|]; cbn beta;
  match goal with |- context [?x =? 80] => let v := eval vm_compute in (x =? 80) in change (x =? 80) with v end; cbn iota.

Lemma reads_tls t o m : thread_ok t -> u64 o -> u64 m -> understood (query (encode (PTls t o m)).2) (PTls t o m).
Proof.
  intros Ht Ho Hm s. cbn [encode snd]. rewrite <- (app_nil_r (fmt_x m)).
  change (query (lit "GetTLSAddr" ++ 58 :: enc_thread t ++ 44 :: fmt_x o ++ 44 :: fmt_x m ++ []) s
          = Ok (Some true, set_req (request_of (PTls t o m) s) s)).
  unfold query. split_tac 58 "GetTLSAddr"%string. lit_tac. gstep. unfold query_tls. do 3 gstep.
  eapply step_bind; [apply run_lift; rewrite expect_cons; apply usize_at_fmt; text_tac|]. cbn [fst snd].
  eapply step_bind; [apply run_lift; rewrite expect_cons; apply usize_at_fmt; text_tac|]. cbn [fst snd].
  repeat gstep. reflexivity.
Qed.

Lemma bytes_eqb_ne a b : a <> b -> bytes_eqb a b = false.
Proof. intros Hn. by apply bool_decide_false. Qed.

(** A text that starts with a literal differs from others. *)
Ltac differ_tac := repeat (rewrite bytes_eqb_ne by discriminate); cbn iota; cbn [negb andb].

Lemma reads_extra_info t : thread_ok t -> understood (query (encode (PExtraInfo t)).2) (PExtraInfo t).
Proof.
  intros Ht s. cbn [encode snd]. unfold query.
  rewrite split_at_clean by (apply clean_app; [apply clean_lit; reflexivity|by apply clean_enc_thread]).
  change (lit "ThreadExtraInfo," ++ enc_thread t) with (lit "ThreadExtraInfo" ++ 44 :: enc_thread t).
  differ_tac. first_letter. split_tac 44 "ThreadExtraInfo"%string. rewrite <- (app_nil_r (enc_thread t)).
  change (KMap.starts_with (lit "ThreadExtraInfo" ++ 44 :: enc_thread t ++ []) (lit "ThreadExtraInfo")) with true. cbn iota.
  repeat gstep. reflexivity.
Qed.

(** The arguments of [qXfer:object:read:annex:offset,length]. *)
Lemma xfer_read s name annex o l (Q : res (option bool * Conn)) : clean 58 annex -> u64 o -> u64 l ->
  (if bytes_eqb name (lit "auxv") then
     if negb (bytes_eqb annex []) then reply_done (lit "E00")
     else _ ← request DREQ_GET_AUXV; _ ← target_query; mret true
   else if bytes_eqb name (lit "exec-file") then
     _ ← request DREQ_GET_EXEC_FILE;
     v ← lift (usize_at annex);
     t ← lift (to_i32 v.1);
     _ ← set_target (mkThread t t);
     mret true
   else if bytes_eqb name (lit "siginfo") then
     if negb (bytes_eqb annex []) then reply_done (lit "E00")
     else
       _ ← request DREQ_READ_SIGINFO;
       _ ← target_query;
       _ ← change (mem_mut (fun m => mkMem o l (m_data m)));
       mret true
   else mret false) s = Q ->
  bytes_eqb name (lit "features") = false ->
  (existsb (bytes_eqb name) [lit "auxv"; lit "exec-file"; lit "siginfo"] = true) ->
  xfer name (lit "read" ++ 58 :: annex ++ 58 :: fmt_x o ++ 44 :: fmt_x l) s = Q.
Proof.
  intros Ha Ho Hl HQ Hf He. unfold xfer. split_tac 58 "read"%string. gstep.
  change (bytes_eqb (lit "read") (lit "read")) with true. cbn [negb andb]. cbn iota.
  rewrite split_at_app by done. gstep. rewrite <- (app_nil_r (fmt_x l)). gstep.
  rewrite expect_cons. cbn [mbind res_bind]. rewrite usize_at_fmt by text_tac. cbn [mbind res_bind fst snd].
  gstep. rewrite <- HQ. clear HQ. cbn [existsb] in He.
  destruct (bytes_eqb name (lit "auxv")); [done|]. destruct (bytes_eqb name (lit "exec-file")); [done|].
  by destruct (bytes_eqb name (lit "siginfo")).
Qed.

Lemma reads_auxv o l : u64 o -> u64 l -> understood (query (encode (PAuxv o l)).2) (PAuxv o l).
Proof.
  intros Ho Hl s. cbn [encode snd].
  change (query (lit "Xfer" ++ 58 :: lit "auxv" ++ 58 :: lit "read" ++ 58 :: [] ++ 58 :: fmt_x o ++ 44 :: fmt_x l) s
          = Ok (Some true, set_req (request_of (PAuxv o l) s) s)).
  unfold query. split_tac 58 "Xfer"%string. lit_tac. first_letter. gstep. split_tac 58 "auxv"%string. gstep.
  apply xfer_read; [constructor|done|done| |reflexivity|reflexivity]. lit_tac. repeat gstep. reflexivity.
Qed.

Lemma reads_exec_file p o l : nat31 p -> u64 o -> u64 l -> understood (query (encode (PExecFile p o l)).2) (PExecFile p o l).
Proof.
  intros Hp Ho Hl s. cbn [encode snd]. unfold nat31 in Hp.
  change (query (lit "Xfer" ++ 58 :: lit "exec-file" ++ 58 :: lit "read" ++ 58 :: fmt_x p ++ 58 :: fmt_x o ++ 44 :: fmt_x l) s
          = Ok (Some true, set_req (request_of (PExecFile p o l) s) s)).
  unfold query. split_tac 58 "Xfer"%string. lit_tac. first_letter. gstep. split_tac 58 "exec-file"%string. gstep.
  apply xfer_read; [apply clean_fmt_x; [done|lia]|done|done| |reflexivity|reflexivity]. lit_tac.
  rewrite <- (app_nil_r (fmt_x p)). do 2 gstep.
  eapply step_bind; [apply run_lift, to_i32_ok; unfold i32; lia|]. repeat gstep. reflexivity.
Qed.

Lemma reads_siginfo o l : u64 o -> u64 l -> understood (query (encode (PReadSiginfo o l)).2) (PReadSiginfo o l).
Proof.
  intros Ho Hl s. cbn [encode snd].
  change (query (lit "Xfer" ++ 58 :: lit "siginfo" ++ 58 :: lit "read" ++ 58 :: [] ++ 58 :: fmt_x o ++ 44 :: fmt_x l) s
          = Ok (Some true, set_req (request_of (PReadSiginfo o l) s) s)).
  unfold query. split_tac 58 "Xfer"%string. lit_tac. first_letter. gstep. split_tac 58 "siginfo"%string. gstep.
  apply xfer_read; [constructor|done|done| |reflexivity|reflexivity]. lit_tac. repeat gstep. reflexivity.
Qed.

Lemma reads_search a l d : u64 a -> u64 l -> understood (query (encode (PSearch a l d)).2) (PSearch a l d).
Proof.
  intros Ha Hl s. cbn [encode snd]. pose proof (read_binary_escape d) as He.
  change (query (lit "Search" ++ 58 :: lit "memory" ++ 58 :: fmt_x a ++ 59 :: fmt_x l ++ 59 :: escape d) s
          = Ok (Some true, set_req (request_of (PSearch a l d) s) s)).
  unfold query. split_tac 58 "Search"%string. lit_tac. first_letter. gstep. unfold query_search.
  split_tac 58 "memory"%string. lit_tac. do 3 gstep.
  eapply step_bind; [apply run_lift; rewrite expect_cons; apply usize_at_fmt; text_tac|]. cbn [fst snd].
  rewrite expect_cons. cbn [mbind res_bind]. repeat gstep. reflexivity.
Qed.

Lemma reads_rd_cmd t : understood (query (encode (PRdCmd t)).2) (PRdCmd t).
Proof.
  intros s. cbn [encode snd]. change (lit "RDCmd:" ++ t) with (lit "RDCmd" ++ 58 :: t). unfold query.
  split_tac 58 "RDCmd"%string. lit_tac. repeat gstep. reflexivity.
Qed.

Lemma reads_symbol a n : packet_ok (PSymbol a n) -> understood (query (encode (PSymbol a n)).2) (PSymbol a n).
Proof.
  intros [Ha Hn] s. pose proof (decode_hex_bytes n Hn) as Hd. destruct a as [a|]; cbn [encode snd].
  - change (lit "Symbol:" ++ fmt_x a ++ 58 :: hex_bytes n) with (lit "Symbol" ++ 58 :: fmt_x a ++ 58 :: hex_bytes n).
    unfold query. split_tac 58 "Symbol"%string. lit_tac. first_letter. gstep. unfold query_symbol.
    rewrite memchr_spec, first_index_app by (apply clean_fmt_x; [done|unfold u64 in *; lia]). do 2 gstep.
    pose proof (fmt_x_hex a ltac:(unfold u64 in *; lia)) as Hh.
    destruct (fmt_x a) as [|c r] eqn:Ef; [by destruct (fmt_x_ne a)|].
    apply Forall_inv, is_hex_range in Hh. cbn [app]. gstep. destruct (Z.eqb_spec c 58); [lia|].
    change (c :: r ++ 58 :: hex_bytes n) with ((c :: r) ++ 58 :: hex_bytes n). rewrite <- Ef.
    eapply step_bind; [gstep; gstep; reflexivity|]. repeat gstep. reflexivity.
  - change (lit "Symbol::" ++ hex_bytes n) with (lit "Symbol" ++ 58 :: 58 :: hex_bytes n).
    unfold query. split_tac 58 "Symbol"%string. lit_tac. first_letter. gstep. unfold query_symbol.
    rewrite memchr_spec. do 3 gstep. change (58 =? 58) with true. cbn iota. repeat gstep. reflexivity.
Qed.



(** *** File operations *)

Lemma is_ok_inv {A} (m : res A) : is_ok m = true -> exists a, m = Ok a.
Proof. destruct m; eauto; done. Qed.

Lemma small_mode m : 0 <= m < 512 -> Z.land m (Z.lnot 511) =? 0 = true.
Proof.
  intros Hm. apply Z.eqb_eq. rewrite <- Z.ldiff_land. change 511 with (Z.ones 9).
  rewrite Z.ldiff_ones_r, Z.shiftr_div_pow2, Z.div_small by lia. apply Z.shiftl_0_l.
Qed.

Lemma reads_file_open n f m : packet_ok (PFileOpen n f m) ->
  understood (vfile_open (lit "open:" ++ hex_bytes n ++ 44 :: fmt_x f ++ 44 :: fmt_x m)) (PFileOpen n f m).
Proof.
  intros (Hn & Hf & Hfl & Hm) s. unfold nat31 in Hf. pose proof (decode_hex_bytes n Hn) as Hd. apply is_ok_inv in Hfl as (fl & Hfl).
  assert (Forall is_byte n) as Hb by (eapply Forall_impl; [exact Hn|]; unfold is_byte; simpl; lia).
  set (pre := lit "open:" ++ hex_bytes n). set (post := fmt_x f ++ 44 :: fmt_x m).
  assert (clean 44 pre) as Hc by (apply clean_app; [apply clean_lit; reflexivity|apply clean_hex; [done|by apply hex_bytes_hex]]).
  change (vfile_open (pre ++ 44 :: post) s = Ok (Some true, set_req (request_of (PFileOpen n f m) s) s)).
  unfold vfile_open. rewrite memchr_spec, first_index_app by done. gstep.
  assert (slice 5 (length pre) (pre ++ 44 :: post) = Ok (hex_bytes n)) as Hsl.
  { unfold slice. rewrite (proj2 (Nat.leb_le _ _)) by (unfold pre; rewrite length_app; simpl; lia).
    rewrite (proj2 (Nat.leb_le _ _)) by (rewrite length_app; lia). cbn [andb].
    replace (length pre - 5)%nat with (length (hex_bytes n)) by (unfold pre; rewrite length_app; simpl; lia).
    unfold pre. rewrite <- app_assoc. change (drop 5 (lit "open:" ++ hex_bytes n ++ 44 :: post)) with (hex_bytes n ++ 44 :: post).
    by rewrite take_app_length. }
  do 3 gstep.
  replace (drop (S (length pre)) (pre ++ 44 :: post)) with post
    by (rewrite (cons_middle 44 pre post), app_assoc, drop_app_length' by (rewrite length_app; simpl; lia); done).
  unfold post. rewrite usize_at_fmt by text_tac. cbn [mbind res_bind fst snd].
  rewrite to_i32_ok by (unfold i32; lia). cbn [mbind res_bind]. rewrite expect_cons. cbn [mbind res_bind].
  do 2 gstep. rewrite <- (app_nil_r (fmt_x m)). gstep.
  eapply step_bind; [apply run_lift, to_i32_ok; unfold i32; lia|]. gstep.
  eapply step_bind; [rewrite small_mode by done; reflexivity|]. gstep. unfold request_of. rewrite Hfl. reflexivity.
Qed.

Lemma reads_file_close fd : nat31 fd -> understood (vfile_close (lit "close:" ++ fmt_x fd)) (PFileClose fd).
Proof.
  intros Hf s. unfold nat31 in Hf. unfold vfile_close. change (drop 6 (lit "close:" ++ fmt_x fd)) with (fmt_x fd).
  rewrite <- (app_nil_r (fmt_x fd)). gstep.
  eapply step_bind; [apply run_lift, to_i32_ok; unfold i32; lia|]. repeat gstep. reflexivity.
Qed.

Lemma reads_file_setfs p : nat31 p -> understood (vfile_setfs (lit "setfs:" ++ fmt_x p)) (PFileSetfs p).
Proof.
  intros Hf s. unfold nat31 in Hf. unfold vfile_setfs. change (drop 6 (lit "setfs:" ++ fmt_x p)) with (fmt_x p).
  rewrite <- (app_nil_r (fmt_x p)). gstep.
  eapply step_bind; [apply run_lift, to_i32_ok; unfold i32; lia|]. repeat gstep. reflexivity.
Qed.

Lemma reads_file_pread fd sz o : nat31 fd -> i63 sz -> i63 o ->
  understood (vfile_pread (lit "pread:" ++ fmt_x fd ++ 44 :: fmt_x sz ++ 44 :: fmt_x o)) (PFilePread fd sz o).
Proof.
  intros Hf Hs Ho s. unfold nat31, i63 in *. unfold vfile_pread.
  change (drop 6 (lit "pread:" ++ fmt_x fd ++ 44 :: fmt_x sz ++ 44 :: fmt_x o)) with (fmt_x fd ++ 44 :: fmt_x sz ++ 44 :: fmt_x o).
  rewrite <- (app_nil_r (fmt_x o)). gstep.
  eapply step_bind; [apply run_lift, to_i32_ok; unfold i32; lia|]. do 4 gstep.
  eapply step_bind; [rewrite (proj2 (Z.leb_le 0 sz)) by lia; reflexivity|]. do 2 gstep.
  eapply step_bind; [rewrite (proj2 (Z.leb_le 0 o)) by lia; reflexivity|]. repeat gstep. reflexivity.
Qed.

Lemma starts_with_app (p X : list Z) : KMap.starts_with (p ++ X) p = true.
Proof. induction p as [|c p IH]; [by destruct X|]. simpl. by rewrite bool_decide_true. Qed.

(** A [vFile] packet goes to its operation. *)
Definition file_op (text : list Z) : G bool :=
  if KMap.starts_with text (lit "open:") then vfile_open text
  else if KMap.starts_with text (lit "close:") then vfile_close text
  else if KMap.starts_with text (lit "pread:") then vfile_pread text
  else if KMap.starts_with text (lit "setfs:") then vfile_setfs text
  else reply_done [].

Lemma vpacket_file text : clean 59 text -> process_vpacket (lit "File:" ++ text) = file_op text.
Proof.
  intros Hc. unfold process_vpacket.
  rewrite split_at_clean by (apply clean_app; [apply clean_lit; reflexivity|done]). differ_tac. by rewrite starts_with_app.
Qed.

Lemma file_op_open X : file_op (lit "open:" ++ X) = vfile_open (lit "open:" ++ X).
Proof. unfold file_op. by rewrite starts_with_app. Qed.
Lemma file_op_close X : file_op (lit "close:" ++ X) = vfile_close (lit "close:" ++ X).
Proof. unfold file_op. rewrite starts_with_app. reflexivity. Qed.
Lemma file_op_pread X : file_op (lit "pread:" ++ X) = vfile_pread (lit "pread:" ++ X).
Proof. unfold file_op. rewrite starts_with_app. reflexivity. Qed.
Lemma file_op_setfs X : file_op (lit "setfs:" ++ X) = vfile_setfs (lit "setfs:" ++ X).
Proof. unfold file_op. rewrite starts_with_app. reflexivity. Qed.

(** *** All packets *)

Lemma clean59_hex l : Forall is_byte l -> clean 59 (hex_bytes l).
Proof. intros Hl. apply clean_hex; [done|by apply hex_bytes_hex]. Qed.

Lemma ascii_bytes l : Forall (fun b => 0 <= b < 128) l -> Forall is_byte l.
Proof. intros Hl. eapply Forall_impl; [exact Hl|]. unfold is_byte. simpl. lia. Qed.

(** Queries without arguments. *)
Lemma reads_plain nm p :
  (nm, p) = (lit "C", PCurrentThread) \/ (nm, p) = (lit "fThreadInfo", PThreadList) \/ (nm, p) = (lit "Offsets", POffsets) ->
  understood (query nm) p.
Proof.
  intros [[= -> ->]|[[= -> ->]|[= -> ->]]] s; unfold query; rewrite split_at_clean by (apply clean_lit; reflexivity);
    lit_tac; repeat gstep; reflexivity.
Qed.

Lemma reads_packet p : packet_ok p -> understood (dispatch (encode p).1 (encode p).2) p.
Proof.
  destruct p; intros Hp; cbn [packet_ok] in Hp.
  - intros s. reflexivity.
  - intros s. destruct action; reflexivity.
  - intros s. reflexivity.
  - intros s. reflexivity.
  - intros s. reflexivity.
  - apply (reads_select_thread resume t Hp).
  - apply (reads_thread_alive t Hp).
  - apply reads_get_mem; tauto.
  - apply reads_set_mem; tauto.
  - by apply reads_get_reg.
  - apply reads_set_reg; tauto.
  - destruct set; [apply (reads_watch true)|apply (reads_watch false)]; tauto.
  - intros s. change (dispatch (encode (PVCont first rest)).1 (encode (PVCont first rest)).2 s)
      with (process_vpacket (lit "Cont" ++ 59 :: enc_actions (first :: rest)) s).
    unfold process_vpacket. split_tac 59 "Cont"%string. lit_tac. gstep. apply reads_vcont, Hp.
  - apply (reads_plain (lit "C")). tauto.
  - apply (reads_plain (lit "fThreadInfo")). tauto.
  - apply (reads_plain (lit "Offsets")). tauto.
  - apply reads_tls; tauto.
  - by apply reads_extra_info.
  - apply reads_auxv; tauto.
  - apply reads_exec_file; tauto.
  - apply reads_siginfo; tauto.
  - apply reads_search; tauto.
  - by apply reads_rd_cmd.
  - destruct address as [a|]; [by apply (reads_symbol (Some a) nm)|by apply (reads_symbol None nm)].
  - intros s. change (dispatch (encode PRestart).1 (encode PRestart).2 s) with (process_vpacket (lit "Run" ++ 59 :: []) s).
    unfold process_vpacket. split_tac 59 "Run"%string. lit_tac. gstep. unfold vpacket_run.
    rewrite split_at_clean by constructor. repeat gstep. reflexivity.
  - pose proof Hp as (Hn & Hf & _ & Hm). unfold nat31 in Hf.
    change (understood (process_vpacket (lit "File:" ++ lit "open:" ++ hex_bytes nm ++ 44 :: fmt_x flags ++ 44 :: fmt_x mode)) (PFileOpen nm flags mode)).
    rewrite vpacket_file, file_op_open; [by apply reads_file_open|]. apply clean_app; [apply clean_lit; reflexivity|].
    repeat (apply clean_app || apply clean_cons || (apply clean_fmt_x; [done|lia]) || (apply clean59_hex, ascii_bytes; done) || done).
  - change (understood (process_vpacket (lit "File:" ++ lit "close:" ++ fmt_x fd)) (PFileClose fd)).
    rewrite vpacket_file, file_op_close; [by apply reads_file_close|].
    apply clean_app; [apply clean_lit; reflexivity|]. apply clean_fmt_x; [done|unfold nat31 in Hp; lia].
  - pose proof Hp as (Hf & Hs & Ho). unfold nat31, i63 in *.
    change (understood (process_vpacket (lit "File:" ++ lit "pread:" ++ fmt_x fd ++ 44 :: fmt_x sz ++ 44 :: fmt_x offset)) (PFilePread fd sz offset)).
    rewrite vpacket_file, file_op_pread; [apply reads_file_pread; done|]. apply clean_app; [apply clean_lit; reflexivity|].
    repeat (apply clean_app || apply clean_cons || (apply clean_fmt_x; [done|lia]) || done).
  - change (understood (process_vpacket (lit "File:" ++ lit "setfs:" ++ fmt_x p)) (PFileSetfs p)).
    rewrite vpacket_file, file_op_setfs; [by apply reads_file_setfs|].
    apply clean_app; [apply clean_lit; reflexivity|]. apply clean_fmt_x; [done|unfold nat31 in Hp; lia].
Qed.

(** *** The packet in the input buffer *)

Lemma clean35_cmd a : action_ok a -> clean 35 (enc_action a).
Proof.
  intros [Hs Ht]. unfold enc_action. apply clean_app.
  - unfold enc_sig. destruct (i_type a), (i_sig a); repeat (apply clean_cons || apply clean_nil || done);
      (apply clean_fmt_x; [done|lia]).
  - destruct (i_target a); [|constructor]. apply clean_cons; [done|by apply clean_enc_thread].
Qed.

Lemma clean_concat c ls : Forall (clean c) ls -> clean c (concat ls).
Proof. intros Hl. induction Hl; simpl; [constructor|by apply clean_app]. Qed.

Lemma clean35_hex l : Forall is_byte l -> clean 35 (hex_bytes l).
Proof. intros Hl. apply clean_hex; [done|by apply hex_bytes_hex]. Qed.

Ltac clean_tac :=
  repeat first
    [ apply clean_nil | apply clean_lit; reflexivity | apply clean_fmt_x; [done|unfold u64, nat31, i63 in *; lia]
    | apply clean_enc_thread; done | apply clean_escape; tauto | apply clean35_hex; (done || apply ascii_bytes; done)
    | apply clean_app | apply clean_cons; [done|] ].

Lemma encode_clean p : packet_ok p -> (encode p).1 <> 35 /\ clean 35 (encode p).2.
Proof.
  destruct p; intros Hp; cbn [packet_ok encode fst snd] in *.
  all: try (split; [done|]; solve [clean_tac]).
  - destruct action; (split; [done|clean_tac]).
  - split; [done|]. destruct resume; clean_tac.
  - split; [done|]. destruct Hp as (? & ? & ?). unfold DREG_NUM_LINUX_X86_64 in *. clean_tac.
  - destruct Hp as (? & ? & ? & Hc). split; [by destruct set|]. clean_tac. destruct conds as [|b cs]; [clean_tac|].
    apply clean_cons; [done|]. apply clean_concat. apply Forall_map. eapply Forall_impl; [exact Hc|]. intros l [Hl ?].
    unfold enc_cond. clean_tac.
  - destruct Hp as [[Hp _] _]. apply Forall_cons in Hp as [Ha Hl]. split; [done|]. apply clean_app; [clean_tac|].
    apply clean_app; [by apply clean35_cmd|]. apply clean_concat. apply Forall_map. eapply Forall_impl; [exact Hl|].
    intros b Hb. apply clean_cons; [done|by apply clean35_cmd].
  - split; [done|]. apply clean_app; [clean_tac|]. apply List.Forall_forall. intros x Hx ->. done.
  - destruct address as [a|]; destruct Hp as [? ?]; (split; [done|]); clean_tac.
  - destruct Hp as (? & ? & _ & ?). split; [done|]. clean_tac.
Qed.

Lemma process_packet_reads p s rest : packet_ok p ->
  inbuf s = 36 :: (encode p).1 :: (encode p).2 ++ 35 :: rest -> packetend s = S (S (length (encode p).2)) ->
  process_packet s = Ok (Some true, set_inbuf rest (set_req (request_of p s) s)).
Proof.
  intros Hp Hb He. destruct (encode_clean p Hp) as [Hc Hcl]. pose proof (reads_packet p Hp) as Hr.
  destruct (encode p) as [c pl] eqn:Ee. cbn [fst snd] in *. unfold process_packet.
  eapply step_bind; [reflexivity|]. rewrite Hb. eapply step_bind; [reflexivity|]. eapply step_bind; [reflexivity|].
  change (36 =? INTERRUPT_CHAR) with false. cbn iota.
  assert (first_index 35 (36 :: c :: pl ++ 35 :: rest) = Some (S (S (length pl)))) as Hi.
  { apply (first_index_app 35 (36 :: c :: pl) rest). repeat (apply clean_cons; [done|]). done. }
  eapply step_bind; [eapply step_bind; [reflexivity|]; rewrite memchr_spec, Hi; eapply step_bind; [reflexivity|];
    rewrite He, Nat.eqb_refl; reflexivity|].
  eapply step_bind; [reflexivity|].
  assert (slice 2 (packetend s) (36 :: c :: pl ++ 35 :: rest) = Ok pl) as Hsl.
  { rewrite He. unfold slice. cbn [Nat.leb length]. rewrite length_app, (proj2 (Nat.leb_le _ _)) by (simpl; lia).
    cbn [andb]. change (drop 2 (36 :: c :: pl ++ 35 :: rest)) with (pl ++ 35 :: rest).
    replace (S (S (length pl)) - 2)%nat with (length pl) by lia. by rewrite take_app_length. }
  rewrite Hsl. eapply step_bind; [reflexivity|]. eapply step_bind; [apply Hr|]. cbn [fst snd].
  eapply step_bind; [reflexivity|]. eapply step_bind; [reflexivity|]. cbn. rewrite Hb, He. do 3 f_equal.
  change (drop (S (S (S (length pl)))) (36 :: c :: pl ++ 35 :: rest)) with (drop (S (length pl)) (pl ++ 35 :: rest)).
  rewrite (cons_middle 35 pl rest), app_assoc, drop_app_length' by (rewrite length_app; simpl; lia). done.
Qed.

End Decode.

End Roundtrip.
