(* ===== verification/GdbDelivery.v ===== *)
(** From the bytes of the socket to a request: packets that arrive in one piece are
    delivered, and packets that arrive in two are not. *)

From Stdlib Require Import Ascii.
From S2P Require Import Prelude WaitStatus KernelMapping GdbText GdbRequest GdbConnection GdbParse GdbPackets GdbTextProofs GdbConnectionProofs GdbRoundtrip.

Module Delivery.
Import Text Req Conn Parse Packets TextProofs ConnProofs Roundtrip.

(** A connection that waits for a packet: no request is pending, nothing is
    buffered, and what is written is sent. *)
Record idle (s : Conn) : Prop := {
  idle_req : type_ (req s) = DREQ_NONE;
  idle_inbuf : inbuf s = [];
  idle_alive : connection_alive_ s = true;
  idle_writes : writes s = []
}.

(** The state after acknowledging a packet. *)
Definition acked (s : Conn) : Conn :=
  if no_ack s then s else set_outbuf [] (set_sent (sent s ++ outbuf s ++ lit "+") s).

Lemma flush_loop_all buf out : flush_loop [] buf out = (true, [], out ++ buf).
Proof. destruct buf; simpl; [by rewrite app_nil_r|done]. Qed.

Lemma write_flush_all s : writes s = [] ->
  write_flush s = Ok (Some tt, set_outbuf [] (set_sent (sent s ++ outbuf s) s)).
Proof. intros Hw. unfold write_flush, modify. rewrite Hw, flush_loop_all. destruct s; simpl in *. by subst. Qed.

Section Delivery.
Context `{LibSpec} `{Resources}.

(** The end of [read_packet], once the end of the packet is found. *)
Lemma ack_spec s b buf : inbuf s = 36 :: buf -> (packetend s < length (inbuf s))%nat -> writes s = [] -> b = true ->
  (if negb b then mret tt
   else
     buf ← gets inbuf;
     b0 ← lift (unwrap (head buf));
     _ ← assert (b0 =? 36);
     e ← gets packetend;
     _ ← assert (Nat.ltb e (length buf));
     ack ← gets no_ack;
     if ack : bool then mret tt
     else _ ← write_data_raw (lit "+"); write_flush) s = Ok (Some tt, acked s).
Proof.
  intros Hb He Hw ->. cbn [negb]. eapply step_bind; [reflexivity|]. rewrite Hb in *.
  eapply step_bind; [reflexivity|]. eapply step_bind; [reflexivity|]. eapply step_bind; [reflexivity|].
  eapply step_bind; [rewrite (proj2 (Nat.ltb_lt _ _) He); reflexivity|].
  eapply step_bind; [reflexivity|]. unfold acked. destruct (no_ack s); [done|].
  eapply step_bind; [reflexivity|]. rewrite write_flush_all by done. reflexivity.
Qed.

Lemma await_start_read fuel s bs rs start : connection_alive_ s = true -> inbuf s = [] -> reads s = Some bs :: rs ->
  find_start bs = 36 :: start ->
  await_start (S (S fuel)) s = Ok (Some tt, set_inbuf (36 :: start) (set_reads rs s)).
Proof.
  intros Ha Hb Hr Hf. cbn [await_start]. eapply step_bind; [apply skip_spec|]. rewrite Hb. cbn [find_start].
  eapply step_bind; [reflexivity|]. cbn [connection_alive_ set_inbuf]. rewrite Ha. cbn [negb andb].
  change (negb (negb (bool_decide (@nil Z = []))) && true) with true. cbn iota.
  eapply step_bind; [reflexivity|]. cbn [reads set_inbuf]. rewrite Hr. destruct bs as [|b bs]; [done|].
  eapply step_bind; [apply skip_spec|]. cbn [inbuf set_inbuf set_reads app]. rewrite Hf.
  eapply step_bind; [reflexivity|]. cbn. reflexivity.
Qed.

(** The part of [get_request] before the loop. *)
Lemma get_request_idle s : idle s ->
  exists ps, get_request s = request_loop (S (input_size s)) (set_inbuf [] (set_polls ps s)).
Proof.
  intros [Ht Hb _ _]. unfold get_request.
  assert (forall r, type_ r = DREQ_NONE -> (type_ r =? DREQ_RESTART) = false /\ request_needs_immediate_response r = false
    /\ is_resume_request r = false) as Hn.
  { intros r E. unfold request_needs_immediate_response, is_resume_request. by rewrite E. }
  destruct (Hn _ Ht) as (E1 & E2 & E3).
  assert (exists b ps, sniff_packet s = Ok (Some b, set_inbuf [] (set_polls ps s))) as (b & ps & Es).
  { unfold sniff_packet. rewrite (conn_bind _ _ _ _ _ (skip_spec s)), Hb. cbn.
    unfold poll_incoming. cbn [polls set_inbuf]. destruct (polls s) as [|p ps] eqn:Ep.
    - exists false, []. destruct s; simpl in *; by subst.
    - exists p, ps. do 2 (eapply step_bind; [reflexivity|]). cbn [polls set_inbuf]. by rewrite Ep. }
  exists ps. eapply step_bind; [reflexivity|]. rewrite E1. eapply step_bind; [rewrite E2; reflexivity|].
  eapply step_bind; [exact Es|]. rewrite E3, andb_false_r.
  eapply step_bind; [reflexivity|]. unfold input_size. cbn [inbuf reads set_inbuf set_polls]. by rewrite Hb.
Qed.

Lemma find_start_junk junk l : Forall (fun b => is_start b = false) junk -> find_start (junk ++ 36 :: l) = 36 :: l.
Proof. intros Hj. induction Hj as [|b junk Hb Hj IH]; simpl; [done|by rewrite Hb]. Qed.

Lemma acked_fields s : inbuf (acked s) = inbuf s /\ reads (acked s) = reads s /\ packetend (acked s) = packetend s
  /\ connection_alive_ (acked s) = connection_alive_ s /\ query_thread (acked s) = query_thread s
  /\ resume_thread (acked s) = resume_thread s.
Proof. unfold acked. by destruct (no_ack s). Qed.

Lemma request_of_ext p s s' : query_thread s = query_thread s' -> resume_thread s = resume_thread s' ->
  request_of p s = request_of p s'.
Proof. intros Eq Er. unfold request_of. by rewrite Eq, Er. Qed.

(** Reading a packet that arrives in one piece. *)
Lemma read_packet_whole s junk body rest rs : connection_alive_ s = true -> inbuf s = [] -> writes s = [] ->
  reads s = Some (junk ++ 36 :: body ++ 35 :: rest) :: rs ->
  Forall (fun b => is_start b = false) junk -> clean 35 body ->
  read_packet s = Ok (Some tt, acked (set_packetend (S (length body)) (set_inbuf (36 :: body ++ 35 :: rest) (set_reads rs s)))).
Proof.
  intros Ha Hb Hw Hr Hj Hc. unfold read_packet. eapply step_bind; [reflexivity|]. unfold read_fuel. rewrite Hr.
  eapply step_bind; [apply (await_start_read _ _ _ _ (body ++ 35 :: rest) Ha Hb Hr), find_start_junk, Hj|].
  eapply step_bind; [reflexivity|]. cbn [connection_alive_ set_inbuf set_reads]. rewrite Ha. cbn [negb].
  do 2 (eapply step_bind; [reflexivity|]). change (36 =? INTERRUPT_CHAR) with false. cbn iota.
  eapply step_bind; [reflexivity|]. unfold read_fuel. cbn [await_end].
  assert (first_index 35 (36 :: body ++ 35 :: rest) = Some (S (length body))) as Hi.
  { apply (first_index_app 35 (36 :: body) rest). by apply clean_cons. }
  eapply step_bind.
  { eapply step_bind; [reflexivity|]. cbn [inbuf set_inbuf]. rewrite memchr_spec, drop_0, Hi.
    eapply step_bind; reflexivity. }
  apply (ack_spec (set_packetend (S (length body)) (set_inbuf (36 :: body ++ 35 :: rest) (set_reads rs s))) true (body ++ 35 :: rest));
    [done| |done|done]. simpl. rewrite length_app. simpl. lia.
Qed.

(** C11: a packet of the debugger of one of the kinds in [Packet], with values in the range
    [packet_ok], that arrives in one piece at a connection that waits for requests and can
    be written to, after acknowledgements or checksums left over from before, is delivered
    as the request it stands for (its numbers, thread ids, binary data, conditions and
    file names read back), is acknowledged unless that was turned off, and leaves exactly
    the input after it.  Not covered are packets that arrive in several pieces, which
    panic ([split_packet_panics]), and [vCont] actions with the signal 0, which are
    delivered as a signal although it should be none ([vcont_signal_zero]). *)
Theorem get_request_delivers p s junk rest rs : packet_ok p -> idle s ->
  reads s = Some (junk ++ 36 :: (encode p).1 :: (encode p).2 ++ 35 :: rest) :: rs ->
  Forall (fun b => is_start b = false) junk ->
  exists s', get_request s = Ok (Some (request_of p s), s') /\ req s' = request_of p s /\
    inbuf s' = rest /\ reads s' = rs /\
    sent s' = sent s ++ (if no_ack s then [] else outbuf s ++ lit "+") /\
    query_thread s' = query_thread s /\ resume_thread s' = resume_thread s.
Proof.
  intros Hp Hi Hr Hj. destruct (get_request_idle s Hi) as (ps & ->). destruct Hi as [_ Hb Ha Hw].
  destruct (encode_clean p Hp) as [Hc1 Hc2]. set (s0 := set_inbuf [] (set_polls ps s)). cbn [request_loop].
  rewrite (conn_bind _ _ _ _ _ (read_packet_whole s0 junk ((encode p).1 :: (encode p).2) rest rs Ha eq_refl Hw Hr Hj
    (clean_cons _ _ _ Hc1 Hc2))).
  set (s1 := set_packetend _ _). destruct (acked_fields s1) as (Ei & Er & Ee & Ea & Eq & Et).
  eexists. split; [|].
  { eapply step_bind; [reflexivity|]. assert (connection_alive_ (acked s1) = true) as -> by (rewrite Ea; exact Ha). cbn [negb].
    eapply step_bind; [apply (process_packet_reads p _ rest Hp); [exact Ei|exact Ee]|].
    rewrite (request_of_ext p (acked s1) s) by (rewrite ?Eq, ?Et; reflexivity). reflexivity. }
  cbn. rewrite Er. repeat split; unfold acked; change (no_ack s1) with (no_ack s); destruct (no_ack s); rewrite ?app_nil_r; done.
Qed.

(** Reading a packet that arrives in two pieces: the end that is found is counted
    from the second piece. *)
Lemma read_packet_split s c1 c2 r1 rs e : connection_alive_ s = true -> inbuf s = [] -> writes s = [] ->
  reads s = Some c1 :: Some c2 :: rs -> find_start c1 = 36 :: r1 -> clean 35 (36 :: r1) -> first_index 35 c2 = Some e ->
  read_packet s = Ok (Some tt, acked (set_packetend e (set_inbuf (36 :: r1 ++ c2) (set_reads rs s)))).
Proof.
  intros Ha Hb Hw Hr Hf Hc He. unfold read_packet. eapply step_bind; [reflexivity|]. unfold read_fuel. rewrite Hr.
  eapply step_bind; [apply (await_start_read _ _ _ _ r1 Ha Hb Hr Hf)|].
  eapply step_bind; [reflexivity|]. cbn [connection_alive_ set_inbuf set_reads]. rewrite Ha. cbn [negb].
  do 2 (eapply step_bind; [reflexivity|]). change (36 =? INTERRUPT_CHAR) with false. cbn iota.
  eapply step_bind; [reflexivity|].
  assert (forall f s0, connection_alive_ s0 = true -> inbuf s0 = 36 :: r1 -> reads s0 = Some c2 :: rs ->
    await_end (S (S f)) 0 s0 = Ok (Some true, set_packetend e (set_inbuf (36 :: r1 ++ c2) (set_reads rs s0)))) as Hend.
  { intros f s0 Ha0 Hb0 Hr0. cbn [await_end]. eapply step_bind; [reflexivity|]. rewrite Hb0, memchr_spec, drop_0, first_index_clean by done.
    eapply step_bind; [reflexivity|]. rewrite Hr0. destruct c2 as [|b c2]; [done|].
    eapply step_bind; [reflexivity|]. cbn [connection_alive_ set_inbuf set_reads]. rewrite Ha0. cbn [negb].
    eapply step_bind; [reflexivity|]. change (inbuf (set_reads rs s0)) with (inbuf s0). cbn [inbuf set_inbuf]. rewrite Hb0.
    rewrite memchr_spec, drop_app_length, He. reflexivity. }
  eapply step_bind; [apply (Hend _ (set_inbuf (36 :: r1) (set_reads (Some c2 :: rs) s)) Ha eq_refl eq_refl)|].
  destruct c2 as [|b c2]; [done|]. apply first_index_bound in He.
  apply (ack_spec (set_packetend e (set_inbuf (36 :: r1 ++ b :: c2) (set_reads rs s))) true (r1 ++ b :: c2));
    [done| |done|done]. cbn [packetend inbuf set_packetend set_inbuf length] in *. rewrite length_app. simpl in *. lia.
Qed.

Lemma first_index_skip c l r e : clean c l -> first_index c r = Some e -> first_index c (l ++ r) = Some (length l + e)%nat.
Proof.
  intros Hl He. induction Hl as [|b l Hb Hl IH]; [done|]. simpl. rewrite (proj2 (Z.eqb_neq b c) Hb). by rewrite IH.
Qed.

(** A packet whose end arrives in a later piece than its start makes the
    connection panic, although the debugger may split its packets in any way: the
    position of the end is counted from the last piece. *)
Theorem split_packet_panics s c1 c2 r1 rs : idle s -> reads s = Some c1 :: Some c2 :: rs ->
  find_start c1 = 36 :: r1 -> clean 35 (36 :: r1) -> is_Some (first_index 35 c2) ->
  get_request s = Panic.
Proof.
  intros Hi Hr Hf Hc [e He]. destruct (get_request_idle s Hi) as (ps & ->). destruct Hi as [_ Hb Ha Hw].
  set (s0 := set_inbuf [] (set_polls ps s)). cbn [request_loop].
  rewrite (conn_bind _ _ _ _ _ (read_packet_split s0 c1 c2 r1 rs e Ha eq_refl Hw Hr Hf Hc He)).
  set (s1 := set_packetend _ _). destruct (acked_fields s1) as (Ei & Er & Ee & Ea & Eq & Et).
  eapply step_bind; [reflexivity|]. assert (connection_alive_ (acked s1) = true) as -> by (rewrite Ea; exact Ha). cbn [negb].
  unfold mbind at 1, G_bind at 1. unfold process_packet.
  rewrite (conn_bind (gets inbuf) _ (acked s1) (36 :: r1 ++ c2) (acked s1)) by (unfold gets; by rewrite Ei).
  rewrite (conn_bind (lift (unwrap (head (36 :: r1 ++ c2)))) _ (acked s1) 36 (acked s1)) by done.
  rewrite (conn_bind (gets packetend) _ (acked s1) e (acked s1)) by (unfold gets; by rewrite Ee).
  change (36 =? INTERRUPT_CHAR) with false. cbn iota.
  assert (first_index 35 (36 :: r1 ++ c2) = Some (S (length r1) + e)%nat) as Hx by (apply (first_index_skip 35 (36 :: r1) c2 e Hc He)).
  unfold mbind, G_bind, assert, lift. cbn [assert_ mbind res_bind]. change (36 =? 36) with true.
  cbn [assert_ mbind res_bind]. rewrite memchr_spec, Hx. cbn [unwrap mbind res_bind].
  destruct (Nat.eqb_spec (S (length r1) + e) e); [lia|]. done.
Qed.

End Delivery.

End Delivery.
