(* ===== verification/GdbReplyProofs.v ===== *)
(** Every reply is one packet a debugger can read, and ends the request. *)

From S2P Require Import Prelude WaitStatus KernelMapping GdbText GdbRequest GdbConnection GdbParse GdbPackets GdbReplies GdbTextProofs GdbConnectionProofs GdbRoundtrip GdbDelivery.

Module ReplyProofs.
Import Text Req Conn Parse Packets Replies TextProofs ConnProofs Roundtrip Delivery.

(** ** The replies *)

Inductive Reply :=
| RNoSuchThread
| RExitCode (code : Z)
| RExitSignal (sig : Signals.Sig)
| RStop (t : GdbThreadId) (sig : option Signals.Sig) (watch_addr : Z)
| RRestartFailed
| RCurrentThread (t : GdbThreadId)
| RAuxv (auxv : list Z)
| RExecFile (file : list Z)
| RIsAlive (alive : bool)
| RExtraInfo (info : list Z)
| RSelect (ok : bool)
| RMem (bytes : list Z)
| RSetMem (ok : bool)
| RSearch (found : bool) (addr : Z)
| ROffsets
| RReg (r : GdbRegisterValue)
| RRegs (file : list GdbRegisterValue)
| RSetReg (ok : bool)
| RStopReason (t : GdbThreadId) (sig : option Signals.Sig)
| RThreads (threads : list GdbThreadId)
| RWatch (ok : bool)
| RDetach
| RSiginfo (bytes : list Z)
| RWriteSiginfo
| RCmd (text : list Z)
| RQsymbol (nm : list Z)
| RQsymbolsDone
| RTls (addr : option Z)
| RSetfs (err : Z)
| ROpen (fd err : Z)
| RPread (bytes : list Z) (err : Z)
| RClose (err : Z).

Definition reply (r : Reply) : G unit :=
  match r with
  | RNoSuchThread => notify_no_such_thread true
  | RExitCode c => notify_exit_code c
  | RExitSignal s => notify_exit_signal s
  | RStop t s a => notify_stop t s a
  | RRestartFailed => notify_restart_failed
  | RCurrentThread t => reply_get_current_thread t
  | RAuxv l => reply_get_auxv l
  | RExecFile l => reply_get_exec_file l
  | RIsAlive b => reply_get_is_thread_alive b
  | RExtraInfo l => reply_get_thread_extra_info l
  | RSelect b => reply_select_thread b
  | RMem l => reply_get_mem l
  | RSetMem b => reply_set_mem b
  | RSearch f a => reply_search_mem f a
  | ROffsets => reply_get_offsets
  | RReg r => reply_get_reg r
  | RRegs l => reply_get_regs l
  | RSetReg b => reply_set_reg b
  | RStopReason t s => reply_get_stop_reason t s
  | RThreads l => reply_get_thread_list l
  | RWatch b => reply_watchpoint_request b
  | RDetach => reply_detach
  | RSiginfo l => reply_read_siginfo l
  | RWriteSiginfo => reply_write_siginfo
  | RCmd t => reply_rd_cmd t
  | RQsymbol n => send_qsymbol n
  | RQsymbolsDone => qsymbols_finished
  | RTls a => reply_tls_addr a
  | RSetfs e => reply_setfs e
  | ROpen fd e => reply_open fd e
  | RPread l e => reply_pread l e
  | RClose e => reply_close e
  end.

(** The requests a reply is for, and what it may say. *)
Definition resumes (t : Z) : Prop := t = DREQ_CONT \/ t = DREQ_INTERRUPT.

Definition reg_ok (r : GdbRegisterValue) : Prop :=
  (size r <= MAX_SIZE)%nat /\
  match value r with
  | ValueGeneric v => Forall is_byte v
  | Value1 v => is_byte v
  | Value2 v | Value4 v | Value8 v => True
  end.

Definition sig_ok (s : option Signals.Sig) : Prop := match s with Some s => 0 <= Signals.as_raw s | None => True end.

Definition reply_ok (r : Reply) (s : Conn) : Prop :=
  let t := type_ (req s) in
  match r with
  | RNoSuchThread => True
  | RExitCode c => resumes t /\ is_byte c
  | RExitSignal g => resumes t /\ 0 <= Signals.as_raw g
  | RStop th g a => resumes t /\ sig_ok g /\ u64 a
  | RRestartFailed => t = DREQ_RESTART
  | RCurrentThread _ => t = DREQ_GET_CURRENT_THREAD
  | RAuxv l => t = DREQ_GET_AUXV
  | RExecFile l => t = DREQ_GET_EXEC_FILE
  | RIsAlive _ => t = DREQ_GET_IS_THREAD_ALIVE
  | RExtraInfo l => t = DREQ_GET_THREAD_EXTRA_INFO /\ Forall is_byte l
  | RSelect _ => t = DREQ_SET_CONTINUE_THREAD \/ t = DREQ_SET_QUERY_THREAD
  | RMem l => t = DREQ_GET_MEM /\ Forall is_byte l /\
      match mem (req s) with Ok m => Z.of_nat (length l) <= m_len m | _ => False end
  | RSetMem _ => t = DREQ_SET_MEM
  | RSearch _ a => t = DREQ_SEARCH_MEM /\ u64 a
  | ROffsets => t = DREQ_GET_OFFSETS
  | RReg g => t = DREQ_GET_REG /\ reg_ok g
  | RRegs l => t = DREQ_GET_REGS /\ Forall reg_ok l
  | RSetReg _ => t = DREQ_SET_REG
  | RStopReason _ g => t = DREQ_GET_STOP_REASON /\ sig_ok g
  | RThreads _ => t = DREQ_GET_THREAD_LIST
  | RWatch _ => DREQ_WATCH_FIRST <= t <= DREQ_WATCH_LAST
  | RDetach => t = DREQ_DETACH
  | RSiginfo l => t = DREQ_READ_SIGINFO
  | RWriteSiginfo => t = DREQ_WRITE_SIGINFO
  | RCmd l => t = DREQ_RD_CMD /\ clean 35 l
  | RQsymbol l => t = DREQ_QSYMBOL /\ Forall is_byte l
  | RQsymbolsDone => t = DREQ_QSYMBOL
  | RTls a => t = DREQ_TLS /\ match a with Some a => u64 a | None => True end
  | RSetfs _ => t = DREQ_FILE_SETFS
  | ROpen _ _ => t = DREQ_FILE_OPEN
  | RPread l _ => t = DREQ_FILE_PREAD
  | RClose _ => t = DREQ_FILE_CLOSE
  end.

(** A stop of a thread of another thread group than the one that is debugged. *)
Definition foreign (r : Reply) (s : Conn) : bool := match r with RStop th _ _ => negb (tgid s =? pid th) | _ => false end.

(** ** A debugger reading packets *)

(** The body of the packet at the start of the stream and what follows it, if the
    checksum is right. *)
Definition client_read (stream : list Z) : option (list Z * list Z) :=
  match stream with
  | 36 :: l =>
      match first_index 35 l with
      | Some e =>
          let body := take e l in
          match drop (S e) l with
          | x :: y :: rest =>
              if bytes_eqb [x; y] (fmt_02x (checksum body)) then Some (body, rest) else None
          | _ => None
          end
      | None => None
      end
  | _ => None
  end.

Definition frame (body : list Z) : list Z := 36 :: body ++ 35 :: fmt_02x (checksum body).

Lemma checksum_byte l : is_byte (checksum l).
Proof.
  unfold checksum. assert (forall a, is_byte a -> is_byte (fold_left (fun c b => wrap 8 (c + b)) l a)) as Hx; [|by apply Hx].
  induction l as [|b l IH]; intros a Ha; [done|]. simpl. apply IH. apply (Z.mod_pos_bound (a + b) 256). lia.
Qed.

Lemma client_read_frame body rest : clean 35 body -> client_read (frame body ++ rest) = Some (body, rest).
Proof.
  intros Hc. unfold frame. cbn [app client_read]. rewrite <- app_assoc. cbn [app].
  rewrite first_index_app by done. rewrite take_app_length.
  rewrite (cons_middle 35 body), app_assoc, drop_app_length' by (rewrite length_app; simpl; lia).
  rewrite (fmt_02x_byte _ (checksum_byte body)). cbn [app]. unfold bytes_eqb. by rewrite bool_decide_true.
Qed.

Lemma write_packet_frame body s : write_packet_bytes body s = Ok (Some tt, set_outbuf (outbuf s ++ frame body) s).
Proof.
  unfold write_packet_bytes, write_hex. do 3 (eapply step_bind; [reflexivity|]).
  unfold write_data_raw, modify. cbn [outbuf set_outbuf]. unfold frame. rewrite <- !app_assoc. reflexivity.
Qed.

(** ** One packet per reply *)

(** [m] writes one packet the client reads, and is done with the request. *)
Definition answers (m : G unit) (s : Conn) (body : list Z) : Prop :=
  clean 35 body /\
  exists s', m s = Ok (Some tt, s') /\ sent s' = sent s ++ outbuf s ++ frame body /\ outbuf s' = [] /\
    req s' = mkReq DREQ_NONE GdbRequestNone ANY false /\ inbuf s' = inbuf s /\ Conn.reads s' = Conn.reads s /\
    connection_alive_ s' = connection_alive_ s /\ writes s' = [].

Lemma consume_all s : writes s = [] ->
  consume_request s = Ok (Some tt, set_outbuf [] (set_sent (sent s ++ outbuf s) (set_req (mkReq DREQ_NONE GdbRequestNone ANY false) s))).
Proof.
  intros Hw. unfold consume_request. do 2 (eapply step_bind; [reflexivity|]). rewrite write_flush_all by done. reflexivity.
Qed.

Lemma answers_write body s : writes s = [] -> clean 35 body ->
  answers (_ ← write_packet_bytes body; consume_request) s body.
Proof.
  intros Hw Hc. split; [done|]. eexists. split.
  - eapply step_bind; [apply write_packet_frame|]. apply consume_all. done.
  - done.
Qed.

(** A step that only looks. *)
Lemma answers_step {A} (m : G A) f s a body : m s = Ok (Some a, s) -> answers (f a) s body -> answers (m ≫= f) s body.
Proof. intros E [Hc (s' & Em & Hs)]. split; [done|]. exists s'. split; [by rewrite (conn_bind _ _ _ _ _ E)|done]. Qed.

(** *** The text of replies *)

Lemma fmt_02x_digits n : 0 <= n -> Forall (fun c => is_hex c = true) (fmt_02x n).
Proof.
  intros Hn. unfold fmt_02x. pose proof (fmt_x_hex n Hn) as Hx. destruct (fmt_x n) as [|c [|d l]]; [done| |done].
  constructor; [done|]. done.
Qed.

Lemma clean_02x n : 0 <= n -> clean 35 (fmt_02x n).
Proof. intros Hn. apply clean_hex; [done|by apply fmt_02x_digits]. Qed.

Lemma clean_pid n : clean 35 (fmt_pid n).
Proof. apply clean_02x. apply (Z.mod_pos_bound n (2 ^ 32)). lia. Qed.

Lemma clean_x n : 0 <= n -> clean 35 (fmt_x n).
Proof. intros. by apply clean_fmt_x. Qed.

Lemma clean_thread mp t : clean 35 (fmt_thread mp t).
Proof. unfold fmt_thread. destruct mp; repeat (apply clean_app || apply clean_pid || (apply clean_lit; reflexivity)). Qed.

Lemma clean_take c n l : clean c l -> clean c (take n l).
Proof. intros Hl. by apply Forall_take. Qed.

Lemma clean_thread_list mp tg ts : clean 35 (thread_list mp tg ts).
Proof.
  unfold thread_list. apply clean_concat. apply Forall_map. apply List.Forall_forall. intros t _. simpl.
  destruct (tg =? pid t); [|constructor]. apply clean_app; [apply clean_thread|apply clean_lit; reflexivity].
Qed.

Lemma le_bytes_byte k : forall v, Forall is_byte (le_bytes k v).
Proof. induction k as [|k IH]; intros v; simpl; [constructor|]. constructor; [apply Z.mod_pos_bound; lia|apply IH]. Qed.

Lemma print_reg_clean r : reg_ok r -> exists b, print_reg_value r = Ok b /\ clean 35 b.
Proof.
  intros [Hs Hv]. unfold print_reg_value. rewrite (proj2 (Nat.leb_le _ _) Hs). cbn [assert_ mbind res_bind].
  eexists. split; [done|]. destruct (defined r).
  - destruct (value r) as [v|v|v|v|v]; try (apply clean35_hex, le_bytes_byte).
    + apply clean35_hex. by apply Forall_take.
    + apply clean_02x, Hv.
  - apply clean_concat. apply List.Forall_forall. intros x Hx%repeat_spec. subst. apply clean_lit. reflexivity.
Qed.

Lemma print_regs_clean l : Forall reg_ok l -> exists b, print_regs l = Ok b /\ clean 35 b.
Proof.
  intros Hl. induction Hl as [|r l Hr Hl (b & Hb & Hc)]; [exists []; split; [done|constructor]|].
  destruct (print_reg_clean r Hr) as (a & Ha & Hac). exists (a ++ b). cbn [print_regs]. rewrite Ha. cbn [mbind res_bind].
  rewrite Hb. split; [done|by apply clean_app].
Qed.

Lemma gdb_signum_nonneg s : sig_ok s -> 0 <= to_gdb_signum s.
Proof.
  destruct s as [[n]|]; simpl; [|lia]. intros Hn.
  destruct n as [|p|p]; [done| |lia]. repeat (destruct p as [p|p|]; try (simpl; lia)); simpl; TextProofs.cmp.
Qed.

Lemma gdb_errno_nonneg e : 0 <= gdb_errno e.
Proof. unfold gdb_errno. destruct e as [|p|p]; try lia. repeat (destruct p as [p|p|]; try (simpl; lia)). Qed.


(** *** What replies carry *)

Section Carries.
Context `{LibSpec}.

(** A register value of the size of its kind. *)
Definition reg_sized (r : GdbRegisterValue) : Prop :=
  defined r = true /\
  match value r with
  | Value1 v => size r = 1%nat /\ is_byte v
  | Value2 v => size r = 2%nat /\ 0 <= v < 2 ^ 16
  | Value4 v => size r = 4%nat /\ 0 <= v < 2 ^ 32
  | Value8 v => size r = 8%nat /\ 0 <= v < 2 ^ 64
  | ValueGeneric v => size r <> 0%nat /\ size r <> 1%nat /\ size r <> 2%nat /\ size r <> 4%nat /\ size r <> 8%nat /\
      (size r <= MAX_SIZE)%nat /\ Forall is_byte v /\ length v = MAX_SIZE /\ drop (size r) v = repeat 0 (MAX_SIZE - size r)
  end.

(** Data sent with a leading letter, or an error. *)
Definition carries_binary (l body : list Z) : Prop :=
  if bool_decide (l = []) then body = lit "E01"
  else head body = Some 108 /\ read_binary_data (tail body) = Ok l.

Definition carries (r : Reply) (s : Conn) (body : list Z) : Prop :=
  match r with
  | RMem l =>
      if bool_decide (l = []) then body = lit "E01" \/ body = []
      else hex_byte_loop body (Z.of_nat (length l)) = Ok (l, [])
  | RExtraInfo l => hex_byte_loop body (Z.of_nat (length l)) = Ok (l, [])
  | RAuxv l | RExecFile l | RSiginfo l => carries_binary l body
  | RPread l err =>
      if err =? 0 then exists d, body = lit "F" ++ fmt_x (Z.of_nat (length l)) ++ 59 :: d /\ read_binary_data d = Ok l
      else head body = Some 70
  | RReg g => reg_sized g -> read_reg_value body default_reg = Ok (mkReg 0 (value g) true (size g), [])
  | _ => True
  end.

Lemma le_value_bytes k : forall v, 0 <= v < 256 ^ Z.of_nat k -> le_value (le_bytes k v) = v.
Proof.
  induction k as [|k IH]; intros v Hv; cbn [le_bytes le_value]; [simpl in Hv; lia|].
  rewrite Nat2Z.inj_succ, Z.pow_succ_r in Hv by lia.
  rewrite IH by (split; [apply Z.div_pos|apply Z.div_lt_upper_bound]; lia). pose proof (Z.div_mod v 256 ltac:(lia)). lia.
Qed.

Lemma length_le_bytes k : forall v, length (le_bytes k v) = k.
Proof. induction k as [|k IH]; intros v; simpl; [done|by rewrite IH]. Qed.

#[local] Arguments le_bytes : simpl never.

Lemma print_read_reg g b : reg_sized g -> print_reg_value g = Ok b ->
  read_reg_value b default_reg = Ok (mkReg 0 (value g) true (size g), []).
Proof.
  intros [Hd Hv]. unfold print_reg_value. rewrite Hd. intros (u & _ & E)%bind_Ok. assert (forall x y : list Z, Ok x = Ok y -> x = y) as Hi by congruence.
  apply Hi in E as <-. clear Hi.
  assert (forall l, Forall is_byte l -> (1 <= length l <= 16)%nat ->
    read_reg_value (hex_bytes l) default_reg = Ok (mkReg 0 (reg_of l) true (length l), [])) as Hr by (intros; by apply read_reg_value_enc).
  destruct (value g) as [v|v|v|v|v].
  - destruct Hv as (H0 & H1 & H2 & H4 & H8 & Hm & Hb & Hl & Hz). unfold MAX_SIZE in *.
    assert (length (take (size g) v) = size g) as Ht by (rewrite length_take; lia).
    rewrite Hr; [|by apply Forall_take|lia]. rewrite Ht. unfold reg_of. rewrite Ht. do 3 f_equal.
    unfold reg_value, MAX_SIZE. rewrite <- Hz, take_drop.
    destruct (size g) as [|[|[|[|[|[|[|[|[|]]]]]]]]]; done || lia.
  - destruct Hv as [-> Hb]. replace (fmt_02x v) with (hex_bytes [v]) by (unfold hex_bytes; simpl; by rewrite app_nil_r).
    rewrite Hr; [done|by apply Forall_singleton|simpl; lia].
  - destruct Hv as [-> Hb]. rewrite Hr; [|apply le_bytes_byte|rewrite length_le_bytes; lia].
    rewrite length_le_bytes. unfold reg_of, reg_value. rewrite length_le_bytes, le_value_bytes by (simpl; lia). done.
  - destruct Hv as [-> Hb]. rewrite Hr; [|apply le_bytes_byte|rewrite length_le_bytes; lia].
    rewrite length_le_bytes. unfold reg_of, reg_value. rewrite length_le_bytes, le_value_bytes by (simpl; lia). done.
  - destruct Hv as [-> Hb]. rewrite Hr; [|apply le_bytes_byte|rewrite length_le_bytes; lia].
    rewrite length_le_bytes. unfold reg_of, reg_value. rewrite length_le_bytes, le_value_bytes by (simpl; lia). done.
Qed.

(** The shape shared by the replies: check the request, write, consume. *)
Lemma answers_expects t m s body : type_ (req s) = t -> answers m s body -> answers (_ ← expects t; m) s body.
Proof.
  intros Ht Ha. apply (answers_step (expects t) (fun _ => m) s tt body); [|done].
  unfold expects. eapply step_bind; [reflexivity|]. rewrite Ht, Z.eqb_refl. reflexivity.
Qed.

Lemma answers_answer body s : writes s = [] -> clean 35 body -> answers (answer body) s body.
Proof. apply answers_write. Qed.

Lemma answers_ok b s : writes s = [] -> exists body, answers (answer_ok b) s body.
Proof. intros Hw. eexists. apply answers_answer; [done|]. destruct b; apply clean_lit; reflexivity. Qed.

Lemma resuming_ok s : resumes (type_ (req s)) -> resuming s = Ok (Some tt, s).
Proof. intros Ht. unfold resuming. eapply step_bind; [reflexivity|]. unfold is_resume_request. destruct Ht as [-> | ->]; reflexivity. Qed.

Lemma answers_resuming m s body : resumes (type_ (req s)) -> answers m s body -> answers (_ ← resuming; m) s body.
Proof. intros Ht Ha. apply (answers_step resuming (fun _ => m) s tt body); [by apply resuming_ok|done]. Qed.

Lemma answers_binary pfx l s : writes s = [] ->
  clean 35 pfx -> answers (_ ← write_binary_packet pfx l; consume_request) s (pfx ++ escape l).
Proof. intros Hw Hp. apply answers_write; [done|]. apply clean_app; [done|apply clean_escape; tauto]. Qed.

(** A reply of data, or an error when there is none. *)
Lemma answers_data l s : writes s = [] -> exists body,
  answers (_ ← (if bool_decide (l = []) then write_packet_bytes (lit "E01") else write_binary_packet (lit "l") l);
           consume_request) s body /\ carries_binary l body.
Proof.
  intros Hw. unfold carries_binary. destruct (bool_decide_reflect (l = [])).
  - exists (lit "E01"). split; [|done]. apply answers_write; [done|]. apply clean_lit. reflexivity.
  - exists (lit "l" ++ escape l). split; [apply answers_binary; [done|apply clean_lit; reflexivity]|].
    split; [done|]. apply read_binary_escape.
Qed.

Lemma answers_file err ok s body : writes s = [] -> answers (_ ← ok; consume_request) s body ->
  exists b, answers (file_reply err ok) s b /\ (err = 0 -> b = body) /\ (err <> 0 -> head b = Some 70).
Proof.
  intros Hw Ha. unfold file_reply. destruct (Z.eqb_spec err 0).
  - exists body. split; [done|]. done.
  - eexists. split; [apply answers_write; [done|]|split; [done|reflexivity]].
    apply clean_app; [apply clean_lit; reflexivity|apply clean_x, gdb_errno_nonneg].
Qed.

(** A step that changes no more than the threads selected. *)
Definition same_io (s s' : Conn) : Prop :=
  sent s' = sent s /\ outbuf s' = outbuf s /\ inbuf s' = inbuf s /\ Conn.reads s' = Conn.reads s /\
  connection_alive_ s' = connection_alive_ s /\ writes s' = writes s.

Lemma answers_then {A} (m : G A) f s a s1 body : m s = Ok (Some a, s1) -> same_io s s1 ->
  answers (f a) s1 body -> answers (m ≫= f) s body.
Proof.
  intros E (E1 & E2 & E3 & E4 & E5 & E6) [Hc (s' & Em & Hs)]. split; [done|]. exists s'.
  rewrite (conn_bind _ _ _ _ _ E), <- E1, <- E2, <- E3, <- E4, <- E5. done.
Qed.

Lemma answers_select ok s : type_ (req s) = DREQ_SET_CONTINUE_THREAD \/ type_ (req s) = DREQ_SET_QUERY_THREAD ->
  writes s = [] -> exists body, answers (reply_select_thread ok) s body.
Proof.
  intros Ht Hw. exists (if ok then lit "OK" else lit "E01"). unfold reply_select_thread.
  apply (answers_step (gets req) _ s (req s)); [done|].
  eapply answers_step; [destruct Ht as [-> | ->]; reflexivity|]. cbn beta.
  assert (exists s1, (if ok && (type_ (req s) =? DREQ_SET_CONTINUE_THREAD) then modify (set_resume_thread (target (req s)))
    else if ok && (type_ (req s) =? DREQ_SET_QUERY_THREAD) then modify (set_query_thread (target (req s)))
    else mret tt) s = Ok (Some tt, s1) /\ same_io s s1) as (s1 & E1 & Hio).
  { destruct (ok && _); [by eexists|]. destruct (ok && _); by eexists. }
  eapply answers_then; [exact E1|exact Hio|]. destruct Hio as (_ & _ & _ & _ & _ & Ew).
  apply answers_answer; [by rewrite Ew|]. destruct ok; apply clean_lit; reflexivity.
Qed.

Lemma stop_body_clean t g a (mp : bool) : sig_ok g -> u64 a ->
  clean 35 (lit "T" ++ fmt_02x (to_gdb_signum g) ++ lit "thread:" ++ fmt_thread mp t
    ++ lit ";" ++ (if a =? 0 then [] else lit "watch:" ++ fmt_x a ++ lit ";")).
Proof.
  intros Hg Ha. repeat first [apply clean_app | apply clean_thread | apply clean_lit; reflexivity | apply clean_02x, gdb_signum_nonneg, Hg].
  destruct (a =? 0); [constructor|]. unfold u64 in Ha.
  repeat first [apply clean_app | apply clean_lit; reflexivity | apply clean_x; lia].
Qed.

(** The direction of the resume request, if it is one. *)
Lemma run_backward r : req_ok r -> exists b : bool, forall s,
  (if is_resume_request r
   then c ← lift (cont r); mret (match run_direction c with RunBackward => true | RunForward => false end)
   else mret false) s = Ok (Some b, s).
Proof.
  intros Hr. destruct (is_resume_request r) eqn:E; [|by exists false].
  apply req_ok_accessors in Hr as (_ & _ & _ & _ & Hc & _). apply Z.eqb_eq in E. specialize (Hc E).
  destruct (cont r) as [c| | |]; [|done..]. by exists (match run_direction c with RunBackward => true | RunForward => false end).
Qed.

Lemma answers_stop t g a s : req_ok (req s) -> resumes (type_ (req s)) -> pid t = tgid s -> sig_ok g -> u64 a -> writes s = [] ->
  exists body, answers (notify_stop t g a) s body.
Proof.
  intros Hr Hs Hp Hg Ha Hw. eexists. unfold notify_stop. apply answers_resuming; [done|].
  apply (answers_step (gets tgid) _ s (tgid s)); [done|]. rewrite Hp, Z.eqb_refl. cbn [negb].
  split; [apply (stop_body_clean t g a (multiprocess_supported_ s) Hg Ha)|].
  destruct (run_backward (req s) Hr) as (b & Hb). unfold send_stop_reply_packet. eexists. split; [|].
  - eapply step_bind; [eapply step_bind; [reflexivity|]; apply write_packet_frame|].
    eapply step_bind; [reflexivity|]. cbn [req set_outbuf]. eapply step_bind; [apply Hb|].
    do 2 (eapply step_bind; [reflexivity|]). apply consume_all. done.
  - done.
Qed.

(** Bodies made of literals and numbers. *)
Ltac body_tac :=
  repeat first
    [ done | apply clean_lit; reflexivity | apply clean_thread | apply clean_02x; unfold is_byte in *; lia
    | apply clean_x; unfold u64 in *; lia | apply clean35_hex; done | apply clean_nil | apply clean_app ].

(** A reply that checks the type of the request and answers. *)
Ltac plain_tac :=
  eexists; split; [(apply answers_expects || apply answers_resuming); [done|]; apply answers_answer; [done|body_tac]|done].

Lemma answers_hex l s : writes s = [] -> Forall is_byte l ->
  answers (_ ← write_hex_bytes_packet l; consume_request) s (hex_bytes l) /\
  hex_byte_loop (hex_bytes l) (Z.of_nat (length l)) = Ok (l, []).
Proof.
  intros Hw Hl. split; [apply answers_write; [done|body_tac]|].
  rewrite <- (app_nil_r (hex_bytes l)). by apply hex_byte_loop_enc.
Qed.

Lemma answers_mem l s : reply_ok (RMem l) s -> writes s = [] ->
  exists body, answers (reply_get_mem l) s body /\ carries (RMem l) s body.
Proof.
  intros (Ht & Hl & Hm) Hw. destruct (mem (req s)) as [m| | |] eqn:Em; [|done..]. cbn [carries].
  destruct (answers_hex l s Hw Hl) as [Ha Hc].
  exists (if (0 <? m_len m) && bool_decide (l = []) then lit "E01" else hex_bytes l). split.
  - apply answers_expects; [done|]. apply (answers_step (gets req) _ s (req s)); [done|].
    eapply answers_step; [apply run_lift, Em|]. eapply answers_step; [rewrite (proj2 (Z.leb_le _ _) Hm); reflexivity|].
    cbn beta. destruct ((0 <? m_len m) && bool_decide (l = [])); [|done]. apply answers_write; [done|body_tac].
  - destruct (bool_decide_reflect (l = [])) as [->|Hn]; [|by rewrite andb_false_r].
    rewrite andb_true_r. destruct (0 <? m_len m); [by left|by right].
Qed.

Lemma answers_look {A} (get : Conn -> A) f s body : answers (f (get s)) s body -> answers (x ← gets get; f x) s body.
Proof. intros Ha. by apply (answers_step (gets get) _ s (get s)). Qed.

Lemma answers_assert (b : bool) m s body : b = true -> answers m s body -> answers (_ ← assert b; m) s body.
Proof. intros -> Ha. by apply (answers_step (assert true) (fun _ => m) s tt). Qed.

Lemma answers_threads l s : type_ (req s) = DREQ_GET_THREAD_LIST -> writes s = [] ->
  exists body, answers (reply_get_thread_list l) s body.
Proof.
  intros Ht Hw. eexists. apply answers_expects; [done|]. do 2 apply answers_look. apply answers_answer; [done|].
  destruct (bool_decide (l = [])); [body_tac|]. apply clean_take, clean_app; [body_tac|apply clean_thread_list].
Qed.

Lemma answers_reason t g s : type_ (req s) = DREQ_GET_STOP_REASON -> sig_ok g -> writes s = [] ->
  exists body, answers (reply_get_stop_reason t g) s body.
Proof.
  intros Ht Hg Hw. eexists. apply answers_expects; [done|].
  split; [apply (stop_body_clean t g 0 (multiprocess_supported_ s) Hg); unfold u64; lia|]. eexists. split.
  - eapply step_bind; [eapply step_bind; [reflexivity|]; apply write_packet_frame|]. by apply consume_all.
  - done.
Qed.

Lemma answers_pread l err s : type_ (req s) = DREQ_FILE_PREAD -> writes s = [] ->
  exists body, answers (reply_pread l err) s body /\ carries (RPread l err) s body.
Proof.
  intros Ht Hw. set (pfx := lit "F" ++ fmt_x (Z.of_nat (length l)) ++ lit ";").
  assert (clean 35 pfx) as Hp by (unfold pfx; repeat apply clean_app; [body_tac|apply clean_x; lia|body_tac]).
  destruct (answers_file err (write_binary_packet pfx l) s _ Hw (answers_binary pfx l s Hw Hp)) as (b & Hb & H0 & H1).
  exists b. split; [by apply answers_expects|]. cbn [carries]. destruct (Z.eqb_spec err 0) as [E|E]; [|by apply H1].
  exists (escape l). split; [rewrite (H0 E); unfold pfx; by rewrite <- !app_assoc|apply read_binary_escape].
Qed.

Lemma answers_close err body t s : type_ (req s) = t -> writes s = [] -> clean 35 body ->
  exists b, answers (_ ← expects t; file_reply err (write_packet_bytes body)) s b.
Proof.
  intros Ht Hw Hc. destruct (answers_file err (write_packet_bytes body) s body Hw (answers_write body s Hw Hc)) as (b & Hb & _).
  exists b. by apply answers_expects.
Qed.

(** A reply that carries nothing to read back. *)
Lemma carries_none r s m : (forall body, carries r s body) ->
  (exists body, answers m s body) -> exists body, answers m s body /\ carries r s body.
Proof. intros Hc (b & Hb). by exists b. Qed.

Lemma answers_status t b s : type_ (req s) = t -> writes s = [] -> exists body, answers (_ ← expects t; answer_ok b) s body.
Proof. intros Ht Hw. destruct (answers_ok b s Hw) as (body & Hb). exists body. by apply answers_expects. Qed.

Lemma answers_datum t l s : type_ (req s) = t -> writes s = [] -> exists body,
  answers (_ ← expects t;
           _ ← (if bool_decide (l = []) then write_packet_bytes (lit "E01") else write_binary_packet (lit "l") l);
           consume_request) s body /\ carries_binary l body.
Proof. intros Ht Hw. destruct (answers_data l s Hw) as (b & Hb & Hc). exists b. split; [by apply answers_expects|done]. Qed.

Lemma answers_text t body s : type_ (req s) = t -> writes s = [] -> clean 35 body ->
  exists b, answers (_ ← expects t; answer body) s b.
Proof. intros Ht Hw Hc. exists body. apply answers_expects; [done|]. by apply answers_answer. Qed.

Lemma answers_printed t (m : res (list Z)) body s : type_ (req s) = t -> writes s = [] -> m = Ok body -> clean 35 body ->
  answers (_ ← expects t; b ← lift m; answer b) s body.
Proof.
  intros Ht Hw Hm Hc. apply answers_expects; [done|]. eapply answers_step; [apply run_lift, Hm|]. by apply answers_answer.
Qed.

(** A stop the debugger is not told of. *)
Lemma silent_stop th g a s : resumes (type_ (req s)) -> negb (tgid s =? pid th) = true -> notify_stop th g a s = Ok (Some tt, s).
Proof.
  intros Ht Hn. unfold notify_stop. eapply step_bind; [by apply resuming_ok|]. eapply step_bind; [reflexivity|]. by rewrite Hn.
Qed.

(** The replies that carry no data back. *)
Lemma reply_answers_plain r s : req_ok (req s) -> reply_ok r s -> foreign r s = false -> writes s = [] ->
  match r with
  | RAuxv _ | RExecFile _ | RExtraInfo _ | RMem _ | RReg _ | RSiginfo _ | RPread _ _ => True
  | _ => exists body, answers (reply r) s body
  end.
Proof.
  intros Hr Ho Hf Hw. destruct r as [|c|g|t g a| |t| | |b| |b| |b|f a| | |l|b|t g|l|b| | | |l|l| |a|e|fd e| |e];
    cbn [reply_ok reply] in *; try exact I.
  - eexists. apply answers_assert; [done|]. apply answers_answer; [done|body_tac].
  - eexists. apply answers_resuming; [apply Ho|]. apply answers_answer; [done|]. apply clean_app; [body_tac|apply clean_02x, Ho].
  - eexists. apply answers_resuming; [apply Ho|]. apply answers_answer; [done|]. apply clean_app; [body_tac|apply clean_02x, Ho].
  - destruct Ho as (Ht & Hg & Ha). apply negb_false_iff, Z.eqb_eq in Hf. by apply answers_stop.
  - apply (answers_text _ _ s Ho Hw); body_tac.
  - eexists. apply answers_expects; [done|]. apply answers_look. apply answers_answer; [done|]. body_tac.
  - apply (answers_status _ b s Ho Hw).
  - by apply answers_select.
  - apply (answers_status _ b s Ho Hw).
  - destruct Ho as [Ht Ha]. apply (answers_text _ _ s Ht Hw). destruct f; body_tac.
  - apply (answers_text _ _ s Ho Hw); body_tac.
  - destruct Ho as [Ht Hl]. destruct (print_regs_clean l Hl) as (b & Eb & Hb). exists b. by apply answers_printed.
  - apply (answers_text _ _ s Ho Hw). destruct b; body_tac.
  - destruct Ho. by apply answers_reason.
  - by apply answers_threads.
  - destruct (answers_ok b s Hw) as (body & Hb). exists body. apply answers_look. apply answers_assert; [|done].
    rewrite andb_true_iff, !Z.leb_le. lia.
  - exists (lit "OK"). apply answers_look. apply answers_assert; [by rewrite Ho|]. apply answers_answer; [done|body_tac].
  - apply (answers_text _ _ s Ho Hw); body_tac.
  - destruct Ho as [Ht Hl]. apply (answers_text _ _ s Ht Hw Hl).
  - destruct Ho as [Ht Hl]. eexists. apply answers_expects; [done|]. apply answers_write; [done|].
    apply clean_app; [body_tac|by apply clean35_hex].
  - apply (answers_text _ _ s Ho Hw); body_tac.
  - destruct Ho as [Ht Ha]. apply (answers_text _ _ s Ht Hw). destruct a; body_tac.
  - apply (answers_close _ _ _ s Ho Hw); body_tac.
  - apply (answers_close _ _ _ s Ho Hw). apply clean_app; [body_tac|]. apply clean_x, (Z.mod_pos_bound fd (2 ^ 32)). lia.
  - apply (answers_close _ _ _ s Ho Hw); body_tac.
Qed.

Lemma reply_answers_body r s : req_ok (req s) -> reply_ok r s -> foreign r s = false -> writes s = [] ->
  exists body, answers (reply r) s body /\ carries r s body.
Proof.
  intros Hr Ho Hf Hw. pose proof (reply_answers_plain r s Hr Ho Hf Hw) as Hp.
  destruct r; try (by apply carries_none); cbn [reply reply_ok carries] in *.
  - apply (answers_datum _ auxv s Ho Hw).
  - apply (answers_datum _ file s Ho Hw).
  - destruct Ho as [Ht Hl]. destruct (answers_hex info s Hw Hl) as [Ha Hc]. exists (hex_bytes info).
    split; [by apply answers_expects|done].
  - by apply answers_mem.
  - destruct Ho as [Ht Hg]. destruct (print_reg_clean r Hg) as (b & Eb & Hb). exists b.
    split; [by apply answers_printed|]. intros Hz. by apply print_read_reg.
  - apply (answers_datum _ bytes s Ho Hw).
  - by apply answers_pread.
Qed.


End Carries.


End ReplyProofs.
