(* ===== verification/GdbExamples.v ===== *)
(** The theorems of the gdb connection on concrete packets, with the reference
    implementation of the libraries. *)

From S2P Require Import Prelude WaitStatus GdbText GdbRequest GdbConnection GdbParse GdbPackets GdbReplies GdbTextProofs GdbConnectionProofs GdbRoundtrip GdbDelivery GdbReplyProofs.

Module GdbExamples.
Import Text Req Conn Parse Packets Replies TextProofs ConnProofs Roundtrip Delivery ReplyProofs.

#[local] Existing Instance reference_lib.
#[local] Instance no_resources : Resources := { read_target_desc _ := None }.

(** A connection of thread group 7 that waits for requests, with something to read. *)
Definition waiting (input : list (option (list Z))) : Conn := new_connection 7 true input [] [].

(** [m1000,4] after an acknowledgement. *)
Definition get_mem_text : list Z := lit "+$m1000,4#8e".

Lemma get_request_ends_witness : get_request (waiting [Some get_mem_text]) <> Spin.
Proof. apply (get_request_ends (waiting [Some get_mem_text])). reflexivity. Defined.

Lemma get_request_typed_witness :
  exists r s', get_request (waiting [Some get_mem_text]) = Ok (Some r, s') /\ accessors_ok r.
Proof.
  eexists _, _. split; [vm_compute; reflexivity|].
  refine (proj2 (get_request_typed (waiting [Some get_mem_text]) _ _ _ _)); [reflexivity|]. vm_compute. reflexivity.
Defined.

Lemma get_request_delivers_witness :
  exists s', get_request (waiting [Some get_mem_text])
    = Ok (Some (request_of (PGetMem 4096 4) (waiting [Some get_mem_text])), s') /\ sent s' = lit "+".
Proof.
  destruct (get_request_delivers (PGetMem 4096 4) (waiting [Some get_mem_text]) (lit "+") (lit "8e") []) as (s' & H1 & _ & _ & _ & H2 & _).
  - vm_compute. repeat split; done.
  - by constructor.
  - vm_compute. reflexivity.
  - by repeat constructor.
  - exists s'. split; [exact H1|]. rewrite H2. reflexivity.
Defined.

Lemma split_packet_panics_witness :
  get_request (waiting [Some (lit "$m10"); Some (lit "00,4#8e")]) = Panic.
Proof.
  apply (split_packet_panics _ (lit "$m10") (lit "00,4#8e") (lit "m10") []).
  - by constructor.
  - reflexivity.
  - reflexivity.
  - by repeat constructor.
  - by eexists.
Defined.


End GdbExamples.
