(* ===== verification/CompressedWriter.v ===== *)
(** The compressed streams of a trace, as [src/src/trace/compressed_writer.rs] writes
    them: one producer that fills a ring buffer, and threads that compress blocks of
    it and write them to the file in order. *)

From Stdlib Require Import SpecFloat.
From S2P Require Import Prelude Float64.

Module CWriter.

(** ** The brotli library

    An encoder that is fed input with some room for output, and finished; each call
    returns what it consumed and wrote, or fails.  The decoder gets compressed data and
    a buffer; it returns the number of bytes decoded, or nothing when it fails, and the
    buffer afterwards. *)
Class Brotli := {
  enc_state : Type;
  enc_new : enc_state;
  enc_process : enc_state -> list Z -> Z -> option (nat * list Z * enc_state);
  enc_finish : enc_state -> Z -> option (list Z);
  decode : list Z -> list Z -> option Z * list Z
}.

(** ** State *)

Inductive WaitFlag := Wait | NoWait.

Record BlockHeader := mkHeader { compressed_length : Z; uncompressed_length : Z }.

Definition u32_bytes (v : Z) : list Z :=
  [v mod 256; v / 256 mod 256; v / 65536 mod 256; v / 16777216 mod 256].

Definition header_bytes (h : BlockHeader) : list Z :=
  u32_bytes (compressed_length h) ++ u32_bytes (uncompressed_length h).

Definition HEADER_SIZE : Z := 8.

(** [CompressedWriterData], under the mutex. *)
Record Data := mkData {
  thread_pos : list (option Z);
  next_thread_pos : Z;
  next_thread_end_pos : Z;
  closing : bool;
  write_error : bool
}.

Section Writer.
Context `{Brotli}.

(** Where a compression thread is.  It takes the lock in [WTop] and [WTurn], sleeps on
    the condition variable in [WTopAsleep] and [WTurnAsleep], and runs without the lock
    in [WCompress] (the encoder, the size of the block, the position and the number of
    bytes left, the output) and in [WWrite] (the bytes left). *)
Inductive Worker :=
| WTop
| WTopAsleep
| WCompress (st : enc_state) (uncompressed stream_offset uncompressed_len : Z) (out : list Z)
| WTurn (block : list Z)
| WTurnAsleep (block : list Z)
| WWrite (rest : list Z)
| WExit.

(** What the producer does after [update_reservation]. *)
Inductive Cont := KWrite (data : list Z) | KReturn | KClose.

(** Where the producer is: between calls, in the loop of [write], in
    [update_reservation] (about to lock, asleep, woken), in [close], or done. *)
Inductive Producer :=
| PNext
| PWriting (data : list Z)
| PUpdate (f : WaitFlag) (k : Cont)
| PAsleep (k : Cont)
| PWoken (k : Cont)
| PReturn
| PSetClosing
| PJoin (threads : nat)
| PDone.

(** [CompressedWriter], the file, and the client: the calls of [write] it will make
    before it drops the writer, what the calls returned, and the result of the [fsync] it asks for. *)
Record Writer := mkWriter {
  shared : Data;
  workers : list Worker;
  producer : Producer;
  buffer : list Z;
  file : list Z;
  producer_reserved_pos : Z;
  producer_reserved_write_pos : Z;
  producer_reserved_upto_pos : Z;
  error : bool;
  fd_open : bool;
  calls : list (list Z);
  results : list bool;
  fsync : option bool
}.

Definition set_shared (x : Data) (s : Writer) : Writer :=
  mkWriter x (workers s) (producer s) (buffer s) (file s) (producer_reserved_pos s)
    (producer_reserved_write_pos s) (producer_reserved_upto_pos s) (error s) (fd_open s) (calls s) (results s) (fsync s).
Definition set_workers (x : list Worker) (s : Writer) : Writer :=
  mkWriter (shared s) x (producer s) (buffer s) (file s) (producer_reserved_pos s)
    (producer_reserved_write_pos s) (producer_reserved_upto_pos s) (error s) (fd_open s) (calls s) (results s) (fsync s).
Definition set_producer (x : Producer) (s : Writer) : Writer :=
  mkWriter (shared s) (workers s) x (buffer s) (file s) (producer_reserved_pos s)
    (producer_reserved_write_pos s) (producer_reserved_upto_pos s) (error s) (fd_open s) (calls s) (results s) (fsync s).
Definition set_file (x : list Z) (s : Writer) : Writer :=
  mkWriter (shared s) (workers s) (producer s) (buffer s) x (producer_reserved_pos s)
    (producer_reserved_write_pos s) (producer_reserved_upto_pos s) (error s) (fd_open s) (calls s) (results s) (fsync s).
Definition set_written (buf : list Z) (pos : Z) (s : Writer) : Writer :=
  mkWriter (shared s) (workers s) (producer s) buf (file s) (producer_reserved_pos s)
    pos (producer_reserved_upto_pos s) (error s) (fd_open s) (calls s) (results s) (fsync s).
Definition set_reserved (pos : Z) (s : Writer) : Writer :=
  mkWriter (shared s) (workers s) (producer s) (buffer s) (file s) pos
    (producer_reserved_write_pos s) (producer_reserved_upto_pos s) (error s) (fd_open s) (calls s) (results s) (fsync s).
Definition set_upto (pos : Z) (s : Writer) : Writer :=
  mkWriter (shared s) (workers s) (producer s) (buffer s) (file s) (producer_reserved_pos s)
    (producer_reserved_write_pos s) pos (error s) (fd_open s) (calls s) (results s) (fsync s).
Definition set_error (x : bool) (s : Writer) : Writer :=
  mkWriter (shared s) (workers s) (producer s) (buffer s) (file s) (producer_reserved_pos s)
    (producer_reserved_write_pos s) (producer_reserved_upto_pos s) x (fd_open s) (calls s) (results s) (fsync s).
Definition set_fd_open (x : bool) (s : Writer) : Writer :=
  mkWriter (shared s) (workers s) (producer s) (buffer s) (file s) (producer_reserved_pos s)
    (producer_reserved_write_pos s) (producer_reserved_upto_pos s) (error s) x (calls s) (results s) (fsync s).
Definition set_client (c : list (list Z)) (r : list bool) (s : Writer) : Writer :=
  mkWriter (shared s) (workers s) (producer s) (buffer s) (file s) (producer_reserved_pos s)
    (producer_reserved_write_pos s) (producer_reserved_upto_pos s) (error s) (fd_open s) c r (fsync s).

Definition set_thread_pos (x : list (option Z)) (g : Data) : Data :=
  mkData x (next_thread_pos g) (next_thread_end_pos g) (closing g) (write_error g).
Definition set_next (x : Z) (g : Data) : Data :=
  mkData (thread_pos g) x (next_thread_end_pos g) (closing g) (write_error g).
Definition set_end (x : Z) (g : Data) : Data :=
  mkData (thread_pos g) (next_thread_pos g) x (closing g) (write_error g).
Definition set_closing (x : bool) (g : Data) : Data :=
  mkData (thread_pos g) (next_thread_pos g) (next_thread_end_pos g) x (write_error g).
Definition set_write_error (x : bool) (g : Data) : Data :=
  mkData (thread_pos g) (next_thread_pos g) (next_thread_end_pos g) (closing g) x.

Definition set_worker (i : nat) (w : Worker) (s : Writer) : Writer := set_workers (<[i:=w]> (workers s)) s.

(** [Condvar::notify_all]. *)
Definition wake (w : Worker) : Worker :=
  match w with WTopAsleep => WTop | WTurnAsleep b => WTurn b | _ => w end.
Definition notify_all (s : Writer) : Writer :=
  let s := set_workers (map wake (workers s)) s in
  match producer s with PAsleep k => set_producer (PWoken k) s | _ => s end.

(** ** Compression threads *)

Section Operations.
Context (block_size : Z).

Definition buffer_len (s : Writer) : Z := Z.of_nat (length (buffer s)).

(** [(block_size as f64 * 1.1) as usize], the room for the output. *)
Definition output_len : Z :=
  match F64.mul (F64.of_Z block_size) (F64.lit 11 10) with
  | S754_finite false m e => if 0 <=? e then Z.pos m * 2 ^ e else Z.pos m / 2 ^ (- e)
  | _ => 0
  end.

(** Whether there is a block to take. *)
Definition ready (g : Data) : res bool :=
  if negb (write_error g) && (next_thread_pos g <? next_thread_end_pos g) then
    if closing g then Ok true
    else upto ← checked_add (next_thread_pos g) block_size; Ok (upto <=? next_thread_end_pos g)
  else Ok false.

(** The top of the loop, with the lock: take a block, leave, or wait. *)
Definition top (i : nat) (s : Writer) : res Writer :=
  let g := shared s in
  work ← ready g;
  if work : bool then
    upto ← checked_add (next_thread_pos g) block_size;
    let next := Z.min (next_thread_end_pos g) upto in
    let len := next - next_thread_pos g in
    _ ← assert_ (len <? 2 ^ 32);
    Ok (set_worker i (WCompress enc_new len (next_thread_pos g) len [])
         (set_shared (set_next next (set_thread_pos (<[i:=Some (next_thread_pos g)]> (thread_pos g)) g)) s))
  else if closing g && (write_error g || (next_thread_pos g =? next_thread_end_pos g)) then Ok (set_worker i WExit s)
  else Ok (set_worker i WTopAsleep s).

(** The end of a block, with the lock, and the top of the loop again. *)
Definition finish_block (i : nat) (s : Writer) : res Writer :=
  let g := shared s in
  top i (notify_all (set_shared (set_thread_pos (<[i:=None]> (thread_pos g)) g) s)).

(** Whether a thread has an earlier block than [pos]. *)
Definition other_thread_write_first (pos : Z) (tp : list (option Z)) : bool :=
  existsb (fun o => match o with Some p => p <? pos | None => false end) tp.

(** With the lock: write if it is this thread's turn, wait otherwise. *)
Definition turn (i : nat) (block : list Z) (s : Writer) : res Writer :=
  let g := shared s in
  if write_error g then finish_block i s
  else
    pos ← unwrap (mjoin (thread_pos g !! i));
    Ok (set_worker i (if other_thread_write_first pos (thread_pos g) then WTurnAsleep block else WWrite block) s).

(** One turn of the loop of [do_compress]: what the encoder gets is what the ring
    buffer holds now. *)
Definition compress_some (i : nat) (st : enc_state) (len off rem : Z) (out : list Z) (s : Writer) : res Writer :=
  let buf_offset := off mod buffer_len s in
  let amount := Z.min rem (buffer_len s - buf_offset) in
  let inp := take (Z.to_nat amount) (drop (Z.to_nat buf_offset) (buffer s)) in
  match enc_process st inp (output_len - Z.of_nat (length out)) with
  | None => Fatal
  | Some (consumed, o, st') =>
      Ok (set_worker i (WCompress st' len (off + Z.of_nat consumed) (rem - Z.of_nat consumed) (out ++ o)) s)
  end.

(** The end of [do_compress], and the lock. *)
Definition compress_end (i : nat) (st : enc_state) (len : Z) (out : list Z) (s : Writer) : res Writer :=
  match enc_finish st (output_len - Z.of_nat (length out)) with
  | None => Fatal
  | Some o =>
      let data := out ++ o in
      let s := if bool_decide (data = []) then set_shared (set_write_error true (shared s)) s else s in
      turn i (header_bytes (mkHeader (Z.of_nat (length data)) len) ++ data) s
  end.

(** A step of thread [i]; a [write] takes [n] bytes, none when it fails.  [None] when
    the thread sleeps or has left. *)
Definition worker_step (i n : nat) (s : Writer) : option (res Writer) :=
  match workers s !! i with
  | Some WTop => Some (top i s)
  | Some (WCompress st len off rem out) =>
      Some (if 0 <? rem then compress_some i st len off rem out s else compress_end i st len out s)
  | Some (WTurn block) => Some (turn i block s)
  | Some (WWrite []) => Some (finish_block i s)
  | Some (WWrite rest) =>
      Some (if Nat.eqb n 0 then Fatal
            else Ok (set_worker i (WWrite (drop n rest)) (set_file (file s ++ take n rest) s)))
  | Some WTopAsleep | Some (WTurnAsleep _) | Some WExit | None => None
  end.

(** ** The producer *)

(** The position up to which all blocks are written. *)
Definition completed_pos (g : Data) : Z :=
  fold_left (fun c o => match o with Some pos => Z.min c pos | None => c end) (thread_pos g) (next_thread_pos g).

Definition continue (k : Cont) : Producer :=
  match k with KWrite data => PWriting data | KReturn => PReturn | KClose => PSetClosing end.

(** The loop of [update_reservation], with the lock. *)
Definition update_loop (f : WaitFlag) (k : Cont) (s : Writer) : res Writer :=
  if error s then Ok (set_producer (continue k) s)
  else if write_error (shared s) then Ok (set_producer (continue k) (set_error true s))
  else
    upto ← checked_add (completed_pos (shared s)) (buffer_len s);
    let s := set_upto upto s in
    if (producer_reserved_pos s <? upto) || match f with NoWait => true | Wait => false end
    then Ok (set_producer (continue k) s)
    else Ok (set_producer (PAsleep k) s).

Definition update_reservation (f : WaitFlag) (k : Cont) (s : Writer) : res Writer :=
  let pos := producer_reserved_write_pos s in
  update_loop f k (notify_all (set_reserved pos (set_shared (set_end pos (shared s)) s))).

(** The loop of [write] and what follows it. *)
Definition write_loop (data : list Z) (s : Writer) : res Writer :=
  if negb (error s) && negb (bool_decide (data = [])) then
    reservation_size ← checked_sub (producer_reserved_upto_pos s) (producer_reserved_write_pos s);
    if reservation_size =? 0 then Ok (set_producer (PUpdate Wait (KWrite data)) s)
    else
      let buf_offset := producer_reserved_write_pos s mod buffer_len s in
      let amount := Z.min (buffer_len s - buf_offset) (Z.min reservation_size (Z.of_nat (length data))) in
      let '(o, n) := (Z.to_nat buf_offset, Z.to_nat amount) in
      pos ← checked_add (producer_reserved_write_pos s) amount;
      Ok (set_producer (PWriting (drop n data))
           (set_written (take o (buffer s) ++ take n data ++ drop (o + n) (buffer s)) pos s))
  else if error s then Ok (set_producer PReturn s)
  else
    filled ← checked_sub (producer_reserved_write_pos s) (producer_reserved_pos s);
    Ok (set_producer (if buffer_len s / 2 <=? filled then PUpdate NoWait KReturn else PReturn) s).

(** [close] after the threads have left. *)
Definition close_end (s : Writer) : Writer :=
  let s := match fsync s with Some false => set_error true s | _ => s end in
  let s := if write_error (shared s) then set_error true s else s in
  set_producer PDone (set_fd_open false s).

Definition producer_step (s : Writer) : option (res Writer) :=
  match producer s with
  | PNext =>
      Some (match calls s with
            | data :: rest => Ok (set_producer (PWriting data) (set_client rest (results s) s))
            | [] => Ok (set_producer (if fd_open s then PUpdate NoWait KClose else PDone) s)
            end)
  | PWriting data => Some (write_loop data s)
  | PUpdate f k => Some (update_reservation f k s)
  | PWoken k => Some (update_loop Wait k s)
  | PReturn => Some (Ok (set_producer PNext (set_client (calls s) (results s ++ [negb (error s)]) s)))
  | PSetClosing =>
      Some (Ok (set_producer (PJoin (length (workers s)))
                 (notify_all (set_shared (set_closing true (shared s)) s))))
  | PJoin (S n) =>
      match workers s !! n with
      | Some WExit => Some (Ok (set_producer (PJoin n) s))
      | _ => None
      end
  | PJoin O => Some (Ok (close_end s))
  | PAsleep _ | PDone => None
  end.

(** ** Threads together *)

Inductive Thread := Prod | Comp (i : nat).

Definition step (t : Thread) (n : nat) (s : Writer) : option (res Writer) :=
  match t with Prod => producer_step s | Comp i => worker_step i n s end.

(** [CompressedWriter::new]; [open] is whether the file could be created. *)
Definition new (num_threads : nat) (open : bool) (client : list (list Z)) (sync : option bool) : Writer :=
  mkWriter (mkData (repeat None num_threads) 0 0 false false) (if open then repeat WTop num_threads else [])
    PNext (repeat 0 (Z.to_nat (block_size * (Z.of_nat num_threads + 2)))) [] 0 0 0 (negb open) open client [] sync.

(** A schedule: which threads run. *)
Fixpoint run (schedule : list (Thread * nat)) (s : Writer) : option (res Writer) :=
  match schedule with
  | [] => Some (Ok s)
  | (t, n) :: rest =>
      match step t n s with
      | Some (Ok s') => run rest s'
      | o => o
      end
  end.

End Operations.
End Writer.
End CWriter.
