(* ===== verification/CompressedReader.v ===== *)
(** Reading the compressed streams of a trace:
    [src/src/trace/compressed_reader.rs]. *)

From S2P Require Import Prelude Float64 CompressedWriter.

Module CReader.
Import CWriter.

(** ** State *)

Inductive IoError := UnexpectedEof | Other.

(** [io::Result]. *)
Definition io (A : Type) : Type := A + IoError.

(** A descriptor that could not be opened is [None]; reading an open file does not
    fail. *)
Definition Fd : Type := option (list Z).

Record Reader := mkReader {
  fd_offset : Z;
  (** taken away by [close] *)
  fd : option Fd;
  eof : bool;
  buffer : list Z;
  buffer_read_pos : Z
}.

Record ReaderState := mkState {
  saved_fd_offset : Z;
  saved_buffer : list Z;
  saved_buffer_read_pos : Z
}.

Definition set_offset (x : Z) (s : Reader) : Reader :=
  mkReader x (fd s) (eof s) (buffer s) (buffer_read_pos s).
Definition set_eof (x : bool) (s : Reader) : Reader :=
  mkReader (fd_offset s) (fd s) x (buffer s) (buffer_read_pos s).
Definition set_buffer (b : list Z) (pos : Z) (s : Reader) : Reader :=
  mkReader (fd_offset s) (fd s) (eof s) b pos.
Definition set_read_pos (pos : Z) (s : Reader) : Reader := set_buffer (buffer s) pos s.

(** ** Reading the file *)

(** [pread]: the bytes of a file, at most [size], from an offset on. *)
Definition pread (f : Fd) (offset size : Z) : res (io (list Z)) :=
  _ ← assert_ (offset <? I64_BOUND);
  Ok (match f with
      | None => inr Other
      | Some bytes => inl (take (Z.to_nat size) (drop (Z.to_nat offset) bytes))
      end).

(** [util::read_to_end]: all that is there, which [pread] may return in pieces. *)
Definition read_to_end (f : Fd) (offset size : Z) : res (io (list Z)) :=
  if size =? 0 then Ok (inl []) else pread f offset size.

(** [read_all]: [None] when the file ends before. *)
Definition read_all (f : Fd) (offset size : Z) : res (io (option (list Z))) :=
  r ← read_to_end f offset size;
  Ok (match r with
      | inr e => inr e
      | inl bytes => inl (if Z.of_nat (length bytes) =? size then Some bytes else None)
      end).

Definition u32_of (l : list Z) : Z :=
  match l with [a; b; c; d] => a + 256 * b + 65536 * c + 16777216 * d | _ => 0 end.

Definition header_of (l : list Z) : BlockHeader := mkHeader (u32_of (take 4 l)) (u32_of (drop 4 l)).

(** [Vec::resize]. *)
Definition resize (n : Z) (l : list Z) : list Z :=
  take (Z.to_nat n) l ++ repeat 0 (Z.to_nat n - length l).

Section Reading.
Context `{Brotli}.

(** [do_decompress]: whether it worked, and the buffer. *)
Definition do_decompress (compressed uncompressed : list Z) : bool * list Z :=
  let '(o, b) := decode compressed uncompressed in
  (match o with Some n => n =? Z.of_nat (length uncompressed) | None => false end, b).

(** [refill_buffer]: an error, if there is one. *)
Definition refill_buffer (s : Reader) : res (option IoError * Reader) :=
  f ← unwrap (fd s);
  h ← read_all f (fd_offset s) HEADER_SIZE;
  match h with
  | inr e => Ok (Some e, s)
  | inl None => Ok (Some UnexpectedEof, s)
  | inl (Some bytes) =>
      let header := header_of bytes in
      let s := set_offset (fd_offset s + HEADER_SIZE) s in
      c ← read_all f (fd_offset s) (compressed_length header);
      match c with
      | inr e => Ok (Some e, s)
      | inl None => Ok (Some UnexpectedEof, s)
      | inl (Some compressed_buf) =>
          let s := set_offset (fd_offset s + compressed_length header) s in
          p ← pread f (fd_offset s) 1;
          match p with
          | inr e => Ok (Some e, s)
          | inl b =>
              let '(ok, buf) := do_decompress compressed_buf (resize (uncompressed_length header) (buffer s)) in
              let s := set_buffer buf 0 (set_eof (bool_decide (b = [])) s) in
              Ok (if ok : bool then None else Some Other, s)
          end
      end
  end.

Definition available (s : Reader) : Z := Z.of_nat (length (buffer s)) - buffer_read_pos s.

(** The bytes at the read position. *)
Definition provide (n : Z) (s : Reader) : list Z :=
  take (Z.to_nat n) (drop (Z.to_nat (buffer_read_pos s)) (buffer s)).

(** The loop of [read]: the bytes read, or an error. *)
Fixpoint read_loop (fuel : nat) (left : Z) (data : list Z) (s : Reader) : res (io (list Z) * Reader) :=
  if left <=? 0 then Ok (inl data, s)
  else
    match fuel with
    | O => Spin
    | S fuel' =>
        if 0 <? available s then
          let amount := Z.min left (available s) in
          read_loop fuel' (left - amount) (data ++ provide amount s) (set_read_pos (buffer_read_pos s + amount) s)
        else if eof s then Ok (inl data, s)
        else
          r ← refill_buffer s;
          match r with
          | (Some e, s) => Ok (inr e, s)
          | (None, s) => read_loop fuel' left data s
          end
    end.

(** The loop of [skip]. *)
Fixpoint skip_loop (fuel : nat) (size : Z) (s : Reader) : res (io unit * Reader) :=
  if size <=? 0 then Ok (inl tt, s)
  else
    match fuel with
    | O => Spin
    | S fuel' =>
        if 0 <? available s then
          let amount := Z.min size (available s) in
          skip_loop fuel' (size - amount) (set_read_pos (buffer_read_pos s + amount) s)
        else if eof s then Ok (inr UnexpectedEof, s)
        else
          r ← refill_buffer s;
          match r with
          | (Some e, s) => Ok (inr e, s)
          | (None, s) => skip_loop fuel' size s
          end
    end.

Definition file_len (s : Reader) : nat :=
  match fd s with Some (Some bytes) => length bytes | _ => 0 end.

(** Every turn passes a byte asked for or a byte of the file. *)
Definition loop_fuel (n : Z) (s : Reader) : nat := S (Z.to_nat n + file_len s).

Definition read (n : Z) (s : Reader) : res (io (list Z) * Reader) := read_loop (loop_fuel n s) n [] s.

Definition skip (n : Z) (s : Reader) : res (io unit * Reader) := skip_loop (loop_fuel n s) n s.

(** [BufRead]. *)
Definition fill_buf (s : Reader) : res (io (list Z) * Reader) :=
  r ← (if (available s <=? 0) && negb (eof s) then refill_buffer s else Ok (None, s));
  match r with
  | (Some e, s) => Ok (inr e, s)
  | (None, s) => _ ← assert_ (0 <=? available s); Ok (inl (provide (available s) s), s)
  end.

Definition consume (amt : Z) (s : Reader) : res Reader :=
  pos ← checked_add (buffer_read_pos s) amt; Ok (set_read_pos pos s).

(** ** The other operations *)

(** [CompressedReader::new] on a descriptor. *)
Definition new_reader (f : Fd) : res Reader :=
  match f with
  | None => Ok (mkReader 0 (Some f) false [] 0)
  | Some bytes => Ok (mkReader 0 (Some f) (bool_decide (bytes = [])) [] 0)
  end.

Definition at_end (s : Reader) : bool := eof s && (buffer_read_pos s =? Z.of_nat (length (buffer s))).

Definition rewind (s : Reader) : Reader := set_eof false (set_buffer [] 0 (set_offset 0 s)).

Definition close (s : Reader) : Reader := mkReader (fd_offset s) None (eof s) (buffer s) (buffer_read_pos s).

Definition get_state (s : Reader) : ReaderState := mkState (fd_offset s) (buffer s) (buffer_read_pos s).

Definition restore_state (st : ReaderState) (s : Reader) : Reader :=
  let s := if saved_fd_offset st <? fd_offset s then set_eof false s else s in
  set_buffer (saved_buffer st) (saved_buffer_read_pos st) (set_offset (saved_fd_offset st) s).

(** The loop of [uncompressed_bytes]. *)
Fixpoint uncompressed_loop (fuel : nat) (f : Fd) (offset total : Z) : res (io Z) :=
  match fuel with
  | O => Spin
  | S fuel' =>
      h ← read_all f offset HEADER_SIZE;
      match h with
      | inr e => Ok (inr e)
      | inl None => Ok (inl total)
      | inl (Some bytes) =>
          uncompressed_loop fuel' f (offset + HEADER_SIZE + compressed_length (header_of bytes))
            (total + uncompressed_length (header_of bytes))
      end
  end.

Definition uncompressed_bytes (s : Reader) : res (io Z) :=
  f ← unwrap (fd s); uncompressed_loop (S (file_len s)) f 0 0.

Definition compressed_bytes (s : Reader) : res (io Z) :=
  f ← unwrap (fd s);
  Ok (match f with None => inr Other | Some bytes => inl (Z.of_nat (length bytes)) end).

End Reading.
End CReader.
