(* ===== verification/CompressedFormat.v ===== *)
(** The format of compressed streams, and that the reader reads it. *)

From S2P Require Import Prelude Float64 CompressedWriter CompressedReader.

Module CFormat.
Import CWriter CReader.

(** ** The format *)

Section Format.
Context `{Brotli}.

#[local] Arguments header_bytes : simpl never.

(** The compressed form of [l]: a header and data that decodes to [l]. *)
Definition is_block (l bytes : list Z) : Prop :=
  exists c, bytes = header_bytes (mkHeader (Z.of_nat (length c)) (Z.of_nat (length l))) ++ c /\
    l <> [] /\ Z.of_nat (length c) < 2 ^ 32 /\ Z.of_nat (length l) < 2 ^ 32 /\
    forall b, length b = length l -> decode c b = (Some (Z.of_nat (length l)), l).

(** A file of blocks. *)
Inductive Blocks : list (list Z) -> list Z -> Prop :=
| Blocks_nil : Blocks [] []
| Blocks_cons l b cs f : is_block l b -> Blocks cs f -> Blocks (l :: cs) (b ++ f).

Lemma Blocks_snoc cs f l b : Blocks cs f -> is_block l b -> Blocks (cs ++ [l]) (f ++ b).
Proof.
  intros Hf Hb. induction Hf as [|l' b' cs f Hb' Hf IH].
  - cbn [app]. rewrite <- (app_nil_r b). by constructor; [|constructor].
  - rewrite <- app_assoc. by constructor.
Qed.

Lemma u32_of_bytes v : 0 <= v < 2 ^ 32 -> u32_of (u32_bytes v) = v.
Proof. intros Hv. unfold u32_of, u32_bytes. zdiv_lia. Qed.

Lemma header_of_bytes h : 0 <= compressed_length h < 2 ^ 32 -> 0 <= uncompressed_length h < 2 ^ 32 ->
  header_of (header_bytes h) = h.
Proof.
  destruct h as [a b]. cbn [compressed_length uncompressed_length]. intros Ha Hb. unfold header_of.
  change (take 4 (header_bytes (mkHeader a b))) with (u32_bytes a).
  change (drop 4 (header_bytes (mkHeader a b))) with (u32_bytes b). by rewrite !u32_of_bytes.
Qed.

Lemma length_header h : length (header_bytes h) = 8%nat.
Proof. done. Qed.

Lemma is_block_length l b : is_block l b -> (8 <= length b)%nat.
Proof. intros (c & -> & _). rewrite length_app, length_header. lia. Qed.

Lemma Blocks_nonempty cs f : Blocks cs f -> f = [] <-> cs = [].
Proof.
  intros Hf. destruct Hf as [|l b cs f Hb Hf]; [done|]. split; [|done].
  intros E%(f_equal length). apply is_block_length in Hb. rewrite length_app in E. simpl in E. lia.
Qed.

(** ** Reading a block *)

Lemma pread_at done_ rest n : Z.of_nat (length done_) < I64_BOUND ->
  pread (Some (done_ ++ rest)) (Z.of_nat (length done_)) n = Ok (inl (take (Z.to_nat n) rest)).
Proof. intros Hl. unfold pread. rewrite (proj2 (Z.ltb_lt _ _) Hl). cbn. by rewrite Nat2Z.id, drop_app_length. Qed.

Lemma read_all_at done_ l rest : Z.of_nat (length done_) < I64_BOUND ->
  read_all (Some (done_ ++ l ++ rest)) (Z.of_nat (length done_)) (Z.of_nat (length l)) = Ok (inl (Some l)).
Proof.
  intros Hl. unfold read_all, read_to_end. destruct (Z.eqb_spec (Z.of_nat (length l)) 0) as [E|E].
  - assert (l = []) as -> by (destruct l; [done|simpl in E; lia]). done.
  - rewrite pread_at by done. cbn [mbind res_bind]. rewrite Nat2Z.id, take_app_length. by rewrite Z.eqb_refl.
Qed.

Lemma length_resize n l : length (resize n l) = Z.to_nat n.
Proof. unfold resize. rewrite length_app, length_take, repeat_length. lia. Qed.

Lemma refill_block s done_ l b tail_ : fd s = Some (Some (done_ ++ b ++ tail_)) -> fd_offset s = Z.of_nat (length done_) ->
  Z.of_nat (length (done_ ++ b)) < I64_BOUND -> is_block l b ->
  refill_buffer s = Ok (None, mkReader (Z.of_nat (length (done_ ++ b))) (fd s) (bool_decide (tail_ = [])) l 0).
Proof.
  intros Hf Ho Hl (c & -> & Hn & Hc & Hu & Hd). set (h := mkHeader _ _) in *.
  unfold refill_buffer. rewrite Hf. cbn [unwrap mbind res_bind]. rewrite Ho.
  rewrite length_app, length_app, length_header in Hl.
  change HEADER_SIZE with (Z.of_nat (length (header_bytes h))).
  rewrite <- !app_assoc. rewrite (read_all_at done_ (header_bytes h) (c ++ tail_)) by lia. cbn [mbind res_bind].
  rewrite (header_of_bytes h) by (simpl; lia).
  cbn [fd_offset set_offset compressed_length uncompressed_length h].
  rewrite <- Nat2Z.inj_add, <- length_app.
  rewrite (app_assoc done_), (read_all_at (done_ ++ header_bytes h) c tail_) by (rewrite length_app, length_header; lia).
  cbn [mbind res_bind fd_offset set_offset].
  rewrite <- Nat2Z.inj_add, <- length_app.
  rewrite (app_assoc (done_ ++ header_bytes h)), pread_at by (rewrite !length_app, length_header; lia).
  cbn [mbind res_bind]. unfold do_decompress. rewrite Hd by (rewrite length_resize; lia).
  rewrite length_resize, Z2Nat.id, Z.eqb_refl by lia. cbn.
  unfold set_buffer, set_eof, set_offset. cbn [fd fd_offset eof]. rewrite Hf, <- !app_assoc. by destruct tail_.
Qed.

(** ** The reader as a stream *)

(** The reader of [file] has [rest] still to give. *)
Definition reader_at (file : list Z) (s : Reader) (rest : list Z) : Prop :=
  exists done_ tail_ cs, file = done_ ++ tail_ /\ fd s = Some (Some file) /\ fd_offset s = Z.of_nat (length done_) /\
    Blocks cs tail_ /\ 0 <= buffer_read_pos s <= Z.of_nat (length (buffer s)) /\
    eof s = bool_decide (tail_ = []) /\
    rest = drop (Z.to_nat (buffer_read_pos s)) (buffer s) ++ concat cs.

Lemma reader_refill file s rest : reader_at file s rest -> Z.of_nat (length file) < I64_BOUND ->
  available s <= 0 -> eof s = false ->
  exists s', refill_buffer s = Ok (None, s') /\ reader_at file s' rest /\ 0 <= fd_offset s < fd_offset s' /\ fd_offset s' <= Z.of_nat (length file).
Proof.
  intros (done_ & tail_ & cs & Ef & Hf & Ho & Hb & Hp & He & Hr) Hl Ha Hn. unfold available in Ha.
  rewrite He in Hn. apply bool_decide_eq_false in Hn. destruct Hb as [|l b cs f Hb Hcs]; [done|].
  pose proof (is_block_length l b Hb) as Hlb. subst file. rewrite !length_app in Hl.
  eexists. split; [apply (refill_block s done_ l b f); [done|done|rewrite length_app; lia|done]|]. split.
  - exists (done_ ++ b), f, cs. cbn [fd fd_offset eof buffer buffer_read_pos]. rewrite <- app_assoc.
    repeat split; try done; [lia|]. subst rest. rewrite drop_ge by lia. done.
  - cbn [fd_offset]. rewrite !length_app. lia.
Qed.

Lemma reader_advance file s rest n : reader_at file s rest -> 0 <= n <= available s ->
  reader_at file (set_read_pos (buffer_read_pos s + n) s) (drop (Z.to_nat n) rest) /\ provide n s = take (Z.to_nat n) rest.
Proof.
  intros (done_ & tail_ & cs & Ef & Hf & Ho & Hb & Hp & He & Hr) Hn. unfold available in Hn. split.
  - exists done_, tail_, cs. cbn. repeat split; try done; try lia.
    subst rest. rewrite drop_app_le by (rewrite length_drop; lia). rewrite drop_drop. do 2 f_equal. lia.
  - unfold provide. subst rest. rewrite take_app_le by (rewrite length_drop; lia). done.
Qed.

Lemma reader_available file s rest : reader_at file s rest -> available s <= Z.of_nat (length rest) /\
  (available s <= 0 -> eof s = true -> rest = []).
Proof.
  intros (done_ & tail_ & cs & Ef & Hf & Ho & Hb & Hp & He & Hr). unfold available. subst rest. split.
  - rewrite length_app, length_drop. lia.
  - intros Ha E. rewrite drop_ge by lia. rewrite He in E. apply bool_decide_eq_true in E.
    apply (Blocks_nonempty cs tail_) in E as ->; done.
Qed.

Lemma read_loop_at fuel : forall file s rest left data, reader_at file s rest -> Z.of_nat (length file) < I64_BOUND -> 0 <= left ->
  (Z.to_nat left + (length file - Z.to_nat (fd_offset s)) < fuel)%nat ->
  exists s', read_loop fuel left data s = Ok (inl (data ++ take (Z.to_nat left) rest), s') /\
    reader_at file s' (drop (Z.to_nat left) rest) /\ fd_offset s <= fd_offset s'.
Proof.
  induction fuel as [|fuel IH]; intros file s rest left data Hs Hl H0 Hm; [lia|]. cbn [read_loop].
  destruct (Z.leb_spec left 0).
  { assert (left = 0) as -> by lia. exists s. rewrite app_nil_r. split; [done|]. split; [done|lia]. }
  destruct (reader_available file s rest Hs) as [Har Hae].
  destruct (Z.ltb_spec 0 (available s)) as [Ha|Ha].
  - set (n := Z.min left (available s)) in *. assert (0 < n <= available s /\ n <= left) as [Hn Hnl] by lia.
    destruct (reader_advance file s rest n Hs ltac:(lia)) as [Hs' ->].
    destruct (IH file _ _ (left - n) (data ++ take (Z.to_nat n) rest) Hs' Hl ltac:(lia)) as (s' & -> & Hs2 & Ho);
      [cbn; lia|]. exists s'. replace (Z.to_nat left) with (Z.to_nat n + Z.to_nat (left - n))%nat by lia.
    rewrite <- app_assoc, <- take_take_drop, <- drop_drop. split; [done|]. split; [done|]. cbn in Ho. lia.
  - destruct (eof s) eqn:Ee.
    + rewrite (Hae Ha eq_refl) in *. exists s. rewrite take_nil, app_nil_r, drop_nil. split; [done|]. split; [done|lia].
    + destruct (reader_refill file s rest Hs Hl Ha Ee) as (s1 & -> & Hs1 & Ho1 & Ho2). cbn [mbind res_bind].
      destruct (IH file s1 rest left data Hs1 Hl H0) as (s' & -> & Hs' & Ho); [lia|].
      exists s'. split; [done|]. split; [done|lia].
Qed.

Lemma skip_loop_at fuel : forall file s rest left, reader_at file s rest -> Z.of_nat (length file) < I64_BOUND -> 0 <= left ->
  (Z.to_nat left + (length file - Z.to_nat (fd_offset s)) < fuel)%nat ->
  exists s', skip_loop fuel left s = Ok (if left <=? Z.of_nat (length rest) then inl tt else inr UnexpectedEof, s') /\
    reader_at file s' (drop (Z.to_nat left) rest) /\ fd_offset s <= fd_offset s'.
Proof.
  induction fuel as [|fuel IH]; intros file s rest left Hs Hl H0 Hm; [lia|]. cbn [skip_loop].
  destruct (Z.leb_spec left 0).
  { assert (left = 0) as -> by lia. exists s. rewrite (proj2 (Z.leb_le _ _)) by lia. split; [done|]. split; [done|lia]. }
  destruct (reader_available file s rest Hs) as [Har Hae].
  destruct (Z.ltb_spec 0 (available s)) as [Ha|Ha].
  - set (n := Z.min left (available s)) in *. assert (0 < n <= available s /\ n <= left) as [Hn Hnl] by lia.
    destruct (reader_advance file s rest n Hs ltac:(lia)) as [Hs' _].
    destruct (IH file _ _ (left - n) Hs' Hl ltac:(lia)) as (s' & -> & Hs2 & Ho); [cbn; lia|].
    exists s'. replace (Z.to_nat left) with (Z.to_nat n + Z.to_nat (left - n))%nat by lia. rewrite <- drop_drop.
    split; [|cbn in Ho; split; [done|lia]]. rewrite length_drop. do 2 f_equal.
    destruct (Z.leb_spec left (Z.of_nat (length rest))), (Z.leb_spec (left - n) (Z.of_nat (length rest - Z.to_nat n))); done || lia.
  - destruct (eof s) eqn:Ee.
    + rewrite (Hae Ha eq_refl) in *. exists s. rewrite drop_nil, (proj2 (Z.leb_gt _ _)) by (simpl; lia).
      split; [done|]. split; [done|lia].
    + destruct (reader_refill file s rest Hs Hl Ha Ee) as (s1 & -> & Hs1 & Ho1 & Ho2). cbn [mbind res_bind].
      destruct (IH file s1 rest left Hs1 Hl H0) as (s' & -> & Hs' & Ho); [lia|].
      exists s'. split; [done|]. split; [done|lia].
Qed.

End Format.
End CFormat.
