(* ===== verification/CompressedStream.v ===== *)
(** The reader of a compressed stream refines reading from the data that was
    compressed. *)

From S2P Require Import Prelude Float64 CompressedWriter CompressedReader CompressedFormat.

Module CStream.
Import CWriter CReader CFormat.

(** ** Clients

    What a client does with a reader.  [OSave] takes the state, and [ORestore] restores
    the last one taken, as looking ahead in a trace does. *)
Inductive Op := ORead (n : Z) | OSkip (n : Z) | OAtEnd | OSave | ORestore | ORewind | OSize.

Inductive Out :=
| OutBytes (r : io (list Z))
| OutSkip (r : io unit)
| OutEnd (b : bool)
| OutSize (r : io Z)
| OutNone.

Section Clients.
Context `{Brotli}.

#[local] Arguments header_bytes : simpl never.

Definition exec (o : Op) (s : Reader) (saved : list ReaderState) : res (Out * Reader * list ReaderState) :=
  match o with
  | ORead n => r ← read n s; Ok (OutBytes r.1, r.2, saved)
  | OSkip n => r ← skip n s; Ok (OutSkip r.1, r.2, saved)
  | OAtEnd => Ok (OutEnd (at_end s), s, saved)
  | OSave => Ok (OutNone, s, get_state s :: saved)
  | ORestore => match saved with [] => Ok (OutNone, s, []) | st :: l => Ok (OutNone, restore_state st s, l) end
  | ORewind => Ok (OutNone, rewind s, saved)
  | OSize => r ← uncompressed_bytes s; Ok (OutSize r, s, saved)
  end.

Fixpoint exec_all (ops : list Op) (s : Reader) (saved : list ReaderState) : res (list Out) :=
  match ops with
  | [] => Ok []
  | o :: ops => r ← exec o s saved; outs ← exec_all ops r.1.2 r.2; Ok (r.1.1 :: outs)
  end.

(** ** The same on the data

    What is left to read and what was left at the saved states.  Rewinding with saved
    states, or an empty stream, is not promised to work. *)
Definition abstract (data : list Z) (o : Op) (rest : list Z) (saved : list (list Z))
  : option (Out * list Z * list (list Z)) :=
  match o with
  | ORead n => if 0 <=? n then Some (OutBytes (inl (take (Z.to_nat n) rest)), drop (Z.to_nat n) rest, saved) else None
  | OSkip n =>
      if 0 <=? n then
        Some (OutSkip (if n <=? Z.of_nat (length rest) then inl tt else inr UnexpectedEof), drop (Z.to_nat n) rest, saved)
      else None
  | OAtEnd => Some (OutEnd (bool_decide (rest = [])), rest, saved)
  | OSave => Some (OutNone, rest, rest :: saved)
  | ORestore => match saved with [] => Some (OutNone, rest, []) | r :: l => Some (OutNone, r, l) end
  | ORewind => if bool_decide (saved = []) && negb (bool_decide (data = [])) then Some (OutNone, data, []) else None
  | OSize => Some (OutSize (inl (Z.of_nat (length data))), rest, saved)
  end.

Fixpoint abstract_all (data : list Z) (ops : list Op) (rest : list Z) (saved : list (list Z)) : option (list Out) :=
  match ops with
  | [] => Some []
  | o :: ops =>
      match abstract data o rest saved with
      | Some (out, rest, saved) => cons out <$> abstract_all data ops rest saved
      | None => None
      end
  end.

(** ** States and their saved form *)

Definition of_state (file : list Z) (st : ReaderState) : Reader :=
  mkReader (saved_fd_offset st) (Some (Some file)) (saved_fd_offset st =? Z.of_nat (length file))
    (saved_buffer st) (saved_buffer_read_pos st).

Lemma reader_eof file s rest : reader_at file s rest ->
  fd s = Some (Some file) /\ eof s = (fd_offset s =? Z.of_nat (length file)) /\ fd_offset s <= Z.of_nat (length file).
Proof.
  intros (done_ & tail_ & cs & -> & Hf & -> & Hb & Hp & -> & Hr). rewrite length_app. split; [done|]. split; [|lia].
  destruct (Z.eqb_spec (Z.of_nat (length done_)) (Z.of_nat (length done_ + length tail_))) as [E|E].
  - apply bool_decide_true, nil_length_inv. lia.
  - apply bool_decide_false. intros ->. simpl in E. lia.
Qed.

Lemma of_get_state file s rest : reader_at file s rest -> of_state file (get_state s) = s.
Proof.
  intros Hs. apply reader_eof in Hs as (Hf & He & _). unfold of_state, get_state. cbn. rewrite <- He, <- Hf. by destruct s.
Qed.

Lemma restore_earlier file s rest st : reader_at file s rest -> saved_fd_offset st <= fd_offset s ->
  restore_state st s = of_state file st.
Proof.
  intros Hs Ho. apply reader_eof in Hs as (Hf & He & Hl). unfold restore_state, of_state, set_buffer, set_offset.
  destruct (Z.ltb_spec (saved_fd_offset st) (fd_offset s)) as [E|E]; cbn; rewrite Hf.
  - rewrite (proj2 (Z.eqb_neq _ _)) by lia. done.
  - rewrite He. by replace (fd_offset s) with (saved_fd_offset st) by lia.
Qed.

(** Saved states, the last one first, at or before an offset. *)
Inductive Saved (file : list Z) : Z -> list ReaderState -> list (list Z) -> Prop :=
| Saved_nil off : Saved file off [] []
| Saved_cons off st l r rs : saved_fd_offset st <= off -> reader_at file (of_state file st) r ->
    Saved file (saved_fd_offset st) l rs -> Saved file off (st :: l) (r :: rs).

Lemma Saved_later file off off' l rs : Saved file off l rs -> off <= off' -> Saved file off' l rs.
Proof. intros Hs Ho. destruct Hs; constructor; (done || lia). Qed.

(** ** The other operations *)

Lemma at_end_at file s rest : reader_at file s rest -> at_end s = bool_decide (rest = []).
Proof.
  intros (done_ & tail_ & cs & -> & Hf & Ho & Hb & Hp & He & Hr). unfold at_end. rewrite He.
  destruct (bool_decide_reflect (tail_ = [])) as [Ht|Ht].
  - apply (Blocks_nonempty cs tail_ Hb) in Ht. subst cs. cbn [concat] in Hr. rewrite app_nil_r in Hr. cbn [andb].
    destruct (Z.eqb_spec (buffer_read_pos s) (Z.of_nat (length (buffer s)))) as [E|E].
    + symmetry. apply bool_decide_true. subst rest. apply drop_ge. lia.
    + symmetry. apply bool_decide_false. intros Er. apply (f_equal length) in Hr. rewrite Er, length_drop in Hr. simpl in Hr. lia.
  - symmetry. apply bool_decide_false. intros Er. rewrite Hr in Er. apply app_eq_nil in Er as [_ Er].
    destruct Hb as [|l b cs f (c & _ & Hl & _) Hb]; [done|]. simpl in Er. apply app_eq_nil in Er as [-> _]. done.
Qed.

Lemma new_reader_at file cs : Blocks cs file -> exists s, new_reader (Some file) = Ok s /\ reader_at file s (concat cs).
Proof.
  intros Hb. eexists. split; [done|]. exists [], file, cs. cbn. repeat split; (done || lia).
Qed.

Lemma rewind_at file cs s rest : Blocks cs file -> reader_at file s rest -> concat cs <> [] -> reader_at file (rewind s) (concat cs).
Proof.
  intros Hb Hs Hn. apply reader_eof in Hs as (Hf & _). exists [], file, cs. cbn. repeat split; try (done || lia).
  symmetry. apply bool_decide_false. intros E. apply (Blocks_nonempty cs file Hb) in E. by subst.
Qed.

Lemma uncompressed_loop_at fuel : forall done_ tail_ cs total, Blocks cs tail_ ->
  Z.of_nat (length (done_ ++ tail_)) < I64_BOUND -> (length tail_ < fuel)%nat ->
  uncompressed_loop fuel (Some (done_ ++ tail_)) (Z.of_nat (length done_)) total = Ok (inl (total + Z.of_nat (length (concat cs)))).
Proof.
  induction fuel as [|fuel IH]; intros done_ tail_ cs total Hb Hl Hm; [lia|]. cbn [uncompressed_loop].
  rewrite length_app in Hl. destruct Hb as [|l b cs f Hb Hcs].
  - unfold read_all, read_to_end. simpl (HEADER_SIZE =? 0). rewrite pread_at by lia. cbn. do 2 f_equal. lia.
  - pose proof (is_block_length l b Hb) as Hlb. destruct Hb as (c & -> & Hn & Hc & Hu & _). set (h := mkHeader _ _) in *.
    change HEADER_SIZE with (Z.of_nat (length (header_bytes h))). rewrite <- !app_assoc.
    rewrite (read_all_at done_ (header_bytes h) (c ++ f)) by lia. cbn [mbind res_bind].
    rewrite (header_of_bytes h) by (simpl; lia). cbn [compressed_length uncompressed_length h].
    replace (Z.of_nat (length done_) + Z.of_nat (length (header_bytes h)) + Z.of_nat (length c))
      with (Z.of_nat (length (done_ ++ header_bytes h ++ c))) by (rewrite !length_app; lia).
    replace (done_ ++ header_bytes h ++ c ++ f) with ((done_ ++ header_bytes h ++ c) ++ f) by (by rewrite <- !app_assoc).
    rewrite !length_app in Hl. rewrite !length_app in Hm. rewrite !length_app in Hlb. rewrite (IH _ _ cs); [|done|rewrite !length_app; lia|lia].
    do 2 f_equal. simpl. rewrite length_app. lia.
Qed.

(** ** Refinement *)

Lemma op_refines file cs o s rest l rs out rest' rs' : Blocks cs file -> Z.of_nat (length file) < I64_BOUND ->
  reader_at file s rest -> Saved file (fd_offset s) l rs -> abstract (concat cs) o rest rs = Some (out, rest', rs') ->
  exists s' l', exec o s l = Ok (out, s', l') /\ reader_at file s' rest' /\ Saved file (fd_offset s') l' rs'.
Proof.
  intros Hb Hf Hs Hl. pose proof (reader_eof file s rest Hs) as (Efd & _ & Hfo).
  assert (forall n, loop_fuel n s = S (Z.to_nat n + length file)) as Hfuel by (intros n; unfold loop_fuel, file_len; by rewrite Efd).
  destruct o as [n|n| | | | |]; cbn [abstract exec].
  - destruct (Z.leb_spec 0 n); [|done]. intros [= <- <- <-]. unfold read. rewrite Hfuel.
    destruct (read_loop_at (S (Z.to_nat n + length file)) file s rest n [] Hs Hf) as (s' & -> & Hs' & Ho); [done|lia|].
    exists s', l. split; [done|]. split; [done|]. by eapply Saved_later.
  - destruct (Z.leb_spec 0 n); [|done]. intros [= <- <- <-]. unfold skip. rewrite Hfuel.
    destruct (skip_loop_at (S (Z.to_nat n + length file)) file s rest n Hs Hf) as (s' & -> & Hs' & Ho); [done|lia|].
    exists s', l. split; [done|]. split; [done|]. by eapply Saved_later.
  - intros [= <- <- <-]. exists s, l. by rewrite (at_end_at file s rest Hs).
  - intros [= <- <- <-]. exists s, (get_state s :: l). split; [done|]. split; [done|].
    constructor; [done| |done]. by rewrite (of_get_state file s rest Hs).
  - inversion Hl as [|off st l0 r rs0 Ho Hst Hl0]; subst.
    + intros [= <- <- <-]. exists s, []. by split; [|split; [|constructor]].
    + intros [= <- <- <-]. exists (restore_state st s), l0. rewrite (restore_earlier file s rest st Hs Ho). done.
  - destruct (bool_decide_reflect (rs = [])) as [->|]; [|done]. destruct (bool_decide_reflect (concat cs = [])); [done|].
    intros [= <- <- <-]. exists (rewind s), l. inversion Hl; subst. split; [done|]. split; [by eapply rewind_at|constructor].
  - intros [= <- <- <-]. exists s, l. unfold uncompressed_bytes, file_len. rewrite Efd. cbn [unwrap mbind res_bind].
    rewrite (uncompressed_loop_at _ [] file cs 0 Hb Hf) by lia. done.
Qed.

Lemma exec_all_refines file cs ops : Blocks cs file -> Z.of_nat (length file) < I64_BOUND ->
  forall s rest l rs outs, reader_at file s rest -> Saved file (fd_offset s) l rs ->
  abstract_all (concat cs) ops rest rs = Some outs -> exec_all ops s l = Ok outs.
Proof.
  intros Hb Hf. induction ops as [|o ops IH]; intros s rest l rs outs Hs Hl; cbn [abstract_all exec_all]; [congruence|].
  destruct (abstract (concat cs) o rest rs) as [[[out rest'] rs']|] eqn:E; [|done].
  intros (outs' & Ha & ->)%fmap_Some. destruct (op_refines file cs o s rest l rs out rest' rs') as (s' & l' & -> & Hs' & Hl'); [done..|].
  cbn [mbind res_bind fst snd]. by rewrite (IH s' rest' l' rs' outs' Hs' Hl' Ha).
Qed.

(** C14: reading a stream of compressed blocks is reading the data that was compressed: a
    sequence of reads, skips, nested looks ahead (saving and restoring the state), tests for the
    end, and rewinding gives what the same sequence gives on the data, never an error of its
    own.  Two things are not part of such a sequence, and [abstract] has no result for them:
    rewinding while a saved state is still to be restored, and rewinding a stream without
    data; there the reader forgets that it is at the end ([restore_after_rewind],
    [rewind_empty]). *)
Theorem reader_refines cs file ops outs : Blocks cs file -> Z.of_nat (length file) < I64_BOUND ->
  abstract_all (concat cs) ops (concat cs) [] = Some outs ->
  exists s, new_reader (Some file) = Ok s /\ exec_all ops s [] = Ok outs.
Proof.
  intros Hb Hf Ha. destruct (new_reader_at file cs Hb) as (s & Es & Hs). exists s. split; [done|].
  eapply exec_all_refines; [done..|constructor|done].
Qed.

(** After rewinding, restoring a state that was saved at the end of the stream
    leaves a reader that does not know it is at the end: the next read fails instead
    of returning nothing. *)
Theorem restore_after_rewind file s n : reader_at file s [] -> Z.of_nat (length file) < I64_BOUND -> 0 < n ->
  let s' := restore_state (get_state s) (rewind s) in
  at_end s = true /\ at_end s' = false /\ read n s' = Ok (inr UnexpectedEof, s').
Proof.
  intros Hs Hf Hn s'. pose proof (at_end_at file s [] Hs) as Ha. cbn in Ha. split; [done|].
  apply reader_eof in Hs as (Efd & He & Hl). unfold at_end in Ha. apply andb_true_iff in Ha as [He2 Hp].
  rewrite He in He2. apply Z.eqb_eq in He2, Hp.
  assert (s' = mkReader (Z.of_nat (length file)) (Some (Some file)) false (buffer s) (buffer_read_pos s)) as ->.
  { unfold s', restore_state, rewind, get_state, set_eof, set_buffer, set_offset. cbn -[Z.of_nat]. rewrite He2.
    destruct (_ <? 0); cbn; by rewrite Efd. }
  split; [done|]. unfold read, loop_fuel. cbn [read_loop]. rewrite (proj2 (Z.leb_gt n 0)) by lia.
  unfold available. cbn [buffer buffer_read_pos eof]. rewrite Hp, Z.sub_diag. cbn [Z.ltb Z.compare].
  unfold refill_buffer. cbn [fd unwrap mbind res_bind fd_offset]. unfold read_all, read_to_end. cbn [HEADER_SIZE Z.eqb].
  rewrite <- (app_nil_r file) at 1. rewrite pread_at by lia. done.
Qed.

(** A stream without data is at its end; rewound it is not, and the next read fails. *)
Theorem rewind_empty n : 0 < n -> exists s, new_reader (Some []) = Ok s /\ at_end s = true /\
  at_end (rewind s) = false /\ read n (rewind s) = Ok (inr UnexpectedEof, rewind s).
Proof.
  intros Hn. eexists. split; [reflexivity|]. split; [reflexivity|]. split; [reflexivity|].
  unfold read, loop_fuel. cbn [read_loop]. rewrite (proj2 (Z.leb_gt n 0)) by lia. reflexivity.
Qed.

End Clients.
End CStream.
