(* ===== verification/CompressedThreads.v ===== *)
(** The threads that write a compressed stream: what holds in every state they reach,
    whatever the schedule. *)

From S2P Require Import Prelude Float64 CompressedWriter CompressedReader CompressedFormat.

Module CThreads.
Import CWriter CFormat.

(** What the documentation of brotli promises when there is room for the output of a
    whole block: the encoder consumes its input, and the decoder gives it back.  [fed st i o] is
    that the encoder has consumed [i] and written [o]. *)
Class BrotliSpec `{Brotli} (block_size : Z) := {
  fed : enc_state -> list Z -> list Z -> Prop;
  fed_new : fed enc_new [] [];
  process_spec st i o inp : fed st i o -> inp <> [] -> Z.of_nat (length (i ++ inp)) <= block_size ->
    exists k out st', enc_process st inp (output_len block_size - Z.of_nat (length o)) = Some (k, out, st') /\
      (1 <= k <= length inp)%nat /\ fed st' (i ++ take k inp) (o ++ out);
  finish_spec st i o : fed st i o -> i <> [] -> Z.of_nat (length i) <= block_size ->
    exists out, enc_finish st (output_len block_size - Z.of_nat (length o)) = Some out /\ o ++ out <> [] /\
      Z.of_nat (length (o ++ out)) <= output_len block_size /\
      forall b, length b = length i -> decode (o ++ out) b = (Some (Z.of_nat (length i)), i)
}.

Section Threads.
Context (B : Z) (threads ncalls : nat) (T : list Z).
Context `{Brotli} `{!BrotliSpec B}.
Context (HB : 0 < B < 2 ^ 32) (Hcap : output_len B < 2 ^ 32) (Hthreads : (0 < threads)%nat).

Let n : Z := Z.of_nat threads.
Let L : Z := B * (n + 2).
Let len : Z := Z.of_nat (length T).
Context (HT : len + L < USIZE).

(** ** Parts of the data *)

Definition slice (p e : Z) : list Z := take (Z.to_nat (e - p)) (drop (Z.to_nat p) T).

Lemma slice_app p m e : 0 <= p <= m -> m <= e -> slice p e = slice p m ++ slice m e.
Proof.
  intros Hp Hm. unfold slice. replace (Z.to_nat (e - p)) with (Z.to_nat (m - p) + Z.to_nat (e - m))%nat by lia.
  rewrite <- take_take_drop, drop_drop. do 3 f_equal. lia.
Qed.

Lemma length_slice p e : 0 <= p <= e -> e <= len -> Z.of_nat (length (slice p e)) = e - p.
Proof. unfold len. intros Hp He. unfold slice. rewrite length_take, length_drop. lia. Qed.

Lemma slice_nil p : slice p p = [].
Proof. unfold slice. by rewrite Z.sub_diag. Qed.

Lemma slice_0 e : slice 0 e = take (Z.to_nat e) T.
Proof. unfold slice. by rewrite Z.sub_0_r, drop_0. Qed.

(** ** Positions *)

(** The end of the block at [p]. *)
Definition bend (next p : Z) : Z := Z.min (p + B) next.

Lemma multiple_step p q : p mod B = 0 -> q mod B = 0 -> p < q -> p + B <= q.
Proof.
  intros [a ->]%Z.mod_divide [b ->]%Z.mod_divide Hlt; [|lia..]. assert (a < b) by nia. nia.
Qed.

(** The blocks from [c] up to [next] are exactly those threads work on. *)
Record PosOk (tp : list (option Z)) (next c : Z) : Prop := {
  pos_range : 0 <= c <= next;
  pos_active i p : tp !! i = Some (Some p) -> c <= p < next /\ p mod B = 0;
  pos_inj i j p : tp !! i = Some (Some p) -> tp !! j = Some (Some p) -> i = j;
  pos_all q : c <= q < next -> q mod B = 0 -> exists i, tp !! i = Some (Some q);
  pos_first : c = next \/ c mod B = 0
}.

Lemma fold_min_le l c : fold_left (fun c o => match o with Some pos => Z.min c pos | None => c end) l c <= c.
Proof. revert c. induction l as [|[p|] l IH]; intros c; simpl; [lia| |apply IH]. specialize (IH (Z.min c p)). lia. Qed.

Lemma fold_min_in l : forall c p, Some p ∈ l -> fold_left (fun c o => match o with Some pos => Z.min c pos | None => c end) l c <= p.
Proof.
  induction l as [|o l IH]; intros c p Hp; [by apply elem_of_nil in Hp|]. apply elem_of_cons in Hp as [<-|Hp]; simpl; [|by apply IH].
  pose proof (fold_min_le l (Z.min c p)). lia.
Qed.

Lemma fold_min_ge l : forall c m, m <= c -> (forall p, Some p ∈ l -> m <= p) ->
  m <= fold_left (fun c o => match o with Some pos => Z.min c pos | None => c end) l c.
Proof.
  induction l as [|o l IH]; intros c m Hm Hp; simpl; [done|]. apply IH.
  - destruct o as [p|]; [|done]. specialize (Hp p ltac:(left)). lia.
  - intros p Hin. apply Hp. by right.
Qed.

Lemma pos_completed g c : PosOk (thread_pos g) (next_thread_pos g) c -> completed_pos g = c.
Proof.
  intros [Hr Ha _ Hall Hf]. unfold completed_pos. apply Z.le_antisymm.
  - destruct (Z.eq_dec c (next_thread_pos g)) as [->|Hn]; [apply fold_min_le|].
    destruct (Hall c ltac:(lia)) as [i Hi]; [by destruct Hf|]. apply fold_min_in. by eapply list_elem_of_lookup_2.
  - apply fold_min_ge; [lia|]. intros p (i & Hi)%list_elem_of_lookup. destruct (Ha i p Hi). lia.
Qed.

Lemma pos_take tp next c i next' : PosOk tp next c -> tp !! i = Some None -> next mod B = 0 -> next < next' <= next + B ->
  PosOk (<[i:=Some next]> tp) next' c.
Proof.
  intros [Hr Ha Hj Hall Hf] Hi Hm Hn. pose proof (lookup_lt_Some _ _ _ Hi) as Hlt. split.
  - lia.
  - intros j p [(-> & [= <-] & _)|(_ & Hp)]%list_lookup_insert_Some; [lia|]. destruct (Ha j p Hp). lia.
  - intros j k p Hp Hq.
    apply list_lookup_insert_Some in Hp as [(-> & E & _)|(Hne & Hp)]; apply list_lookup_insert_Some in Hq as [(-> & E' & _)|(Hne' & Hq)].
    + done.
    + injection E as <-. destruct (Ha k next Hq). lia.
    + injection E' as <-. destruct (Ha j next Hp). lia.
    + by eapply Hj.
  - intros q Hq Hqm. destruct (Z.lt_ge_cases q next) as [Hl|Hl].
    + destruct (Hall q ltac:(lia) Hqm) as [j Hj']. exists j. rewrite list_lookup_insert_ne; [done|]. intros ->. congruence.
    + exists i. assert (q = next) as ->; [|by apply list_lookup_insert_eq].
      destruct (Z.eq_dec q next) as [|Hqn]; [done|]. pose proof (multiple_step next q Hm Hqm ltac:(lia)). lia.
  - destruct Hf as [->|]; by right.
Qed.

Lemma pos_finish tp next c i : PosOk tp next c -> tp !! i = Some (Some c) -> PosOk (<[i:=None]> tp) next (bend next c).
Proof.
  intros [Hr Ha Hj Hall Hf] Hi. destruct (Ha i c Hi) as [Hc Hm]. unfold bend.
  assert (forall q, c < q -> q mod B = 0 -> c + B <= q) as Hstep by (intros; by apply multiple_step).
  split.
  - lia.
  - intros j p [(_ & [=] & _)|(Hne & Hp)]%list_lookup_insert_Some. destruct (Ha j p Hp) as [Hp1 Hp2].
    split; [|done]. destruct (Z.eq_dec p c) as [->|Hpc]; [by destruct Hne; eapply Hj|]. specialize (Hstep p ltac:(lia) Hp2). lia.
  - intros j k p [(_ & [=] & _)|(_ & Hp)]%list_lookup_insert_Some [(_ & [=] & _)|(_ & Hq)]%list_lookup_insert_Some. by eapply Hj.
  - intros q Hq Hqm. destruct (Hall q ltac:(lia) Hqm) as [j Hj']. exists j. rewrite list_lookup_insert_ne; [done|].
    intros ->. assert (q = c) as -> by congruence. lia.
  - destruct (Z.le_ge_cases next (c + B)); [left; lia|right]. rewrite Z.min_l by lia.
    rewrite <- Hm, Z.add_mod, Z.mod_same, Z.add_0_r, Z.mod_mod by lia. done.
Qed.

(** ** The invariant *)

(** The compressed form of the block at [p]. *)
Definition block_ok (next p : Z) (b : list Z) : Prop :=
  is_block (slice p (bend next p)) b /\ Z.of_nat (length b) <= 8 + output_len B.

(** Where a thread is, and its entry in [thread_pos]: one that sleeps has nothing to
    do, or is not the next to write. *)
Definition worker_ok (c next end_ : Z) (closed : bool) (o : option Z) (w : Worker) : Prop :=
  match w, o with
  | WTop, None => True
  | WTopAsleep, None => closed = false /\ end_ < next + B
  | WExit, None => closed = true /\ next = end_
  | WCompress st l off rem out, Some p =>
      l = bend next p - p /\ p <= off /\ rem = bend next p - off /\ 0 <= rem /\ fed st (slice p off) out
  | WTurn b, Some p => block_ok next p b
  | WTurnAsleep b, Some p => block_ok next p b /\ c < p
  | WWrite rest, Some p => p = c
  | _, _ => False
  end.

Definition is_writing (w : Worker) : option (list Z) := match w with WWrite rest => Some rest | _ => None end.

(** The file: the blocks before [c], and a part of the one at [c] while it is written. *)
Definition file_ok (c next : Z) (f : list Z) (ws : list Worker) : Prop :=
  exists cs f0 w, f = f0 ++ w /\ Blocks cs f0 /\ concat cs = take (Z.to_nat c) T /\
    (forall i rest, ws !! i = Some (WWrite rest) -> block_ok next c (w ++ rest)) /\
    ((forall i x, ws !! i = Some x -> is_writing x = None) -> w = []).

(** The ring buffer holds the data from [c] on. *)
Definition buffer_ok (c pos : Z) (buf : list Z) : Prop :=
  Z.of_nat (length buf) = L /\
  forall q, c <= q < pos -> buf !! Z.to_nat (q mod L) = T !! Z.to_nat q.

(** What is still to be written of the call of [write] there is, and whether there is one. *)
Definition pending (p : Producer) : list Z * nat :=
  match p with
  | PWriting data | PUpdate _ (KWrite data) | PAsleep (KWrite data) | PWoken (KWrite data) => (data, 1%nat)
  | PReturn | PUpdate _ KReturn => ([], 1%nat)
  | _ => ([], 0%nat)
  end.

Definition prod_ok (c end_ pos upto : Z) (closed open : bool) (cs : list (list Z)) (ws : list Worker) (p : Producer) : Prop :=
  match p with
  | PNext | PWriting _ | PReturn | PUpdate NoWait KReturn => closed = false /\ open = true
  | PUpdate Wait (KWrite data) => closed = false /\ open = true /\ data <> []
  | PAsleep (KWrite data) => closed = false /\ open = true /\ data <> [] /\ pos = end_ /\ c + L <= end_
  | PWoken (KWrite data) => closed = false /\ open = true /\ data <> [] /\ pos = end_
  | PUpdate NoWait KClose => closed = false /\ open = true /\ cs = []
  | PSetClosing => closed = false /\ open = true /\ cs = [] /\ pos = end_
  | PJoin m => closed = true /\ open = true /\ cs = [] /\ pos = end_ /\ (m <= threads)%nat /\
      forall i w, ws !! i = Some w -> (m <= i)%nat -> w = WExit
  | PDone => closed = true /\ open = false /\ cs = [] /\ pos = end_ /\ forall i w, ws !! i = Some w -> w = WExit
  | _ => False
  end.

Record InvAt (s : Writer) (c : Z) : Prop := {
  inv_pos : PosOk (thread_pos (shared s)) (next_thread_pos (shared s)) c;
  inv_tp : length (thread_pos (shared s)) = threads;
  inv_ws : length (workers s) = threads;
  inv_next : next_thread_pos (shared s) <= next_thread_end_pos (shared s);
  inv_mult : next_thread_pos (shared s) mod B = 0 \/
    closing (shared s) = true /\ next_thread_pos (shared s) = next_thread_end_pos (shared s);
  inv_end : next_thread_end_pos (shared s) = producer_reserved_pos s;
  inv_order : producer_reserved_pos s <= producer_reserved_write_pos s <= producer_reserved_upto_pos s;
  inv_upto : producer_reserved_upto_pos s <= c + L;
  inv_data : (pending (producer s)).1 ++ concat (calls s) = drop (Z.to_nat (producer_reserved_write_pos s)) T;
  inv_calls : (length (results s) + length (calls s) + (pending (producer s)).2)%nat = ncalls;
  inv_len : producer_reserved_write_pos s <= len;
  inv_werr : write_error (shared s) = false;
  inv_err : error s = false;
  inv_sync : fsync s <> Some false;
  inv_results : Forall (eq true) (results s);
  inv_workers i w : workers s !! i = Some w -> exists o, thread_pos (shared s) !! i = Some o /\
    worker_ok c (next_thread_pos (shared s)) (next_thread_end_pos (shared s)) (closing (shared s)) o w;
  inv_file : file_ok c (next_thread_pos (shared s)) (file s) (workers s);
  inv_buffer : buffer_ok c (producer_reserved_write_pos s) (buffer s);
  inv_prod : prod_ok c (next_thread_end_pos (shared s)) (producer_reserved_write_pos s) (producer_reserved_upto_pos s)
    (closing (shared s)) (fd_open s) (calls s) (workers s) (producer s)
}.

Definition Inv (s : Writer) : Prop := exists c, InvAt s c.

(** ** Changing a thread *)

Lemma insert_other {A} (l : list A) i j (x y : A) : <[i:=x]> l !! j = Some y -> j <> i -> l !! j = Some y.
Proof. intros [(-> & _)|(_ & E)]%list_lookup_insert_Some Hn; done. Qed.

Lemma prod_ok_insert c e pos upto cl op cs ws i w w' p : prod_ok c e pos upto cl op cs ws p -> ws !! i = Some w -> w <> WExit ->
  prod_ok c e pos upto cl op cs (<[i:=w']> ws) p.
Proof.
  intros Hp Hw Hn. destruct p as [| |[] []|[]|[]| | |m|]; cbn [prod_ok] in *; try done.
  - destruct Hp as (H1 & H2 & H3 & H4 & H5 & H6). splits; try done. intros j x Hj Hm.
    destruct (Nat.eq_dec j i) as [->|Hji]; [by destruct (Hn (H6 i w Hw Hm))|]. by apply (H6 j x); [eapply insert_other|].
  - destruct Hp as (H1 & H2 & H3 & H4 & H6). splits; try done. intros j x Hj.
    destruct (Nat.eq_dec j i) as [->|Hji]; [by destruct (Hn (H6 i w Hw))|]. by apply (H6 j x); eapply insert_other.
Qed.

Lemma file_ok_insert c next f ws i w w' : file_ok c next f ws -> ws !! i = Some w -> is_writing w = None -> is_writing w' = None ->
  file_ok c next f (<[i:=w']> ws).
Proof.
  intros (cs & f0 & r & Hf & Hb & Hc & Hw & Hn) Hi Hiw Hiw'. exists cs, f0, r. splits; try done.
  - intros j rest Hj. destruct (Nat.eq_dec j i) as [->|Hji]; [|by eapply Hw, insert_other].
    rewrite list_lookup_insert_eq in Hj by (by eapply lookup_lt_Some). injection Hj as ->. done.
  - intros Hall. apply Hn. intros j x Hj. destruct (Nat.eq_dec j i) as [->|Hji]; [congruence|].
    apply (Hall j). by rewrite list_lookup_insert_ne.
Qed.

Lemma inv_set_worker s c i w o w' : InvAt s c -> workers s !! i = Some w -> w <> WExit -> thread_pos (shared s) !! i = Some o ->
  worker_ok c (next_thread_pos (shared s)) (next_thread_end_pos (shared s)) (closing (shared s)) o w' ->
  is_writing w = None -> is_writing w' = None -> InvAt (set_worker i w' s) c.
Proof.
  intros Hs Hw He Ho Hok Hiw Hiw'. destruct Hs. split; cbn; try done.
  - by rewrite length_insert.
  - intros j x Hj. destruct (Nat.eq_dec j i) as [->|Hji]; [|by eapply inv_workers0, insert_other].
    rewrite list_lookup_insert_eq in Hj by (by eapply lookup_lt_Some). injection Hj as <-. by exists o.
  - by eapply file_ok_insert.
  - by eapply prod_ok_insert.
Qed.

(** A thread that starts to write. *)
Lemma inv_start_write s c i w b : InvAt s c -> workers s !! i = Some w -> w <> WExit -> thread_pos (shared s) !! i = Some (Some c) ->
  is_writing w = None -> block_ok (next_thread_pos (shared s)) c b -> InvAt (set_worker i (WWrite b) s) c.
Proof.
  intros Hs Hw He Ho Hiw Hb. destruct Hs. split; cbn; try done.
  - by rewrite length_insert.
  - intros j x Hj. destruct (Nat.eq_dec j i) as [->|Hji]; [|by eapply inv_workers0, insert_other].
    rewrite list_lookup_insert_eq in Hj by (by eapply lookup_lt_Some). injection Hj as <-. by exists (Some c).
  - destruct inv_file0 as (cs & f0 & r & Hf & Hbs & Hc & Hws & Hn). exists cs, f0, r.
    assert (r = []) as ->.
    { apply Hn. intros j [] Hj; try done. destruct (inv_workers0 j _ Hj) as ([q|] & Hq & Hok); [|done]. cbn in Hok. subst q.
      assert (j = i) as -> by (by eapply (pos_inj _ _ _ inv_pos0)). congruence. }
    splits; try done.
    intros j rest Hj. destruct (Nat.eq_dec j i) as [->|Hji]; [|by eapply Hws, insert_other].
    rewrite list_lookup_insert_eq in Hj by (by eapply lookup_lt_Some). injection Hj as <-. done.
  - by eapply prod_ok_insert.
Qed.

(** ** Waking up *)

Lemma is_writing_wake w : is_writing (wake w) = is_writing w.
Proof. by destruct w. Qed.

Lemma wake_writing w rest : wake w = WWrite rest -> w = WWrite rest.
Proof. by destruct w. Qed.

Lemma lookup_wake ws i w : map wake ws !! i = Some w -> exists x, ws !! i = Some x /\ w = wake x.
Proof. rewrite list_lookup_fmap. intros (x & Hx & ->)%fmap_Some. eauto. Qed.

Lemma file_ok_wake c next f ws : file_ok c next f ws -> file_ok c next f (map wake ws).
Proof.
  intros (cs & f0 & r & Hf & Hb & Hc & Hw & Hn). exists cs, f0, r. splits; try done.
  - intros i rest (x & Hx & E)%lookup_wake. symmetry in E. apply wake_writing in E as ->. by eapply Hw.
  - intros Hall. apply Hn. intros i x Hx. rewrite <- is_writing_wake. apply (Hall i).
    change (map wake ws) with (wake <$> ws). by rewrite list_lookup_fmap, Hx.
Qed.

(** A thread that is woken is fine in any state that keeps what it works on. *)
Lemma worker_ok_wake c next e cl o w c' e' cl' : worker_ok c next e cl o w -> (is_writing w = None \/ c' = c) ->
  (w = WExit -> cl' = true /\ next = e') -> worker_ok c' next e' cl' o (wake w).
Proof.
  intros Hw Hc He. destruct w, o; cbn in *; try done; try tauto; destruct Hc as [?| ->]; try done; tauto.
Qed.

Definition woken (p : Producer) : Producer := match p with PAsleep k => PWoken k | _ => p end.

Lemma notify_all_eq s : notify_all s = set_producer (woken (producer s)) (set_workers (map wake (workers s)) s).
Proof. unfold notify_all. destruct s as [? ? p]. by destruct p. Qed.

Lemma pending_woken p : pending (woken p) = pending p.
Proof. by destruct p. Qed.

Lemma prod_ok_woken c e pos upto cl op cs ws p c' upto' : prod_ok c e pos upto cl op cs ws p ->
  prod_ok c' e pos upto' cl op cs (map wake ws) (woken p).
Proof.
  intros Hp. destruct p as [| |[] []|[]|[]| | |m|]; cbn [prod_ok woken] in *; try done.
  - tauto.
  - destruct Hp as (H1 & H2 & H3 & H4 & H5 & H6). splits; try done. intros i w (x & Hx & ->)%lookup_wake Hm. by rewrite (H6 i x Hx Hm).
  - destruct Hp as (H1 & H2 & H3 & H4 & H6). splits; try done. intros i w (x & Hx & ->)%lookup_wake. by rewrite (H6 i x Hx).
Qed.

(** ** The end of a block *)

Definition finished (i : nat) (s : Writer) : Writer :=
  set_worker i WTop (notify_all (set_shared (set_thread_pos (<[i:=None]> (thread_pos (shared s))) (shared s)) s)).

Lemma set_worker_twice i w w' s : set_worker i w (set_worker i w' s) = set_worker i w s.
Proof. destruct s. unfold set_worker, set_workers. cbn. by rewrite list_insert_insert_eq. Qed.

Lemma set_worker_shared i w w' x s : set_worker i w (set_shared x (set_worker i w' s)) = set_worker i w (set_shared x s).
Proof. destruct s. unfold set_worker, set_workers, set_shared. cbn. by rewrite list_insert_insert_eq. Qed.

Lemma top_overwrites i w s : top B i (set_worker i w s) = top B i s.
Proof.
  unfold top. change (shared (set_worker i w s)) with (shared s). destruct (ready B (shared s)) as [[]| | |]; try done; cbn [mbind res_bind].
  - destruct (checked_add _ _); try done. cbn [mbind res_bind]. destruct (assert_ _); try done. cbn [mbind res_bind].
    by rewrite set_worker_shared.
  - rewrite !set_worker_twice. done.
Qed.

Lemma finish_block_eq i s : finish_block B i s = top B i (finished i s).
Proof. unfold finished. by rewrite top_overwrites. Qed.

Lemma file_finish c next f ws i : file_ok c next f ws -> ws !! i = Some (WWrite []) -> 0 <= c -> c <= bend next c ->
  (forall j rest, ws !! j = Some (WWrite rest) -> j = i) ->
  file_ok (bend next c) next f (<[i:=WTop]> (map wake ws)).
Proof.
  intros (cs & f0 & r & Hf & Hb & Hc & Hw & Hn) Hi H0 Hle Huniq. specialize (Hw i [] Hi). rewrite app_nil_r in Hw.
  assert (forall j rest, <[i:=WTop]> (map wake ws) !! j <> Some (WWrite rest)) as Hno.
  { intros j rest Hj. destruct (Nat.eq_dec j i) as [->|Hji].
    - rewrite list_lookup_insert_eq in Hj; [done|]. change (map wake ws) with (wake <$> ws). rewrite length_fmap. by eapply lookup_lt_Some.
    - apply insert_other in Hj; [|done]. apply lookup_wake in Hj as (x & Hx & E). symmetry in E. apply wake_writing in E as ->.
      by apply Hji, (Huniq j rest). }
  exists (cs ++ [slice c (bend next c)]), f, []. splits.
  - by rewrite app_nil_r.
  - rewrite Hf. apply Blocks_snoc; [done|]. apply Hw.
  - rewrite concat_app. cbn [concat]. rewrite app_nil_r, Hc, <- !slice_0. symmetry. apply slice_app; lia.
  - intros j rest Hj. by destruct (Hno j rest).
  - done.
Qed.

Lemma bend_range next c : c < next -> c < bend next c <= next.
Proof. unfold bend. lia. Qed.

Lemma inv_finish s c i : InvAt s c -> workers s !! i = Some (WWrite []) -> InvAt (finished i s) (bend (next_thread_pos (shared s)) c).
Proof.
  intros Hs Hi. destruct Hs. destruct (inv_workers0 i _ Hi) as ([p|] & Ho & Hok); [|done]. cbn in Hok. subst p.
  destruct (pos_active _ _ _ inv_pos0 i c Ho) as [Hcn Hcm]. pose proof (bend_range _ _ (proj2 Hcn)) as Hbe.
  pose proof (pos_range _ _ _ inv_pos0) as Hr. pose proof (lookup_lt_Some _ _ _ Hi) as Hlt.
  assert (forall j rest, workers s !! j = Some (WWrite rest) -> j = i) as Huniq.
  { intros j rest Hj. destruct (inv_workers0 j _ Hj) as ([q|] & Hq & Hok); [|done]. cbn in Hok. subst q. by eapply (pos_inj _ _ _ inv_pos0). }
  unfold finished. rewrite notify_all_eq.
  split; cbn [shared set_worker set_workers set_producer set_shared set_thread_pos thread_pos next_thread_pos next_thread_end_pos
    closing write_error workers producer buffer file producer_reserved_pos producer_reserved_write_pos producer_reserved_upto_pos
    error fd_open calls results fsync]; try done.
  - by apply pos_finish.
  - by rewrite length_insert.
  - rewrite length_insert. change (map wake (workers s)) with (wake <$> workers s). by rewrite length_fmap.
  - lia.
  - by rewrite pending_woken.
  - by rewrite pending_woken.
  - intros j w Hj. destruct (Nat.eq_dec j i) as [->|Hji].
    + rewrite list_lookup_insert_eq in Hj by (change (map wake (workers s)) with (wake <$> workers s); by rewrite length_fmap).
      injection Hj as <-. exists None. split; [|done]. apply list_lookup_insert_eq. by eapply lookup_lt_Some.
    + apply insert_other in Hj; [|done]. apply lookup_wake in Hj as (x & Hx & ->).
      destruct (inv_workers0 j x Hx) as (o & Hjo & Hok). exists o. rewrite list_lookup_insert_ne by done. split; [done|].
      eapply worker_ok_wake; [done| |intros ->; cbn in Hok; by destruct o].
      left. destruct x; try done. by destruct Hji; eapply Huniq.
  - by apply file_finish; [| |lia|lia|].
  - destruct inv_buffer0 as [H1 H2]. split; [done|]. intros q Hq. apply H2. lia.
  - eapply (prod_ok_insert _ _ _ _ _ _ _ _ i (WWrite [])); [by eapply prod_ok_woken| |done].
    change (map wake (workers s)) with (wake <$> workers s). by rewrite list_lookup_fmap, Hi.
Qed.

(** ** The top of the loop *)

Lemma inv_bounds s c : InvAt s c -> 0 <= c <= next_thread_pos (shared s) /\ next_thread_end_pos (shared s) <= len.
Proof. intros []. split; [apply (pos_range _ _ _ inv_pos0)|lia]. Qed.

(** Taking a block changes nothing for the other threads. *)
Lemma bend_take next next' p : p mod B = 0 -> p < next -> next mod B = 0 -> next < next' -> bend next' p = bend next p.
Proof. intros Hp Hl Hn Hn'. pose proof (multiple_step p next Hp Hn Hl). unfold bend. lia. Qed.

Lemma worker_ok_take c next e cl o w next' : worker_ok c next e cl o w -> next < e -> (cl = false -> next + B <= e) ->
  next mod B = 0 -> next < next' -> (forall p, o = Some p -> p mod B = 0 /\ p < next) -> worker_ok c next' e cl o w.
Proof.
  intros Hw Hne Hcl Hn Hn' Hp.
  assert (forall p b, o = Some p -> block_ok next p b -> block_ok next' p b) as Hb.
  { intros p b Eo. destruct (Hp p Eo). unfold block_ok. by rewrite (bend_take next next' p). }
  destruct w, o as [p|]; cbn in *; try done.
  - destruct Hw as [-> Hw]. specialize (Hcl eq_refl). lia.
  - destruct (Hp p eq_refl). by rewrite (bend_take next next' p).
  - by apply Hb.
  - split; [apply Hb; [done|apply Hw]|apply Hw].
  - lia.
Qed.

Lemma file_ok_take c next f ws next' : file_ok c next f ws -> next mod B = 0 -> next < next' ->
  (forall i rest, ws !! i = Some (WWrite rest) -> c mod B = 0 /\ c < next) -> file_ok c next' f ws.
Proof.
  intros (cs & f0 & r & Hf & Hb & Hc & Hw & Hn) Hm Hn' Hp. exists cs, f0, r. splits; try done.
  intros i rest Hi. destruct (Hp i rest Hi). unfold block_ok. rewrite (bend_take next next' c) by done. by eapply Hw.
Qed.

Definition taken (i : nat) (next' : Z) (s : Writer) : Writer :=
  let g := shared s in
  set_worker i (WCompress enc_new (next' - next_thread_pos g) (next_thread_pos g) (next' - next_thread_pos g) [])
    (set_shared (set_next next' (set_thread_pos (<[i:=Some (next_thread_pos g)]> (thread_pos g)) g)) s).

Lemma inv_take s c i next' : InvAt s c -> workers s !! i = Some WTop -> next_thread_pos (shared s) < next_thread_end_pos (shared s) ->
  (closing (shared s) = false -> next_thread_pos (shared s) + B <= next_thread_end_pos (shared s)) ->
  next' = Z.min (next_thread_end_pos (shared s)) (next_thread_pos (shared s) + B) -> InvAt (taken i next' s) c.
Proof.
  intros Hs Hi Hlt Hcl En. pose proof (inv_bounds s c Hs) as [Hr He]. destruct Hs.
  destruct (inv_workers0 i _ Hi) as ([p|] & Ho & Hok); [done|].
  assert (next_thread_pos (shared s) mod B = 0) as Hm by (destruct inv_mult0 as [|[]]; [done|lia]).
  set (next := next_thread_pos (shared s)) in *. assert (next < next' <= next + B) as Hn by lia.
  pose proof (lookup_lt_Some _ _ _ Hi) as Hil.
  assert (forall j q, thread_pos (shared s) !! j = Some (Some q) -> q mod B = 0 /\ q < next) as Hact.
  { intros j q Hj. destruct (pos_active _ _ _ inv_pos0 j q Hj). tauto. }
  unfold taken. fold next. split; cbn; try done.
  - by apply pos_take.
  - by rewrite length_insert.
  - by rewrite length_insert.
  - lia.
  - destruct (closing (shared s)); [|left].
    + destruct (Z.le_ge_cases (next + B) (next_thread_end_pos (shared s))); [left|right; split; [done|lia]].
      replace next' with (next + B) by lia. rewrite Z.add_mod, Hm, Z.mod_same, Z.mod_0_l by lia. done.
    + specialize (Hcl eq_refl). replace next' with (next + B) by lia. rewrite Z.add_mod, Hm, Z.mod_same, Z.mod_0_l by lia. done.
  - intros j w Hj. destruct (Nat.eq_dec j i) as [->|Hji].
    + rewrite list_lookup_insert_eq in Hj by done. injection Hj as <-. exists (Some next).
      rewrite list_lookup_insert_eq by (by eapply lookup_lt_Some). split; [done|]. cbn.
      rewrite slice_nil. unfold bend. splits; try lia. apply fed_new.
    + apply insert_other in Hj; [|done]. destruct (inv_workers0 j w Hj) as (o & Hjo & Hokj). exists o.
      rewrite list_lookup_insert_ne by done. split; [done|].
      eapply worker_ok_take; [done|done|done|done|lia|]. intros q ->. by apply (Hact j).
  - eapply file_ok_insert; [|done..]. apply (file_ok_take c next); [done|done|lia|]. intros j rest Hj.
    destruct (inv_workers0 j _ Hj) as ([q|] & Hq & Hokj); [|done]. cbn in Hokj. subst q. by apply (Hact j).
  - by eapply prod_ok_insert.
Qed.

Lemma ready_ok s c : InvAt s c -> exists b : bool, ready B (shared s) = Ok b /\
  (b = true <-> next_thread_pos (shared s) < next_thread_end_pos (shared s) /\
     (closing (shared s) = false -> next_thread_pos (shared s) + B <= next_thread_end_pos (shared s))).
Proof.
  intros Hs. pose proof (inv_bounds s c Hs) as [Hr He]. destruct Hs. unfold ready, checked_add. rewrite inv_werr0. cbn [negb andb].
  destruct (Z.ltb_spec (next_thread_pos (shared s)) (next_thread_end_pos (shared s))).
  - destruct (closing (shared s)); [by exists true|]. rewrite (proj2 (Z.ltb_lt _ _)) by (unfold L, n in *; nia).
    cbn [mbind res_bind]. eexists. split; [done|]. rewrite Z.leb_le. split; [done|]. intros [_ Hc]. by apply Hc.
  - exists false. split; [done|]. split; [done|lia].
Qed.

Lemma inv_top s c i : InvAt s c -> workers s !! i = Some WTop -> exists s', top B i s = Ok s' /\ InvAt s' c /\
  ((exists next', s' = taken i next' s /\ next_thread_pos (shared s) < next' <= len) \/
   s' = set_worker i WExit s \/ s' = set_worker i WTopAsleep s).
Proof.
  intros Hs Hi. pose proof (inv_bounds s c Hs) as [Hr He]. destruct (ready_ok s c Hs) as (b & Eb & Hb). unfold top. rewrite Eb.
  cbn [mbind res_bind]. destruct (inv_workers s c Hs i _ Hi) as ([p|] & Ho & Hok); [done|]. destruct b.
  - destruct (proj1 Hb eq_refl) as [Hlt Hcl]. unfold checked_add. rewrite (proj2 (Z.ltb_lt _ _)) by (unfold L, n in *; nia).
    cbn [mbind res_bind]. rewrite (proj2 (Z.ltb_lt (_ - _) _)) by lia. cbn [assert_ mbind res_bind].
    eexists. split; [reflexivity|]. split; [by apply inv_take|]. left. eexists. split; [reflexivity|]. lia.
  - rewrite (inv_werr s c Hs). cbn [orb]. destruct (closing (shared s)) eqn:Ec; cbn [andb].
    + destruct (Z.eqb_spec (next_thread_pos (shared s)) (next_thread_end_pos (shared s))) as [E|E].
      * eexists. split; [reflexivity|]. split; [|tauto]. eapply inv_set_worker; [done..| |done|done]. by rewrite Ec.
      * pose proof (inv_next s c Hs). assert (false = true); [|done]. apply Hb. split; [lia|done].
    + eexists. split; [reflexivity|]. split; [|tauto]. eapply inv_set_worker; [done..| |done|done]. rewrite Ec. cbn. split; [done|].
      pose proof (inv_next s c Hs). destruct (Z.lt_ge_cases (next_thread_end_pos (shared s)) (next_thread_pos (shared s) + B)); [done|].
      exfalso. assert (false = true); [|done]. apply Hb. split; [lia|done].
Qed.

(** ** Reading the ring buffer *)

Lemma L_pos : 0 < L.
Proof. unfold L, n. nia. Qed.

Lemma mod_L_add off j : 0 <= off -> 0 <= j < L - off mod L -> (off + j) mod L = off mod L + j.
Proof.
  intros Ho Hj. pose proof L_pos. pose proof (Z.mod_pos_bound off L ltac:(lia)).
  rewrite <- (Z.mod_small (off mod L + j) L) by lia. by rewrite Z.add_mod_idemp_l by lia.
Qed.

Lemma ring_read c pos buf off k : buffer_ok c pos buf -> 0 <= c <= off -> off + k <= pos -> pos <= len -> 0 <= k <= L - off mod L ->
  take (Z.to_nat k) (drop (Z.to_nat (off mod L)) buf) = slice off (off + k).
Proof.
  intros [Hl Hb] Hc Hk Hp Hm. pose proof L_pos. pose proof (Z.mod_pos_bound off L ltac:(lia)). unfold slice.
  replace (off + k - off) with k by lia. apply list_eq. intros j.
  destruct (decide (j < Z.to_nat k)%nat) as [Hj|Hj]; [|rewrite !lookup_take_ge by lia; done].
  rewrite !lookup_take_lt, !lookup_drop by done.
  replace (Z.to_nat (off mod L) + j)%nat with (Z.to_nat ((off + Z.of_nat j) mod L)) by (rewrite mod_L_add by lia; lia).
  rewrite Hb by lia. f_equal. lia.
Qed.

(** ** Compressing *)

Lemma inv_compress s c i st l off rem out : InvAt s c -> workers s !! i = Some (WCompress st l off rem out) -> 0 < rem ->
  exists k st' out', compress_some B i st l off rem out s
    = Ok (set_worker i (WCompress st' l (off + Z.of_nat k) (rem - Z.of_nat k) out') s) /\ (0 < k)%nat /\ Z.of_nat k <= rem /\
    InvAt (set_worker i (WCompress st' l (off + Z.of_nat k) (rem - Z.of_nat k) out') s) c.
Proof.
  intros Hs Hi Hrem. pose proof (inv_bounds s c Hs) as [Hr He]. pose proof Hs as Hs0. destruct Hs.
  destruct (inv_workers0 i _ Hi) as ([p|] & Ho & Hok); [|done]. destruct Hok as (El & Hpo & Er & _ & Hfed).
  destruct (pos_active _ _ _ inv_pos0 i p Ho) as [Hp Hpm]. pose proof L_pos as HL.
  assert (bend (next_thread_pos (shared s)) p <= next_thread_pos (shared s) /\ bend (next_thread_pos (shared s)) p <= p + B) as [Hb1 Hb2]
    by (unfold bend; lia).
  pose proof (Z.mod_pos_bound off L ltac:(lia)) as Hmod. unfold compress_some.
  assert (buffer_len s = L) as -> by apply inv_buffer0. set (k := Z.min rem (L - off mod L)).
  rewrite (ring_read c (producer_reserved_write_pos s) (buffer s) off k) by (done || lia).
  assert (slice p (off + k) = slice p off ++ slice off (off + k)) as Hsl by (apply slice_app; lia).
  assert (Z.of_nat (length (slice off (off + k))) = k) as Hlk by (rewrite length_slice; lia).
  destruct (process_spec st _ _ (slice off (off + k)) Hfed) as (m & o & st' & -> & Hm & Hfed').
  { intros E. rewrite E in Hlk. simpl in Hlk. lia. }
  { rewrite <- Hsl, length_slice; lia. }
  exists m, st', (out ++ o). splits; [reflexivity|lia|lia|].
  eapply inv_set_worker; [done|done|done|done| |done|done]. cbn. splits; try lia.
  rewrite (slice_app p off) by lia. replace (slice off (off + Z.of_nat m)) with (take m (slice off (off + k))); [done|].
  unfold slice. rewrite take_take. f_equal. lia.
Qed.

(** ** Waiting for the turn *)

Lemma other_first pos tp c next : PosOk tp next c -> c <= pos ->
  (exists i, tp !! i = Some (Some pos)) -> other_thread_write_first pos tp = (c <? pos).
Proof.
  intros Hp Hc [i Hi]. unfold other_thread_write_first. destruct (Z.ltb_spec c pos) as [Hl|Hl].
  - apply existsb_exists. destruct (pos_active _ _ _ Hp i pos Hi). destruct (pos_all _ _ _ Hp c ltac:(lia)) as [j Hj].
    { destruct (pos_first _ _ _ Hp); [lia|done]. }
    exists (Some c). split; [|by apply Z.ltb_lt]. apply list_elem_of_In. by eapply list_elem_of_lookup_2.
  - destruct (existsb _ tp) eqn:E; [|done]. apply existsb_exists in E as ([q|] & Hq & E); [|done]. apply Z.ltb_lt in E.
    apply list_elem_of_In, list_elem_of_lookup in Hq as [j Hj]. destruct (pos_active _ _ _ Hp j q Hj). lia.
Qed.

Lemma inv_turn s c i w p b : InvAt s c -> workers s !! i = Some w -> w <> WExit -> is_writing w = None ->
  thread_pos (shared s) !! i = Some (Some p) -> block_ok (next_thread_pos (shared s)) p b ->
  exists w', turn B i b s = Ok (set_worker i w' s) /\ InvAt (set_worker i w' s) c /\ (w' = WTurnAsleep b \/ w' = WWrite b).
Proof.
  intros Hs Hw He Hiw Ho Hb. pose proof (inv_pos s c Hs) as Hp. destruct (pos_active _ _ _ Hp i p Ho) as [Hpc _]. unfold turn.
  rewrite (inv_werr s c Hs), Ho. cbn [mjoin option_join unwrap mbind res_bind].
  rewrite (other_first p _ c _ Hp) by (lia || by exists i). destruct (Z.ltb_spec c p) as [Hl|Hl].
  - exists (WTurnAsleep b). split; [done|]. split; [|tauto]. by eapply inv_set_worker.
  - assert (p = c) as -> by lia. exists (WWrite b). split; [done|]. split; [|tauto]. by eapply inv_start_write.
Qed.

Lemma inv_compress_end s c i st l off out : InvAt s c -> workers s !! i = Some (WCompress st l off 0 out) ->
  exists w' b, compress_end B i st l out s = Ok (set_worker i w' s) /\ InvAt (set_worker i w' s) c /\
    (w' = WTurnAsleep b \/ w' = WWrite b) /\ Z.of_nat (length b) <= 8 + output_len B.
Proof.
  intros Hs Hi. pose proof (inv_bounds s c Hs) as [Hr He]. destruct (inv_workers s c Hs i _ Hi) as ([p|] & Ho & Hok); [|done].
  destruct Hok as (El & Hpo & Er & _ & Hfed). pose proof (inv_pos s c Hs) as Hp. destruct (pos_active _ _ _ Hp i p Ho) as [Hpc _].
  set (e := bend (next_thread_pos (shared s)) p) in *. assert (p < e <= next_thread_pos (shared s) /\ e <= p + B) as Hpe by (unfold e, bend; lia).
  assert (off = e) as -> by lia. pose proof (inv_next s c Hs).
  assert (Z.of_nat (length (slice p e)) = e - p) as Hls by (apply length_slice; lia).
  destruct (finish_spec st _ _ Hfed) as (o & Eo & Hn & Hlo & Hd).
  { intros E. rewrite E in Hls. simpl in Hls. lia. }
  { lia. }
  unfold compress_end. rewrite Eo. rewrite bool_decide_false by done.
  set (b := header_bytes _ ++ _).
  assert (Z.of_nat (length b) <= 8 + output_len B) as Hlb by (unfold b; rewrite length_app, length_header; lia).
  destruct (inv_turn s c i _ p b Hs Hi) as (w' & -> & Hi' & Hw'); try done.
  { split; [|done]. exists (out ++ o). splits; try done; try lia.
    - unfold b. do 2 f_equal. fold e. rewrite Hls, El. done.
    - fold e. intros E. rewrite E in Hls. simpl in Hls. lia.
    - fold e. lia. }
  exists w', b. done.
Qed.

(** ** Writing *)

Lemma inv_write s c i rest k : InvAt s c -> workers s !! i = Some (WWrite rest) ->
  InvAt (set_worker i (WWrite (drop k rest)) (set_file (file s ++ take k rest) s)) c.
Proof.
  intros Hs Hi. destruct Hs. pose proof (lookup_lt_Some _ _ _ Hi) as Hlt. split; cbn; try done.
  - by rewrite length_insert.
  - intros j w Hj. destruct (Nat.eq_dec j i) as [->|Hji]; [|by eapply inv_workers0, insert_other].
    rewrite list_lookup_insert_eq in Hj by done. injection Hj as <-. destruct (inv_workers0 i _ Hi) as (o & Ho & Hok). by exists o.
  - destruct inv_file0 as (cs & f0 & r & Hf & Hb & Hc & Hw & Hn). exists cs, f0, (r ++ take k rest). splits; try done.
    + by rewrite Hf, app_assoc.
    + intros j rest' Hj. assert (j = i) as ->.
      { destruct (Nat.eq_dec j i) as [|Hji]; [done|]. apply insert_other in Hj; [|done].
        destruct (inv_workers0 j _ Hj) as ([q|] & Hq & Hok); [|done]. destruct (inv_workers0 i _ Hi) as ([q'|] & Hq' & Hok'); [|done].
        cbn in Hok, Hok'. subst. by eapply (pos_inj _ _ _ inv_pos0). }
      rewrite list_lookup_insert_eq in Hj by done. injection Hj as <-. rewrite <- app_assoc, take_drop. by eapply Hw.
    + intros Hall. specialize (Hall i (WWrite (drop k rest))). rewrite list_lookup_insert_eq in Hall by done. by specialize (Hall eq_refl).
  - by eapply prod_ok_insert.
Qed.

(** ** The producer *)

Definition prod_ok_of (s : Writer) (c : Z) (p : Producer) : Prop :=
  prod_ok c (next_thread_end_pos (shared s)) (producer_reserved_write_pos s) (producer_reserved_upto_pos s)
    (closing (shared s)) (fd_open s) (calls s) (workers s) p.

Lemma inv_set_producer s c p : InvAt s c -> pending p = pending (producer s) -> prod_ok_of s c p -> InvAt (set_producer p s) c.
Proof. intros [] Hp Hok. split; cbn; try done; by rewrite Hp. Qed.

Lemma inv_next_call s c data rest : InvAt s c -> producer s = PNext -> calls s = data :: rest ->
  InvAt (set_producer (PWriting data) (set_client rest (results s) s)) c.
Proof.
  intros [] Hp Hc. split; cbn; try done.
  - rewrite <- inv_data0, Hp, Hc. done.
  - rewrite <- inv_calls0, Hp, Hc. cbn. lia.
  - rewrite Hp in inv_prod0. exact inv_prod0.
Qed.

Lemma inv_return s c : InvAt s c -> producer s = PReturn ->
  InvAt (set_producer PNext (set_client (calls s) (results s ++ [negb (error s)]) s)) c.
Proof.
  intros [] Hp. rewrite Hp in *. split; cbn; try done.
  - rewrite <- inv_calls0, length_app. cbn. lia.
  - apply Forall_app. split; [done|]. by rewrite inv_err0; repeat constructor.
Qed.

(** Copying into the ring buffer leaves what the threads still need alone. *)
Lemma ring_write c pos buf k data rest : buffer_ok c pos buf -> 0 <= c <= pos -> 0 <= k <= L - pos mod L -> pos + k <= c + L ->
  k <= Z.of_nat (length data) -> data ++ rest = drop (Z.to_nat pos) T ->
  let o := Z.to_nat (pos mod L) in
  buffer_ok c (pos + k) (take o buf ++ take (Z.to_nat k) data ++ drop (o + Z.to_nat k) buf).
Proof.
  intros [Hl Hb] Hc Hk Hck Hkd Hd o. pose proof L_pos as HL. pose proof (Z.mod_pos_bound pos L HL) as Hmod.
  assert (length (take o buf) = o) as Ho by (rewrite length_take; lia). assert (length (take (Z.to_nat k) data) = Z.to_nat k) as Hlk by (rewrite length_take; lia).
  split; [rewrite !length_app, Ho, Hlk, length_drop; lia|]. intros q Hq. pose proof (Z.mod_pos_bound q L HL) as Hqm.
  destruct (Z.lt_ge_cases q pos) as [Hqp|Hqp].
  - rewrite <- (Hb q) by lia. destruct (Z.lt_ge_cases (q mod L) (pos mod L)) as [Hlt|Hge].
    + rewrite lookup_app_l by lia. apply lookup_take_lt. lia.
    + assert (pos mod L + k <= q mod L) as Hge2.
      { destruct (Z.le_gt_cases (pos mod L + k) (q mod L)); [done|]. exfalso.
        pose proof (Z.div_mod q L ltac:(lia)) as Eq. pose proof (Z.div_mod pos L ltac:(lia)) as Ep.
        assert (q / L < pos / L) as Hlt by (apply (Z.mul_lt_mono_pos_l L); lia).
        pose proof (Z.mul_le_mono_nonneg_l (q / L + 1) (pos / L) L ltac:(lia) ltac:(lia)). lia. }
      rewrite lookup_app_r by lia. rewrite lookup_app_r by lia. rewrite lookup_drop. f_equal. lia.
  - assert (q mod L = pos mod L + (q - pos)) as Eq by (rewrite <- mod_L_add by lia; f_equal; lia).
    rewrite lookup_app_r by lia. rewrite Ho. rewrite lookup_app_l by lia. rewrite lookup_take_lt by lia.
    rewrite <- (lookup_app_l data rest) by lia. rewrite Hd, lookup_drop. f_equal. lia.
Qed.

Lemma inv_copy s c data k : InvAt s c -> producer s = PWriting data -> 
  0 <= k <= L - producer_reserved_write_pos s mod L -> k <= Z.of_nat (length data) ->
  producer_reserved_write_pos s + k <= producer_reserved_upto_pos s ->
  let o := Z.to_nat (producer_reserved_write_pos s mod L) in
  InvAt (set_producer (PWriting (drop (Z.to_nat k) data))
    (set_written (take o (buffer s) ++ take (Z.to_nat k) data ++ drop (o + Z.to_nat k) (buffer s)) (producer_reserved_write_pos s + k) s)) c.
Proof.
  intros Hs Hp Hk Hkd Hup o. pose proof (inv_bounds s c Hs) as [Hr He]. destruct Hs. rewrite Hp in *. cbn [pending fst snd] in inv_data0, inv_calls0.
  assert (producer_reserved_write_pos s + Z.of_nat (length data) <= len) as Hlen.
  { apply (f_equal length) in inv_data0. rewrite length_app, length_drop in inv_data0. unfold len in *. lia. }
  split; cbn; try done; try lia.
  - replace (Z.to_nat (producer_reserved_write_pos s + k)) with (Z.to_nat (producer_reserved_write_pos s) + Z.to_nat k)%nat by lia.
    rewrite <- drop_drop, <- inv_data0. rewrite drop_app_le by lia. done.
  - by apply (ring_write c _ _ k data (concat (calls s))); [|lia|lia|lia|lia|].
Qed.

(** A step of [write]: copy something, wait for room, or return. *)
Lemma inv_write_loop s c data : InvAt s c -> producer s = PWriting data ->
  exists s', write_loop data s = Ok s' /\ InvAt s' c /\ shared s' = shared s /\ workers s' = workers s /\ calls s' = calls s /\
  ((exists k, 0 < k <= Z.of_nat (length data) /\ producer s' = PWriting (drop (Z.to_nat k) data)) \/
   (producer_reserved_upto_pos s = producer_reserved_write_pos s /\ data <> [] /\ producer s' = PUpdate Wait (KWrite data)) \/
   (data = [] /\ (producer s' = PUpdate NoWait KReturn \/ producer s' = PReturn))).
Proof.
  intros Hs Hp. pose proof (inv_bounds s c Hs) as [Hr He]. pose proof Hs as Hs0. destruct Hs. unfold write_loop, checked_sub.
  rewrite Hp in inv_prod0. rewrite inv_err0. cbn [negb andb].
  assert (buffer_len s = L) as HL by apply inv_buffer0. rewrite HL. pose proof L_pos.
  pose proof (Z.mod_pos_bound (producer_reserved_write_pos s) L ltac:(lia)) as Hmod.
  destruct (bool_decide_reflect (data = [])) as [->|Hd]; cbn [negb].
  - rewrite (proj2 (Z.leb_le _ _)) by lia. cbn [mbind res_bind]. eexists. split; [done|].
    destruct (L / 2 <=? _); (split; [by apply inv_set_producer; [|rewrite Hp|]|cbn; tauto]).
  - rewrite (proj2 (Z.leb_le _ _)) by lia. cbn [mbind res_bind].
    destruct (Z.eqb_spec (producer_reserved_upto_pos s - producer_reserved_write_pos s) 0) as [E|E].
    + eexists. split; [done|]. split; [|cbn; splits; try done; right; left; splits; (done || lia)].
      apply inv_set_producer; [done|by rewrite Hp|]. destruct inv_prod0. done.
    + set (k := Z.min _ (Z.min _ _)). assert (0 < Z.of_nat (length data)) by (destruct data; [done|simpl; lia]).
      assert (0 < k <= Z.of_nat (length data)) as Hk by lia.
      unfold checked_add. rewrite (proj2 (Z.ltb_lt _ _)) by (unfold len in *; lia). cbn [mbind res_bind].
      eexists. split; [done|]. split; [by apply inv_copy; [|done|lia|lia|lia]|]. cbn. splits; try done. left. by exists k.
Qed.

Lemma prod_continue s c f k upto : InvAt s c -> (producer s = PUpdate f k \/ (producer s = PWoken k /\ f = Wait)) ->
  producer_reserved_write_pos s = next_thread_end_pos (shared s) ->
  prod_ok c (next_thread_end_pos (shared s)) (producer_reserved_write_pos s) upto (closing (shared s)) (fd_open s) (calls s) (workers s) (continue k)
  /\ pending (continue k) = pending (producer s).
Proof.
  intros [] Hp Hpos. destruct Hp as [Hp|[Hp ->]]; rewrite Hp in *; [destruct f, k|destruct k]; cbn in *; try done; tauto.
Qed.

(** The loop of [update_reservation]. *)
Lemma inv_update_loop s c f k : InvAt s c -> (producer s = PUpdate f k \/ (producer s = PWoken k /\ f = Wait)) ->
  producer_reserved_write_pos s = next_thread_end_pos (shared s) ->
  exists p, update_loop f k s = Ok (set_producer p (set_upto (c + L) s)) /\ InvAt (set_producer p (set_upto (c + L) s)) c /\
    ((p = continue k /\ (f = Wait -> producer_reserved_write_pos s < c + L)) \/ (p = PAsleep k /\ f = Wait)).
Proof.
  intros Hs Hp Hpos. pose proof (inv_bounds s c Hs) as [Hr He]. pose proof (prod_continue s c f k (c + L) Hs Hp Hpos) as [Hok Hpend].
  pose proof Hs as Hs0. destruct Hs. unfold update_loop. rewrite inv_err0, inv_werr0, (pos_completed _ c inv_pos0). pose proof L_pos as HL0.
  assert (buffer_len s = L) as -> by apply inv_buffer0. unfold checked_add. rewrite (proj2 (Z.ltb_lt _ _)) by lia. cbn [mbind res_bind].
  assert (forall p, pending p = pending (producer s) -> prod_ok_of (set_upto (c + L) s) c p -> InvAt (set_producer p (set_upto (c + L) s)) c) as Hset.
  { intros p Hpp Hpo. split; cbn; try done; try lia; by rewrite Hpp. }
  change (producer_reserved_pos (set_upto (c + L) s)) with (producer_reserved_pos s).
  destruct (Z.ltb_spec (producer_reserved_pos s) (c + L)) as [Hlt|Hge]; cbn [orb].
  - exists (continue k). split; [done|]. split; [by apply Hset|]. left. split; [done|]. intros _. lia.
  - destruct f; [exists (PAsleep k)|exists (continue k)]; (split; [done|]); (split; [|tauto || (left; split; done)]).
    + apply Hset.
      * rewrite <- Hpend. destruct Hp as [Hp|[Hp _]]; rewrite Hp in inv_prod0; by destruct k.
      * destruct Hp as [Hp|[Hp _]]; rewrite Hp in inv_prod0; destruct k; cbn in *; try done; splits; try (tauto || lia).
    + by apply Hset.
Qed.

Definition reserved_now (s : Writer) : Writer :=
  notify_all (set_reserved (producer_reserved_write_pos s) (set_shared (set_end (producer_reserved_write_pos s) (shared s)) s)).

(** All data written so far becomes ready for the threads. *)
Lemma inv_reserve s c f k : InvAt s c -> producer s = PUpdate f k -> InvAt (reserved_now s) c.
Proof.
  intros Hs Hp. destruct Hs. rewrite Hp in *. unfold reserved_now. rewrite notify_all_eq.
  assert (closing (shared s) = false) as Hcl by (destruct f, k; cbn in inv_prod0; tauto).
  split; cbn; try (done || lia).
  - by rewrite length_map.
  - destruct inv_mult0 as [|[]]; [by left|congruence].
  - by rewrite Hp.
  - by rewrite Hp.
  - intros i w (x & Hx & ->)%lookup_wake. destruct (inv_workers0 i x Hx) as (o & Ho & Hok). exists o. split; [done|].
    eapply worker_ok_wake; [done|by right|]. intros ->. destruct o; cbn in Hok; [done|]. rewrite Hcl in Hok. by destruct Hok.
  - by apply file_ok_wake.
  - rewrite Hp. cbn [woken]. destruct f, k; cbn in *; try done.
Qed.

(** [close]. *)
Lemma inv_set_closing s c : InvAt s c -> producer s = PSetClosing ->
  InvAt (set_producer (PJoin (length (workers s))) (notify_all (set_shared (set_closing true (shared s)) s))) c.
Proof.
  intros Hs Hp. destruct Hs. rewrite Hp in *. rewrite notify_all_eq. destruct inv_prod0 as (Hcl & Hop & Hcs & Hend).
  split; cbn; try (done || lia).
  - by rewrite length_map.
  - intros i w (x & Hx & ->)%lookup_wake. destruct (inv_workers0 i x Hx) as (o & Ho & Hok). exists o. split; [done|].
    eapply worker_ok_wake; [done|by right|]. intros ->. destruct o; cbn in Hok; [done|]. rewrite Hcl in Hok. by destruct Hok.
  - by apply file_ok_wake.
  - splits; try done; [lia|]. intros i w Hi Hm. apply lookup_lt_Some in Hi. rewrite length_map in Hi. lia.
Qed.

Lemma inv_join s c m : InvAt s c -> producer s = PJoin (S m) -> workers s !! m = Some WExit -> InvAt (set_producer (PJoin m) s) c.
Proof.
  intros Hs Hp Hm. apply inv_set_producer; [done|by rewrite Hp|]. pose proof (inv_prod s c Hs) as Hok. rewrite Hp in Hok.
  destruct Hok as (H1 & H2 & H3 & H4 & H5 & H6). cbn. splits; try done; [lia|]. intros i w Hi Hle.
  destruct (Nat.eq_dec i m) as [->|]; [congruence|]. apply (H6 i w Hi). lia.
Qed.

Lemma inv_close_end s c : InvAt s c -> producer s = PJoin 0 -> InvAt (close_end s) c.
Proof.
  intros Hs Hp. destruct Hs. rewrite Hp in *. destruct inv_prod0 as (H1 & H2 & H3 & H4 & H5 & H6). unfold close_end.
  assert (match fsync s with Some false => set_error true s | _ => s end = s) as -> by (destruct (fsync s) as [[]|]; done).
  rewrite inv_werr0. split; cbn; try done. splits; try done. intros i w Hi. apply (H6 i w Hi). lia.
Qed.

(** ** Every step makes progress

    The work left, and among states with the same work the number of threads that were
    woken: a thread that goes back to sleep does no work. *)

Let K : Z := 8 + output_len B.
Let C : Z := K + B + 5.

Definition worker_work (w : Worker) : Z :=
  match w with
  | WExit => 0
  | WTop | WTopAsleep => 1
  | WCompress _ _ _ rem _ => rem + K + 4
  | WTurn b | WTurnAsleep b => 3 + Z.of_nat (length b)
  | WWrite rest => 2 + Z.of_nat (length rest)
  end.

Definition is_awake (w : Worker) : Z := match w with WTop | WTurn _ => 1 | _ => 0 end.

Fixpoint total (f : Worker -> Z) (ws : list Worker) : Z :=
  match ws with [] => 0 | w :: ws => f w + total f ws end.

Fixpoint calls_work (cs : list (list Z)) : Z :=
  match cs with [] => 0 | d :: cs => 4 * Z.of_nat (length d) + 10 + calls_work cs end.

Definition prod_work (s : Writer) : Z :=
  match producer s with
  | PDone => 0
  | PJoin m => 1 + Z.of_nat m
  | PSetClosing => n + 2
  | PUpdate _ KClose => n + 3
  | PNext => n + 4 + calls_work (calls s)
  | PReturn => n + 5 + calls_work (calls s)
  | PUpdate _ KReturn => n + 6 + calls_work (calls s)
  | PWriting d => n + 7 + calls_work (calls s) + 4 * Z.of_nat (length d)
      + (if producer_reserved_upto_pos s =? producer_reserved_write_pos s then 3 else 0)
  | PUpdate _ (KWrite d) => n + 9 + calls_work (calls s) + 4 * Z.of_nat (length d)
  | PAsleep (KWrite d) | PWoken (KWrite d) => n + 8 + calls_work (calls s) + 4 * Z.of_nat (length d)
  | _ => 0
  end.

Definition work (s : Writer) : Z :=
  prod_work s + total worker_work (workers s) + (len - next_thread_pos (shared s)) * C.

Definition awake (s : Writer) : Z :=
  total is_awake (workers s) + match producer s with PWoken _ => 1 | _ => 0 end.

Definition measure (s : Writer) : nat := Z.to_nat (work s * (n + 2) + awake s).

Definition lower (s' s : Writer) : Prop := work s' < work s \/ work s' = work s /\ awake s' < awake s.

Lemma total_insert f ws i w w' : ws !! i = Some w -> total f (<[i:=w']> ws) = total f ws - f w + f w'.
Proof.
  revert i. induction ws as [|x ws IH]; intros [|i] Hi; try done; cbn in Hi.
  - injection Hi as ->. change (<[0%nat:=w']> (w :: ws)) with (w' :: ws). cbn [total]. lia.
  - specialize (IH i Hi). change (<[S i:=w']> (x :: ws)) with (x :: <[i:=w']> ws). cbn [total]. lia.
Qed.

Lemma total_wake f ws : (forall w, f (wake w) = f w) -> total f (map wake ws) = total f ws.
Proof. intros Hf. induction ws as [|x ws IH]; cbn; [done|]. rewrite Hf. lia. Qed.

Lemma total_nonneg f ws : (forall i w, ws !! i = Some w -> 0 <= f w) -> 0 <= total f ws.
Proof.
  induction ws as [|x ws IH]; intros Hf; cbn; [lia|]. pose proof (Hf 0%nat x eq_refl).
  specialize (IH (fun i w Hi => Hf (S i) w Hi)). lia.
Qed.

Lemma output_len_nonneg : 0 <= output_len B.
Proof. unfold output_len. destruct (F64.mul _ _) as [| | |[] m e]; try lia. destruct (Z.leb_spec 0 e); [lia|]. apply Z.div_pos; lia. Qed.

Lemma awake_range s : length (workers s) = threads -> 0 <= awake s < n + 2.
Proof.
  intros Hl. unfold awake. assert (0 <= total is_awake (workers s) <= Z.of_nat (length (workers s))) as Ht.
  { clear Hl. induction (workers s) as [|x ws IH]; cbn [total length]; [lia|]. destruct x; cbn [is_awake]; lia. }
  rewrite Hl in Ht. fold n in Ht. destruct (producer s); lia.
Qed.

Lemma calls_work_nonneg cs : 0 <= calls_work cs.
Proof. induction cs as [|d cs IH]; cbn; lia. Qed.

Lemma work_nonneg s c : InvAt s c -> 0 <= work s.
Proof.
  intros Hs. pose proof (inv_bounds s c Hs) as [Hr He]. pose proof (inv_next s c Hs). pose proof output_len_nonneg.
  pose proof (calls_work_nonneg (calls s)). unfold work.
  assert (0 <= total worker_work (workers s)).
  { apply total_nonneg. intros i w Hw. destruct (inv_workers s c Hs i w Hw) as (o & _ & Hok).
    destruct w, o; cbn in *; unfold K; try done; lia. }
  assert (0 <= prod_work s) by (unfold prod_work, n; destruct (producer s) as [| |? []|[]|[]| | | |]; try destruct (_ =? _); lia).
  unfold C, K. nia.
Qed.

Lemma measure_lower s s' c c' : InvAt s c -> InvAt s' c' -> lower s' s -> (measure s' < measure s)%nat.
Proof.
  intros Hs Hs' Hl. pose proof (work_nonneg s c Hs). pose proof (work_nonneg s' c' Hs').
  pose proof (awake_range s (inv_ws s c Hs)). pose proof (awake_range s' (inv_ws s' c' Hs')). unfold measure. unfold lower in Hl.
  assert (work s' * (n + 2) + awake s' < work s * (n + 2) + awake s); [|lia].
  destruct Hl as [Hl|[-> Hl]]; [|lia]. assert (work s' * (n + 2) + (n + 2) <= work s * (n + 2)) by nia. lia.
Qed.

(** *** Threads *)

(** Another state with the same producer. *)
Lemma work_workers s s' : producer s' = producer s -> calls s' = calls s -> producer_reserved_upto_pos s' = producer_reserved_upto_pos s ->
  producer_reserved_write_pos s' = producer_reserved_write_pos s ->
  work s' - work s = total worker_work (workers s') - total worker_work (workers s)
    + (next_thread_pos (shared s) - next_thread_pos (shared s')) * C.
Proof. intros H1 H2 H3 H4. unfold work, prod_work. rewrite H1, H2, H3, H4. lia. Qed.

Lemma work_set_worker s i w w' : workers s !! i = Some w -> work (set_worker i w' s) - work s = worker_work w' - worker_work w.
Proof. intros Hi. rewrite (work_workers s (set_worker i w' s)) by done. cbn. rewrite (total_insert _ _ i w) by done. lia. Qed.

Lemma awake_set_worker s i w w' : workers s !! i = Some w -> awake (set_worker i w' s) - awake s = is_awake w' - is_awake w.
Proof. intros Hi. unfold awake. cbn. rewrite (total_insert _ _ i w) by done. lia. Qed.

Lemma lower_worker s i w w' : workers s !! i = Some w ->
  worker_work w' < worker_work w \/ worker_work w' = worker_work w /\ is_awake w' < is_awake w -> lower (set_worker i w' s) s.
Proof.
  intros Hi Hw. pose proof (work_set_worker s i w w' Hi). pose proof (awake_set_worker s i w w' Hi). unfold lower. lia.
Qed.

Lemma lower_top s c i s' : InvAt s c -> workers s !! i = Some WTop ->
  ((exists next', s' = taken i next' s /\ next_thread_pos (shared s) < next' <= len) \/
   s' = set_worker i WExit s \/ s' = set_worker i WTopAsleep s) -> InvAt s' c -> lower s' s /\ work s' <= work s.
Proof.
  intros Hs Hi [(next' & -> & Hn)|[->|E]] Hs'.
  - assert (work (taken i next' s) < work s); [|unfold lower; lia].
    pose proof (inv_workers _ _ Hs' i (WCompress enc_new (next' - next_thread_pos (shared s)) (next_thread_pos (shared s)) (next' - next_thread_pos (shared s)) [])) as Hw.
    destruct Hw as ([p|] & _ & Hok); [unfold taken; cbn; apply list_lookup_insert_eq; by eapply lookup_lt_Some| |done].
    cbn in Hok. unfold bend in Hok. pose proof output_len_nonneg.
    pose proof (work_workers s (taken i next' s) eq_refl eq_refl eq_refl eq_refl) as Hw. unfold taken in *. cbn in Hw.
    rewrite (total_insert _ _ i WTop) in Hw by done. cbn in Hw. unfold C, K in *. nia.
  - pose proof (work_set_worker s i _ WExit Hi) as Hw. cbn in Hw. unfold lower. lia.
  - subst s'. pose proof (work_set_worker s i _ WTopAsleep Hi) as Hw. pose proof (awake_set_worker s i _ WTopAsleep Hi) as Ha.
    cbn in Hw, Ha. unfold lower. lia.
Qed.

Lemma work_notify s : work (notify_all s) = work s.
Proof.
  rewrite notify_all_eq. unfold work, prod_work. cbn. rewrite total_wake by (by intros []).
  f_equal. f_equal. destruct (producer s) as [| |? []|[]|[]| | | |]; done.
Qed.

Lemma work_finished s c i : InvAt s c -> workers s !! i = Some (WWrite []) -> work (finished i s) < work s.
Proof.
  intros Hs Hi. unfold finished. set (s1 := set_shared _ s).
  assert (work s1 = work s) as E1 by (by unfold work). pose proof (work_notify s1) as E2.
  assert (workers (notify_all s1) !! i = Some (WWrite [])) as Hi2.
  { rewrite notify_all_eq. cbn. change (map wake (workers s)) with (wake <$> workers s). by rewrite list_lookup_fmap, Hi. }
  pose proof (work_set_worker (notify_all s1) i _ WTop Hi2) as Hw. cbn in Hw. lia.
Qed.

Lemma worker_step_ok s c i k r : InvAt s c -> worker_step B i k s = Some r ->
  (r = Fatal /\ k = 0%nat) \/ exists s' c', r = Ok s' /\ InvAt s' c' /\ lower s' s.
Proof.
  intros Hs. unfold worker_step. destruct (workers s !! i) as [[| |st l off rem out|b|b|rest|]|] eqn:Hi; try done; intros E.
  - injection E as <-. right. destruct (inv_top s c i Hs Hi) as (s' & -> & Hs' & Hcase). exists s', c. splits; try done.
    by eapply lower_top.
  - injection E as <-. right. destruct (Z.ltb_spec 0 rem) as [Hrem|Hrem].
    + destruct (inv_compress s c i st l off rem out Hs Hi Hrem) as (m & st' & out' & -> & Hm & Hle & Hs').
      eexists _, c. splits; [done|done|]. eapply lower_worker; [done|]. cbn. lia.
    + destruct (inv_workers s c Hs i _ Hi) as ([p|] & _ & Hok); [|done]. cbn in Hok. assert (rem = 0) as -> by lia.
      destruct (inv_compress_end s c i st l off out Hs Hi) as (w' & b & -> & Hs' & Hw' & Hlb).
      eexists _, c. splits; [done|done|]. eapply lower_worker; [done|]. unfold worker_work, K. destruct Hw' as [-> | ->]; lia.
  - injection E as <-. right. destruct (inv_workers s c Hs i _ Hi) as ([p|] & Ho & Hok); [|done].
    destruct (inv_turn s c i _ p b Hs Hi) as (w' & -> & Hs' & Hw'); try done.
    eexists _, c. splits; [done|done|]. eapply lower_worker; [done|]. destruct Hw' as [-> | ->]; cbn; lia.
  - destruct rest as [|x rest]; injection E as <-.
    + right. rewrite finish_block_eq. pose proof (inv_finish s c i Hs Hi) as Hf. pose proof (work_finished s c i Hs Hi) as Hlt.
      assert (workers (finished i s) !! i = Some WTop) as Hi2.
      { unfold finished. cbn. apply list_lookup_insert_eq. rewrite notify_all_eq. cbn. rewrite length_map. by eapply lookup_lt_Some. }
      destruct (inv_top _ _ i Hf Hi2) as (s' & -> & Hs' & Hcase). eexists s', _. splits; [done|done|].
      destruct (lower_top _ _ i s' Hf Hi2 Hcase Hs'). left. lia.
    + destruct k as [|k]; [by left|]. right. eexists _, c. splits; [done|by eapply inv_write|]. left.
      pose proof (work_workers s (set_worker i (WWrite (drop (S k) (x :: rest))) (set_file (file s ++ take (S k) (x :: rest)) s))
        eq_refl eq_refl eq_refl eq_refl) as Hw. cbn in Hw. rewrite (total_insert _ _ i _ _ Hi) in Hw. cbn in Hw. rewrite length_drop in Hw. cbn. lia.
Qed.

(** *** The producer *)

(** A state with the same threads. *)
Lemma work_prod s s' : workers s' = workers s -> next_thread_pos (shared s') = next_thread_pos (shared s) ->
  work s' - work s = prod_work s' - prod_work s.
Proof. intros H1 H2. unfold work. rewrite H1, H2. lia. Qed.

Lemma lower_prod s p : prod_work (set_producer p s) < prod_work s -> lower (set_producer p s) s.
Proof. intros Hl. pose proof (work_prod s (set_producer p s) eq_refl eq_refl). left. lia. Qed.

Lemma update_lower s c p f k : InvAt s c -> (producer s = PUpdate f k \/ (producer s = PWoken k /\ f = Wait)) ->
  ((p = continue k /\ (f = Wait -> producer_reserved_write_pos s < c + L)) \/ (p = PAsleep k /\ f = Wait)) ->
  lower (set_producer p (set_upto (c + L) s)) s /\
  (producer s = PUpdate f k -> work (set_producer p (set_upto (c + L) s)) < work s).
Proof.
  intros Hs Hp Hc. pose proof (work_prod s (set_producer p (set_upto (c + L) s)) eq_refl eq_refl) as Hw.
  pose proof (inv_prod s c Hs) as Hok. unfold prod_work at 1 in Hw. cbn in Hw.
  destruct Hp as [Hp|[Hp ->]]; rewrite Hp in Hok; unfold prod_work in Hw; rewrite Hp in Hw.
  - assert (work (set_producer p (set_upto (c + L) s)) < work s); [|unfold lower; tauto].
    destruct Hc as [[-> Hc]|[-> ->]]; [|destruct k; cbn in *; try done; lia].
    destruct f, k; cbn in *; try done; try lia. rewrite (proj2 (Z.eqb_neq (c + L) _)) in Hw by (specialize (Hc eq_refl); lia). lia.
  - split; [|congruence]. destruct Hc as [[-> Hc]|[-> _]]; destruct k as [d| |]; cbn in *; try done.
    + rewrite (proj2 (Z.eqb_neq (c + L) _)) in Hw by (specialize (Hc eq_refl); lia). left. lia.
    + right. split; [lia|]. unfold awake. cbn. rewrite Hp. lia.
Qed.

Lemma update_ok s c f k : InvAt s c -> producer s = PUpdate f k ->
  exists s', update_reservation f k s = Ok s' /\ InvAt s' c /\ lower s' s.
Proof.
  intros Hs Hp. pose proof (inv_reserve s c f k Hs Hp) as Hr. unfold update_reservation. fold (reserved_now s).
  assert (producer (reserved_now s) = PUpdate f k) as Hp2 by (unfold reserved_now; rewrite notify_all_eq; cbn; by rewrite Hp).
  assert (producer_reserved_write_pos (reserved_now s) = next_thread_end_pos (shared (reserved_now s))) as Hpos
    by (unfold reserved_now; by rewrite notify_all_eq).
  destruct (inv_update_loop (reserved_now s) c f k Hr (or_introl Hp2) Hpos) as (p & -> & Hs' & Hcase).
  eexists. splits; [done|done|]. destruct (update_lower (reserved_now s) c p f k Hr (or_introl Hp2) Hcase) as [_ Hlt]. specialize (Hlt Hp2).
  left. unfold reserved_now in *. rewrite work_notify in Hlt. exact Hlt.
Qed.

Lemma next_ok s c : InvAt s c -> producer s = PNext ->
  exists s', match calls s with
    | data :: rest => Ok (set_producer (PWriting data) (set_client rest (results s) s))
    | [] => Ok (set_producer (if fd_open s then PUpdate NoWait KClose else PDone) s)
    end = Ok s' /\ InvAt s' c /\ lower s' s.
Proof.
  intros Hs Hp. pose proof (inv_prod s c Hs) as Hok. rewrite Hp in Hok. destruct Hok as [Hcl Hop].
  destruct (calls s) as [|d ds] eqn:Hcs.
  - rewrite Hop. eexists. splits; [done| |]; [apply inv_set_producer; [done|by rewrite Hp|by cbn; rewrite Hcs]|].
    apply lower_prod. unfold prod_work. cbn. rewrite Hp, Hcs. cbn. lia.
  - eexists. splits; [done|by apply inv_next_call|]. left.
    pose proof (work_prod s (set_producer (PWriting d) (set_client ds (results s) s)) eq_refl eq_refl) as Hw.
    unfold prod_work in Hw. rewrite Hp, Hcs in Hw. cbn in Hw. destruct (_ =? _); lia.
Qed.

Lemma producer_step_ok s c r : InvAt s c -> producer_step s = Some r -> exists s', r = Ok s' /\ InvAt s' c /\ lower s' s.
Proof.
  intros Hs. pose proof (inv_prod s c Hs) as Hok. unfold producer_step. destruct (producer s) as [|d|f k|k|k| | |[|m]|] eqn:Hp; intros E.
  - injection E as <-. by apply next_ok.
  - injection E as <-. destruct (inv_write_loop s c d Hs Hp) as (s' & -> & Hs' & Hsh & Hws & Hcs & Hcase).
    eexists. splits; [done|done|]. left. pose proof (work_prod s s' Hws ltac:(by rewrite Hsh)) as Hw.
    unfold prod_work in Hw. rewrite Hp, Hcs in Hw.
    destruct Hcase as [(k & Hk & Ep)|[(Eu & Hd & Ep)|(-> & [Ep|Ep])]]; rewrite Ep in Hw.
    + rewrite length_drop in Hw. destruct (_ =? _), (_ =? _); lia.
    + rewrite Eu, Z.eqb_refl in Hw. lia.
    + cbn in Hw. destruct (_ =? _); lia.
    + cbn in Hw. destruct (_ =? _); lia.
  - injection E as <-. destruct (update_ok s c f k Hs Hp) as (s' & -> & Hs' & Hl). by exists s'.
  - done.
  - injection E as <-. destruct k as [d| |]; try done. destruct Hok as (_ & _ & _ & Hpos).
    destruct (inv_update_loop s c Wait (KWrite d) Hs (or_intror (conj Hp eq_refl)) Hpos) as (p & -> & Hs' & Hcase).
    eexists. splits; [done|done|]. by apply (update_lower s c p Wait (KWrite d) Hs (or_intror (conj Hp eq_refl)) Hcase).
  - injection E as <-. eexists. splits; [done|by apply inv_return|]. left.
    pose proof (work_prod s (set_producer PNext (set_client (calls s) (results s ++ [negb (error s)]) s)) eq_refl eq_refl) as Hw.
    unfold prod_work in Hw. rewrite Hp in Hw. cbn in Hw. lia.
  - injection E as <-. eexists. splits; [done|by apply inv_set_closing|]. left. set (s1 := set_shared _ s).
    pose proof (work_prod (notify_all s1) (set_producer (PJoin (length (workers s))) (notify_all s1)) eq_refl eq_refl) as Hw.
    rewrite work_notify in Hw. assert (work s1 = work s) as E1 by done. unfold prod_work in Hw. rewrite notify_all_eq in Hw at 3.
    cbn in Hw. rewrite Hp in Hw. cbn in Hw. rewrite (inv_ws s c Hs) in Hw at 2. fold n in Hw. lia.
  - injection E as <-. eexists. splits; [done|by apply inv_close_end|]. left.
    assert (work (close_end s) = work (set_producer PDone s)) as E1 by (unfold close_end; destruct (fsync s) as [[]|]; cbn; destruct (write_error _); done).
    pose proof (work_prod s (set_producer PDone s) eq_refl eq_refl) as Hw. unfold prod_work in Hw. rewrite Hp in Hw. cbn in Hw. lia.
  - destruct (workers s !! m) as [[]|] eqn:Hm; try done. injection E as <-. eexists. splits; [done|by apply inv_join|].
    apply lower_prod. unfold prod_work. cbn [producer set_producer]. rewrite Hp. lia.
  - done.
Qed.

(** ** No deadlock *)

Definition can_step (s : Writer) : Prop := exists t s', step B t 1 s = Some (Ok s').

Lemma worker_can_step s c i w : InvAt s c -> workers s !! i = Some w -> worker_step B i 1 s <> None -> can_step s.
Proof.
  intros Hs Hi Hn. destruct (worker_step B i 1 s) as [r|] eqn:E; [|done].
  destruct (worker_step_ok s c i 1 r Hs E) as [[_ ?]|(s' & c' & -> & _)]; [done|]. by exists (Comp i), s'.
Qed.

(** The thread with the first block is never asleep. *)
Lemma first_can_step s c : InvAt s c -> c < next_thread_pos (shared s) -> can_step s.
Proof.
  intros Hs Hlt. pose proof (inv_pos s c Hs) as Hp. pose proof (pos_range _ _ _ Hp) as Hr.
  destruct (pos_all _ _ _ Hp c ltac:(lia)) as [i Hi]; [destruct (pos_first _ _ _ Hp); [lia|done]|].
  destruct (lookup_lt_is_Some_2 (workers s) i) as [w Hw].
  { rewrite (inv_ws s c Hs), <- (inv_tp s c Hs). by eapply lookup_lt_Some. }
  eapply (worker_can_step s c i w); [done..|]. destruct (inv_workers s c Hs i w Hw) as (o & Ho & Hok).
  assert (o = Some c) as -> by congruence. unfold worker_step. rewrite Hw.
  destruct w as [| | | | |[]|]; cbn in Hok; try done. destruct Hok. lia.
Qed.

Lemma idle_can_step s c i : InvAt s c -> workers s !! i = Some WTop -> can_step s.
Proof. intros Hs Hi. eapply (worker_can_step s c i); [done..|]. unfold worker_step. by rewrite Hi. Qed.

Lemma progress s c : InvAt s c -> producer s <> PDone -> can_step s.
Proof.
  intros Hs Hd. destruct (Z.lt_ge_cases c (next_thread_pos (shared s))) as [Hlt|Hge]; [by eapply first_can_step|].
  pose proof (pos_range _ _ _ (inv_pos s c Hs)) as Hr. assert (c = next_thread_pos (shared s)) as Hc by lia. pose proof L_pos as HL.
  (* no thread has a block *)
  assert (forall i w, workers s !! i = Some w -> w = WTop \/ w = WTopAsleep \/ w = WExit) as Hidle.
  { intros i w Hi. destruct (inv_workers s c Hs i w Hi) as ([p|] & Ho & Hok); [|destruct w; cbn in Hok; tauto].
    destruct (pos_active _ _ _ (inv_pos s c Hs) i p Ho). lia. }
  pose proof (inv_prod s c Hs) as Hok. destruct (producer_step s) as [r|] eqn:E.
  { destruct (producer_step_ok s c r Hs E) as (s' & -> & _). by exists Prod, s'. }
  unfold producer_step in E. destruct (producer s) as [| | |[d| |]| | | |[|m]|] eqn:Hp; try done.
  - destruct Hok as (Hcl & _ & _ & Hpos & Hle). destruct (lookup_lt_is_Some_2 (workers s) 0) as [w Hw]; [by rewrite (inv_ws s c Hs)|].
    destruct (inv_workers s c Hs _ w Hw) as (o & _ & Hw2). destruct (Hidle _ w Hw) as [-> |[-> | ->]].
    + by eapply idle_can_step.
    + destruct o; [done|]. cbn in Hw2. unfold L, n in *. nia.
    + destruct o; [done|]. cbn in Hw2. rewrite Hcl in Hw2. by destruct Hw2.
  - destruct Hok as (Hcl & _ & _ & _ & Hm & _). destruct (lookup_lt_is_Some_2 (workers s) m) as [w Hw]; [rewrite (inv_ws s c Hs); lia|].
    destruct (inv_workers s c Hs _ w Hw) as (o & _ & Hw2). rewrite Hw in E. destruct (Hidle _ w Hw) as [-> |[-> | ->]]; [by eapply idle_can_step| |done].
    destruct o; [done|]. cbn in Hw2. rewrite Hcl in Hw2. by destruct Hw2.
Qed.

(** ** The end *)

Lemma inv_done s c : InvAt s c -> producer s = PDone ->
  error s = false /\ results s = repeat true ncalls /\ exists cs, Blocks cs (file s) /\ concat cs = T.
Proof.
  intros Hs Hp. pose proof (inv_bounds s c Hs) as [Hr He]. destruct Hs. rewrite Hp in *. destruct inv_prod0 as (Hcl & _ & Hcs & Hpos & Hex).
  split; [done|]. cbn in inv_data0, inv_calls0. rewrite Hcs in *. cbn in inv_data0, inv_calls0. split.
  { rewrite <- inv_calls0, !Nat.add_0_r. clear -inv_results0. induction inv_results0 as [|x l <- _ IH]; cbn; [done|by f_equal]. }
  destruct inv_file0 as (cs & f0 & w & Hf & Hb & Hc & _ & Hn). exists cs.
  assert (w = []) as -> by (apply Hn; intros i x Hx; by rewrite (Hex i x Hx)). rewrite app_nil_r in Hf. rewrite Hf. split; [done|].
  destruct (lookup_lt_is_Some_2 (workers s) 0) as [x Hx]; [by rewrite inv_ws0|].
  destruct (inv_workers0 _ x Hx) as ([p|] & _ & Hok); rewrite (Hex _ x Hx) in Hok; [done|]. destruct Hok as [_ Hne].
  assert (c = next_thread_pos (shared s)) as ->.
  { destruct (Z.eq_dec c (next_thread_pos (shared s))) as [|Hne2]; [done|].
    destruct (pos_all _ _ _ inv_pos0 c ltac:(lia)) as [i Hi]; [destruct (pos_first _ _ _ inv_pos0); [lia|done]|].
    destruct (lookup_lt_is_Some_2 (workers s) i) as [y Hy]; [rewrite inv_ws0, <- inv_tp0; by eapply lookup_lt_Some|].
    destruct (inv_workers0 i y Hy) as (o & Ho & Hok). rewrite (Hex i y Hy), Ho in *. injection Hi as ->. done. }
  rewrite Hc. apply take_ge. apply (f_equal length) in inv_data0. rewrite length_drop in inv_data0. cbn in inv_data0. unfold len in *. lia.
Qed.

Lemma inv_new calls sync : concat calls = T -> length calls = ncalls -> sync <> Some false -> InvAt (new B threads true calls sync) 0.
Proof.
  intros Hc Hl Hs. pose proof L_pos as HL. assert (forall i o, (repeat None threads : list (option Z)) !! i = Some o -> o = None) as Hnone.
  { intros i o Ho. apply list_elem_of_lookup_2, list_elem_of_In, repeat_spec in Ho. done. }
  assert (forall i w, repeat WTop threads !! i = Some w -> w = WTop) as Htop.
  { intros i w Hw. apply list_elem_of_lookup_2, list_elem_of_In, repeat_spec in Hw. done. }
  split; cbn; try done; try (unfold len; lia); try (apply repeat_length); try (constructor; fail).
  - split; try lia.
    + intros i p Hi. by apply Hnone in Hi.
    + intros i j p Hi. by apply Hnone in Hi.
  - left. apply Z.mod_0_l. lia.
  - intros i w Hw. exists None. rewrite (Htop i w Hw). split; [|done].
    apply lookup_lt_Some in Hw. rewrite repeat_length in Hw.
    destruct (lookup_lt_is_Some_2 (repeat None threads : list (option Z)) i) as [o Ho]; [by rewrite repeat_length|].
    by rewrite Ho, (Hnone i o Ho).
  - exists [], [], []. splits; try done; [constructor|]. intros i rest Hi. by apply Htop in Hi.
  - split; [rewrite repeat_length; fold n L; lia|lia].
Qed.

End Threads.
End CThreads.
