(* ===== verification/CompressedTheorems.v ===== *)
(** Compressed streams: every schedule of the threads ends with the whole file, no two
    threads use the same part of the ring buffer, and what was written is read back. *)

From S2P Require Import Prelude Float64 CompressedWriter CompressedReader CompressedFormat CompressedStream CompressedThreads.

Module CTheorems.
Import CWriter CReader CFormat CStream CThreads.

Section Runs.
Context `{Brotli}.

(** Some thread makes a step. *)
Definition steps (B : Z) (s s' : Writer) : Prop := exists t k, step B t k s = Some (Ok s').

Lemma run_steps B sched : forall s s', run B sched s = Some (Ok s') -> rtc (steps B) s s'.
Proof.
  induction sched as [|[t k] sched IH]; intros s s' E; cbn [run] in E; [by injection E as ->|].
  destruct (step B t k s) as [[s1| | |]|] eqn:Es; try done. eapply rtc_l; [by exists t, k|by apply IH].
Qed.

(** The sizes a writer is used with. *)
Definition sizes_ok (B : Z) (threads : nat) (calls : list (list Z)) : Prop :=
  0 < B < 2 ^ 32 /\ output_len B < 2 ^ 32 /\ (0 < threads)%nat /\
  Z.of_nat (length (concat calls)) + B * (Z.of_nat threads + 2) < USIZE.

Section Fixed.
Context (B : Z) `{!BrotliSpec B} (threads : nat) (calls : list (list Z)) (sync : option bool).
Context (Hsizes : sizes_ok B threads calls) (Hsync : sync <> Some false).

Let s0 : Writer := new B threads true calls sync.
Let Inv_ : Writer -> Z -> Prop := InvAt B threads (length calls) (concat calls).

Lemma inv_step s c s' : Inv_ s c -> steps B s s' ->
  exists c', Inv_ s' c' /\ (measure B threads (concat calls) s' < measure B threads (concat calls) s)%nat.
Proof.
  destruct Hsizes as (HB & Hcap & Ht & HT). intros Hs ([|i] & k & E).
  - destruct (producer_step_ok B threads _ (concat calls) HB Ht HT s c _ Hs E) as (s2 & [= ->] & Hs' & Hl). exists c.
    split; [done|]. by eapply measure_lower.
  - destruct (worker_step_ok B threads _ (concat calls) HB Hcap Ht HT s c i k _ Hs E) as [[? _]|(s2 & c' & [= ->] & Hs' & Hl)]; [done|].
    exists c'. split; [done|]. by eapply measure_lower.
Qed.

Lemma inv_reachable s : rtc (steps B) s0 s -> exists c, Inv_ s c.
Proof.
  revert s. apply (rtc_ind_r (fun s => exists c, Inv_ s c) s0).
  - destruct Hsizes as (HB & Hcap & Ht & HT). exists 0. by apply inv_new.
  - intros s s' _ Hs [c Hc]. destruct (inv_step _ c _ Hc Hs) as (c' & Hc' & _). by exists c'.
Qed.

Lemma inv_sn s c : Inv_ s c -> sn (steps B) s.
Proof.
  remember (measure B threads (concat calls) s) as m eqn:Em. revert s c Em.
  induction m as [m IH] using lt_wf_ind. intros s c -> Hs. constructor. intros s' Hs'.
  destruct (inv_step s c s' Hs Hs') as (c' & Hc' & Hlt). by eapply (IH _ Hlt).
Qed.

Lemma step_result s c t k r : Inv_ s c -> step B t k s = Some r -> (r = Fatal /\ k = 0%nat) \/ exists s', r = Ok s'.
Proof.
  destruct Hsizes as (HB & Hcap & Ht & HT). intros Hs E. destruct t as [|i].
  - destruct (producer_step_ok B threads _ (concat calls) HB Ht HT s c _ Hs E) as (s2 & -> & _). right. by exists s2.
  - destruct (worker_step_ok B threads _ (concat calls) HB Hcap Ht HT s c i k _ Hs E) as [?|(s2 & c' & -> & _)]; [by left|]. right. by exists s2.
Qed.

(** A state without a next step is the end. *)
Lemma stuck_done s c : Inv_ s c -> nf (steps B) s -> producer s = PDone.
Proof.
  destruct Hsizes as (HB & Hcap & Ht & HT). intros Hs Hn.
  assert (producer s = PDone \/ producer s <> PDone) as [|Hd] by (destruct (producer s); (by left) || (by right)); [done|].
  exfalso. apply Hn. destruct (progress B threads _ (concat calls) HB Hcap Ht HT s c Hs Hd) as (t & s' & E). exists s', t, 1%nat. done.
Qed.

End Fixed.
(** C8: whatever the schedule of the producer and the compression threads, and however
    the kernel splits writes, writing a stream comes to an end: no schedule runs for
    ever, no thread panics, and where no thread can go on (there is no deadlock) the
    writer is closed without an error, every call of [write] has returned success, and
    a client that reads the file gets what it gets from the data that was written. *)
Theorem writer_completes B `{!BrotliSpec B} threads calls sync : sizes_ok B threads calls -> sync <> Some false ->
  let s0 := new B threads true calls sync in
  sn (steps B) s0 /\
  forall s, rtc (steps B) s0 s ->
    (forall t k r, step B t k s = Some r -> (r = Fatal /\ k = 0%nat) \/ exists s', r = Ok s') /\
    (nf (steps B) s ->
      producer s = PDone /\ error s = false /\ results s = repeat true (length calls) /\
      (Z.of_nat (length (file s)) < I64_BOUND -> forall ops outs,
        abstract_all (concat calls) ops (concat calls) [] = Some outs ->
        exists r, new_reader (Some (file s)) = Ok r /\ exec_all ops r [] = Ok outs)).
Proof.
  intros Hs Hy s0. split.
  { eapply inv_sn; [done|]. destruct Hs as (HB & Hcap & Ht & HT). by apply (inv_new B threads (length calls) (concat calls)). }
  intros s Hr. destruct (inv_reachable B threads calls sync Hs Hy s Hr) as [c Hc]. split.
  - intros t k r E. by eapply (step_result B threads calls).
  - intros Hn. pose proof (stuck_done B threads calls Hs s c Hc Hn) as Hd. destruct Hs as (HB & Hcap & Ht & HT).
    destruct (inv_done B threads (length calls) (concat calls) Ht s c Hc Hd) as (He & Hres & cs & Hb & Hcs). split; [done|].
    split; [done|]. split; [done|]. intros Hlen ops outs Ha. destruct (new_reader_at (file s) cs Hb) as (r & Er & Hat).
    exists r. split; [done|]. eapply (exec_all_refines (file s) cs); [done|done|exact Hat|constructor|]. by rewrite Hcs.
Qed.

(** C13: the producer and the compression threads share the ring buffer without a lock,
    and never use the same byte of it: where the producer may write next is disjoint
    from what any thread still has to compress, in every state of every schedule. *)
Theorem writer_race_free B `{!BrotliSpec B} threads calls sync s i st l off rem out p q :
  sizes_ok B threads calls -> sync <> Some false -> rtc (steps B) (new B threads true calls sync) s ->
  workers s !! i = Some (WCompress st l off rem out) ->
  producer_reserved_write_pos s <= p < producer_reserved_upto_pos s -> off <= q < off + rem ->
  p mod buffer_len s <> q mod buffer_len s.
Proof.
  intros Hs Hy Hr Hi Hp Hq. destruct (inv_reachable B threads calls sync Hs Hy s Hr) as [c Hc].
  destruct Hs as (HB & Hcap & Ht & HT). pose proof (inv_bounds _ _ _ _ Ht s c Hc) as [Hb He]. destruct Hc.
  destruct (inv_workers0 i _ Hi) as ([pos|] & Ho & Hok); [|done]. destruct (pos_active _ _ _ _ inv_pos0 i pos Ho) as [Hpos _].
  destruct Hok as (_ & Hle & Hrem & _). unfold bend in Hrem. destruct inv_buffer0 as [Hl _].
  unfold buffer_len. rewrite Hl. set (L := B * (Z.of_nat threads + 2)) in *. assert (0 < L) by (unfold L; nia).
  assert (0 < p - q < L) as Hd by lia. intros E. apply Z.cong_iff_0 in E. rewrite Z.mod_small in E by lia. lia.
Qed.

End Runs.
End CTheorems.
