(* ===== verification/CompressedExamples.v ===== *)
(** The theorems on compressed streams with an encoder that stores its input. *)

From S2P Require Import Prelude Float64 CompressedWriter CompressedReader CompressedFormat CompressedStream CompressedThreads CompressedTheorems.

Module CExamples.
Import CWriter CReader CFormat CStream CThreads CTheorems.

(** The encoder takes everything and gives it out at the end. *)
#[local] Instance stored : Brotli := {
  enc_state := list Z;
  enc_new := [];
  enc_process st inp room := Some (length inp, [], st ++ inp);
  enc_finish st room := Some st;
  decode c b := if Nat.leb (length c) (length b) then (Some (Z.of_nat (length c)), c ++ drop (length c) b) else (None, b)
}.

#[local] Instance stored_spec : BrotliSpec 4.
Proof.
  unshelve econstructor; [exact (fun st i o => st = i /\ o = [])| | |].
  - done.
  - intros st i o inp [-> ->] Hn Hl. exists (length inp), [], (i ++ inp). split; [done|]. rewrite firstn_all.
    split; [|done]. destruct inp; [done|simpl; lia].
  - intros st i o [-> ->] Hn Hl. exists i. split; [done|]. split; [done|]. split.
    + change (output_len 4) with 4. exact Hl.
    + intros b Hb. cbn. rewrite (proj2 (Nat.leb_le _ _)) by lia. by rewrite drop_ge, app_nil_r by lia.
Defined.

Definition data : list (list Z) := [[1; 2; 3]; [4; 5; 6; 7; 8; 9]].

Lemma data_sizes : sizes_ok 4 2 data.
Proof. unfold sizes_ok. change (output_len 4) with 4. cbn. lia. Qed.

Lemma writer_completes_witness :
  sizes_ok 4 2 data /\ sn (steps 4) (new 4 2 true data None).
Proof. split; [exact data_sizes|]. apply (writer_completes 4 2 data None); [exact data_sizes|done]. Defined.

(** The producer writes and makes the data ready, then a thread takes a block. *)
Definition schedule : list (Thread * nat) := repeat (Prod, 0%nat) 12 ++ [(Comp 0, 0%nat)].

Definition compressing : Writer :=
  match run 4 schedule (new 4 2 true data None) with Some (Ok s) => s | _ => new 4 2 true data None end.

Lemma compressing_reached : rtc (steps 4) (new 4 2 true data None) compressing.
Proof. apply (run_steps 4 schedule). vm_compute. reflexivity. Qed.

Lemma writer_race_free_witness :
  workers compressing !! 0%nat = Some (WCompress [] 4 0 4 []) /\ 9 mod buffer_len compressing <> 3 mod buffer_len compressing.
Proof.
  split; [vm_compute; reflexivity|].
  apply (writer_race_free 4 2 data None compressing 0 [] 4 0 4 [] 9 3); [exact data_sizes|done|exact compressing_reached|vm_compute; reflexivity|..].
  - vm_compute. split; [discriminate|reflexivity].
  - vm_compute. split; [discriminate|reflexivity].
Defined.

(** Two blocks. *)
Definition block (l : list Z) : list Z := header_bytes (mkHeader (Z.of_nat (length l)) (Z.of_nat (length l))) ++ l.

Lemma block_ok l : l <> [] -> Z.of_nat (length l) < 2 ^ 32 -> is_block l (block l).
Proof.
  intros Hn Hl. exists l. unfold block. repeat (split; [done|]). intros b Hb. cbn.
  rewrite (proj2 (Nat.leb_le _ _)) by lia. by rewrite drop_ge, app_nil_r by lia.
Qed.

Definition two : list Z := block [1; 2; 3; 4] ++ block [5; 6] ++ [].

Lemma two_blocks : Blocks [[1; 2; 3; 4]; [5; 6]] two.
Proof. repeat constructor; by apply block_ok. Qed.

Lemma reader_refines_witness : exists s, new_reader (Some two) = Ok s /\
  exec_all [OSize; ORead 3; OSave; ORead 9; OAtEnd; ORestore; OSkip 2; ORead 1; OSkip 1; ORewind; ORead 2] s [] =
  Ok [OutSize (inl 6); OutBytes (inl [1; 2; 3]); OutNone; OutBytes (inl [4; 5; 6]); OutEnd true; OutNone;
      OutSkip (inl tt); OutBytes (inl [6]); OutSkip (inr UnexpectedEof); OutNone; OutBytes (inl [1; 2])].
Proof. apply (reader_refines [[1; 2; 3; 4]; [5; 6]] two); [exact two_blocks|vm_compute; reflexivity|vm_compute; reflexivity]. Defined.

(** The reader after everything was read. *)
Definition at_the_end : Reader := mkReader (Z.of_nat (length two)) (Some (Some two)) true [5; 6] 2.

Lemma restore_after_rewind_witness : exists s', restore_state (get_state at_the_end) (rewind at_the_end) = s' /\
  read 1 s' = Ok (inr UnexpectedEof, s').
Proof.
  eexists. split; [reflexivity|]. apply (restore_after_rewind two at_the_end 1); [|vm_compute; reflexivity|lia].
  exists two, [], []. repeat split; try done. constructor.
Defined.

End CExamples.
