(* ===== verification/SeccompFilter.v ===== *)
(** Seccomp filters: the filters rd builds ([src/src/seccomp_bpf.rs]), the filter it
    installs in every tracee ([create_seccomp_filter] of
    [src/src/session/task/task_inner.rs]), how it rewrites the filters tracees install
    ([src/src/seccomp_filter_rewriter.rs]), and what the recorder makes of a seccomp
    stop ([handle_ptrace_event] of [src/src/session/record_session.rs]). *)

From S2P Require Import Prelude.

Module Seccomp.

(** ** Constants of the kernel *)

Definition BPF_LD : Z := 0.
Definition BPF_JMP : Z := 5.
Definition BPF_RET : Z := 6.
Definition BPF_W : Z := 0.
Definition BPF_ABS : Z := 0x20.
Definition BPF_JEQ : Z := 0x10.
Definition BPF_K : Z := 0.

Definition SECCOMP_RET_KILL : Z := 0.
Definition SECCOMP_RET_TRAP : Z := 0x30000.
Definition SECCOMP_RET_ERRNO : Z := 0x50000.
Definition SECCOMP_RET_TRACE : Z := 0x7ff00000.
Definition SECCOMP_RET_ALLOW : Z := 0x7fff0000.
Definition SECCOMP_RET_ACTION : Z := 0x7fff0000.
Definition SECCOMP_RET_DATA : Z := 0xffff.
Definition SECCOMP_FILTER_FLAG_TSYNC : Z := 1.

(** [struct sock_filter]. *)
Record sock_filter := mkInsn { code : Z; jt : Z; jf : Z; k : Z }.

(** The offset of [instruction_pointer] in [struct seccomp_data]. *)
Definition INST_PTR_OFFSET : Z := 8.

(** ** The filters rd builds *)

Definition bpf_stmt (c k : Z) : sock_filter := mkInsn c 0 0 k.
Definition bpf_jump (c k jt jf : Z) : sock_filter := mkInsn c jt jf k.

Definition allow (filters : list sock_filter) : list sock_filter :=
  filters ++ [bpf_stmt (BPF_RET + BPF_K) SECCOMP_RET_ALLOW].

Definition trace (filters : list sock_filter) : list sock_filter :=
  filters ++ [bpf_stmt (BPF_RET + BPF_K) (Z.lor SECCOMP_RET_TRACE SECCOMP_RET_DATA)].

Definition allow_syscalls_from_callsite (ip : Z) (filters : list sock_filter) : res (list sock_filter) :=
  _ ← assert_ (ip <? 2 ^ 32);
  Ok (allow (filters ++ [bpf_stmt (BPF_LD + BPF_W + BPF_ABS) INST_PTR_OFFSET; bpf_jump (BPF_JMP + BPF_JEQ + BPF_K) ip 0 1])).

(** ** The system calls of the rd page *)

Inductive Traced := IsTraced | Untraced.
Inductive Privileged := IsPrivileged | Unprivileged.
Inductive Enabled := RecordingOnly | ReplayOnly | RecordingAndReplay.

#[global] Instance Traced_eq_dec : EqDecision Traced.
Proof. solve_decision. Defined.
#[global] Instance Privileged_eq_dec : EqDecision Privileged.
Proof. solve_decision. Defined.
#[global] Instance Enabled_eq_dec : EqDecision Enabled.
Proof. solve_decision. Defined.

Record SyscallType := mkType { traced : Traced; privileged : Privileged; enabled : Enabled }.

#[global] Instance SyscallType_eq_dec : EqDecision SyscallType.
Proof. solve_decision. Defined.

Definition ENTRY_POINTS : list SyscallType :=
  [mkType IsTraced Unprivileged RecordingAndReplay; mkType IsTraced IsPrivileged RecordingAndReplay;
   mkType Untraced Unprivileged RecordingAndReplay; mkType Untraced Unprivileged ReplayOnly;
   mkType Untraced Unprivileged RecordingOnly; mkType Untraced IsPrivileged RecordingAndReplay;
   mkType Untraced IsPrivileged ReplayOnly; mkType Untraced IsPrivileged RecordingOnly].

Definition RD_PAGE_ADDR : Z := 0x70000000.
Definition RD_PAGE_SYSCALL_STUB_SIZE : Z := 3.
Definition RD_PAGE_SYSCALL_INSTRUCTION_END : Z := 2.

Definition exit_ip_from_index (i : nat) : Z :=
  RD_PAGE_ADDR + RD_PAGE_SYSCALL_STUB_SIZE * Z.of_nat i + RD_PAGE_SYSCALL_INSTRUCTION_END.
Definition entry_ip_from_index (i : nat) : Z := RD_PAGE_ADDR + RD_PAGE_SYSCALL_STUB_SIZE * Z.of_nat i.

(** The index of the first entry that is [e]. *)
Fixpoint entry_index (e : SyscallType) (i : nat) (l : list SyscallType) : res nat :=
  match l with
  | [] => Panic
  | x :: l => if decide (x = e) then Ok i else entry_index e (S i) l
  end.

Definition rd_page_syscall_exit_point (e : SyscallType) : res Z :=
  i ← entry_index e 0 ENTRY_POINTS; Ok (exit_ip_from_index i).
Definition rd_page_syscall_entry_point (e : SyscallType) : res Z :=
  i ← entry_index e 0 ENTRY_POINTS; Ok (entry_ip_from_index i).

(** The entry whose address by [ip_of] is [ip]. *)
Fixpoint find_entry (ip_of : nat -> Z) (ip : Z) (i : nat) (l : list SyscallType) : option SyscallType :=
  match l with
  | [] => None
  | x :: l => if ip_of i =? ip then Some x else find_entry ip_of ip (S i) l
  end.

Definition rd_page_syscall_from_exit_point (ip : Z) : option SyscallType := find_entry exit_ip_from_index ip 0 ENTRY_POINTS.
Definition rd_page_syscall_from_entry_point (ip : Z) : option SyscallType := find_entry entry_ip_from_index ip 0 ENTRY_POINTS.

(** Allow the system calls of the rd page that [p] selects. *)
Fixpoint allow_entries (p : SyscallType -> bool) (l : list SyscallType) (f : list sock_filter) : res (list sock_filter) :=
  match l with
  | [] => Ok f
  | e :: l =>
      f ← (if p e then ip ← rd_page_syscall_exit_point e; allow_syscalls_from_callsite ip f else Ok f);
      allow_entries p l f
  end.

Definition create_seccomp_filter : res (list sock_filter) :=
  f ← allow_entries (fun e => bool_decide (traced e = Untraced)) ENTRY_POINTS [];
  Ok (trace f).

(** ** Rewriting *)

Definition BASE_CUSTOM_DATA : Z := 0x100.

Record SeccompFilterRewriter := mkRewriter { result_to_index : gmap Z Z; index_to_result : list Z }.

Definition BPF_CLASS (c : Z) : Z := Z.land c 0x07.
Definition BPF_RVAL (c : Z) : Z := Z.land c 0x18.

(** The index of a result, which gets one if it has none. *)
Definition index_of (v : Z) (w : SeccompFilterRewriter) : res (Z * SeccompFilterRewriter) :=
  match result_to_index w !! v with
  | Some i => Ok (i, w)
  | None =>
      let n := Z.of_nat (length (index_to_result w)) in
      if BASE_CUSTOM_DATA + n <? SECCOMP_RET_DATA
      then Ok (n, mkRewriter (<[v:=n]> (result_to_index w)) (index_to_result w ++ [v]))
      else Fatal
  end.

Definition patch_insn (u : sock_filter) (w : SeccompFilterRewriter) : res (sock_filter * SeccompFilterRewriter) :=
  if BPF_CLASS (code u) =? BPF_RET then
    if BPF_RVAL (code u) =? BPF_K then
      if k u =? SECCOMP_RET_ALLOW then Ok (u, w)
      else
        r ← index_of (k u) w;
        Ok (mkInsn (code u) (jt u) (jf u) (Z.lor (BASE_CUSTOM_DATA + r.1) SECCOMP_RET_TRACE), r.2)
    else Fatal
  else Ok (u, w).

Fixpoint patch (prog : list sock_filter) (w : SeccompFilterRewriter) : res (list sock_filter * SeccompFilterRewriter) :=
  match prog with
  | [] => Ok ([], w)
  | u :: prog => a ← patch_insn u w; b ← patch prog a.2; Ok (a.1 :: b.1, b.2)
  end.

(** The program that is installed for [prog]. *)
Definition patched_filter (prog : list sock_filter) (w : SeccompFilterRewriter) : res (list sock_filter * SeccompFilterRewriter) :=
  r ← patch prog w;
  f ← allow_entries (fun e => bool_decide (privileged e = IsPrivileged)) ENTRY_POINTS [];
  Ok (f ++ r.1, r.2).

Definition map_filter_data_to_real_result (value : Z) (w : SeccompFilterRewriter) : res (option Z) :=
  if value <? BASE_CUSTOM_DATA then Ok None
  else if BASE_CUSTOM_DATA + Z.of_nat (length (index_to_result w)) <=? value then Fatal
  else r ← unwrap (index_to_result w !! Z.to_nat (value - BASE_CUSTOM_DATA)); Ok (Some r).

(** ** Installing a filter *)

(** What installing changes of a thread: the result register and
    [prctl_seccomp_status]. *)
Record Thread := mkThread { syscall_result : Z; prctl_seccomp_status : Z }.

Definition syscall_failed (t : Thread) : bool := (-4096 <? syscall_result t) && (syscall_result t <? 0).

Definition set_syscall_result (ret : Z) (t : Thread) : Thread := mkThread ret (prctl_seccomp_status t).
Definition set_status (v : Z) (t : Thread) : Thread := mkThread (syscall_result t) v.

Section Install.
(** The system call run in the tracee, with a program or with the one of the tracee,
    and whether a number is that of [seccomp]. *)
Context (syscall : Z -> option (list sock_filter) -> Z) (is_seccomp_syscall : Z -> bool).

Definition pass_through_seccomp_filter (no : Z) (self : nat) (ts : list Thread) : res (list Thread) :=
  t ← unwrap (ts !! self);
  let t := set_syscall_result (syscall no None) t in
  if syscall_failed t then Ok (<[self:=t]> ts) else Fatal.

(** [read] is the program of the tracee, if it can be read; [ts] are the threads of the
    group, [self] the one that makes the call. *)
Definition install_patched_seccomp_filter (read : option (list sock_filter)) (no arg2 : Z) (self : nat)
    (ts : list Thread) (w : SeccompFilterRewriter) : res (list Thread * SeccompFilterRewriter) :=
  match read with
  | None => ts ← pass_through_seccomp_filter no self ts; Ok (ts, w)
  | Some prog =>
      p ← patched_filter prog w;
      _ ← assert_ (Z.of_nat (length p.1) <? 2 ^ 16);
      t ← unwrap (ts !! self);
      let t := set_syscall_result (syscall no (Some p.1)) t in
      if syscall_failed t then Ok (<[self:=t]> ts, p.2)
      else
        let ts := if is_seccomp_syscall no && negb (Z.land arg2 SECCOMP_FILTER_FLAG_TSYNC =? 0)
                  then map (set_status 2) ts else ts in
        Ok (<[self:=set_status 2 t]> ts, p.2)
  end.

End Install.

(** ** A seccomp stop *)

Inductive SeccompEvent :=
| TracedSyscall
| Terminated
| Trap (data : Z)
| Errno (data : Z)
| Kill.

(** What the recorder does for the data of a stop. *)
Definition seccomp_event (data : Z) (w : SeccompFilterRewriter) : res SeccompEvent :=
  if data =? SECCOMP_RET_DATA then Ok TracedSyscall
  else
    r ← map_filter_data_to_real_result data w;
    match r with
    | None => Ok Terminated
    | Some real_result =>
        let real_result_data := Z.land real_result SECCOMP_RET_DATA in
        let action := Z.land real_result SECCOMP_RET_ACTION in
        if action =? SECCOMP_RET_TRAP then Ok (Trap real_result_data)
        else if action =? SECCOMP_RET_ERRNO then Ok (Errno real_result_data)
        else if action =? SECCOMP_RET_KILL then Ok Kill
        else Fatal
    end.

End Seccomp.
