(* ===== verification/SeccompProofs.v ===== *)
(** Rewritten seccomp filters decide as the originals do. *)

From S2P Require Import Prelude SeccompFilter.

Module SeccompProofs.
Import Seccomp.

(** ** The filter machine

    Classic BPF as the kernel documents it for seccomp: an accumulator, an index
    register, sixteen words of memory, and jumps that only go forward. *)

Record seccomp_data := mkData { nr : Z; arch : Z; instruction_pointer : Z; args : list Z }.

Definition low (v : Z) : Z := v mod 2 ^ 32.
Definition high (v : Z) : Z := v / 2 ^ 32 mod 2 ^ 32.

(** The word at an offset. *)
Definition load (d : seccomp_data) (off : Z) : option Z :=
  if negb (off mod 4 =? 0) || (off <? 0) || (64 <=? off) then None
  else if off =? 0 then Some (low (nr d))
  else if off =? 4 then Some (low (arch d))
  else if off =? 8 then Some (low (instruction_pointer d))
  else if off =? 12 then Some (high (instruction_pointer d))
  else
    a ← args d !! Z.to_nat ((off - 16) / 8);
    Some (if off mod 8 =? 0 then low a else high a).

Record Machine := mkMachine { acc : Z; idx : Z; scratch : gmap Z Z }.

Definition initial : Machine := mkMachine 0 0 ∅.

Inductive Next := Go (m : Machine) | Jump (n : Z) (m : Machine) | Return (v : Z) | Invalid.

Definition alu (op a b : Z) : option Z :=
  if op =? 0x00 then Some (low (a + b))
  else if op =? 0x10 then Some (low (a - b))
  else if op =? 0x20 then Some (low (a * b))
  else if op =? 0x30 then if b =? 0 then None else Some (a / b)
  else if op =? 0x40 then Some (Z.lor a b)
  else if op =? 0x50 then Some (Z.land a b)
  else if op =? 0x60 then Some (low (Z.shiftl a (b mod 32)))
  else if op =? 0x70 then Some (Z.shiftr a (b mod 32))
  else if op =? 0x80 then Some (low (- a))
  else if op =? 0xa0 then Some (Z.lxor a b)
  else None.

Definition test (op a b : Z) : option bool :=
  if op =? 0x10 then Some (a =? b)
  else if op =? 0x20 then Some (b <? a)
  else if op =? 0x30 then Some (b <=? a)
  else if op =? 0x40 then Some (negb (Z.land a b =? 0))
  else None.

Definition or_invalid {A} (o : option A) (f : A -> Next) : Next := match o with Some a => f a | None => Invalid end.

(** The value an [LD] or [LDX] loads. *)
Definition loaded (u : sock_filter) (d : seccomp_data) (m : Machine) : option Z :=
  let mode := Z.land (code u) 0xe0 in
  if mode =? 0x00 then Some (k u)
  else if mode =? 0x20 then if Z.land (code u) 7 =? 0 then load d (k u) else None
  else if mode =? 0x60 then Some (default 0 (scratch m !! k u))
  else if mode =? 0x80 then Some 64
  else None.

Definition insn (u : sock_filter) (d : seccomp_data) (m : Machine) : Next :=
  let c := BPF_CLASS (code u) in
  let operand := if Z.land (code u) 0x08 =? 0 then k u else idx m in
  if c =? 0 then or_invalid (loaded u d m) (fun v => Go (mkMachine v (idx m) (scratch m)))
  else if c =? 1 then or_invalid (loaded u d m) (fun v => Go (mkMachine (acc m) v (scratch m)))
  else if c =? 2 then Go (mkMachine (acc m) (idx m) (<[k u:=acc m]> (scratch m)))
  else if c =? 3 then Go (mkMachine (acc m) (idx m) (<[k u:=idx m]> (scratch m)))
  else if c =? 4 then or_invalid (alu (Z.land (code u) 0xf0) (acc m) operand) (fun v => Go (mkMachine v (idx m) (scratch m)))
  else if c =? 5 then
    if Z.land (code u) 0xf0 =? 0 then Jump (k u) m
    else or_invalid (test (Z.land (code u) 0xf0) (acc m) operand) (fun b => Jump (if b : bool then jt u else jf u) m)
  else if c =? 6 then
    if BPF_RVAL (code u) =? 0 then Return (k u) else if BPF_RVAL (code u) =? 0x10 then Return (acc m) else Invalid
  else Go (if Z.land (code u) 0xf8 =? 0 then mkMachine (acc m) (acc m) (scratch m) else mkMachine (idx m) (idx m) (scratch m)).

(** Run what is left of a program. *)
Fixpoint exec (fuel : nat) (prog : list sock_filter) (d : seccomp_data) (m : Machine) : option Z :=
  match fuel, prog with
  | S fuel, u :: rest =>
      match insn u d m with
      | Go m => exec fuel rest d m
      | Jump n m => exec fuel (drop (Z.to_nat n) rest) d m
      | Return v => Some v
      | Invalid => None
      end
  | _, _ => None
  end.

Definition run_filter (prog : list sock_filter) (d : seccomp_data) : option Z := exec (length prog) prog d initial.

(** The kernel runs the filters of a thread, the last installed first, and keeps the
    result with the first of the most restrictive actions. *)
Definition signed_action (v : Z) : Z := let a := Z.land v 0xffff0000 in if a <? 2 ^ 31 then a else a - 2 ^ 32.

Fixpoint run_filters (progs : list (list sock_filter)) (d : seccomp_data) (ret : Z) : option Z :=
  match progs with
  | [] => Some ret
  | p :: progs =>
      v ← run_filter p d;
      run_filters progs d (if signed_action v <? signed_action ret then v else ret)
  end.

(** ** Programs and fuel *)

(** A program needs no more fuel than it has instructions: jumps go forward. *)
Lemma exec_more d n : forall n' prog m, (length prog <= n)%nat -> (length prog <= n')%nat -> exec n prog d m = exec n' prog d m.
Proof.
  induction n as [|n IH]; intros [|n'] [|u prog] m H H'; cbn in *; try done; try lia.
  destruct (insn u d m) as [m'|j m'|v|]; try done; apply IH; rewrite ?length_drop; lia.
Qed.

Definition callsite (ip : Z) : list sock_filter :=
  [bpf_stmt (BPF_LD + BPF_W + BPF_ABS) INST_PTR_OFFSET; bpf_jump (BPF_JMP + BPF_JEQ + BPF_K) ip 0 1;
   bpf_stmt (BPF_RET + BPF_K) SECCOMP_RET_ALLOW].

Definition from_callsite (ips : list Z) (d : seccomp_data) : bool := existsb (Z.eqb (low (instruction_pointer d))) ips.

Lemma exec_callsite ip prog d m n :
  exec (3 + n) (callsite ip ++ prog) d m =
  if low (instruction_pointer d) =? ip then Some SECCOMP_RET_ALLOW
  else exec (1 + n) prog d (mkMachine (low (instruction_pointer d)) (idx m) (scratch m)).
Proof.
  set (m' := mkMachine (low (instruction_pointer d)) (idx m) (scratch m)).
  assert (H1 : insn (bpf_stmt (BPF_LD + BPF_W + BPF_ABS) INST_PTR_OFFSET) d m = Go m') by reflexivity.
  assert (H2 : insn (bpf_jump (BPF_JMP + BPF_JEQ + BPF_K) ip 0 1) d m' =
    Jump (if low (instruction_pointer d) =? ip then 0 else 1) m') by reflexivity.
  cbn [callsite app Nat.add exec]. rewrite H1, H2. by destruct (_ =? ip).
Qed.

(** After the callsites only the accumulator has changed. *)
Lemma exec_callsites ips prog d : forall m n, (length prog <= n)%nat ->
  exec (3 * length ips + n) (flat_map callsite ips ++ prog) d m =
  if from_callsite ips d then Some SECCOMP_RET_ALLOW
  else exec n prog d (mkMachine (if ips is [] then acc m else low (instruction_pointer d)) (idx m) (scratch m)).
Proof.
  unfold from_callsite. induction ips as [|ip ips IH]; intros m n Hn; [by destruct m|].
  cbn [flat_map length existsb]. rewrite <- app_assoc.
  replace (3 * S (length ips) + n)%nat with (3 + (3 * length ips + n))%nat by lia.
  rewrite exec_callsite. destruct (_ =? ip); [done|]. cbn [orb].
  rewrite <- (exec_more _ (3 * length ips + n)).
  - rewrite IH by done. by destruct ips.
  - rewrite length_app, (flat_map_constant_length (c := 3)) by done. lia.
  - rewrite length_app, (flat_map_constant_length (c := 3)) by done. lia.
Qed.

(** The first instruction loads the accumulator. *)
Definition loads_first (prog : list sock_filter) : bool :=
  match prog with u :: _ => BPF_CLASS (code u) =? BPF_LD | [] => false end.

Lemma exec_loads_first n prog d a m : loads_first prog = true ->
  exec n prog d (mkMachine a (idx m) (scratch m)) = exec n prog d m.
Proof.
  destruct prog as [|u prog]; [done|]. cbn [loads_first]. intros H. destruct n as [|n]; [done|].
  cbn [exec]. unfold insn. change BPF_LD with 0 in H. rewrite H. done.
Qed.

(** The result of a program that starts with [a] in the accumulator; the kernel starts with
    zero, and the checks of the callsite leave the instruction pointer there. *)
Definition run_from (a : Z) (prog : list sock_filter) (d : seccomp_data) : option Z :=
  exec (length prog) prog d (mkMachine a (idx initial) (scratch initial)).

Lemma run_from_loads_first a prog d : loads_first prog = true -> run_from a prog d = run_filter prog d.
Proof. apply exec_loads_first. Qed.

Lemma run_callsites ips prog d : ips <> [] ->
  run_filter (flat_map callsite ips ++ prog) d =
  if from_callsite ips d then Some SECCOMP_RET_ALLOW else run_from (low (instruction_pointer d)) prog d.
Proof.
  intros H. unfold run_filter, run_from. rewrite length_app, (flat_map_constant_length (c := 3)) by done.
  rewrite (Nat.mul_comm _ 3), exec_callsites by lia. by destruct ips.
Qed.

(** ** The table of results *)

Definition tab_ok (w : SeccompFilterRewriter) : Prop :=
  (forall v i, result_to_index w !! v = Some i -> 0 <= i /\ index_to_result w !! Z.to_nat i = Some v) /\
  BASE_CUSTOM_DATA + Z.of_nat (length (index_to_result w)) <= SECCOMP_RET_DATA.

Definition extends (w w' : SeccompFilterRewriter) : Prop := prefix (index_to_result w) (index_to_result w').

#[global] Instance extends_preorder : PreOrder extends.
Proof. unfold extends. split; [by intros w|intros a b c ? ?; by etrans]. Qed.

(** What a rewritten filter returns where the filter returns [v]. *)
Definition answers (w : SeccompFilterRewriter) (v v' : Z) : Prop :=
  v = SECCOMP_RET_ALLOW /\ v' = SECCOMP_RET_ALLOW \/
  v <> SECCOMP_RET_ALLOW /\ exists i, v' = Z.lor (BASE_CUSTOM_DATA + i) SECCOMP_RET_TRACE /\ 0 <= i /\
    BASE_CUSTOM_DATA + i < SECCOMP_RET_DATA /\ index_to_result w !! Z.to_nat i = Some v.

Lemma answers_extends w w' v v' : extends w w' -> answers w v v' -> answers w' v v'.
Proof.
  intros E [?|(? & i & ? & ? & ? & ?)]; [by left|]. right. split; [done|].
  exists i. splits; try done. by eapply prefix_lookup_Some.
Qed.

Lemma tab_index_bound w i v : tab_ok w -> 0 <= i -> index_to_result w !! Z.to_nat i = Some v ->
  BASE_CUSTOM_DATA + i < SECCOMP_RET_DATA.
Proof. intros [_ Hb] H0 H%lookup_lt_Some. lia. Qed.

Lemma index_of_spec v w i w' : index_of v w = Ok (i, w') -> tab_ok w ->
  tab_ok w' /\ extends w w' /\ 0 <= i /\ index_to_result w' !! Z.to_nat i = Some v.
Proof.
  unfold index_of. intros H [Ht Hb]. destruct (result_to_index w !! v) as [j|] eqn:E.
  - simplify_eq. destruct (Ht _ _ E). splits; try done.
  - case_match eqn:Hlt; [|done]. simplify_eq. apply Z.ltb_lt in Hlt.
    assert (Hnew : (index_to_result w ++ [v]) !! Z.to_nat (Z.of_nat (length (index_to_result w))) = Some v)
      by (rewrite Nat2Z.id; by apply list_lookup_middle).
    splits; cbn; try done; try lia.
    + split; cbn; [|rewrite length_app; cbn; lia].
      intros u i. rewrite lookup_insert_Some. intros [[<- <-]|[_ Hu]]; [split; [lia|done]|].
      destruct (Ht _ _ Hu). split; [done|]. by apply lookup_app_l_Some.
    + by exists [v].
Qed.

(** ** Rewriting *)

Definition rewritten (w : SeccompFilterRewriter) (u u' : sock_filter) : Prop :=
  BPF_CLASS (code u) <> BPF_RET /\ u' = u \/
  BPF_CLASS (code u) = BPF_RET /\ BPF_RVAL (code u) = BPF_K /\
  exists k', u' = mkInsn (code u) (jt u) (jf u) k' /\ answers w (k u) k'.

Lemma rewritten_extends w w' u u' : extends w w' -> rewritten w u u' -> rewritten w' u u'.
Proof.
  intros E [?|(? & ? & k' & ? & ?)]; [by left|right]. splits; try done. exists k'. split; [done|].
  by eapply answers_extends.
Qed.

Lemma patch_insn_spec u w u' w' : patch_insn u w = Ok (u', w') -> tab_ok w ->
  tab_ok w' /\ extends w w' /\ rewritten w' u u'.
Proof.
  unfold patch_insn. intros H Hw. case_match eqn:Hc.
  2:{ simplify_eq. splits; try done. left. split; [by apply Z.eqb_neq|done]. }
  apply Z.eqb_eq in Hc. case_match eqn:Hr; [|done]. apply Z.eqb_eq in Hr. case_match eqn:Hk.
  - simplify_eq. apply Z.eqb_eq in Hk. splits; try done. right. splits; try done.
    exists (k u'). split; [by destruct u'|by left].
  - apply Z.eqb_neq in Hk. apply bind_Ok in H as ([i w2] & Hi & H). cbn in H. simplify_eq.
    destruct (index_of_spec _ _ _ _ Hi Hw) as (H1 & H2 & H3 & H4). splits; try done.
    right. splits; try done. eexists. split; [done|]. right. split; [done|].
    exists i. splits; try done. by eapply tab_index_bound.
Qed.

Lemma patch_spec prog : forall w prog' w', patch prog w = Ok (prog', w') -> tab_ok w ->
  tab_ok w' /\ extends w w' /\ Forall2 (rewritten w') prog prog'.
Proof.
  induction prog as [|u prog IH]; intros w prog' w' H Hw; cbn in H; [simplify_eq; splits; try done; constructor|].
  apply bind_Ok in H as ([u' w1] & H1 & H). apply bind_Ok in H as ([p' w2] & H2 & H). cbn in *. simplify_eq.
  destruct (patch_insn_spec _ _ _ _ H1 Hw) as (T1 & E1 & R1).
  destruct (IH _ _ _ H2 T1) as (T2 & E2 & R2). splits; try done; [by transitivity w1|].
  constructor; [by eapply rewritten_extends|done].
Qed.

(** Only a return ends a program. *)
Lemma insn_return u d m v : insn u d m = Return v -> BPF_CLASS (code u) = BPF_RET.
Proof.
  unfold insn, or_invalid. change BPF_RET with 6. intros H.
  repeat (case_match; try done). all: by apply Z.eqb_eq.
Qed.

Lemma insn_ret u d m : BPF_CLASS (code u) = BPF_RET -> BPF_RVAL (code u) = BPF_K -> insn u d m = Return (k u).
Proof. unfold insn. by intros -> ->. Qed.

Lemma exec_rewritten w d n : forall prog prog' m v, Forall2 (rewritten w) prog prog' ->
  exec n prog d m = Some v -> exists v', exec n prog' d m = Some v' /\ answers w v v'.
Proof.
  induction n as [|n IH]; intros prog prog' m v HF H; [done|].
  destruct HF as [|u u' prog prog' Hu HF]; [done|]. cbn [exec] in *.
  destruct Hu as [[Hc ->]|(Hc & Hr & k' & -> & Ha)].
  - destruct (insn u d m) as [m'|j m'|r|] eqn:E; [by eapply IH| |by apply insn_return in E|done].
    eapply IH; [|done]. by apply Forall2_drop.
  - rewrite (insn_ret _ _ _ Hc Hr) in H. simplify_eq. exists k'. rewrite insn_ret by done. done.
Qed.

End SeccompProofs.
