(* ===== verification/SeccompTheorems.v ===== *)
(** What a tracee observes of seccomp filters under the recorder. *)

From S2P Require Import Prelude SeccompFilter SeccompProofs.

Module SeccompTheorems.
Import Seccomp SeccompProofs.

(** ** The filters of a thread *)

(** The filters a tracee installs, the first one first. *)
Fixpoint install_all (progs : list (list sock_filter)) (w : SeccompFilterRewriter) : res (list (list sock_filter) * SeccompFilterRewriter) :=
  match progs with
  | [] => Ok ([], w)
  | prog :: progs => a ← patched_filter prog w; b ← install_all progs a.2; Ok (a.1 :: b.1, b.2)
  end.

Definition no_results : SeccompFilterRewriter := mkRewriter ∅ [].

(** What happens to a system call. *)
Inductive Outcome :=
| Allowed
| Stopped (e : res SeccompEvent)
| Handled (v : Z).

(** The kernel allows it, stops for the tracer, or handles it on its own. *)
Definition outcome (progs : list (list sock_filter)) (d : seccomp_data) (w : SeccompFilterRewriter) : option Outcome :=
  ret ← run_filters progs d SECCOMP_RET_ALLOW;
  Some (if Z.land ret 0xffff0000 =? SECCOMP_RET_ALLOW then Allowed
        else if Z.land ret 0xffff0000 =? SECCOMP_RET_TRACE then Stopped (seccomp_event (Z.land ret SECCOMP_RET_DATA) w)
        else Handled ret).

(** The results the recorder can act for. *)
Definition intended (v : Z) : res SeccompEvent :=
  let data := Z.land v SECCOMP_RET_DATA in
  match list_find (fun p => Z.land v SECCOMP_RET_ACTION = p.1)
      [(SECCOMP_RET_KILL, Kill); (SECCOMP_RET_TRAP, Trap data); (SECCOMP_RET_ERRNO, Errno data)] with
  | Some (_, (_, e)) => Ok e
  | None => Fatal
  end.

(** The exit points in the rd page of the entries [p] selects. *)
Definition exit_points (p : SyscallType -> bool) : list Z :=
  map (fun i => exit_ip_from_index i) (filter (fun i => existsb p (option_list (ENTRY_POINTS !! i))) (seq 0 (length ENTRY_POINTS))).

Definition privileged_ips : list Z := exit_points (fun e => bool_decide (privileged e = IsPrivileged)).
Definition untraced_ips : list Z := exit_points (fun e => bool_decide (traced e = Untraced)).

#[local] Instance Ok_inj {A} : Inj (=) (=) (@Ok A).
Proof. by intros x y [= ->]. Qed.

Lemma own_filter :
  create_seccomp_filter =
  Ok (flat_map callsite untraced_ips ++ [bpf_stmt (BPF_RET + BPF_K) (Z.lor SECCOMP_RET_TRACE SECCOMP_RET_DATA)]).
Proof. reflexivity. Qed.

Lemma privileged_prefix :
  allow_entries (fun e => bool_decide (privileged e = IsPrivileged)) ENTRY_POINTS [] = Ok (flat_map callsite privileged_ips).
Proof. reflexivity. Qed.

Lemma own_filter_runs own d : create_seccomp_filter = Ok own ->
  run_filter own d = Some (if from_callsite untraced_ips d then SECCOMP_RET_ALLOW else Z.lor SECCOMP_RET_TRACE SECCOMP_RET_DATA).
Proof.
  rewrite own_filter. intros H. apply (inj Ok) in H as <-. unfold run_filter.
  rewrite length_app, (flat_map_constant_length (c := 3)) by done.
  rewrite (Nat.mul_comm _ 3), exec_callsites by done. by destruct (from_callsite _ _).
Qed.

(** ** One filter *)

Lemma patched_filter_spec prog w p w' : patched_filter prog w = Ok (p, w') -> tab_ok w ->
  tab_ok w' /\ extends w w' /\ exists q, p = flat_map callsite privileged_ips ++ q /\ Forall2 (rewritten w') prog q.
Proof.
  unfold patched_filter. rewrite privileged_prefix. intros H Hw.
  apply bind_Ok in H as ([q w2] & Hq & H). cbn in H. simplify_eq.
  destruct (patch_spec _ _ _ _ Hq Hw) as (? & ? & ?). splits; try done. by exists q.
Qed.

(** A rewritten filter allows rd's own system calls, and answers for the original
    everywhere else. *)
Definition decides (w : SeccompFilterRewriter) (d : seccomp_data) (p : list sock_filter) (v : Z) : Prop :=
  exists v', run_filter p d = Some (if from_callsite privileged_ips d then SECCOMP_RET_ALLOW else v') /\ answers w v v'.

Lemma decides_extends w w' d p v : extends w w' -> decides w d p v -> decides w' d p v.
Proof. intros E (v' & ? & ?). exists v'. split; [done|by eapply answers_extends]. Qed.

Lemma patched_filter_decides prog w p w' d v : patched_filter prog w = Ok (p, w') -> tab_ok w ->
  run_from (low (instruction_pointer d)) prog d = Some v -> decides w' d p v.
Proof.
  intros Hp Hw Hv. destruct (patched_filter_spec _ _ _ _ Hp Hw) as (_ & _ & q & -> & HF).
  destruct (exec_rewritten _ _ _ _ _ _ _ HF Hv) as (v' & Hv' & Ha). exists v'. split; [|done].
  rewrite run_callsites by done. unfold run_from.
  rewrite <- (Forall2_length _ _ _ HF), Hv'. by destruct (from_callsite _ _).
Qed.

Lemma no_results_ok : tab_ok no_results.
Proof. split; [|done]. intros v i. cbn. by rewrite lookup_empty. Qed.

Lemma install_all_decides d progs : forall w ps w' vs, install_all progs w = Ok (ps, w') -> tab_ok w ->
  Forall2 (fun p v => run_from (low (instruction_pointer d)) p d = Some v) progs vs ->
  tab_ok w' /\ extends w w' /\ Forall2 (decides w' d) ps vs.
Proof.
  induction progs as [|prog progs IH]; intros w ps w' vs H Hw Hv; cbn in H.
  { simplify_eq. by inversion Hv; subst. }
  apply bind_Ok in H as ([p w1] & H1 & H). apply bind_Ok in H as ([ps' w2] & H2 & H). cbn in *. simplify_eq.
  inversion Hv; subst.
  destruct (patched_filter_spec _ _ _ _ H1 Hw) as (T1 & E1 & _).
  edestruct IH as (T2 & E2 & HF); [done..|]. splits; try done; [by transitivity w1|].
  constructor; [|done]. eapply decides_extends; [done|]. by eapply patched_filter_decides.
Qed.

(** ** Several filters *)

Definition pick (ret v : Z) : Z := if signed_action v <? signed_action ret then v else ret.

Lemma run_filters_picks d ps : forall rs ret, Forall2 (fun p r => run_filter p d = Some r) ps rs ->
  run_filters ps d ret = Some (foldl pick ret rs).
Proof.
  induction ps as [|p ps IH]; intros rs ret H; inversion H as [|? r ? rs' Hr Hrs]; subst; [done|].
  cbn [run_filters foldl]. rewrite Hr. cbn. by apply IH.
Qed.

(** The result of the last filter that does not allow. *)
Fixpoint newest (vs : list Z) : Z :=
  match vs with
  | [] => SECCOMP_RET_ALLOW
  | v :: vs => if v =? SECCOMP_RET_ALLOW then newest vs else v
  end.

Lemma high_bits_of_data x : 0 <= x < 2 ^ 16 -> Z.land x 0xffff0000 = 0.
Proof.
  intros H. apply Z.bits_inj'. intros n Hn. rewrite Z.land_spec, Z.bits_0.
  change 0xffff0000 with (Z.shiftl 0xffff 16). destruct (decide (n < 16)).
  - by rewrite Z.shiftl_spec_low, andb_false_r.
  - rewrite <- (Z.mod_small x (2 ^ 16)) by lia. by rewrite Z.mod_pow2_bits_high by lia.
Qed.

Lemma custom_action x : 0 <= x < 2 ^ 16 -> Z.land (Z.lor x SECCOMP_RET_TRACE) 0xffff0000 = SECCOMP_RET_TRACE.
Proof. intros H. by rewrite Z.land_lor_distr_l, high_bits_of_data. Qed.

Lemma custom_data x : 0 <= x < 2 ^ 16 -> Z.land (Z.lor x SECCOMP_RET_TRACE) SECCOMP_RET_DATA = x.
Proof.
  intros H. rewrite Z.land_lor_distr_l. change SECCOMP_RET_DATA with (Z.ones 16).
  rewrite Z.land_ones, Z.mod_small by lia. apply Z.lor_0_r.
Qed.

Definition traces (r : Z) : Prop := r = SECCOMP_RET_ALLOW \/ Z.land r 0xffff0000 = SECCOMP_RET_TRACE.

Lemma answers_traces w v r : answers w v r -> traces r.
Proof.
  intros [[_ ->]|(_ & i & -> & ? & ? & _)]; [by left|right]. apply custom_action.
  unfold BASE_CUSTOM_DATA, SECCOMP_RET_DATA in *. lia.
Qed.

Lemma traces_action r : Z.land r 0xffff0000 = SECCOMP_RET_TRACE -> signed_action r = SECCOMP_RET_TRACE.
Proof. unfold signed_action. by intros ->. Qed.

(** A first stop is kept. *)
Lemma picks_trace ret rs : Z.land ret 0xffff0000 = SECCOMP_RET_TRACE -> Forall traces rs -> foldl pick ret rs = ret.
Proof.
  intros Hret. induction 1 as [|r rs Hr _ IH]; [done|]. cbn.
  assert (pick ret r = ret) as ->; [|done]. unfold pick. rewrite (traces_action ret) by done.
  destruct Hr as [->|Hr]; [done|]. by rewrite traces_action.
Qed.

Lemma picks_newest w vs rs own : Forall2 (answers w) vs rs -> traces own ->
  let ret := foldl pick SECCOMP_RET_ALLOW (rs ++ [own]) in
  if newest vs =? SECCOMP_RET_ALLOW then ret = own else answers w (newest vs) ret.
Proof.
  intros H Hown. induction H as [|v r vs rs Hr HF IH]; cbn.
  { unfold pick. destruct Hown as [->|Ho]; [done|]. by rewrite traces_action. }
  pose proof (answers_traces _ _ _ Hr) as Ht. destruct Hr as [[-> ->]|(Hne & i & Hi)]; [done|].
  apply Z.eqb_neq in Hne as Hb. rewrite !Hb. destruct Hi as (-> & Hi & Hlt & Hl).
  assert (Z.land (Z.lor (BASE_CUSTOM_DATA + i) SECCOMP_RET_TRACE) 0xffff0000 = SECCOMP_RET_TRACE) as Ha.
  { apply custom_action. unfold BASE_CUSTOM_DATA, SECCOMP_RET_DATA in *. lia. }
  assert (pick SECCOMP_RET_ALLOW (Z.lor (BASE_CUSTOM_DATA + i) SECCOMP_RET_TRACE) = Z.lor (BASE_CUSTOM_DATA + i) SECCOMP_RET_TRACE) as ->.
  { unfold pick. by rewrite traces_action. }
  rewrite picks_trace; [right; split; [done|by exists i]|done|].
  apply Forall_app; split; [|by constructor].
  clear -HF. induction HF; constructor; [by eapply answers_traces|done].
Qed.

(** ** Stops *)

Lemma answers_event w v r : answers w v r -> v <> SECCOMP_RET_ALLOW -> tab_ok w ->
  Z.land r 0xffff0000 = SECCOMP_RET_TRACE /\ seccomp_event (Z.land r SECCOMP_RET_DATA) w = intended v.
Proof.
  intros [[? _]|(_ & i & -> & Hi & Hlt & Hl)] Hv Hw; [done|].
  assert (0 <= BASE_CUSTOM_DATA + i < 2 ^ 16) as Hr by (unfold BASE_CUSTOM_DATA, SECCOMP_RET_DATA in *; lia).
  split; [by apply custom_action|]. rewrite custom_data by done.
  unfold seccomp_event, map_filter_data_to_real_result. pose proof (lookup_lt_Some _ _ _ Hl).
  rewrite (proj2 (Z.eqb_neq _ _)) by lia. rewrite (proj2 (Z.ltb_ge _ _)) by lia. rewrite (proj2 (Z.leb_gt _ _)) by lia.
  replace (BASE_CUSTOM_DATA + i - BASE_CUSTOM_DATA) with i by lia. rewrite Hl. cbn -[Z.land].
  unfold intended. cbn -[Z.land]. destruct (decide _) as [->|H1]; [done|].
  destruct (decide _) as [->|H2]; [done|]. rewrite (proj2 (Z.eqb_neq _ _)) by done.
  destruct (decide _) as [->|H3]; [done|]. by rewrite !(proj2 (Z.eqb_neq _ _)) by done.
Qed.

(** The results of the rewritten filters at a system call. *)
Lemma decides_results w d ps vs : Forall2 (decides w d) ps vs ->
  exists rs, Forall2 (fun p r => run_filter p d = Some r) ps rs /\
    (from_callsite privileged_ips d = true -> Forall (eq SECCOMP_RET_ALLOW) rs) /\
    (from_callsite privileged_ips d = false -> Forall2 (answers w) vs rs).
Proof.
  induction 1 as [|p v ps vs (r & Hr & Ha) _ (rs & IH1 & IH2 & IH3)]; [by exists []|].
  eexists (_ :: rs). split; [by constructor|]. split; intros Hd; rewrite Hd; constructor; auto.
Qed.

Definition outcome_of (ret : Z) (w : SeccompFilterRewriter) : Outcome :=
  if Z.land ret 0xffff0000 =? SECCOMP_RET_ALLOW then Allowed
  else if Z.land ret 0xffff0000 =? SECCOMP_RET_TRACE then Stopped (seccomp_event (Z.land ret SECCOMP_RET_DATA) w)
  else Handled ret.

Definition own_result (d : seccomp_data) : Z :=
  if from_callsite untraced_ips d then SECCOMP_RET_ALLOW else Z.lor SECCOMP_RET_TRACE SECCOMP_RET_DATA.

Lemma own_outcome d w :
  traces (own_result d) /\
  outcome_of (own_result d) w = if from_callsite untraced_ips d then Allowed else Stopped (Ok TracedSyscall).
Proof. unfold own_result. destruct (from_callsite _ _); (split; [|done]); [by left|by right]. Qed.

Lemma picks_allow rs own : Forall (eq SECCOMP_RET_ALLOW) rs -> traces own ->
  foldl pick SECCOMP_RET_ALLOW (rs ++ [own]) = own.
Proof.
  intros H Ho. induction H as [|r rs <- _ IH]; [|done]. cbn. unfold pick.
  destruct Ho as [->|Ho]; [done|]. by rewrite traces_action.
Qed.

Lemma filters_outcome progs ps w own d vs :
  install_all progs no_results = Ok (ps, w) ->
  create_seccomp_filter = Ok own ->
  Forall2 (fun p v => run_from (low (instruction_pointer d)) p d = Some v) progs vs ->
  outcome (reverse ps ++ [own]) d w = Some (
    if negb (from_callsite privileged_ips d) && negb (newest (reverse vs) =? SECCOMP_RET_ALLOW)
    then Stopped (intended (newest (reverse vs)))
    else if from_callsite untraced_ips d then Allowed else Stopped (Ok TracedSyscall)).
Proof.
  intros Hi Ho%(own_filter_runs _ d) Hv.
  destruct (install_all_decides _ _ _ _ _ _ Hi no_results_ok Hv) as (Hw & _ & HF).
  apply Forall2_reverse in HF. destruct (decides_results _ _ _ _ HF) as (rs & Hrs & Hp & Hn).
  destruct (own_outcome d w) as [Ht Hown].
  assert (Forall2 (fun p r => run_filter p d = Some r) (reverse ps ++ [own]) (rs ++ [own_result d])) as Hall
    by (apply Forall2_app; [done|]; by constructor).
  unfold outcome. rewrite (run_filters_picks _ _ _ _ Hall). cbn [mbind option_bind]. f_equal.
  fold (outcome_of (foldl pick SECCOMP_RET_ALLOW (rs ++ [own_result d])) w). destruct (from_callsite privileged_ips d).
  - by rewrite (picks_allow _ _ (Hp eq_refl) Ht).
  - pose proof (picks_newest w _ _ _ (Hn eq_refl) Ht) as Hret. cbv zeta in Hret. cbn [negb andb].
    destruct (newest (reverse vs) =? SECCOMP_RET_ALLOW) eqn:E; [by rewrite Hret|].
    destruct (answers_event _ _ _ Hret) as [Ha He]; [by apply Z.eqb_neq|done|].
    unfold outcome_of. rewrite Ha, He. done.
Qed.

(** C15: Under the recorder a thread that installed filters, all of which rd accepted, and
    makes a system call gets the decision of the filter installed last among those that do
    not give plain [SECCOMP_RET_ALLOW], and the recorder acts on exactly that filter's
    result: killing, trapping and errors are carried out, any other result, also to allow
    with data, is a fatal error of rd.  When all allow it, rd's own filter decides: it is
    traced unless it comes from an untraced entry of the rd page.  System calls from the
    privileged entries escape the filters of the tracee.  The result of a filter is the one
    it gives with the instruction pointer in the accumulator, as the code rd puts before it
    leaves it; that is the result without rd if the filter loads the accumulator first
    ([run_from_loads_first]), but not for all filters ([accumulator_not_clear]). *)
Theorem filters_decide progs ps w own d vs :
  install_all progs no_results = Ok (ps, w) ->
  create_seccomp_filter = Ok own ->
  Forall2 (fun p v => run_from (low (instruction_pointer d)) p d = Some v) progs vs ->
  outcome (reverse ps ++ [own]) d w = Some (
    if negb (from_callsite privileged_ips d) && negb (newest (reverse vs) =? SECCOMP_RET_ALLOW)
    then Stopped (intended (newest (reverse vs)))
    else if from_callsite untraced_ips d then Allowed else Stopped (Ok TracedSyscall)).
Proof. apply filters_outcome. Qed.

(** ** One filter, and more *)

(** With one filter, whose results carry data only with the actions that use them, the
    recorder acts on the result the kernel would have acted on. *)
Theorem one_filter_native prog ps w own d v r :
  install_all [prog] no_results = Ok (ps, w) ->
  create_seccomp_filter = Ok own ->
  loads_first prog = true ->
  run_filter prog d = Some v ->
  (v = SECCOMP_RET_ALLOW \/ signed_action v < SECCOMP_RET_ALLOW) ->
  from_callsite privileged_ips d = false -> from_callsite untraced_ips d = false ->
  run_filters [prog] d SECCOMP_RET_ALLOW = Some r ->
  outcome (reverse ps ++ [own]) d w = Some (Stopped (if r =? SECCOMP_RET_ALLOW then Ok TracedSyscall else intended r)).
Proof.
  intros Hi Ho Hl Hv Ha Hp Hu Hr. cbn in Hr. rewrite Hv in Hr. cbn in Hr.
  assert (r = v) as ->.
  { change (signed_action SECCOMP_RET_ALLOW) with SECCOMP_RET_ALLOW in Hr.
    destruct Ha as [->|Ha]; [by injection Hr|]. apply Z.ltb_lt in Ha. rewrite Ha in Hr. by injection Hr. }
  rewrite (filters_outcome [prog] ps w own d [v]) by (done || (constructor; [by rewrite run_from_loads_first|constructor])).
  rewrite Hp, Hu. change (newest (reverse [v])) with (if v =? SECCOMP_RET_ALLOW then SECCOMP_RET_ALLOW else v).
  cbn [negb andb]. destruct (v =? SECCOMP_RET_ALLOW) eqn:E; [done|]. by rewrite E.
Qed.

(** What the recorder does for a thread that installed [progs]. *)
Definition recorded (progs : list (list sock_filter)) (d : seccomp_data) : option Outcome :=
  match install_all progs no_results, create_seccomp_filter with
  | Ok (ps, w), Ok own => outcome (reverse ps ++ [own]) d w
  | _, _ => None
  end.

Definition returning (v : Z) : list sock_filter := [bpf_stmt (BPF_LD + BPF_W + BPF_ABS) 0; bpf_stmt (BPF_RET + BPF_K) v].

(** With two filters it need not: the kernel lets the most restrictive action win, and
    here it kills the process where the recorder makes the call fail. *)
Lemma precedence_lost :
  let older := returning SECCOMP_RET_KILL in
  let newer := returning (SECCOMP_RET_ERRNO + 1) in
  let d := mkData 39 0 0 [] in
  run_filters [newer; older] d SECCOMP_RET_ALLOW = Some SECCOMP_RET_KILL /\
  recorded [older; newer] d = Some (Stopped (Ok (Errno 1))).
Proof. split; vm_compute; reflexivity. Qed.

(** A filter that allows with data in its result, which the kernel ignores, ends the
    recording. *)
Lemma allow_with_data_fatal :
  let prog := returning (SECCOMP_RET_ALLOW + 1) in
  let d := mkData 39 0 0 [] in
  run_filters [prog] d SECCOMP_RET_ALLOW = Some SECCOMP_RET_ALLOW /\
  recorded [prog] d = Some (Stopped Fatal).
Proof. split; vm_compute; reflexivity. Qed.

(** The accumulator is not clear when a rewritten filter starts: one that compares it
    before it loads it decides differently. *)
Lemma accumulator_not_clear :
  let prog := [bpf_jump (BPF_JMP + BPF_JEQ + BPF_K) 0 0 1; bpf_stmt (BPF_RET + BPF_K) SECCOMP_RET_ALLOW;
               bpf_stmt (BPF_RET + BPF_K) SECCOMP_RET_KILL] in
  let d := mkData 39 0 0x1000 [] in
  run_filters [prog] d SECCOMP_RET_ALLOW = Some SECCOMP_RET_ALLOW /\
  recorded [prog] d = Some (Stopped (Ok Kill)).
Proof. split; vm_compute; reflexivity. Qed.

(** ** Which filters can be rewritten *)

Definition returns (u : sock_filter) : bool := BPF_CLASS (code u) =? BPF_RET.

Definition constant_returns (prog : list sock_filter) : bool :=
  forallb (fun u => negb (returns u) || (BPF_RVAL (code u) =? BPF_K)) prog.

(** The results a program needs a number for. *)
Definition results (prog : list sock_filter) : gset Z :=
  list_to_set (filter (fun v => v <> SECCOMP_RET_ALLOW) (map k (List.filter returns prog))).

Definition room (w : SeccompFilterRewriter) (s : gset Z) : Prop :=
  BASE_CUSTOM_DATA + Z.of_nat (length (index_to_result w)) + Z.of_nat (size (s ∖ dom (result_to_index w))) <= SECCOMP_RET_DATA.

Lemma results_cons u prog :
  results (u :: prog) = if returns u && negb (k u =? SECCOMP_RET_ALLOW) then {[k u]} ∪ results prog else results prog.
Proof.
  unfold results. cbn [List.filter]. destruct (returns u); cbn [andb map]; [|done].
  rewrite filter_cons. destruct (decide _) as [H|H].
  - rewrite (proj2 (Z.eqb_neq _ _)) by done. done.
  - destruct (Z.eqb_spec (k u) SECCOMP_RET_ALLOW); done.
Qed.

Lemma index_of_ok_iff v w S : tab_ok w ->
  (exists r, index_of v w = Ok r /\ room r.2 S) <-> room w ({[v]} ∪ S).
Proof.
  intros [Ht Hb]. unfold index_of, room. destruct (result_to_index w !! v) as [i|] eqn:E.
  - assert (({[v]} ∪ S) ∖ dom (result_to_index w) = S ∖ dom (result_to_index w)) as ->.
    { apply elem_of_dom_2 in E. set_solver. }
    split; [by intros (r & [= <-] & H)|intros H; eexists; by split].
  - apply not_elem_of_dom in E.
    assert (({[v]} ∪ S) ∖ dom (result_to_index w) = {[v]} ∪ (S ∖ ({[v]} ∪ dom (result_to_index w)))) as ->.
    { apply set_eq. intros x. destruct (decide (x = v)); set_solver. }
    rewrite size_union by set_solver. rewrite size_singleton. case_match eqn:Hlt.
    + split; [intros (r & [= <-] & H)|intros H; eexists; split; [done|]]; revert H; cbn;
        rewrite length_app, dom_insert_L; cbn; lia.
    + split; [by intros (? & ? & _)|lia].
Qed.

Lemma patch_insn_ok_iff u w S : tab_ok w ->
  (exists r, patch_insn u w = Ok r /\ room r.2 S) <->
  (returns u = true -> BPF_RVAL (code u) = BPF_K) /\
  room w (if returns u && negb (k u =? SECCOMP_RET_ALLOW) then {[k u]} ∪ S else S).
Proof.
  intros Hw. unfold patch_insn, returns. destruct (BPF_CLASS (code u) =? BPF_RET).
  2:{ split; [by intros (r & [= <-] & H)|intros [_ H]; eexists; by split]. }
  destruct (Z.eqb_spec (BPF_RVAL (code u)) BPF_K) as [Hr|Hr].
  2:{ split; [by intros (? & ? & _)|]. intros [H _]. by destruct Hr; apply H. }
  destruct (k u =? SECCOMP_RET_ALLOW); cbn [andb negb].
  { split; [by intros (r & [= <-] & H)|intros [_ H]; eexists; by split]. }
  rewrite <- index_of_ok_iff by done. split.
  - intros (r & Hb & H). apply bind_Ok in Hb as (x & Hx & [= <-]). split; [done|]. by exists x.
  - intros [_ (x & Hx & H)]. rewrite Hx. eexists. by split.
Qed.

Lemma room_tab_ok w : tab_ok w -> room w ∅.
Proof. intros [_ H]. unfold room. assert (∅ ∖ dom (result_to_index w) = (∅ : gset Z)) as -> by set_solver. rewrite size_empty. lia. Qed.

(** The results of every program so far keep their numbers; a new program can be
    rewritten just when its returns are constants and the results that have no number
    yet still fit in sixteen bits. *)
Lemma patch_ok_iff prog : forall w, tab_ok w ->
  is_ok (patch prog w) = true <-> constant_returns prog = true /\ room w (results prog).
Proof.
  induction prog as [|u prog IH]; intros w Hw; cbn [patch constant_returns forallb].
  { split; [intros _; split; [done|by apply room_tab_ok]|done]. }
  fold (constant_returns prog). rewrite results_cons, andb_true_iff.
  assert ((negb (returns u) || (BPF_RVAL (code u) =? BPF_K) = true) <-> (returns u = true -> BPF_RVAL (code u) = BPF_K)) as ->.
  { rewrite <- Z.eqb_eq. destruct (returns u), (_ =? _); naive_solver. }
  transitivity ((exists r, patch_insn u w = Ok r /\ room r.2 (results prog)) /\ constant_returns prog = true);
    [|rewrite patch_insn_ok_iff by done; tauto].
  destruct (patch_insn u w) as [[u' w1]| | |] eqn:E; cbn.
  2-4: split; [done|by intros [(? & ? & _) _]].
  destruct (patch_insn_spec _ _ _ _ E Hw) as (H1 & _ & _). specialize (IH w1 H1).
  destruct (patch prog w1) as [[p w2]| | |]; cbn in *; naive_solver.
Qed.

(** ** Installing *)

Section Installing.
Context (syscall : Z -> option (list sock_filter) -> Z) (is_seccomp_syscall : Z -> bool).

(** What a call with result [r] makes of thread [j]. *)
Definition thread_after (r : Z) (tsync : bool) (self j : nat) (t : Thread) : Thread :=
  mkThread (if decide (j = self) then r else syscall_result t)
           (if (-4096 <? r) && (r <? 0) then prctl_seccomp_status t
            else if decide (j = self) then 2 else if tsync then 2 else prctl_seccomp_status t).

Lemma patch_length prog : forall w q w', patch prog w = Ok (q, w') -> length q = length prog.
Proof.
  induction prog as [|u prog IH]; intros w q w' H; cbn in H; [by simplify_eq|].
  apply bind_Ok in H as (a & _ & H). apply bind_Ok in H as ([b w1] & Hb & H). cbn in *. simplify_eq. cbn.
  by rewrite (IH _ _ _ Hb).
Qed.

Lemma imap_insert_self (f : nat -> Thread -> Thread) g self t ts : ts !! self = Some t ->
  (forall j x, j <> self -> f j x = g x) ->
  imap f ts = <[self:=f self t]> (map g ts).
Proof.
  intros Ht Hg. apply list_eq. intros j. rewrite list_lookup_imap. destruct (decide (j = self)) as [->|Hj].
  - rewrite list_lookup_insert_eq by (rewrite length_map; by eapply lookup_lt_Some). by rewrite Ht.
  - rewrite list_lookup_insert_ne by done. change (map g ts) with (g <$> ts). rewrite list_lookup_fmap.
    destruct (ts !! j); cbn; [by rewrite Hg|done].
Qed.

(** C38: Installing a readable filter whose returns are constants and whose results fit
    succeeds, whatever the system call answers: the rewritten program is the one that is
    installed, the calling thread gets the result of the call, and when the call did not
    fail it is marked as filtered, with all the threads of its group for [seccomp] with
    [TSYNC]. *)
Theorem install_succeeds prog no arg2 self t ts w :
  tab_ok w -> constant_returns prog = true -> room w (results prog) ->
  Z.of_nat (length prog) + 3 * Z.of_nat (length privileged_ips) < 2 ^ 16 -> ts !! self = Some t ->
  exists q w', patch prog w = Ok (q, w') /\ tab_ok w' /\
    let r := syscall no (Some (flat_map callsite privileged_ips ++ q)) in
    let tsync := is_seccomp_syscall no && negb (Z.land arg2 SECCOMP_FILTER_FLAG_TSYNC =? 0) in
    install_patched_seccomp_filter syscall is_seccomp_syscall (Some prog) no arg2 self ts w =
    Ok (imap (thread_after r tsync self) ts, w').
Proof.
  intros Hw Hc Hr Hlen Ht. pose proof (proj2 (patch_ok_iff prog w Hw) (conj Hc Hr)) as Hok.
  destruct (patch prog w) as [[q w']| | |] eqn:E; try done. exists q, w'. split; [done|].
  split; [by eapply patch_spec|]. cbv zeta. unfold install_patched_seccomp_filter, patched_filter.
  rewrite privileged_prefix, E. cbn [mbind res_bind fst snd].
  assert ((Z.of_nat (length (flat_map callsite privileged_ips ++ q)) <? 2 ^ 16) = true) as ->.
  { rewrite length_app, (flat_map_constant_length (c := 3)), (patch_length _ _ _ _ E) by done. apply Z.ltb_lt. lia. }
  cbn [assert_ mbind res_bind]. rewrite Ht. cbn [unwrap mbind res_bind].
  set (r := syscall _ _). unfold syscall_failed, set_syscall_result, thread_after. cbn [syscall_result].
  destruct ((-4096 <? r) && (r <? 0)).
  - do 2 f_equal. rewrite (imap_insert_self _ id self t), map_id; [by rewrite decide_True|done|].
    intros j [] Hj. by rewrite decide_False.
  - destruct (is_seccomp_syscall no && _); do 2 f_equal.
    + rewrite (imap_insert_self _ (set_status 2) self t); [by rewrite !decide_True|done|].
      intros j [] Hj. by rewrite !decide_False.
    + rewrite (imap_insert_self _ id self t), map_id; [by rewrite !decide_True|done|].
      intros j [] Hj. by rewrite !decide_False.
Qed.

End Installing.

(** ** Witnesses *)

(** A filter that fails system call 39 and allows the others. *)
Definition deny_39 : list sock_filter :=
  [bpf_stmt (BPF_LD + BPF_W + BPF_ABS) 0; bpf_jump (BPF_JMP + BPF_JEQ + BPF_K) 39 0 1;
   bpf_stmt (BPF_RET + BPF_K) (SECCOMP_RET_ERRNO + 13); bpf_stmt (BPF_RET + BPF_K) SECCOMP_RET_ALLOW].

Definition installed_example := Eval vm_compute in
  match install_all [deny_39; returning SECCOMP_RET_ALLOW] no_results with Ok r => r | _ => ([], no_results) end.
Definition own_example := Eval vm_compute in match create_seccomp_filter with Ok f => f | _ => [] end.

Lemma filters_decide_witness :
  outcome (reverse installed_example.1 ++ [own_example]) (mkData 39 0 0 []) installed_example.2 = Some (Stopped (Ok (Errno 13))).
Proof.
  rewrite (filters_decide [deny_39; returning SECCOMP_RET_ALLOW] installed_example.1 installed_example.2 own_example
    (mkData 39 0 0 []) [SECCOMP_RET_ERRNO + 13; SECCOMP_RET_ALLOW]).
  - vm_compute. reflexivity.
  - vm_compute. reflexivity.
  - vm_compute. reflexivity.
  - repeat constructor.
Defined.

Lemma install_succeeds_witness :
  exists q w', patch deny_39 no_results = Ok (q, w') /\
    install_patched_seccomp_filter (fun _ _ => 0) (fun _ => true) (Some deny_39) 317 1 0 [mkThread 317 0; mkThread 5 0] no_results =
    Ok ([mkThread 0 2; mkThread 5 2], w').
Proof.
  destruct (install_succeeds (fun _ _ => 0) (fun _ => true) deny_39 317 1 0 (mkThread 317 0) [mkThread 317 0; mkThread 5 0] no_results)
    as (q & w' & H1 & _ & H2); [apply no_results_ok|reflexivity|unfold room; vm_compute; discriminate|reflexivity|reflexivity|].
  exists q, w'. by split.
Defined.

End SeccompTheorems.
