(* ===== verification/TraceeMemory.v ===== *)
(** Tracee memory as a map of bytes, and its reads and writes as the recorder and the
    replayer see them: a read stops at the first byte that is not mapped, and a read or
    write that has to succeed is fatal when a byte is not mapped. *)

From S2P Require Import Prelude.

Module TMem.

Notation Memory := (gmap Z Z).

(** The bytes at [addr] up to the first that is not mapped. *)
Fixpoint read_bytes (n : nat) (addr : Z) (m : Memory) : list Z :=
  match n with
  | O => []
  | S n => match m !! addr with Some v => v :: read_bytes n (addr + 1) m | None => [] end
  end.

(** [data] put at [addr]. *)
Fixpoint write_map (addr : Z) (data : list Z) (m : Memory) : Memory :=
  match data with [] => m | v :: data => write_map (addr + 1) data (<[addr:=v]> m) end.

Definition read_mem (addr n : Z) (m : Memory) : res (list Z) :=
  let l := read_bytes (Z.to_nat n) addr m in
  if Z.of_nat (length l) =? n then Ok l else Fatal.

Definition write_mem (addr : Z) (data : list Z) (m : Memory) : res Memory :=
  if Nat.eqb (length (read_bytes (length data) addr m)) (length data) then Ok (write_map addr data m) else Fatal.

(** Little-endian words. *)
Fixpoint le_bytes (n : nat) (v : Z) : list Z :=
  match n with O => [] | S n => v mod 256 :: le_bytes n (v / 256) end.

Fixpoint le_val (l : list Z) : Z :=
  match l with [] => 0 | b :: l => b + 256 * le_val l end.

(** ** Lemmas *)

Definition mapped (addr n : Z) (m : Memory) : Prop := forall a, addr <= a < addr + n -> is_Some (m !! a).

Lemma read_bytes_spec n : forall addr m i,
  read_bytes n addr m !! i = if decide (i < length (read_bytes n addr m))%nat then m !! (addr + Z.of_nat i) else None.
Proof.
  intros addr m i. case_decide as H; [|by apply lookup_ge_None_2; lia].
  revert addr i H. induction n as [|n IH]; intros addr i H; cbn [read_bytes] in *; [cbn in H; lia|].
  destruct (m !! addr) as [v|] eqn:E; [|cbn in H; lia]. destruct i as [|i]; cbn [lookup list_lookup].
  - by rewrite Z.add_0_r.
  - cbn in H. transitivity (read_bytes n (addr + 1) m !! i); [done|]. rewrite IH by lia. f_equal. lia.
Qed.

Lemma read_bytes_length n m m' : (forall a, is_Some (m !! a) <-> is_Some (m' !! a)) -> forall addr,
  length (read_bytes n addr m) = length (read_bytes n addr m').
Proof.
  intros H. induction n as [|n IH]; intros addr; cbn; [done|]. specialize (H addr).
  destruct (m !! addr), (m' !! addr); cbn; [by rewrite IH| | |done].
  - destruct H as [H _]. destruct H; eauto. done.
  - destruct H as [_ H]. destruct H; eauto. done.
Qed.

Lemma read_bytes_full n : forall addr m, mapped addr (Z.of_nat n) m -> length (read_bytes n addr m) = n.
Proof.
  induction n as [|n IH]; intros addr m H; cbn; [done|]. destruct (H addr) as [v ->]; [lia|]. cbn.
  rewrite IH; [done|]. intros a Ha. apply H. lia.
Qed.

Lemma write_map_lookup data : forall addr m a,
  write_map addr data m !! a = if decide (addr <= a < addr + Z.of_nat (length data)) then data !! Z.to_nat (a - addr) else m !! a.
Proof.
  induction data as [|v data IH]; intros addr m a; cbn [write_map length].
  { by rewrite decide_False by lia. }
  rewrite IH. destruct (decide (a = addr)) as [->|Hne].
  - rewrite decide_False, decide_True by lia. rewrite lookup_insert_eq. by rewrite Z.sub_diag.
  - rewrite lookup_insert_ne by done. repeat case_decide; try lia; [|done].
    replace (Z.to_nat (a - addr)) with (S (Z.to_nat (a - (addr + 1)))) by lia. done.
Qed.

Lemma write_map_mapped addr data m b n : mapped b n m -> mapped b n (write_map addr data m).
Proof.
  intros H a Ha. rewrite write_map_lookup. case_decide; [apply lookup_lt_is_Some; lia|by apply H].
Qed.

(** A read of mapped memory returns what is there. *)
Lemma read_mem_ok addr n m : 0 <= n -> mapped addr n m ->
  exists l, read_mem addr n m = Ok l /\ Z.of_nat (length l) = n /\
    forall a, addr <= a < addr + n -> m !! a = l !! Z.to_nat (a - addr).
Proof.
  intros Hn H. assert (length (read_bytes (Z.to_nat n) addr m) = Z.to_nat n) as Hl.
  { apply read_bytes_full. by rewrite Z2Nat.id. }
  exists (read_bytes (Z.to_nat n) addr m). unfold read_mem. rewrite Hl, Z2Nat.id, Z.eqb_refl by done. splits; [done|done|].
  intros a Ha. rewrite read_bytes_spec, decide_True by lia. f_equal. lia.
Qed.

Lemma read_mem_length addr n m l : read_mem addr n m = Ok l -> Z.of_nat (length l) = n.
Proof. unfold read_mem. destruct (Z.eqb_spec (Z.of_nat (length (read_bytes (Z.to_nat n) addr m))) n); [by intros [= <-]|done]. Qed.

(** What was read is what memory holds. *)
Lemma read_mem_lookup addr n m l a : read_mem addr n m = Ok l -> addr <= a < addr + n -> m !! a = l !! Z.to_nat (a - addr).
Proof.
  intros H Ha. pose proof (read_mem_length _ _ _ _ H) as Hl. unfold read_mem in H.
  destruct (Z.eqb_spec (Z.of_nat (length (read_bytes (Z.to_nat n) addr m))) n); [|done]. injection H as <-.
  rewrite read_bytes_spec, decide_True by lia. f_equal. lia.
Qed.

Lemma write_mem_ok addr data m : mapped addr (Z.of_nat (length data)) m -> write_mem addr data m = Ok (write_map addr data m).
Proof. intros H. unfold write_mem. by rewrite read_bytes_full, Nat.eqb_refl. Qed.

Lemma write_mem_Ok addr data m m' : write_mem addr data m = Ok m' -> m' = write_map addr data m.
Proof. unfold write_mem. case_match; [by intros [= <-]|done]. Qed.

Lemma le_bytes_length n : forall v, length (le_bytes n v) = n.
Proof. induction n as [|n IH]; intros v; cbn; [done|by rewrite IH]. Qed.

Lemma le_bytes_val l : Forall (fun b => 0 <= b < 256) l -> le_bytes (length l) (le_val l) = l.
Proof.
  induction 1 as [|b l Hb _ IH]; cbn [length le_bytes le_val]; [done|]. f_equal.
  - rewrite Z.mul_comm, Z.mod_add by lia. by apply Z.mod_small.
  - rewrite Z.mul_comm, Z.div_add, Z.div_small by lia. done.
Qed.

Lemma le_val_bytes n : forall v, le_val (le_bytes n v) = v mod 256 ^ Z.of_nat n.
Proof.
  induction n as [|n IH]; intros v; cbn [le_bytes le_val]; [by rewrite Z.mod_1_r|]. rewrite IH.
  rewrite Nat2Z.inj_succ, Z.pow_succ_r by lia. rewrite Z.rem_mul_r by lia. lia.
Qed.

End TMem.
