(* ===== verification/Breakpoints.v ===== *)
(** Software breakpoints of an address space ([src/src/session/address_space.rs]): the
    references per address, the trap instruction in tracee memory, and the reads and
    writes that have to take the breakpoints into account
    ([src/src/commands/gdb_server.rs], [src/src/session/task/replay_task.rs]). *)

From S2P Require Import Prelude TraceeMemory.

Module Breakpoints.
Import TMem.

Inductive BreakpointType := BkptNone | BkptInternal | BkptUser.

#[global] Instance BreakpointType_eq_dec : EqDecision BreakpointType.
Proof. solve_decision. Defined.

Record Breakpoint := mkBreakpoint { internal_count : Z; user_count : Z; overwritten_data : Z }.

Definition U32 : Z := 2 ^ 32.

Definition add_u32 (a b : Z) : res Z := if a + b <? U32 then Ok (a + b) else Panic.

Definition new (overwritten_data : Z) : Breakpoint := mkBreakpoint 0 0 overwritten_data.

Definition counter (which : BreakpointType) (bp : Breakpoint) : Z :=
  if decide (which = BkptUser) then user_count bp else internal_count bp.

Definition set_counter (which : BreakpointType) (v : Z) (bp : Breakpoint) : Breakpoint :=
  if decide (which = BkptUser) then mkBreakpoint (internal_count bp) v (overwritten_data bp)
  else mkBreakpoint v (user_count bp) (overwritten_data bp).

Definition do_ref (which : BreakpointType) (bp : Breakpoint) : res Breakpoint :=
  v ← add_u32 (counter which bp) 1;
  Ok (set_counter which v bp).

(** The references that are left, and the breakpoint. *)
Definition do_unref (which : BreakpointType) (bp : Breakpoint) : res (Z * Breakpoint) :=
  v ← checked_sub (counter which bp) 1;
  let bp := set_counter which v bp in
  n ← add_u32 (internal_count bp) (user_count bp);
  Ok (n, bp).

Definition bp_type (bp : Breakpoint) : BreakpointType :=
  if 0 <? user_count bp then BkptUser else BkptInternal.

Definition data_length : Z := 1.

Definition BREAKPOINT_INSN : Z := 0xCC.

(** The breakpoints of an address space, the bytes of its mapped memory, and whether a
    task is left in it. *)
Record Space := mkSpace { breakpoints : gmap Z Breakpoint; memory : gmap Z Z; has_tasks : bool }.

Definition set_breakpoints (b : gmap Z Breakpoint) (s : Space) : Space := mkSpace b (memory s) (has_tasks s).
Definition set_memory (m : gmap Z Z) (s : Space) : Space := mkSpace (breakpoints s) m (has_tasks s).

Definition any_task (s : Space) : res unit := assert_ (has_tasks s).

(** A write that has to succeed. *)
Definition write_val_mem (a v : Z) (s : Space) : res Space :=
  match memory s !! a with
  | Some _ => Ok (set_memory (<[a:=v]> (memory s)) s)
  | None => Fatal
  end.

Definition add_breakpoint (a : Z) (type : BreakpointType) (s : Space) : res (bool * Space) :=
  match breakpoints s !! a with
  | Some bp =>
      bp ← do_ref type bp;
      Ok (true, set_breakpoints (<[a:=bp]> (breakpoints s)) s)
  | None =>
      _ ← any_task s;
      match memory s !! a with
      | None => Ok (false, s)
      | Some v =>
          s ← write_val_mem a BREAKPOINT_INSN s;
          bp ← do_ref type (new v);
          Ok (true, set_breakpoints (<[a:=bp]> (breakpoints s)) s)
      end
  end.

Definition destroy_breakpoint_at (a : Z) (s : Space) : res Space :=
  if negb (has_tasks s) then Ok s
  else
    bp ← unwrap (breakpoints s !! a);
    s ← write_val_mem a (overwritten_data bp) s;
    Ok (set_breakpoints (delete a (breakpoints s)) s).

Definition remove_breakpoint (a : Z) (type : BreakpointType) (s : Space) : res Space :=
  match breakpoints s !! a with
  | None => Ok s
  | Some bp =>
      r ← do_unref type bp;
      let s := set_breakpoints (<[a:=r.2]> (breakpoints s)) s in
      if r.1 =? 0 then destroy_breakpoint_at a s else Ok s
  end.

Fixpoint destroy_all (l : list Z) (s : Space) : res Space :=
  match l with
  | [] => Ok s
  | a :: l => s ← destroy_breakpoint_at a s; destroy_all l s
  end.

(** The keys come in the order of the hash map, here that of [map_to_list]. *)
Definition remove_all_breakpoints (s : Space) : res Space :=
  destroy_all (map fst (map_to_list (breakpoints s))) s.

Definition suspend_breakpoint_at (a : Z) (s : Space) : res Space :=
  match breakpoints s !! a with
  | Some bp => _ ← any_task s; write_val_mem a (overwritten_data bp) s
  | None => Ok s
  end.

Definition restore_breakpoint_at (a : Z) (s : Space) : res Space :=
  match breakpoints s !! a with
  | Some _ => _ ← any_task s; write_val_mem a BREAKPOINT_INSN s
  | None => Ok s
  end.

Definition get_breakpoint_type_at_addr (a : Z) (s : Space) : BreakpointType :=
  match breakpoints s !! a with Some bp => bp_type bp | None => BkptNone end.

Definition get_breakpoint_type_for_retired_insn (ip : Z) (s : Space) : BreakpointType :=
  get_breakpoint_type_at_addr (wrap 64 (ip - 1)) s.

Definition has_breakpoints (s : Space) : bool := negb (bool_decide (breakpoints s = ∅)).

Definition is_breakpoint_instruction (ip : Z) (s : Space) : bool :=
  match memory s !! ip with Some v => v =? BREAKPOINT_INSN | None => false end.

(** ** Reads that hide the breakpoints *)

(** One breakpoint in the buffer [dest] read at [addr]. *)
Definition replace_one (addr : Z) (dest : list Z) (kv : Z * Breakpoint) : list Z :=
  let start := Z.max addr kv.1 in
  let end_ := Z.min (wrap 64 (addr + Z.of_nat (length dest))) (wrap 64 (kv.1 + data_length)) in
  if start <? end_ then <[Z.to_nat (start - addr):=overwritten_data kv.2]> dest else dest.

Definition replace_breakpoints_with_original_values (dest : list Z) (addr : Z) (s : Space) : list Z :=
  foldl (replace_one addr) dest (map_to_list (breakpoints s)).

(** The task that is read: its stack pointer, the size of a word, and whether it executes
    code that rd has generated. *)
Record Target := mkTarget { sp : Z; word_size : Z; in_patch_stubs : bool }.

(** [result] has been read at [addr]. *)
Definition maybe_intercept_mem_request (t : Target) (addr : Z) (result : list Z) : res (list Z) :=
  let len := Z.of_nat (length result) in
  if (addr <=? sp t) && (wrap 64 (sp t + word_size t) <=? wrap 64 (addr + len)) && in_patch_stubs t then
    let offset := sp t - addr in
    if offset + word_size t <=? len
    then Ok (take (Z.to_nat offset) result ++ replicate (Z.to_nat (word_size t)) 0 ++ drop (Z.to_nat (offset + word_size t)) result)
    else Panic
  else Ok result.

(** What the debugger gets for a read. *)
Definition get_mem (t : Target) (addr : Z) (len : nat) (s : Space) : res (list Z) :=
  maybe_intercept_mem_request t addr (replace_breakpoints_with_original_values (read_bytes len addr (memory s)) addr s).

(** ** Memory that changes under breakpoints *)

Fixpoint update_breakpoints (addr len : Z) (l : list (Z * Breakpoint)) (s : Space) : res Space :=
  match l with
  | [] => Ok s
  | (a, bp) :: l =>
      if (addr <=? a) && (a <? wrap 64 (addr + len)) then
        v ← (match memory s !! a with Some v => Ok v | None => Fatal end);
        let bp := mkBreakpoint (internal_count bp) (user_count bp) v in
        s ← write_val_mem a BREAKPOINT_INSN (set_breakpoints (<[a:=bp]> (breakpoints s)) s);
        update_breakpoints addr len l s
      else update_breakpoints addr len l s
  end.

Definition maybe_update_breakpoints (addr len : Z) (s : Space) : res Space :=
  update_breakpoints addr len (map_to_list (breakpoints s)) s.

(** A write of all of [data], which has to succeed. *)
Definition write_bytes (addr : Z) (data : list Z) (s : Space) : res Space :=
  m ← write_mem addr data (memory s); Ok (set_memory m s).

(** A chunk of data of the trace, which belongs to this task. *)
Definition set_data_from_trace (addr : Z) (data : list Z) (s : Space) : res Space :=
  if negb (addr =? 0) && negb (bool_decide (data = [])) then
    s ← write_bytes addr data s;
    maybe_update_breakpoints addr (Z.of_nat (length data)) s
  else Ok s.

(** A write by the debugger in a diversion session. *)
Definition set_mem (addr : Z) (data : list Z) (s : Space) : res Space := write_bytes addr data s.

End Breakpoints.
