(* ===== verification/BreakpointProofs.v ===== *)
(** Breakpoints are invisible to reads, survive the data of the trace, and leave memory
    as it was. *)

From stdpp Require Import gmultiset.
From S2P Require Import Prelude TraceeMemory Breakpoints.

Module BreakpointProofs.
Import TMem Breakpoints.

(** ** What breakpoints promise

    The program is memory without breakpoints, and every reference is kept by itself. *)

Record Abs := mkAbs { program : gmap Z Z; refs : gmultiset (Z * bool) }.

Inductive Op := Add (a : Z) (user : bool) | Remove (a : Z) (user : bool) | Data (addr : Z) (data : list Z).

Definition kind (user : bool) : BreakpointType := if user then BkptUser else BkptInternal.

Definition abs_step (op : Op) (x : Abs) : Abs :=
  match op with
  | Add a u => if decide (is_Some (program x !! a)) then mkAbs (program x) ({[+ (a, u) +]} ⊎ refs x) else x
  | Remove a u => mkAbs (program x) (refs x ∖ {[+ (a, u) +]})
  | Data addr data => if addr =? 0 then x else mkAbs (write_map addr data (program x)) (refs x)
  end.

(** References are given back by those who took them; the data of the trace is for
    mapped memory. *)
Definition valid (op : Op) (x : Abs) : Prop :=
  match op with
  | Add a u => True
  | Remove a u => (a, u) ∈ refs x \/ (forall u', (a, u') ∉ refs x)
  | Data addr data => addr <> 0 -> forall i, 0 <= i < Z.of_nat (length data) -> is_Some (program x !! (addr + i))
  end.

Definition exec_op (op : Op) (s : Space) : res Space :=
  match op with
  | Add a u => r ← add_breakpoint a (kind u) s; Ok r.2
  | Remove a u => remove_breakpoint a (kind u) s
  | Data addr data => set_data_from_trace addr data s
  end.

Fixpoint run_ops (ops : list Op) (s : Space) : res Space :=
  match ops with [] => Ok s | op :: ops => s ← exec_op op s; run_ops ops s end.

Fixpoint abs_run (ops : list Op) (x : Abs) : Abs :=
  match ops with [] => x | op :: ops => abs_run ops (abs_step op x) end.

Fixpoint valid_run (ops : list Op) (x : Abs) : Prop :=
  match ops with [] => True | op :: ops => valid op x /\ valid_run ops (abs_step op x) end.

Definition count (a : Z) (u : bool) (x : Abs) : Z := Z.of_nat (multiplicity (a, u) (refs x)).

#[local] Arguments count : simpl never.

Definition type_of (a : Z) (x : Abs) : BreakpointType :=
  if 0 <? count a true x then BkptUser else if 0 <? count a false x then BkptInternal else BkptNone.

(** ** The relation *)

(** At one address. *)
Definition rel_at (a : Z) (s : Space) (x : Abs) : Prop :=
  match breakpoints s !! a with
  | Some bp =>
      memory s !! a = Some BREAKPOINT_INSN /\ program x !! a = Some (overwritten_data bp) /\
      internal_count bp = count a false x /\ user_count bp = count a true x /\
      0 < internal_count bp + user_count bp
  | None => memory s !! a = program x !! a /\ count a false x = 0 /\ count a true x = 0
  end.

(** Tracees have addresses below [2 ^ 47]. *)
Definition user_space (m : gmap Z Z) : Prop := forall a, is_Some (m !! a) -> 0 <= a < 2 ^ 47.

Record rel (n : Z) (s : Space) (x : Abs) : Prop := mkRel {
  rel_each : forall a, rel_at a s x;
  rel_tasks : has_tasks s = true;
  rel_space : user_space (program x);
  rel_bound : forall a, count a false x + count a true x <= n
}.

Lemma rel_mapped n s x a : rel n s x -> is_Some (memory s !! a) <-> is_Some (program x !! a).
Proof.
  intros H. pose proof (rel_each _ _ _ H a) as R. unfold rel_at in R.
  destruct (breakpoints s !! a) as [bp|].
  - destruct R as (-> & -> & _). split; eauto.
  - destruct R as (-> & _). done.
Qed.

Lemma count_add a u b v x p :
  count a u (mkAbs p ({[+ (b, v) +]} ⊎ refs x)) = count a u x + (if decide ((a, u) = (b, v)) then 1 else 0).
Proof.
  unfold count. cbn [refs]. rewrite multiplicity_disj_union, multiplicity_singleton. case_decide; lia.
Qed.

Lemma count_remove a u b v x p :
  count a u (mkAbs p (refs x ∖ {[+ (b, v) +]})) = Z.max 0 (count a u x - (if decide ((a, u) = (b, v)) then 1 else 0)).
Proof.
  unfold count. cbn [refs]. rewrite multiplicity_difference, multiplicity_singleton. case_decide; lia.
Qed.

Lemma count_nonneg a u x : 0 <= count a u x.
Proof. unfold count. lia. Qed.

Lemma count_elem a u x : (a, u) ∈ refs x <-> 0 < count a u x.
Proof. unfold count. rewrite elem_of_multiplicity. lia. Qed.

(** ** Adding *)

Lemma counter_kind u bp : counter (kind u) bp = if u then user_count bp else internal_count bp.
Proof. by destruct u. Qed.

Lemma set_counter_kind u v bp :
  set_counter (kind u) v bp =
  mkBreakpoint (if u then internal_count bp else v) (if u then v else user_count bp) (overwritten_data bp).
Proof. by destruct u. Qed.

Lemma do_ref_ok u bp n : counter (kind u) bp <= n -> n + 1 < U32 ->
  do_ref (kind u) bp = Ok (set_counter (kind u) (counter (kind u) bp + 1) bp).
Proof. intros H Hn. unfold do_ref, add_u32. rewrite (proj2 (Z.ltb_lt _ _)) by lia. done. Qed.

(** A step that only concerns address [a]. *)
Lemma rel_local a n n' s s' x x' : rel n s x -> n <= n' ->
  has_tasks s' = has_tasks s -> program x' = program x ->
  (forall b, b <> a -> breakpoints s' !! b = breakpoints s !! b /\ memory s' !! b = memory s !! b) ->
  (forall b u, b <> a -> count b u x' = count b u x) ->
  rel_at a s' x' -> count a false x' + count a true x' <= n' -> rel n' s' x'.
Proof.
  intros [Re Rt Rs Rb] Hn Ht Hp Hs Hc Ha Hb. split; [|by rewrite Ht|by rewrite Hp|].
  - intros b. destruct (decide (b = a)) as [->|Hne]; [done|]. pose proof (Re b) as R. unfold rel_at in *.
    destruct (Hs b Hne) as [-> ->]. by rewrite Hp, !Hc.
  - intros b. destruct (decide (b = a)) as [->|Hne]; [done|]. rewrite !Hc by done. pose proof (Rb b). lia.
Qed.

Lemma add_counts a u x p v : count a v (mkAbs p ({[+ (a, u) +]} ⊎ refs x)) = count a v x + (if Bool.eqb u v then 1 else 0).
Proof. rewrite count_add. destruct u, v; case_decide; cbn; congruence || lia. Qed.

Lemma add_rel a u n s x : rel n s x -> n + 1 < U32 ->
  exists s', exec_op (Add a u) s = Ok s' /\ rel (n + 1) s' (abs_step (Add a u) x).
Proof.
  intros R Hn. pose proof (rel_each _ _ _ R a) as Ra. pose proof (rel_bound _ _ _ R a) as Hb.
  pose proof (count_nonneg a false x). pose proof (count_nonneg a true x).
  remember (abs_step (Add a u) x) as y eqn:Hy. cbn [abs_step] in Hy.
  cbn [exec_op]. unfold add_breakpoint. unfold rel_at in Ra.
  destruct (breakpoints s !! a) as [bp|] eqn:E.
  - destruct Ra as (Hm & Hp & Hi & Hu & Hpos).
    rewrite (do_ref_ok _ _ n) by (rewrite ?counter_kind; destruct u; lia). cbn. eexists. split; [done|].
    rewrite decide_True in Hy by eauto. subst y.
    eapply (rel_local a); [done|lia|done|done| | | |rewrite !add_counts; destruct u; cbn; lia].
    + intros b Hne. cbn. by rewrite lookup_insert_ne.
    + intros b v Hne. rewrite count_add, decide_False by congruence. lia.
    + unfold rel_at. rewrite !add_counts. cbn. rewrite lookup_insert_eq, set_counter_kind, counter_kind. cbn.
      splits; try done; destruct u; cbn; lia.
  - destruct Ra as (Hm & Hi & Hu). unfold any_task. rewrite (rel_tasks _ _ _ R). cbn.
    destruct (memory s !! a) as [v|] eqn:Em.
    2:{ eexists. split; [done|]. rewrite decide_False in Hy by (rewrite <- Hm; by intros [? ?]). subst y.
        destruct R as [Re Rt Rs Rb]. split; try done. intros b. pose proof (Rb b). lia. }
    unfold write_val_mem. rewrite Em. cbn. rewrite (do_ref_ok _ _ n); [|rewrite counter_kind; destruct u; cbn; lia|done]. cbn.
    eexists. split; [done|]. rewrite decide_True in Hy by (rewrite <- Hm; eauto). subst y.
    eapply (rel_local a); [done|lia|done|done| | | |rewrite !add_counts; destruct u; cbn; lia].
    + intros b Hne. cbn. by rewrite !lookup_insert_ne.
    + intros b w Hne. rewrite count_add, decide_False by congruence. lia.
    + unfold rel_at. rewrite !add_counts. cbn. rewrite !lookup_insert_eq, set_counter_kind, counter_kind. cbn.
      splits; try done; destruct u; cbn; lia.
Qed.

(** ** Removing *)

Lemma destroy_ok a bp s : has_tasks s = true -> breakpoints s !! a = Some bp -> is_Some (memory s !! a) ->
  destroy_breakpoint_at a s = Ok (mkSpace (delete a (breakpoints s)) (<[a:=overwritten_data bp]> (memory s)) true).
Proof.
  intros Ht Hb [v Hv]. unfold destroy_breakpoint_at, write_val_mem. rewrite Ht, Hb. cbn. rewrite Hv.
  unfold set_memory, set_breakpoints. cbn. by rewrite Ht.
Qed.

Lemma remove_counts a u x p v : count a v (mkAbs p (refs x ∖ {[+ (a, u) +]})) = Z.max 0 (count a v x - (if Bool.eqb u v then 1 else 0)).
Proof. rewrite count_remove. destruct u, v; case_decide; cbn; congruence || lia. Qed.

Lemma do_unref_ok u bp n : 1 <= counter (kind u) bp -> internal_count bp + user_count bp <= n -> n < U32 ->
  do_unref (kind u) bp =
  Ok (internal_count bp + user_count bp - 1,
      mkBreakpoint (if u then internal_count bp else internal_count bp - 1)
                   (if u then user_count bp - 1 else user_count bp) (overwritten_data bp)).
Proof.
  rewrite counter_kind. intros H1 H2 Hn. unfold do_unref, checked_sub, add_u32. rewrite counter_kind.
  rewrite (proj2 (Z.leb_le _ _)) by done. cbn [mbind res_bind]. rewrite set_counter_kind. cbn [internal_count user_count].
  rewrite (proj2 (Z.ltb_lt _ _)) by (destruct u; lia). cbn [mbind res_bind]. destruct u; do 2 f_equal; lia.
Qed.

Lemma remove_rel a u n s x : rel n s x -> n < U32 -> valid (Remove a u) x ->
  exists s', exec_op (Remove a u) s = Ok s' /\ rel n s' (abs_step (Remove a u) x).
Proof.
  intros R Hn Hv. pose proof (rel_each _ _ _ R a) as Ra. pose proof (rel_bound _ _ _ R a) as Hb.
  pose proof (count_nonneg a false x). pose proof (count_nonneg a true x).
  assert (forall b v, b <> a -> count b v (mkAbs (program x) (refs x ∖ {[+ (a, u) +]})) = count b v x) as Hother.
  { intros b v Hne. rewrite count_remove, decide_False by congruence. pose proof (count_nonneg b v x). lia. }
  assert (count a false (mkAbs (program x) (refs x ∖ {[+ (a, u) +]})) + count a true (mkAbs (program x) (refs x ∖ {[+ (a, u) +]})) <= n).
  { rewrite !remove_counts. destruct u; cbn [Bool.eqb]; lia. }
  remember (abs_step (Remove a u) x) as y eqn:Hy. cbn [abs_step] in Hy.
  cbn [exec_op]. unfold remove_breakpoint. unfold rel_at in Ra.
  destruct (breakpoints s !! a) as [bp|] eqn:E.
  2:{ eexists. split; [done|]. subst y. eapply (rel_local a); [done|lia|done|done|done|done| |done].
      unfold rel_at. rewrite E, !remove_counts. split; [easy|destruct u; cbn [Bool.eqb]; lia]. }
  destruct Ra as (Hm & Hp & Hi & Hu & Hpos).
  assert (1 <= counter (kind u) bp).
  { rewrite counter_kind. destruct Hv as [Hv|Hv]; [apply count_elem in Hv; destruct u; lia|].
    pose proof (Hv false). pose proof (Hv true). rewrite count_elem in *. destruct u; lia. }
  rewrite (do_unref_ok _ _ n) by (done || lia). cbn [mbind res_bind fst snd].
  destruct (Z.eqb_spec (internal_count bp + user_count bp - 1) 0) as [Hz|Hz]; rewrite counter_kind in *.
  - erewrite destroy_ok; [|by apply R|by apply lookup_insert_eq|by eauto]. cbn. eexists. split; [done|]. subst y.
    eapply (rel_local a); [done|lia|symmetry; by apply R|done| |done| |done].
    + intros b Hne. cbn. by rewrite lookup_delete_ne, !lookup_insert_ne.
    + unfold rel_at. rewrite !remove_counts. cbn. rewrite lookup_delete_eq, lookup_insert_eq. split; [done|].
      destruct u; cbn; lia.
  - eexists. split; [done|]. subst y. eapply (rel_local a); [done|lia|done|done| |done| |done].
    + intros b Hne. cbn. by rewrite lookup_insert_ne.
    + unfold rel_at. rewrite !remove_counts. cbn. rewrite lookup_insert_eq. cbn. splits; try done; destruct u; cbn; lia.
Qed.

(** ** The data of the trace *)

Lemma write_bytes_ok data addr s : mapped addr (Z.of_nat (length data)) (memory s) ->
  write_bytes addr data s = Ok (set_memory (write_map addr data (memory s)) s).
Proof. intros H. unfold write_bytes. by rewrite write_mem_ok. Qed.

(** What the update makes of one address. *)
Definition updated (addr len : Z) (l : list (Z * Breakpoint)) (s s' : Space) (a : Z) : Prop :=
  match (list_to_map l : gmap Z Breakpoint) !! a with
  | Some bp =>
      if decide (addr <= a < addr + len) then
        exists v, memory s !! a = Some v /\ memory s' !! a = Some BREAKPOINT_INSN /\
          breakpoints s' !! a = Some (mkBreakpoint (internal_count bp) (user_count bp) v)
      else memory s' !! a = memory s !! a /\ breakpoints s' !! a = breakpoints s !! a
  | None => memory s' !! a = memory s !! a /\ breakpoints s' !! a = breakpoints s !! a
  end.

Lemma update_breakpoints_ok addr len l : 0 <= addr -> 0 <= len -> addr + len < 2 ^ 64 -> forall s, NoDup l.*1 ->
  (forall a bp, (a, bp) ∈ l -> addr <= a < addr + len -> is_Some (memory s !! a)) ->
  exists s', update_breakpoints addr len l s = Ok s' /\ has_tasks s' = has_tasks s /\ forall a, updated addr len l s s' a.
Proof.
  intros Ha Hl Hlen. induction l as [|[b bp] l IH]; intros s Hnd Hm; cbn [update_breakpoints].
  { exists s. splits; done. }
  apply NoDup_cons in Hnd as [Hb Hnd]. unfold wrap. rewrite Z.mod_small by lia.
  destruct ((addr <=? b) && (b <? addr + len)) eqn:E.
  - destruct (Hm b bp) as [v Hv]; [left|lia|]. rewrite Hv. cbn [mbind res_bind]. unfold write_val_mem.
    cbn [memory set_breakpoints]. rewrite Hv. cbn [mbind res_bind].
    match goal with |- context [update_breakpoints _ _ l ?s1] => destruct (IH s1) as (s' & Hs' & Ht & Hu); [done| |] end.
    { intros a bp' Hin Hr. cbn. destruct (decide (a = b)) as [->|]; [by rewrite lookup_insert_eq; eauto|].
      rewrite lookup_insert_ne by done. eapply Hm; [by right|done]. }
    exists s'. split; [exact Hs'|]. split; [done|]. intros a. pose proof (Hu a) as H. unfold updated in *.
    cbn [list_to_map foldr fst snd curry] in *. destruct (decide (a = b)) as [->|Hne].
    + rewrite lookup_insert_eq, decide_True by lia. rewrite not_elem_of_list_to_map_1 in H by done.
      destruct H as [H1 H2]. exists v. rewrite H1, H2. cbn. by rewrite !lookup_insert_eq.
    + rewrite lookup_insert_ne by done. cbn [memory breakpoints set_memory set_breakpoints] in H.
      rewrite !(lookup_insert_ne _ b a) in H by done. exact H.
  - destruct (IH s Hnd) as (s' & Hs' & Ht & Hu); [intros a bp' Hin; apply (Hm a bp'); by right|].
    exists s'. splits; [done|done|]. intros a. pose proof (Hu a) as H. unfold updated in *.
    cbn [list_to_map foldr fst snd curry] in *. destruct (decide (a = b)) as [->|Hne].
    + rewrite lookup_insert_eq, decide_False by lia. by rewrite not_elem_of_list_to_map_1 in H.
    + by rewrite lookup_insert_ne.
Qed.

Lemma data_range x addr (data : list Z) : user_space (program x) -> data <> [] ->
  (forall i, 0 <= i < Z.of_nat (length data) -> is_Some (program x !! (addr + i))) ->
  0 <= addr /\ addr + Z.of_nat (length data) <= 2 ^ 47.
Proof.
  intros Hs Hne H. destruct data as [|v data]; [done|]. cbn [length] in *.
  pose proof (Hs _ (H 0 ltac:(lia))). pose proof (Hs _ (H (Z.of_nat (length data)) ltac:(lia))). lia.
Qed.

Lemma data_rel addr data n s x : rel n s x -> valid (Data addr data) x ->
  exists s', exec_op (Data addr data) s = Ok s' /\ rel n s' (abs_step (Data addr data) x).
Proof.
  intros R Hv. cbn [exec_op abs_step valid] in *. unfold set_data_from_trace.
  destruct (Z.eqb_spec addr 0) as [->|Hne]; [by exists s|]. specialize (Hv Hne). cbn [negb andb].
  destruct (decide (data = [])) as [->|Hd]; [exists s; by destruct x|]. rewrite bool_decide_false by done. cbn [negb].
  destruct (data_range _ _ _ (rel_space _ _ _ R) Hd Hv) as [H0 H47].
  assert (mapped addr (Z.of_nat (length data)) (memory s)) as Hm.
  { intros a Ha. apply (rel_mapped n s x); [done|]. replace a with (addr + (a - addr)) by lia. apply Hv. lia. }
  rewrite write_bytes_ok by done. cbn [mbind res_bind]. unfold maybe_update_breakpoints. cbn [breakpoints set_memory].
  destruct (update_breakpoints_ok addr (Z.of_nat (length data)) (map_to_list (breakpoints s))
    ltac:(done) ltac:(lia) ltac:(lia) (set_memory (write_map addr data (memory s)) s))
    as (s' & Hs' & Ht & Hu); [apply NoDup_fst_map_to_list| |].
  { intros a bp _ Hr. cbn [memory set_memory]. rewrite write_map_lookup, decide_True by done. apply lookup_lt_is_Some. lia. }
  exists s'. split; [exact Hs'|]. destruct R as [Re Rt Rs Rb]. split; [|by rewrite Ht| |done].
  - intros a. pose proof (Re a) as Ra. pose proof (Hu a) as Ha. unfold updated, rel_at in *.
    rewrite list_to_map_to_list in Ha. cbn [memory breakpoints set_memory program] in *.
    unfold count in *. cbn [refs] in *. rewrite write_map_lookup in *.
    destruct (breakpoints s !! a) as [bp|] eqn:E.
    + destruct Ra as (? & ? & ? & ? & ?). case_decide as Hr.
      * destruct Ha as (v & Hv1 & Hv2 & ->). done.
      * destruct Ha as [-> ->]. done.
    + destruct Ra as (Hma & ? & ?). destruct Ha as [-> ->]. case_decide; done.
  - intros a. cbn [program]. rewrite write_map_lookup. case_decide; [lia|apply Rs].
Qed.

(** ** Reading *)

Lemma read_bytes_end n addr m : user_space m -> 0 <= addr ->
  read_bytes n addr m = [] \/ addr + Z.of_nat (length (read_bytes n addr m)) <= 2 ^ 47.
Proof.
  intros Hs H0. destruct (read_bytes n addr m) as [|v l] eqn:E; [by left|right]. rewrite <- E.
  pose proof (read_bytes_spec n addr m (length l)) as H. rewrite decide_True in H by (rewrite E; cbn; lia).
  rewrite E in *. cbn [length]. destruct (Hs (addr + Z.of_nat (length l))); [|lia].
  rewrite <- H. apply lookup_lt_is_Some. cbn. lia.
Qed.

Lemma replace_one_lookup addr dest a bp i : 0 <= addr < 2 ^ 64 -> 0 <= a < 2 ^ 47 ->
  dest = [] \/ addr + Z.of_nat (length dest) <= 2 ^ 47 -> (i < length dest)%nat ->
  replace_one addr dest (a, bp) !! i = if decide (a = addr + Z.of_nat i) then Some (overwritten_data bp) else dest !! i.
Proof.
  intros Ha Hb Hd Hi. destruct Hd as [->|Hd]; [cbn in Hi; lia|]. unfold replace_one, wrap, data_length.
  cbn [fst snd]. rewrite !Z.mod_small by lia. destruct (Z.ltb_spec (Z.max addr a) (Z.min (addr + Z.of_nat (length dest)) (a + 1))).
  - rewrite list_lookup_insert. repeat case_decide; done || lia.
  - case_decide; [lia|done].
Qed.

Lemma replace_one_length addr dest kv : length (replace_one addr dest kv) = length dest.
Proof. unfold replace_one. case_match; [apply length_insert|done]. Qed.

Lemma replace_all_lookup addr l : 0 <= addr < 2 ^ 64 -> forall dest i, NoDup l.*1 ->
  (forall a bp, (a, bp) ∈ l -> 0 <= a < 2 ^ 47) ->
  dest = [] \/ addr + Z.of_nat (length dest) <= 2 ^ 47 -> (i < length dest)%nat ->
  foldl (replace_one addr) dest l !! i =
  match (list_to_map l : gmap Z Breakpoint) !! (addr + Z.of_nat i) with Some bp => Some (overwritten_data bp) | None => dest !! i end.
Proof.
  intros Ha. induction l as [|[b bp] l IH]; intros dest i Hnd Hl Hd Hi; [done|].
  apply NoDup_cons in Hnd as [Hb Hnd]. cbn [foldl]. pose proof (Hl b bp ltac:(left)).
  pose proof (replace_one_length addr dest (b, bp)) as Hlen.
  rewrite IH; [|done|intros; eapply Hl; by right| |by rewrite Hlen].
  2:{ rewrite Hlen. destruct dest; [by cbn in Hi; lia|]. destruct Hd as [|Hd]; [done|by right]. }
  rewrite replace_one_lookup by done. cbn [list_to_map foldr fst snd].
  destruct (decide (b = addr + Z.of_nat i)) as [<-|Hne].
  - by rewrite lookup_insert_eq, not_elem_of_list_to_map_1.
  - by rewrite lookup_insert_ne.
Qed.

Lemma replace_all_length addr l : forall dest, length (foldl (replace_one addr) dest l) = length dest.
Proof. induction l as [|kv l IH]; intros dest; cbn; [done|]. by rewrite IH, replace_one_length. Qed.

Lemma replaced_program n s x addr len : rel n s x -> 0 <= addr < 2 ^ 64 ->
  replace_breakpoints_with_original_values (read_bytes len addr (memory s)) addr s = read_bytes len addr (program x).
Proof.
  intros R Ha. assert (user_space (memory s)) as Hs.
  { intros a. rewrite (rel_mapped _ _ _ _ R). apply R. }
  unfold replace_breakpoints_with_original_values.
  assert (length (read_bytes len addr (memory s)) = length (read_bytes len addr (program x))) as Hlen.
  { apply read_bytes_length. intros a. by apply (rel_mapped n). }
  apply list_eq. intros i. destruct (decide (i < length (read_bytes len addr (memory s)))%nat) as [Hi|Hi].
  2:{ rewrite !lookup_ge_None_2; [done|lia|rewrite replace_all_length; lia]. }
  rewrite replace_all_lookup; [|done|apply NoDup_fst_map_to_list| |by apply read_bytes_end; [|lia]|done].
  - rewrite list_to_map_to_list, !read_bytes_spec, decide_True, decide_True by lia.
    pose proof (rel_each _ _ _ R (addr + Z.of_nat i)) as Ra. unfold rel_at in Ra.
    destruct (breakpoints s !! _); [by destruct Ra as (_ & -> & _)|by destruct Ra as (-> & _)].
  - intros a bp Hin. apply elem_of_map_to_list in Hin. apply Hs.
    pose proof (rel_each _ _ _ R a) as Ra. unfold rel_at in Ra. rewrite Hin in Ra. destruct Ra as [-> _]. eauto.
Qed.

(** A task whose stack is in memory. *)
Definition target_ok (t : Target) : Prop := 0 <= sp t /\ 0 < word_size t /\ sp t + word_size t < 2 ^ 64.

(** What the debugger sees of bytes read at [addr]: the word at the top of the stack is
    zero while the task executes code of rd, when all of it is read. *)
Definition seen_by_debugger (t : Target) (addr : Z) (l : list Z) : list Z :=
  if in_patch_stubs t && (addr <=? sp t) && (sp t + word_size t <=? addr + Z.of_nat (length l))
  then imap (fun i b => if (sp t <=? addr + Z.of_nat i) && (addr + Z.of_nat i <? sp t + word_size t) then 0 else b) l
  else l.

Lemma zero_word (l : list Z) o w : 0 <= o -> 0 < w -> o + w <= Z.of_nat (length l) ->
  take (Z.to_nat o) l ++ replicate (Z.to_nat w) 0 ++ drop (Z.to_nat (o + w)) l
  = imap (fun i b => if (o <=? Z.of_nat i) && (Z.of_nat i <? o + w) then 0 else b) l.
Proof.
  intros Ho Hw Hl. apply list_eq. intros i. rewrite list_lookup_imap.
  destruct (Z.leb_spec o (Z.of_nat i)), (Z.ltb_spec (Z.of_nat i) (o + w)); cbn.
  - rewrite lookup_app_r by (rewrite length_take; lia). rewrite lookup_app_l by (rewrite length_take, length_replicate; lia).
    rewrite lookup_replicate_2 by (rewrite length_take; lia). destruct (lookup_lt_is_Some_2 l i) as [b ->]; [lia|done].
  - rewrite lookup_app_r by (rewrite length_take; lia). rewrite lookup_app_r by (rewrite length_take, length_replicate; lia).
    rewrite lookup_drop, length_take, length_replicate. replace (Z.to_nat (o + w) + _)%nat with i by lia. by destruct (l !! i).
  - rewrite lookup_app_l by (rewrite length_take; lia). rewrite lookup_take_lt by lia. by destruct (l !! i).
  - lia.
Qed.

Lemma get_mem_program n s x t addr len : rel n s x -> 0 <= addr < 2 ^ 64 -> target_ok t ->
  get_mem t addr len s = Ok (seen_by_debugger t addr (read_bytes len addr (program x))).
Proof.
  intros R Ha (Hsp & Hw & Hb). unfold get_mem. rewrite (replaced_program n s x addr len R Ha). unfold maybe_intercept_mem_request, seen_by_debugger.
  set (l := read_bytes len addr (program x)). rewrite (wrap_small 64 (sp t + word_size t)) by lia.
  destruct (Z.leb_spec addr (sp t)) as [Hle|]; cbn; [|by rewrite andb_false_r].
  destruct (in_patch_stubs t); cbn; rewrite ?andb_true_r, ?andb_false_r; [|done].
  destruct (decide (length l = O)) as [E0|Hne].
  { rewrite E0, Z.add_0_r, wrap_small by lia. destruct (Z.leb_spec (sp t + word_size t) addr); [lia|done]. }
  destruct (read_bytes_end len addr (program x) (rel_space _ _ _ R) ltac:(lia)) as [Hend|Hend]; fold l in Hend; [by rewrite Hend in Hne|].
  rewrite (wrap_small 64 (addr + _)) by lia.
  destruct (Z.leb_spec (sp t + word_size t) (addr + Z.of_nat (length l))); [|done].
  rewrite (proj2 (Z.leb_le _ _)) by lia. f_equal. rewrite zero_word by lia. apply imap_ext. intros i b _. cbn.
  destruct (Z.leb_spec (sp t - addr) (Z.of_nat i)), (Z.leb_spec (sp t) (addr + Z.of_nat i)), (Z.ltb_spec (Z.of_nat i) (sp t - addr + word_size t)),
    (Z.ltb_spec (addr + Z.of_nat i) (sp t + word_size t)); (done || lia).
Qed.

(** ** Removing all *)

Lemma destroy_all_ok l : forall s, NoDup l -> has_tasks s = true ->
  (forall a, a ∈ l -> is_Some (breakpoints s !! a) /\ is_Some (memory s !! a)) ->
  exists s', destroy_all l s = Ok s' /\ has_tasks s' = true /\ forall a,
    breakpoints s' !! a = (if decide (a ∈ l) then None else breakpoints s !! a) /\
    memory s' !! a = (if decide (a ∈ l) then overwritten_data <$> breakpoints s !! a else memory s !! a).
Proof.
  induction l as [|b l IH]; intros s Hnd Ht Hl; cbn [destroy_all].
  { by exists s. }
  apply NoDup_cons in Hnd as [Hb Hnd]. destruct (Hl b) as [[bp Hbp] Hm]; [left|].
  rewrite (destroy_ok _ _ _ Ht Hbp Hm). cbn [mbind res_bind].
  match goal with |- context [destroy_all l ?s1] => destruct (IH s1 Hnd) as (s' & Hs' & Ht' & Ha); [done| |] end.
  { intros a Hin. destruct (decide (a = b)) as [->|Hne]; [done|]. cbn [breakpoints memory].
    rewrite lookup_delete_ne, lookup_insert_ne by done. apply Hl. by right. }
  exists s'. splits; [done|done|]. intros a. destruct (Ha a) as [-> ->]. cbn [breakpoints memory].
  destruct (decide (a = b)) as [->|Hne].
  - rewrite (decide_True (P := b ∈ b :: l)), (decide_True (P := b ∈ b :: l)) by left.
    rewrite !(decide_False (P := b ∈ l)) by done. by rewrite lookup_delete_eq, lookup_insert_eq, Hbp.
  - rewrite lookup_delete_ne, lookup_insert_ne by done.
    assert (a ∈ b :: l <-> a ∈ l) as Hiff by (rewrite elem_of_cons; naive_solver).
    by rewrite !(decide_ext _ _ _ _ Hiff).
Qed.

Lemma remove_all_rel n s x : rel n s x -> remove_all_breakpoints s = Ok (mkSpace ∅ (program x) true).
Proof.
  intros R. unfold remove_all_breakpoints.
  assert (forall a, a ∈ (map_to_list (breakpoints s)).*1 <-> is_Some (breakpoints s !! a)) as Hin.
  { intros a. rewrite list_elem_of_fmap. split.
    - intros ([b bp] & -> & H%elem_of_map_to_list). cbn. eauto.
    - intros [bp H%elem_of_map_to_list]. by exists (a, bp). }
  destruct (destroy_all_ok (map_to_list (breakpoints s)).*1 s) as (s' & Hs' & Ht & Ha).
  - apply NoDup_fst_map_to_list.
  - apply R.
  - intros a Ha%Hin. split; [done|]. pose proof (rel_each _ _ _ R a) as Ra. unfold rel_at in Ra.
    destruct Ha as [bp Hbp]. rewrite Hbp in Ra. destruct Ra as [-> _]. eauto.
  - change (map fst (map_to_list (breakpoints s))) with ((map_to_list (breakpoints s)).*1). rewrite Hs'. f_equal.
    destruct s' as [b' m' t']. cbn [breakpoints memory has_tasks] in *. f_equal; [| |done]; apply map_eq; intros a; destruct (Ha a) as [H1 H2].
    + rewrite H1, lookup_empty. case_decide as H; [done|]. rewrite Hin in H. by apply eq_None_not_Some.
    + rewrite H2. pose proof (rel_each _ _ _ R a) as Ra. unfold rel_at in Ra. case_decide as H; rewrite Hin in H.
      * destruct H as [bp Hbp]. rewrite Hbp in *. by destruct Ra as (_ & -> & _).
      * apply eq_None_not_Some in H. rewrite H in Ra. apply Ra.
Qed.

(** ** Sequences *)

Lemma exec_rel op n s x : rel n s x -> n + 1 < U32 -> valid op x ->
  exists s', exec_op op s = Ok s' /\ rel (n + 1) s' (abs_step op x).
Proof.
  intros R Hn Hv. destruct op as [a u|a u|addr data].
  - by apply add_rel.
  - destruct (remove_rel a u n s x R ltac:(lia) Hv) as (s' & Hs & [? ? ? Hb]). exists s'. split; [done|].
    split; try done. intros b. pose proof (Hb b). lia.
  - destruct (data_rel addr data n s x R Hv) as (s' & Hs & [? ? ? Hb]). exists s'. split; [done|].
    split; try done. intros b. pose proof (Hb b). lia.
Qed.

Lemma run_rel ops : forall n s x, rel n s x -> n + Z.of_nat (length ops) < U32 -> valid_run ops x ->
  exists s', run_ops ops s = Ok s' /\ rel (n + Z.of_nat (length ops)) s' (abs_run ops x).
Proof.
  induction ops as [|op ops IH]; intros n s x R Hn Hv; cbn [run_ops abs_run length] in *.
  { exists s. split; [done|]. by rewrite Z.add_0_r. }
  destruct Hv as [Hv Hvs]. destruct (exec_rel op n s x R ltac:(lia) Hv) as (s1 & -> & R1). cbn [mbind res_bind].
  destruct (IH _ _ _ R1 ltac:(lia) Hvs) as (s' & Hs & R'). exists s'. split; [done|].
  by replace (n + Z.of_nat (S (length ops))) with (n + 1 + Z.of_nat (length ops)) by lia.
Qed.

Lemma rel_initial m : user_space m -> rel 0 (mkSpace ∅ m true) (mkAbs m ∅).
Proof.
  intros Hs. by split.
Qed.

Lemma rel_type n s x a : rel n s x -> get_breakpoint_type_at_addr a s = type_of a x.
Proof.
  intros R. pose proof (rel_each _ _ _ R a) as Ra. unfold rel_at, get_breakpoint_type_at_addr, type_of, bp_type in *.
  destruct (breakpoints s !! a) as [bp|].
  - destruct Ra as (_ & _ & Hi & Hu & Hpos). rewrite <- Hi, <- Hu. destruct (Z.ltb_spec 0 (user_count bp)); [done|].
    pose proof (count_nonneg a true x). by rewrite (proj2 (Z.ltb_lt _ _)) by lia.
  - by destruct Ra as (_ & -> & ->).
Qed.

Lemma rel_trap n s x a : rel n s x ->
  memory s !! a = if decide (type_of a x = BkptNone) then program x !! a else Some BREAKPOINT_INSN.
Proof.
  intros R. rewrite <- (rel_type n s x a R). pose proof (rel_each _ _ _ R a) as Ra.
  unfold rel_at, get_breakpoint_type_at_addr, bp_type in *. destruct (breakpoints s !! a) as [bp|].
  - destruct Ra as (-> & _). by destruct (0 <? user_count bp).
  - by destruct Ra as (-> & _).
Qed.

(** C7: Breakpoints are transparent. Start without breakpoints, and take and give back
    references and apply data of the trace in any order, fewer than [2 ^ 32] times. No
    operation panics; the trap instruction is exactly where a reference is left, with the
    type a user reference has before an internal one; the debugger reads the program with
    the data of the trace in it, as if there were no breakpoints, but for the word at the
    top of the stack while the task executes code of rd, which reads as zero; and removing
    all breakpoints leaves just that in memory.  The memory of the program is below
    [2 ^ 47], references are given back by those who took them, and the data of the trace
    is for mapped memory.  Writes of the debugger are not among the operations: they lose
    breakpoints ([debugger_write_loses_breakpoint]). *)
Theorem breakpoints_transparent ops m :
  user_space m -> Z.of_nat (length ops) < U32 -> valid_run ops (mkAbs m ∅) ->
  exists s, run_ops ops (mkSpace ∅ m true) = Ok s /\
    let x := abs_run ops (mkAbs m ∅) in
    (forall t addr len, target_ok t -> 0 <= addr < 2 ^ 64 ->
       get_mem t addr len s = Ok (seen_by_debugger t addr (read_bytes len addr (program x)))) /\
    (forall a, get_breakpoint_type_at_addr a s = type_of a x) /\
    (forall a, memory s !! a = if decide (type_of a x = BkptNone) then program x !! a else Some BREAKPOINT_INSN) /\
    remove_all_breakpoints s = Ok (mkSpace ∅ (program x) true).
Proof.
  intros Hm Hn Hv. destruct (run_rel ops 0 _ _ (rel_initial m Hm) ltac:(lia) Hv) as (s & Hs & R).
  exists s. split; [done|]. cbv zeta. splits.
  - intros t addr len Ht Ha. by eapply get_mem_program.
  - intros a. by eapply rel_type.
  - intros a. by eapply rel_trap.
  - by eapply remove_all_rel.
Qed.

Definition code_bytes : gmap Z Z := list_to_map [(0x1000, 0x55); (0x1001, 0x90); (0x1002, 0xC3)].

Definition breakpoints_ops : list Op :=
  [Add 0x1001 false; Add 0x1001 true; Data 0x1000 [0x53; 0x5B]; Remove 0x1001 true; Add 0x2000 true].

Lemma breakpoints_transparent_witness :
  exists s, run_ops breakpoints_ops (mkSpace ∅ code_bytes true) = Ok s /\ get_mem (mkTarget 0x1002 1 true) 0x1000 16 s = Ok [0x53; 0x5B; 0] /\
    get_breakpoint_type_at_addr 0x1001 s = BkptInternal.
Proof.
  destruct (breakpoints_transparent breakpoints_ops code_bytes) as (s & Hs & H1 & H2 & _).
  - intros a [v Hv]. unfold code_bytes in Hv. apply elem_of_list_to_map_2 in Hv.
    repeat (apply elem_of_cons in Hv as [[= -> ->]|Hv]; [lia|]). by apply elem_of_nil in Hv.
  - reflexivity.
  - cbn -[program refs]. splits; try done.
    + intros _ i Hi. cbn in Hi. assert (i = 0 \/ i = 1) as [->| ->] by lia; vm_compute; eauto.
    + left. vm_compute. lia.
  - exists s. split; [exact Hs|]. split; [rewrite H1 by (done || lia); reflexivity|rewrite H2; reflexivity].
Defined.

(** ** Behaviours outside the contract *)

(** A reference of the other type is not there to be given back: the counter is
    unsigned. *)
Lemma remove_other_type_panics :
  (s ← run_ops [Add 0x1001 false] (mkSpace ∅ code_bytes true); remove_breakpoint 0x1001 BkptUser s) = Panic.
Proof. reflexivity. Qed.

(** Unlike the data of the trace, what the debugger writes removes the trap instruction
    of a breakpoint, and a read still returns the byte from before. *)
Lemma debugger_write_loses_breakpoint :
  exists s, (s ← run_ops [Add 0x1001 true] (mkSpace ∅ code_bytes true); set_mem 0x1001 [0xC3] s) = Ok s /\
    get_breakpoint_type_at_addr 0x1001 s = BkptUser /\ is_breakpoint_instruction 0x1001 s = false /\
    get_mem (mkTarget 0x3000 8 false) 0x1001 1 s = Ok [0x90].
Proof. eexists. split; [reflexivity|]. splits; reflexivity. Qed.

(** Suspending and restoring a breakpoint changes nothing. *)
Lemma suspend_restore n s x a : rel n s x ->
  (s' ← suspend_breakpoint_at a s; restore_breakpoint_at a s') = Ok s.
Proof.
  intros R. pose proof (rel_each _ _ _ R a) as Ra. pose proof (rel_tasks _ _ _ R) as Ht.
  unfold rel_at, suspend_breakpoint_at, restore_breakpoint_at, any_task, write_val_mem in *.
  destruct (breakpoints s !! a) as [bp|] eqn:E; cbn; [|by rewrite E].
  destruct Ra as (Hm & _). rewrite Ht, Hm. cbn. rewrite E. cbn. rewrite Ht. cbn. rewrite lookup_insert_eq.
  unfold set_memory. cbn. rewrite insert_insert_eq, insert_id by done. by destruct s.
Qed.

End BreakpointProofs.
