(* ===== verification/SyscallState.v ===== *)
(** The memory parameters of a recorded system call: [TaskSyscallState], [MemoryParam]
    and [ParamSize] of [src/src/record_syscall.rs].

    A system call that may block gets its buffers in scratch memory; when it is over the
    results are copied to where the tracee wants them, and what changed is recorded. *)

From S2P Require Import Prelude TraceeMemory.

Module SyscallState.
Import TMem.

(** ** The tracee *)

(** Memory, the six argument registers, the result register as a signed word, and what
    was recorded of memory. *)
Record Tracee := mkTracee { mem : Memory; args : list Z; result : Z; records : list (Z * list Z) }.

Definition set_mem (m : Memory) (t : Tracee) : Tracee := mkTracee m (args t) (result t) (records t).
Definition set_args (a : list Z) (t : Tracee) : Tracee := mkTracee (mem t) a (result t) (records t).
Definition set_result (r : Z) (t : Tracee) : Tracee := mkTracee (mem t) (args t) r (records t).

(** Registers are numbered from 1. *)
Definition arg (a : list Z) (index : Z) : res Z :=
  if (1 <=? index) && (index <=? 6) then unwrap (a !! Z.to_nat (index - 1)) else Panic.

Definition set_arg (index value : Z) (a : list Z) : res (list Z) :=
  if (1 <=? index) && (index <=? 6) then Ok (<[Z.to_nat (index - 1):=value]> a) else Panic.

Definition write (addr : Z) (data : list Z) (t : Tracee) : res Tracee :=
  m ← write_mem addr data (mem t); Ok (set_mem m t).

Definition write_raw (addr : Z) (data : list Z) (t : Tracee) : Tracee :=
  mkTracee (mem t) (args t) (result t) (records t ++ [(addr, data)]).

Definition record_local (addr : Z) (data : list Z) (t : Tracee) : Tracee :=
  if addr =? 0 then t else write_raw addr data t.

Definition record_remote (addr n : Z) (t : Tracee) : res Tracee :=
  if addr =? 0 then Ok t else l ← read_mem addr n (mem t); Ok (write_raw addr l t).

(** ** Sizes of parameters *)

Definition I32_MAX : Z := 2 ^ 31 - 1.

Record ParamSize := mkSize { incoming_size : Z; mem_ptr : Z; read_size : Z; from_syscall : bool }.

Definition default_size : ParamSize := mkSize I32_MAX 0 0 false.
Definition from_usize (siz : Z) : ParamSize := mkSize (Z.min I32_MAX siz) 0 0 false.

(** A 4- or 8-byte value of memory. *)
Definition read_size_val (size p : Z) (t : Tracee) : res Z :=
  if (size =? 4) || (size =? 8) then l ← read_mem p size (mem t); Ok (le_val l) else Fatal.

Definition from_initialized_mem (size p : Z) (t : Tracee) : res ParamSize :=
  v ← (if p =? 0 then Ok 0 else read_size_val size p t);
  Ok (mkSize (incoming_size (from_usize v)) p size false).

Definition from_mem (size p : Z) : ParamSize := mkSize I32_MAX p size false.
Definition from_syscall_result (size : Z) : ParamSize := mkSize I32_MAX 0 size true.
Definition from_syscall_result_with_size (size incoming : Z) : ParamSize :=
  mkSize (incoming_size (from_usize incoming)) 0 size true.

Definition limit_size (max : Z) (s : ParamSize) : ParamSize :=
  mkSize (Z.min (incoming_size s) max) (mem_ptr s) (read_size s) (from_syscall s).

Definition eval (ps : ParamSize) (t : Tracee) (already_consumed : Z) : res Z :=
  let s := incoming_size ps in
  s ← (if negb (mem_ptr ps =? 0) then
         mem_size ← read_size_val (read_size ps) (mem_ptr ps) t;
         if already_consumed <=? mem_size then Ok (Z.min s (mem_size - already_consumed)) else Fatal
       else Ok s);
  if from_syscall ps then
    let syscall_size := Z.max 0 (result t) in
    syscall_size ← (if read_size ps =? 4 then Ok (wrap 32 syscall_size)
                    else if read_size ps =? 8 then Ok syscall_size else Fatal);
    if already_consumed <=? syscall_size then Ok (Z.min s (syscall_size - already_consumed)) else Fatal
  else Ok s.

Definition is_same_source (a b : ParamSize) : bool :=
  ((negb (mem_ptr a =? 0) && (mem_ptr b =? mem_ptr a)) || (from_syscall a && from_syscall b)) && (read_size a =? read_size b).

(** ** Parameters *)

Inductive ArgMode := In_ | Out | InOut | InOutNoScratch.

#[global] Instance ArgMode_eq_dec : EqDecision ArgMode.
Proof. solve_decision. Defined.

Inductive WriteBackMode := WriteBack | NoWriteBack.

#[global] Instance WriteBackMode_eq_dec : EqDecision WriteBackMode.
Proof. solve_decision. Defined.

Inductive Switchable := PreventSwitch | AllowSwitch.

#[global] Instance Switchable_eq_dec : EqDecision Switchable.
Proof. solve_decision. Defined.

(** A mutator is given the address of a parameter and, when the old contents have to be
    kept, the size of the buffer for them; it tells whether it changed something and
    what it kept. *)
Definition ArgMutator : Type := Z -> option Z -> Tracee -> res (bool * list Z * Tracee).

Record MemoryParam := mkParam {
  dest : Z;
  scratch_of : Z;
  num_bytes : ParamSize;
  ptr_in_memory : Z;
  ptr_in_reg : Z;
  mode : ArgMode;
  maybe_mutator : option ArgMutator
}.

Record TaskSyscallState := mkState {
  param_list : list MemoryParam;
  scratch : Z;
  after_syscall_actions : list (Tracee -> res Tracee);
  syscall_entry_args : list Z;
  should_emulate_result : bool;
  emulated_result : Z;
  switchable : Switchable;
  write_back : WriteBackMode;
  preparation_done : bool;
  scratch_enabled : bool;
  saved_data : list Z
}.

(** What of the task does not change: its scratch memory and the size of its words. *)
Record TaskInfo := mkInfo { scratch_ptr : Z; usable_scratch_size : Z; word : nat }.

Definition new : TaskSyscallState := mkState [] 0 [] [] false 0 PreventSwitch NoWriteBack false false [].

Definition set_params (l : list MemoryParam) (s : TaskSyscallState) : TaskSyscallState :=
  mkState l (scratch s) (after_syscall_actions s) (syscall_entry_args s) (should_emulate_result s) (emulated_result s)
    (switchable s) (write_back s) (preparation_done s) (scratch_enabled s) (saved_data s).
Definition set_scratch (p : Z) (s : TaskSyscallState) : TaskSyscallState :=
  mkState (param_list s) p (after_syscall_actions s) (syscall_entry_args s) (should_emulate_result s) (emulated_result s)
    (switchable s) (write_back s) (preparation_done s) (scratch_enabled s) (saved_data s).
Definition set_saved (l : list Z) (s : TaskSyscallState) : TaskSyscallState :=
  mkState (param_list s) (scratch s) (after_syscall_actions s) (syscall_entry_args s) (should_emulate_result s) (emulated_result s)
    (switchable s) (write_back s) (preparation_done s) (scratch_enabled s) l.
Definition set_enabled (b : bool) (s : TaskSyscallState) : TaskSyscallState :=
  mkState (param_list s) (scratch s) (after_syscall_actions s) (syscall_entry_args s) (should_emulate_result s) (emulated_result s)
    (switchable s) (write_back s) (preparation_done s) b (saved_data s).
Definition set_switchable (w : Switchable) (s : TaskSyscallState) : TaskSyscallState :=
  mkState (param_list s) (scratch s) (after_syscall_actions s) (syscall_entry_args s) (should_emulate_result s) (emulated_result s)
    w (write_back s) (preparation_done s) (scratch_enabled s) (saved_data s).

Definition init (i : TaskInfo) (s : TaskSyscallState) : TaskSyscallState :=
  if preparation_done s then s else set_scratch (scratch_ptr i) s.

(** [rec_prepare_syscall_arch] keeps the registers the system call was entered with. *)
Definition set_entry_args (a : list Z) (s : TaskSyscallState) : TaskSyscallState :=
  mkState (param_list s) (scratch s) (after_syscall_actions s) a (should_emulate_result s) (emulated_result s)
    (switchable s) (write_back s) (preparation_done s) (scratch_enabled s) (saved_data s).

Definition align_scratch (p amount : Z) : res Z :=
  a ← checked_add p amount; b ← checked_sub a 1;
  Ok (Z.land b (Z.lxor (2 ^ 64 - 1) (amount - 1))).

Definition no_mutator (m : option ArgMutator) : bool := match m with None => true | Some _ => false end.

(** The scratch area of a new parameter of [n] bytes. *)
Definition allocate_scratch (n : Z) (s : TaskSyscallState) : res TaskSyscallState :=
  p ← align_scratch (wrap 64 (scratch s + n)) 8; Ok (set_scratch p s).

Definition reg_parameter_with_size (index : Z) (size : ParamSize) (maybe_mode : option ArgMode) (mutator : option ArgMutator)
    (s : TaskSyscallState) : res (Z * TaskSyscallState) :=
  let mode := default Out maybe_mode in
  if preparation_done s then Ok (0, s)
  else
    dest ← arg (syscall_entry_args s) index;
    if dest =? 0 then Ok (0, s)
    else
      _ ← assert_ (no_mutator mutator || bool_decide (mode = In_));
      if decide (mode = InOutNoScratch) then
        Ok (dest, set_params (param_list s ++ [mkParam dest 0 size 0 0 mode mutator]) s)
      else
        let p := mkParam dest (scratch s) size 0 index mode mutator in
        s ← allocate_scratch (incoming_size size) s;
        Ok (dest, set_params (param_list s ++ [p]) s).

Definition reg_parameter (type_size index : Z) (maybe_mode : option ArgMode) (mutator : option ArgMutator) (s : TaskSyscallState) :=
  reg_parameter_with_size index (from_usize type_size) maybe_mode mutator s.

Section Task.
Context (i : TaskInfo).

Definition set_remote_ptr (addr value : Z) (t : Tracee) : res Tracee := write addr (le_bytes (word i) value) t.

Definition get_remote_ptr (addr : Z) (t : Tracee) : res Z :=
  l ← read_mem addr (Z.of_nat (word i)) (mem t); Ok (le_val l).

Definition mem_ptr_parameter_with_size (t : Tracee) (addr_of_buf_ptr : Z) (size : ParamSize) (maybe_mode : option ArgMode)
    (mutator : option ArgMutator) (s : TaskSyscallState) : res (Z * TaskSyscallState) :=
  let mode := default Out maybe_mode in
  if preparation_done s || (addr_of_buf_ptr =? 0) then Ok (0, s)
  else
    dest ← get_remote_ptr addr_of_buf_ptr t;
    if dest =? 0 then Ok (0, s)
    else
      _ ← (if no_mutator mutator || bool_decide (mode = In_) then Ok tt else Fatal);
      if decide (mode = InOutNoScratch) then
        Ok (dest, set_params (param_list s ++ [mkParam dest 0 size 0 0 mode mutator]) s)
      else
        let p := mkParam dest (scratch s) size addr_of_buf_ptr 0 mode mutator in
        s ← allocate_scratch (incoming_size size) s;
        Ok (dest, set_params (param_list s ++ [p]) s).

Definition mem_ptr_parameter (t : Tracee) (type_size addr_of_buf_ptr : Z) (maybe_mode : option ArgMode) (mutator : option ArgMutator)
    (s : TaskSyscallState) :=
  mem_ptr_parameter_with_size t addr_of_buf_ptr (from_usize type_size) maybe_mode mutator s.

Definition after_syscall_action (a : Tracee -> res Tracee) (s : TaskSyscallState) : TaskSyscallState :=
  mkState (param_list s) (scratch s) (after_syscall_actions s ++ [a]) (syscall_entry_args s) (should_emulate_result s)
    (emulated_result s) (switchable s) (write_back s) (preparation_done s) (scratch_enabled s) (saved_data s).

Definition emulate_result (r : Z) (s : TaskSyscallState) : res TaskSyscallState :=
  _ ← assert_ (negb (preparation_done s));
  _ ← assert_ (negb (should_emulate_result s));
  Ok (mkState (param_list s) (scratch s) (after_syscall_actions s) (syscall_entry_args s) true r
    (switchable s) (write_back s) (preparation_done s) (scratch_enabled s) (saved_data s)).

(** ** Preparing *)

Definition contains (ptr : Z) (p : MemoryParam) : bool :=
  (dest p <=? ptr) && (ptr <? wrap 64 (dest p + incoming_size (num_bytes p))).

Definition relocate_pointer_to_scratch (l : list MemoryParam) (ptr : Z) : res Z :=
  let found := List.filter (contains ptr) l in
  _ ← assert_ (1 <=? Z.of_nat (length found));
  _ ← assert_ (Z.of_nat (length found) <=? 1);
  match last found with
  | Some p => Ok (wrap 64 (scratch_of p + wrap 64 (ptr - dest p)))
  | None => Ok 0
  end.

(** Step 1: the inputs. *)
Fixpoint copy_inputs (l : list MemoryParam) (t : Tracee) : res Tracee :=
  match l with
  | [] => Ok t
  | p :: l =>
      t ← (if bool_decide (mode p = InOut) || bool_decide (mode p = In_) then
             buf ← read_mem (dest p) (incoming_size (num_bytes p)) (mem t);
             write (scratch_of p) buf t
           else Ok t);
      copy_inputs l t
  end.

(** Step 2: the pointers, in registers [r], in memory, and to sizes; [all] are the
    parameters, [l] those left. *)
Fixpoint relocate (all l : list MemoryParam) (r : list Z) (t : Tracee) : res (list MemoryParam * list Z * Tracee) :=
  match l with
  | [] => Ok ([], r, t)
  | p :: l =>
      r ← (if negb (ptr_in_reg p =? 0) then set_arg (ptr_in_reg p) (scratch_of p) r else Ok r);
      t ← (if negb (ptr_in_memory p =? 0) then
             q ← relocate_pointer_to_scratch all (ptr_in_memory p);
             set_remote_ptr q (scratch_of p) t
           else Ok t);
      n ← (if negb (mem_ptr (num_bytes p) =? 0) then
             q ← relocate_pointer_to_scratch all (mem_ptr (num_bytes p));
             Ok (mkSize (incoming_size (num_bytes p)) q (read_size (num_bytes p)) (from_syscall (num_bytes p)))
           else Ok (num_bytes p));
      x ← relocate all l r t;
      let '(l', r, t) := x in
      Ok (mkParam (dest p) (scratch_of p) n (ptr_in_memory p) (ptr_in_reg p) (mode p) (maybe_mutator p) :: l', r, t)
  end.

Definition done_preparing_internal (sw : Switchable) (s : TaskSyscallState) (t : Tracee) : res (TaskSyscallState * Tracee) :=
  if preparation_done s then Fatal
  else
    let s := mkState (param_list s) (scratch s) (after_syscall_actions s) (syscall_entry_args s) (should_emulate_result s)
               (emulated_result s) sw WriteBack true (scratch_enabled s) (saved_data s) in
    if scratch_ptr i =? 0 then Ok (s, t)
    else if scratch s <? scratch_ptr i then Fatal
    else
      let s := if bool_decide (sw = AllowSwitch) && (wrap 64 (scratch_ptr i + usable_scratch_size i) <? scratch s)
               then set_switchable PreventSwitch s else s in
      if bool_decide (switchable s = PreventSwitch) || match param_list s with [] => true | _ => false end then Ok (s, t)
      else
        let s := set_enabled true s in
        t ← copy_inputs (param_list s) t;
        x ← relocate (param_list s) (param_list s) (args t) t;
        let '(l, r, t) := x in
        Ok (set_params l s, set_args r t).

(** Step 3: the mutators. What one keeps goes into a part of [saved_data] of the size
    of its parameter; a parameter that was not changed loses its mutator. *)
Definition run_mutator (enabled : bool) (p : MemoryParam) (saved : list Z) (t : Tracee) : res (MemoryParam * list Z * Tracee) :=
  match maybe_mutator p with
  | None => Ok (p, saved, t)
  | Some f =>
      let n := incoming_size (num_bytes p) in
      y ← f (if enabled then scratch_of p else dest p) (if enabled then None else Some n) t;
      let kept := y.1.2 ++ replicate (Z.to_nat n - length y.1.2) 0 in
      if y.1.1 : bool then Ok (p, if enabled then saved else saved ++ kept, y.2)
      else Ok (mkParam (dest p) (scratch_of p) (num_bytes p) (ptr_in_memory p) (ptr_in_reg p) (mode p) None, saved, y.2)
  end.

Fixpoint run_mutators (enabled : bool) (l : list MemoryParam) (saved : list Z) (t : Tracee) : res (list MemoryParam * list Z * Tracee) :=
  match l with
  | [] => Ok ([], saved, t)
  | p :: l =>
      x ← run_mutator enabled p saved t;
      let '(p, saved, t) := x in
      y ← run_mutators enabled l saved t;
      let '(l, saved, t) := y in
      Ok (p :: l, saved, t)
  end.

Definition done_preparing (sw : Switchable) (s : TaskSyscallState) (t : Tracee) : res (Switchable * TaskSyscallState * Tracee) :=
  if preparation_done s then Ok (switchable s, s, t)
  else
    x ← done_preparing_internal sw s t;
    let '(s, t) := x in
    y ← run_mutators (scratch_enabled s) (param_list s) (saved_data s) t;
    let '(l, saved, t) := y in
    Ok (switchable s, set_saved saved (set_params l s), t).

(** ** After the system call *)

(** The bytes of the source of parameter [p] that the parameters before it took;
    [sizes] are their sizes. *)
Fixpoint already_consumed (p : MemoryParam) (before : list MemoryParam) (sizes : list Z) : res Z :=
  match before, sizes with
  | q :: before, n :: sizes =>
      c ← already_consumed p before sizes;
      if is_same_source (num_bytes q) (num_bytes p) then checked_add c n else Ok c
  | _, _ => Ok 0
  end.

Definition eval_param_size (before : list MemoryParam) (p : MemoryParam) (sizes : list Z) (t : Tracee) : res Z :=
  c ← already_consumed p before sizes; eval (num_bytes p) t c.

(** A part of [data]. *)
Definition slice (data : list Z) (offset n : Z) : res (list Z) :=
  e ← checked_add offset n;
  if e <=? Z.of_nat (length data) then Ok (take (Z.to_nat n) (drop (Z.to_nat offset) data)) else Panic.

Definition writes_back (p : MemoryParam) : bool := bool_decide (mode p = InOut) || bool_decide (mode p = Out).

(** Step 1: the sizes, and the results back to where they belong. *)
Fixpoint copy_outputs (wb : bool) (data : list Z) (before l : list MemoryParam) (sizes : list Z) (t : Tracee) : res (list Z * Tracee) :=
  match l with
  | [] => Ok (sizes, t)
  | p :: l =>
      size ← eval_param_size before p sizes t;
      t ← (if wb && writes_back p then
             offset ← checked_sub (scratch_of p) (scratch_ptr i);
             d ← slice data offset size;
             write (dest p) d t
           else Ok t);
      copy_outputs wb data (before ++ [p]) l (sizes ++ [size]) t
  end.

(** Step 2: the pointers back; tells whether memory had to be cleaned up. *)
Fixpoint restore_pointers (l : list MemoryParam) (r : list Z) (t : Tracee) : res (bool * list Z * Tracee) :=
  match l with
  | [] => Ok (false, r, t)
  | p :: l =>
      r ← (if negb (ptr_in_reg p =? 0) then set_arg (ptr_in_reg p) (dest p) r else Ok r);
      t ← (if negb (ptr_in_memory p =? 0) then set_remote_ptr (ptr_in_memory p) (dest p) t else Ok t);
      x ← restore_pointers l r t;
      let '(b, r, t) := x in
      Ok (b || negb (ptr_in_memory p =? 0), r, t)
  end.

(** Step 3: the recording. *)
Fixpoint record_outputs (cleaned : bool) (data : list Z) (l : list MemoryParam) (sizes : list Z) (t : Tracee) : res Tracee :=
  match l with
  | [] => Ok t
  | p :: l =>
      size ← unwrap (head sizes);
      t ← (if decide (mode p = InOutNoScratch) then record_remote (dest p) size t
           else if writes_back p then
             if cleaned then record_remote (dest p) size t
             else
               offset ← checked_sub (scratch_of p) (scratch_ptr i);
               d ← slice data offset size;
               Ok (record_local (dest p) d t)
           else Ok t);
      record_outputs cleaned data l (tail sizes) t
  end.

(** Without scratch memory: the memory the mutators changed is restored. *)
Fixpoint restore_mutated (l : list MemoryParam) (saved : list Z) (t : Tracee) : res (list Z * Tracee) :=
  match l with
  | [] => Ok (saved, t)
  | p :: l =>
      match maybe_mutator p with
      | None => restore_mutated l saved t
      | Some _ =>
          let n := Z.to_nat (incoming_size (num_bytes p)) in
          if Nat.ltb (length saved) n then Fatal
          else t ← write (dest p) (take n saved) t; restore_mutated l (drop n saved) t
      end
  end.

Fixpoint record_all (before l : list MemoryParam) (sizes : list Z) (t : Tracee) : res Tracee :=
  match l with
  | [] => Ok t
  | p :: l =>
      size ← eval_param_size before p sizes t;
      t ← record_remote (dest p) size t;
      record_all (before ++ [p]) l (sizes ++ [size]) t
  end.

Fixpoint run_actions (l : list (Tracee -> res Tracee)) (t : Tracee) : res Tracee :=
  match l with [] => Ok t | a :: l => t ← a t; run_actions l t end.

Definition process_syscall_results (s : TaskSyscallState) (t : Tracee) : res (TaskSyscallState * Tracee) :=
  if negb (preparation_done s) then Fatal
  else
    x ← (if scratch_enabled s then
           data ← read_mem (scratch_ptr i) (wrap 64 (scratch s - scratch_ptr i)) (mem t);
           let r := args t in
           let wb := bool_decide (write_back s = WriteBack) in
           y ← copy_outputs wb data [] (param_list s) [] t;
           z ← restore_pointers (param_list s) r y.2;
           let '(cleaned, r, t) := z in
           t ← (if wb then record_outputs cleaned data (param_list s) y.1 t else Ok t);
           Ok (s, set_args r t)
         else
           y ← restore_mutated (param_list s) (saved_data s) t;
           if bool_decide (y.1 = []) then
             t ← record_all [] (param_list s) [] y.2; Ok (set_saved [] s, t)
           else Fatal);
    let '(s, t) := x in
    let t := if should_emulate_result s then set_result (swrap 64 (emulated_result s)) t else t in
    t ← run_actions (after_syscall_actions s) t;
    Ok (s, t).

Definition abort_syscall_results (s : TaskSyscallState) (t : Tracee) : res (TaskSyscallState * Tracee) :=
  if negb (preparation_done s) then Fatal
  else if scratch_enabled s then
    x ← restore_pointers (param_list s) (args t) t;
    let '(_, r, t) := x in Ok (s, set_args r t)
  else
    x ← restore_mutated (param_list s) (saved_data s) t; Ok (set_saved x.1 s, x.2).

(** ** The mutator that unblocks the signals of rd *)

Definition protect_rd_sigs (rd_signal_mask : Z) : ArgMutator := fun p save t =>
  if p =? 0 then Ok (false, [], t)
  else
    l ← read_mem p 8 (mem t);
    let sig_set := le_val l in
    let new_sig_set := Z.land sig_set (Z.lxor (2 ^ 64 - 1) rd_signal_mask) in
    if sig_set =? new_sig_set then Ok (false, [], t)
    else
      t ← write p (le_bytes 8 new_sig_set) t;
      Ok (true, match save with Some n => l | None => [] end, t).

End Task.

End SyscallState.
