(* ===== verification/SyscallStateProofs.v ===== *)
(** Where scratch areas lie, what preparing a system call changes, and sequences of
    writes. *)

From S2P Require Import Prelude TraceeMemory SyscallState.

Module SyscallProofs.
Import TMem SyscallState.

(** ** Sequences of writes *)

Definition apply_writes (ws : list (Z * list Z)) (m : Memory) : Memory := foldl (fun m w => write_map w.1 w.2 m) m ws.

(** The byte the last write that covers [a] puts there. *)
Fixpoint last_cover (ws : list (Z * list Z)) (a : Z) : option Z :=
  match ws with
  | [] => None
  | w :: ws =>
      match last_cover ws a with
      | Some v => Some v
      | None => if decide (w.1 <= a < w.1 + Z.of_nat (length w.2)) then w.2 !! Z.to_nat (a - w.1) else None
      end
  end.

Lemma apply_writes_lookup ws : forall m a,
  apply_writes ws m !! a = match last_cover ws a with Some v => Some v | None => m !! a end.
Proof.
  induction ws as [|w ws IH]; intros m a; [done|]. cbn [apply_writes foldl last_cover].
  change (foldl _ _ ws) with (apply_writes ws (write_map w.1 w.2 m)). rewrite IH, write_map_lookup.
  destruct (last_cover ws a); [done|]. case_decide as H; [|done].
  destruct (w.2 !! Z.to_nat (a - w.1)) eqn:E; [done|]. apply lookup_ge_None_1 in E. lia.
Qed.

Lemma apply_writes_app ws ws' m : apply_writes (ws ++ ws') m = apply_writes ws' (apply_writes ws m).
Proof. apply foldl_app. Qed.

Lemma last_cover_None ws a : last_cover ws a = None <-> Forall (fun w => ~ (w.1 <= a < w.1 + Z.of_nat (length w.2))) ws.
Proof.
  induction ws as [|w ws IH]; cbn [last_cover]; [split; constructor|]. rewrite Forall_cons, <- IH.
  destruct (last_cover ws a); [naive_solver|]. case_decide as H; [|naive_solver].
  split; [|naive_solver]. intros E%lookup_ge_None_1. lia.
Qed.

Lemma apply_writes_mapped ws : forall m b n, mapped b n m -> mapped b n (apply_writes ws m).
Proof. induction ws as [|w ws IH]; intros m b n H; [done|]. cbn. apply IH. by apply write_map_mapped. Qed.

(** Writes into [lo, hi) leave the rest. *)
Definition writes_within (lo hi : Z) (ws : list (Z * list Z)) : Prop :=
  Forall (fun w => lo <= w.1 /\ w.1 + Z.of_nat (length w.2) <= hi) ws.

Definition outside (lo hi a : Z) : Prop := a < lo \/ hi <= a.

Lemma apply_writes_outside lo hi ws m a : writes_within lo hi ws -> outside lo hi a -> apply_writes ws m !! a = m !! a.
Proof.
  intros H Ha. rewrite apply_writes_lookup. rewrite (proj2 (last_cover_None ws a)); [done|].
  eapply Forall_impl; [done|]. unfold outside in Ha. intros w Hw. cbn in Hw. lia.
Qed.

(** ** The layout of scratch memory *)

Definition align8 (x : Z) : Z := 8 * ((x + 7) / 8).

Lemma align8_bounds x : x <= align8 x < x + 8.
Proof. unfold align8. zdiv_lia. Qed.

Lemma land_not_7 b : 0 <= b < 2 ^ 64 -> Z.land b (Z.lxor (2 ^ 64 - 1) 7) = 8 * (b / 8).
Proof.
  intros H. transitivity (Z.ldiff b (Z.ones 3)).
  - apply Z.bits_inj'. intros n Hn. rewrite Z.land_spec, Z.lxor_spec, Z.ldiff_spec.
    change (2 ^ 64 - 1) with (Z.ones 64). change 7 with (Z.ones 3). destruct (decide (n < 64)).
    + by rewrite (Z.ones_spec_low 64) by lia.
    + rewrite <- (Z.mod_small b (2 ^ 64)) by lia. by rewrite Z.mod_pow2_bits_high by lia.
  - rewrite Z.ldiff_ones_r, Z.shiftl_mul_pow2, Z.shiftr_div_pow2 by lia. change (2 ^ 3) with 8. lia.
Qed.

Lemma align_scratch_ok p : 0 <= p -> p + 8 < 2 ^ 64 -> align_scratch p 8 = Ok (align8 p).
Proof.
  intros H0 H. unfold align_scratch, checked_add, checked_sub. rewrite (proj2 (Z.ltb_lt _ _)) by lia.
  cbn [mbind res_bind]. rewrite (proj2 (Z.leb_le _ _)) by lia. cbn [mbind res_bind].
  change (8 - 1) with 7. rewrite land_not_7 by lia. unfold align8. do 3 f_equal. lia.
Qed.

Definition in_scratch (p : MemoryParam) : bool := negb (bool_decide (mode p = InOutNoScratch)).

(** The areas of the parameters from [cur] on end at [e]. *)
Fixpoint areas (cur : Z) (l : list MemoryParam) (e : Z) : Prop :=
  match l with
  | [] => cur = e
  | p :: l =>
      if in_scratch p then scratch_of p = cur /\ areas (align8 (cur + incoming_size (num_bytes p))) l e
      else areas cur l e
  end.

Definition sizes_ok (l : list MemoryParam) : Prop := Forall (fun p => 0 <= incoming_size (num_bytes p) <= I32_MAX) l.

Lemma areas_snoc l p : forall cur e, areas cur l e ->
  (if in_scratch p then scratch_of p = e else True) ->
  areas cur (l ++ [p]) (if in_scratch p then align8 (e + incoming_size (num_bytes p)) else e).
Proof.
  induction l as [|q l IH]; intros cur e H Hp; cbn [areas app] in *.
  - subst. by destruct (in_scratch p).
  - destruct (in_scratch q); [destruct H; split; [done|]|]; by apply IH.
Qed.

Lemma areas_le l : forall cur e, sizes_ok l -> areas cur l e -> cur <= e.
Proof.
  induction l as [|q l IH]; intros cur e Hs H; cbn [areas] in H; [lia|]. apply Forall_cons in Hs as [Hq Hs].
  destruct (in_scratch q); [destruct H as [_ H]|]; apply IH in H; try done.
  pose proof (align8_bounds (cur + incoming_size (num_bytes q))). lia.
Qed.

Lemma areas_bound l : forall cur e, sizes_ok l -> areas cur l e -> e <= cur + Z.of_nat (length l) * 2 ^ 32.
Proof.
  induction l as [|q l IH]; intros cur e Hs H; cbn [areas length] in *; [lia|]. apply Forall_cons in Hs as [Hq Hs].
  unfold I32_MAX in Hq. pose proof (align8_bounds (cur + incoming_size (num_bytes q))).
  destruct (in_scratch q); [destruct H as [_ H]|]; apply IH in H; try done; lia.
Qed.

(** Every area is inside. *)
Lemma areas_inside l : forall cur e p, sizes_ok l -> areas cur l e -> p ∈ l -> in_scratch p = true ->
  cur <= scratch_of p /\ scratch_of p + incoming_size (num_bytes p) <= e.
Proof.
  induction l as [|q l IH]; intros cur e p Hs H Hin Hp; [by apply elem_of_nil in Hin|].
  cbn [areas] in H. apply Forall_cons in Hs as [Hq Hs]. pose proof (align8_bounds (cur + incoming_size (num_bytes q))).
  apply elem_of_cons in Hin as [->|Hin].
  - rewrite Hp in H. destruct H as [-> H]. apply areas_le in H; [lia|done].
  - destruct (in_scratch q); [destruct H as [_ H]|]; eapply IH in H; try done; lia.
Qed.

(** ** Registering *)

Inductive Reg :=
| ByReg (index : Z) (size : ParamSize) (m : ArgMode) (f : option ArgMutator)
| ByMem (addr : Z) (size : ParamSize) (m : ArgMode) (f : option ArgMutator).

Definition reg_size (r : Reg) : ParamSize := match r with ByReg _ n _ _ | ByMem _ n _ _ => n end.

Section Task.
Context (i : TaskInfo).

Definition register1 (t : Tracee) (r : Reg) (s : TaskSyscallState) : res TaskSyscallState :=
  x ← match r with
      | ByReg index size m f => reg_parameter_with_size index size (Some m) f s
      | ByMem addr size m f => mem_ptr_parameter_with_size i t addr size (Some m) f s
      end;
  Ok x.2.

Fixpoint register (t : Tracee) (rs : list Reg) (s : TaskSyscallState) : res TaskSyscallState :=
  match rs with [] => Ok s | r :: rs => s ← register1 t r s; register t rs s end.

(** A system call is prepared from here. *)
Definition start (t : Tracee) : TaskSyscallState := set_entry_args (args t) (init i new).

(** What registering knows of a parameter. *)
Record param_ok (t : Tracee) (p : MemoryParam) : Prop := mkParamOk {
  p_dest : dest p <> 0;
  p_size : 0 <= incoming_size (num_bytes p) <= I32_MAX;
  p_none : in_scratch p = false -> ptr_in_reg p = 0 /\ ptr_in_memory p = 0;
  p_reg : ptr_in_reg p <> 0 -> arg (args t) (ptr_in_reg p) = Ok (dest p);
  p_mem : ptr_in_memory p <> 0 -> get_remote_ptr i (ptr_in_memory p) t = Ok (dest p)
}.

(** The rest of the state is that of the start. *)
Definition registered (t : Tracee) (s : TaskSyscallState) : Prop :=
  s = set_scratch (scratch s) (set_params (param_list s) (start t)) /\
  areas (scratch_ptr i) (param_list s) (scratch s) /\ Forall (param_ok t) (param_list s).

Lemma registered_sizes t s : registered t s -> sizes_ok (param_list s).
Proof. intros (_ & _ & H). eapply Forall_impl; [done|]. by intros p []. Qed.

Lemma registered_noscratch t s p : registered t s -> param_ok t p -> in_scratch p = false ->
  registered t (set_params (param_list s ++ [p]) s).
Proof.
  intros (Hs & Ha & Hf) Hp Hn. unfold registered. cbn [param_list scratch set_params]. splits.
  - destruct s. unfold set_params, set_scratch in *. cbn in *. congruence.
  - pose proof (areas_snoc _ p _ _ Ha) as H. rewrite Hn in H. by apply H.
  - apply Forall_app. by split; [|constructor].
Qed.

Lemma registered_scratch t s s' p : registered t s -> param_ok t p -> in_scratch p = true -> scratch_of p = scratch s ->
  0 <= scratch_ptr i -> scratch_ptr i + (Z.of_nat (length (param_list s)) + 1) * 2 ^ 32 < 2 ^ 63 ->
  allocate_scratch (incoming_size (num_bytes p)) s = Ok s' -> registered t (set_params (param_list s' ++ [p]) s').
Proof.
  intros R Hp Hn Hsc H0 Hb H. pose proof (registered_sizes _ _ R) as Hsz. destruct R as (Hs & Ha & Hf).
  pose proof (areas_bound _ _ _ Hsz Ha). pose proof (areas_le _ _ _ Hsz Ha). pose proof (p_size _ _ Hp) as Hpn.
  unfold I32_MAX in Hpn. unfold allocate_scratch, wrap in H. rewrite Z.mod_small, align_scratch_ok in H by lia.
  cbn in H. injection H as <-. unfold registered. cbn [param_list scratch set_params set_scratch]. splits.
  - destruct s. unfold set_params, set_scratch in *. cbn in *. congruence.
  - pose proof (areas_snoc _ p _ _ Ha) as Hx. rewrite Hn in Hx. by apply Hx.
  - apply Forall_app. by split; [|constructor].
Qed.

Lemma registered_flags t s : registered t s -> preparation_done s = false /\ syscall_entry_args s = args t.
Proof. intros (-> & _). split; done. Qed.

Lemma register1_registered t r s s' : registered t s -> 0 <= incoming_size (reg_size r) <= I32_MAX ->
  0 <= scratch_ptr i -> scratch_ptr i + (Z.of_nat (length (param_list s)) + 1) * 2 ^ 32 < 2 ^ 63 ->
  register1 t r s = Ok s' -> registered t s' /\ (length (param_list s') <= S (length (param_list s)))%nat.
Proof.
  intros R Hn H0 Hb H. destruct (registered_flags _ _ R) as [Hd He]. unfold register1 in H.
  apply bind_Ok in H as ([d s1] & H & [= <-]).
  destruct r as [index n m f|addr n m f]; cbn [reg_size] in Hn.
  - unfold reg_parameter_with_size in H. rewrite Hd, He in H. apply bind_Ok in H as (dst & Hdst & H).
    destruct (Z.eqb_spec dst 0); [by injection H as <- <-; split; [|lia]|]. apply bind_Ok in H as (_ & _ & H).
    assert (index <> 0) by (intros ->; done).
    cbn [default] in H. case_decide as Hm.
    + injection H as <- <-. split; [|cbn; rewrite length_app; cbn; lia].
      apply registered_noscratch; [done| |unfold in_scratch; cbn; by rewrite bool_decide_true]. by split; cbn.
    + apply bind_Ok in H as (s2 & Hs2 & H). injection H as <- <-.
      split; [|unfold allocate_scratch in Hs2; apply bind_Ok in Hs2 as (? & _ & [= <-]); cbn; rewrite length_app; cbn; lia].
      assert (in_scratch (mkParam dst (scratch s) n 0 index m f) = true) as Hin
        by (unfold in_scratch; cbn; by rewrite bool_decide_false).
      eapply registered_scratch; [done| |done|done|done|done|done]. split; cbn; try done. congruence.
  - unfold mem_ptr_parameter_with_size in H. rewrite Hd in H. cbn [orb] in H.
    destruct (Z.eqb_spec addr 0); [by injection H as <- <-; split; [|lia]|]. apply bind_Ok in H as (dst & Hdst & H).
    destruct (Z.eqb_spec dst 0); [by injection H as <- <-; split; [|lia]|]. apply bind_Ok in H as (_ & _ & H).
    cbn [default] in H. case_decide as Hm.
    + injection H as <- <-. split; [|cbn; rewrite length_app; cbn; lia].
      apply registered_noscratch; [done| |unfold in_scratch; cbn; by rewrite bool_decide_true]. by split; cbn.
    + apply bind_Ok in H as (s2 & Hs2 & H). injection H as <- <-.
      split; [|unfold allocate_scratch in Hs2; apply bind_Ok in Hs2 as (? & _ & [= <-]); cbn; rewrite length_app; cbn; lia].
      assert (in_scratch (mkParam dst (scratch s) n addr 0 m f) = true) as Hin
        by (unfold in_scratch; cbn; by rewrite bool_decide_false).
      eapply registered_scratch; [done| |done|done|done|done|done]. split; cbn; try done. congruence.
Qed.

Lemma registered_start t : registered t (start t).
Proof. unfold registered. splits; done. Qed.

Lemma register_registered t rs : forall s s', registered t s -> Forall (fun r => 0 <= incoming_size (reg_size r) <= I32_MAX) rs ->
  0 <= scratch_ptr i -> scratch_ptr i + Z.of_nat (length (param_list s) + length rs) * 2 ^ 32 < 2 ^ 63 ->
  register t rs s = Ok s' -> registered t s'.
Proof.
  induction rs as [|r rs IH]; intros s s' R Hr H0 Hb H; cbn [register length] in *; [by injection H as <-|].
  apply bind_Ok in H as (s1 & H1 & H). apply Forall_cons in Hr as [Hr Hrs].
  destruct (register1_registered _ _ _ _ R Hr H0 ltac:(lia) H1) as [R1 Hl]. eapply IH; [done|done|done|lia|done].
Qed.

(** ** What a system call needs to be prepared *)

(** The [n] bytes at [ptr] are in exactly one parameter, which has a scratch area. *)
Definition relocatable (l : list MemoryParam) (ptr n : Z) : Prop :=
  exists q, List.filter (contains ptr) l = [q] /\ in_scratch q = true /\ dest q <= ptr /\
    ptr + n <= dest q + incoming_size (num_bytes q).

(** Inputs are mapped, buffers are not in scratch memory and do not wrap, and pointers
    and sizes in memory are in parameters. *)
Record buffers_ok (m : Memory) (l : list MemoryParam) (e : Z) : Prop := mkBuffersOk {
  b_inputs : forall p, p ∈ l -> mode p = InOut \/ mode p = In_ -> mapped (dest p) (incoming_size (num_bytes p)) m;
  b_away : forall p, p ∈ l -> dest p + incoming_size (num_bytes p) <= scratch_ptr i \/ e <= dest p;
  b_low : forall p, p ∈ l -> 0 <= dest p /\ dest p + incoming_size (num_bytes p) < 2 ^ 63;
  b_ptr : forall p, p ∈ l -> ptr_in_memory p <> 0 -> relocatable l (ptr_in_memory p) (Z.of_nat (word i));
  b_size : forall p, p ∈ l -> mem_ptr (num_bytes p) <> 0 -> relocatable l (mem_ptr (num_bytes p)) (read_size (num_bytes p))
}.

Definition agree (lo hi : Z) (m m' : Memory) : Prop := forall a, outside lo hi a -> m !! a = m' !! a.

(** [t'] is [t] but for its memory. *)
Definition same_but_mem (t t' : Tracee) : Prop := args t' = args t /\ result t' = result t /\ records t' = records t.

Lemma read_bytes_agree n : forall addr m m', (forall a, addr <= a < addr + Z.of_nat n -> m !! a = m' !! a) ->
  read_bytes n addr m = read_bytes n addr m'.
Proof.
  induction n as [|n IH]; intros addr m m' H; cbn [read_bytes]; [done|]. rewrite (H addr) by lia.
  destruct (m' !! addr); [|done]. f_equal. apply IH. intros a Ha. apply H. lia.
Qed.

Lemma read_mem_agree addr n m m' : 0 <= n -> (forall a, addr <= a < addr + n -> m !! a = m' !! a) ->
  read_mem addr n m = read_mem addr n m'.
Proof. intros Hn H. unfold read_mem. rewrite (read_bytes_agree _ _ m m'); [done|]. intros a Ha. apply H. lia. Qed.

Context (t0 : Tracee) (s0 : TaskSyscallState).
Abbreviation lo := (scratch_ptr i).
Abbreviation hi := (scratch s0).
Abbreviation params := (param_list s0).

Hypothesis R : registered t0 s0.
Hypothesis B : buffers_ok (mem t0) params hi.
Hypothesis Hscratch : mapped lo (hi - lo) (mem t0).
Hypothesis Hlo : 0 < lo.
Hypothesis Hhi : hi <= 2 ^ 47.

Lemma param_inside p : p ∈ params -> in_scratch p = true ->
  lo <= scratch_of p /\ scratch_of p + incoming_size (num_bytes p) <= hi.
Proof. intros. eapply areas_inside; [by eapply registered_sizes|by apply R|done|done]. Qed.

Lemma param_known p : p ∈ params -> param_ok t0 p.
Proof. destruct R as (_ & _ & H). intros Hin. by eapply Forall_forall in H. Qed.

Lemma relocated ptr n : 0 < n -> relocatable params ptr n ->
  exists p', relocate_pointer_to_scratch params ptr = Ok p' /\ lo <= p' /\ p' + n <= hi.
Proof.
  intros Hn (q & Hq & Hs & Hd & He). assert (q ∈ params) as Hin.
  { apply list_elem_of_In. apply (List.filter_In (contains ptr) q params). rewrite Hq. by left. }
  destruct (param_inside q Hin Hs) as [H1 H2]. pose proof (b_low _ _ _ B q Hin).
  exists (scratch_of q + (ptr - dest q)). unfold relocate_pointer_to_scratch. rewrite Hq. cbn [length last mbind res_bind].
  unfold wrap. rewrite !Z.mod_small by (rewrite ?Z.mod_small; lia). split; [done|lia].
Qed.

(** ** Step 1: the inputs *)

Lemma copy_inputs_ok l : forall t, l ⊆ params -> agree lo hi (mem t0) (mem t) -> mapped lo (hi - lo) (mem t) ->
  exists ws, copy_inputs l t = Ok (set_mem (apply_writes ws (mem t)) t) /\ writes_within lo hi ws.
Proof.
  induction l as [|p l IH]; intros t Hl Ha Hm; cbn [copy_inputs].
  { exists []. split; [by destruct t|constructor]. }
  assert (p ∈ params) as Hp by (apply Hl; left). assert (l ⊆ params) as Hl' by (intros q Hq; apply Hl; by right).
  destruct (bool_decide (mode p = InOut) || bool_decide (mode p = In_)) eqn:Hmode.
  2:{ by apply IH. }
  assert (mode p = InOut \/ mode p = In_) as Hio by (apply orb_true_iff in Hmode; rewrite !bool_decide_eq_true in Hmode; tauto).
  assert (in_scratch p = true) as Hs by (unfold in_scratch; by destruct Hio as [-> | ->]).
  destruct (param_inside p Hp Hs) as [H1 H2]. pose proof (p_size _ _ (param_known p Hp)) as [Hn _].
  destruct (read_mem_ok (dest p) (incoming_size (num_bytes p)) (mem t0)) as (buf & Hbuf & Hlen & _); [done|by eapply b_inputs|].
  rewrite (read_mem_agree _ _ (mem t) (mem t0)); [|done|].
  2:{ intros a Hr. symmetry. apply Ha. pose proof (b_away _ _ _ B p Hp). unfold outside. lia. }
  rewrite Hbuf. cbn [mbind res_bind]. unfold write. rewrite write_mem_ok; [|intros a Hr; apply Hm; lia]. cbn [mbind res_bind].
  destruct (IH (set_mem (write_map (scratch_of p) buf (mem t)) t)) as (ws & Hws & Hin); [done| | |].
  - intros a Hout. cbn. rewrite write_map_lookup, decide_False; [by apply Ha|]. unfold outside in Hout. lia.
  - by apply write_map_mapped.
  - exists ((scratch_of p, buf) :: ws). rewrite Hws. split; [by destruct t|]. constructor; [cbn; lia|done].
Qed.

(** ** Step 2: the pointers *)

(** A parameter after its size was moved to scratch memory. *)
Record moved (p p' : MemoryParam) : Prop := mkMoved {
  mv_dest : dest p' = dest p;
  mv_scratch : scratch_of p' = scratch_of p;
  mv_incoming : incoming_size (num_bytes p') = incoming_size (num_bytes p);
  mv_read : read_size (num_bytes p') = read_size (num_bytes p);
  mv_from : from_syscall (num_bytes p') = from_syscall (num_bytes p);
  mv_zero : mem_ptr (num_bytes p') = 0 <-> mem_ptr (num_bytes p) = 0;
  mv_ptr : mem_ptr (num_bytes p') <> 0 -> lo <= mem_ptr (num_bytes p') /\ mem_ptr (num_bytes p') + read_size (num_bytes p') <= hi;
  mv_in_memory : ptr_in_memory p' = ptr_in_memory p;
  mv_in_reg : ptr_in_reg p' = ptr_in_reg p;
  mv_mode : mode p' = mode p
}.

Lemma arg_range a k v : arg a k = Ok v -> 1 <= k <= 6 /\ a !! Z.to_nat (k - 1) = Some v.
Proof.
  unfold arg. destruct ((1 <=? k) && (k <=? 6)) eqn:E; [|done]. intros H.
  destruct (a !! Z.to_nat (k - 1)); [|done]. injection H as ->. split; [lia|done].
Qed.

Lemma set_arg_ok k v r : 1 <= k <= 6 -> set_arg k v r = Ok (<[Z.to_nat (k - 1):=v]> r).
Proof. intros H. unfold set_arg. by replace ((1 <=? k) && (k <=? 6)) with true by lia. Qed.

Lemma param_reg p : p ∈ params -> ptr_in_reg p <> 0 ->
  1 <= ptr_in_reg p <= 6 /\ args t0 !! Z.to_nat (ptr_in_reg p - 1) = Some (dest p).
Proof. intros Hp Hr. by apply arg_range, (p_reg _ _ (param_known p Hp)). Qed.

(** The value of a pointer is set in the register of a parameter. *)
Definition set_reg (v : MemoryParam -> Z) (r : list Z) (p : MemoryParam) : list Z :=
  if ptr_in_reg p =? 0 then r else <[Z.to_nat (ptr_in_reg p - 1):=v p]> r.

Lemma set_reg_ok (v : MemoryParam -> Z) r p : p ∈ params ->
  (if negb (ptr_in_reg p =? 0) then set_arg (ptr_in_reg p) (v p) r else Ok r) = Ok (set_reg v r p).
Proof.
  intros Hp. unfold set_reg. destruct (Z.eqb_spec (ptr_in_reg p) 0) as [|Hr]; [done|]. cbn [negb].
  apply set_arg_ok. by apply param_reg.
Qed.

Lemma write_scratch q data t : lo <= q -> q + Z.of_nat (length data) <= hi -> mapped lo (hi - lo) (mem t) ->
  write q data t = Ok (set_mem (write_map q data (mem t)) t).
Proof. intros H1 H2 Hm. unfold write. rewrite write_mem_ok; [done|]. intros a Ha. apply Hm. lia. Qed.

(** The sizes of parameters are read from values of 4 or 8 bytes, which are in memory
    or in the result. *)
Definition sources_ok (l : list MemoryParam) : Prop := forall p, p ∈ l ->
  (mem_ptr (num_bytes p) <> 0 \/ from_syscall (num_bytes p) = true -> read_size (num_bytes p) = 4 \/ read_size (num_bytes p) = 8) /\
  (mem_ptr (num_bytes p) <> 0 -> from_syscall (num_bytes p) = false).

Hypothesis Hsrc : sources_ok params.
Hypothesis Hword : (0 < word i)%nat.

Lemma move_size p : p ∈ params ->
  exists n, (if negb (mem_ptr (num_bytes p) =? 0) then
     q ← relocate_pointer_to_scratch params (mem_ptr (num_bytes p));
     Ok (mkSize (incoming_size (num_bytes p)) q (read_size (num_bytes p)) (from_syscall (num_bytes p)))
   else Ok (num_bytes p)) = Ok n /\
  moved p (mkParam (dest p) (scratch_of p) n (ptr_in_memory p) (ptr_in_reg p) (mode p) (maybe_mutator p)).
Proof.
  intros Hp. destruct (Z.eqb_spec (mem_ptr (num_bytes p)) 0) as [H0|Hne]; cbn [negb].
  { eexists. split; [done|]. split; cbn; done. }
  destruct (Hsrc p Hp) as [Hr _]. destruct (relocated (mem_ptr (num_bytes p)) (read_size (num_bytes p))) as (q & Hq & H1 & H2).
  { destruct Hr as [-> | ->]; [by left|lia|lia]. }
  { by eapply b_size. }
  rewrite Hq. cbn [mbind res_bind]. eexists. split; [done|]. split; cbn; try done. split; lia.
Qed.

Lemma relocate_ok l : forall r t, l ⊆ params -> mapped lo (hi - lo) (mem t) ->
  exists l' ws, relocate i params l r t = Ok (l', foldl (set_reg scratch_of) r l, set_mem (apply_writes ws (mem t)) t) /\
    writes_within lo hi ws /\ Forall2 (fun p p' => moved p p' /\ maybe_mutator p' = maybe_mutator p) l l'.
Proof.
  induction l as [|p l IH]; intros r t Hl Hm; cbn [relocate foldl].
  { exists [], []. splits; [by destruct t|constructor|constructor]. }
  assert (p ∈ params) as Hp by (apply Hl; left). assert (l ⊆ params) as Hl' by (intros q Hq; apply Hl; by right).
  rewrite (set_reg_ok scratch_of) by done. cbn [mbind res_bind].
  destruct (move_size p Hp) as (n & Hn & Hmv). rewrite Hn.
  destruct (Z.eqb_spec (ptr_in_memory p) 0) as [H0|Hne]; cbn [negb].
  - cbn [mbind res_bind]. destruct (IH (set_reg scratch_of r p) t Hl' Hm) as (l' & ws & -> & Hin & HF). cbn [mbind res_bind].
    exists (mkParam (dest p) (scratch_of p) n (ptr_in_memory p) (ptr_in_reg p) (mode p) (maybe_mutator p) :: l'), ws.
    splits; [done|done|by constructor].
  - destruct (relocated (ptr_in_memory p) (Z.of_nat (word i))) as (q & -> & H1 & H2); [lia|by eapply b_ptr|].
    cbn [mbind res_bind]. unfold set_remote_ptr. rewrite write_scratch by (rewrite ?le_bytes_length; done || lia). cbn [mbind res_bind].
    destruct (IH (set_reg scratch_of r p) (set_mem (write_map q (le_bytes (word i) (scratch_of p)) (mem t)) t) Hl')
      as (l' & ws & -> & Hin & HF); [by apply write_map_mapped|]. cbn [mbind res_bind].
    exists (mkParam (dest p) (scratch_of p) n (ptr_in_memory p) (ptr_in_reg p) (mode p) (maybe_mutator p) :: l'),
      ((q, le_bytes (word i) (scratch_of p)) :: ws).
    splits; [by destruct t|constructor; [cbn; rewrite le_bytes_length; lia|done]|by constructor].
Qed.

(** ** Step 3: the mutators *)

(** A mutator works on its parameter, says whether it changed it, and keeps what was
    there when it is asked to. *)
Definition mutator_ok (f : ArgMutator) (n : Z) : Prop := forall a save t, a <> 0 -> mapped a n (mem t) ->
  exists b kept m, f a save t = Ok (b, kept, set_mem m t) /\
    (forall x, ~ (a <= x < a + n) -> m !! x = mem t !! x) /\ (forall x, is_Some (m !! x) <-> is_Some (mem t !! x)) /\
    (b = false -> m = mem t) /\ (save = Some n -> b = true -> read_mem a n (mem t) = Ok kept).

Definition mutators_ok (l : list MemoryParam) : Prop := forall p f, p ∈ l -> maybe_mutator p = Some f ->
  mutator_ok f (incoming_size (num_bytes p)).

(** Apart from its mutator a parameter stays. *)
Definition same_param (p p' : MemoryParam) : Prop :=
  p' = p \/ p' = mkParam (dest p) (scratch_of p) (num_bytes p) (ptr_in_memory p) (ptr_in_reg p) (mode p) None.

Lemma run_mutators_scratch l : forall saved t, 
  (forall p, p ∈ l -> is_Some (maybe_mutator p) -> lo <= scratch_of p /\ scratch_of p + incoming_size (num_bytes p) <= hi) ->
  mutators_ok l -> mapped lo (hi - lo) (mem t) ->
  exists l' m, run_mutators true l saved t = Ok (l', saved, set_mem m t) /\ agree lo hi (mem t) m /\
    (forall x, is_Some (m !! x) <-> is_Some (mem t !! x)) /\ Forall2 same_param l l'.
Proof.
  induction l as [|p l IH]; intros saved t Hin Hok Hm; cbn [run_mutators].
  { exists [], (mem t). splits; try done; by destruct t. }
  unfold run_mutator. destruct (maybe_mutator p) as [f|] eqn:Ef.
  - destruct (Hin p) as [H1 H2]; [left|by eexists|].
    destruct (Hok p f (list_elem_of_here _ _) Ef (scratch_of p) None t) as (b & kept & m & Hf & Hout & Hdom & Hb & _); [lia|intros a Ha; apply Hm; lia|].
    rewrite Hf. cbn [mbind res_bind fst snd].
    destruct (IH saved (set_mem m t)) as (l' & m' & Hl' & Ha' & Hd' & HF); [intros; apply Hin; [by right|done]| | |].
    { intros q g Hq. apply Hok. by right. }
    { intros a Ha. cbn. apply Hdom, Hm, Ha. }
    destruct b; cbn [mbind res_bind]; rewrite Hl'; cbn [mbind res_bind];
      eexists _, m'; (split; [by destruct t|]); (splits; [intros a Ha; rewrite <- Ha' by done; symmetry; apply Hout; unfold outside in Ha; lia
        |intros x; rewrite Hd'; apply Hdom|constructor; [|done]]); [by left|by right].
  - cbn [mbind res_bind]. destruct (IH saved t) as (l' & m' & -> & ? & ? & HF); [intros; apply Hin; [by right|done]| |done|].
    { intros q g Hq. apply Hok. by right. }
    exists (p :: l'), m'. splits; try done. constructor; [by left|done].
Qed.

(** ** Prepared *)

Lemma apply_writes_dom ws m : writes_within lo hi ws -> mapped lo (hi - lo) m ->
  forall x, is_Some (apply_writes ws m !! x) <-> is_Some (m !! x).
Proof.
  intros Hw Hm x. destruct (decide (lo <= x < hi)).
  - split; intros _; [|apply apply_writes_mapped with (b := lo) (n := hi - lo); [done|]]; try apply Hm; lia.
  - by rewrite (apply_writes_outside lo hi) by (done || unfold outside; lia).
Qed.

Lemma moved_same p p1 p2 : moved p p1 -> same_param p1 p2 -> moved p p2.
Proof. intros [] [-> | ->]; by split. Qed.

Lemma moved_in_scratch p p' : moved p p' -> in_scratch p' = in_scratch p.
Proof. intros H. unfold in_scratch. by rewrite (mv_mode _ _ H). Qed.

Lemma Forall2_moved_elem l l' p' : Forall2 moved l l' -> p' ∈ l' -> exists p, p ∈ l /\ moved p p'.
Proof.
  intros H. induction H as [|p q l l' Hpq _ IH]; intros Hin; [by apply elem_of_nil in Hin|].
  apply elem_of_cons in Hin as [->|Hin]; [exists p; split; [left|done]|].
  destruct (IH Hin) as (x & ? & ?). exists x. split; [by right|done].
Qed.

(** The state after preparing in scratch memory. *)
Definition prepared_state (l : list MemoryParam) : TaskSyscallState :=
  mkState l hi [] (args t0) false 0 AllowSwitch WriteBack true true [].

Hypothesis Hmut : mutators_ok params.
Hypothesis Husable : hi <= lo + usable_scratch_size i < 2 ^ 64.
Hypothesis Hsome : params <> [].

(** A mutator is for a parameter in scratch memory. *)
Definition mutators_in (l : list MemoryParam) : Prop := forall p, p ∈ l -> is_Some (maybe_mutator p) -> in_scratch p = true.

Hypothesis Hmutin : mutators_in params.

Lemma prepare_in_scratch :
  exists l m, done_preparing i AllowSwitch s0 t0 =
      Ok (AllowSwitch, prepared_state l, mkTracee m (foldl (set_reg scratch_of) (args t0) params) (result t0) (records t0)) /\
    agree lo hi (mem t0) m /\ (forall x, is_Some (m !! x) <-> is_Some (mem t0 !! x)) /\ Forall2 moved params l.
Proof.
  destruct (registered_flags _ _ R) as [Hd _]. unfold done_preparing, done_preparing_internal. rewrite Hd. cbn [scratch].
  rewrite (proj2 (Z.eqb_neq lo 0)) by lia. assert (lo <= hi) as Hle.
  { apply (areas_le params); [by eapply registered_sizes|apply R]. }
  rewrite (proj2 (Z.ltb_ge hi lo)) by lia. unfold wrap. rewrite Z.mod_small by lia.
  rewrite (proj2 (Z.ltb_ge _ hi)) by lia. rewrite andb_false_r. cbn [switchable param_list].
  rewrite (bool_decide_false (AllowSwitch = PreventSwitch)) by done. cbn [orb].
  assert (match params with [] => true | _ => false end = false) as -> by (revert Hsome; by destruct params).
  cbn [set_enabled param_list].
  destruct (copy_inputs_ok params t0) as (ws & -> & Hws); [done|done|done|]. cbn [mbind res_bind].
  destruct (relocate_ok params (args t0) (set_mem (apply_writes ws (mem t0)) t0)) as (l & ws2 & Hrel & Hws2 & HF);
    [done|by apply apply_writes_mapped|]. cbn [args set_mem] in *. rewrite Hrel. cbn [mbind res_bind].
  cbn [scratch_enabled set_params set_enabled param_list saved_data switchable].
  assert (saved_data s0 = []) as Hsaved by (destruct R as (-> & _); done). rewrite Hsaved.
  assert (forall p', p' ∈ l -> exists p, p ∈ params /\ moved p p' /\ maybe_mutator p' = maybe_mutator p) as Hback.
  { clear -HF. induction HF as [|p q ? ? Hpq _ IH]; intros p' Hin; [by apply elem_of_nil in Hin|].
    apply elem_of_cons in Hin as [->|Hin]; [exists p; split; [left|done]|].
    destruct (IH _ Hin) as (x & ? & ?). exists x. split; [by right|done]. }
  match goal with |- context [run_mutators true l [] ?t1] =>
    destruct (run_mutators_scratch l [] t1) as (l' & m & Hmm & Hag & Hdom & HF2) end.
  - intros p' Hp' Hf. destruct (Hback p' Hp') as (p & Hp & Hmv & He). rewrite (mv_scratch _ _ Hmv), (mv_incoming _ _ Hmv).
    apply param_inside; [done|]. apply Hmutin; [done|]. by rewrite <- He.
  - intros p' f Hp' Hf. destruct (Hback p' Hp') as (p & Hp & Hmv & He). rewrite (mv_incoming _ _ Hmv). apply (Hmut p); [done|congruence].
  - by do 2 apply apply_writes_mapped.
  - rewrite Hmm. cbn in Hag, Hdom. cbn [mbind res_bind]. exists l', m. splits.
    + unfold prepared_state, set_saved. cbn. destruct R as (-> & _). done.
    + intros a Ha. rewrite <- Hag by done. by rewrite !(apply_writes_outside lo hi).
    + intros x. rewrite Hdom, !apply_writes_dom; try done. by apply apply_writes_mapped.
    + clear -HF HF2. revert l' HF2. induction HF as [|p p' x y [Hp _] _ IH]; intros z HF2; inversion HF2; subst; constructor; [by eapply moved_same|by apply IH].
Qed.

End Task.

End SyscallProofs.
