(* ===== verification/SyscallResults.v ===== *)
(** The results of a system call: sizes shared by parameters, copies out of scratch
    memory, pointers put back, and what is recorded. *)

From S2P Require Import Prelude TraceeMemory SyscallState SyscallStateProofs.

Module SyscallResults.
Import TMem SyscallState SyscallProofs.

(** ** Sizes *)

Definition sized (n : ParamSize) : bool := negb (mem_ptr n =? 0) || from_syscall n.

(** What limits the size of a parameter after the system call. *)
Definition source (n : ParamSize) (t : Tracee) : Z :=
  if mem_ptr n =? 0 then let r := Z.max 0 (result t) in if read_size n =? 4 then wrap 32 r else r
  else le_val (read_bytes (Z.to_nat (read_size n)) (mem_ptr n) (mem t)).

Definition all_mapped (ok : Z -> Prop) (m : Memory) : Prop := forall a, ok a -> is_Some (m !! a).

(** The size is in memory that is [ok], or in the result. *)
Record size_ok (ok : Z -> Prop) (n : ParamSize) : Prop := mkSizeOk {
  sz_incoming : 0 <= incoming_size n <= I32_MAX;
  sz_read : sized n = true -> read_size n = 4 \/ read_size n = 8;
  sz_one : mem_ptr n <> 0 -> from_syscall n = false;
  sz_ptr : mem_ptr n <> 0 -> forall a, mem_ptr n <= a < mem_ptr n + read_size n -> ok a
}.

Lemma read_size_val_ok ok n t : size_ok ok n -> mem_ptr n <> 0 -> all_mapped ok (mem t) ->
  read_size_val (read_size n) (mem_ptr n) t = Ok (source n t).
Proof.
  intros [Hi Hr Ho Hp] Hm Ht. unfold read_size_val, source, sized in *.
  rewrite (proj2 (Z.eqb_neq _ _) Hm) in *. specialize (Hr eq_refl).
  assert ((read_size n =? 4) || (read_size n =? 8) = true) as -> by (destruct Hr as [-> | ->]; done).
  unfold read_mem. rewrite read_bytes_full by (intros a Ha; apply Ht, Hp; [done|lia]).
  rewrite Z2Nat.id, Z.eqb_refl by lia. done.
Qed.

Lemma eval_ok ok n t c : size_ok ok n -> all_mapped ok (mem t) -> (sized n = true -> c <= source n t) ->
  eval n t c = Ok (if sized n then Z.min (incoming_size n) (source n t - c) else incoming_size n).
Proof.
  intros Hn Hm Hc. unfold eval, sized in *. destruct (Z.eqb_spec (mem_ptr n) 0) as [H0|Hne]; cbn [negb orb] in *.
  - cbn [mbind res_bind]. destruct (from_syscall n) eqn:Ef; [|done]. specialize (Hc eq_refl).
    destruct (sz_read _ _ Hn) as [E|E]; [unfold sized; rewrite Ef; apply orb_true_r| |];
      unfold source in *; rewrite H0, E in *; cbn [Z.eqb Pos.eqb mbind res_bind] in *; by rewrite (proj2 (Z.leb_le _ _)).
  - rewrite (read_size_val_ok ok) by done. cbn [mbind res_bind]. rewrite (proj2 (Z.leb_le _ _)) by (by apply Hc).
    cbn [mbind res_bind]. by rewrite (sz_one _ _ Hn).
Qed.

Lemma same_source_spec ok a b : size_ok ok a -> size_ok ok b -> is_same_source a b = true <->
  sized a = true /\ sized b = true /\ mem_ptr a = mem_ptr b /\ read_size a = read_size b.
Proof.
  intros Ha Hb. unfold is_same_source, sized. pose proof (sz_one _ _ Ha). pose proof (sz_one _ _ Hb).
  destruct (Z.eqb_spec (mem_ptr a) 0), (Z.eqb_spec (mem_ptr b) 0), (from_syscall a), (from_syscall b),
    (Z.eqb_spec (mem_ptr b) (mem_ptr a)), (Z.eqb_spec (read_size a) (read_size b)); cbn; naive_solver congruence.
Qed.

Lemma same_source_source a b t : mem_ptr a = mem_ptr b -> read_size a = read_size b -> source a t = source b t.
Proof. intros H1 H2. unfold source. by rewrite H1, H2. Qed.

(** The bytes the parameters [done] took from the source of [n]. *)
Fixpoint consumed (n : ParamSize) (done : list (MemoryParam * Z)) : Z :=
  match done with
  | [] => 0
  | (q, k) :: done => consumed n done + (if is_same_source (num_bytes q) n then k else 0)
  end.

Definition size_of (t : Tracee) (done : list (MemoryParam * Z)) (n : ParamSize) : Z :=
  if sized n then Z.min (incoming_size n) (source n t - consumed n done) else incoming_size n.

(** The parameters [l] with their sizes, after [done]. *)
Fixpoint sized_list (t : Tracee) (done : list (MemoryParam * Z)) (l : list MemoryParam) : list (MemoryParam * Z) :=
  match l with
  | [] => []
  | p :: l => let k := size_of t done (num_bytes p) in (p, k) :: sized_list t (done ++ [(p, k)]) l
  end.

Lemma consumed_snoc n done q k :
  consumed n (done ++ [(q, k)]) = consumed n done + (if is_same_source (num_bytes q) n then k else 0).
Proof. induction done as [|[p j] done IH]; cbn [consumed app]; [lia|]. rewrite IH. lia. Qed.

Lemma consumed_same ok a b done : size_ok ok a -> size_ok ok b -> is_same_source a b = true ->
  Forall (fun x => size_ok ok (num_bytes x.1)) done -> consumed b done = consumed a done.
Proof.
  intros Ha Hb Hab. apply (same_source_spec ok) in Hab as (Sa & Sb & Hm & Hr); [|done|done].
  induction 1 as [|[q k] done Hq _ IH]; cbn [consumed]; [done|]. cbn in Hq. rewrite IH. f_equal.
  assert (is_same_source (num_bytes q) a = is_same_source (num_bytes q) b) as Heq; [|by rewrite Heq].
  apply eq_true_iff_eq. rewrite !(same_source_spec ok) by done. rewrite Sa, Sb, Hm, Hr. done.
Qed.

(** No source is used up. *)
Definition within_sources (t : Tracee) (ok : Z -> Prop) (done : list (MemoryParam * Z)) : Prop :=
  Forall (fun x => size_ok ok (num_bytes x.1) /\ 0 <= x.2) done /\
  forall n, size_ok ok n -> sized n = true -> consumed n done <= source n t.

Lemma within_snoc t ok done p : within_sources t ok done -> size_ok ok (num_bytes p) ->
  within_sources t ok (done ++ [(p, size_of t done (num_bytes p))]).
Proof.
  intros [Hd Hc] Hp. pose proof (sz_incoming _ _ Hp). split.
  - apply Forall_app. split; [done|]. constructor; [|constructor]. split; [done|]. cbn. unfold size_of.
    destruct (sized (num_bytes p)) eqn:E; [|lia]. pose proof (Hc _ Hp E). lia.
  - intros n Hn Hs. rewrite consumed_snoc. destruct (is_same_source (num_bytes p) n) eqn:E; [|pose proof (Hc n Hn Hs); lia].
    rewrite (consumed_same ok (num_bytes p) n); [|done|done|done|by eapply Forall_impl; [done|]; intros ? []].
    apply (same_source_spec ok) in E as (Sp & _ & Hm & Hr); [|done|done]. unfold size_of. rewrite Sp.
    rewrite (same_source_source n (num_bytes p) t) by done. lia.
Qed.

Lemma size_of_bounds t ok done n : within_sources t ok done -> size_ok ok n -> 0 <= size_of t done n <= incoming_size n.
Proof.
  intros [_ Hc] Hn. pose proof (sz_incoming _ _ Hn). unfold size_of. destruct (sized n) eqn:E; [|lia].
  pose proof (Hc n Hn E). lia.
Qed.

Lemma sized_list_sizes ok t l : forall d, Forall (fun p => size_ok ok (num_bytes p)) l -> within_sources t ok d ->
  Forall (fun x => 0 <= x.2 <= incoming_size (num_bytes x.1)) (sized_list t d l).
Proof.
  induction l as [|p l IH]; intros d Hl Hw; cbn [sized_list]; [constructor|]. apply Forall_cons in Hl as [Hp Hl].
  constructor; [by eapply size_of_bounds|by apply IH; [|apply within_snoc]].
Qed.

Definition bytes_ok (m : Memory) : Prop := forall a v, m !! a = Some v -> 0 <= v < 256.

Lemma le_val_bound l : Forall (fun b => 0 <= b < 256) l -> 0 <= le_val l < 256 ^ Z.of_nat (length l).
Proof.
  induction 1 as [|b l Hb _ IH]; cbn [le_val length]; [lia|]. rewrite Nat2Z.inj_succ, Z.pow_succ_r by lia. lia.
Qed.

Lemma read_bytes_ok n : forall a m, bytes_ok m -> Forall (fun b => 0 <= b < 256) (read_bytes n a m).
Proof.
  induction n as [|n IH]; intros a m H; cbn [read_bytes]; [constructor|]. destruct (m !! a) eqn:E; [|constructor].
  constructor; [by eapply H|by apply IH].
Qed.

Lemma source_bounds ok n t : size_ok ok n -> sized n = true -> all_mapped ok (mem t) -> bytes_ok (mem t) ->
  result t < 2 ^ 63 -> 0 <= source n t < 2 ^ 64.
Proof.
  intros Hn Hs Hm Hb Hr. unfold source. destruct (Z.eqb_spec (mem_ptr n) 0) as [|Hne].
  - unfold wrap. destruct (read_size n =? 4); [pose proof (Z.mod_pos_bound (Z.max 0 (result t)) (2 ^ 32)); lia|lia].
  - pose proof (sz_ptr _ _ Hn Hne) as Hp. pose proof (le_val_bound _ (read_bytes_ok (Z.to_nat (read_size n)) (mem_ptr n) _ Hb)) as H1.
    destruct (sz_read _ _ Hn Hs) as [E|E]; rewrite E in *; rewrite read_bytes_full in H1 by (intros a Ha; apply Hm, Hp; lia).
    + change (256 ^ Z.of_nat (Z.to_nat 4)) with (2 ^ 32) in H1. lia.
    + change (256 ^ Z.of_nat (Z.to_nat 8)) with (2 ^ 64) in H1. lia.
Qed.

Lemma consumed_nonneg n done : Forall (fun x => 0 <= x.2) done -> 0 <= consumed n done.
Proof. induction 1 as [|[q k] done Hk _ IH]; cbn [consumed snd] in *; [lia|]. case_match; lia. Qed.

Lemma already_consumed_ok p done : Forall (fun x => 0 <= x.2) done -> consumed (num_bytes p) done < 2 ^ 64 ->
  already_consumed p done.*1 done.*2 = Ok (consumed (num_bytes p) done).
Proof.
  induction 1 as [|[q k] done Hk Hd IH]; cbn [fmap list_fmap already_consumed consumed fst snd] in *; [done|]. intros Hc.
  pose proof (consumed_nonneg (num_bytes p) done Hd). rewrite IH by (case_match; lia). cbn [mbind res_bind].
  case_match; [|f_equal; lia]. unfold checked_add. by rewrite (proj2 (Z.ltb_lt _ _)) by lia.
Qed.

Lemma eval_param_size_ok ok t t' p done : within_sources t ok done -> size_ok ok (num_bytes p) ->
  all_mapped ok (mem t') -> bytes_ok (mem t) -> all_mapped ok (mem t) -> result t < 2 ^ 63 ->
  source (num_bytes p) t' = source (num_bytes p) t ->
  eval_param_size done.*1 p done.*2 t' = Ok (size_of t done (num_bytes p)).
Proof.
  intros [Hd Hc] Hp Hm' Hb Hm Hr Hs. unfold eval_param_size.
  assert (Forall (fun x => 0 <= x.2) done) as Hk by (eapply Forall_impl; [done|]; by intros ? []).
  destruct (sized (num_bytes p)) eqn:E.
  - pose proof (Hc _ Hp E). pose proof (source_bounds ok _ t Hp E Hm Hb Hr).
    rewrite already_consumed_ok by (done || lia). cbn [mbind res_bind].
    rewrite (eval_ok ok) by (done || lia). unfold size_of. by rewrite E, Hs.
  - assert (consumed (num_bytes p) done = 0) as H0.
    { clear Hk Hc. induction Hd as [|[q k] d [Hq _] _ IH]; cbn [consumed]; [done|]. rewrite IH.
      destruct (is_same_source (num_bytes q) (num_bytes p)) eqn:Es; [|lia].
      apply (same_source_spec ok) in Es as (_ & Sp & _); [congruence|done|done]. }
    rewrite already_consumed_ok by (done || lia). cbn [mbind res_bind].
    rewrite (eval_ok ok) by (done || congruence). unfold size_of. by rewrite E.
Qed.

(** ** A system call that ran in scratch memory *)

Section Results.
Context (i : TaskInfo) (hi : Z) (t0 t2 : Tracee).
Abbreviation lo := (scratch_ptr i).
Abbreviation area := (fun a => scratch_ptr i <= a < hi).

(** A parameter after preparing. *)
Record settled (p : MemoryParam) : Prop := mkSettled {
  st_dest : 0 < dest p;
  st_size : size_ok area (num_bytes p);
  st_inside : in_scratch p = true -> lo <= scratch_of p /\ scratch_of p + incoming_size (num_bytes p) <= hi;
  st_away : dest p + incoming_size (num_bytes p) <= lo \/ hi <= dest p;
  st_reg : ptr_in_reg p <> 0 -> 1 <= ptr_in_reg p <= 6 /\ args t0 !! Z.to_nat (ptr_in_reg p - 1) = Some (dest p);
  st_mem : ptr_in_memory p <> 0 -> get_remote_ptr i (ptr_in_memory p) t0 = Ok (dest p) /\
    (ptr_in_memory p + Z.of_nat (word i) <= lo \/ hi <= ptr_in_memory p)
}.

Hypothesis Hlo : 0 < lo.
Hypothesis Hlohi : lo <= hi <= 2 ^ 47.
Hypothesis Hscratch : mapped lo (hi - lo) (mem t2).
Hypothesis Hbytes : bytes_ok (mem t2).
Hypothesis Hresult : result t2 < 2 ^ 63.

Context (data : list Z).
Hypothesis Hdata : read_mem lo (hi - lo) (mem t2) = Ok data.

(** The [n] bytes a parameter has in scratch memory. *)
Definition scratch_bytes (p : MemoryParam) (n : Z) : list Z := take (Z.to_nat n) (drop (Z.to_nat (scratch_of p - lo)) data).

Lemma slice_ok p n : settled p -> in_scratch p = true -> 0 <= n <= incoming_size (num_bytes p) ->
  (offset ← checked_sub (scratch_of p) lo; slice data offset n) = Ok (scratch_bytes p n).
Proof.
  intros Hp Hs Hn. destruct (st_inside _ Hp Hs) as [H1 H2]. pose proof (read_mem_length _ _ _ _ Hdata) as Hl.
  unfold checked_sub, slice, checked_add. rewrite (proj2 (Z.leb_le _ _)) by lia. cbn [mbind res_bind].
  rewrite (proj2 (Z.ltb_lt _ _)) by lia. cbn [mbind res_bind]. by rewrite (proj2 (Z.leb_le _ _)) by lia.
Qed.

Lemma scratch_bytes_length p n : settled p -> in_scratch p = true -> 0 <= n <= incoming_size (num_bytes p) ->
  Z.of_nat (length (scratch_bytes p n)) = n.
Proof.
  intros Hp Hs Hn. destruct (st_inside _ Hp Hs) as [H1 H2]. pose proof (read_mem_length _ _ _ _ Hdata) as Hl.
  unfold scratch_bytes. rewrite length_take, length_drop. lia.
Qed.

Lemma scratch_bytes_lookup p n k : settled p -> in_scratch p = true -> 0 <= n <= incoming_size (num_bytes p) -> 0 <= k < n ->
  scratch_bytes p n !! Z.to_nat k = mem t2 !! (scratch_of p + k).
Proof.
  intros Hp Hs Hn Hk. destruct (st_inside _ Hp Hs) as [H1 H2].
  rewrite (read_mem_lookup lo (hi - lo) (mem t2) data) by (done || lia).
  unfold scratch_bytes. rewrite lookup_take_lt, lookup_drop by lia. f_equal. lia.
Qed.

(** The copies out of scratch memory. *)
Definition outs (pn : list (MemoryParam * Z)) : list (Z * list Z) :=
  omap (fun x => if writes_back x.1 then Some (dest x.1, scratch_bytes x.1 x.2) else None) pn.

Lemma writes_back_in_scratch p : writes_back p = true -> in_scratch p = true.
Proof. unfold writes_back, in_scratch. by destruct (mode p). Qed.

Lemma source_scratch n t : size_ok area n -> (forall a, lo <= a < hi -> mem t !! a = mem t2 !! a) -> result t = result t2 ->
  source n t = source n t2.
Proof.
  intros Hn Hm Hr. unfold source. rewrite Hr. destruct (Z.eqb_spec (mem_ptr n) 0) as [|Hne]; [done|].
  f_equal. apply read_bytes_agree. intros a Ha. apply Hm, (sz_ptr _ _ Hn Hne). lia.
Qed.

Lemma copy_outputs_ok l : forall done t, Forall settled l -> within_sources t2 area done ->
  (forall a, lo <= a < hi -> mem t !! a = mem t2 !! a) -> (forall a, is_Some (mem t !! a) <-> is_Some (mem t2 !! a)) ->
  result t = result t2 ->
  Forall (fun x => writes_back x.1 = true -> mapped (dest x.1) x.2 (mem t2)) (sized_list t2 done l) ->
  copy_outputs i true data done.*1 l done.*2 t =
  Ok (done.*2 ++ (sized_list t2 done l).*2, set_mem (apply_writes (outs (sized_list t2 done l)) (mem t)) t).
Proof.
  induction l as [|p l IH]; intros done t Hl Hw Hm Hdom Hr Hmap; cbn [copy_outputs sized_list].
  { cbn. rewrite app_nil_r. by destruct t. }
  apply Forall_cons in Hl as [Hp Hl]. pose proof (st_size _ Hp) as Hsz. cbn [sized_list] in Hmap.
  set (n := size_of t2 done (num_bytes p)) in *. apply Forall_cons in Hmap as [Hmp Hmap]. cbn [fst snd] in Hmp.
  assert (all_mapped area (mem t)) as Hmt by (intros a Ha; apply Hdom, Hscratch; lia).
  assert (all_mapped area (mem t2)) as Hmt2 by (intros a Ha; apply Hscratch; lia).
  rewrite (eval_param_size_ok area t2 t) by (done || by apply source_scratch). fold n. cbn [mbind res_bind].
  pose proof (size_of_bounds _ _ _ _ Hw Hsz) as Hn. fold n in Hn.
  pose proof (within_snoc _ _ _ _ Hw Hsz) as Hw'. fold n in Hw'.
  assert (done.*1 ++ [p] = (done ++ [(p, n)]).*1) as E1 by (by rewrite fmap_app).
  assert (done.*2 ++ [n] = (done ++ [(p, n)]).*2) as E2 by (by rewrite fmap_app).
  cbn [outs omap list_omap fst snd fmap list_fmap]. destruct (writes_back p) eqn:Ewb; cbn [andb].
  - pose proof (writes_back_in_scratch p Ewb) as Hs. pose proof (slice_ok p n Hp Hs Hn) as Hsl.
    apply bind_Ok in Hsl as (off & -> & Hsl). cbn [mbind res_bind]. rewrite Hsl. cbn [mbind res_bind].
    pose proof (scratch_bytes_length p n Hp Hs Hn) as Hlen. unfold write.
    rewrite write_mem_ok; [|rewrite Hlen; intros a Ha; apply Hdom; by apply Hmp]. cbn [mbind res_bind]. rewrite E1, E2.
    rewrite IH; [|done|done| | |done|done].
    + rewrite fmap_app, <- app_assoc. done.
    + intros a Ha. cbn [mem set_mem]. rewrite write_map_lookup, decide_False; [by apply Hm|]. rewrite Hlen.
      pose proof (st_away _ Hp). lia.
    + intros a. cbn [mem set_mem]. rewrite write_map_lookup. case_decide as Hd; [|apply Hdom]. rewrite Hlen in Hd.
      split; intros _; [by apply Hmp|apply lookup_lt_is_Some; lia].
  - cbn [mbind res_bind]. rewrite E1, E2, IH by done. rewrite fmap_app, <- app_assoc. done.
Qed.

(** ** The pointers put back *)

Hypothesis Hdom02 : forall a, is_Some (mem t2 !! a) <-> is_Some (mem t0 !! a).

Definition ptrs (l : list MemoryParam) : list (Z * list Z) :=
  omap (fun p => if ptr_in_memory p =? 0 then None else Some (ptr_in_memory p, le_bytes (word i) (dest p))) l.

Lemma read_mem_mapped a n m l : read_mem a n m = Ok l -> mapped a n m.
Proof.
  intros H x Hx. rewrite (read_mem_lookup _ _ _ _ _ H Hx). apply lookup_lt_is_Some.
  pose proof (read_mem_length _ _ _ _ H). lia.
Qed.

Lemma pointer_bytes p : settled p -> ptr_in_memory p <> 0 ->
  exists l, read_mem (ptr_in_memory p) (Z.of_nat (word i)) (mem t0) = Ok l /\ dest p = le_val l.
Proof.
  intros Hp Hne. destruct (st_mem _ Hp Hne) as [H _]. unfold get_remote_ptr in H. apply bind_Ok in H as (l & Hl & [= <-]).
  by exists l.
Qed.

Lemma restore_pointers_ok l : forall r t, Forall settled l -> (forall a, is_Some (mem t !! a) <-> is_Some (mem t0 !! a)) ->
  restore_pointers i l r t =
  Ok (existsb (fun p => negb (ptr_in_memory p =? 0)) l, foldl (set_reg dest) r l, set_mem (apply_writes (ptrs l) (mem t)) t).
Proof.
  induction l as [|p l IH]; intros r t Hl Hd; cbn [restore_pointers existsb foldl]; [by destruct t|].
  apply Forall_cons in Hl as [Hp Hl].
  assert ((if negb (ptr_in_reg p =? 0) then set_arg (ptr_in_reg p) (dest p) r else Ok r) = Ok (set_reg dest r p)) as ->.
  { unfold set_reg. destruct (Z.eqb_spec (ptr_in_reg p) 0) as [|Hr]; [done|]. cbn [negb]. apply set_arg_ok. by apply Hp. }
  cbn [mbind res_bind ptrs omap list_omap]. destruct (Z.eqb_spec (ptr_in_memory p) 0) as [H0|Hne]; cbn [negb].
  - cbn [mbind res_bind]. rewrite IH by done. cbn [mbind res_bind]. by rewrite orb_false_r.
  - destruct (pointer_bytes p Hp Hne) as (lb & Hlb & _). apply read_mem_mapped in Hlb.
    unfold set_remote_ptr, write. rewrite write_mem_ok by (rewrite le_bytes_length; intros a Ha; apply Hd; by apply Hlb).
    cbn [mbind res_bind]. rewrite IH; [|done|].
    + cbn [mbind res_bind]. by rewrite orb_true_r.
    + intros a. cbn [mem set_mem]. rewrite write_map_lookup, le_bytes_length. case_decide as Hr; [|apply Hd].
      split; intros _; [by apply Hlb|apply lookup_lt_is_Some; rewrite le_bytes_length; lia].
Qed.

(** The registers are those the system call was entered with. *)
Lemma registers_restored l : forall r, Forall settled l -> length r = length (args t0) ->
  (forall k, r !! k = args t0 !! k \/ exists p, p ∈ l /\ ptr_in_reg p = Z.of_nat k + 1) ->
  foldl (set_reg dest) r l = args t0.
Proof.
  induction l as [|p l IH]; intros r Hl Hlen H; cbn [foldl].
  { apply list_eq. intros k. destruct (H k) as [?|(p & Hp & _)]; [done|by apply elem_of_nil in Hp]. }
  apply Forall_cons in Hl as [Hp Hl]. unfold set_reg at 2. destruct (Z.eqb_spec (ptr_in_reg p) 0) as [H0|Hne].
  - apply IH; [done|done|]. intros k. destruct (H k) as [?|(q & Hq & Hk)]; [by left|right].
    apply elem_of_cons in Hq as [->|Hq]; [lia|by exists q].
  - destruct (st_reg _ Hp Hne) as [Hr Ha]. apply IH; [done|by rewrite length_insert|]. intros k.
    destruct (decide (k = Z.to_nat (ptr_in_reg p - 1))) as [->|Hk].
    + left. rewrite list_lookup_insert_eq; [done|]. apply lookup_lt_Some in Ha. lia.
    + rewrite list_lookup_insert_ne by done. destruct (H k) as [?|(q & Hq & Hqk)]; [by left|right].
      apply elem_of_cons in Hq as [->|Hq]; [lia|by exists q].
Qed.

(** ** What is recorded *)

Definition read_at (a n : Z) (m : Memory) : list Z := read_bytes (Z.to_nat n) a m.

Definition record_of (cleaned : bool) (m : Memory) (x : MemoryParam * Z) : option (Z * list Z) :=
  if decide (mode x.1 = InOutNoScratch) then Some (dest x.1, read_at (dest x.1) x.2 m)
  else if writes_back x.1 then Some (dest x.1, if cleaned then read_at (dest x.1) x.2 m else scratch_bytes x.1 x.2)
  else None.

(** Parameters whose memory may have changed. *)
Definition recorded (p : MemoryParam) : bool := bool_decide (mode p = InOutNoScratch) || writes_back p.

Lemma record_remote_ok a n t : a <> 0 -> 0 <= n -> mapped a n (mem t) -> record_remote a n t = Ok (write_raw a (read_at a n (mem t)) t).
Proof.
  intros Ha Hn Hm. unfold record_remote, read_mem, read_at. rewrite (proj2 (Z.eqb_neq _ _) Ha).
  rewrite read_bytes_full by (by rewrite Z2Nat.id). rewrite Z2Nat.id, Z.eqb_refl by done. done.
Qed.

Lemma record_outputs_ok cleaned pn : forall t, Forall (fun x => settled x.1 /\ 0 <= x.2 <= incoming_size (num_bytes x.1)) pn ->
  Forall (fun x => recorded x.1 = true -> mapped (dest x.1) x.2 (mem t)) pn ->
  record_outputs i cleaned data pn.*1 pn.*2 t =
  Ok (mkTracee (mem t) (args t) (result t) (records t ++ omap (record_of cleaned (mem t)) pn)).
Proof.
  induction pn as [|[p n] pn IH]; intros t Hl Hm; [cbn; rewrite app_nil_r; by destruct t|].
  rewrite !fmap_cons. cbn [fst snd record_outputs omap list_omap].
  apply Forall_cons in Hl as [[Hp Hn] Hl]. apply Forall_cons in Hm as [Hmp Hm]. cbn [fst snd head unwrap mbind res_bind tail] in *.
  pose proof (st_dest _ Hp) as Hd. unfold record_of at 1. unfold recorded in Hmp. cbn [fst snd].
  destruct (decide (mode p = InOutNoScratch)) as [Hmode|Hmode].
  - rewrite bool_decide_true in Hmp by done. rewrite record_remote_ok by (lia || by apply Hmp). cbn [mbind res_bind].
    rewrite IH by done. cbn. by rewrite <- app_assoc.
  - destruct (writes_back p) eqn:Ewb; [|by apply IH]. rewrite orb_true_r in Hmp.
    pose proof (writes_back_in_scratch p Ewb) as Hs. destruct cleaned.
    + rewrite record_remote_ok by (lia || by apply Hmp). cbn [mbind res_bind]. rewrite IH by done. cbn. by rewrite <- app_assoc.
    + pose proof (slice_ok p n Hp Hs Hn) as Hsl. apply bind_Ok in Hsl as (off & -> & Hsl). cbn [mbind res_bind].
      rewrite Hsl. cbn [mbind res_bind]. unfold record_local. rewrite (proj2 (Z.eqb_neq (dest p) 0)) by lia.
      rewrite IH by done. cbn. by rewrite <- app_assoc.
Qed.

(** ** Together *)

Lemma sized_list_params t l : forall done, (sized_list t done l).*1 = l.
Proof. induction l as [|p l IH]; intros d; cbn [sized_list]; [reflexivity|]. by rewrite fmap_cons, IH. Qed.

Lemma within_nil : within_sources t2 area [].
Proof.
  split; [constructor|]. intros n Hn Hs. cbn [consumed]. assert (all_mapped area (mem t2)) as Hmt2 by (intros a Ha; apply Hscratch; lia).
  by apply (source_bounds area n t2 Hn Hs Hmt2 Hbytes Hresult).
Qed.

Lemma sized_list_elem t l x : forall d, x ∈ sized_list t d l -> x.1 ∈ l.
Proof. intros d H. rewrite <- (sized_list_params t l d). by apply list_elem_of_fmap_2. Qed.

Context (l : list MemoryParam).
Hypothesis Hsettled : Forall settled l.
Abbreviation results := (sized_list t2 [] l).

(** What the kernel may write to directly is mapped, and so is where results go. *)
Hypothesis Hmapped : Forall (fun x => recorded x.1 = true -> mapped (dest x.1) x.2 (mem t2)) results.
(** The kernel wrote to scratch memory and to the parameters that must not be moved. *)
Hypothesis Hkernel : forall a, outside lo hi a ->
  Forall (fun x => mode x.1 = InOutNoScratch -> ~ (dest x.1 <= a < dest x.1 + x.2)) results -> mem t2 !! a = mem t0 !! a.
Hypothesis Hbytes0 : bytes_ok (mem t0).

Definition cleaned_up : bool := existsb (fun p => negb (ptr_in_memory p =? 0)) l.
Definition final_mem : Memory := apply_writes (ptrs l) (apply_writes (outs results) (mem t2)).
Definition new_records : list (Z * list Z) := omap (record_of cleaned_up final_mem) results.

Lemma results_bounds : Forall (fun x => settled x.1 /\ 0 <= x.2 <= incoming_size (num_bytes x.1)) results.
Proof.
  assert (Forall (fun p => size_ok area (num_bytes p)) l) as Hl by (eapply Forall_impl; [done|]; by intros p []).
  pose proof (sized_list_sizes area t2 l [] Hl within_nil) as Hs. rewrite Forall_forall in Hs. apply Forall_forall. intros x Hx.
  split; [|by apply Hs]. eapply (proj1 (Forall_forall _ _) Hsettled), sized_list_elem, Hx.
Qed.

Lemma outs_elem w : w ∈ outs results -> exists p n, (p, n) ∈ results /\ writes_back p = true /\
  w = (dest p, scratch_bytes p n) /\ Z.of_nat (length w.2) = n.
Proof.
  intros H. apply list_elem_of_omap in H as ([p n] & Hin & H). cbn in H. destruct (writes_back p) eqn:E; [|done].
  injection H as <-. exists p, n. splits; try done. pose proof results_bounds as Hb. rewrite Forall_forall in Hb.
  destruct (Hb _ Hin) as [Hp Hn]. cbn. apply scratch_bytes_length; [done|by apply writes_back_in_scratch|done].
Qed.

Lemma outs_dom a : is_Some (apply_writes (outs results) (mem t2) !! a) <-> is_Some (mem t2 !! a).
Proof.
  rewrite apply_writes_lookup. destruct (last_cover (outs results) a) as [v|] eqn:E; [|done]. split; [|by eexists]. intros _.
  destruct (decide (Forall (fun w => ~ (w.1 <= a < w.1 + Z.of_nat (length w.2))) (outs results))) as [H|H].
  { apply last_cover_None in H. congruence. }
  apply not_Forall_Exists in H; [|intros ?; apply _]. apply Exists_exists in H as (w & Hw & Hc).
  destruct (outs_elem w Hw) as (p & n & Hin & Hwb & -> & Hlen). rewrite Forall_forall in Hmapped.
  apply (Hmapped _ Hin); cbn in *; [unfold recorded; rewrite Hwb; apply orb_true_r|lia].
Qed.

Lemma ptrs_elem w : w ∈ ptrs l -> exists p, p ∈ l /\ ptr_in_memory p <> 0 /\ w = (ptr_in_memory p, le_bytes (word i) (dest p)).
Proof.
  intros H. apply list_elem_of_omap in H as (p & Hin & H). destruct (Z.eqb_spec (ptr_in_memory p) 0); [done|].
  injection H as <-. by exists p.
Qed.

(** The bytes of a pointer are those it had. *)
Lemma ptrs_cover a v : last_cover (ptrs l) a = Some v -> mem t0 !! a = Some v.
Proof.
  assert (forall w, w ∈ ptrs l -> w.1 <= a < w.1 + Z.of_nat (length w.2) -> w.2 !! Z.to_nat (a - w.1) = mem t0 !! a) as H.
  { intros w Hw Hc. destruct (ptrs_elem w Hw) as (p & Hp & Hne & ->). rewrite Forall_forall in Hsettled.
    destruct (pointer_bytes p (Hsettled p Hp) Hne) as (lb & Hlb & ->). cbn [fst snd] in *. rewrite le_bytes_length in Hc.
    pose proof (read_mem_length _ _ _ _ Hlb) as Hlen. apply Nat2Z.inj in Hlen. rewrite <- Hlen, le_bytes_val.
    - symmetry. eapply read_mem_lookup; [done|lia].
    - unfold read_mem in Hlb. destruct (_ =? _) in Hlb; [|done]. injection Hlb as <-. by apply read_bytes_ok. }
  revert v H. induction (ptrs l) as [|w ws IH]; intros v H; cbn [last_cover]; [done|].
  destruct (last_cover ws a) as [u|] eqn:E.
  - intros [= ->]. apply IH; [|done]. intros w' Hw'. apply H. by right.
  - case_decide as Hc; [|done]. intros Hv. rewrite <- Hv. symmetry. apply H; [left|done].
Qed.

Lemma final_dom a : is_Some (final_mem !! a) <-> is_Some (mem t2 !! a).
Proof.
  unfold final_mem. rewrite apply_writes_lookup. destruct (last_cover (ptrs l) a) as [v|] eqn:E; [|apply outs_dom].
  apply ptrs_cover in E. rewrite Hdom02, E. split; by eexists.
Qed.

Lemma process_in_scratch s r : param_list s = l -> scratch s = hi -> scratch_enabled s = true -> preparation_done s = true ->
  write_back s = WriteBack -> should_emulate_result s = false -> after_syscall_actions s = [] ->
  args t2 = r -> length r = length (args t0) ->
  (forall k, r !! k = args t0 !! k \/ exists p, p ∈ l /\ ptr_in_reg p = Z.of_nat k + 1) ->
  process_syscall_results i s t2 = Ok (s, mkTracee final_mem (args t0) (result t2) (records t2 ++ new_records)).
Proof.
  intros Hl Hs He Hp Hwb Hem Hact Hr Hrl Hregs. unfold process_syscall_results. rewrite Hp, He, Hs, Hwb, Hl. cbn [negb].
  unfold wrap. rewrite Z.mod_small by lia. rewrite Hdata. cbn [mbind res_bind]. rewrite bool_decide_true by done.
  pose proof (copy_outputs_ok l [] t2 Hsettled within_nil) as Hco. cbn [fmap list_fmap app] in Hco. rewrite Hco; try done.
  2:{ eapply Forall_impl; [apply Hmapped|]. intros x H Hx. apply H. unfold recorded. rewrite Hx. apply orb_true_r. }
  cbn [mbind res_bind fst snd]. rewrite restore_pointers_ok; [|done|intros a; cbn [mem set_mem]; by rewrite outs_dom, Hdom02].
  rewrite Hr, (registers_restored l r) by done. cbn [mbind res_bind mem set_mem]. fold final_mem.
  pose proof (record_outputs_ok cleaned_up results (set_mem final_mem (set_mem (apply_writes (outs results) (mem t2)) t2)) results_bounds) as Hrec.
  rewrite sized_list_params in Hrec. fold cleaned_up. rewrite Hrec.
  - cbn [mbind res_bind]. rewrite Hem, Hact. cbn. unfold set_args. cbn. done.
  - eapply Forall_impl; [apply Hmapped|]. intros x H Hx a Ha. cbn [mem set_mem]. apply final_dom. by apply H.
Qed.

Lemma read_at_cover a n m x : 0 <= n -> mapped a n m -> a <= x < a + n ->
  Z.of_nat (length (read_at a n m)) = n /\ read_at a n m !! Z.to_nat (x - a) = m !! x.
Proof.
  intros Hn Hm Hx. assert (length (read_at a n m) = Z.to_nat n) as Hl by (apply read_bytes_full; by rewrite Z2Nat.id).
  split; [lia|]. unfold read_at in *. rewrite read_bytes_spec, decide_True by lia. f_equal. lia.
Qed.

(** One record: what it covers, and that it holds the final byte or the byte copied out. *)
Lemma record_of_cover c m x w : (forall a, is_Some (m !! a) <-> is_Some (mem t2 !! a)) ->
  settled x.1 -> 0 <= x.2 <= incoming_size (num_bytes x.1) ->
  (recorded x.1 = true -> mapped (dest x.1) x.2 (mem t2)) -> record_of c m x = Some w ->
  w.1 = dest x.1 /\ Z.of_nat (length w.2) = x.2 /\
  ((c = false /\ writes_back x.1 = true /\ w = (dest x.1, scratch_bytes x.1 x.2)) \/
   forall a, dest x.1 <= a < dest x.1 + x.2 -> w.2 !! Z.to_nat (a - w.1) = m !! a).
Proof.
  intros Hdom Hp Hn Hm H. unfold record_of, recorded in *.
  assert (recorded x.1 = true -> Z.of_nat (length (read_at (dest x.1) x.2 m)) = x.2 /\
    forall a, dest x.1 <= a < dest x.1 + x.2 -> read_at (dest x.1) x.2 m !! Z.to_nat (a - dest x.1) = m !! a) as Hread.
  { intros Hr. assert (mapped (dest x.1) x.2 m) as Hmm by (intros y Hy; apply Hdom; by apply Hm).
    split; [unfold read_at; rewrite read_bytes_full; rewrite ?Z2Nat.id by lia; done|].
    intros a Ha. by apply read_at_cover; [lia|..]. }
  unfold recorded in Hread. destruct (decide (mode x.1 = InOutNoScratch)) as [Hmode|Hmode].
  - rewrite bool_decide_true in Hread by done. destruct (Hread eq_refl). injection H as <-. splits; [done|done|by right].
  - destruct (writes_back x.1) eqn:Ewb; [|done]. rewrite orb_true_r in Hread. destruct (Hread eq_refl). injection H as <-.
    cbn [fst snd]. destruct c; (split; [done|]); [split; [done|by right]|]. split; [|by left].
    apply scratch_bytes_length; [done|by apply writes_back_in_scratch|done].
Qed.

Lemma last_cover_cons w ws a : w.1 <= a < w.1 + Z.of_nat (length w.2) -> last_cover ws a = None ->
  last_cover (w :: ws) a = w.2 !! Z.to_nat (a - w.1) /\ is_Some (w.2 !! Z.to_nat (a - w.1)).
Proof. intros Hc Hn. cbn [last_cover]. rewrite Hn, decide_True by done. split; [done|]. apply lookup_lt_is_Some. lia. Qed.

Lemma last_cover_skip w ws a : ~ (w.1 <= a < w.1 + Z.of_nat (length w.2)) -> last_cover (w :: ws) a = last_cover ws a.
Proof. intros Hc. cbn [last_cover]. rewrite decide_False by done. by destruct (last_cover ws a). Qed.

Lemma last_cover_tail w ws a v : last_cover ws a = Some v -> last_cover (w :: ws) a = Some v.
Proof. intros H. cbn [last_cover]. by rewrite H. Qed.

Lemma outs_cons x pn : outs (x :: pn) = if writes_back x.1 then (dest x.1, scratch_bytes x.1 x.2) :: outs pn else outs pn.
Proof. unfold outs. cbn [omap list_omap]. by destruct (writes_back x.1). Qed.

(** A record holds the final byte, or the byte that was copied out last. *)
Lemma records_cover c m pn a : (forall x, is_Some (m !! x) <-> is_Some (mem t2 !! x)) ->
  Forall (fun x => settled x.1 /\ 0 <= x.2 <= incoming_size (num_bytes x.1)) pn ->
  Forall (fun x => recorded x.1 = true -> mapped (dest x.1) x.2 (mem t2)) pn ->
  match last_cover (omap (record_of c m) pn) a with
  | Some v => m !! a = Some v \/ (c = false /\ last_cover (outs pn) a = Some v)
  | None => last_cover (outs pn) a = None /\
      Forall (fun x => mode x.1 = InOutNoScratch -> ~ (dest x.1 <= a < dest x.1 + x.2)) pn
  end.
Proof.
  intros Hdom Hb Hm. induction pn as [|x pn IH]; [by split|].
  apply Forall_cons in Hb as [[Hp Hn] Hb]. apply Forall_cons in Hm as [Hmp Hm]. specialize (IH Hb Hm).
  rewrite outs_cons. cbn [omap list_omap]. destruct (record_of c m x) as [w|] eqn:Ew.
  2:{ unfold record_of in Ew. destruct (decide (mode x.1 = InOutNoScratch)); [done|]. destruct (writes_back x.1); [done|].
      destruct (last_cover (omap (record_of c m) pn) a); [done|]. destruct IH. split; [done|by constructor]. }
  destruct (record_of_cover c m x w Hdom Hp Hn Hmp Ew) as (H1 & H2 & H3).
  destruct (last_cover (omap (record_of c m) pn) a) as [v|] eqn:El.
  { rewrite (last_cover_tail _ _ _ v El). destruct IH as [IH|[-> IH]]; [by left|right]. split; [done|].
    destruct (writes_back x.1); [by apply last_cover_tail|done]. }
  destruct IH as [IH1 IH2]. destruct (decide (w.1 <= a < w.1 + Z.of_nat (length w.2))) as [Hc|Hc].
  - destruct (last_cover_cons _ _ _ Hc El) as [-> [v Hv]]. rewrite Hv. destruct H3 as [(-> & Hwb & ->)|H3].
    + right. split; [done|]. rewrite Hwb. by destruct (last_cover_cons _ _ _ Hc IH1) as [-> _].
    + left. rewrite <- H3 by lia. done.
  - rewrite (last_cover_skip _ _ _ Hc), El. split; [|constructor; [intros _; lia|done]].
    destruct (writes_back x.1) eqn:Ewb; [|done]. rewrite last_cover_skip; [done|]. cbn [fst snd].
    rewrite scratch_bytes_length by (done || by apply writes_back_in_scratch). lia.
Qed.

(** Applying the records to memory as it was before the system call gives memory as it
    is after it. *)
Lemma records_replay a : outside lo hi a -> apply_writes new_records (mem t0) !! a = final_mem !! a.
Proof.
  intros Ha. rewrite apply_writes_lookup.
  pose proof (records_cover cleaned_up final_mem results a final_dom results_bounds Hmapped) as H. fold new_records in H.
  destruct (last_cover new_records a) as [v|].
  - destruct H as [H|[Hc H]]; [done|]. unfold final_mem.
    assert (ptrs l = []) as ->.
    { unfold cleaned_up in Hc. clear -Hc. induction l as [|p l' IH]; [done|]. cbn in *. apply orb_false_iff in Hc as [H1 H2].
      apply negb_false_iff in H1. rewrite H1. by apply IH. }
    cbn [apply_writes foldl]. by rewrite apply_writes_lookup, H.
  - destruct H as [H1 H2]. unfold final_mem. rewrite apply_writes_lookup.
    destruct (last_cover (ptrs l) a) as [v|] eqn:E; [by apply ptrs_cover|].
    rewrite apply_writes_lookup, H1. symmetry. by apply Hkernel.
Qed.

(** A byte the kernel put into the scratch area of one parameter arrives. *)
Lemma delivered p n k : (p, n) ∈ results -> writes_back p = true -> 0 <= k < n ->
  (forall q j, (q, j) ∈ results -> writes_back q = true -> dest q <= dest p + k < dest q + j -> q = p) ->
  (forall q, q ∈ l -> ptr_in_memory q <> 0 -> ~ (ptr_in_memory q <= dest p + k < ptr_in_memory q + Z.of_nat (word i))) ->
  final_mem !! (dest p + k) = mem t2 !! (scratch_of p + k).
Proof.
  intros Hin Hwb Hk Honly Hptr. pose proof results_bounds as Hb. rewrite Forall_forall in Hb.
  unfold final_mem. rewrite apply_writes_lookup. rewrite (proj2 (last_cover_None (ptrs l) _)).
  2:{ apply Forall_forall. intros w Hw. destruct (ptrs_elem w Hw) as (q & Hq & Hne & ->). cbn [fst snd]. rewrite le_bytes_length. by apply Hptr. }
  rewrite apply_writes_lookup.
  assert (forall w, w ∈ outs results -> w.1 <= dest p + k < w.1 + Z.of_nat (length w.2) ->
    w.2 !! Z.to_nat (dest p + k - w.1) = mem t2 !! (scratch_of p + k)) as Hw.
  { intros w Hw Hc. destruct (outs_elem w Hw) as (q & j & Hq & Hqwb & -> & Hlen). cbn [fst snd] in *. rewrite Hlen in Hc.
    assert (q = p) as -> by (by eapply Honly). replace (dest p + k - dest p) with k by lia.
    destruct (Hb _ Hq) as [Hp Hj]. cbn [fst snd] in Hp, Hj. apply scratch_bytes_lookup; [done|by apply writes_back_in_scratch|done|cbn in *; lia]. }
  destruct (last_cover (outs results) (dest p + k)) as [v|] eqn:E.
  - clear -E Hw. revert E. induction (outs results) as [|w ws IH]; cbn [last_cover]; [done|].
    destruct (last_cover ws (dest p + k)); [intros E; apply IH; [intros; apply Hw; [by right|done]|done]|].
    case_decide as Hc; [|done]. intros E. rewrite <- (Hw w); [done|left|done].
  - exfalso. rewrite last_cover_None, Forall_forall in E. destruct (Hb _ Hin) as [Hp Hn].
    apply (E (dest p, scratch_bytes p n)); [apply list_elem_of_omap; exists (p, n); cbn; by rewrite Hwb|]. cbn [fst snd] in *.
    rewrite scratch_bytes_length; [lia|done|by apply writes_back_in_scratch|done].
Qed.

End Results.

End SyscallResults.
