(* ===== verification/SyscallDirect.v ===== *)
(** Recorded system calls whose buffers stay where they are. *)

From S2P Require Import Prelude TraceeMemory SyscallState SyscallStateProofs SyscallResults.

Module SyscallDirect.
Import TMem SyscallState SyscallProofs SyscallResults.

(** ** Memory the mutators change *)

Definition mutates (p : MemoryParam) : bool := negb (no_mutator (maybe_mutator p)).

Definition in_buffer (p : MemoryParam) (a : Z) : Prop := dest p <= a < dest p + incoming_size (num_bytes p).

Definition apart (p q : MemoryParam) : Prop := forall a, in_buffer p a -> ~ in_buffer q a.

(** No two mutators share memory. *)
Fixpoint all_apart (l : list MemoryParam) : Prop :=
  match l with
  | [] => True
  | p :: l => (mutates p = true -> forall q, q ∈ l -> mutates q = true -> apart p q) /\ all_apart l
  end.

(** What was in the buffers before. *)
Definition kept (m : Memory) (l : list MemoryParam) : list (Z * list Z) :=
  omap (fun p => if mutates p then Some (dest p, read_at (dest p) (incoming_size (num_bytes p)) m) else None) l.

Definition kept_bytes (m : Memory) (l : list MemoryParam) : list Z := concat (kept m l).*2.

Definition outside_mutated (l : list MemoryParam) (a : Z) : Prop := forall p, p ∈ l -> mutates p = true -> ~ in_buffer p a.

Lemma kept_cons m p l :
  kept m (p :: l) = if mutates p then (dest p, read_at (dest p) (incoming_size (num_bytes p)) m) :: kept m l else kept m l.
Proof. unfold kept. cbn [omap list_omap]. by destruct (mutates p). Qed.

(** The mutated buffers are mapped. *)
Definition mutated_mapped (m : Memory) (l : list MemoryParam) : Prop := forall p, p ∈ l -> mutates p = true ->
  dest p <> 0 /\ 0 <= incoming_size (num_bytes p) /\ mapped (dest p) (incoming_size (num_bytes p)) m.

Lemma read_at_agree a n m m' : (forall x, a <= x < a + n -> m !! x = m' !! x) -> read_at a n m = read_at a n m'.
Proof. intros H. apply read_bytes_agree. intros x Hx. apply H. lia. Qed.

Lemma run_mutators_direct m0 l : forall saved t, mutators_ok l -> mutated_mapped (mem t) l -> all_apart l ->
  (forall p a, p ∈ l -> mutates p = true -> in_buffer p a -> mem t !! a = m0 !! a) ->
  exists l' m, run_mutators false l saved t = Ok (l', saved ++ kept_bytes m0 l', set_mem m t) /\
    Forall2 same_param l l' /\ (forall a, outside_mutated l' a -> m !! a = mem t !! a) /\
    (forall a, is_Some (m !! a) <-> is_Some (mem t !! a)).
Proof.
  induction l as [|p l IH]; intros saved t Hok Hmap Hap Hsame; cbn [run_mutators].
  { exists [], (mem t). splits; try done. cbn. rewrite app_nil_r. by destruct t. }
  destruct Hap as [Hp Hap]. assert (mutators_ok l) as Hok' by (intros q f Hq; apply Hok; by right).
  unfold run_mutator. destruct (maybe_mutator p) as [f|] eqn:Ef.
  2:{ cbn [mbind res_bind]. destruct (IH saved t) as (l' & m & -> & HF & Ho & Hd); [done|intros q Hq; apply Hmap; by right|done|
        intros q a Hq; apply Hsame; by right|]. cbn [mbind res_bind]. assert (mutates p = false) as Hm by (unfold mutates; by rewrite Ef).
      exists (p :: l'), m. splits; [|constructor; [by left|done]| |done].
      - unfold kept_bytes. rewrite kept_cons, Hm. done.
      - intros a Ha. apply Ho. intros q Hq. apply Ha. by right. }
  assert (mutates p = true) as Hm by (unfold mutates; by rewrite Ef). specialize (Hp Hm).
  destruct (Hmap p (list_elem_of_here _ _) Hm) as (Hd & Hn & Hmp).
  destruct (Hok p f (list_elem_of_here _ _) Ef (dest p) (Some (incoming_size (num_bytes p))) t Hd Hmp) as (b & k & m1 & Hf & Hout & Hdom & Hb & Hk).
  rewrite Hf. cbn [mbind res_bind fst snd].
  set (k' := k ++ replicate (Z.to_nat (incoming_size (num_bytes p)) - length k) 0).
  destruct (IH (if b then saved ++ k' else saved) (set_mem m1 t)) as (l' & m & Hl' & HF & Ho & Hdm); [done| |done| |].
  { intros q Hq Hqm. destruct (Hmap q) as (? & ? & Hqq); [by right|done|]. splits; [done|done|]. intros a Ha. cbn. apply Hdom. by apply Hqq. }
  { intros q a Hq Hqm Ha. cbn. rewrite Hout; [apply (Hsame q); [by right|done|done]|]. intros Hpa. by apply (Hp q Hq Hqm a). }
  destruct b; cbn [mbind res_bind]; rewrite Hl'; cbn [mbind res_bind].
  - specialize (Hk eq_refl eq_refl). assert (k' = read_at (dest p) (incoming_size (num_bytes p)) m0) as Hk'.
    { pose proof (read_mem_length _ _ _ _ Hk) as Hlk. subst k'. replace (_ - length k)%nat with 0%nat by lia. cbn. rewrite app_nil_r.
      unfold read_mem in Hk. destruct (_ =? _) in Hk; [|done]. injection Hk as <-. apply read_at_agree. intros x Hx. apply (Hsame p); [left|done|done]. }
    eexists (p :: l'), m. splits; [|constructor; [by left|done]| |].
    + unfold kept_bytes. rewrite kept_cons, Hm, fmap_cons. cbn [concat snd]. rewrite app_assoc. fold (kept_bytes m0 l'). by rewrite <- Hk'.
    + intros a Ha. rewrite Ho; [cbn; apply Hout; apply (Ha p); [left|done]|]. intros q Hq. apply Ha. by right.
    + intros a. rewrite Hdm. apply Hdom.
  - rewrite (Hb eq_refl) in *. eexists _, m. splits; [|constructor; [by right|done]| |done].
    + unfold kept_bytes. rewrite kept_cons. cbn. by destruct t.
    + intros a Ha. rewrite Ho; [done|]. intros q Hq. apply Ha. by right.
Qed.

(** ** After the system call *)

Lemma restore_mutated_ok m0 l : forall rest t, mutated_mapped m0 l -> (forall a, is_Some (mem t !! a) <-> is_Some (m0 !! a)) ->
  restore_mutated l (kept_bytes m0 l ++ rest) t = Ok (rest, set_mem (apply_writes (kept m0 l) (mem t)) t).
Proof.
  induction l as [|p l IH]; intros rest t Hm Hd; cbn [restore_mutated]; [by destruct t|].
  assert (mutated_mapped m0 l) as Hm' by (intros q Hq; apply Hm; by right). unfold kept_bytes. rewrite kept_cons.
  assert (mutates p = negb (no_mutator (maybe_mutator p))) as -> by done.
  destruct (maybe_mutator p) as [f|] eqn:Ef; cbn [no_mutator negb]; [|by apply IH].
  rewrite fmap_cons. cbn [concat snd]. set (n := incoming_size (num_bytes p)).
  destruct (Hm p) as (Hdst & Hn & Hmp); [left|unfold mutates; by rewrite Ef|]. fold n in Hn, Hmp.
  assert (length (read_at (dest p) n m0) = Z.to_nat n) as Hlen by (apply read_bytes_full; by rewrite Z2Nat.id).
  rewrite <- app_assoc. rewrite (proj2 (Nat.ltb_ge _ _)) by (rewrite length_app; lia).
  rewrite take_app_length' by done. rewrite drop_app_length' by done. unfold write.
  rewrite write_mem_ok by (rewrite Hlen, Z2Nat.id by done; intros a Ha; apply Hd; by apply Hmp). cbn [mbind res_bind].
  fold (kept_bytes m0 l). rewrite IH; [by destruct t|done|]. intros a. cbn [mem set_mem]. rewrite write_map_lookup. case_decide as Hr; [|apply Hd].
  rewrite Hlen in Hr. split; intros _; [apply Hmp; lia|apply lookup_lt_is_Some; lia].
Qed.

(** Restoring puts back what was there, and nothing else. *)
Lemma restored_lookup m0 l m a : mutated_mapped m0 l ->
  (apply_writes (kept m0 l) m !! a = m0 !! a /\ exists p, p ∈ l /\ mutates p = true /\ in_buffer p a) \/
  (apply_writes (kept m0 l) m !! a = m !! a /\ outside_mutated l a).
Proof.
  intros Hm. rewrite apply_writes_lookup.
  assert (forall w, w ∈ kept m0 l -> exists p, p ∈ l /\ mutates p = true /\ w = (dest p, read_at (dest p) (incoming_size (num_bytes p)) m0) /\
    Z.of_nat (length w.2) = incoming_size (num_bytes p)) as Hk.
  { intros w Hw. apply list_elem_of_omap in Hw as (p & Hp & Hw). destruct (mutates p) eqn:E; [|done]. injection Hw as <-.
    exists p. destruct (Hm p Hp E) as (_ & Hn & Hmp). splits; try done. cbn [snd]. unfold read_at.
    rewrite read_bytes_full; [lia|by rewrite Z2Nat.id]. }
  destruct (last_cover (kept m0 l) a) as [v|] eqn:E.
  - left. revert E Hk. induction (kept m0 l) as [|w ws IH]; intros E Hk; cbn [last_cover] in E; [done|].
    destruct (last_cover ws a); [apply IH; [done|intros x Hx; apply Hk; by right]|]. case_decide as Hc; [|done].
    destruct (Hk w (list_elem_of_here _ _)) as (p & Hp & Hmut & -> & Hlen). cbn [fst snd] in *. destruct (Hm p Hp Hmut) as (_ & Hn & Hmp).
    rewrite Hlen in Hc. destruct (read_at_cover (dest p) _ m0 a Hn Hmp Hc) as [_ H]. rewrite <- E, H. split; [done|]. by exists p.
  - right. split; [done|]. intros p Hp Hmut Ha. rewrite last_cover_None, Forall_forall in E. destruct (Hm p Hp Hmut) as (_ & Hn & Hmp).
    apply (E (dest p, read_at (dest p) (incoming_size (num_bytes p)) m0)).
    + apply list_elem_of_omap. exists p. by rewrite Hmut.
    + unfold in_buffer in Ha. cbn [fst snd]. unfold read_at. rewrite read_bytes_full; [lia|by rewrite Z2Nat.id].
Qed.

Definition direct_record (m : Memory) (x : MemoryParam * Z) : Z * list Z := (dest x.1, read_at (dest x.1) x.2 m).

(** The size is in mapped memory, or in the result. *)
Abbreviation direct_size_ok m := (size_ok (fun a => is_Some (m !! a))).

Lemma record_all_ok l t : bytes_ok (mem t) -> result t < 2 ^ 63 -> forall done recs,
  Forall (fun p => dest p <> 0 /\ direct_size_ok (mem t) (num_bytes p)) l -> within_sources t (fun a => is_Some (mem t !! a)) done ->
  Forall (fun x => mapped (dest x.1) x.2 (mem t)) (sized_list t done l) ->
  record_all done.*1 l done.*2 (mkTracee (mem t) (args t) (result t) recs) =
  Ok (mkTracee (mem t) (args t) (result t) (recs ++ map (direct_record (mem t)) (sized_list t done l))).
Proof.
  intros Hb Hr. induction l as [|p l IH]; intros d recs Hl Hw Hm; cbn [record_all sized_list map]; [by rewrite app_nil_r|].
  apply Forall_cons in Hl as [[Hd Hp] Hl]. cbn [sized_list] in Hm. apply Forall_cons in Hm as [Hmp Hm]. cbn [fst snd] in Hmp.
  set (n := size_of t d (num_bytes p)) in *. set (t' := mkTracee (mem t) (args t) (result t) recs).
  rewrite (eval_param_size_ok (fun a => is_Some (mem t !! a)) t t') by (done || by intros a). fold n. cbn [mbind res_bind].
  pose proof (size_of_bounds _ _ _ _ Hw Hp) as Hn. fold n in Hn. rewrite record_remote_ok by (done || lia). cbn [mbind res_bind].
  assert (d.*1 ++ [p] = (d ++ [(p, n)]).*1) as -> by (by rewrite fmap_app).
  assert (d.*2 ++ [n] = (d ++ [(p, n)]).*2) as -> by (by rewrite fmap_app).
  unfold write_raw. subst t'. cbn [mem args result records]. rewrite IH; [|done|by apply within_snoc|done].
  by rewrite <- app_assoc.
Qed.

(** Applying records of memory [m] to [m0] gives [m], where they cover all changes. *)
Lemma direct_records_replay m0 m pn a : Forall (fun x => 0 <= x.2 /\ mapped (dest x.1) x.2 m) pn ->
  (Forall (fun x => ~ (dest x.1 <= a < dest x.1 + x.2)) pn -> m !! a = m0 !! a) ->
  apply_writes (map (direct_record m) pn) m0 !! a = m !! a.
Proof.
  intros Hpn H. rewrite apply_writes_lookup. induction pn as [|x pn IH]; cbn [map last_cover]; [symmetry; by apply H|].
  apply Forall_cons in Hpn as [[Hn Hm] Hpn]. specialize (IH Hpn).
  destruct (last_cover (map (direct_record m) pn) a) as [v|] eqn:E.
  { destruct (decide (Forall (fun x => ~ (dest x.1 <= a < dest x.1 + x.2)) pn)) as [Hf|Hf]; [|apply IH; intros Hc; by destruct Hf].
    exfalso. assert (last_cover (map (direct_record m) pn) a = None) as Hnone; [|congruence].
    apply last_cover_None, Forall_map. rewrite Forall_forall in *. intros y Hy. cbn. unfold read_at.
    destruct (Hpn y Hy) as [Hyn Hym]. rewrite read_bytes_full; [|by rewrite Z2Nat.id]. rewrite Z2Nat.id by done. by apply Hf. }
  cbn [direct_record fst snd]. assert (length (read_at (dest x.1) x.2 m) = Z.to_nat x.2) as -> by (apply read_bytes_full; by rewrite Z2Nat.id).
  rewrite Z2Nat.id by done. case_decide as Hc.
  - destruct (read_at_cover (dest x.1) x.2 m a Hn Hm Hc) as [_ ->]. destruct (Hm a Hc) as [v ->]. done.
  - apply IH. intros Hf. apply H. by constructor.
Qed.

End SyscallDirect.
