(* ===== verification/SyscallTheorems.v ===== *)
(** Recorded system calls: moving buffers to scratch memory is invisible to the tracee,
    and what is recorded is what replay needs. *)

From S2P Require Import Prelude TraceeMemory SyscallState SyscallStateProofs SyscallResults SyscallDirect.

Module SyscallTheorems.
Import TMem SyscallState SyscallProofs SyscallResults SyscallDirect.

(** ** Registers *)

Lemma set_regs_length v l : forall r, length (foldl (set_reg v) r l) = length r.
Proof.
  induction l as [|p l IH]; intros r; cbn [foldl]; [done|]. rewrite IH. unfold set_reg. case_match; [done|apply length_insert].
Qed.

(** A register has the value of a parameter it belongs to, if there is one. *)
Lemma set_regs_lookup v l k : forall r, (k < length r)%nat ->
  (foldl (set_reg v) r l !! k = r !! k /\ forall p, p ∈ l -> ptr_in_reg p <> 0 -> k <> Z.to_nat (ptr_in_reg p - 1)) \/
  exists p, p ∈ l /\ ptr_in_reg p <> 0 /\ k = Z.to_nat (ptr_in_reg p - 1) /\ foldl (set_reg v) r l !! k = Some (v p).
Proof.
  induction l as [|p l IH]; intros r Hk; cbn [foldl].
  { left. split; [done|]. intros p Hp. by apply elem_of_nil in Hp. }
  destruct (IH (set_reg v r p)) as [[-> Hno]|(q & Hq & H)]; [unfold set_reg; case_match; rewrite ?length_insert; done| |].
  2:{ right. exists q. split; [by right|done]. }
  unfold set_reg. destruct (Z.eqb_spec (ptr_in_reg p) 0) as [|Hne].
  { left. split; [done|]. intros q Hq Hqn. apply elem_of_cons in Hq as [->|Hq]; [done|by apply Hno]. }
  destruct (decide (k = Z.to_nat (ptr_in_reg p - 1))) as [->|Hkp].
  - right. exists p. splits; [left|done|done|by apply list_lookup_insert_eq].
  - left. rewrite list_lookup_insert_ne by done. split; [done|]. intros q Hq Hqn.
    apply elem_of_cons in Hq as [->|Hq]; [done|by apply Hno].
Qed.

(** ** Before and after the system call *)

(** The parameters of a system call that can be moved to scratch memory. *)
Record movable (i : TaskInfo) (t : Tracee) (s : TaskSyscallState) : Prop := mkMovable {
  mo_registered : registered i t s;
  mo_some : param_list s <> [];
  mo_lo : 0 < scratch_ptr i;
  mo_hi : scratch s <= 2 ^ 47;
  mo_usable : scratch s <= scratch_ptr i + usable_scratch_size i < 2 ^ 64;
  mo_mapped : mapped (scratch_ptr i) (scratch s - scratch_ptr i) (mem t);
  mo_bytes : bytes_ok (mem t);
  mo_word : (0 < word i)%nat;
  mo_buffers : buffers_ok i (mem t) (param_list s) (scratch s);
  mo_sources : sources_ok (param_list s);
  mo_mutators : mutators_ok (param_list s);
  mo_mutators_in : mutators_in (param_list s)
}.

Lemma settled_moved i t s p p' : movable i t s -> p ∈ param_list s -> moved i s p p' -> settled i (scratch s) t p'.
Proof.
  intros M Hp Hmv. destruct M as [R _ Hlo Hhi _ _ _ _ B Hsrc _ _]. pose proof (param_known i t s R p Hp) as [Hd Hsz _ Hreg Hmem].
  destruct (Hsrc p Hp) as [Hr Hone]. destruct (b_low _ _ _ _ B p Hp) as [Hl1 Hl2]. split.
  - rewrite (mv_dest _ _ _ _ Hmv). lia.
  - split.
    + by rewrite (mv_incoming _ _ _ _ Hmv).
    + intros Hs. rewrite (mv_read _ _ _ _ Hmv). apply Hr. unfold sized in Hs. rewrite (mv_from _ _ _ _ Hmv) in Hs.
      destruct (Z.eqb_spec (mem_ptr (num_bytes p')) 0) as [Hz|Hz]; [by right|left]. by rewrite <- (mv_zero _ _ _ _ Hmv).
    + intros Hm. rewrite (mv_from _ _ _ _ Hmv). apply Hone. by rewrite <- (mv_zero _ _ _ _ Hmv).
    + intros Hm a Ha. pose proof (mv_ptr _ _ _ _ Hmv Hm). lia.
  - rewrite (moved_in_scratch _ _ _ _ Hmv), (mv_scratch _ _ _ _ Hmv), (mv_incoming _ _ _ _ Hmv).
    by apply (param_inside i t s R p).
  - rewrite (mv_dest _ _ _ _ Hmv), (mv_incoming _ _ _ _ Hmv). by apply (b_away _ _ _ _ B).
  - rewrite (mv_in_reg _ _ _ _ Hmv), (mv_dest _ _ _ _ Hmv). by apply (param_reg i t s R p).
  - rewrite (mv_in_memory _ _ _ _ Hmv), (mv_dest _ _ _ _ Hmv). intros Hne. split; [by apply Hmem|].
    destruct (b_ptr _ _ _ _ B p Hp Hne) as (q & Hq & _ & H1 & H2).
    assert (q ∈ param_list s) as Hin.
    { apply list_elem_of_In. apply (List.filter_In (contains (ptr_in_memory p)) q (param_list s)). rewrite Hq. by left. }
    pose proof (b_away _ _ _ _ B q Hin). lia.
Qed.

(** The kernel runs the system call: it works on scratch memory and on the parameters
    that must not be moved, and the buffers of the tracee can take the results. *)
Record kernel_ran (i : TaskInfo) (hi : Z) (l : list MemoryParam) (t t' : Tracee) : Prop := mkRan {
  kr_args : args t' = args t;
  kr_records : records t' = records t;
  kr_dom : forall a, is_Some (mem t' !! a) <-> is_Some (mem t !! a);
  kr_bytes : bytes_ok (mem t');
  kr_result : result t' < 2 ^ 63;
  kr_frame : forall a, outside (scratch_ptr i) hi a ->
    Forall (fun x => mode x.1 = InOutNoScratch -> ~ (dest x.1 <= a < dest x.1 + x.2)) (sized_list t' [] l) -> mem t' !! a = mem t !! a;
  kr_mapped : Forall (fun x => recorded x.1 = true -> mapped (dest x.1) x.2 (mem t')) (sized_list t' [] l)
}.

Lemma Forall_settled i t s l : movable i t s -> Forall2 (moved i s) (param_list s) l -> Forall (settled i (scratch s) t) l.
Proof.
  intros M HF. apply Forall_forall. intros p' Hp'. destruct (Forall2_moved_elem _ _ _ _ _ HF Hp') as (p & Hp & Hmv).
  by eapply settled_moved.
Qed.

Lemma moved_registers i t s l k : movable i t s -> Forall2 (moved i s) (param_list s) l ->
  let r := foldl (set_reg scratch_of) (args t) (param_list s) in
  r !! k = args t !! k \/ exists p, p ∈ l /\ ptr_in_reg p = Z.of_nat k + 1.
Proof.
  intros M HF r. destruct (decide (k < length (args t))%nat) as [Hk|Hk].
  2:{ left. subst r. rewrite !lookup_ge_None_2; [done|lia|rewrite set_regs_length; lia]. }
  destruct (set_regs_lookup scratch_of (param_list s) k (args t) Hk) as [[H _]|(p & Hp & Hne & Hpk & _)]; [by left|right].
  apply list_elem_of_lookup in Hp as Hp'. destruct Hp' as [j Hj]. destruct (Forall2_lookup_l _ _ _ _ _ HF Hj) as (p' & Hj' & Hmv).
  exists p'. split; [by eapply list_elem_of_lookup_2|]. rewrite (mv_in_reg _ _ _ _ Hmv).
  destruct (param_reg i t s (mo_registered _ _ _ M) p Hp Hne) as [Hr _]. lia.
Qed.

(** Preparing in scratch memory, for later use. *)
Lemma prepare_movable i t s : movable i t s ->
  exists l m, done_preparing i AllowSwitch s t =
      Ok (AllowSwitch, prepared_state t s l, mkTracee m (foldl (set_reg scratch_of) (args t) (param_list s)) (result t) (records t)) /\
    agree (scratch_ptr i) (scratch s) (mem t) m /\ (forall x, is_Some (m !! x) <-> is_Some (mem t !! x)) /\
    Forall2 (moved i s) (param_list s) l.
Proof. intros []. by eapply prepare_in_scratch. Qed.

(** Where the kernel finds a buffer of the tracee after preparing. *)
Definition redirected (s : TaskSyscallState) (r : list Z) : Prop := forall p, p ∈ param_list s -> ptr_in_reg p <> 0 ->
  exists q, q ∈ param_list s /\ ptr_in_reg q = ptr_in_reg p /\ arg r (ptr_in_reg p) = Ok (scratch_of q).

Lemma prepare_redirects i t s : movable i t s -> redirected s (foldl (set_reg scratch_of) (args t) (param_list s)).
Proof.
  intros M p Hp Hne. destruct (param_reg i t s (mo_registered _ _ _ M) p Hp Hne) as [Hr Ha].
  destruct (set_regs_lookup scratch_of (param_list s) (Z.to_nat (ptr_in_reg p - 1)) (args t)) as [[_ Hno]|(q & Hq & Hqn & Hqk & H)].
  - by eapply lookup_lt_Some.
  - by destruct (Hno p Hp Hne).
  - exists q. destruct (param_reg i t s (mo_registered _ _ _ M) q Hq Hqn) as [Hqr _]. split; [done|]. split; [lia|].
    unfold arg. replace ((1 <=? ptr_in_reg p) && (ptr_in_reg p <=? 6)) with true by lia. by rewrite H.
Qed.

(** The bytes of a result that belong to one parameter only, and to no pointer. *)
Definition results_delivered (i : TaskInfo) (l : list MemoryParam) (t t' : Tracee) : Prop :=
  forall p n k, (p, n) ∈ sized_list t [] l -> writes_back p = true -> 0 <= k < n ->
  (forall q j, (q, j) ∈ sized_list t [] l -> writes_back q = true -> dest q <= dest p + k < dest q + j -> q = p) ->
  (forall q, q ∈ l -> ptr_in_memory q <> 0 -> ~ (ptr_in_memory q <= dest p + k < ptr_in_memory q + Z.of_nat (word i))) ->
  mem t' !! (dest p + k) = mem t !! (scratch_of p + k).

(** C6: A system call whose buffers can be moved to scratch memory is prepared without
    touching anything the tracee can see: the registers of its parameters point to
    scratch memory, and memory outside it is as it was. Whatever the kernel then does to
    scratch memory, to the parameters that must not be moved and to the result, processing
    the results does not fail; the argument registers are what they were; every result
    byte arrives in its buffer; and applying the records to memory as it was before the
    system call gives memory as it is after it. *)
Theorem scratch_syscall_replays i t s : movable i t s ->
  exists l t1, done_preparing i AllowSwitch s t = Ok (AllowSwitch, prepared_state t s l, t1) /\
    agree (scratch_ptr i) (scratch s) (mem t) (mem t1) /\ (forall a, is_Some (mem t1 !! a) <-> is_Some (mem t !! a)) /\
    redirected s (args t1) /\
    forall t2, kernel_ran i (scratch s) l t1 t2 ->
    exists m recs, process_syscall_results i (prepared_state t s l) t2 =
        Ok (prepared_state t s l, mkTracee m (args t) (result t2) (records t ++ recs)) /\
      results_delivered i l t2 (mkTracee m (args t) (result t2) (records t ++ recs)) /\
      forall a, outside (scratch_ptr i) (scratch s) a -> apply_writes recs (mem t) !! a = m !! a.
Proof.
  intros M. destruct (prepare_movable i t s M) as (l & m & Hprep & Hag & Hdom & HF). eexists l, _. split; [exact Hprep|].
  split; [done|]. split; [done|]. split; [by eapply prepare_redirects|]. intros t2 [Ka Kr Kd Kb Kres Kf Km]. cbn [mem args records] in *.
  pose proof (Forall_settled _ _ _ _ M HF) as Hset. assert (scratch_ptr i <= scratch s) as Hle.
  { apply (areas_le (param_list s)); [eapply registered_sizes; by apply M|apply M]. }
  assert (mapped (scratch_ptr i) (scratch s - scratch_ptr i) (mem t2)) as Hsc.
  { intros a Ha. apply Kd, Hdom. by apply (mo_mapped _ _ _ M). }
  destruct (read_mem_ok (scratch_ptr i) (scratch s - scratch_ptr i) (mem t2)) as (data & Hdata & _); [lia|done|].
  assert (forall a, outside (scratch_ptr i) (scratch s) a ->
    Forall (fun x => mode x.1 = InOutNoScratch -> ~ (dest x.1 <= a < dest x.1 + x.2)) (sized_list t2 [] l) -> mem t2 !! a = mem t !! a) as Hk.
  { intros a Ha Hx. rewrite Kf by done. symmetry. by apply Hag. }
  assert (forall a, is_Some (mem t2 !! a) <-> is_Some (mem t !! a)) as Hd by (intros a; by rewrite Kd, Hdom).
  pose proof (mo_lo _ _ _ M). pose proof (mo_hi _ _ _ M). pose proof (mo_bytes _ _ _ M).
  eexists _, _. rewrite <- Kr. split; [eapply (process_in_scratch i (scratch s) t t2) with (r := args t2); try done|split].
  - by rewrite Ka, set_regs_length.
  - intros k. rewrite Ka. by eapply moved_registers.
  - intros p n k Hin Hwb Hkn Honly Hptr. cbn [mem]. by eapply delivered.
  - intros a Ha. by eapply records_replay.
Qed.

(** ** Giving up *)

(** C39: A system call that was prepared in scratch memory and is given up leaves the
    tracee as it was: the argument registers and memory outside scratch memory. *)
Theorem abort_restores i t s : movable i t s ->
  exists l t1 t', done_preparing i AllowSwitch s t = Ok (AllowSwitch, prepared_state t s l, t1) /\
    abort_syscall_results i (prepared_state t s l) t1 = Ok (prepared_state t s l, t') /\
    args t' = args t /\ result t' = result t /\ records t' = records t /\
    agree (scratch_ptr i) (scratch s) (mem t) (mem t').
Proof.
  intros M. destruct (prepare_movable i t s M) as (l & m & Hprep & Hag & Hdom & HF). eexists l, _, _. split; [exact Hprep|].
  pose proof (Forall_settled _ _ _ _ M HF) as Hset. split; [unfold abort_syscall_results; cbn [preparation_done scratch_enabled negb param_list prepared_state]|].
  - erewrite (restore_pointers_ok i (scratch s) t); [cbn [mbind res_bind]; reflexivity|done|done].
  - cbn [args result records mem set_args set_mem]. splits; [|done|done|].
    + eapply (registers_restored i (scratch s) t); [done|by rewrite set_regs_length|]. intros k. by eapply moved_registers.
    + intros a Ha. rewrite apply_writes_lookup. destruct (last_cover (ptrs i l) a) as [v|] eqn:E; [|by apply Hag].
      eapply (ptrs_cover i (scratch s) t l); [done|by apply M|done].
Qed.

(** ** Without scratch memory *)

(** The parameters of a system call whose buffers stay where they are. *)
Record direct (i : TaskInfo) (t : Tracee) (s : TaskSyscallState) : Prop := mkDirect {
  di_registered : registered i t s;
  di_sources : sources_ok (param_list s);
  di_sizes : forall p, p ∈ param_list s -> mem_ptr (num_bytes p) <> 0 ->
    mapped (mem_ptr (num_bytes p)) (read_size (num_bytes p)) (mem t);
  di_mutators : mutators_ok (param_list s);
  di_mapped : mutated_mapped (mem t) (param_list s);
  di_apart : all_apart (param_list s)
}.

Definition direct_state (t : Tracee) (s : TaskSyscallState) (l : list MemoryParam) (saved : list Z) : TaskSyscallState :=
  mkState l (scratch s) [] (args t) false 0 PreventSwitch WriteBack true false saved.

(** The kernel runs the system call on the buffers of the tracee. [t'] is the tracee
    after it, and [m] its memory with what mutators changed put back. *)
Record ran_directly (l : list MemoryParam) (t t' : Tracee) (m : Memory) : Prop := mkRanDirectly {
  rd_records : records t' = records t;
  rd_dom : forall a, is_Some (mem t' !! a) <-> is_Some (mem t !! a);
  rd_bytes : bytes_ok m;
  rd_result : result t' < 2 ^ 63;
  rd_frame : forall a, Forall (fun x => ~ (dest x.1 <= a < dest x.1 + x.2)) (sized_list (set_mem m t') [] l) -> mem t' !! a = mem t !! a;
  rd_mapped : Forall (fun x => mapped (dest x.1) x.2 (mem t')) (sized_list (set_mem m t') [] l)
}.

Lemma prepare_direct i t s : direct i t s ->
  exists l m, done_preparing i PreventSwitch s t = Ok (PreventSwitch, direct_state t s l (kept_bytes (mem t) l), set_mem m t) /\
    Forall2 same_param (param_list s) l /\ (forall a, outside_mutated l a -> m !! a = mem t !! a) /\
    (forall a, is_Some (m !! a) <-> is_Some (mem t !! a)).
Proof.
  intros [R _ _ Hmut Hmap Hap]. destruct (run_mutators_direct (mem t) (param_list s) [] t Hmut Hmap Hap) as (l & m & Hl & H); [done|].
  exists l, m. split; [|done]. destruct (registered_flags _ _ _ R) as [Hd _]. unfold done_preparing, done_preparing_internal. rewrite Hd.
  cbn [scratch]. pose proof (areas_le _ _ _ (registered_sizes _ _ _ R) (proj1 (proj2 R))) as Hle.
  rewrite (proj2 (Z.ltb_ge (scratch s) (scratch_ptr i))) by lia. cbn [bool_decide decide Switchable_eq_dec].
  rewrite (bool_decide_false (PreventSwitch = AllowSwitch)) by done. cbn [andb switchable].
  rewrite (bool_decide_true (PreventSwitch = PreventSwitch)) by done. cbn [orb].
  assert (scratch_enabled s = false /\ saved_data s = []) as [He Hs] by (destruct R as (-> & _); done).
  destruct (scratch_ptr i =? 0); cbn [mbind res_bind scratch_enabled param_list saved_data]; rewrite He, Hs, Hl; cbn [mbind res_bind app];
    destruct R as (-> & _); done.
Qed.

Lemma same_param_fields p p' : same_param p p' ->
  dest p' = dest p /\ num_bytes p' = num_bytes p /\ (mutates p' = true -> mutates p = true).
Proof. intros [-> | ->]; splits; done. Qed.

Lemma same_params_elem l l' p' : Forall2 same_param l l' -> p' ∈ l' -> exists p, p ∈ l /\ same_param p p'.
Proof.
  intros H Hp. apply list_elem_of_lookup in Hp as [j Hj]. destruct (Forall2_lookup_r _ _ _ _ _ H Hj) as (p & Hp & ?).
  exists p. split; [by eapply list_elem_of_lookup_2|done].
Qed.

Section DirectResults.
Context (i : TaskInfo) (t : Tracee) (s : TaskSyscallState) (l : list MemoryParam).
Hypothesis D : direct i t s.
Hypothesis HF : Forall2 same_param (param_list s) l.

Lemma direct_mutated : mutated_mapped (mem t) l.
Proof.
  intros p' Hp' Hmu. destruct (same_params_elem _ _ _ HF Hp') as (p & Hp & Hs).
  destruct (same_param_fields _ _ Hs) as (-> & -> & H). apply (di_mapped _ _ _ D); auto.
Qed.

Lemma direct_dom (m : Memory) : (forall a, is_Some (m !! a) <-> is_Some (mem t !! a)) ->
  forall a, is_Some (apply_writes (kept (mem t) l) m !! a) <-> is_Some (mem t !! a).
Proof. intros H a. by destruct (restored_lookup (mem t) l m a direct_mutated) as [[-> _]|[-> _]]. Qed.

Lemma direct_sizes (m : Memory) : (forall a, is_Some (m !! a) <-> is_Some (mem t !! a)) ->
  Forall (fun p => dest p <> 0 /\ direct_size_ok m (num_bytes p)) l.
Proof.
  intros Hdm. apply Forall_forall. intros p' Hp'. destruct (same_params_elem _ _ _ HF Hp') as (p & Hp & Hs).
  destruct (same_param_fields _ _ Hs) as (-> & -> & _). pose proof (param_known i t s (di_registered _ _ _ D) p Hp) as [Hd Hn _ _ _].
  split; [done|]. destruct (di_sources _ _ _ D p Hp) as [Hr Hone]. split; [done| |done|].
  - intros Hsd. apply Hr. unfold sized in Hsd. destruct (Z.eqb_spec (mem_ptr (num_bytes p)) 0); [by right|by left].
  - intros Hne a Ha. apply Hdm. by apply (di_sizes _ _ _ D p Hp Hne).
Qed.

Lemma direct_within m t' : mem t' = m -> bytes_ok m -> result t' < 2 ^ 63 -> within_sources t' (fun a => is_Some (mem t' !! a)) [].
Proof.
  intros <- Hb Hr. split; [constructor|]. intros n Hn Hs. cbn [consumed].
  by apply (source_bounds (fun a => is_Some (mem t' !! a)) n t' Hn Hs ltac:(by intros a)).
Qed.

End DirectResults.

(** C20: A system call whose buffers stay where they are is recorded so that replay has
    everything: whatever the kernel does to the buffers up to their sizes, processing the
    results does not fail; memory the mutators changed is as it was before, all other
    memory is as the kernel left it; and applying the records to memory as it was before
    the system call gives memory as it is after it. *)
Theorem direct_syscall_replays i t s : direct i t s ->
  exists l t1, done_preparing i PreventSwitch s t = Ok (PreventSwitch, direct_state t s l (kept_bytes (mem t) l), t1) /\
    Forall2 same_param (param_list s) l /\
    (forall a, outside_mutated l a -> mem t1 !! a = mem t !! a) /\ (forall a, is_Some (mem t1 !! a) <-> is_Some (mem t !! a)) /\
    forall t2, ran_directly l t1 t2 (apply_writes (kept (mem t) l) (mem t2)) ->
    exists m recs, process_syscall_results i (direct_state t s l (kept_bytes (mem t) l)) t2 =
        Ok (direct_state t s l [], mkTracee m (args t2) (result t2) (records t ++ recs)) /\
      (forall a, (exists p, p ∈ l /\ mutates p = true /\ in_buffer p a) -> m !! a = mem t !! a) /\
      (forall a, outside_mutated l a -> m !! a = mem t2 !! a) /\
      forall a, apply_writes recs (mem t) !! a = m !! a.
Proof.
  intros D. destruct (prepare_direct i t s D) as (l & m1 & Hprep & HF & Hout & Hdom).
  eexists l, _. split; [exact Hprep|]. do 3 (split; [done|]). intros t2 [Kr Kd Kb Kres Kf Km]. cbn [mem records set_mem] in *.
  pose proof (direct_mutated _ _ _ _ D HF) as Hml. set (m := apply_writes (kept (mem t) l) (mem t2)) in *. set (t3 := set_mem m t2) in *.
  assert (forall a, is_Some (m !! a) <-> is_Some (mem t !! a)) as Hdm by (eapply direct_dom; [done..|intros a; by rewrite Kd, Hdom]).
  pose proof (direct_sizes _ _ _ _ D HF m Hdm) as Hlok. pose proof (direct_within m t3 eq_refl Kb Kres) as Hw.
  assert (Forall (fun x => mapped (dest x.1) x.2 m) (sized_list t3 [] l)) as Hm3.
  { eapply Forall_impl; [exact Km|]. intros x Hx a Ha. apply Hdm, Hdom, Kd. by apply Hx. }
  exists m, (map (direct_record m) (sized_list t3 [] l)). splits.
  - unfold process_syscall_results. cbn [direct_state preparation_done negb scratch_enabled param_list saved_data].
    pose proof (restore_mutated_ok (mem t) l [] t2 Hml) as Hrest. rewrite app_nil_r in Hrest.
    rewrite Hrest by (intros a; by rewrite Kd, Hdom). cbn [mbind res_bind fst snd]. rewrite bool_decide_true by done.
    fold m t3. pose proof (record_all_ok l t3 Kb Kres [] (records t2) Hlok Hw Hm3) as Hrec. cbn [fmap list_fmap] in Hrec.
    change (mkTracee (mem t3) (args t3) (result t3) (records t2)) with t3 in Hrec. rewrite Hrec. cbn. by rewrite Kr.
  - intros a Ha. subst m. destruct (restored_lookup (mem t) l (mem t2) a Hml) as [[H _]|[_ H]]; [done|].
    destruct Ha as (p & Hp & Hpm & Hpa). by destruct (H p Hp Hpm).
  - intros a Ha. subst m. destruct (restored_lookup (mem t) l (mem t2) a Hml) as [[_ (p & Hp & Hpm & Hpa)]|[H _]]; [by destruct (Ha p Hp Hpm)|done].
  - intros a. apply direct_records_replay.
    + assert (Forall (fun p => direct_size_ok m (num_bytes p)) l) as Hl by (eapply Forall_impl; [done|]; by intros p []).
      pose proof (sized_list_sizes _ t3 l [] Hl Hw) as Hs. rewrite Forall_forall in *. intros x Hx. split; [by apply Hs|by apply Hm3].
    + intros Hno. subst m. destruct (restored_lookup (mem t) l (mem t2) a Hml) as [[H _]|[-> Ho]]; [done|].
      rewrite Kf by done. by apply Hout.
Qed.

End SyscallTheorems.
