(* ===== verification/SyscallExamples.v ===== *)
(** Examples of recorded system calls. *)

From S2P Require Import Prelude TraceeMemory SyscallState SyscallStateProofs SyscallResults SyscallDirect SyscallTheorems.

Module SyscallExamples.
Import TMem SyscallState SyscallProofs SyscallResults SyscallDirect SyscallTheorems.

(** ** Memory made of writes *)

Lemma mapped_write addr data m : mapped addr (Z.of_nat (length data)) (write_map addr data m).
Proof. intros a Ha. rewrite write_map_lookup, decide_True by done. apply lookup_lt_is_Some. lia. Qed.

Lemma mapped_part a n b k m : mapped a n m -> a <= b -> b + k <= a + n -> mapped b k m.
Proof. intros H Ha Hb x Hx. apply H. lia. Qed.

Lemma bytes_ok_write addr data m : Forall (fun b => 0 <= b < 256) data -> bytes_ok m -> bytes_ok (write_map addr data m).
Proof.
  intros Hd Hm a v. rewrite write_map_lookup. case_decide; [|apply Hm]. intros Hv. rewrite Forall_forall in Hd.
  by eapply Hd, list_elem_of_lookup_2.
Qed.

Lemma write_same_dom addr data m : mapped addr (Z.of_nat (length data)) m ->
  forall a, is_Some (write_map addr data m !! a) <-> is_Some (m !! a).
Proof.
  intros Hm a. rewrite write_map_lookup. case_decide as H; [|done]. split; intros _; [by apply Hm|]. apply lookup_lt_is_Some. lia.
Qed.

(** ** The signals of rd *)

(** The mutator for signal masks does what preparing expects of a mutator. *)
Lemma protect_rd_sigs_ok mask : mutator_ok (protect_rd_sigs mask) 8.
Proof.
  intros a save t Ha Hm. destruct (read_mem_ok a 8 (mem t)) as (l & Hl & Hlen & _); [lia|done|].
  unfold protect_rd_sigs. rewrite (proj2 (Z.eqb_neq a 0) Ha), Hl. cbn [mbind res_bind].
  set (new_set := Z.land (le_val l) (Z.lxor (2 ^ 64 - 1) mask)). destruct (le_val l =? new_set).
  { exists false, [], (mem t). splits; try done. by destruct t. }
  unfold write. rewrite write_mem_ok by (by rewrite le_bytes_length). cbn [mbind res_bind].
  eexists true, _, _. splits; [done| | |done|by intros -> _].
  - intros x Hx. rewrite write_map_lookup, le_bytes_length. by rewrite decide_False by lia.
  - apply write_same_dom. by rewrite le_bytes_length.
Qed.

(** A mask with the signals of rd, given both as the new and for the old mask: the
    system call stores the old mask, here 0, and processing the results puts the new one
    back over it. *)
Definition sigset_mem : Memory := write_map 0x1000 (le_bytes 8 0x50) ∅.

Definition sigprocmask_regs : list Reg :=
  [ByReg 3 (from_usize 8) Out None; ByReg 2 (from_usize 8) In_ (Some (protect_rd_sigs 0x40))].

Definition sigprocmask_example : res (list Z * list Z) :=
  let i := mkInfo 0x10000 0x1000 8 in
  let t := mkTracee sigset_mem [0; 0x1000; 0x1000; 8; 0; 0] 0 [] in
  s ← register i t sigprocmask_regs (start i t);
  x ← done_preparing i PreventSwitch s t;
  let '(_, s, t) := x in
  seen ← read_mem 0x1000 8 (mem t);
  t ← write 0x1000 (le_bytes 8 0) t;
  y ← process_syscall_results i s t;
  got ← read_mem 0x1000 8 (mem y.2);
  Ok (seen, got).

(** The kernel reads the mask without the signal of rd; the tracee reads its own mask
    where the kernel had put the old one. *)
Lemma aliased_sigprocmask_loses_old_mask : sigprocmask_example = Ok (le_bytes 8 0x10, le_bytes 8 0x50).
Proof. vm_compute. reflexivity. Qed.

(** ** A message with a pointer to its buffer *)

Definition info : TaskInfo := mkInfo 0x10000 0x1000 8.

(** A structure at 0x100 whose first word points to a buffer of 4 bytes at 0x200. *)
Definition msg_mem : Memory :=
  write_map 0x100 (le_bytes 8 0x200 ++ le_bytes 8 1) (write_map 0x200 [1; 2; 3; 4] (write_map 0x10000 (replicate 64 0) ∅)).

Definition msg_tracee : Tracee := mkTracee msg_mem [5; 0x100; 0; 0; 0; 0] 0 [].

Definition msg_regs : list Reg :=
  [ByReg 2 (from_usize 16) InOut None; ByMem 0x100 (from_syscall_result_with_size 8 4) Out None].

Definition msg_state : TaskSyscallState := Eval vm_compute in
  match register info msg_tracee msg_regs (start info msg_tracee) with Ok s => s | _ => new end.

Lemma msg_params : exists p q, param_list msg_state = [p; q] /\
  p = mkParam 0x100 0x10000 (mkSize 16 0 0 false) 0 2 InOut None /\
  q = mkParam 0x200 0x10010 (mkSize 4 0 8 true) 0x100 0 Out None.
Proof. do 2 eexists. split; [reflexivity|]. split; reflexivity. Qed.

Lemma msg_mapped : mapped 0x100 16 msg_mem /\ mapped 0x200 4 msg_mem /\ mapped 0x10000 64 msg_mem.
Proof.
  splits.
  - apply (mapped_write 0x100 (le_bytes 8 0x200 ++ le_bytes 8 1)).
  - apply write_map_mapped, (mapped_write 0x200 [1; 2; 3; 4]).
  - apply write_map_mapped, write_map_mapped, (mapped_write 0x10000 (replicate 64 0)).
Qed.

Lemma msg_bytes : bytes_ok msg_mem.
Proof. unfold msg_mem. repeat apply bytes_ok_write; try (intros a v H; by rewrite lookup_empty in H); vm_compute; repeat constructor; congruence. Qed.

Lemma msg_movable : movable info msg_tracee msg_state.
Proof.
  destruct msg_mapped as (M1 & M2 & M3). destruct msg_params as (p & q & Hpq & -> & ->).
  assert (forall x, x ∈ param_list msg_state -> x = mkParam 0x100 0x10000 (mkSize 16 0 0 false) 0 2 InOut None \/
    x = mkParam 0x200 0x10010 (mkSize 4 0 8 true) 0x100 0 Out None) as Hin.
  { intros x. rewrite Hpq. rewrite !elem_of_cons, elem_of_nil. tauto. }
  split; try done.
  - apply (register_registered info msg_tracee msg_regs (start info msg_tracee)); try done.
    repeat constructor; done.
  - apply (mapped_part 0x10000 64); [done|done|done].
  - apply msg_bytes.
  - cbn. lia.
  - split.
    + intros x Hx Hm. destruct (Hin x Hx) as [-> | ->]; [done|]. destruct Hm; done.
    + intros x Hx. destruct (Hin x Hx) as [-> | ->]; left; done.
    + intros x Hx. destruct (Hin x Hx) as [-> | ->]; cbn; lia.
    + intros x Hx Hne. destruct (Hin x Hx) as [-> | ->]; [done|]. eexists. split; [reflexivity|]. done.
    + intros x Hx Hne. destruct (Hin x Hx) as [-> | ->]; done.
  - intros x Hx. destruct (Hin x Hx) as [-> | ->]; cbn; (split; [intros [?|?]; try done; by right|done]).
  - intros x f Hx Hf. destruct (Hin x Hx) as [-> | ->]; done.
  - intros x Hx [f Hf]. destruct (Hin x Hx) as [-> | ->]; done.
Qed.

Definition msg_param : MemoryParam := mkParam 0x100 0x10000 (mkSize 16 0 0 false) 0 2 InOut None.
Definition buf_param : MemoryParam := mkParam 0x200 0x10010 (mkSize 4 0 8 true) 0x100 0 Out None.

(** The kernel stores three bytes. *)
Definition msg_scratch : list Z := le_bytes 8 0x10010 ++ le_bytes 8 1 ++ [7; 8; 9; 0; 0; 0; 0; 0].

Lemma msg_prepared_params :
  match done_preparing info AllowSwitch msg_state msg_tracee with Ok (_, s, _) => param_list s | _ => [] end = [msg_param; buf_param].
Proof. vm_compute. reflexivity. Qed.

Lemma msg_results t : result t = 3 -> sized_list t [] [msg_param; buf_param] = [(msg_param, 16); (buf_param, 3)].
Proof. intros H. cbn -[Z.max Z.min]. unfold size_of, source. cbn -[Z.max Z.min]. by rewrite H. Qed.

Lemma msg_kernel_ran t1 : agree 0x10000 0x10018 msg_mem (mem t1) -> (forall a, is_Some (mem t1 !! a) <-> is_Some (msg_mem !! a)) ->
  kernel_ran info 0x10018 [msg_param; buf_param] t1 (mkTracee (write_map 0x10000 msg_scratch msg_mem) (args t1) 3 (records t1)).
Proof.
  intros Hag Hdom. destruct msg_mapped as (M1 & M2 & M3). split; try done.
  - intros a. cbn [mem]. rewrite write_same_dom; [by rewrite Hdom|]. by apply (mapped_part 0x10000 64).
  - apply bytes_ok_write; [vm_compute; repeat constructor; congruence|apply msg_bytes].
  - intros a Ha _. cbn [mem]. rewrite <- Hag by done. rewrite write_map_lookup, decide_False; [done|].
    unfold outside in Ha. cbn in Ha. cbn. lia.
  - rewrite msg_results by done. repeat constructor; intros _; cbn [fst snd mem];
      apply write_map_mapped; [done|by apply (mapped_part 0x200 4)].
Qed.

Lemma msg_delivered t m a r recs : mem t = write_map 0x10000 msg_scratch msg_mem -> result t = 3 ->
  results_delivered info [msg_param; buf_param] t (mkTracee m a r recs) -> m !! (0x200 + 1) = Some 8.
Proof.
  intros Ht Hr Hdel. specialize (Hdel buf_param 3 1). rewrite msg_results in Hdel by done. cbn [mem] in Hdel.
  change (dest buf_param) with 0x200 in Hdel. rewrite Hdel; [rewrite Ht; vm_compute; reflexivity|right; left|reflexivity|lia| |].
  - intros q j Hq _ Hc. apply elem_of_cons in Hq as [[= -> ->]|Hq]; [cbn in Hc; lia|]. by apply list_elem_of_singleton in Hq as [= -> ->].
  - intros q Hq Hne. apply elem_of_cons in Hq as [->|Hq]; [done|]. apply list_elem_of_singleton in Hq as ->. cbn. lia.
Qed.

Lemma scratch_syscall_replays_witness :
  exists s t1 t2 m recs, done_preparing info AllowSwitch msg_state msg_tracee = Ok (AllowSwitch, s, t1) /\
    process_syscall_results info s t2 = Ok (s, mkTracee m (args msg_tracee) (result t2) recs) /\
    result t2 = 3 /\ m !! (0x200 + 1) = Some 8.
Proof.
  destruct (scratch_syscall_replays info msg_tracee msg_state msg_movable) as (l & t1 & Hp & Hag & Hdom & _ & H).
  assert (l = [msg_param; buf_param]) as -> by (rewrite <- msg_prepared_params, Hp; reflexivity).
  destruct (H _ (msg_kernel_ran t1 Hag Hdom)) as (m & recs & Hproc & Hdel & _).
  eexists _, t1, _, m, _. split; [exact Hp|]. split; [exact Hproc|]. split; [reflexivity|].
  by eapply msg_delivered; [| |exact Hdel].
Defined.

Lemma abort_restores_witness :
  exists s t1 t', done_preparing info AllowSwitch msg_state msg_tracee = Ok (AllowSwitch, s, t1) /\
    abort_syscall_results info s t1 = Ok (s, t') /\ args t' = [5; 0x100; 0; 0; 0; 0] /\ mem t' !! 0x101 = Some 2.
Proof.
  destruct (abort_restores info msg_tracee msg_state msg_movable) as (l & t1 & t' & H1 & H2 & H3 & _ & _ & H4).
  exists (prepared_state msg_tracee msg_state l), t1, t'. split; [exact H1|]. split; [exact H2|]. split; [exact H3|].
  rewrite <- H4; [vm_compute; reflexivity|left; vm_compute; reflexivity].
Defined.

(** ** A signal mask *)

(** A new mask with a signal of rd at 0x1000, and room for the old one at 0x2000. *)
Definition mask_mem : Memory := write_map 0x1000 (le_bytes 8 0x50) (write_map 0x2000 (replicate 8 0xff) ∅).

Definition mask_tracee : Tracee := mkTracee mask_mem [0; 0x1000; 0x2000; 8; 0; 0] 0 [].

Definition mask_state : TaskSyscallState := Eval cbv -[protect_rd_sigs] in
  match register info mask_tracee sigprocmask_regs (start info mask_tracee) with Ok s => s | _ => new end.

Definition old_mask : MemoryParam := mkParam 0x2000 0x10000 (mkSize 8 0 0 false) 0 3 Out None.
Definition new_mask : MemoryParam := mkParam 0x1000 0x10008 (mkSize 8 0 0 false) 0 2 In_ (Some (protect_rd_sigs 0x40)).

Lemma mask_params : param_list mask_state = [old_mask; new_mask].
Proof. reflexivity. Qed.

Lemma mask_mapped : mapped 0x1000 8 mask_mem /\ mapped 0x2000 8 mask_mem.
Proof.
  split; [apply (mapped_write 0x1000 (le_bytes 8 0x50))|].
  apply write_map_mapped, (mapped_write 0x2000 (replicate 8 0xff)).
Qed.

Lemma mask_direct : direct info mask_tracee mask_state.
Proof.
  destruct mask_mapped as [M1 M2]. split; rewrite ?mask_params.
  - apply (register_registered info mask_tracee sigprocmask_regs (start info mask_tracee)); try done.
    repeat constructor; done.
  - intros x Hx. rewrite !elem_of_cons, elem_of_nil in Hx. destruct Hx as [->|[->|[]]]; cbn; (split; [intros [?|?]; done|done]).
  - intros x Hx. rewrite !elem_of_cons, elem_of_nil in Hx. by destruct Hx as [->|[->|[]]].
  - intros x f Hx. rewrite !elem_of_cons, elem_of_nil in Hx. destruct Hx as [->|[->|[]]]; cbn; [done|]. intros [= <-]. apply protect_rd_sigs_ok.
  - intros x Hx. rewrite !elem_of_cons, elem_of_nil in Hx. destruct Hx as [->|[->|[]]]; [done|]. intros _. by splits.
  - cbn. splits; try done. intros _ q Hq. by apply elem_of_nil in Hq.
Qed.

Lemma mask_results t l : Forall2 same_param [old_mask; new_mask] l -> exists p q,
  sized_list t [] l = [(p, 8); (q, 8)] /\ dest p = 0x2000 /\ dest q = 0x1000 /\ l = [p; q] /\ mutates p = false /\
  incoming_size (num_bytes q) = 8.
Proof.
  intros H. inversion H as [|? p ? l' Hp Hl]; subst. inversion Hl as [|? q ? l'' Hq Hn]; subst. inversion Hn; subst.
  exists p, q. destruct Hp as [-> | ->], Hq as [-> | ->]; splits; reflexivity.
Qed.

(** The old mask is 0. *)
Definition mask_after : Memory := write_map 0x2000 (le_bytes 8 0) mask_mem.

Lemma mask_bytes : bytes_ok mask_mem /\ bytes_ok mask_after.
Proof.
  assert (bytes_ok mask_mem) as H.
  { unfold mask_mem. repeat apply bytes_ok_write; try (intros a v H; by rewrite lookup_empty in H); vm_compute; repeat constructor; congruence. }
  split; [done|]. apply bytes_ok_write; [vm_compute; repeat constructor; congruence|done].
Qed.

Lemma mask_outside l a : Forall2 same_param [old_mask; new_mask] l -> ~ (0x1000 <= a < 0x1008) -> outside_mutated l a.
Proof.
  intros HF Ha. destruct (mask_results mask_tracee l HF) as (p & q & _ & _ & Hq & -> & Hp & Hn).
  intros x Hx Hm Hin. rewrite !elem_of_cons, elem_of_nil in Hx. destruct Hx as [->|[->|[]]]; [congruence|].
  unfold in_buffer in Hin. lia.
Qed.

Lemma mask_ran l t1 : Forall2 same_param [old_mask; new_mask] l -> (forall a, outside_mutated l a -> mem t1 !! a = mask_mem !! a) ->
  (forall a, is_Some (mem t1 !! a) <-> is_Some (mask_mem !! a)) ->
  ran_directly l t1 (mkTracee mask_after (args t1) 0 (records t1)) (apply_writes (kept mask_mem l) mask_after).
Proof.
  intros HF Hout Hdom. destruct mask_mapped as [M1 M2].
  set (m := apply_writes (kept mask_mem l) mask_after).
  destruct (mask_results (set_mem m (mkTracee mask_after (args t1) 0 (records t1))) l HF) as (p & q & Hs & Hp & Hq & _).
  split; cbn [mem records result]; try done.
  - intros a. unfold mask_after. rewrite write_same_dom; [by rewrite Hdom|done].
  - intros a v. pose proof (direct_mutated info mask_tracee mask_state l mask_direct HF) as Hmm.
    destruct (restored_lookup mask_mem l mask_after a Hmm) as [[H _]|[H _]]; subst m; rewrite H; apply mask_bytes.
  - intros a. rewrite Hs, !Forall_cons. cbn [fst snd]. rewrite Hp, Hq. intros (H1 & H2 & _).
    rewrite Hout; [|apply mask_outside; [done|lia]]. unfold mask_after. rewrite write_map_lookup, decide_False; [done|]. cbn. lia.
  - rewrite Hs. repeat constructor; cbn [fst snd]; rewrite ?Hp, ?Hq; by apply write_map_mapped.
Qed.

Lemma direct_syscall_replays_witness :
  exists l t1 m recs, done_preparing info PreventSwitch mask_state mask_tracee =
      Ok (PreventSwitch, direct_state mask_tracee mask_state l (kept_bytes (mem mask_tracee) l), t1) /\
    process_syscall_results info (direct_state mask_tracee mask_state l (kept_bytes (mem mask_tracee) l))
      (mkTracee mask_after (args t1) 0 (records t1)) =
      Ok (direct_state mask_tracee mask_state l [], mkTracee m (args t1) 0 recs) /\ m !! 0x2000 = Some 0.
Proof.
  destruct (direct_syscall_replays info mask_tracee mask_state mask_direct) as (l & t1 & Hp & HF & Hout & Hdom & H).
  rewrite mask_params in HF. destruct (H _ (mask_ran l t1 HF Hout Hdom)) as (m & recs & Hproc & _ & Hm & _).
  exists l, t1, m, (records mask_tracee ++ recs). split; [exact Hp|]. split; [exact Hproc|].
  rewrite Hm; [vm_compute; reflexivity|]. apply mask_outside; [exact HF|lia].
Defined.

End SyscallExamples.
