(* ===== verification/FdTable.v ===== *)
(** Tables of monitored file descriptors: [src/src/fd_table.rs] with the sets of tasks of
    [src/src/weak_ptr_set.rs], the parts of [src/src/session/task/task_common.rs],
    [src/src/session/task/task_inner.rs] and [src/src/session/session_inner.rs] that give
    tasks their tables and address spaces, and the test of [src/src/preload/syscallbuf.c]
    the tables are kept for: a descriptor that is monitored must not be buffered in any
    process that has a task using it. *)

From S2P Require Import Prelude TraceeMemory.

Module FdTable.
Import TMem.

(** ** Data *)

(** [AddressSpaceUid]: thread id, serial number and count of execs. *)
Abbreviation VmUid := (Z * Z * Z)%type.

Definition vm_serial (u : VmUid) : Z := u.1.2.
Definition exec_count (u : VmUid) : Z := u.2.

(** [TaskUid]: recorded thread id and serial number. *)
Abbreviation TaskUid := (Z * Z)%type.

(** [VirtualPerfCounterMonitor]; [weak_self] is [None] for [Weak::new()]. *)
Record VirtualPerfCounter := mkVpmc {
  initial_ticks : Z; target_ticks_ : Z; target_tuid_ : TaskUid; owner_tid : Z; vflags : Z;
  sig : option Z; enabled : bool; weak_self : option Z }.

(** [Box<dyn FileMonitor>]: one constructor per implementation of the trait. *)
Inductive FileMonitor :=
| Base
| MagicSaveData
| Mmapped (dead_ : bool) (device_ inode_ : Z)
| Preserve
| ProcFd (maybe_tuid : option TaskUid)
| ProcMem (maybe_tuid : option TaskUid)
| Stdio (original_fd : Z)
| VirtualPerf (v : VirtualPerfCounter).

(** A table: the tasks that use it, and the monitor of each descriptor by its pointer. *)
Record FdTable := mkFdTable { tasks : gset Z; fds : gmap Z Z; fd_count_beyond_limit : Z }.

Record Task := mkTask {
  rec_tid : Z; serial : Z; as_ : VmUid; fds_ : Z; preload_globals : Z;
  desched_fd_child : Z; cloned_file_data_fd_child : Z; tick_count : Z }.

Record Vm := mkVm { task_set : gset Z; vmem : Memory }.

(** A session: its tasks, tables, address spaces and monitors by pointer (address spaces
    by their unique id), the map from recorded thread ids to tasks, the next serial number
    and the raw data written to the trace. *)
Record World := mkWorld {
  recording : bool; w_tasks : gmap Z Task; w_tables : gmap Z FdTable; w_vms : gmap VmUid Vm;
  w_monitors : gmap Z FileMonitor; task_map : gmap Z Z; next_serial : Z;
  raw_data : list (Z * Z * list Z) }.

Definition set_tasks (f : gmap Z Task -> gmap Z Task) (w : World) : World :=
  mkWorld (recording w) (f (w_tasks w)) (w_tables w) (w_vms w) (w_monitors w) (task_map w) (next_serial w) (raw_data w).
Definition set_tables (f : gmap Z FdTable -> gmap Z FdTable) (w : World) : World :=
  mkWorld (recording w) (w_tasks w) (f (w_tables w)) (w_vms w) (w_monitors w) (task_map w) (next_serial w) (raw_data w).
Definition set_vms (f : gmap VmUid Vm -> gmap VmUid Vm) (w : World) : World :=
  mkWorld (recording w) (w_tasks w) (w_tables w) (f (w_vms w)) (w_monitors w) (task_map w) (next_serial w) (raw_data w).
Definition set_monitors (f : gmap Z FileMonitor -> gmap Z FileMonitor) (w : World) : World :=
  mkWorld (recording w) (w_tasks w) (w_tables w) (w_vms w) (f (w_monitors w)) (task_map w) (next_serial w) (raw_data w).
Definition set_task_map (f : gmap Z Z -> gmap Z Z) (w : World) : World :=
  mkWorld (recording w) (w_tasks w) (w_tables w) (w_vms w) (w_monitors w) (f (task_map w)) (next_serial w) (raw_data w).
Definition set_next_serial (n : Z) (w : World) : World :=
  mkWorld (recording w) (w_tasks w) (w_tables w) (w_vms w) (w_monitors w) (task_map w) n (raw_data w).
Definition add_raw (r : Z * Z * list Z) (w : World) : World :=
  mkWorld (recording w) (w_tasks w) (w_tables w) (w_vms w) (w_monitors w) (task_map w) (next_serial w) (raw_data w ++ [r]).

Definition task (w : World) (p : Z) : res Task := unwrap (w_tasks w !! p).
Definition table (w : World) (q : Z) : res FdTable := unwrap (w_tables w !! q).
Definition vm (w : World) (u : VmUid) : res Vm := unwrap (w_vms w !! u).
Definition set_table (q : Z) (tb : FdTable) : World -> World := set_tables (insert q tb).
Definition set_task (p : Z) (t : Task) : World -> World := set_tasks (insert p t).

(** [u32] counters of the checked build. *)
Definition u32_inc (n : Z) : res Z := if n + 1 <? 2 ^ 32 then Ok (n + 1) else Panic.
Definition u32_dec (n : Z) : res Z := if 1 <=? n then Ok (n - 1) else Panic.

(** Size of [syscallbuf_fds_disabled] and its offset in [preload_globals]. *)
Definition SYSCALLBUF_FDS_DISABLED_SIZE : Z := 1024.
Definition FDS_DISABLED_OFFSET : Z := 8.

(** [RemotePtr] addition wraps. *)
Definition flag_addr (globals fd : Z) : Z := wrap 64 (globals + FDS_DISABLED_OFFSET + fd).

(** A [HashSet] is iterated in some order of its elements. *)
Class HashOrder := {
  hash_order : gset Z -> list Z;
  hash_order_perm s : hash_order s ≡ₚ elements s }.

(** ** Sets of tasks *)

Definition insert_task (p : Z) (s : gset Z) : gset Z := {[p]} ∪ s.
Definition erase_task (p : Z) (s : gset Z) : gset Z := s ∖ {[p]}.

(** ** Tracee memory and the trace *)

Definition write_bytes (t : Task) (addr : Z) (data : list Z) (w : World) : res World :=
  v ← vm w (as_ t);
  m ← write_mem addr data (vmem v);
  Ok (set_vms (insert (as_ t) (mkVm (task_set v) m)) w).

Definition record_local (t : Task) (addr : Z) (data : list Z) (w : World) : World :=
  if addr =? 0 then w else add_raw (rec_tid t, addr, data) w.

Section FdTable.
Context `{HashOrder}.

(** ** Tables *)

Definition is_monitoring (tb : FdTable) (fd : Z) : bool := bool_decide (is_Some (fds tb !! fd)).
Definition count_beyond_limit (tb : FdTable) : Z := fd_count_beyond_limit tb.

(** [is_fd_monitored_in_any_task] over the tasks of an address space. *)
Fixpoint any_monitored (w : World) (ps : list Z) (fd : Z) : res bool :=
  match ps with
  | [] => Ok false
  | p :: ps =>
      t ← task w p;
      tb ← table w (fds_ t);
      if is_monitoring tb fd || ((SYSCALLBUF_FDS_DISABLED_SIZE - 1 <=? fd) && (0 <? count_beyond_limit tb)) then Ok true
      else any_monitored w ps fd
  end.

Definition is_fd_monitored_in_any_task (w : World) (u : VmUid) (fd : Z) : res bool :=
  v ← vm w u; any_monitored w (hash_order (task_set v)) fd.

(** The tasks of the table one after another: each address space is written once. *)
Fixpoint process_tasks (ps : list Z) (vms_updated : gset VmUid) (fd : Z) (w : World) : res World :=
  match ps with
  | [] => Ok w
  | p :: ps =>
      t ← task w p;
      if negb (recording w) then Ok w else
      if bool_decide (as_ t ∈ vms_updated) then process_tasks ps vms_updated fd w else
      let vms_updated := {[as_ t]} ∪ vms_updated in
      if preload_globals t =? 0 then process_tasks ps vms_updated fd w else
      let fd := if SYSCALLBUF_FDS_DISABLED_SIZE <=? fd then SYSCALLBUF_FDS_DISABLED_SIZE - 1 else fd in
      d ← is_fd_monitored_in_any_task w (as_ t) fd;
      let disable := if d : bool then 1 else 0 in
      let addr := flag_addr (preload_globals t) fd in
      w ← write_bytes t addr [disable] w;
      process_tasks ps vms_updated fd (record_local t addr [disable] w)
  end.

Definition update_syscallbuf_fds_disabled (q fd : Z) (w : World) : res World :=
  tb ← table w q;
  _ ← assert_ (0 <=? fd);
  _ ← assert_ (bool_decide (tasks tb <> ∅));
  process_tasks (hash_order (tasks tb)) ∅ fd w.

(** The weak pointer to itself that a virtual counter is given. *)
Definition set_weak_self (mp : Z) (m : FileMonitor) : FileMonitor :=
  match m with
  | VirtualPerf v => VirtualPerf (mkVpmc (initial_ticks v) (target_ticks_ v) (target_tuid_ v) (owner_tid v) (vflags v) (sig v) (enabled v) (Some mp))
  | m => m
  end.

(** [mp] is the pointer of the new [Rc]. *)
Definition add_monitor (q fd mp : Z) (monitor : FileMonitor) (w : World) : res World :=
  tb ← table w q;
  _ ← assert_ (negb (is_monitoring tb fd));
  n ← (if (SYSCALLBUF_FDS_DISABLED_SIZE <=? fd) && negb (is_monitoring tb fd) then u32_inc (fd_count_beyond_limit tb)
       else Ok (fd_count_beyond_limit tb));
  update_syscallbuf_fds_disabled q fd
    (set_table q (mkFdTable (tasks tb) (<[fd:=mp]> (fds tb)) n) (set_monitors (insert mp (set_weak_self mp monitor)) w)).

Definition did_dup (q from to : Z) (w : World) : res World :=
  tb ← table w q;
  w ← match fds tb !! from with
      | Some val =>
          n ← (if (SYSCALLBUF_FDS_DISABLED_SIZE <=? to) && negb (is_monitoring tb to) then u32_inc (fd_count_beyond_limit tb)
               else Ok (fd_count_beyond_limit tb));
          Ok (set_table q (mkFdTable (tasks tb) (<[to:=val]> (fds tb)) n) w)
      | None =>
          n ← (if (SYSCALLBUF_FDS_DISABLED_SIZE <=? to) && is_monitoring tb to then u32_dec (fd_count_beyond_limit tb)
               else Ok (fd_count_beyond_limit tb));
          Ok (set_table q (mkFdTable (tasks tb) (delete to (fds tb)) n) w)
      end;
  update_syscallbuf_fds_disabled q to w.

Definition did_close (q fd : Z) (w : World) : res World :=
  tb ← table w q;
  n ← (if (SYSCALLBUF_FDS_DISABLED_SIZE <=? fd) && is_monitoring tb fd then u32_dec (fd_count_beyond_limit tb)
       else Ok (fd_count_beyond_limit tb));
  update_syscallbuf_fds_disabled q fd (set_table q (mkFdTable (tasks tb) (delete fd (fds tb)) n) w).

(** [q'] is the pointer of the copy. *)
Definition clone_into_task (q p q' : Z) (w : World) : res World :=
  tb ← table w q;
  Ok (set_table q' (mkFdTable (insert_task p ∅) (fds tb) (fd_count_beyond_limit tb)) w).

Definition create (p q' : Z) : World -> World := set_table q' (mkFdTable (insert_task p ∅) ∅ 0).

Definition get_monitor (tb : FdTable) (fd : Z) : option Z := fds tb !! fd.

(** The flags of the descriptors of one table, put in the array of all flags. *)
Fixpoint disable_fds (keys : list Z) (disabled : list Z) : res (list Z) :=
  match keys with
  | [] => Ok disabled
  | fd :: keys =>
      _ ← assert_ (0 <=? fd);
      let adjusted_fd := if SYSCALLBUF_FDS_DISABLED_SIZE <=? fd then SYSCALLBUF_FDS_DISABLED_SIZE - 1 else fd in
      disable_fds keys (<[Z.to_nat adjusted_fd:=1]> disabled)
  end.

Fixpoint disable_tasks (w : World) (ps : list Z) (disabled : list Z) : res (list Z) :=
  match ps with
  | [] => Ok disabled
  | p :: ps =>
      t ← task w p;
      tb ← table w (fds_ t);
      disabled ← disable_fds (hash_order (dom (fds tb))) disabled;
      disable_tasks w ps disabled
  end.

Definition init_syscallbuf_fds_disabled (q p : Z) (w : World) : res World :=
  if negb (recording w) then Ok w else
  rt ← task w p;
  tb ← table w q;
  _ ← assert_ (bool_decide (p ∈ tasks tb));
  if preload_globals rt =? 0 then Ok w else
  let disabled := replicate (Z.to_nat SYSCALLBUF_FDS_DISABLED_SIZE) 0 in
  rtb ← table w (fds_ rt);
  disabled ← disable_fds (hash_order (dom (fds rtb))) disabled;
  v ← vm w (as_ rt);
  disabled ← disable_tasks w (hash_order (erase_task p (task_set v))) disabled;
  let addr := flag_addr (preload_globals rt) 0 in
  w ← write_bytes rt addr disabled w;
  Ok (record_local rt addr disabled w).

Fixpoint close_all (q : Z) (l : list Z) (w : World) : res World :=
  match l with [] => Ok w | fd :: l => w ← did_close q fd w; close_all q l w end.

(** [is_fd_open] is what [/proc/<tid>/fd] shows. *)
Definition fds_to_close_after_exec (q p : Z) (is_fd_open : Z -> bool) (w : World) : res (list Z * World) :=
  tb ← table w q;
  _ ← assert_ (bool_decide (p ∈ tasks tb));
  let fds_to_close := List.filter (fun fd => negb (is_fd_open fd)) (hash_order (dom (fds tb))) in
  w ← close_all q fds_to_close w;
  Ok (fds_to_close, w).

Definition close_after_exec (q p : Z) (fds_to_close : list Z) (w : World) : res World :=
  tb ← table w q;
  _ ← assert_ (bool_decide (p ∈ tasks tb));
  close_all q fds_to_close w.

(** ** Tasks, their tables and their address spaces *)

Definition next_task_serial (w : World) : res (Z * World) :=
  n ← u32_inc (next_serial w); Ok (next_serial w, set_next_serial n w).

(** [create_vm]: the new address space has one task; [m] is the memory the kernel gave it. *)
Definition create_vm (p : Z) (tid ser execs : Z) (m : Memory) (w : World) : World :=
  set_vms (insert (tid, ser, execs) (mkVm (insert_task p ∅) m)) w.

Definition RD_MAGIC_SAVE_DATA_FD : Z := 999.
Definition RD_RESERVED_ROOT_DIR_FD : Z := 1000.

(** The five descriptors every tracee starts with; the monitors get the pointers [mp], .... *)
Definition setup_fd_table (q socket_fd mp : Z) (w : World) : res World :=
  w ← add_monitor q 1 mp (Stdio 1) w;
  w ← add_monitor q 2 (mp + 1) (Stdio 2) w;
  w ← add_monitor q RD_MAGIC_SAVE_DATA_FD (mp + 2) MagicSaveData w;
  w ← add_monitor q RD_RESERVED_ROOT_DIR_FD (mp + 3) Preserve w;
  add_monitor q socket_fd (mp + 4) Preserve w.

(** The first tracee; [p] and [q] are the pointers of its task and its table. *)
Definition spawn (p q tid socket_fd mp : Z) (m : Memory) (w : World) : res World :=
  '(ser, w) ← next_task_serial w;
  let w := create_vm p tid ser 0 m w in
  let w := create p q w in
  let w := set_task p (mkTask tid ser (tid, ser, 0) q 0 (-1) (-1) 0) w in
  w ← setup_fd_table q socket_fd mp w;
  Ok (set_task_map (insert tid p) w).

Definition set_fd_children (t : Task) (desched cloned : Z) : Task :=
  mkTask (rec_tid t) (serial t) (as_ t) (fds_ t) (preload_globals t) desched cloned (tick_count t).

(** The descriptors of the buffers of [other], closed in the task [p]. *)
Definition close_buffers_for (p : Z) (other : Task) (w : World) : res World :=
  t ← task w p;
  w ← (if 0 <=? desched_fd_child other then did_close (fds_ t) (desched_fd_child other) w else Ok w);
  if 0 <=? cloned_file_data_fd_child other then did_close (fds_ t) (cloned_file_data_fd_child other) w else Ok w.

Fixpoint close_buffers (p : Z) (others : list Z) (w : World) : res World :=
  match others with
  | [] => Ok w
  | o :: others => other ← task w o; w ← close_buffers_for p other w; close_buffers p others w
  end.

(** [clone_task_common] of the task [c] for a clone by the tracee: [p], [q] are the pointers
    of the new task and of the copy of the table. *)
Definition clone_task (c p q new_tid : Z) (share_vm share_files : bool) (w : World) : res World :=
  ct ← task w c;
  '(ser, w) ← next_task_serial w;
  cv ← vm w (as_ ct);
  let uid := if share_vm then as_ ct else (new_tid, ser, 0) in
  let w := if share_vm then w else set_vms (insert uid (mkVm ∅ (vmem cv))) w in
  tb ← table w (fds_ ct);
  let q := if share_files then fds_ ct else q in
  w ← (if share_files then Ok (set_table q (mkFdTable (insert_task p (tasks tb)) (fds tb) (fd_count_beyond_limit tb)) w)
       else clone_into_task (fds_ ct) p q w);
  let w := set_task p (mkTask new_tid ser uid q (preload_globals ct) (-1) (-1) 0) w in
  v ← vm w uid;
  let w := set_vms (insert uid (mkVm (insert_task p (task_set v)) (vmem v))) w in
  w ← (if share_files then Ok w
       else w ← close_buffers_for p ct w; close_buffers p (hash_order (erase_task c (tasks tb))) w);
  Ok (set_task_map (insert new_tid p) w).

(** [unshare(CLONE_FILES)]; [q'] is the pointer of the copy. *)
Definition unshare_files (p q' : Z) (w : World) : res World :=
  t ← task w p;
  tb ← table w (fds_ t);
  let w := set_table (fds_ t) (mkFdTable (erase_task p (tasks tb)) (fds tb) (fd_count_beyond_limit tb)) w in
  w ← clone_into_task (fds_ t) p q' w;
  Ok (set_task p (mkTask (rec_tid t) (serial t) (as_ t) q' (preload_globals t) (desched_fd_child t) (cloned_file_data_fd_child t) (tick_count t)) w).

(** [revive_task_for_exec]: a thread that execs takes the thread id of its leader. *)
Definition revive_task_for_exec (old_tid new_tid : Z) (w : World) : res World :=
  p ← (match task_map w !! old_tid with Some p => Ok p | None => Fatal end);
  t ← task w p;
  let w := set_task_map (fun m => <[new_tid:=p]> (delete (rec_tid t) m)) w in
  '(ser, w) ← next_task_serial w;
  Ok (set_task p (mkTask new_tid ser (as_ t) (fds_ t) (preload_globals t) (desched_fd_child t) (cloned_file_data_fd_child t) (tick_count t)) w).

(** [post_exec_for_exe_common]: a new address space, with the memory [m] the kernel made,
    and a copy of the table. *)
Definition post_exec (p q' : Z) (m : Memory) (w : World) : res World :=
  t ← task w p;
  v ← vm w (as_ t);
  let w := set_vms (insert (as_ t) (mkVm (erase_task p (task_set v)) (vmem v))) w in
  tb ← table w (fds_ t);
  let w := set_table (fds_ t) (mkFdTable (erase_task p (tasks tb)) (fds tb) (fd_count_beyond_limit tb)) w in
  n ← u32_inc (exec_count (as_ t));
  let uid := (rec_tid t, serial t, n) in
  let w := create_vm p (rec_tid t) (serial t) n m w in
  w ← clone_into_task (fds_ t) p q' w;
  Ok (set_task p (mkTask (rec_tid t) (serial t) uid q' 0 (-1) (-1) (tick_count t)) w).

(** [destroy_common]: the task leaves the session and its sets. *)
Definition destroy (p : Z) (w : World) : res World :=
  t ← task w p;
  let w := set_task_map (delete (rec_tid t)) w in
  v ← vm w (as_ t);
  let w := set_vms (insert (as_ t) (mkVm (erase_task p (task_set v)) (vmem v))) w in
  tb ← table w (fds_ t);
  let w := set_table (fds_ t) (mkFdTable (erase_task p (tasks tb)) (fds tb) (fd_count_beyond_limit tb)) w in
  Ok (set_tasks (delete p) w).

Definition set_globals (g : Z) (t : Task) : Task :=
  mkTask (rec_tid t) (serial t) (as_ t) (fds_ t) g (desched_fd_child t) (cloned_file_data_fd_child t) (tick_count t).

Fixpoint set_all_globals (g : Z) (ps : list Z) (w : World) : res World :=
  match ps with [] => Ok w | p :: ps => t ← task w p; set_all_globals g ps (set_task p (set_globals g t) w) end.

(** [at_preload_init_common]: the preload library of the process has its variables at [g]. *)
Definition preload_init (p g : Z) (w : World) : res World :=
  t ← task w p;
  let w := set_task p (set_globals g t) w in
  v ← vm w (as_ t);
  w ← set_all_globals g (hash_order (erase_task p (task_set v))) w;
  _ ← assert_ (negb (g =? 0));
  w ← write_bytes t g [if recording w then 0 else 1] w;
  init_syscallbuf_fds_disabled (fds_ t) p w.

(** ** The test the preload library makes *)

(** [is_bufferable_fd] on memory [m]; [None] when the flag is not mapped. *)
Definition is_bufferable_fd (m : Memory) (globals fd : Z) : option bool :=
  if fd <? 0 then Some true else
  let fd := if SYSCALLBUF_FDS_DISABLED_SIZE <=? fd then SYSCALLBUF_FDS_DISABLED_SIZE - 1 else fd in
  (fun b => b =? 0) <$> m !! flag_addr globals fd.

End FdTable.
End FdTable.
