(* ===== verification/FdTableProofs.v ===== *)
(** The flags of monitored descriptors: what one update of the flags does, and the
    invariant that keeps a monitored descriptor out of the syscall buffer. *)

From S2P Require Import Prelude TraceeMemory FdTable.

Module FdProofs.
Import TMem FdTable.

(** ** Invariants *)

(** The entry of the array of flags that stands for [fd]. *)
Definition clamp (fd : Z) : Z := if SYSCALLBUF_FDS_DISABLED_SIZE <=? fd then SYSCALLBUF_FDS_DISABLED_SIZE - 1 else fd.

Definition beyond (tb : FdTable) : gset Z := filter (fun k => SYSCALLBUF_FDS_DISABLED_SIZE <= k) (dom (fds tb)).

Record table_ok (tb : FdTable) : Prop := {
  count_ok : fd_count_beyond_limit tb = Z.of_nat (size (beyond tb));
  keys_ok fd : fd ∈ dom (fds tb) -> 0 <= fd < 2 ^ 31 }.

(** Tasks and the sets they are in. *)
Record linked (w : World) : Prop := {
  task_table p t : w_tasks w !! p = Some t -> exists tb, w_tables w !! fds_ t = Some tb /\ p ∈ tasks tb;
  table_task q tb p : w_tables w !! q = Some tb -> p ∈ tasks tb -> exists t, w_tasks w !! p = Some t /\ fds_ t = q;
  task_vm p t : w_tasks w !! p = Some t -> exists v, w_vms w !! as_ t = Some v /\ p ∈ task_set v;
  vm_task u v p : w_vms w !! u = Some v -> p ∈ task_set v -> exists t, w_tasks w !! p = Some t /\ as_ t = u }.

Definition tables_ok (w : World) : Prop := map_Forall (fun _ => table_ok) (w_tables w).

(** The tasks of an address space have the variables of the preload library at one place. *)
Definition uniform (w : World) : Prop := forall p p' t t',
  w_tasks w !! p = Some t -> w_tasks w !! p' = Some t' -> as_ t = as_ t' -> preload_globals t = preload_globals t'.

Definition flags_mapped (g : Z) (m : Memory) : Prop :=
  0 <= g /\ g + FDS_DISABLED_OFFSET + SYSCALLBUF_FDS_DISABLED_SIZE <= USIZE /\
  mapped (g + FDS_DISABLED_OFFSET) SYSCALLBUF_FDS_DISABLED_SIZE m.

(** The array of flags is there in every process with a preload library. *)
Definition arrays_ok (w : World) : Prop := forall p t v,
  w_tasks w !! p = Some t -> preload_globals t <> 0 -> w_vms w !! as_ t = Some v -> flags_mapped (preload_globals t) (vmem v).

(** The flags of the descriptors monitored in task [p], but for those [except] excludes. *)
Definition flags_but (except : Task -> Z -> Prop) (w : World) : Prop := forall p t tb v fd,
  w_tasks w !! p = Some t -> preload_globals t <> 0 -> w_tables w !! fds_ t = Some tb -> w_vms w !! as_ t = Some v ->
  fd ∈ dom (fds tb) -> except t fd \/ vmem v !! flag_addr (preload_globals t) (clamp fd) = Some 1.

(** Serial numbers are used once, and a task has execed at most as often as its address
    space says. *)
Record ids_ok (w : World) : Prop := {
  serial_lt p t : w_tasks w !! p = Some t -> serial t < next_serial w;
  serial_inj p p' t t' : w_tasks w !! p = Some t -> w_tasks w !! p' = Some t' -> serial t = serial t' -> p = p';
  vm_lt u v : w_vms w !! u = Some v -> vm_serial u < next_serial w;
  vm_old u v p t : w_vms w !! u = Some v -> w_tasks w !! p = Some t -> vm_serial u = serial t -> exec_count u <= exec_count (as_ t) }.

Record inv (w : World) : Prop := {
  inv_recording : recording w = true;
  inv_linked : linked w;
  inv_tables : tables_ok w;
  inv_uniform : uniform w;
  inv_arrays : arrays_ok w;
  inv_flags : flags_but (fun _ _ => False) w;
  inv_ids : ids_ok w }.

(** Some task of the address space monitors a descriptor with entry [c]. *)
Definition monitored (w : World) (u : VmUid) (c : Z) : Prop := exists p t tb fd,
  w_tasks w !! p = Some t /\ as_ t = u /\ w_tables w !! fds_ t = Some tb /\ fd ∈ dom (fds tb) /\ clamp fd = c.

(** ** Small facts *)

Lemma clamp_range fd : 0 <= fd -> 0 <= clamp fd < SYSCALLBUF_FDS_DISABLED_SIZE.
Proof. unfold clamp, SYSCALLBUF_FDS_DISABLED_SIZE. destruct (Z.leb_spec 1024 fd); lia. Qed.

Lemma clamp_clamp fd : clamp (clamp fd) = clamp fd.
Proof.
  unfold clamp, SYSCALLBUF_FDS_DISABLED_SIZE. destruct (Z.leb_spec 1024 fd) as [H|H]; [done|].
  destruct (Z.leb_spec 1024 fd); [lia|done].
Qed.

Lemma flag_addr_eq g m c : flags_mapped g m -> 0 <= c < SYSCALLBUF_FDS_DISABLED_SIZE -> flag_addr g c = g + FDS_DISABLED_OFFSET + c.
Proof.
  intros (Hg & Hb & _) Hc. unfold flag_addr. apply wrap_small. change (2 ^ 64) with USIZE.
  unfold FDS_DISABLED_OFFSET, SYSCALLBUF_FDS_DISABLED_SIZE in *. lia.
Qed.

Lemma flags_mapped_dom g m m' : (forall a, is_Some (m !! a) -> is_Some (m' !! a)) -> flags_mapped g m -> flags_mapped g m'.
Proof. intros H (H1 & H2 & H3). split; [done|]. split; [done|]. intros a Ha. by apply H, H3. Qed.

Lemma count_pos tb : table_ok tb -> 0 < fd_count_beyond_limit tb <-> exists fd, fd ∈ dom (fds tb) /\ SYSCALLBUF_FDS_DISABLED_SIZE <= fd.
Proof.
  intros [-> _]. split.
  - intros Hp. assert (beyond tb <> ∅) as Hne. { intros E. rewrite E, size_empty in Hp. lia. }
    apply set_choose_L in Hne as [fd Hfd]. unfold beyond in Hfd. rewrite elem_of_filter in Hfd. exists fd. tauto.
  - intros (fd & Hd & Hb). assert (fd ∈ beyond tb) as Hin by (unfold beyond; rewrite elem_of_filter; done).
    assert (size (beyond tb) <> 0%nat); [|lia]. intros E. apply size_empty_inv in E. set_solver.
Qed.

(** The count of descriptors beyond the array fits in its 32 bits. *)
Lemma count_bound tb : table_ok tb -> 0 <= fd_count_beyond_limit tb < 2 ^ 31.
Proof.
  intros [-> Hk]. split; [lia|].
  assert (size (beyond tb) <= size (list_to_set (seqZ 1024 (2 ^ 31 - 1024)) : gset Z))%nat as Hs.
  { apply subseteq_size. intros fd Hfd. unfold beyond in Hfd. rewrite elem_of_filter in Hfd. destruct Hfd as [Hb Hd].
    apply elem_of_list_to_set, elem_of_seqZ. specialize (Hk fd Hd). unfold SYSCALLBUF_FDS_DISABLED_SIZE in Hb. lia. }
  rewrite size_list_to_set in Hs by apply NoDup_seqZ. rewrite length_seqZ in Hs. lia.
Qed.

(** The counter follows the keys of the table. *)
Lemma beyond_insert tb fd mp n ts : beyond (mkFdTable ts (<[fd:=mp]> (fds tb)) n) =
  if bool_decide (SYSCALLBUF_FDS_DISABLED_SIZE <= fd) then {[fd]} ∪ beyond tb else beyond tb.
Proof.
  unfold beyond. cbn [fds]. rewrite dom_insert_L. apply set_eq. intros k. case_bool_decide; set_solver.
Qed.

Lemma beyond_delete tb fd n ts : beyond (mkFdTable ts (delete fd (fds tb)) n) = beyond tb ∖ {[fd]}.
Proof. unfold beyond. cbn [fds]. rewrite dom_delete_L. apply set_eq. intros k. set_solver. Qed.

Lemma is_monitoring_dom tb fd : is_monitoring tb fd = true <-> fd ∈ dom (fds tb).
Proof. unfold is_monitoring. rewrite bool_decide_eq_true, elem_of_dom. done. Qed.

Lemma insert_ok tb fd mp : table_ok tb -> 0 <= fd < 2 ^ 31 ->
  exists n, (if (SYSCALLBUF_FDS_DISABLED_SIZE <=? fd) && negb (is_monitoring tb fd) then u32_inc (fd_count_beyond_limit tb)
             else Ok (fd_count_beyond_limit tb)) = Ok n /\
    forall ts, table_ok (mkFdTable ts (<[fd:=mp]> (fds tb)) n).
Proof.
  intros Hok Hfd. pose proof (count_bound _ Hok) as Hb. destruct Hok as [Hc Hk].
  assert (forall k, k ∈ dom (<[fd:=mp]> (fds tb)) -> 0 <= k < 2 ^ 31) as Hk'.
  { intros k. rewrite dom_insert_L, elem_of_union, elem_of_singleton. intros [->|?]; auto. }
  destruct (Z.leb_spec SYSCALLBUF_FDS_DISABLED_SIZE fd) as [Hl|Hl]; cbn [andb].
  - destruct (is_monitoring tb fd) eqn:E; cbn [negb].
    + exists (fd_count_beyond_limit tb). split; [done|]. intros ts. split; [|done]. cbn [fd_count_beyond_limit].
      rewrite beyond_insert, bool_decide_true by done. rewrite Hc. do 2 f_equal. apply is_monitoring_dom in E.
      apply set_eq. intros k. unfold beyond. set_solver.
    + exists (fd_count_beyond_limit tb + 1). split; [unfold u32_inc; destruct (Z.ltb_spec (fd_count_beyond_limit tb + 1) (2 ^ 32)); [done|lia]|].
      intros ts. split; [|done]. cbn [fd_count_beyond_limit]. rewrite beyond_insert, bool_decide_true by done.
      rewrite size_union, size_singleton, Hc; [lia|]. unfold beyond.
      assert (fd ∉ dom (fds tb)); [|set_solver]. rewrite <- is_monitoring_dom, E. done.
  - exists (fd_count_beyond_limit tb). split; [done|]. intros ts. split; [|done]. cbn [fd_count_beyond_limit].
    rewrite beyond_insert, bool_decide_false by lia. done.
Qed.

Lemma delete_ok tb fd : table_ok tb ->
  exists n, (if (SYSCALLBUF_FDS_DISABLED_SIZE <=? fd) && is_monitoring tb fd then u32_dec (fd_count_beyond_limit tb)
             else Ok (fd_count_beyond_limit tb)) = Ok n /\
    forall ts, table_ok (mkFdTable ts (delete fd (fds tb)) n).
Proof.
  intros [Hc Hk].
  assert (forall k, k ∈ dom (delete fd (fds tb)) -> 0 <= k < 2 ^ 31) as Hk'.
  { intros k. rewrite dom_delete_L. intros [? _]%elem_of_difference. auto. }
  assert ((SYSCALLBUF_FDS_DISABLED_SIZE <=? fd) && is_monitoring tb fd = true <-> fd ∈ beyond tb) as Hin.
  { unfold beyond. rewrite andb_true_iff, is_monitoring_dom, Z.leb_le, elem_of_filter. done. }
  destruct ((SYSCALLBUF_FDS_DISABLED_SIZE <=? fd) && is_monitoring tb fd) eqn:E.
  - assert (size (beyond tb) = S (size (beyond tb ∖ {[fd]}))) as Hs.
    { rewrite size_difference by set_solver. rewrite size_singleton. assert (size (beyond tb) <> 0%nat); [|lia].
      intros E0%size_empty_inv. set_solver. }
    exists (fd_count_beyond_limit tb - 1). split; [unfold u32_dec; destruct (Z.leb_spec 1 (fd_count_beyond_limit tb)); [done|lia]|].
    intros ts. split; [|done]. cbn [fd_count_beyond_limit]. rewrite beyond_delete. lia.
  - exists (fd_count_beyond_limit tb). split; [done|]. intros ts. split; [|done]. cbn [fd_count_beyond_limit].
    rewrite beyond_delete. rewrite Hc. do 2 f_equal. apply set_eq. intros k.
    assert (fd ∉ beyond tb) by (rewrite <- Hin; done). set_solver.
Qed.

(** ** One update of the flags *)

Section Update.
Context `{HashOrder}.

Lemma elem_of_hash_order p s : p ∈ hash_order s <-> p ∈ s.
Proof. rewrite hash_order_perm. apply elem_of_elements. Qed.

Lemma any_monitored_spec w ps fd : linked w -> tables_ok w -> 0 <= fd < SYSCALLBUF_FDS_DISABLED_SIZE ->
  (forall p, p ∈ ps -> is_Some (w_tasks w !! p)) ->
  exists b, any_monitored w ps fd = Ok b /\
    (b = true <-> exists p t tb fd', p ∈ ps /\ w_tasks w !! p = Some t /\ w_tables w !! fds_ t = Some tb /\ fd' ∈ dom (fds tb) /\ clamp fd' = fd).
Proof.
  intros Hl Ht Hfd. induction ps as [|p ps IH]; intros Hps; cbn [any_monitored].
  { exists false. split; [done|]. split; [done|]. intros (p & ? & ? & ? & Hp & _). set_solver. }
  destruct (Hps p) as [t Et]; [set_solver|]. destruct (task_table w Hl p t Et) as (tb & Etb & _).
  unfold task, table. rewrite Et. cbn [unwrap mbind res_bind]. rewrite Etb. cbn [unwrap mbind res_bind].
  assert (is_monitoring tb fd || ((SYSCALLBUF_FDS_DISABLED_SIZE - 1 <=? fd) && (0 <? count_beyond_limit tb)) = true <->
          exists fd', fd' ∈ dom (fds tb) /\ clamp fd' = fd) as Hm.
  { rewrite orb_true_iff, andb_true_iff, is_monitoring_dom, Z.leb_le, Z.ltb_lt. unfold count_beyond_limit.
    rewrite (count_pos tb (Ht _ _ Etb)). unfold clamp, SYSCALLBUF_FDS_DISABLED_SIZE in *. split.
    - intros [Hin|(Hb & fd' & Hin & Hge)].
      + exists fd. split; [done|]. destruct (Z.leb_spec 1024 fd); lia.
      + exists fd'. split; [done|]. destruct (Z.leb_spec 1024 fd'); lia.
    - intros (fd' & Hin & Hc). destruct (Z.leb_spec 1024 fd'); [right; split; [lia|by exists fd']|left; by subst]. }
  destruct (_ || _).
  - exists true. split; [done|]. split; [|done]. intros _. destruct Hm as [Hm _]. destruct (Hm eq_refl) as (fd' & Hin & Hc).
    exists p, t, tb, fd'. splits; try done. set_solver.
  - destruct IH as (b & -> & Hb); [intros; apply Hps; set_solver|]. exists b. split; [done|]. rewrite Hb. split.
    + intros (p' & t' & tb' & fd' & Hp & Hrest). exists p', t', tb', fd'. split; [set_solver|done].
    + intros (p' & t' & tb' & fd' & [->|Hp]%elem_of_cons & Et' & Etb' & Hin & Hc); [|by exists p', t', tb', fd'].
      simplify_eq. destruct Hm as [_ Hm]. discriminate Hm. by exists fd'.
Qed.

(** [is_fd_monitored_in_any_task] looks at every task of the address space. *)
Lemma monitored_spec w u v fd : linked w -> tables_ok w -> 0 <= fd < SYSCALLBUF_FDS_DISABLED_SIZE -> w_vms w !! u = Some v ->
  exists b, is_fd_monitored_in_any_task w u fd = Ok b /\ (b = true <-> monitored w u fd).
Proof.
  intros Hl Ht Hfd Ev. unfold is_fd_monitored_in_any_task, vm. rewrite Ev. cbn [unwrap mbind res_bind].
  destruct (any_monitored_spec w (hash_order (task_set v)) fd Hl Ht Hfd) as (b & Hb & Hiff).
  { intros p Hp%elem_of_hash_order. destruct (vm_task w Hl u v p Ev Hp) as (t & -> & _). eauto. }
  exists b. split; [done|]. rewrite Hiff. unfold monitored. split.
  - intros (p & t & tb & fd' & Hp%elem_of_hash_order & Et & Hrest). exists p, t, tb, fd'. split; [done|]. split; [|done].
    destruct (vm_task w Hl u v p Ev Hp) as (t' & Et' & Hu). by simplify_eq.
  - intros (p & t & tb & fd' & Et & Hu & Hrest). exists p, t, tb, fd'. split; [|done]. apply elem_of_hash_order.
    destruct (task_vm w Hl p t Et) as (v' & Ev' & Hp). by simplify_eq.
Qed.

(** Everything but memory and the trace. *)
Record same_tasks (w w' : World) : Prop := {
  same_recording : recording w' = recording w;
  same_w_tasks : w_tasks w' = w_tasks w;
  same_w_tables : w_tables w' = w_tables w;
  same_monitors : w_monitors w' = w_monitors w;
  same_task_map : task_map w' = task_map w;
  same_serial : next_serial w' = next_serial w }.

(** The flag with entry [c] of the address space [u] is written to what it should be. *)
Definition flag_written (w : World) (c : Z) (u : VmUid) (m m' : Memory) : Prop := exists p t b,
  w_tasks w !! p = Some t /\ as_ t = u /\ preload_globals t <> 0 /\
  m' = <[flag_addr (preload_globals t) c := if b : bool then 1 else 0]> m /\ (b = true <-> monitored w u c).

(** The address spaces still to be written. *)
Definition todo (w : World) (ps : list Z) (upd : gset VmUid) (u : VmUid) : Prop :=
  u ∉ upd /\ exists p t, p ∈ ps /\ w_tasks w !! p = Some t /\ as_ t = u /\ preload_globals t <> 0.

Definition written (w : World) (c : Z) (T : VmUid -> Prop) (w' : World) : Prop :=
  same_tasks w w' /\ forall u, option_Forall2 (fun v v' => task_set v' = task_set v /\
    (T u /\ flag_written w c u (vmem v) (vmem v') \/ ~ T u /\ vmem v' = vmem v)) (w_vms w !! u) (w_vms w' !! u).

Lemma written_none w c (T : VmUid -> Prop) : (forall u, ~ T u) -> written w c T w.
Proof. intros HT. split; [done|]. intros u. destruct (w_vms w !! u); constructor. split; [done|]. right. done. Qed.

Lemma written_ext w c (T T' : VmUid -> Prop) w' : (forall u, T u <-> T' u) -> written w c T w' -> written w c T' w'.
Proof.
  intros HT [Hs Hw]. split; [done|]. intros u. specialize (Hw u). destruct Hw as [v v' [Hts Hcase]|]; constructor.
  split; [done|]. by rewrite <- HT.
Qed.

Lemma monitored_same w w' u c : same_tasks w w' -> monitored w' u c <-> monitored w u c.
Proof. intros Hs. unfold monitored. by rewrite (same_w_tasks _ _ Hs), (same_w_tables _ _ Hs). Qed.

(** Writing one address space first and the others after. *)
Lemma written_cons w w1 w' c (T T1 : VmUid -> Prop) u :
  T u -> ~ T1 u -> (forall u', u' <> u -> (T1 u' <-> T u')) ->
  written w c (eq u) w1 -> written w1 c T1 w' -> written w c T w'.
Proof.
  intros HT HT1 Hext [Hs1 Hw1] [Hs2 Hw2]. split.
  { destruct Hs1, Hs2. split; congruence. }
  intros u'. specialize (Hw1 u'). specialize (Hw2 u'). destruct Hw1 as [v v1 [Hts1 Hc1]|]; inversion Hw2 as [? v' [Hts2 Hc2]|]; subst; constructor.
  split; [congruence|].
  destruct Hc1 as [[<- Hf]|[Hne Heq]]; destruct Hc2 as [[HT2 Hf2]|[HT2 Heq2]].
  - done.
  - left. split; [done|]. by rewrite Heq2.
  - left. split; [by apply Hext; [congruence|]|]. destruct Hf2 as (p & t & b & Ht & Hu & Hg & Hm & Hb).
    rewrite (same_w_tasks _ _ Hs1) in Ht. exists p, t, b. rewrite Heq in Hm. rewrite <- (monitored_same w w1) by done. done.
  - right. split; [|by rewrite Heq2]. intros HT3. apply HT2. apply Hext; [congruence|done].
Qed.

Lemma linked_same w w' : same_tasks w w' ->
  (forall u, option_Forall2 (fun v v' => task_set v' = task_set v) (w_vms w !! u) (w_vms w' !! u)) -> linked w -> linked w'.
Proof.
  intros Hs Hv [H1 H2 H3 H4]. split; rewrite ?(same_w_tasks _ _ Hs), ?(same_w_tables _ _ Hs); [done|done| |].
  - intros p t Ht. destruct (H3 p t Ht) as (v & Ev & Hp). specialize (Hv (as_ t)). rewrite Ev in Hv. inversion Hv; subst. eexists. split; [done|]. congruence.
  - intros u v' p Ev Hp. specialize (Hv u). rewrite Ev in Hv. inversion Hv as [v ? Heq Ev'|]; subst. apply (H4 u v p); congruence.
Qed.

Lemma written_keeps w c T w' : written w c T w' -> linked w -> tables_ok w -> uniform w -> arrays_ok w ->
  linked w' /\ tables_ok w' /\ uniform w' /\ arrays_ok w'.
Proof.
  intros [Hs Hw] Hl Ht Hu Ha. splits.
  - apply (linked_same w); [done| |done]. intros u. specialize (Hw u). destruct Hw as [? ? [? _]|]; by constructor.
  - unfold tables_ok. by rewrite (same_w_tables _ _ Hs).
  - unfold uniform. by rewrite (same_w_tasks _ _ Hs).
  - intros p t v' Et Hg Ev. rewrite (same_w_tasks _ _ Hs) in Et. specialize (Hw (as_ t)). rewrite Ev in Hw.
    inversion Hw as [v ? [_ Hc] Ev'|]; subst. symmetry in Ev'. specialize (Ha p t v Et Hg Ev').
    eapply flags_mapped_dom; [|done]. intros a Hsome. destruct Hc as [[_ (? & ? & b & _ & _ & _ & -> & _)]|[_ ->]]; [|done].
    destruct (decide (a = flag_addr (preload_globals x0) c)) as [->|Hne]; [rewrite lookup_insert_eq; eauto|by rewrite lookup_insert_ne by done].
Qed.

Lemma write_mem_byte a b (m : Memory) : is_Some (m !! a) -> write_mem a [b] m = Ok (<[a:=b]> m).
Proof. intros [v E]. unfold write_mem. cbn. rewrite E. done. Qed.

(** The flag of one address space. *)
Lemma write_flag w p t v c b : w_tasks w !! p = Some t -> w_vms w !! as_ t = Some v -> preload_globals t <> 0 ->
  flags_mapped (preload_globals t) (vmem v) -> 0 <= c < SYSCALLBUF_FDS_DISABLED_SIZE -> (b = true <-> monitored w (as_ t) c) ->
  let addr := flag_addr (preload_globals t) c in let d := if b : bool then 1 else 0 in
  exists w1, write_bytes t addr [d] w = Ok w1 /\ written w c (eq (as_ t)) (record_local t addr [d] w1).
Proof.
  intros Et Ev Hg Hm Hc Hb addr d. unfold write_bytes, vm. rewrite Ev. cbn [unwrap mbind res_bind].
  rewrite write_mem_byte.
  2:{ unfold addr. rewrite (flag_addr_eq _ _ _ Hm Hc). apply (proj2 (proj2 Hm)). lia. }
  cbn [mbind res_bind]. eexists. split; [done|]. unfold record_local. split.
  { destruct (addr =? 0); done. }
  intros u. match goal with |- option_Forall2 _ _ (w_vms ?x !! _) =>
    replace (w_vms x) with (<[as_ t:=mkVm (task_set v) (<[addr:=d]> (vmem v))]> (w_vms w)) by (destruct (addr =? 0); done) end.
  destruct (decide (u = as_ t)) as [->|Hne].
  - rewrite Ev, lookup_insert_eq. constructor. split; [done|]. left. split; [done|]. by exists p, t, b.
  - rewrite lookup_insert_ne by done. destruct (w_vms w !! u); constructor. split; [done|]. right. split; [congruence|done].
Qed.

(** A task whose address space needs no write changes nothing. *)
Lemma todo_cons w p t ps upd u : w_tasks w !! p = Some t -> as_ t ∈ upd \/ preload_globals t = 0 ->
  todo w (p :: ps) upd u <-> todo w ps upd u.
Proof.
  intros Et Hd. unfold todo. split; intros [Hu (p' & t' & Hp & Et' & Hrest)]; (split; [done|]; exists p', t').
  - apply elem_of_cons in Hp as [->|Hp]; [|done]. simplify_eq. destruct Hd, Hrest as [<- ?]; done.
  - split; [set_solver|done].
Qed.

(** The loop over the tasks of a table writes the flag once in each of their address
    spaces. *)
Lemma process_tasks_spec ps : forall w upd fd,
  recording w = true -> linked w -> tables_ok w -> uniform w -> arrays_ok w -> 0 <= fd ->
  (forall p, p ∈ ps -> is_Some (w_tasks w !! p)) ->
  exists w', process_tasks ps upd fd w = Ok w' /\ written w (clamp fd) (todo w ps upd) w'.
Proof.
  induction ps as [|p ps IH]; intros w upd fd Hr Hl Ht Hu Ha Hfd Hps; cbn [process_tasks].
  { exists w. split; [done|]. apply written_none. intros u [_ (p & ? & Hp & _)]. set_solver. }
  destruct (Hps p) as [t Et]; [set_solver|]. assert (forall p, p ∈ ps -> is_Some (w_tasks w !! p)) as Hps' by (intros; apply Hps; set_solver).
  unfold task. rewrite Et, Hr. cbn [unwrap mbind res_bind negb].
  case_bool_decide as Hin.
  { destruct (IH w upd fd) as (w' & -> & Hw); try done. exists w'. split; [done|]. revert Hw. apply written_ext. intros u.
    by rewrite (todo_cons w p t) by auto. }
  destruct (Z.eqb_spec (preload_globals t) 0) as [Hg|Hg].
  { destruct (IH w ({[as_ t]} ∪ upd) fd) as (w' & -> & Hw); try done. exists w'. split; [done|]. revert Hw. apply written_ext. intros u.
    rewrite (todo_cons w p t) by auto. split; intros [Hu' (p' & t' & Hp' & Et' & Hrest & Hg')]; (split; [|by exists p', t']).
    - set_solver.
    - assert (u <> as_ t); [|set_solver]. intros ->. apply Hg'. rewrite (Hu p' p t' t); done. }
  fold (clamp fd). destruct (task_vm w Hl p t Et) as (v & Ev & Hp). pose proof (clamp_range fd Hfd) as Hc.
  destruct (monitored_spec w (as_ t) v (clamp fd) Hl Ht Hc Ev) as (b & -> & Hb). cbn [mbind res_bind].
  destruct (write_flag w p t v (clamp fd) b Et Ev Hg (Ha p t v Et Hg Ev) Hc Hb) as (w1 & -> & Hw1). cbn [mbind res_bind].
  destruct (written_keeps _ _ _ _ Hw1 Hl Ht Hu Ha) as (Hl1 & Ht1 & Hu1 & Ha1). pose proof Hw1 as [Hs1 _].
  edestruct (IH (record_local t (flag_addr (preload_globals t) (clamp fd)) [if b then 1 else 0] w1) ({[as_ t]} ∪ upd) (clamp fd))
    as (w' & -> & Hw); try done; [by rewrite (same_recording _ _ Hs1)|lia|intros; rewrite (same_w_tasks _ _ Hs1); auto|].
  rewrite clamp_clamp in Hw. exists w'. split; [done|].
  eapply (written_cons w _ w' (clamp fd) _ _ (as_ t)); [| | |exact Hw1|exact Hw].
  - split; [done|]. exists p, t. splits; try done. set_solver.
  - intros [Hn _]. set_solver.
  - intros u' Hne. unfold todo. rewrite (same_w_tasks _ _ Hs1). split.
    + intros [Hn (p' & t' & Hp' & Hrest)]. split; [set_solver|]. exists p', t'. split; [set_solver|done].
    + intros [Hn (p' & t' & [->|Hp']%elem_of_cons & Et' & Hu' & Hg')]; [exfalso; apply Hne; congruence|].
      split; [set_solver|]. by exists p', t'.
Qed.

Lemma flag_addr_inj g m c c' : flags_mapped g m -> 0 <= c < SYSCALLBUF_FDS_DISABLED_SIZE -> 0 <= c' < SYSCALLBUF_FDS_DISABLED_SIZE ->
  flag_addr g c = flag_addr g c' -> c = c'.
Proof. intros Hm Hc Hc'. rewrite (flag_addr_eq g m c), (flag_addr_eq g m c') by done. lia. Qed.

Lemma ids_same w w' c T : written w c T w' -> ids_ok w -> ids_ok w'.
Proof.
  intros [Hs Hw] [H1 H2 H3 H4].
  assert (forall u v', w_vms w' !! u = Some v' -> exists v, w_vms w !! u = Some v) as Hv.
  { intros u v' E. specialize (Hw u). rewrite E in Hw. inversion Hw; subst. eauto. }
  split; rewrite ?(same_w_tasks _ _ Hs), ?(same_serial _ _ Hs); [done|done| |].
  - intros u v' [v E]%Hv. eauto.
  - intros u v' p t [v E]%Hv. eauto.
Qed.

(** After an update the flags are right again: only the flag of one entry of one table was
    in doubt. *)
Lemma update_restores w q tb fd :
  recording w = true -> linked w -> tables_ok w -> uniform w -> arrays_ok w -> ids_ok w ->
  w_tables w !! q = Some tb -> tasks tb <> ∅ -> 0 <= fd ->
  flags_but (fun t fd' => fds_ t = q /\ clamp fd' = clamp fd) w ->
  exists w', update_syscallbuf_fds_disabled q fd w = Ok w' /\ inv w' /\ written w (clamp fd) (todo w (hash_order (tasks tb)) ∅) w'.
Proof.
  intros Hr Hl Ht Hu Ha Hi Eq Hne Hfd Hf. unfold update_syscallbuf_fds_disabled, table. rewrite Eq. cbn [unwrap mbind res_bind].
  destruct (Z.leb_spec 0 fd); [|lia]. cbn [assert_ mbind res_bind]. rewrite bool_decide_true by done. cbn [assert_ mbind res_bind].
  destruct (process_tasks_spec (hash_order (tasks tb)) w ∅ fd Hr Hl Ht Hu Ha Hfd) as (w' & -> & Hw).
  { intros p Hp%elem_of_hash_order. destruct (table_task w Hl q tb p Eq Hp) as (t & -> & _). eauto. }
  exists w'. split; [done|]. split; [|done]. destruct (written_keeps _ _ _ _ Hw Hl Ht Hu Ha) as (Hl' & Ht' & Hu' & Ha').
  pose proof (ids_same _ _ _ _ Hw Hi) as Hi'. pose proof Hw as [Hs Hv]. split; try done; [by rewrite (same_recording _ _ Hs)|].
  intros p t tb' v' fd' Et Hg Etb Ev Hin. right. rewrite (same_w_tasks _ _ Hs) in Et. rewrite (same_w_tables _ _ Hs) in Etb.
  specialize (Hv (as_ t)). rewrite Ev in Hv. inversion Hv as [v ? [Hts Hc] Ev'|]; subst. symmetry in Ev'.
  pose proof (Ha p t v Et Hg Ev') as Hm. pose proof (clamp_range fd' (proj1 (keys_ok _ (Ht _ _ Etb) _ Hin))) as Hc'.
  pose proof (clamp_range fd Hfd) as Hc0.
  destruct Hc as [[_ (p1 & t1 & b & Et1 & Hu1 & Hg1 & -> & Hb)]|[Hnt ->]].
  - rewrite (Hu p1 p t1 t) by done. destruct (decide (clamp fd' = clamp fd)) as [E|E].
    + rewrite E, lookup_insert_eq. rewrite (proj2 Hb); [done|]. by exists p, t, tb', fd'.
    + rewrite lookup_insert_ne; [|intros E'; apply E; symmetry; revert E'; by apply (flag_addr_inj _ (vmem v))].
      destruct (Hf p t tb' v fd') as [[_ ?]|?]; done.
  - destruct (Hf p t tb' v fd') as [[Hq _]|?]; try done. exfalso. apply Hnt. split; [set_solver|]. exists p, t. splits; try done.
    apply elem_of_hash_order. destruct (task_table w Hl p t Et) as (tb2 & E2 & Hp). rewrite Hq in E2. by simplify_eq.
Qed.

(** A change of one descriptor of a table, and the update that follows. *)
Lemma change_ok w w0 q tb tb' fd : inv w -> w_tables w !! q = Some tb -> tasks tb <> ∅ -> 0 <= fd ->
  recording w0 = recording w -> w_tasks w0 = w_tasks w -> w_tables w0 = <[q:=tb']> (w_tables w) -> w_vms w0 = w_vms w -> next_serial w0 = next_serial w ->
  tasks tb' = tasks tb -> table_ok tb' -> (forall fd', fd' ∈ dom (fds tb') -> fd' = fd \/ fd' ∈ dom (fds tb)) ->
  exists w', update_syscallbuf_fds_disabled q fd w0 = Ok w' /\ inv w' /\ written w0 (clamp fd) (todo w0 (hash_order (tasks tb')) ∅) w'.
Proof.
  intros [Hr Hl Ht Hu Ha Hf Hi] Eq Hne Hfd E1 E2 E3 E4 E5 Hts Hok Hdom. apply update_restores; rewrite ?E1, ?E2, ?E3, ?E4; try done.
  - destruct Hl as [H1 H2 H3 H4]. split; rewrite ?E2, ?E3, ?E4; try done.
    + intros p t Et. destruct (H1 p t Et) as (tb0 & E & Hp). destruct (decide (fds_ t = q)) as [<-|Hq].
      * rewrite lookup_insert_eq. exists tb'. split; [done|]. rewrite Hts. congruence.
      * rewrite lookup_insert_ne by done. eauto.
    + intros q0 tb0 p E Hp. destruct (decide (q = q0)) as [<-|Hq].
      * rewrite lookup_insert_eq in E. simplify_eq. rewrite Hts in Hp. eauto.
      * rewrite lookup_insert_ne in E by done. eauto.
  - unfold tables_ok. rewrite E3. by apply map_Forall_insert_2.
  - unfold uniform. by rewrite E2.
  - unfold arrays_ok. by rewrite E2, E4.
  - destruct Hi as [I1 I2 I3 I4]. split; rewrite ?E2, ?E4, ?E5; done.
  - apply lookup_insert_eq.
  - by rewrite Hts.
  - intros p t tb0 v fd' Et Hg Etb Ev Hin. rewrite E2 in Et. rewrite E3 in Etb. rewrite E4 in Ev.
    destruct (decide (q = fds_ t)) as [->|Hq].
    + rewrite lookup_insert_eq in Etb. simplify_eq. destruct (Hdom fd' Hin) as [->|Hin']; [by left|]. right.
      destruct (Hf p t tb v fd') as [[]|?]; done.
    + rewrite lookup_insert_ne in Etb by done. right. destruct (Hf p t tb0 v fd') as [[]|?]; done.
Qed.

End Update.

End FdProofs.
