(* ===== verification/FdTableInv.v ===== *)
(** Every operation on tables, tasks and address spaces keeps the flags of monitored
    descriptors right, and none of them stops. *)

From S2P Require Import Prelude TraceeMemory FdTable FdTableProofs.

Module FdInv.
Import TMem FdTable FdProofs.

(** Reduce the fields of an updated session and the operations on fields. *)
Ltac wsimpl := cbn [unwrap mbind res_bind assert_ negb task table vm set_task set_table set_task_map set_vms set_tables set_tasks set_next_serial
  create create_vm insert_task recording w_tasks w_tables w_vms w_monitors task_map next_serial].

(** The invariant looks at these parts of a session only. *)
Lemma inv_fields w w' : recording w' = recording w -> w_tasks w' = w_tasks w -> w_tables w' = w_tables w -> w_vms w' = w_vms w ->
  next_serial w' = next_serial w -> inv w -> inv w'.
Proof.
  intros E1 E2 E3 E4 E5 [Hr [L1 L2 L3 L4] Ht Hu Ha Hf [I1 I2 I3 I4]].
  split; unfold tables_ok, uniform, arrays_ok, flags_but; rewrite ?E1, ?E2, ?E3, ?E4; try done.
  - split; rewrite ?E2, ?E3, ?E4; done.
  - split; rewrite ?E2, ?E4, ?E5; done.
Qed.

(** ** Operations on one table *)

(** The tasks and the sets they are in stay as they are. *)
Record framed (w w' : World) : Prop := {
  fr_tasks : w_tasks w' = w_tasks w;
  fr_tables q : tasks <$> w_tables w' !! q = tasks <$> w_tables w !! q;
  fr_vms u : task_set <$> w_vms w' !! u = task_set <$> w_vms w !! u;
  fr_serial : next_serial w' = next_serial w }.

Lemma framed_refl w : framed w w.
Proof. done. Qed.

Lemma framed_trans w1 w2 w3 : framed w1 w2 -> framed w2 w3 -> framed w1 w3.
Proof. intros [A1 A2 A3 A4] [B1 B2 B3 B4]. split; intros; congruence. Qed.

(** A table with a task. *)
Definition used (w : World) (q : Z) : Prop := exists tb, w_tables w !! q = Some tb /\ tasks tb <> ∅.

Lemma used_framed w w' q : framed w w' -> used w q -> used w' q.
Proof.
  intros Hf (tb & E & Hne). pose proof (fr_tables _ _ Hf q) as Hq. rewrite E in Hq. cbn in Hq.
  destruct (w_tables w' !! q) as [tb'|] eqn:E'; [|done]. injection Hq as Hq. exists tb'. by rewrite Hq.
Qed.

Lemma task_used w p t : inv w -> w_tasks w !! p = Some t -> used w (fds_ t).
Proof.
  intros Hi Et. destruct (task_table w (inv_linked w Hi) p t Et) as (tb & E & Hp). exists tb. split; [done|]. set_solver.
Qed.

Section Ops.
Context `{HashOrder}.

Lemma change_framed w w0 q tb tb' c T w' : written w0 c T w' -> w_tables w !! q = Some tb -> tasks tb' = tasks tb ->
  w_tasks w0 = w_tasks w -> w_tables w0 = <[q:=tb']> (w_tables w) -> w_vms w0 = w_vms w -> next_serial w0 = next_serial w -> framed w w'.
Proof.
  intros [Hs Hv] Eq Hts E2 E3 E4 E5. split.
  - by rewrite (same_w_tasks _ _ Hs).
  - intros q0. rewrite (same_w_tables _ _ Hs), E3. destruct (decide (q = q0)) as [<-|Hne].
    + rewrite lookup_insert_eq, Eq. cbn. by rewrite Hts.
    + by rewrite lookup_insert_ne.
  - intros u. specialize (Hv u). rewrite E4 in Hv. destruct Hv as [v v' [Hu _]|]; cbn; [by rewrite Hu|done].
  - by rewrite (same_serial _ _ Hs).
Qed.

(** [change_ok] and [change_framed] together, as the operations use them. *)
Lemma change w w0 q tb tb' fd : inv w -> w_tables w !! q = Some tb -> tasks tb <> ∅ -> 0 <= fd ->
  recording w0 = recording w -> w_tasks w0 = w_tasks w -> w_tables w0 = <[q:=tb']> (w_tables w) -> w_vms w0 = w_vms w -> next_serial w0 = next_serial w ->
  tasks tb' = tasks tb -> table_ok tb' -> (forall fd', fd' ∈ dom (fds tb') -> fd' = fd \/ fd' ∈ dom (fds tb)) ->
  exists w', update_syscallbuf_fds_disabled q fd w0 = Ok w' /\ inv w' /\ framed w w' /\
    written w0 (clamp fd) (todo w0 (hash_order (tasks tb')) ∅) w'.
Proof.
  intros Hi Eq Hne Hfd E1 E2 E3 E4 E5 Hts Hok Hdom. edestruct (change_ok w w0 q tb tb' fd) as (w' & Hup & Hi' & Hw); try done.
  exists w'. splits; try done. by eapply change_framed.
Qed.

Lemma add_monitor_ok w q tb fd mp mon : inv w -> w_tables w !! q = Some tb -> tasks tb <> ∅ -> fds tb !! fd = None -> 0 <= fd < 2 ^ 31 ->
  exists w', add_monitor q fd mp mon w = Ok w' /\ inv w' /\ framed w w' /\
    fds <$> w_tables w' !! q = Some (<[fd:=mp]> (fds tb)).
Proof.
  intros Hi Eq Hne Hn Hfd. destruct (insert_ok tb fd mp (inv_tables w Hi q tb Eq) Hfd) as (n & En & Hok).
  unfold add_monitor, table. rewrite Eq. cbn [unwrap mbind res_bind].
  assert (is_monitoring tb fd = false) as Em by (unfold is_monitoring; rewrite Hn; done).
  rewrite Em. cbn [negb assert_ mbind res_bind]. rewrite Em in En. cbn [negb] in En. rewrite En. cbn [mbind res_bind].
  edestruct (change w (set_table q (mkFdTable (tasks tb) (<[fd:=mp]> (fds tb)) n) (set_monitors (insert mp (set_weak_self mp mon)) w))
    q tb (mkFdTable (tasks tb) (<[fd:=mp]> (fds tb)) n) fd) as (w' & -> & Hi' & Hf & [Hs _]); try done; [lia| |].
  { cbn [fds]. intros fd'. rewrite dom_insert_L. set_solver. }
  exists w'. splits; try done. rewrite (same_w_tables _ _ Hs). cbn. by rewrite lookup_insert_eq.
Qed.

Lemma did_close_ok w q tb fd : inv w -> w_tables w !! q = Some tb -> tasks tb <> ∅ -> 0 <= fd ->
  exists w', did_close q fd w = Ok w' /\ inv w' /\ framed w w' /\ fds <$> w_tables w' !! q = Some (delete fd (fds tb)).
Proof.
  intros Hi Eq Hne Hfd. destruct (delete_ok tb fd (inv_tables w Hi q tb Eq)) as (n & En & Hok).
  unfold did_close, table. rewrite Eq. cbn [unwrap mbind res_bind]. rewrite En. cbn [mbind res_bind].
  edestruct (change w (set_table q (mkFdTable (tasks tb) (delete fd (fds tb)) n) w)
    q tb (mkFdTable (tasks tb) (delete fd (fds tb)) n) fd) as (w' & -> & Hi' & Hf & [Hs _]); try done.
  { cbn [fds]. intros fd'. rewrite dom_delete_L. set_solver. }
  exists w'. splits; try done. rewrite (same_w_tables _ _ Hs). cbn. by rewrite lookup_insert_eq.
Qed.

(** What [dup] leaves in a table: the monitor of [from], or none, for [to]. *)
Definition dup_fds (m : gmap Z Z) (from to : Z) : gmap Z Z := partial_alter (fun _ => m !! from) to m.

Lemma did_dup_ok w q tb from to : inv w -> w_tables w !! q = Some tb -> tasks tb <> ∅ -> 0 <= to < 2 ^ 31 ->
  exists w', did_dup q from to w = Ok w' /\ inv w' /\ framed w w' /\ fds <$> w_tables w' !! q = Some (dup_fds (fds tb) from to).
Proof.
  intros Hi Eq Hne Hto. unfold did_dup, table. rewrite Eq. cbn [unwrap mbind res_bind].
  destruct (fds tb !! from) as [val|] eqn:Ef.
  - destruct (insert_ok tb to val (inv_tables w Hi q tb Eq) Hto) as (n & -> & Hok). cbn [mbind res_bind].
    edestruct (change w (set_table q (mkFdTable (tasks tb) (<[to:=val]> (fds tb)) n) w)
      q tb (mkFdTable (tasks tb) (<[to:=val]> (fds tb)) n) to) as (w' & -> & Hi' & Hf & [Hs _]); try done; [lia| |].
    { cbn [fds]. intros fd'. rewrite dom_insert_L. set_solver. }
    exists w'. splits; try done. rewrite (same_w_tables _ _ Hs). cbn. rewrite lookup_insert_eq. unfold dup_fds. cbn. by rewrite Ef.
  - destruct (delete_ok tb to (inv_tables w Hi q tb Eq)) as (n & -> & Hok). cbn [mbind res_bind].
    edestruct (change w (set_table q (mkFdTable (tasks tb) (delete to (fds tb)) n) w)
      q tb (mkFdTable (tasks tb) (delete to (fds tb)) n) to) as (w' & -> & Hi' & Hf & [Hs _]); try done; [lia| |].
    { cbn [fds]. intros fd'. rewrite dom_delete_L. set_solver. }
    exists w'. splits; try done. rewrite (same_w_tables _ _ Hs). cbn. rewrite lookup_insert_eq. unfold dup_fds. cbn. by rewrite Ef.
Qed.

Lemma close_all_ok q l : forall w, inv w -> used w q -> Forall (fun fd => 0 <= fd) l ->
  exists w', close_all q l w = Ok w' /\ inv w' /\ framed w w'.
Proof.
  induction l as [|fd l IH]; intros w Hi Hu Hl; cbn [close_all]; [by exists w|]. inversion Hl as [|? ? Hfd Hl']; subst.
  destruct Hu as (tb & E & Hne). destruct (did_close_ok w q tb fd) as (w1 & -> & Hi1 & Hf1 & _); try done. cbn [mbind res_bind].
  destruct (IH w1) as (w2 & -> & Hi2 & Hf2); [done|eapply used_framed; [done|by exists tb]|done|].
  exists w2. splits; try done. by eapply framed_trans.
Qed.

End Ops.
(** ** Tasks that come and go *)

Definition old_tasks (w : World) (q : Z) : gset Z := default ∅ (tasks <$> w_tables w !! q).
Definition old_task_set (w : World) (u : VmUid) : gset Z := default ∅ (task_set <$> w_vms w !! u).

(** What a task [nt] at [p] must bring to join a session: a table and an address space it
    is in, flags for the descriptors it monitors, and a serial number of its own. *)
Record joins (w w' : World) (p : Z) (nt : Task) (tb0 : FdTable) (v0 : Vm) : Prop := {
  j_fresh : w_tasks w !! p = None;
  j_recording : recording w' = recording w;
  j_tasks : w_tasks w' = <[p:=nt]> (w_tasks w);
  j_tables : w_tables w' = <[fds_ nt:=tb0]> (w_tables w);
  j_vms : w_vms w' = <[as_ nt:=v0]> (w_vms w);
  j_next : next_serial w <= next_serial w';
  j_table_ok : table_ok tb0;
  j_table_tasks : tasks tb0 = {[p]} ∪ old_tasks w (fds_ nt);
  j_table_fds o : w_tables w !! fds_ nt = Some o -> fds tb0 = fds o;
  j_vm_tasks : task_set v0 = {[p]} ∪ old_task_set w (as_ nt);
  j_vm_mem o : w_vms w !! as_ nt = Some o -> vmem v0 = vmem o;
  j_uniform p' t' : w_tasks w !! p' = Some t' -> as_ t' = as_ nt -> preload_globals t' = preload_globals nt;
  j_mapped : preload_globals nt <> 0 -> flags_mapped (preload_globals nt) (vmem v0);
  j_flags fd : preload_globals nt <> 0 -> fd ∈ dom (fds tb0) -> vmem v0 !! flag_addr (preload_globals nt) (clamp fd) = Some 1;
  j_serial : serial nt < next_serial w';
  j_own p' t' : w_tasks w !! p' = Some t' -> serial t' <> serial nt;
  j_vm_serial : vm_serial (as_ nt) < next_serial w';
  j_old u v : w_vms w !! u = Some v -> vm_serial u = serial nt -> exec_count u <= exec_count (as_ nt);
  j_new p' t' : w_vms w !! as_ nt = None -> w_tasks w !! p' = Some t' -> vm_serial (as_ nt) <> serial t' }.

Lemma joins_linked w w' p nt tb0 v0 : joins w w' p nt tb0 v0 -> linked w -> linked w'.
Proof.
  intros J [H1 H2 H3 H4]. split; rewrite ?(j_tasks _ _ _ _ _ _ J), ?(j_tables _ _ _ _ _ _ J), ?(j_vms _ _ _ _ _ _ J).
  - intros p' t. rewrite lookup_insert_Some. intros [[<- <-]|[Hp Et]].
    + rewrite lookup_insert_eq. exists tb0. split; [done|]. rewrite (j_table_tasks _ _ _ _ _ _ J). set_solver.
    + destruct (H1 p' t Et) as (tb & E & Hin). destruct (decide (fds_ nt = fds_ t)) as [Eq|Hq].
      * rewrite Eq, lookup_insert_eq. exists tb0. split; [done|]. rewrite (j_table_tasks _ _ _ _ _ _ J). unfold old_tasks. rewrite Eq, E. set_solver.
      * rewrite lookup_insert_ne by done. eauto.
  - intros q tb p'. rewrite lookup_insert_Some. intros [[<- <-]|[Hq E]] Hin.
    + rewrite (j_table_tasks _ _ _ _ _ _ J) in Hin. apply elem_of_union in Hin as [->%elem_of_singleton|Hin]; [rewrite lookup_insert_eq; eauto|].
      unfold old_tasks in Hin. destruct (w_tables w !! fds_ nt) as [o|] eqn:E; [|set_solver]. destruct (H2 _ o p' E Hin) as (t & Et & Hf).
      exists t. split; [|done]. rewrite lookup_insert_ne; [done|]. intros ->. by rewrite (j_fresh _ _ _ _ _ _ J) in Et.
    + destruct (H2 q tb p' E Hin) as (t & Et & Hf). exists t. split; [|done]. rewrite lookup_insert_ne; [done|]. intros ->. by rewrite (j_fresh _ _ _ _ _ _ J) in Et.
  - intros p' t. rewrite lookup_insert_Some. intros [[<- <-]|[Hp Et]].
    + rewrite lookup_insert_eq. exists v0. split; [done|]. rewrite (j_vm_tasks _ _ _ _ _ _ J). set_solver.
    + destruct (H3 p' t Et) as (v & E & Hin). destruct (decide (as_ nt = as_ t)) as [Eq|Hq].
      * rewrite Eq, lookup_insert_eq. exists v0. split; [done|]. rewrite (j_vm_tasks _ _ _ _ _ _ J). unfold old_task_set. rewrite Eq, E. set_solver.
      * rewrite lookup_insert_ne by done. eauto.
  - intros u v p'. rewrite lookup_insert_Some. intros [[<- <-]|[Hq E]] Hin.
    + rewrite (j_vm_tasks _ _ _ _ _ _ J) in Hin. apply elem_of_union in Hin as [->%elem_of_singleton|Hin]; [rewrite lookup_insert_eq; eauto|].
      unfold old_task_set in Hin. destruct (w_vms w !! as_ nt) as [o|] eqn:E; [|set_solver]. destruct (H4 _ o p' E Hin) as (t & Et & Hf).
      exists t. split; [|done]. rewrite lookup_insert_ne; [done|]. intros ->. by rewrite (j_fresh _ _ _ _ _ _ J) in Et.
    + destruct (H4 u v p' E Hin) as (t & Et & Hf). exists t. split; [|done]. rewrite lookup_insert_ne; [done|]. intros ->. by rewrite (j_fresh _ _ _ _ _ _ J) in Et.
Qed.

Lemma joins_ids w w' p nt tb0 v0 : joins w w' p nt tb0 v0 -> ids_ok w -> ids_ok w'.
Proof.
  intros J [I1 I2 I3 I4]. pose proof (j_next _ _ _ _ _ _ J) as Hn. split; rewrite ?(j_tasks _ _ _ _ _ _ J), ?(j_vms _ _ _ _ _ _ J).
  - intros p' t. rewrite lookup_insert_Some. intros [[_ <-]|[_ Et]]; [by apply (j_serial _ _ _ _ _ _ J)|]. specialize (I1 _ _ Et). lia.
  - intros p1 p2 t1 t2. rewrite !lookup_insert_Some. intros [[<- <-]|[_ E1]] [[<- <-]|[_ E2]] Hs; try done.
    + exfalso. by apply (j_own _ _ _ _ _ _ J _ _ E2).
    + exfalso. by apply (j_own _ _ _ _ _ _ J _ _ E1).
    + eauto.
  - intros u v. rewrite lookup_insert_Some. intros [[<- _]|[_ E]]; [by apply (j_vm_serial _ _ _ _ _ _ J)|]. specialize (I3 _ _ E). lia.
  - intros u v p' t. rewrite !lookup_insert_Some. intros [[<- _]|[_ E]] [[_ <-]|[_ Et]] Hs; [lia| | |eauto].
    + destruct (w_vms w !! as_ nt) as [o|] eqn:Eo; [eauto|]. exfalso. by apply (j_new _ _ _ _ _ _ J p' t).
    + by apply (j_old _ _ _ _ _ _ J u v).
Qed.

Lemma join_inv w w' p nt tb0 v0 : joins w w' p nt tb0 v0 -> inv w -> inv w'.
Proof.
  intros J [Hr Hl Ht Hu Ha Hf Hi].
  assert (forall p' t v, w_tasks w !! p' = Some t -> w_vms w' !! as_ t = Some v -> exists o, w_vms w !! as_ t = Some o /\ vmem v = vmem o) as Hv.
  { intros p' t v Et. rewrite (j_vms _ _ _ _ _ _ J), lookup_insert_Some. destruct (task_vm w Hl p' t Et) as (o & Eo & _).
    intros [[Eu <-]|[_ E]]; [|by exists v]. exists o. split; [done|]. apply (j_vm_mem _ _ _ _ _ _ J). by rewrite Eu. }
  split.
  - by rewrite (j_recording _ _ _ _ _ _ J).
  - by eapply joins_linked.
  - unfold tables_ok. rewrite (j_tables _ _ _ _ _ _ J). apply map_Forall_insert_2; [apply (j_table_ok _ _ _ _ _ _ J)|done].
  - intros p1 p2 t1 t2. rewrite (j_tasks _ _ _ _ _ _ J), !lookup_insert_Some. intros [[<- <-]|[_ E1]] [[<- <-]|[_ E2]] Hs; try done.
    + symmetry. by eapply (j_uniform _ _ _ _ _ _ J).
    + by eapply (j_uniform _ _ _ _ _ _ J).
    + by eapply (Hu p1 p2).
  - intros p' t v Et Hg Ev. rewrite (j_tasks _ _ _ _ _ _ J), lookup_insert_Some in Et. destruct Et as [[<- <-]|[_ Et]].
    + rewrite (j_vms _ _ _ _ _ _ J), lookup_insert_eq in Ev. injection Ev as <-. by apply (j_mapped _ _ _ _ _ _ J).
    + destruct (Hv p' t v Et Ev) as (o & Eo & ->). by apply (Ha p').
  - intros p' t tb v fd Et Hg Etb Ev Hin. right. rewrite (j_tasks _ _ _ _ _ _ J), lookup_insert_Some in Et.
    rewrite (j_tables _ _ _ _ _ _ J), lookup_insert_Some in Etb. destruct Et as [[<- <-]|[_ Et]].
    + rewrite (j_vms _ _ _ _ _ _ J), lookup_insert_eq in Ev. injection Ev as <-. apply (j_flags _ _ _ _ _ _ J fd Hg).
      destruct Etb as [[_ ->]|[? _]]; done.
    + destruct (Hv p' t v Et Ev) as (o & Eo & ->). destruct (task_table w Hl p' t Et) as (tbo & Etbo & _).
      assert (fd ∈ dom (fds tbo)) as Hin'. { destruct Etb as [[Eq ->]|[_ E]]; [|by simplify_eq]. rewrite <- (j_table_fds _ _ _ _ _ _ J tbo); [done|by rewrite Eq]. }
      destruct (Hf p' t tbo o fd) as [[]|?]; done.
  - by eapply joins_ids.
Qed.

(** A table and an address space without the task [p]. *)
Definition table_without (p : Z) (tb : FdTable) : FdTable := mkFdTable (erase_task p (tasks tb)) (fds tb) (fd_count_beyond_limit tb).
Definition vm_without (p : Z) (v : Vm) : Vm := mkVm (erase_task p (task_set v)) (vmem v).

Record leaves (w w' : World) (p : Z) (t : Task) (tb : FdTable) (v : Vm) : Prop := {
  l_task : w_tasks w !! p = Some t;
  l_table : w_tables w !! fds_ t = Some tb;
  l_vm : w_vms w !! as_ t = Some v;
  l_recording : recording w' = recording w;
  l_tasks : w_tasks w' = delete p (w_tasks w);
  l_tables : w_tables w' = <[fds_ t:=table_without p tb]> (w_tables w);
  l_vms : w_vms w' = <[as_ t:=vm_without p v]> (w_vms w);
  l_next : next_serial w' = next_serial w }.

Lemma leaves_linked w w' p t tb v : leaves w w' p t tb v -> linked w -> linked w'.
Proof.
  intros [Et Etb Ev _ E2 E3 E4 _] [H1 H2 H3 H4]. split; rewrite ?E2, ?E3, ?E4.
  - intros p' t'. rewrite lookup_delete_Some. intros [Hp Et']. destruct (H1 p' t' Et') as (tb' & E & Hin).
    destruct (decide (fds_ t = fds_ t')) as [Eq|Hq].
    + rewrite Eq, lookup_insert_eq. eexists. split; [done|]. rewrite Eq in Etb. simplify_eq. cbn. unfold erase_task. set_solver.
    + rewrite lookup_insert_ne by done. eauto.
  - intros q tb' p'. rewrite lookup_insert_Some. intros [[<- <-]|[Hq E]] Hin.
    + cbn in Hin. unfold erase_task in Hin. apply elem_of_difference in Hin as [Hin Hp]. destruct (H2 _ tb p' Etb Hin) as (t' & Et' & Hf).
      exists t'. split; [|done]. rewrite lookup_delete_ne; [done|]. set_solver.
    + destruct (H2 q tb' p' E Hin) as (t' & Et' & Hf). exists t'. split; [|done]. rewrite lookup_delete_ne; [done|]. intros ->. congruence.
  - intros p' t'. rewrite lookup_delete_Some. intros [Hp Et']. destruct (H3 p' t' Et') as (v' & E & Hin).
    destruct (decide (as_ t = as_ t')) as [Eq|Hq].
    + rewrite Eq, lookup_insert_eq. eexists. split; [done|]. rewrite Eq in Ev. simplify_eq. cbn. unfold erase_task. set_solver.
    + rewrite lookup_insert_ne by done. eauto.
  - intros u v' p'. rewrite lookup_insert_Some. intros [[<- <-]|[Hq E]] Hin.
    + cbn in Hin. unfold erase_task in Hin. apply elem_of_difference in Hin as [Hin Hp]. destruct (H4 _ v p' Ev Hin) as (t' & Et' & Hf).
      exists t'. split; [|done]. rewrite lookup_delete_ne; [done|]. set_solver.
    + destruct (H4 u v' p' E Hin) as (t' & Et' & Hf). exists t'. split; [|done]. rewrite lookup_delete_ne; [done|]. intros ->. congruence.
Qed.

Lemma leave_inv w w' p t tb v : leaves w w' p t tb v -> inv w -> inv w'.
Proof.
  intros L [Hr Hl Ht Hu Ha Hf Hi]. pose proof (leaves_linked _ _ _ _ _ _ L Hl) as Hl'. destruct L as [Et Etb Ev E1 E2 E3 E4 E5].
  assert (forall p' t', w_tasks w' !! p' = Some t' -> w_tasks w !! p' = Some t') as Hp'.
  { intros p' t'. rewrite E2, lookup_delete_Some. tauto. }
  assert (forall u v', w_vms w' !! u = Some v' -> exists o, w_vms w !! u = Some o /\ vmem v' = vmem o) as Hv'.
  { intros u v'. rewrite E4, lookup_insert_Some. intros [[<- <-]|[_ E]]; eauto. }
  assert (forall q tb', w_tables w' !! q = Some tb' -> exists o, w_tables w !! q = Some o /\ fds tb' = fds o) as Htb'.
  { intros q tb'. rewrite E3, lookup_insert_Some. intros [[<- <-]|[_ E]]; eauto. }
  split.
  - congruence.
  - done.
  - unfold tables_ok. rewrite E3. apply map_Forall_insert_2; [|done]. destruct (Ht _ _ Etb) as [Hc Hk]. by split.
  - intros p1 p2 t1 t2 ?%Hp' ?%Hp'. by eapply (Hu p1 p2).
  - intros p' t' v' ?%Hp' Hg (o & Eo & ->)%Hv'. by eapply (Ha p').
  - intros p' t' tb' v' fd ?%Hp' Hg (tbo & Etbo & ->)%Htb' (o & Eo & ->)%Hv' Hin. by eapply (Hf p' t' tbo).
  - destruct Hi as [I1 I2 I3 I4]. split; rewrite ?E5.
    + intros p' t' ?%Hp'. eauto.
    + intros p1 p2 t1 t2 ?%Hp' ?%Hp'. eauto.
    + intros u v' (o & Eo & _)%Hv'. eauto.
    + intros u v' p' t' (o & Eo & _)%Hv' ?%Hp'. eauto.
Qed.

(** The session without the task [p]. *)
Definition without (p : Z) (t : Task) (tb : FdTable) (v : Vm) (w : World) : World :=
  set_tasks (delete p) (set_table (fds_ t) (table_without p tb) (set_vms (insert (as_ t) (vm_without p v)) w)).

Lemma without_inv w p t : inv w -> w_tasks w !! p = Some t ->
  exists tb v, w_tables w !! fds_ t = Some tb /\ w_vms w !! as_ t = Some v /\ p ∈ tasks tb /\ p ∈ task_set v /\ inv (without p t tb v w).
Proof.
  intros Hi Et. destruct (task_table w (inv_linked w Hi) p t Et) as (tb & Etb & Hp). destruct (task_vm w (inv_linked w Hi) p t Et) as (v & Ev & Hp').
  exists tb, v. splits; try done. by apply (leave_inv w _ p t tb v).
Qed.

Lemma destroy_task_ok w p t : inv w -> w_tasks w !! p = Some t -> exists w', destroy p w = Ok w' /\ inv w'.
Proof.
  intros Hi Et. destruct (without_inv w p t Hi Et) as (tb & v & Etb & Ev & _ & _ & Hi'). unfold destroy, task, vm, table.
  rewrite Et. wsimpl. rewrite Ev. wsimpl. rewrite Etb. wsimpl. eexists. split; [done|]. by eapply inv_fields; [..|exact Hi'].
Qed.

Lemma re_insert (p : Z) (s : gset Z) : p ∈ s -> s = {[p]} ∪ erase_task p s.
Proof. intros Hp. unfold erase_task. apply set_eq. intros x. destruct (decide (x = p)); set_solver. Qed.

Lemma without_old_tasks w p t tb v : old_tasks (without p t tb v w) (fds_ t) = erase_task p (tasks tb).
Proof. unfold old_tasks, without. wsimpl. by rewrite lookup_insert_eq. Qed.

Lemma without_old_task_set w p t tb v : old_task_set (without p t tb v w) (as_ t) = erase_task p (task_set v).
Proof. unfold old_task_set, without. wsimpl. by rewrite lookup_insert_eq. Qed.

(** A task back in its table or its address space. *)
Lemma back {K A} `{Countable K} (m : gmap K A) k x y : m !! k = Some x -> m = <[k:=x]> (<[k:=y]> m).
Proof. intros E. by rewrite insert_insert_eq, insert_id. Qed.

Lemma unshare_files_ok w p t q' : inv w -> w_tasks w !! p = Some t -> w_tables w !! q' = None ->
  exists w', unshare_files p q' w = Ok w' /\ inv w'.
Proof.
  intros Hi Et Hq. destruct (without_inv w p t Hi Et) as (tb & v & Etb & Ev & Hp & Hp' & Hi').
  assert (fds_ t <> q') as Hne by congruence. unfold unshare_files, task, table, clone_into_task. rewrite Et. wsimpl. rewrite Etb. wsimpl.
  unfold table. wsimpl. rewrite lookup_insert_eq. wsimpl. eexists. split; [done|].
  match goal with |- context [set_task p ?nt _] => eapply (join_inv (without p t tb v w) _ p nt (mkFdTable (insert_task p ∅) (fds tb) (fd_count_beyond_limit tb)) v) end; [|done].
  destruct (inv_ids w Hi) as [I1 I2 I3 I4]. unfold without. split; wsimpl; cbn [fds_ as_ preload_globals serial tasks fds task_set vmem].
  - apply lookup_delete_eq.
  - done.
  - by rewrite insert_delete_eq.
  - done.
  - by apply back.
  - lia.
  - destruct (inv_tables w Hi _ _ Etb). by split.
  - unfold old_tasks. wsimpl. by rewrite lookup_insert_ne, Hq by done.
  - intros o. rewrite lookup_insert_ne, Hq by done. done.
  - fold (without p t tb v w). rewrite without_old_task_set. by apply re_insert.
  - intros o. rewrite lookup_insert_eq. by intros [= <-].
  - intros p' t'. rewrite lookup_delete_Some. intros [_ Et'] Ha. by eapply (inv_uniform w Hi).
  - intros Hg. by apply (inv_arrays w Hi p).
  - intros fd Hg Hin. destruct (inv_flags w Hi p t tb v fd) as [[]|?]; done.
  - eauto.
  - intros p' t'. rewrite lookup_delete_Some. intros [Hpp Et'] Hs. apply Hpp. by eapply I2.
  - eauto.
  - intros u v'. rewrite lookup_insert_Some. intros [[<- _]|[_ E]] Hs; [lia|eauto].
  - intros p' t'. by rewrite lookup_insert_eq.
Qed.

Lemma revive_ok w p t old_tid new_tid : inv w -> task_map w !! old_tid = Some p -> w_tasks w !! p = Some t -> next_serial w + 1 < 2 ^ 32 ->
  exists w', revive_task_for_exec old_tid new_tid w = Ok w' /\ inv w'.
Proof.
  intros Hi Em Et Hn. destruct (without_inv w p t Hi Et) as (tb & v & Etb & Ev & Hp & Hp' & Hi').
  unfold revive_task_for_exec, task, next_task_serial, u32_inc. rewrite Em. wsimpl. rewrite Et. wsimpl.
  rewrite (proj2 (Z.ltb_lt _ _) Hn). wsimpl. eexists. split; [done|].
  match goal with |- context [set_task p ?nt _] => eapply (join_inv (without p t tb v w) _ p nt tb v) end; [|done].
  destruct (inv_ids w Hi) as [I1 I2 I3 I4]. unfold without. split; wsimpl; cbn [fds_ as_ preload_globals serial].
  - apply lookup_delete_eq.
  - done.
  - by rewrite insert_delete_eq.
  - by apply back.
  - by apply back.
  - lia.
  - apply (inv_tables w Hi _ _ Etb).
  - fold (without p t tb v w). rewrite without_old_tasks. by apply re_insert.
  - intros o. rewrite lookup_insert_eq. by intros [= <-].
  - fold (without p t tb v w). rewrite without_old_task_set. by apply re_insert.
  - intros o. rewrite lookup_insert_eq. by intros [= <-].
  - intros p' t'. rewrite lookup_delete_Some. intros [_ Et'] Ha. by eapply (inv_uniform w Hi).
  - intros Hg. by apply (inv_arrays w Hi p).
  - intros fd Hg Hin. destruct (inv_flags w Hi p t tb v fd) as [[]|?]; done.
  - lia.
  - intros p' t'. rewrite lookup_delete_Some. intros [_ Et']. specialize (I1 _ _ Et'). lia.
  - specialize (I3 _ _ Ev). lia.
  - intros u v'. rewrite lookup_insert_Some. intros [[<- _]|[_ E]] Hs; [lia|]. specialize (I3 _ _ E). lia.
  - intros p' t'. by rewrite lookup_insert_eq.
Qed.

Lemma post_exec_ok w p t q' m : inv w -> w_tasks w !! p = Some t -> w_tables w !! q' = None -> exec_count (as_ t) + 1 < 2 ^ 32 ->
  exists w', post_exec p q' m w = Ok w' /\ inv w'.
Proof.
  intros Hi Et Hq Hn. destruct (without_inv w p t Hi Et) as (tb & v & Etb & Ev & Hp & Hp' & Hi').
  destruct (inv_ids w Hi) as [I1 I2 I3 I4].
  assert (fds_ t <> q') as Hne by congruence.
  assert (w_vms w !! (rec_tid t, serial t, exec_count (as_ t) + 1) = None) as Hu.
  { destruct (w_vms w !! (rec_tid t, serial t, exec_count (as_ t) + 1)) as [v'|] eqn:E; [|done]. pose proof (I4 _ _ _ _ E Et eq_refl) as Hle. cbn in Hle. lia. }
  assert (as_ t <> (rec_tid t, serial t, exec_count (as_ t) + 1)) as Hne' by congruence.
  unfold post_exec, task, vm, table, clone_into_task, u32_inc. rewrite Et. wsimpl. rewrite Ev. wsimpl. rewrite Etb. wsimpl.
  rewrite (proj2 (Z.ltb_lt _ _) Hn). wsimpl. unfold table. wsimpl. rewrite lookup_insert_eq. wsimpl. eexists. split; [done|].
  match goal with |- context [set_task p ?nt _] => eapply (join_inv (without p t tb v w) _ p nt (mkFdTable (insert_task p ∅) (fds tb) (fd_count_beyond_limit tb)) (mkVm (insert_task p ∅) m)) end; [|done].
  unfold without. split; wsimpl; cbn [fds_ as_ preload_globals serial tasks fds task_set vmem].
  - apply lookup_delete_eq.
  - done.
  - by rewrite insert_delete_eq.
  - done.
  - done.
  - lia.
  - destruct (inv_tables w Hi _ _ Etb). by split.
  - unfold old_tasks. wsimpl. by rewrite lookup_insert_ne, Hq by done.
  - intros o. rewrite lookup_insert_ne, Hq by done. done.
  - unfold old_task_set. wsimpl. by rewrite lookup_insert_ne, Hu by done.
  - intros o. rewrite lookup_insert_ne, Hu by done. done.
  - intros p' t'. rewrite lookup_delete_Some. intros [_ Et'] Ha. destruct (task_vm w (inv_linked w Hi) p' t' Et') as (v' & E & _).
    rewrite Ha in E. congruence.
  - done.
  - done.
  - eauto.
  - intros p' t'. rewrite lookup_delete_Some. intros [Hpp Et'] Hs. apply Hpp. by eapply I2.
  - unfold vm_serial. cbn. eauto.
  - intros u v'. rewrite lookup_insert_Some. cbn. intros [[<- _]|[_ E]] Hs; [lia|]. specialize (I4 _ _ _ _ E Et Hs). lia.
  - intros p' t' _. rewrite lookup_delete_Some. unfold vm_serial. cbn. intros [Hpp Et'] Hs. apply Hpp. by eapply I2.
Qed.

End FdInv.
