(* ===== verification/FdTableTasks.v ===== *)
(** Tasks that are created, cloned or loaded with the preload library keep the flags of
    monitored descriptors right. *)

From S2P Require Import Prelude TraceeMemory FdTable FdTableProofs FdTableInv.

Module FdTasks.
Import TMem FdTable FdProofs FdInv.

Section Tasks.
Context `{HashOrder}.

(** ** Clones *)

Definition clone_uid (share_vm : bool) (ct : Task) (new_tid ser : Z) : VmUid := if share_vm then as_ ct else (new_tid, ser, 0).
Definition clone_table (share_files : bool) (p : Z) (tb : FdTable) : FdTable :=
  mkFdTable (insert_task p (if share_files then tasks tb else ∅)) (fds tb) (fd_count_beyond_limit tb).
Definition clone_vm (share_vm : bool) (p : Z) (cv : Vm) : Vm := mkVm (insert_task p (if share_vm then task_set cv else ∅)) (vmem cv).
Definition clone_of (ct : Task) (share_vm share_files : bool) (new_tid ser q : Z) : Task :=
  mkTask new_tid ser (clone_uid share_vm ct new_tid ser) (if share_files then fds_ ct else q) (preload_globals ct) (-1) (-1) 0.

Lemma clone_joins w w1 c ct p q tb cv new_tid share_vm share_files :
  inv w -> w_tasks w !! c = Some ct -> w_tasks w !! p = None -> (share_files = false -> w_tables w !! q = None) ->
  w_tables w !! fds_ ct = Some tb -> w_vms w !! as_ ct = Some cv ->
  let nt := clone_of ct share_vm share_files new_tid (next_serial w) q in
  recording w1 = recording w -> w_tasks w1 = <[p:=nt]> (w_tasks w) -> w_tables w1 = <[fds_ nt:=clone_table share_files p tb]> (w_tables w) ->
  w_vms w1 = <[as_ nt:=clone_vm share_vm p cv]> (w_vms w) -> next_serial w1 = next_serial w + 1 ->
  joins w w1 p nt (clone_table share_files p tb) (clone_vm share_vm p cv).
Proof.
  intros Hi Ec Hp Hq Etb Ev nt E1 E2 E3 E4 E5. destruct (inv_ids w Hi) as [I1 I2 I3 I4].
  assert (share_vm = false -> w_vms w !! as_ nt = None) as Hu.
  { intros ->. destruct (w_vms w !! as_ nt) as [v|] eqn:E; [|done]. specialize (I3 _ _ E). unfold nt, clone_of, clone_uid, vm_serial in I3. cbn in I3. lia. }
  split; try done; rewrite ?E5; unfold nt, clone_of, clone_table, clone_vm, clone_uid in *; cbn [fds_ as_ preload_globals serial tasks fds task_set vmem] in *.
  - lia.
  - destruct (inv_tables w Hi _ _ Etb). by split.
  - unfold old_tasks, insert_task. destruct share_files; [by rewrite Etb|]. by rewrite Hq.
  - intros o. destruct share_files; [rewrite Etb; by intros [= <-]|]. by rewrite Hq.
  - unfold old_task_set, insert_task. destruct share_vm; [by rewrite Ev|]. by rewrite Hu.
  - intros o. destruct share_vm; [rewrite Ev; by intros [= <-]|]. by rewrite Hu.
  - intros p' t' Et' Ha. destruct share_vm; [by eapply (inv_uniform w Hi)|].
    destruct (task_vm w (inv_linked w Hi) p' t' Et') as (v' & E & _). rewrite Ha, Hu in E; done.
  - intros Hg. by apply (inv_arrays w Hi c).
  - intros fd Hg Hin. destruct (inv_flags w Hi c ct tb cv fd) as [[]|?]; done.
  - lia.
  - intros p' t' Et'. specialize (I1 _ _ Et'). lia.
  - destruct share_vm; [specialize (I3 _ _ Ev); lia|]. unfold vm_serial. cbn. lia.
  - intros u v E Hs. specialize (I3 _ _ E). lia.
  - destruct share_vm; [by rewrite Ev|]. intros p' t' _ Et'. specialize (I1 _ _ Et'). unfold vm_serial. cbn. lia.
Qed.

Lemma close_buffers_for_ok w p t other : inv w -> w_tasks w !! p = Some t ->
  exists w', close_buffers_for p other w = Ok w' /\ inv w' /\ framed w w'.
Proof.
  intros Hi Et. unfold close_buffers_for, task. rewrite Et. wsimpl.
  assert (exists w1, (if 0 <=? desched_fd_child other then did_close (fds_ t) (desched_fd_child other) w else Ok w) = Ok w1 /\ inv w1 /\ framed w w1)
    as (w1 & -> & Hi1 & Hf1).
  { destruct (Z.leb_spec 0 (desched_fd_child other)); [|by exists w]. destruct (task_used w p t Hi Et) as (tb & E & Hne).
    destruct (did_close_ok w (fds_ t) tb (desched_fd_child other)) as (w' & -> & ? & ? & _); try done. by exists w'. }
  cbn [mbind res_bind]. destruct (Z.leb_spec 0 (cloned_file_data_fd_child other)); [|by exists w1].
  destruct (used_framed _ _ _ Hf1 (task_used w p t Hi Et)) as (tb & E & Hne).
  destruct (did_close_ok w1 (fds_ t) tb (cloned_file_data_fd_child other)) as (w' & -> & ? & ? & _); try done.
  exists w'. splits; try done. by eapply framed_trans.
Qed.

Lemma close_buffers_ok p t others : forall w, inv w -> w_tasks w !! p = Some t -> (forall o, o ∈ others -> is_Some (w_tasks w !! o)) ->
  exists w', close_buffers p others w = Ok w' /\ inv w' /\ framed w w'.
Proof.
  induction others as [|o others IH]; intros w Hi Et Ho; cbn [close_buffers]; [by exists w|].
  destruct (Ho o) as [ot Eo]; [set_solver|]. unfold task. rewrite Eo. wsimpl.
  destruct (close_buffers_for_ok w p t ot Hi Et) as (w1 & -> & Hi1 & Hf1). cbn [mbind res_bind].
  destruct (IH w1) as (w2 & -> & Hi2 & Hf2); [done|by rewrite (fr_tasks _ _ Hf1)|intros; rewrite (fr_tasks _ _ Hf1); apply Ho; set_solver|].
  exists w2. splits; try done. by eapply framed_trans.
Qed.

Lemma clone_task_ok w c ct p q new_tid share_vm share_files :
  inv w -> w_tasks w !! c = Some ct -> w_tasks w !! p = None -> (share_files = false -> w_tables w !! q = None) -> next_serial w + 1 < 2 ^ 32 ->
  exists w', clone_task c p q new_tid share_vm share_files w = Ok w' /\ inv w' /\
    w_tasks w' !! p = Some (clone_of ct share_vm share_files new_tid (next_serial w) q).
Proof.
  intros Hi Ec Hp Hq Hn. destruct (task_table w (inv_linked w Hi) c ct Ec) as (tb & Etb & _). destruct (task_vm w (inv_linked w Hi) c ct Ec) as (cv & Ev & _).
  set (nt := clone_of ct share_vm share_files new_tid (next_serial w) q).
  set (w1 := mkWorld (recording w) (<[p:=nt]> (w_tasks w)) (<[fds_ nt:=clone_table share_files p tb]> (w_tables w))
    (<[as_ nt:=clone_vm share_vm p cv]> (w_vms w)) (w_monitors w) (task_map w) (next_serial w + 1) (raw_data w)).
  assert (inv w1) as Hi1. { eapply join_inv; [|done]. by eapply clone_joins. }
  assert (clone_task c p q new_tid share_vm share_files w =
    (w2 ← (if share_files then Ok w1 else w2 ← close_buffers_for p ct w1; close_buffers p (hash_order (erase_task c (tasks tb))) w2);
     Ok (set_task_map (insert new_tid p) w2))) as ->.
  { unfold clone_task, task, next_task_serial, u32_inc, clone_into_task, vm, table. rewrite Ec. wsimpl.
    rewrite (proj2 (Z.ltb_lt _ _) Hn). wsimpl. rewrite Ev. unfold w1, nt, clone_of, clone_uid, clone_table, clone_vm.
    destruct share_vm, share_files; wsimpl; rewrite ?Etb; wsimpl; unfold vm, table; wsimpl; rewrite ?Etb; wsimpl;
      rewrite ?Ev, ?lookup_insert_eq; wsimpl; unfold set_task_map, set_vms, set_task, set_tasks, set_table, set_tables, set_next_serial;
      cbn [recording w_tasks w_tables w_vms w_monitors task_map next_serial raw_data fds_ as_ vmem]; rewrite ?insert_insert_eq; reflexivity. }
  assert (w_tasks w1 !! p = Some nt) as Ep by apply lookup_insert_eq.
  assert (exists w2, (if share_files then Ok w1 else w2 ← close_buffers_for p ct w1; close_buffers p (hash_order (erase_task c (tasks tb))) w2) = Ok w2 /\
    inv w2 /\ w_tasks w2 = w_tasks w1) as (w2 & -> & Hi2 & Et2).
  { destruct share_files; [by exists w1|]. destruct (close_buffers_for_ok w1 p nt ct Hi1 Ep) as (w2 & -> & Hi2 & Hf2). cbn [mbind res_bind].
    destruct (close_buffers_ok p nt (hash_order (erase_task c (tasks tb))) w2) as (w3 & -> & Hi3 & Hf3); [done|by rewrite (fr_tasks _ _ Hf2)| |].
    - intros o Ho%elem_of_hash_order. rewrite (fr_tasks _ _ Hf2). unfold erase_task in Ho.
      destruct (table_task w (inv_linked w Hi) _ tb o Etb) as (ot & Eo & _); [set_solver|]. unfold w1. wsimpl. apply lookup_insert_is_Some'. eauto.
    - exists w3. splits; [done|done|]. by rewrite (fr_tasks _ _ Hf3), (fr_tasks _ _ Hf2). }
  cbn [mbind res_bind]. eexists. split; [done|]. split; [by eapply inv_fields; [..|exact Hi2]|]. wsimpl. by rewrite Et2.
Qed.

(** ** The first task *)

(** The table at [q] has tasks and monitors exactly [m]. *)
Definition monitors (q : Z) (m : gmap Z Z) (w : World) : Prop := inv w /\ exists tb, w_tables w !! q = Some tb /\ tasks tb <> ∅ /\ fds tb = m.

Lemma add_monitor_step w q m fd mp mon : monitors q m w -> m !! fd = None -> 0 <= fd < 2 ^ 31 ->
  exists w', add_monitor q fd mp mon w = Ok w' /\ monitors q (<[fd:=mp]> m) w' /\ w_tasks w' = w_tasks w.
Proof.
  intros (Hi & tb & E & Hne & <-) Hn Hfd. destruct (add_monitor_ok w q tb fd mp mon) as (w' & -> & Hi' & Hf & Hfds); try done.
  exists w'. split; [done|]. split; [|by rewrite (fr_tasks _ _ Hf)]. split; [done|].
  destruct (used_framed w w' q Hf) as (tb' & E' & Hne'); [by exists tb|]. exists tb'. rewrite E' in Hfds. cbn in Hfds. by injection Hfds as ->.
Qed.

Lemma setup_ok w q socket_fd mp : monitors q ∅ w -> socket_fd ∉ [1; 2; RD_MAGIC_SAVE_DATA_FD; RD_RESERVED_ROOT_DIR_FD] -> 0 <= socket_fd < 2 ^ 31 ->
  exists w', setup_fd_table q socket_fd mp w = Ok w' /\ inv w' /\ w_tasks w' = w_tasks w.
Proof.
  intros Hm Hs Hr. unfold setup_fd_table.
  destruct (add_monitor_step w q ∅ 1 mp (Stdio 1)) as (w1 & -> & Hm1 & E1); [done|done|lia|]. cbn [mbind res_bind].
  edestruct (add_monitor_step w1 q) with (fd := 2) (mp := mp + 1) (mon := Stdio 2) as (w2 & -> & Hm2 & E2); [done|by simplify_map_eq|lia|]. cbn [mbind res_bind].
  edestruct (add_monitor_step w2 q) with (fd := RD_MAGIC_SAVE_DATA_FD) (mp := mp + 2) (mon := MagicSaveData) as (w3 & -> & Hm3 & E3);
    [done|unfold RD_MAGIC_SAVE_DATA_FD; by simplify_map_eq|unfold RD_MAGIC_SAVE_DATA_FD; lia|]. cbn [mbind res_bind].
  edestruct (add_monitor_step w3 q) with (fd := RD_RESERVED_ROOT_DIR_FD) (mp := mp + 3) (mon := Preserve) as (w4 & -> & Hm4 & E4);
    [done|unfold RD_MAGIC_SAVE_DATA_FD, RD_RESERVED_ROOT_DIR_FD; by simplify_map_eq|unfold RD_RESERVED_ROOT_DIR_FD; lia|]. cbn [mbind res_bind].
  edestruct (add_monitor_step w4 q) with (fd := socket_fd) (mp := mp + 4) (mon := Preserve) as (w5 & -> & Hm5 & E5); [done| |done|].
  { rewrite !lookup_insert_ne by set_solver. apply lookup_empty. }
  exists w5. split; [done|]. split; [by destruct Hm5|congruence].
Qed.

Lemma spawn_ok w p q tid socket_fd mp m : inv w -> w_tasks w !! p = None -> w_tables w !! q = None -> next_serial w + 1 < 2 ^ 32 ->
  socket_fd ∉ [1; 2; RD_MAGIC_SAVE_DATA_FD; RD_RESERVED_ROOT_DIR_FD] -> 0 <= socket_fd < 2 ^ 31 ->
  exists w', spawn p q tid socket_fd mp m w = Ok w' /\ inv w'.
Proof.
  intros Hi Hp Hq Hn Hs Hr. unfold spawn, next_task_serial, u32_inc. rewrite (proj2 (Z.ltb_lt _ _) Hn). cbn [mbind res_bind].
  destruct (inv_ids w Hi) as [I1 I2 I3 I4].
  assert (w_vms w !! (tid, next_serial w, 0) = None) as Hu.
  { destruct (w_vms w !! (tid, next_serial w, 0)) as [v|] eqn:E; [|done]. specialize (I3 _ _ E). unfold vm_serial in I3. cbn in I3. lia. }
  match goal with |- context [set_task p ?nt ?w1] => set (t := nt); set (w2 := set_task p t w1) end.
  assert (inv w2) as Hi2.
  { eapply (join_inv w w2 p t (mkFdTable (insert_task p ∅) ∅ 0) (mkVm (insert_task p ∅) m)); [|done].
    split; unfold w2, t, vm_serial; wsimpl; cbn [fds_ as_ preload_globals serial tasks fds task_set vmem]; try done.
    - lia.
    - unfold old_tasks. by rewrite Hq.
    - intros o. by rewrite Hq.
    - unfold old_task_set. by rewrite Hu.
    - intros o. by rewrite Hu.
    - intros p' t' Et' Ha. destruct (task_vm w (inv_linked w Hi) p' t' Et') as (v' & E & _). rewrite Ha in E. congruence.
    - lia.
    - intros p' t' Et'. specialize (I1 _ _ Et'). lia.
    - cbn. lia.
    - intros u v E Hse. specialize (I3 _ _ E). unfold vm_serial in I3. lia.
    - intros p' t' _ Et'. specialize (I1 _ _ Et'). cbn. lia. }
  destruct (setup_ok w2 q socket_fd mp) as (w3 & -> & Hi3 & _); [|done|done|].
  { split; [done|]. exists (mkFdTable (insert_task p ∅) ∅ 0). split; [apply lookup_insert_eq|]. cbn. unfold insert_task. split; [set_solver|done]. }
  cbn [mbind res_bind]. eexists. split; [done|]. by eapply inv_fields; [..|exact Hi3].
Qed.

(** ** The preload library *)

(** The entry of a descriptor as an index. *)
Definition entry (fd : Z) : nat := Z.to_nat (clamp fd).

Lemma entry_lt fd : 0 <= fd -> (entry fd < 1024)%nat.
Proof. intros Hfd. pose proof (clamp_range fd Hfd) as Hc. unfold entry, SYSCALLBUF_FDS_DISABLED_SIZE in *. lia. Qed.

Lemma disable_fds_spec keys : forall d, length d = 1024%nat -> (forall k, k ∈ keys -> 0 <= k) ->
  exists d', disable_fds keys d = Ok d' /\ length d' = 1024%nat /\
    forall i, d' !! i = Some 1 <-> d !! i = Some 1 \/ exists k, k ∈ keys /\ entry k = i.
Proof.
  induction keys as [|k keys IH]; intros d Hd Hk; cbn [disable_fds].
  { exists d. splits; [done|done|]. intros i. split; [by left|]. intros [?|(k & Hin%not_elem_of_nil & _)]; done. }
  assert (0 <= k) as Hk0 by (apply Hk; by left). rewrite (proj2 (Z.leb_le _ _) Hk0). cbn [assert_ mbind res_bind].
  fold (clamp k). fold (entry k). pose proof (entry_lt k Hk0) as He.
  destruct (IH (<[entry k:=1]> d)) as (d' & -> & Hl & Hs); [by rewrite length_insert|intros; apply Hk; by right|].
  exists d'. splits; [done|done|]. intros i. rewrite Hs. split.
  - intros [Hi|(k' & Hin & <-)]; [|right; exists k'; split; [by right|done]]. destruct (decide (entry k = i)) as [<-|Hne].
    + right. exists k. split; [by left|done].
    + rewrite list_lookup_insert_ne in Hi by done. by left.
  - intros [Hi|(k' & [->|Hin]%elem_of_cons & <-)]; [left| |right; by exists k'].
    + destruct (decide (entry k = i)) as [<-|Hne]; [by rewrite list_lookup_insert_eq by lia|by rewrite list_lookup_insert_ne].
    + left. rewrite list_lookup_insert_eq by lia. done.
Qed.

(** The descriptors monitored by the task [p]. *)
Definition monitors_fd (w : World) (p fd : Z) : Prop := exists t tb,
  w_tasks w !! p = Some t /\ w_tables w !! fds_ t = Some tb /\ fd ∈ dom (fds tb).

Lemma disable_tasks_spec w ps : linked w -> tables_ok w -> forall d, length d = 1024%nat -> (forall p, p ∈ ps -> is_Some (w_tasks w !! p)) ->
  exists d', disable_tasks w ps d = Ok d' /\ length d' = 1024%nat /\
    forall i, d' !! i = Some 1 <-> d !! i = Some 1 \/ exists p fd, p ∈ ps /\ monitors_fd w p fd /\ entry fd = i.
Proof.
  intros Hl Ht. induction ps as [|p ps IH]; intros d Hd Hps; cbn [disable_tasks].
  { exists d. splits; [done|done|]. intros i. split; [by left|]. intros [?|(p & ? & Hin%not_elem_of_nil & _)]; done. }
  destruct (Hps p) as [t Et]; [by left|]. destruct (task_table w Hl p t Et) as (tb & Etb & _).
  unfold task, table. rewrite Et. wsimpl. rewrite Etb. wsimpl.
  destruct (disable_fds_spec (hash_order (dom (fds tb))) d Hd) as (d1 & -> & Hd1 & Hs1).
  { intros k Hk%elem_of_hash_order. apply (keys_ok _ (Ht _ _ Etb) k Hk). }
  cbn [mbind res_bind]. destruct (IH d1 Hd1) as (d' & -> & Hl' & Hs'); [intros; apply Hps; by right|].
  exists d'. splits; [done|done|]. intros i. rewrite Hs', Hs1. split.
  - intros [[?|(k & Hk%elem_of_hash_order & <-)]|(p' & fd & Hp & Hm & He)]; [by left|right..].
    + exists p, k. splits; [by left| |done]. by exists t, tb.
    + exists p', fd. splits; [by right|done|done].
  - intros [?|(p' & fd & [->|Hp]%elem_of_cons & Hm & He)]; [by left; left| |].
    + left. right. exists fd. split; [|done]. destruct Hm as (t' & tb' & Et' & Etb' & Hin). simplify_eq. by apply elem_of_hash_order.
    + right. by exists p', fd.
Qed.

Lemma set_all_globals_spec g ps : forall w, (forall p, p ∈ ps -> is_Some (w_tasks w !! p)) ->
  exists w', set_all_globals g ps w = Ok w' /\ recording w' = recording w /\ w_tables w' = w_tables w /\ w_vms w' = w_vms w /\
    next_serial w' = next_serial w /\
    forall p, w_tasks w' !! p = (if decide (p ∈ ps) then set_globals g else id) <$> w_tasks w !! p.
Proof.
  induction ps as [|p ps IH]; intros w Hps; cbn [set_all_globals].
  { exists w. splits; try done. intros p. rewrite decide_False by apply not_elem_of_nil. symmetry. apply option_fmap_id. }
  destruct (Hps p) as [t Et]; [by left|]. unfold task. rewrite Et. wsimpl.
  destruct (IH (set_task p (set_globals g t) w)) as (w' & -> & E1 & E2 & E3 & E4 & Hs).
  { intros p' Hp'. wsimpl. apply lookup_insert_is_Some'. right. apply Hps. by right. }
  exists w'. splits; try done. intros p'. rewrite Hs. wsimpl. destruct (decide (p = p')) as [<-|Hne].
  - rewrite lookup_insert_eq, Et. rewrite (decide_True (P := p ∈ p :: ps)) by (by left). cbn. by destruct (decide (p ∈ ps)).
  - rewrite lookup_insert_ne by done. destruct (decide (p' ∈ ps)); [rewrite decide_True by (by right)|rewrite decide_False by (by intros [->|?]%elem_of_cons)]; done.
Qed.

(** The session after the library of the process of [v] was found at [g] and its array of
    flags filled with [d]. *)
Record loaded (w w' : World) (u : VmUid) (v : Vm) (g : Z) (d : list Z) : Prop := {
  ld_recording : recording w' = recording w;
  ld_tables : w_tables w' = w_tables w;
  ld_vms : w_vms w' = <[u:=mkVm (task_set v) (write_map (g + FDS_DISABLED_OFFSET) d (<[g:=0]> (vmem v)))]> (w_vms w);
  ld_next : next_serial w' = next_serial w;
  ld_tasks p : w_tasks w' !! p = (if decide (p ∈ task_set v) then set_globals g else id) <$> w_tasks w !! p }.

Lemma loaded_task w w' u v g d p t' : linked w -> w_vms w !! u = Some v -> loaded w w' u v g d -> w_tasks w' !! p = Some t' ->
  exists t, w_tasks w !! p = Some t /\ fds_ t' = fds_ t /\ as_ t' = as_ t /\ serial t' = serial t /\
    preload_globals t' = if decide (as_ t = u) then g else preload_globals t.
Proof.
  intros Hl Ev [_ _ _ _ Hs] Et'. rewrite Hs in Et'. destruct (w_tasks w !! p) as [t|] eqn:Et; [|done]. injection Et' as <-. exists t. split; [done|].
  destruct (decide (p ∈ task_set v)) as [Hp|Hp].
  - destruct (vm_task w Hl u v p Ev Hp) as (t0 & Et0 & Hu). simplify_eq. by rewrite decide_True.
  - rewrite decide_False; [done|]. intros <-. destruct (task_vm w Hl p t Et) as (v0 & Ev0 & Hp0). by simplify_eq.
Qed.

Lemma loaded_linked w w' u v g d : w_vms w !! u = Some v -> loaded w w' u v g d -> linked w -> linked w'.
Proof.
  intros Ev L Hl. destruct L as [E1 E2 E3 E4 Hs] eqn:EL. clear EL. pose proof Hl as [H1 H2 H3 H4].
  assert (forall p t', w_tasks w' !! p = Some t' -> exists t, w_tasks w !! p = Some t /\ fds_ t' = fds_ t /\ as_ t' = as_ t) as Hb.
  { intros p t' Et'. destruct (loaded_task w w' u v g d p t' Hl Ev L Et') as (t & ? & ? & ? & _). by exists t. }
  assert (forall p t, w_tasks w !! p = Some t -> exists t', w_tasks w' !! p = Some t' /\ fds_ t' = fds_ t /\ as_ t' = as_ t) as Hf.
  { intros p t Et. rewrite Hs, Et. cbn. eexists. split; [done|]. by destruct (decide (p ∈ task_set v)). }
  split; rewrite ?E2, ?E3.
  - intros p t' (t & Et & -> & _)%Hb. eauto.
  - intros q tb p E Hp. destruct (H2 q tb p E Hp) as (t & Et & Hq). destruct (Hf p t Et) as (t' & Et' & Hfd & _). exists t'. split; [done|congruence].
  - intros p t' (t & Et & _ & ->)%Hb. destruct (H3 p t Et) as (v0 & E & Hp). destruct (decide (u = as_ t)) as [->|Hne].
    + rewrite lookup_insert_eq. eexists. split; [done|]. cbn. by simplify_eq.
    + rewrite lookup_insert_ne by done. eauto.
  - intros u' v' p. rewrite lookup_insert_Some. intros [[<- <-]|[_ E]] Hp.
    + destruct (H4 u v p Ev Hp) as (t & Et & Hu). destruct (Hf p t Et) as (t' & Et' & _ & Ha). exists t'. split; [done|congruence].
    + destruct (H4 u' v' p E Hp) as (t & Et & Hu). destruct (Hf p t Et) as (t' & Et' & _ & Ha). exists t'. split; [done|congruence].
Qed.

(** The array holds the flag of every descriptor monitored in the process. *)
Lemma loaded_inv w w' u v g d : inv w -> w_vms w !! u = Some v -> loaded w w' u v g d ->
  length d = 1024%nat -> flags_mapped g (vmem v) -> (forall c, 0 <= c < 1024 -> monitored w u c -> d !! Z.to_nat c = Some 1) -> inv w'.
Proof.
  intros Hi Ev L Hd Hm Hmon. pose proof Hi as [Hr Hl Ht Hu Ha Hf [I1 I2 I3 I4]]. pose proof (fun p t' => loaded_task w w' u v g d p t' Hl Ev L) as Hb.
  destruct L as [E1 E2 E3 E4 Hs] eqn:EL. clear EL.
  assert (forall u' v', w_vms w' !! u' = Some v' -> exists o, w_vms w !! u' = Some o) as Hv.
  { intros u' v'. rewrite E3, lookup_insert_Some. intros [[<- _]|[_ E]]; eauto. }
  assert (flags_mapped g (write_map (g + FDS_DISABLED_OFFSET) d (<[g:=0]> (vmem v)))) as Hm'.
  { destruct Hm as (? & ? & Hm). split; [done|]. split; [done|]. apply write_map_mapped. intros a Ha'. apply lookup_insert_is_Some'. right. by apply Hm. }
  split.
  - congruence.
  - by eapply loaded_linked.
  - unfold tables_ok. by rewrite E2.
  - intros p1 p2 t1 t2 (o1 & Eo1 & _ & A1 & _ & G1)%Hb (o2 & Eo2 & _ & A2 & _ & G2)%Hb Has. rewrite G1, G2. rewrite A1, A2 in Has. rewrite Has.
    case_decide; [done|]. by eapply (Hu p1 p2).
  - intros p t' v' (t & Et & _ & A & _ & G)%Hb Hg Ev'. rewrite E3, A, lookup_insert_Some in Ev'. rewrite G in Hg |- *.
    destruct Ev' as [[<- <-]|[Hne Ev']]; [by rewrite decide_True by done|]. rewrite decide_False in Hg |- * by done. by eapply (Ha p).
  - intros p t' tb v' fd (t & Et & F & A & _ & G)%Hb Hg Etb Ev' Hin. right. rewrite E2, F in Etb. rewrite E3, A, lookup_insert_Some in Ev'. rewrite G in Hg |- *.
    destruct Ev' as [[-> <-]|[Hne Ev']].
    + rewrite decide_True by done. pose proof (clamp_range fd (proj1 (keys_ok _ (Ht _ _ Etb) _ Hin))) as Hc.
      rewrite (flag_addr_eq _ _ _ Hm Hc). cbn [vmem]. rewrite write_map_lookup, decide_True by (unfold SYSCALLBUF_FDS_DISABLED_SIZE in Hc; lia).
      replace (g + FDS_DISABLED_OFFSET + clamp fd - (g + FDS_DISABLED_OFFSET)) with (clamp fd) by lia.
      apply Hmon; [exact Hc|]. by exists p, t, tb, fd.
    + rewrite decide_False in Hg |- * by done. destruct (Hf p t tb v' fd) as [[]|?]; done.
  - split; rewrite ?E4.
    + intros p t' (t & Et & _ & _ & -> & _)%Hb. eauto.
    + intros p1 p2 t1 t2 (o1 & Eo1 & _ & _ & -> & _)%Hb (o2 & Eo2 & _ & _ & -> & _)%Hb. eauto.
    + intros u' v' [o Eo]%Hv. eauto.
    + intros u' v' p t' [o Eo]%Hv (t & Et & _ & -> & -> & _)%Hb. eauto.
Qed.

Lemma elem_of_erase x p s : x ∈ erase_task p s <-> x ∈ s /\ x <> p.
Proof. unfold erase_task. rewrite elem_of_difference, elem_of_singleton. done. Qed.

(** [do_preload_init]: the tasks of the process learn where the variables are. *)
Lemma preload_globals_ok w p t v g : inv w -> w_tasks w !! p = Some t -> w_vms w !! as_ t = Some v -> is_Some (vmem v !! g) ->
  exists w2 w3, set_all_globals g (hash_order (erase_task p (task_set v))) (set_task p (set_globals g t) w) = Ok w2 /\
    recording w2 = recording w /\ write_bytes t g [0] w2 = Ok w3 /\ loaded w w3 (as_ t) v g [].
Proof.
  intros Hi Et Ev Hg. destruct (task_vm w (inv_linked w Hi) p t Et) as (v0 & Ev0 & Hp). simplify_eq.
  destruct (set_all_globals_spec g (hash_order (erase_task p (task_set v))) (set_task p (set_globals g t) w)) as (w2 & E & E1 & E2 & E3 & E4 & Hs).
  { intros p' [Hp' _]%elem_of_hash_order%elem_of_erase. wsimpl. apply lookup_insert_is_Some'. right.
    destruct (vm_task w (inv_linked w Hi) _ v p' Ev Hp') as (t' & -> & _). eauto. }
  eexists w2, _. split; [done|]. split; [done|]. split.
  { unfold write_bytes, vm. rewrite E3. wsimpl. rewrite Ev. wsimpl. rewrite write_mem_byte by done. wsimpl. reflexivity. }
  split; wsimpl; try done; [by rewrite E3|]. intros p'. rewrite Hs. wsimpl. destruct (decide (p = p')) as [<-|Hne].
  - rewrite lookup_insert_eq, Et. rewrite decide_False, decide_True; [done|done|]. rewrite elem_of_hash_order, elem_of_erase. tauto.
  - rewrite lookup_insert_ne by done. assert (p' ∈ hash_order (erase_task p (task_set v)) <-> p' ∈ task_set v) as Hiff.
    { rewrite elem_of_hash_order, elem_of_erase. naive_solver. }
    destruct (decide (p' ∈ task_set v)); [rewrite decide_True by tauto|rewrite decide_False by tauto]; done.
Qed.

(** The array of flags computed at the start of the library. *)
Lemma init_array_ok w3 p t tb v : linked w3 -> tables_ok w3 -> w_tasks w3 !! p = Some t -> w_tables w3 !! fds_ t = Some tb -> w_vms w3 !! as_ t = Some v ->
  exists d, (d ← disable_fds (hash_order (dom (fds tb))) (replicate (Z.to_nat SYSCALLBUF_FDS_DISABLED_SIZE) 0);
             disable_tasks w3 (hash_order (erase_task p (task_set v))) d) = Ok d /\ length d = 1024%nat /\
    forall i, d !! i = Some 1 <-> exists p' fd, p' ∈ task_set v /\ monitors_fd w3 p' fd /\ entry fd = i.
Proof.
  intros Hl Ht Et Etb Ev.
  destruct (disable_fds_spec (hash_order (dom (fds tb))) (replicate (Z.to_nat SYSCALLBUF_FDS_DISABLED_SIZE) 0)) as (d1 & -> & Hd1 & Hs1).
  { apply length_replicate. }
  { intros k Hk%elem_of_hash_order. apply (keys_ok _ (Ht _ _ Etb) k Hk). }
  cbn [mbind res_bind]. destruct (disable_tasks_spec w3 (hash_order (erase_task p (task_set v))) Hl Ht d1 Hd1) as (d & Ed & Hd & Hs).
  { intros p' [Hp' _]%elem_of_hash_order%elem_of_erase. destruct (vm_task w3 Hl _ v p' Ev Hp') as (t' & -> & _). eauto. }
  exists d. splits; [done|done|]. intros i. rewrite Hs, Hs1. destruct (task_vm w3 Hl p t Et) as (v0 & Ev0 & Hp). simplify_eq. split.
  - intros [[Hr|(k & Hk%elem_of_hash_order & <-)]|(p' & fd & [Hp' _]%elem_of_hash_order%elem_of_erase & Hm & He)].
    + apply lookup_replicate in Hr as [? _]. done.
    + exists p, k. splits; [done| |done]. by exists t, tb.
    + by exists p', fd.
  - intros (p' & fd & Hp' & Hm & He). destruct (decide (p' = p)) as [->|Hne].
    + left. right. exists fd. split; [|done]. destruct Hm as (t' & tb' & Et' & Etb' & Hin). simplify_eq. by apply elem_of_hash_order.
    + right. exists p', fd. splits; try done. by apply elem_of_hash_order, elem_of_erase.
Qed.

(** What the array holds, in terms of the session before. *)
Lemma array_monitored w w3 u v g c : linked w -> tables_ok w -> w_vms w !! u = Some v -> w_tables w3 = w_tables w ->
  (forall p, w_tasks w3 !! p = (if decide (p ∈ task_set v) then set_globals g else id) <$> w_tasks w !! p) -> 0 <= c < 1024 ->
  (exists p fd, p ∈ task_set v /\ monitors_fd w3 p fd /\ entry fd = Z.to_nat c) <-> monitored w u c.
Proof.
  intros Hl Ht Ev E2 Hs Hc. unfold monitors_fd, monitored. rewrite E2. split.
  - intros (p & fd & Hp & (t' & tb & Et' & Etb & Hin) & He). destruct (vm_task w Hl u v p Ev Hp) as (t & Et & Hu).
    rewrite Hs, Et, decide_True in Et' by done. injection Et' as <-. exists p, t, tb, fd. splits; try done.
    unfold entry in He. pose proof (clamp_range fd (proj1 (keys_ok _ (Ht _ _ Etb) _ Hin))) as Hcl. lia.
  - intros (p & t & tb & fd & Et & Hu & Etb & Hin & Hcl). destruct (task_vm w Hl p t Et) as (v0 & Ev0 & Hp). rewrite Hu in Ev0. simplify_eq.
    exists p, fd. splits; [done| |done]. exists (set_globals g t), tb. splits; try done. by rewrite Hs, Et, decide_True.
Qed.

Lemma preload_init_ok w p t v g : inv w -> w_tasks w !! p = Some t -> w_vms w !! as_ t = Some v ->
  0 < g -> g + FDS_DISABLED_OFFSET + SYSCALLBUF_FDS_DISABLED_SIZE <= USIZE -> mapped g (FDS_DISABLED_OFFSET + SYSCALLBUF_FDS_DISABLED_SIZE) (vmem v) ->
  exists w', preload_init p g w = Ok w' /\ inv w' /\
    exists d, loaded w w' (as_ t) v g d /\ length d = 1024%nat /\ forall c, 0 <= c < 1024 -> d !! Z.to_nat c = Some 1 <-> monitored w (as_ t) c.
Proof.
  intros Hi Et Ev Hg Hb Hm. pose proof (inv_linked w Hi) as Hl.
  assert (flags_mapped g (vmem v)) as Hfm.
  { split; [lia|]. split; [done|]. intros a Ha. apply Hm. unfold FDS_DISABLED_OFFSET in *. lia. }
  destruct (preload_globals_ok w p t v g Hi Et Ev) as (w2 & w3 & Ew2 & Er2 & Ew3 & L3); [apply Hm; unfold FDS_DISABLED_OFFSET, SYSCALLBUF_FDS_DISABLED_SIZE; lia|].
  pose proof (loaded_linked _ _ _ _ _ _ Ev L3 Hl) as Hl3. destruct L3 as [E1 E2 E3 E4 Hs].
  destruct (task_vm w Hl p t Et) as (v0 & Ev0 & Hp). simplify_eq. destruct (task_table w Hl p t Et) as (tb & Etb & Hpt).
  assert (w_tasks w3 !! p = Some (set_globals g t)) as Et3 by (by rewrite Hs, Et, decide_True).
  assert (w_vms w3 !! as_ t = Some (mkVm (task_set v) (<[g:=0]> (vmem v)))) as Ev3 by (by rewrite E3, lookup_insert_eq).
  destruct (init_array_ok w3 p (set_globals g t) tb (mkVm (task_set v) (<[g:=0]> (vmem v))) Hl3) as (d & Ed & Hd & Hds); [unfold tables_ok; rewrite E2; apply (inv_tables w Hi)|done|by rewrite E2|done|].
  unfold preload_init, task, vm, init_syscallbuf_fds_disabled, table. rewrite Et. wsimpl. rewrite Ev. wsimpl. rewrite Ew2. wsimpl.
  destruct (Z.eqb_spec g 0); [lia|]. wsimpl. rewrite Er2, (inv_recording w Hi), Ew3. wsimpl. rewrite E1, (inv_recording w Hi). wsimpl. unfold task, table, vm.
  rewrite Et3. wsimpl. rewrite E2. cbn [set_globals fds_ preload_globals as_]. rewrite Etb. wsimpl. rewrite bool_decide_true by done. wsimpl.
  destruct (Z.eqb_spec g 0); [lia|].
  destruct (disable_fds (hash_order (dom (fds tb))) (replicate (Z.to_nat SYSCALLBUF_FDS_DISABLED_SIZE) 0)) as [d1| | |]; try discriminate Ed.
  cbn [mbind res_bind task_set] in Ed |- *. rewrite Ev3. wsimpl. cbn [task_set]. rewrite Ed. wsimpl. unfold write_bytes, vm.
  cbn [set_globals as_]. rewrite Ev3. wsimpl. cbn [vmem task_set]. assert (flag_addr g 0 = g + FDS_DISABLED_OFFSET) as Ea.
  { rewrite (flag_addr_eq g (vmem v)) by (done || unfold SYSCALLBUF_FDS_DISABLED_SIZE; lia). lia. }
  rewrite Ea, write_mem_ok; [|rewrite Hd; intros a Ha; apply lookup_insert_is_Some'; right; apply (proj2 (proj2 Hfm)); exact Ha]. wsimpl.
  assert (forall c, 0 <= c < 1024 -> d !! Z.to_nat c = Some 1 <-> monitored w (as_ t) c) as Hmon.
  { intros c Hc. rewrite Hds. cbn [task_set]. by apply (array_monitored w w3 (as_ t) v g c Hl (inv_tables w Hi)). }
  eexists. split; [done|]. match goal with |- inv ?x /\ _ => assert (loaded w x (as_ t) v g d) as L end.
  { unfold record_local. destruct (Z.eqb_spec (g + FDS_DISABLED_OFFSET) 0) as [Hz|_]; [unfold FDS_DISABLED_OFFSET in Hz; lia|].
    split; wsimpl; try done. cbn. rewrite E3, insert_insert_eq. done. }
  split; [|by exists d]. eapply loaded_inv; [exact Hi|exact Ev|exact L|done|done|]. intros c Hc. by apply Hmon.
Qed.

End Tasks.
End FdTasks.
