(* ===== verification/FdTableTheorems.v ===== *)
(** What the tables of monitored descriptors guarantee in every state a recording reaches:
    a monitored descriptor is never buffered, the operations on tables do not stop, and
    buffering comes back when the last monitor of a descriptor is gone. *)

From S2P Require Import Prelude TraceeMemory FdTable FdTableProofs FdTableInv FdTableTasks.

Module FdTheorems.
Import TMem FdTable FdProofs FdInv FdTasks.

(** ** The steps of a recording *)

(** A session before its first tracee. *)
Definition initial (n : Z) : World := mkWorld true ∅ ∅ ∅ ∅ ∅ n [].

(** What a tracee does to its memory: it leaves the array of flags as it is. *)
Definition keeps_flags (w : World) (u : VmUid) (v : Vm) (m' : Memory) : Prop := forall p t,
  w_tasks w !! p = Some t -> as_ t = u -> preload_globals t <> 0 ->
  forall c, 0 <= c < SYSCALLBUF_FDS_DISABLED_SIZE -> m' !! flag_addr (preload_globals t) c = vmem v !! flag_addr (preload_globals t) c.

Section Steps.
Context `{HashOrder}.

(** Pointers of new objects are fresh, descriptors are what the kernel returns, and the
    counters of tasks and of execs are not exhausted. *)
Inductive step (w : World) : World -> Prop :=
| step_spawn p q tid socket_fd mp m w' :
    w_tasks w !! p = None -> w_tables w !! q = None -> next_serial w + 1 < 2 ^ 32 ->
    socket_fd ∉ [1; 2; RD_MAGIC_SAVE_DATA_FD; RD_RESERVED_ROOT_DIR_FD] -> 0 <= socket_fd < 2 ^ 31 ->
    spawn p q tid socket_fd mp m w = Ok w' -> step w w'
| step_clone c ct p q new_tid share_vm share_files w' :
    w_tasks w !! c = Some ct -> w_tasks w !! p = None -> (share_files = false -> w_tables w !! q = None) -> next_serial w + 1 < 2 ^ 32 ->
    clone_task c p q new_tid share_vm share_files w = Ok w' -> step w w'
| step_add p t fd mp mon w' :
    w_tasks w !! p = Some t -> 0 <= fd < 2 ^ 31 -> add_monitor (fds_ t) fd mp mon w = Ok w' -> step w w'
| step_dup p t from to w' :
    w_tasks w !! p = Some t -> 0 <= to < 2 ^ 31 -> did_dup (fds_ t) from to w = Ok w' -> step w w'
| step_close p t fd w' :
    w_tasks w !! p = Some t -> 0 <= fd -> did_close (fds_ t) fd w = Ok w' -> step w w'
| step_close_after_exec p t is_fd_open l w' :
    w_tasks w !! p = Some t -> fds_to_close_after_exec (fds_ t) p is_fd_open w = Ok (l, w') -> step w w'
| step_unshare p t q w' :
    w_tasks w !! p = Some t -> w_tables w !! q = None -> unshare_files p q w = Ok w' -> step w w'
| step_revive old_tid new_tid p t w' :
    task_map w !! old_tid = Some p -> w_tasks w !! p = Some t -> next_serial w + 1 < 2 ^ 32 ->
    revive_task_for_exec old_tid new_tid w = Ok w' -> step w w'
| step_exec p t q m w' :
    w_tasks w !! p = Some t -> w_tables w !! q = None -> exec_count (as_ t) + 1 < 2 ^ 32 -> post_exec p q m w = Ok w' -> step w w'
| step_destroy p t w' : w_tasks w !! p = Some t -> destroy p w = Ok w' -> step w w'
| step_preload p t v g w' :
    w_tasks w !! p = Some t -> w_vms w !! as_ t = Some v -> 0 < g -> g + FDS_DISABLED_OFFSET + SYSCALLBUF_FDS_DISABLED_SIZE <= USIZE ->
    mapped g (FDS_DISABLED_OFFSET + SYSCALLBUF_FDS_DISABLED_SIZE) (vmem v) -> preload_init p g w = Ok w' -> step w w'
| step_buffers p t desched cloned :
    w_tasks w !! p = Some t -> step w (set_task p (set_fd_children t desched cloned) w)
| step_tracee u v m' :
    w_vms w !! u = Some v -> keeps_flags w u v m' -> step w (set_vms (insert u (mkVm (task_set v) m')) w).

Inductive reachable : World -> Prop :=
| reach_initial n : reachable (initial n)
| reach_step w w' : reachable w -> step w w' -> reachable w'.

(** ** The invariant of reachable sessions *)

Lemma initial_inv n : inv (initial n).
Proof. split; try done; split; intros *; by rewrite lookup_empty. Qed.

Lemma buffers_inv w p t desched cloned : inv w -> w_tasks w !! p = Some t -> inv (set_task p (set_fd_children t desched cloned) w).
Proof.
  intros Hi Et. destruct (without_inv w p t Hi Et) as (tb & v & Etb & Ev & Hp & Hp' & Hi'). destruct (inv_ids w Hi) as [I1 I2 I3 I4].
  eapply (join_inv (without p t tb v w) _ p (set_fd_children t desched cloned) tb v); [|done].
  unfold without. split; wsimpl; cbn [set_fd_children fds_ as_ preload_globals serial].
  - apply lookup_delete_eq.
  - done.
  - by rewrite insert_delete_eq.
  - by apply back.
  - by apply back.
  - lia.
  - apply (inv_tables w Hi _ _ Etb).
  - fold (without p t tb v w). rewrite without_old_tasks. by apply re_insert.
  - intros o. rewrite lookup_insert_eq. by intros [= <-].
  - fold (without p t tb v w). rewrite without_old_task_set. by apply re_insert.
  - intros o. rewrite lookup_insert_eq. by intros [= <-].
  - intros p' t'. rewrite lookup_delete_Some. intros [_ Et'] Ha. by eapply (inv_uniform w Hi).
  - intros Hg. by apply (inv_arrays w Hi p).
  - intros fd Hg Hin. destruct (inv_flags w Hi p t tb v fd) as [[]|?]; done.
  - eauto.
  - intros p' t'. rewrite lookup_delete_Some. intros [Hpp Et'] Hs. apply Hpp. by eapply I2.
  - eauto.
  - intros u v'. rewrite lookup_insert_Some. intros [[<- _]|[_ E]] Hs; [lia|eauto].
  - intros p' t'. by rewrite lookup_insert_eq.
Qed.

Lemma tracee_inv w u v m' : inv w -> w_vms w !! u = Some v -> keeps_flags w u v m' -> inv (set_vms (insert u (mkVm (task_set v) m')) w).
Proof.
  intros [Hr Hl Ht Hu Ha Hf [I1 I2 I3 I4]] Ev Hk.
  assert (forall p t v', w_tasks w !! p = Some t -> preload_globals t <> 0 -> <[u:=mkVm (task_set v) m']> (w_vms w) !! as_ t = Some v' ->
    exists o, w_vms w !! as_ t = Some o /\ flags_mapped (preload_globals t) (vmem v') /\
      forall c, 0 <= c < SYSCALLBUF_FDS_DISABLED_SIZE -> vmem v' !! flag_addr (preload_globals t) c = vmem o !! flag_addr (preload_globals t) c) as Hv.
  { intros p t v' Et Hg. rewrite lookup_insert_Some. intros [[-> <-]|[_ E]]; [|exists v'; splits; [done|by eapply (Ha p)|done]].
    exists v. pose proof (Ha p t v Et Hg Ev) as Hm. splits; [done| |by apply (Hk p t)]. destruct Hm as (H1 & H2 & H3). split; [done|]. split; [done|].
    intros a Hin. pose proof (Hk p t Et eq_refl Hg (a - (preload_globals t + FDS_DISABLED_OFFSET)) ltac:(lia)) as E.
    rewrite (flag_addr_eq _ (vmem v)) in E by (done || lia).
    replace (preload_globals t + FDS_DISABLED_OFFSET + (a - (preload_globals t + FDS_DISABLED_OFFSET))) with a in E by lia.
    cbn [vmem]. rewrite E. by apply H3. }
  split; try done.
  - destruct Hl as [L1 L2 L3 L4]. split; wsimpl; try done.
    + intros p t Et. destruct (L3 p t Et) as (o & Eo & Hp). destruct (decide (u = as_ t)) as [->|Hne].
      * rewrite lookup_insert_eq. eexists. split; [done|]. cbn. by simplify_eq.
      * rewrite lookup_insert_ne by done. eauto.
    + intros u' v' p. rewrite lookup_insert_Some. intros [[<- <-]|[_ E]]; eauto.
  - intros p t v' Et Hg E. destruct (Hv p t v' Et Hg E) as (o & _ & ? & _). done.
  - intros p t tb v' fd Et Hg Etb E Hin. right. destruct (Hv p t v' Et Hg E) as (o & Eo & _ & Hb).
    rewrite Hb by (apply clamp_range, (keys_ok _ (Ht _ _ Etb)); done). destruct (Hf p t tb o fd) as [[]|?]; done.
  - split; wsimpl; try done.
    + intros u' v'. rewrite lookup_insert_Some. intros [[<- _]|[_ E]]; eauto.
    + intros u' v' p t. rewrite lookup_insert_Some. intros [[<- _]|[_ E]]; eauto.
Qed.

(** An operation that is known to end well ends in a state with the invariant. *)
Lemma ok_inv (m : res World) w' (P : World -> Prop) : m = Ok w' -> (exists w1, m = Ok w1 /\ P w1) -> P w'.
Proof. intros E (w1 & E1 & HP). rewrite E in E1. by injection E1 as ->. Qed.

Lemma add_monitor_free q fd mp mon w w' tb : add_monitor q fd mp mon w = Ok w' -> w_tables w !! q = Some tb -> fds tb !! fd = None.
Proof.
  unfold add_monitor, table. intros E Eq. rewrite Eq in E. cbn [unwrap mbind res_bind] in E. destruct (fds tb !! fd) eqn:Ef; [|done].
  unfold is_monitoring in E. rewrite Ef, bool_decide_true in E by done. discriminate E.
Qed.

Lemma exec_closed_ok w p t is_fd_open : inv w -> w_tasks w !! p = Some t ->
  exists l w', fds_to_close_after_exec (fds_ t) p is_fd_open w = Ok (l, w') /\ inv w'.
Proof.
  intros Hi Et. destruct (task_table w (inv_linked w Hi) p t Et) as (tb & E & Hp). unfold fds_to_close_after_exec, table. rewrite E. wsimpl.
  rewrite bool_decide_true by done. wsimpl.
  destruct (close_all_ok (fds_ t) (List.filter (fun fd => negb (is_fd_open fd)) (hash_order (dom (fds tb)))) w) as (w' & -> & Hi' & _); [done|by eapply task_used| |].
  - apply Forall_forall. intros fd Hin. apply list_elem_of_In, List.filter_In in Hin as [Hin%list_elem_of_In%elem_of_hash_order _].
    apply (keys_ok _ (inv_tables w Hi _ _ E) fd Hin).
  - wsimpl. eauto.
Qed.

Lemma step_inv w w' : inv w -> step w w' -> inv w'.
Proof.
  intros Hi Hs. destruct Hs as [p q tid s mp m w' Hp Hq Hn Hs1 Hs2 E|c ct p q new_tid sv sf w' Ec Hp Hq Hn E|p t fd mp mon w' Et Hfd E|p t from to w' Et Hto E
    |p t fd w' Et Hfd E|p t is_fd_open l w' Et E|p t q w' Et Hq E|old_tid new_tid p t w' Em Et Hn E|p t q m w' Et Hq Hn E|p t w' Et E
    |p t v g w' Et Ev Hg Hb Hm E|p t desched cloned Et|u v m' Ev Hk].
  - by eapply ok_inv; [|apply spawn_ok].
  - destruct (clone_task_ok w c ct p q new_tid sv sf Hi Ec Hp Hq Hn) as (w1 & E1 & Hi1 & _). congruence.
  - destruct (task_used w p t Hi Et) as (tb & Etb & Hne). pose proof (add_monitor_free _ _ _ _ _ _ _ E Etb) as Hf.
    destruct (add_monitor_ok w (fds_ t) tb fd mp mon Hi Etb Hne Hf Hfd) as (w1 & E1 & Hi1 & _). congruence.
  - destruct (task_used w p t Hi Et) as (tb & Etb & Hne). destruct (did_dup_ok w (fds_ t) tb from to Hi Etb Hne Hto) as (w1 & E1 & Hi1 & _). congruence.
  - destruct (task_used w p t Hi Et) as (tb & Etb & Hne). destruct (did_close_ok w (fds_ t) tb fd Hi Etb Hne Hfd) as (w1 & E1 & Hi1 & _). congruence.
  - destruct (exec_closed_ok w p t is_fd_open Hi Et) as (l1 & w1 & E1 & Hi1). congruence.
  - by eapply ok_inv; [|eapply unshare_files_ok].
  - by eapply ok_inv; [|eapply revive_ok].
  - by eapply ok_inv; [|eapply post_exec_ok].
  - by eapply ok_inv; [|eapply destroy_task_ok].
  - destruct (preload_init_ok w p t v g Hi Et Ev Hg Hb Hm) as (w1 & E1 & Hi1 & _). congruence.
  - by apply buffers_inv.
  - by apply tracee_inv.
Qed.

Lemma reachable_inv w : reachable w -> inv w.
Proof. induction 1 as [n|w w' _ IH Hs]; [apply initial_inv|by eapply step_inv]. Qed.

(** ** What the tables guarantee *)

Lemma flag_bufferable m g fd : 0 <= fd -> is_bufferable_fd m g fd = (fun b => b =? 0) <$> m !! flag_addr g (clamp fd).
Proof. intros Hfd. unfold is_bufferable_fd. destruct (Z.ltb_spec fd 0); [lia|done]. Qed.

(** C5: in every state a recording reaches, by tracees that start, clone, exec, exit, dup, close, unshare their
    files or load the preload library, a descriptor with a monitor in the table of a task is not bufferable in
    the task's process: every system call on it stops for the recorder. *)
Theorem monitored_fd_traced w p t tb v fd mp : reachable w -> w_tasks w !! p = Some t -> preload_globals t <> 0 ->
  w_tables w !! fds_ t = Some tb -> fds tb !! fd = Some mp -> w_vms w !! as_ t = Some v ->
  is_bufferable_fd (vmem v) (preload_globals t) fd = Some false.
Proof.
  intros Hi%reachable_inv Et Hg Etb Hfd%elem_of_dom_2 Ev. rewrite flag_bufferable by apply (keys_ok _ (inv_tables w Hi _ _ Etb) fd Hfd).
  destruct (inv_flags w Hi p t tb v fd) as [[]| ->]; done.
Qed.

(** C35: the operations of a task on its table never stop the recorder, the counter of descriptors beyond the
    array included, and leave in the table what the system call left open. *)
Theorem table_operations_total w p t tb fd : reachable w -> w_tasks w !! p = Some t -> w_tables w !! fds_ t = Some tb -> 0 <= fd < 2 ^ 31 ->
  (exists w', did_close (fds_ t) fd w = Ok w' /\ fds <$> w_tables w' !! fds_ t = Some (delete fd (fds tb))) /\
  (forall from, exists w', did_dup (fds_ t) from fd w = Ok w' /\ fds <$> w_tables w' !! fds_ t = Some (dup_fds (fds tb) from fd)) /\
  (forall mp mon, fds tb !! fd = None ->
    exists w', add_monitor (fds_ t) fd mp mon w = Ok w' /\ fds <$> w_tables w' !! fds_ t = Some (<[fd:=mp]> (fds tb))).
Proof.
  intros Hi%reachable_inv Et Etb Hfd. destruct (task_used w p t Hi Et) as (tb0 & E & Hne). simplify_eq. splits.
  - destruct (did_close_ok w (fds_ t) tb fd) as (w' & ? & _ & _ & ?); try done; [lia|by exists w'].
  - intros from. destruct (did_dup_ok w (fds_ t) tb from fd) as (w' & ? & _ & _ & ?); try done. by exists w'.
  - intros mp mon Hn. destruct (add_monitor_ok w (fds_ t) tb fd mp mon) as (w' & ? & _ & _ & ?); try done. by exists w'.
Qed.

(** The flag of a descriptor after an update says whether some task monitors it. *)
Lemma written_exact w0 w' q tb p t v' fd : written w0 (clamp fd) (todo w0 (hash_order (tasks tb)) ∅) w' -> inv w' ->
  w_tables w0 !! q = Some tb -> linked w0 -> uniform w0 -> w_tasks w0 !! p = Some t -> fds_ t = q -> preload_globals t <> 0 -> w_vms w' !! as_ t = Some v' -> 0 <= fd ->
  is_bufferable_fd (vmem v') (preload_globals t) fd = Some true <-> ~ monitored w' (as_ t) (clamp fd).
Proof.
  intros [Hs Hw] Hi' Eq Hl Hu Et Hq Hg Ev' Hfd. specialize (Hw (as_ t)). rewrite Ev' in Hw. inversion Hw as [v ? [_ Hc]|]; subst.
  destruct (task_table w0 Hl p t Et) as (tb0 & Etb0 & Hp). simplify_eq.
  destruct Hc as [[_ (p1 & t1 & b & Et1 & Hu1 & Hg1 & Em & Hb)]|[Hn _]].
  - rewrite flag_bufferable by done. rewrite Em, (Hu p1 p t1 t) by done. rewrite lookup_insert_eq. cbn.
    rewrite (monitored_same w0 w') by done. rewrite <- Hb. by destruct b.
  - exfalso. apply Hn. split; [set_solver|]. exists p, t. splits; try done. by apply elem_of_hash_order.
Qed.

(** C36: when a task that has loaded the preload library closes a descriptor with an entry of its own
    in the array, one below 1024, buffering of the descriptor is on again in its process exactly when
    no task of the process monitors it. The last entry also stands for the descriptors beyond the array:
    1023 is bufferable again exactly when no task of the process monitors a descriptor from 1023 on.
    Descriptors beyond the array are not part of the statement: the documentation of the array says
    that they are never buffered, and [beyond_array_buffered] shows that they can be. *)
Theorem close_reenables_buffering w p t fd : reachable w -> w_tasks w !! p = Some t -> preload_globals t <> 0 ->
  0 <= fd < SYSCALLBUF_FDS_DISABLED_SIZE ->
  exists w' v', did_close (fds_ t) fd w = Ok w' /\ w_vms w' !! as_ t = Some v' /\
    (is_bufferable_fd (vmem v') (preload_globals t) fd = Some true <-> ~ monitored w' (as_ t) fd).
Proof.
  intros Hi%reachable_inv Et Hg [Hfd Hlt]. assert (Hc : clamp fd = fd) by (unfold clamp; case_match; lia). destruct (task_used w p t Hi Et) as (tb & Etb & Hne).
  destruct (delete_ok tb fd (inv_tables w Hi _ _ Etb)) as (n & En & Hok). unfold did_close, table. rewrite Etb. wsimpl. rewrite En. wsimpl.
  set (tb' := mkFdTable (tasks tb) (delete fd (fds tb)) n). set (w0 := set_table (fds_ t) tb' w).
  destruct (change w w0 (fds_ t) tb tb' fd) as (w' & E & Hi' & Hf & Hw); try done.
  { apply Hok. }
  { cbn [tb' fds]. intros fd'. rewrite dom_delete_L. set_solver. }
  destruct (task_vm w' (inv_linked w' Hi') p t) as (v' & Ev' & _); [by rewrite (fr_tasks _ _ Hf)|].
  exists w', v'. splits; try done. rewrite <- Hc at 2. eapply (written_exact w0 w' (fds_ t) tb'); try done.
  - apply lookup_insert_eq.
  - destruct Hw as [Hs _]. destruct (inv_linked w' Hi') as [L1 L2 L3 L4].
    rewrite (same_w_tasks _ _ Hs), (same_w_tables _ _ Hs) in *. split; try done; apply (inv_linked w Hi).
  - apply (inv_uniform w Hi).
Qed.

End Steps.
End FdTheorems.
