(* ===== verification/FdTableExamples.v ===== *)
(** The theorems on tables of monitored descriptors at a recording of one tracee that loads
    the preload library, dups its standard output to a descriptor beyond the array of flags
    and forks. *)

From S2P Require Import Prelude TraceeMemory FdTable FdTableProofs FdTableInv FdTableTasks FdTableTheorems.

Module FdExamples.
Import TMem FdTable FdProofs FdInv FdTasks FdTheorems.

#[local] Instance elements_order : HashOrder := {| hash_order := elements; hash_order_perm s := Permutation_refl _ |}.

Definition get (m : res World) (d : World) : World := match m with Ok w => w | _ => d end.

Lemma get_ok m d : is_ok m = true -> m = Ok (get m d).
Proof. by destruct m. Qed.

Lemma default_ok {A} (o : option A) (d : A) : (if o then true else false) = true -> o = Some (default d o).
Proof. by destruct o. Qed.

Definition sevens (a : Z) (n : nat) : Memory := list_to_map ((fun i => (a + Z.of_nat i, 7)) <$> seq 0 n).

Lemma sevens_mapped a n : mapped a (Z.of_nat n) (sevens a n).
Proof.
  intros b Hb. exists 7. apply elem_of_list_to_map_1'.
  - intros y Hy. apply list_elem_of_fmap in Hy as (i & [= _ ->] & _). done.
  - apply list_elem_of_fmap. exists (Z.to_nat (b - a)). split; [f_equal; lia|]. apply elem_of_seq. lia.
Qed.

(** Memory with the variables of the preload library at 4096. *)
Definition mem0 : Memory := sevens 4096 1032.

Definition w0 : World := initial 0.
Definition w1 : World := get (spawn 1 10 100 1001 20 mem0 w0) w0.
Definition w2 : World := get (preload_init 1 4096 w1) w0.
Definition w3 : World := get (did_dup 10 1 2000 w2) w0.
Definition w4 : World := get (clone_task 1 2 11 101 false false w3) w0.

Definition t1 : Task := mkTask 100 0 (100, 0, 0) 10 4096 (-1) (-1) 0.
Definition tb1 : FdTable := default (mkFdTable ∅ ∅ 0) (w_tables w4 !! 10).
Definition v1 : Vm := default (mkVm ∅ ∅) (w_vms w4 !! (100, 0, 0)).

Lemma w1_ok : spawn 1 10 100 1001 20 mem0 w0 = Ok w1.
Proof. apply get_ok. vm_compute. reflexivity. Qed.

Lemma w1_task : w_tasks w1 !! 1 = Some (mkTask 100 0 (100, 0, 0) 10 0 (-1) (-1) 0).
Proof. vm_compute. reflexivity. Qed.

Lemma w1_vm : w_vms w1 !! (100, 0, 0) = Some (mkVm {[1]} mem0).
Proof. vm_compute. reflexivity. Qed.

Lemma mem0_mapped : mapped 4096 (FDS_DISABLED_OFFSET + SYSCALLBUF_FDS_DISABLED_SIZE) mem0.
Proof. exact (sevens_mapped 4096 1032). Qed.

Lemma w2_ok : preload_init 1 4096 w1 = Ok w2.
Proof. apply get_ok. vm_compute. reflexivity. Qed.

Lemma w2_task : w_tasks w2 !! 1 = Some t1.
Proof. vm_compute. reflexivity. Qed.

Lemma w3_ok : did_dup 10 1 2000 w2 = Ok w3.
Proof. apply get_ok. vm_compute. reflexivity. Qed.

Lemma w3_task : w_tasks w3 !! 1 = Some t1.
Proof. vm_compute. reflexivity. Qed.

Lemma w4_ok : clone_task 1 2 11 101 false false w3 = Ok w4.
Proof. apply get_ok. vm_compute. reflexivity. Qed.

Lemma w4_reachable : reachable w4.
Proof.
  apply (reach_step w3); [apply (reach_step w2); [apply (reach_step w1); [apply (reach_step w0); [apply (reach_initial 0)|]|]|]|].
  - eapply step_spawn; [..|exact w1_ok]; try done; unfold w0, initial, next_serial; try lia.
    unfold RD_MAGIC_SAVE_DATA_FD, RD_RESERVED_ROOT_DIR_FD. rewrite !not_elem_of_cons. splits; try lia. apply not_elem_of_nil.
  - eapply (step_preload w1 1 _ _ 4096); [exact w1_task|exact w1_vm|lia|vm_compute; done|exact mem0_mapped|exact w2_ok].
  - eapply (step_dup w2 1 t1 1 2000); [exact w2_task|lia|exact w3_ok].
  - eapply (step_clone w3 1 t1 2 11 101 false false); [exact w3_task|vm_compute; done|intros _; vm_compute; done|vm_compute; done|exact w4_ok].
Qed.

Lemma w4_task : w_tasks w4 !! 1 = Some t1.
Proof. vm_compute. reflexivity. Qed.

Lemma w4_table : w_tables w4 !! 10 = Some tb1.
Proof. apply default_ok. vm_compute. reflexivity. Qed.

Lemma w4_vm : w_vms w4 !! (100, 0, 0) = Some v1.
Proof. apply default_ok. vm_compute. reflexivity. Qed.

Lemma tb1_fd : fds tb1 !! 2000 = Some 20.
Proof. vm_compute. reflexivity. Qed.

Lemma monitored_fd_traced_witness : is_bufferable_fd (vmem v1) 4096 2000 = Some false.
Proof. exact (monitored_fd_traced w4 1 t1 tb1 v1 2000 20 w4_reachable w4_task ltac:(done) w4_table tb1_fd w4_vm). Defined.

Lemma table_operations_total_witness : exists w', did_close 10 2000 w4 = Ok w' /\ fds <$> w_tables w' !! 10 = Some (delete 2000 (fds tb1)).
Proof. exact (proj1 (table_operations_total w4 1 t1 tb1 2000 w4_reachable w4_task w4_table ltac:(lia))). Defined.

Lemma close_reenables_buffering_witness : exists w' v', did_close 10 1 w4 = Ok w' /\ w_vms w' !! (100, 0, 0) = Some v' /\
  (is_bufferable_fd (vmem v') 4096 1 = Some true <-> ~ monitored w' (100, 0, 0) 1).
Proof. exact (close_reenables_buffering w4 1 t1 1 w4_reachable w4_task ltac:(done) ltac:(done)). Defined.

(** A descriptor beyond the array is bufferable while nothing from 1023 on is monitored. *)
Lemma beyond_array_buffered :
  match did_close 10 2000 w4 with
  | Ok w' => (fun v => is_bufferable_fd (vmem v) 4096 2000) <$> w_vms w' !! (100, 0, 0)
  | _ => None
  end = Some (Some true).
Proof. vm_compute. reflexivity. Qed.

End FdExamples.
