(* ===== verification/FileMonitors.v ===== *)
(** File monitors: [src/src/file_monitor.rs] and the monitors of
    [src/src/file_monitor/], with the dispatch of [src/src/fd_table.rs].  A monitor is
    reached through the pointer the table holds, so that descriptors made by [dup] share
    it. *)

From Stdlib Require Import Ascii String.
From stdpp Require Import pretty.
From S2P Require Import Prelude MemoryRange KernelMapping TraceeMemory FdTable.

Module FileMon.
Import Range KMap TMem FdTable.

(** ** Data *)

Inductive Switchable := PreventSwitch | AllowSwitch.

Inductive Arch := X86 | X64.

(** The system calls the monitors tell apart. *)
Inductive Sys := READ | WRITE | WRITEV | PREAD64 | PREADV | PWRITE64 | PWRITEV | OtherSys.

#[global] Instance Sys_eq_dec : EqDecision Sys.
Proof. solve_decision. Defined.

Record Registers := mkRegs { arg1 : Z; arg2 : Z; arg3 : Z; arg4 : Z; arg5 : Z; syscall_result : Z }.

(** A register seen as signed. *)
Definition signed (a : Arch) (v : Z) : Z := match a with X86 => swrap 32 v | X64 => swrap 64 v end.

(** A piece of tracee memory. *)
Record Range := mkFRange { data : Z; length : Z }.

Record EmuFile := mkEmu { e_device : Z; e_inode : Z; size_ : Z }.

(** [Flags] and the state of the session that standard output depends on. *)
Record StdioFlags := mkStdio {
  mark_stdio : bool; extra_compat : bool; visible_execution : bool; done_initial_exec : bool; redirect_stdio : bool;
  tgid : Z; trace_time : Z }.

(** What the monitors see and change beyond the tables: mappings of the address spaces,
    emulated files, the write offset of the current event, the output of rd, the raw data
    still to be read from the trace, the tasks that wait for a tick count
    ([TASKS_WITH_INTERRUPTS]; [None] is a dangling weak pointer) and stashed signals. *)
Record Env := mkEnv {
  world : World; maps : list (VmUid * list Mapping); emu_files : gmap Z EmuFile; write_offset : option Z;
  output : list (Z * list Z); raw_input : list (Z * list Z); tasks_with_interrupts : gmap TaskUid (option Z);
  stashed : list (Z * Z); stdio : StdioFlags }.

Definition set_world (w : World) (e : Env) : Env :=
  mkEnv w (maps e) (emu_files e) (write_offset e) (output e) (raw_input e) (tasks_with_interrupts e) (stashed e) (stdio e).
Definition set_emu_files (m : gmap Z EmuFile) (e : Env) : Env :=
  mkEnv (world e) (maps e) m (write_offset e) (output e) (raw_input e) (tasks_with_interrupts e) (stashed e) (stdio e).
Definition set_write_offset (o : option Z) (e : Env) : Env :=
  mkEnv (world e) (maps e) (emu_files e) o (output e) (raw_input e) (tasks_with_interrupts e) (stashed e) (stdio e).
Definition add_output (fd : Z) (l : list Z) (e : Env) : Env :=
  mkEnv (world e) (maps e) (emu_files e) (write_offset e) (output e ++ [(fd, l)]) (raw_input e) (tasks_with_interrupts e) (stashed e) (stdio e).
Definition set_raw_input (l : list (Z * list Z)) (e : Env) : Env :=
  mkEnv (world e) (maps e) (emu_files e) (write_offset e) (output e) l (tasks_with_interrupts e) (stashed e) (stdio e).
Definition set_interrupts (m : gmap TaskUid (option Z)) (e : Env) : Env :=
  mkEnv (world e) (maps e) (emu_files e) (write_offset e) (output e) (raw_input e) m (stashed e) (stdio e).
Definition stash (s : Z * Z) (e : Env) : Env :=
  mkEnv (world e) (maps e) (emu_files e) (write_offset e) (output e) (raw_input e) (tasks_with_interrupts e) (stashed e ++ [s]) (stdio e).

Definition set_monitor (mp : Z) (m : FileMonitor) (e : Env) : Env := set_world (set_monitors (insert mp m) (world e)) e.

(** [TaskUid] of a task. *)
Definition tuid (t : Task) : TaskUid := (rec_tid t, serial t).

(** ** Tasks of the session *)

Definition find_task_from_rec_tid (w : World) (tid : Z) : option Task := p ← task_map w !! tid; w_tasks w !! p.

Definition find_task_from_task_uid (w : World) (u : TaskUid) : option Task := find_task_from_rec_tid w u.1.

(** ** Memory of tasks *)

Definition read_bytes_helper (t : Task) (addr n : Z) (e : Env) : res (list Z) :=
  v ← vm (world e) (as_ t); read_mem addr n (vmem v).

Definition write_bytes_helper (t : Task) (addr : Z) (l : list Z) (e : Env) : res Env :=
  w ← write_bytes t addr l (world e); Ok (set_world w e).

Definition record_remote (t : Task) (addr n : Z) (e : Env) : res Env :=
  if addr =? 0 then Ok e else
  l ← read_bytes_helper t addr n e;
  Ok (set_world (add_raw (rec_tid t, addr, l) (world e)) e).

(** [record_remote_fallible]: as much as is mapped from [addr] on; the number of bytes, and
    [None] when reading failed. *)
Definition record_remote_fallible (t : Task) (addr n : Z) (e : Env) : res (option Z * Env) :=
  v ← vm (world e) (as_ t);
  let l := if addr =? 0 then [] else read_bytes (Z.to_nat n) addr (vmem v) in
  let ret := if addr =? 0 then Some 0 else if (0 <? n) && bool_decide (l = []) then None else Some (Z.of_nat (List.length l)) in
  Ok (ret, set_world (add_raw (rec_tid t, addr, l) (world e)) e).

Definition record_remote_range_fallible (t : Task) (r : MemoryRange) (e : Env) : res (option Z * Env) :=
  record_remote_fallible t (start_ r) (Range.size r) e.

Section Monitors.
Context `{HashOrder}.

(** The position of a descriptor as [/proc/<tid>/fdinfo] shows it, and what [write] returns
    for the bytes it is given: [None] is an error. *)
Context (get_fd_offset : Z -> Z -> Z) (sys_write : Z -> list Z -> option Z).

(** ** Offsets *)

(** [LazyOffset]: the task, its architecture, registers and system call; on replay also the
    offset of the frame. *)
Record LazyOffset := mkLazy { lt : Task; larch : Arch; lregs : Registers; syscallno : Sys; frame_write_offset : option Z }.

Definition is_implicit_offset_syscall (s : Sys) : bool := bool_decide (s = WRITEV) || bool_decide (s = WRITE).

Definition retrieve_offset (l : LazyOffset) (e : Env) : res (option Z) :=
  let r := lregs l in
  match syscallno l with
  | PWRITE64 | PWRITEV | PREAD64 | PREADV =>
      let offset := match larch l with
                    | X86 => Z.lor (swrap 64 (arg4 r)) (swrap 64 (Z.shiftl (signed X86 (arg5 r)) 32))
                    | X64 => signed X64 (arg4 r)
                    end in
      Ok (if offset <? 0 then None else Some offset)
  | WRITEV | WRITE =>
      _ ← assert_ (recording (world e));
      let fd := swrap 32 (signed (larch l) (arg1 r)) in
      let offset := get_fd_offset (rec_tid (lt l)) fd in
      Ok (if offset <? syscall_result r then None else Some (offset - syscall_result r))
  | _ => Panic
  end.

Definition retrieve (l : LazyOffset) (needed_for_replay : bool) (e : Env) : res (option Z * Env) :=
  let is_replay := negb (recording (world e)) in
  let is_implicit_offset := is_implicit_offset_syscall (syscallno l) in
  _ ← assert_ (needed_for_replay || negb is_replay);
  if is_replay && is_implicit_offset then Ok (frame_write_offset l, e) else
  maybe_offset ← retrieve_offset l e;
  if needed_for_replay && is_implicit_offset then Ok (maybe_offset, set_write_offset maybe_offset e) else Ok (maybe_offset, e).

(** ** Standard output *)

Definition bytes_of (s : string) : list Z := (fun a => Z.of_nat (nat_of_ascii a)) <$> list_ascii_of_string s.

(** [nix::unistd::write], of which rd expects that all is written. *)
Definition write_all (fd : Z) (l : list Z) (e : Env) : res Env :=
  match sys_write fd l with
  | None => Panic
  | Some n => if n =? Z.of_nat (List.length l) then Ok (add_output fd l e) else Panic
  end.

Definition stdio_prefix (f : StdioFlags) : list Z :=
  bytes_of (if extra_compat f then "[rr " else "[rd ")%string ++ bytes_of (pretty (tgid f)) ++ bytes_of " "%string ++ bytes_of (pretty (trace_time f)) ++ bytes_of "]"%string.

Definition stdio_will_write (original_fd : Z) (e : Env) : res (Switchable * Env) :=
  let f := stdio e in
  if mark_stdio f && visible_execution f && done_initial_exec f
  then e ← write_all original_fd (stdio_prefix f) e; Ok (PreventSwitch, e)
  else Ok (PreventSwitch, e).

Fixpoint echo_ranges (t : Task) (original_fd : Z) (ranges : list Range) (e : Env) : res Env :=
  match ranges with
  | [] => Ok e
  | r :: ranges =>
      buf ← read_bytes_helper t (data r) (length r) e;
      e ← write_all original_fd buf e;
      echo_ranges t original_fd ranges e
  end.

Definition stdio_did_write (original_fd : Z) (ranges : list Range) (l : LazyOffset) (e : Env) : res Env :=
  if recording (world e) then Ok e
  else if redirect_stdio (stdio e) && visible_execution (stdio e) then echo_ranges (lt l) original_fd ranges e else Ok e.

(** ** Data saved on demand *)

(** [notify_save_data_error] is [unimplemented!]. *)
Fixpoint magic_did_write (t : Task) (rv : list Range) (e : Env) : res Env :=
  match rv with
  | [] => Ok e
  | r :: rv =>
      e ← (if recording (world e) then record_remote t (data r) (length r) e
           else bytes ← read_bytes_helper t (data r) (length r) e;
                match raw_input e with
                | [] => Fatal
                | (addr, rec) :: rest => if bool_decide (rec = bytes) then Ok (set_raw_input rest e) else Panic
                end);
      magic_did_write t rv e
  end.

(** ** Writes to the memory of a task *)

Fixpoint record_written (t : Task) (offset : Z) (ranges : list Range) (e : Env) : res Env :=
  match ranges with
  | [] => Ok e
  | r :: ranges =>
      e ← record_remote t offset (length r) e;
      offset ← checked_add offset (length r);
      record_written t offset ranges e
  end.

Definition proc_mem_did_write (maybe_tuid : option TaskUid) (ranges : list Range) (l : LazyOffset) (e : Env) : res Env :=
  match maybe_tuid with
  | None => Ok e
  | Some u =>
      if negb (recording (world e)) || bool_decide (ranges = []) then Ok e else
      '(o, e) ← retrieve l false e;
      offset ← unwrap o;
      if bool_decide (tuid (lt l) = u) then record_written (lt l) offset ranges e
      else match find_task_from_task_uid (world e) u with
           | None => Ok e
           | Some target => record_written target offset ranges e
           end
  end.

(** ** Files that are mapped *)

(** The tasks of an address space one after another until one could record. *)
Fixpoint record_by_tasks (ps : list Z) (r : MemoryRange) (e : Env) : res Env :=
  match ps with
  | [] => Ok e
  | p :: ps =>
      t ← task (world e) p;
      '(ret, e) ← record_remote_range_fallible t r e;
      if match ret with Some nread => 0 <? nread | None => false end then Ok e else record_by_tasks ps r e
  end.

(** What a write changed in the mapping [km] of the address space [u]; [p] is the writer. *)
Definition record_mapped (p : Z) (t : Task) (u : VmUid) (r : MemoryRange) (e : Env) : res Env :=
  v ← vm (world e) u;
  _ ← assert_ (bool_decide (task_set v <> ∅));
  '(done_, e) ← (if bool_decide (u = as_ t)
                 then '(ret, e) ← record_remote_range_fallible t r e;
                      Ok (match ret with Some nread => 0 <? nread | None => false end, e)
                 else Ok (false, e));
  if done_ : bool then Ok e else record_by_tasks (hash_order (erase_task p (task_set v))) r e.

Definition ensure_size (f size : Z) (e : Env) : res Env :=
  emu ← unwrap (emu_files e !! f);
  if size_ emu <? size then Ok (set_emu_files (<[f:=mkEmu (e_device emu) (e_inode emu) size]> (emu_files e)) e) else Ok e.

(** The ranges of one write in one mapping; [u64] arithmetic of the checked build. *)
Fixpoint mapped_ranges (p : Z) (t : Task) (u : VmUid) (m : Mapping) (local_offset : Z) (ranges : list Range) (e : Env) : res Env :=
  match ranges with
  | [] => Ok e
  | r :: ranges =>
      let km := map m in
      a ← checked_add (km_start km) local_offset;
      start ← checked_sub a (offset km);
      let mr_ := new_range start (length r) in
      e ← (if intersects (mr km) mr_ then
             if negb (recording (world e))
             then f ← unwrap (emu_file m); sz ← checked_add local_offset (length r); ensure_size f sz e
             else record_mapped p t u (intersect (mr km) mr_) e
           else Ok e);
      local_offset ← checked_add local_offset (length r);
      mapped_ranges p t u m local_offset ranges e
  end.

(** Whether a mapping shows the file of the monitor. *)
Definition maps_file (device inode : Z) (m : Mapping) (e : Env) : res bool :=
  if negb (recording (world e)) then
    match emu_file m with
    | None => Ok false
    | Some f => emu ← unwrap (emu_files e !! f); Ok ((e_device emu =? device) && (e_inode emu =? inode))
    end
  else Ok ((device_ (map m) =? device) && (inode_ (map m) =? inode) && (Z.land (flags_ (map m)) MAP_SHARED =? MAP_SHARED)).

Fixpoint mapped_did_write (p : Z) (l : LazyOffset) (device inode : Z) (ms : list (VmUid * Mapping)) (ranges : list Range)
    (dead : bool) (realized_offset : Z) (e : Env) : res (bool * Env) :=
  match ms with
  | [] => Ok (dead, e)
  | (u, m) :: ms =>
      b ← maps_file device inode m e;
      if negb b then mapped_did_write p l device inode ms ranges dead realized_offset e else
      '(realized_offset, e) ← (if dead then '(o, e) ← retrieve l true e; o ← unwrap o; Ok (o, e) else Ok (realized_offset, e));
      e ← mapped_ranges p (lt l) u m realized_offset ranges e;
      mapped_did_write p l device inode ms ranges false realized_offset e
  end.

Definition all_maps (e : Env) : list (VmUid * Mapping) := '(u, ms) ← maps e; m ← ms; [(u, m)].

Definition mmapped_did_write (p mp : Z) (dead : bool) (device inode : Z) (ranges : list Range) (l : LazyOffset) (e : Env) : res Env :=
  if dead then Ok e else if bool_decide (ranges = []) then Ok e else
  '(dead, e) ← mapped_did_write p l device inode (all_maps e) ranges true 0 e;
  Ok (set_monitor mp (Mmapped dead device inode) e).

Definition mmapped_new (device inode : Z) : FileMonitor := Mmapped false device inode.

Definition revive (m : FileMonitor) : FileMonitor := match m with Mmapped _ d i => Mmapped false d i | m => m end.

(** ** Virtual performance counters *)

Definition VIRTUAL_PERF_COUNTER_SIGNAL_SI_ERRNO : Z := -1337.

Definition maybe_enable_interrupt (v : VirtualPerfCounter) (after : Z) (e : Env) : res (VirtualPerfCounter * Env) :=
  target ← unwrap (find_task_from_task_uid (world e) (target_tuid_ v));
  if (after =? 0) || (4294967295 <? after) then Ok (v, e) else
  let maybe_previous := tasks_with_interrupts e !! target_tuid_ v in
  let e := set_interrupts (<[target_tuid_ v:=weak_self v]> (tasks_with_interrupts e)) e in
  _ ← (match maybe_previous with Some previous => assert_ (bool_decide (previous = weak_self v)) | None => Ok tt end);
  ticks ← checked_add (tick_count target) after;
  Ok (mkVpmc (initial_ticks v) ticks (target_tuid_ v) (owner_tid v) (vflags v) (sig v) (enabled v) (weak_self v), e).

(** Also what dropping the monitor does. *)
Definition disable_interrupt (v : VirtualPerfCounter) (e : Env) : Env :=
  match tasks_with_interrupts e !! target_tuid_ v with
  | Some p => if bool_decide (p = weak_self v) then set_interrupts (delete (target_tuid_ v) (tasks_with_interrupts e)) e else e
  | None => e
  end.

(** [should_virtualize] is whether the attributes are those of rd's tick counter. *)
Definition vpmc_new (target : Task) (should_virtualize : bool) (sample_period : Z) (e : Env) : res (VirtualPerfCounter * Env) :=
  let v := mkVpmc (tick_count target) 0 (tuid target) 0 0 None false None in
  _ ← assert_ should_virtualize;
  if recording (world e) then maybe_enable_interrupt v sample_period e else Ok (v, e).

(** The monitor that waits for the ticks of a task. *)
Definition interrupting_virtual_pmc_for_task (t : Task) (e : Env) : res (option Z) :=
  match tasks_with_interrupts e !! tuid t with
  | None => Ok None
  | Some weak => mp ← unwrap weak; _ ← unwrap (w_monitors (world e) !! mp); Ok (Some mp)
  end.

(** The signal is stashed only when it has a number. *)
Definition synthesize_signal (v : VirtualPerfCounter) (e : Env) : res Env :=
  let si_signo := default 0 (sig v) in
  _ ← assert_ (0 <? si_signo);
  Ok (disable_interrupt v (stash (si_signo, VIRTUAL_PERF_COUNTER_SIGNAL_SI_ERRNO) e)).

Definition is_virtual_perf_counter_signal (si_errno : Z) : bool := si_errno =? VIRTUAL_PERF_COUNTER_SIGNAL_SI_ERRNO.

Definition PERF_EVENT_IOC_ENABLE : Z := 9216.
Definition PERF_EVENT_IOC_DISABLE : Z := 9217.
Definition PERF_EVENT_IOC_RESET : Z := 9219.
Definition PERF_EVENT_IOC_PERIOD : Z := 1074275332.

Definition set_enabled (b : bool) (v : VirtualPerfCounter) : VirtualPerfCounter :=
  mkVpmc (initial_ticks v) (target_ticks_ v) (target_tuid_ v) (owner_tid v) (vflags v) (sig v) b (weak_self v).
Definition set_initial_ticks (n : Z) (v : VirtualPerfCounter) : VirtualPerfCounter :=
  mkVpmc n (target_ticks_ v) (target_tuid_ v) (owner_tid v) (vflags v) (sig v) (enabled v) (weak_self v).

(** The result is always 0. *)
Definition vpmc_emulate_ioctl (v : VirtualPerfCounter) (t : Task) (r : Registers) (e : Env) : res (Z * VirtualPerfCounter * Env) :=
  let request := wrap 32 (arg2 r) in
  if request =? PERF_EVENT_IOC_ENABLE then Ok (0, set_enabled true v, e)
  else if request =? PERF_EVENT_IOC_DISABLE then Ok (0, set_enabled false v, e)
  else if request =? PERF_EVENT_IOC_RESET then
    let target_tid := (target_tuid_ v).1 in
    if target_tid =? rec_tid t then Ok (0, set_initial_ticks (tick_count t) v, e)
    else target ← unwrap (find_task_from_rec_tid (world e) target_tid); Ok (0, set_initial_ticks (tick_count target) v, e)
  else if request =? PERF_EVENT_IOC_PERIOD then
    l ← read_bytes_helper t (arg3 r) 8 e;
    '(v, e) ← maybe_enable_interrupt v (le_val l) e;
    Ok (0, v, e)
  else Panic.

Definition F_SETFL : Z := 4.
Definition F_SETSIG : Z := 10.
Definition F_SETOWN_EX : Z := 15.
Definition F_OWNER_TID : Z := 0.
Definition O_ASYNC : Z := 8192.

Definition vpmc_emulate_fcntl (v : VirtualPerfCounter) (t : Task) (r : Registers) (e : Env) : res (Z * VirtualPerfCounter * Env) :=
  let command := wrap 32 (arg2 r) in
  let arg := swrap 32 (arg3 r) in
  if command =? F_SETOWN_EX then
    l ← read_bytes_helper t (arg3 r) 8 e;
    let type_ := swrap 32 (le_val (take 4 l)) in
    let pid := swrap 32 (le_val (drop 4 l)) in
    _ ← assert_ (type_ =? F_OWNER_TID);
    _ ← assert_ (pid =? (target_tuid_ v).1);
    Ok (0, mkVpmc (initial_ticks v) (target_ticks_ v) (target_tuid_ v) pid (vflags v) (sig v) (enabled v) (weak_self v), e)
  else if command =? F_SETFL then
    _ ← assert_ (Z.land arg (Z.lnot O_ASYNC) =? 0);
    Ok (0, mkVpmc (initial_ticks v) (target_ticks_ v) (target_tuid_ v) (owner_tid v) arg (sig v) (enabled v) (weak_self v), e)
  else if command =? F_SETSIG then
    let s := if (0 <? arg) && (arg <? 128) then Some arg else None in
    Ok (0, mkVpmc (initial_ticks v) (target_ticks_ v) (target_tuid_ v) (owner_tid v) (vflags v) s (enabled v) (weak_self v), e)
  else Panic.

(** [s] bytes of [p] are still to be written. *)
Fixpoint write_ranges (t : Task) (ranges : list Range) (p : list Z) (s : Z) (result : Z) (e : Env) : res (Z * Env) :=
  match ranges with
  | [] => Ok (result, e)
  | r :: ranges =>
      let bytes := Z.min s (length r) in
      e ← write_bytes_helper t (data r) (take (Z.to_nat bytes) p) e;
      write_ranges t ranges p (s - bytes) (result + bytes) e
  end.

Definition vpmc_emulate_read (v : VirtualPerfCounter) (ranges : list Range) (t : Task) (e : Env) : res (Z * Env) :=
  match find_task_from_task_uid (world e) (target_tuid_ v) with
  | Some target =>
      let ticks := if rec_tid t =? (target_tuid_ v).1 then tick_count t else tick_count target in
      val ← checked_sub ticks (initial_ticks v);
      write_ranges t ranges (le_bytes 8 val) 8 0 e
  | None => Ok (0, e)
  end.

(** ** The table passes calls on to the monitor of a descriptor *)

(** The monitor of [fd] in the table of [t]. *)
Definition monitor_of (t : Task) (fd : Z) (e : Env) : res (option (Z * FileMonitor)) :=
  tb ← table (world e) (fds_ t);
  match fds tb !! fd with
  | None => Ok None
  | Some mp => m ← unwrap (w_monitors (world e) !! mp); Ok (Some (mp, m))
  end.

Definition is_rd_fd (t : Task) (fd : Z) (e : Env) : res bool :=
  m ← monitor_of t fd e; Ok (match m with Some (_, Preserve) => true | _ => false end).

Definition will_write (t : Task) (fd : Z) (e : Env) : res (Switchable * Env) :=
  m ← monitor_of t fd e;
  match m with
  | Some (_, Mmapped dead _ _) => Ok (if dead : bool then AllowSwitch else PreventSwitch, e)
  | Some (_, ProcMem _) => Ok (PreventSwitch, e)
  | Some (_, Stdio original_fd) => stdio_will_write original_fd e
  | _ => Ok (AllowSwitch, e)
  end.

(** [p] is the pointer of the task of the offset. *)
Definition did_write (p fd : Z) (ranges : list Range) (l : LazyOffset) (e : Env) : res Env :=
  m ← monitor_of (lt l) fd e;
  match m with
  | Some (_, MagicSaveData) => magic_did_write (lt l) ranges e
  | Some (mp, Mmapped dead d i) => mmapped_did_write p mp dead d i ranges l e
  | Some (_, ProcMem u) => proc_mem_did_write u ranges l e
  | Some (_, Stdio original_fd) => stdio_did_write original_fd ranges l e
  | _ => Ok e
  end.

(** [None] when the system call is not emulated, its result otherwise. *)
Definition emulate_ioctl (t : Task) (fd : Z) (r : Registers) (e : Env) : res (option Z * Env) :=
  m ← monitor_of t fd e;
  match m with
  | Some (mp, VirtualPerf v) => '(result, v, e) ← vpmc_emulate_ioctl v t r e; Ok (Some result, set_monitor mp (VirtualPerf v) e)
  | _ => Ok (None, e)
  end.

Definition emulate_fcntl (t : Task) (fd : Z) (r : Registers) (e : Env) : res (option Z * Env) :=
  m ← monitor_of t fd e;
  match m with
  | Some (mp, VirtualPerf v) => '(result, v, e) ← vpmc_emulate_fcntl v t r e; Ok (Some result, set_monitor mp (VirtualPerf v) e)
  | _ => Ok (None, e)
  end.

Definition emulate_read (t : Task) (fd : Z) (ranges : list Range) (e : Env) : res (option Z * Env) :=
  m ← monitor_of t fd e;
  match m with
  | Some (_, VirtualPerf v) => '(result, e) ← vpmc_emulate_read v ranges t e; Ok (Some result, e)
  | _ => Ok (None, e)
  end.

(** ** The writes of a system call that ended *)

(** [PWRITE64] and [WRITE] in [on_syscall_exit_common_arch]. *)
Definition on_write_exit (p : Z) (l : LazyOffset) (e : Env) : res Env :=
  let fd := swrap 32 (signed (larch l) (arg1 (lregs l))) in
  let amount := signed (larch l) (syscall_result (lregs l)) in
  did_write p fd (if 0 <? amount then [mkFRange (arg2 (lregs l)) amount] else []) l e.

(** The ranges of the vectors of [PWRITEV] and [WRITEV] that were written. *)
Fixpoint written_ranges (iovecs : list (Z * Z)) (written : Z) : list Range :=
  match iovecs with
  | [] => []
  | (ptr, len) :: iovecs =>
      let amount := Z.min written len in
      if 0 <? amount then mkFRange ptr amount :: written_ranges iovecs (written - amount) else written_ranges iovecs written
  end.

Definition on_writev_exit (p : Z) (iovecs : list (Z * Z)) (l : LazyOffset) (e : Env) : res Env :=
  let fd := swrap 32 (signed (larch l) (arg1 (lregs l))) in
  let written := signed (larch l) (syscall_result (lregs l)) in
  _ ← assert_ (0 <=? written);
  _ ← assert_ (forallb (fun v => v.2 <? 2 ^ 63) iovecs);
  did_write p fd (written_ranges iovecs written) l e.

End Monitors.
End FileMon.
