(* ===== verification/FileMonitorProofs.v ===== *)
(** What the file monitors do: a write to a mapped file reaches the trace wherever the file
    is mapped, offsets found while recording are found again on replay, and virtual
    counters count. *)

From S2P Require Import Prelude MemoryRange KernelMapping TraceeMemory FdTable FdTableProofs FileMonitors.

Module FileMonProofs.
Import Range KMap TMem FdTable FdProofs FileMon.

(** ** Writes to mapped files *)

(** Everything but the trace and the offset of the event. *)
Record same_env (e e' : Env) : Prop := {
  se_recording : recording (world e') = recording (world e);
  se_tasks : w_tasks (world e') = w_tasks (world e);
  se_vms : w_vms (world e') = w_vms (world e);
  se_tables : w_tables (world e') = w_tables (world e);
  se_maps : maps e' = maps e;
  se_emu : emu_files e' = emu_files e;
  se_raw : exists l, raw_data (world e') = raw_data (world e) ++ l }.

Lemma same_env_refl e : same_env e e.
Proof. split; try done. exists []. by rewrite app_nil_r. Qed.

Lemma same_env_trans e1 e2 e3 : same_env e1 e2 -> same_env e2 e3 -> same_env e1 e3.
Proof.
  intros [A1 A2 A3 A4 A5 A6 [la A7]] [B1 B2 B3 B4 B5 B6 [lb B7]]. split; try congruence.
  exists (la ++ lb). by rewrite B7, A7, app_assoc.
Qed.

(** The byte at [a] of the address space [u] is in the trace as it is in memory. *)
Definition recorded (e : Env) (u : VmUid) (a : Z) : Prop := exists p t v addr l,
  w_tasks (world e) !! p = Some t /\ as_ t = u /\ w_vms (world e) !! u = Some v /\
  (rec_tid t, addr, l) ∈ raw_data (world e) /\ addr <= a /\ l !! Z.to_nat (a - addr) = vmem v !! a /\ is_Some (vmem v !! a).

Lemma recorded_mono e e' u a : same_env e e' -> recorded e u a -> recorded e' u a.
Proof.
  intros [_ Et Ev _ _ _ [l' Er]] (p & t & v & addr & l & H1 & H2 & H3 & H4 & H5). exists p, t, v, addr, l.
  rewrite Et, Ev, Er. splits; try done; try tauto. set_solver.
Qed.

(** A fallible record of memory that is all mapped. *)
Lemma record_fallible_ok p t v r e : w_tasks (world e) !! p = Some t -> w_vms (world e) !! as_ t = Some v ->
  0 < start_ r -> start_ r < end_ r -> end_ r < USIZE -> mapped (start_ r) (end_ r - start_ r) (vmem v) ->
  exists e', record_remote_range_fallible t r e = Ok (Some (end_ r - start_ r), e') /\ same_env e e' /\
    forall a, start_ r <= a < end_ r -> recorded e' (as_ t) a.
Proof.
  intros Et Ev H0 Hlt Hb Hm. unfold record_remote_range_fallible, record_remote_fallible, vm. rewrite Ev. cbn [unwrap mbind res_bind].
  assert (Range.size r = end_ r - start_ r) as Hs. { unfold Range.size, ptr_diff. apply wrap_small. change (2 ^ 64) with USIZE. lia. }
  rewrite Hs. destruct (Z.eqb_spec (start_ r) 0); [lia|].
  assert (List.length (read_bytes (Z.to_nat (end_ r - start_ r)) (start_ r) (vmem v)) = Z.to_nat (end_ r - start_ r)) as Hl.
  { apply read_bytes_full. by rewrite Z2Nat.id by lia. }
  rewrite bool_decide_false by (intros E; rewrite E in Hl; cbn in Hl; lia). rewrite andb_false_r. rewrite Hl, Z2Nat.id by lia.
  eexists. split; [done|]. split.
  { split; try done. eexists. cbn. done. }
  intros a Ha. exists p, t, v, (start_ r), (read_bytes (Z.to_nat (end_ r - start_ r)) (start_ r) (vmem v)). cbn. splits; try done.
  - set_solver.
  - lia.
  - rewrite read_bytes_spec, decide_True by lia. f_equal. lia.
  - apply Hm. lia.
Qed.

Section Mapped.
Context `{HashOrder}.

(** The address spaces of the mappings have tasks, and the writer is one of the tasks of
    the session. *)
Definition writer (e : Env) (p : Z) (t : Task) : Prop := linked (world e) /\ recording (world e) = true /\ w_tasks (world e) !! p = Some t.

Lemma writer_same e e' p t : same_env e e' -> writer e p t -> writer e' p t.
Proof.
  intros [E1 E2 E3 E4 _ _ _] ([L1 L2 L3 L4] & Hr & Et). unfold writer. rewrite E1, E2. split; [|done].
  split; rewrite ?E2, ?E3, ?E4; done.
Qed.

Lemma record_mapped_ok p t u v r e : writer e p t -> w_vms (world e) !! u = Some v -> task_set v <> ∅ ->
  0 < start_ r -> start_ r < end_ r -> end_ r < USIZE -> mapped (start_ r) (end_ r - start_ r) (vmem v) ->
  exists e', record_mapped p t u r e = Ok e' /\ same_env e e' /\ forall a, start_ r <= a < end_ r -> recorded e' u a.
Proof.
  intros (Hl & Hr & Et) Ev Hne H0 Hlt Hb Hm. unfold record_mapped, vm. rewrite Ev. cbn [unwrap mbind res_bind].
  rewrite (bool_decide_true (task_set v <> ∅)) by done. cbn [assert_ mbind res_bind]. case_bool_decide as Hu.
  - subst u. destruct (record_fallible_ok p t v r e Et Ev H0 Hlt Hb Hm) as (e' & -> & Hs & Hrec). cbn [mbind res_bind].
    destruct (Z.ltb_spec 0 (end_ r - start_ r)); [|lia]. by exists e'.
  - cbn [mbind res_bind]. assert (p ∉ task_set v) as Hp.
    { intros Hp. destruct (vm_task _ Hl u v p Ev Hp) as (t' & Et' & Hu'). simplify_eq. }
    destruct (hash_order (erase_task p (task_set v))) as [|p' ps] eqn:Eo.
    { exfalso. apply Hne. apply set_eq. intros x. split; [|set_solver]. intros Hx.
      assert (x ∈ hash_order (erase_task p (task_set v))) as Hin; [|rewrite Eo in Hin; set_solver].
      rewrite elem_of_hash_order. unfold erase_task. set_solver. }
    assert (p' ∈ task_set v) as Hp'.
    { assert (p' ∈ hash_order (erase_task p (task_set v))) as Hin by (rewrite Eo; by left).
      rewrite elem_of_hash_order in Hin. unfold erase_task in Hin. set_solver. }
    destruct (vm_task _ Hl u v p' Ev Hp') as (t' & Et' & <-). cbn [record_by_tasks]. unfold task. rewrite Et'. cbn [unwrap mbind res_bind].
    destruct (record_fallible_ok p' t' v r e Et' Ev H0 Hlt Hb Hm) as (e' & -> & Hs & Hrec). cbn [mbind res_bind].
    destruct (Z.ltb_spec 0 (end_ r - start_ r)); [|lia]. by exists e'.
Qed.

(** The number of bytes of a list of ranges. *)
Definition total (ranges : list FileMon.Range) : Z := foldr (fun r n => FileMon.length r + n) 0 ranges.

(** The file byte [b] is in the mapping [m] at this address. *)
Definition file_addr (m : Mapping) (b : Z) : Z := km_start (map m) + b - offset (map m).

(** A mapping in which the memory of a write of [n] bytes at the file offset [o] can be
    recorded.  The mapping is not at a lower address than the file offset it starts at, less
    the offset of the write, and sums of addresses and offsets stay in 64 bits. *)
Record recordable (e : Env) (u : VmUid) (m : Mapping) (o n : Z) : Prop := {
  rc_vm : exists v, w_vms (world e) !! u = Some v /\ task_set v <> ∅ /\
    forall b, o <= b < o + n -> km_start (map m) <= file_addr m b < km_end (map m) -> is_Some (vmem v !! file_addr m b);
  rc_start : 0 < km_start (map m) < km_end (map m);
  rc_end : km_end (map m) < USIZE;
  rc_file : 0 <= offset (map m);
  rc_low : offset (map m) <= km_start (map m) + o;
  rc_off : 0 <= o;
  rc_high : km_start (map m) + o + n < USIZE }.

Lemma recordable_same e e' u m o n : same_env e e' -> recordable e u m o n -> recordable e' u m o n.
Proof. intros Hs [H1 H2 H3 H4 H5 H6 H7]. split; try done. by rewrite (se_vms _ _ Hs). Qed.

Lemma add_in a b : a + b < USIZE -> checked_add a b = Ok (a + b).
Proof. intros Hlt. unfold checked_add. by rewrite (proj2 (Z.ltb_lt _ _) Hlt). Qed.

Lemma sub_in a b : b <= a -> checked_sub a b = Ok (a - b).
Proof. intros Hle. unfold checked_sub. by rewrite (proj2 (Z.leb_le _ _) Hle). Qed.

Lemma mapped_ranges_ok p t u m ranges : forall o e, writer e p t -> Forall (fun r => 0 <= FileMon.length r) ranges -> recordable e u m o (total ranges) ->
  exists e', mapped_ranges p t u m o ranges e = Ok e' /\ same_env e e' /\
    forall b, o <= b < o + total ranges -> km_start (map m) <= file_addr m b < km_end (map m) -> recorded e' u (file_addr m b).
Proof.
  induction ranges as [|r ranges IH]; intros o e Hw Hr Hc; cbn [mapped_ranges total foldr] in *.
  { exists e. split; [done|]. split; [apply same_env_refl|]. lia. }
  fold (total ranges) in *. inversion Hr as [|? ? Hr0 Hr']; subst. destruct Hc as [(v & Ev & Hne & Hm) Hs He Hf Hlo Ho Hh].
  assert (0 <= total ranges) as Ht. { clear -Hr'. induction Hr' as [|x l Hx _ IHl]; cbn; [lia|]. fold (total l). lia. }
  rewrite (add_in (km_start (map m)) o) by lia. cbn [mbind res_bind]. rewrite sub_in by lia. cbn [mbind res_bind].
  unfold new_range, ptr_add. rewrite (wrap_small 64) by (change (2 ^ 64) with USIZE; lia).
  set (s := km_start (map m) + o - offset (map m)). set (rr := intersect (mr (map m)) (mkRange s (s + FileMon.length r))).
  assert (exists e1, (if intersects (mr (map m)) (mkRange s (s + FileMon.length r))
     then if negb (recording (world e)) then f ← unwrap (emu_file m); sz ← checked_add o (FileMon.length r); ensure_size f sz e
          else record_mapped p t u rr e else Ok e) = Ok e1 /\ same_env e e1 /\
     forall b, o <= b < o + FileMon.length r -> km_start (map m) <= file_addr m b < km_end (map m) -> recorded e1 u (file_addr m b)) as (e1 & -> & Hs1 & Hrec1).
  { unfold intersects, file_addr, km_start, km_end in *. cbn [start_ end_]. destruct (Z.ltb_spec (Z.max (start_ (mr (map m))) s) (Z.min (end_ (mr (map m))) (s + FileMon.length r))) as [Hi|Hi].
    - destruct Hw as (Hl & Hrc & Et). rewrite Hrc. cbn [negb].
      destruct (record_mapped_ok p t u v rr e) as (e1 & -> & Hs1 & Hrec); try done; unfold rr, intersect; cbn [start_ end_]; try lia.
      { intros a Ha. specialize (Hm (a - start_ (mr (map m)) + offset (map m))). unfold file_addr, km_start, km_end in Hm.
        replace (start_ (mr (map m)) + (a - start_ (mr (map m)) + offset (map m)) - offset (map m)) with a in Hm by lia. unfold s in *. apply Hm; lia. }
      exists e1. splits; [done|done|]. intros b Hb Hin. apply Hrec. unfold rr, intersect. cbn [start_ end_]. unfold s in *. lia.
    - exists e. splits; [done|apply same_env_refl|]. intros b Hb Hin. exfalso. unfold s in *. lia. }
  cbn [mbind res_bind]. rewrite add_in by lia. cbn [mbind res_bind].
  destruct (IH (o + FileMon.length r) e1) as (e2 & -> & Hs2 & Hrec2); [by eapply writer_same|done| |].
  { eapply recordable_same; [done|]. split; try done; try lia. exists v. splits; [done..|]. intros b Hb. apply Hm. lia. }
  exists e2. splits; [done|by eapply same_env_trans|]. intros b Hb Hin. destruct (decide (b < o + FileMon.length r)).
  - eapply recorded_mono; [done|]. apply Hrec1; [lia|done].
  - apply Hrec2; [lia|done].
Qed.

Context (get_fd_offset : Z -> Z -> Z).

Definition shows_file (device inode : Z) (m : Mapping) : bool :=
  (device_ (map m) =? device) && (inode_ (map m) =? inode) && (Z.land (flags_ (map m)) MAP_SHARED =? MAP_SHARED).

(** The offset of a write that is being recorded is looked up once. *)
Lemma retrieve_recording l o e e0 : recording (world e) = true -> recording (world e0) = true -> retrieve_offset get_fd_offset l e0 = Ok (Some o) ->
  exists e', retrieve get_fd_offset l true e = Ok (Some o, e') /\ same_env e e'.
Proof.
  intros Hr Hr0 Ho. unfold retrieve. rewrite Hr. cbn [negb orb andb assert_ mbind res_bind].
  assert (retrieve_offset get_fd_offset l e = Ok (Some o)) as ->. { revert Ho. unfold retrieve_offset. by rewrite Hr, Hr0. }
  cbn [mbind res_bind]. destruct (is_implicit_offset_syscall (syscallno l)); eexists; (split; [done|]); [|apply same_env_refl].
  split; try done. exists []. cbn. by rewrite app_nil_r.
Qed.

Lemma mapped_did_write_ok p l device inode ranges o ms : forall dead realized e,
  writer e p (lt l) -> retrieve_offset get_fd_offset l e = Ok (Some o) -> (dead = false -> realized = o) ->
  Forall (fun r => 0 <= FileMon.length r) ranges ->
  (forall u m, (u, m) ∈ ms -> shows_file device inode m = true -> recordable e u m o (total ranges)) ->
  exists dead' e', mapped_did_write get_fd_offset p l device inode ms ranges dead realized e = Ok (dead', e') /\ same_env e e' /\
    (dead' = dead && forallb (fun um => negb (shows_file device inode um.2)) ms) /\
    forall u m b, (u, m) ∈ ms -> shows_file device inode m = true -> o <= b < o + total ranges ->
      km_start (map m) <= file_addr m b < km_end (map m) -> recorded e' u (file_addr m b).
Proof.
  induction ms as [|[u m] ms IH]; intros dead realized e Hw Ho Hd Hr Hc; cbn [mapped_did_write forallb].
  { exists dead, e. splits; [done|apply same_env_refl|by rewrite andb_true_r|]. intros u m b Hin. by apply not_elem_of_nil in Hin. }
  pose proof Hw as (_ & Hrec & _). unfold maps_file. rewrite Hrec. cbn [negb mbind res_bind snd]. fold (shows_file device inode m).
  destruct (shows_file device inode m) eqn:Em; cbn [negb andb].
  - assert (exists e1, (if dead then '(o0, e) ← retrieve get_fd_offset l true e; o0 ← unwrap o0; Ok (o0, e) else Ok (realized, e)) = Ok (o, e1) /\ same_env e e1)
      as (e1 & -> & Hs1).
    { destruct dead; [|rewrite Hd by done; exists e; split; [done|apply same_env_refl]].
      destruct (retrieve_recording l o e e Hrec Hrec Ho) as (e1 & -> & Hs). by exists e1. }
    cbn [mbind res_bind]. destruct (mapped_ranges_ok p (lt l) u m ranges o e1) as (e2 & -> & Hs2 & Hrec2);
      [by eapply writer_same|done|eapply recordable_same; [done|apply Hc; [by left|done]]|]. cbn [mbind res_bind].
    pose proof (same_env_trans _ _ _ Hs1 Hs2) as Hs12.
    destruct (IH false o e2) as (dead' & e3 & -> & Hs3 & Hd3 & Hrec3); [by eapply writer_same| |done|done| |].
    { revert Ho. unfold retrieve_offset. by rewrite (se_recording _ _ Hs12). }
    { intros u' m' Hin Hm. eapply recordable_same; [done|]. apply Hc; [by right|done]. }
    exists dead', e3. splits; [done|by eapply same_env_trans|by rewrite Hd3, andb_false_r|].
    intros u' m' b [[= -> ->]|Hin]%elem_of_cons Hm Hb Hin'; [|by apply Hrec3]. eapply recorded_mono; [done|]. by apply Hrec2.
  - destruct (IH dead realized e Hw Ho Hd Hr) as (dead' & e' & -> & Hs & Hd' & Hrec').
    { intros u' m' Hin Hm. apply Hc; [by right|done]. }
    exists dead', e'. splits; try done. intros u' m' b [[= -> ->]|Hin]%elem_of_cons Hm; [congruence|by apply Hrec'].
Qed.

(** C16: when a tracee has written to a file that is mapped, every byte of the write that a
    shared mapping of the file shows is in the trace as it is in memory, for each address
    space and each mapping; the monitor stays alive exactly when there is such a mapping.
    Each shared mapping of the file is [recordable]: its address space has tasks, the bytes
    of the write in it can be read, the address it starts at plus the offset of the write is
    not below the file offset it starts at (otherwise the recorder panics,
    [low_mapping_panics]), and sums of addresses and offsets stay in 64 bits. *)
Theorem mapped_write_recorded p mp l device inode ranges o e :
  writer e p (lt l) -> ranges <> [] -> Forall (fun r => 0 <= FileMon.length r) ranges ->
  retrieve_offset get_fd_offset l e = Ok (Some o) ->
  (forall u m, (u, m) ∈ all_maps e -> shows_file device inode m = true -> recordable e u m o (total ranges)) ->
  exists e', mmapped_did_write get_fd_offset p mp false device inode ranges l e = Ok e' /\
    w_monitors (world e') !! mp = Some (Mmapped (forallb (fun um => negb (shows_file device inode um.2)) (all_maps e)) device inode) /\
    forall u m b, (u, m) ∈ all_maps e -> shows_file device inode m = true -> o <= b < o + total ranges ->
      km_start (map m) <= file_addr m b < km_end (map m) -> recorded e' u (file_addr m b).
Proof.
  intros Hw Hne Hr Ho Hc. unfold mmapped_did_write. rewrite bool_decide_false by done.
  destruct (mapped_did_write_ok p l device inode ranges o (all_maps e) true 0 e) as (dead & e' & -> & Hs & -> & Hrec); try done.
  cbn [mbind res_bind andb]. eexists. split; [done|]. split; [apply lookup_insert_eq|]. intros u m b Hin Hm Hb Ha.
  destruct (Hrec u m b Hin Hm Hb Ha) as (p' & t' & v' & addr & bytes & H'). by exists p', t', v', addr, bytes.
Qed.

(** A mapping below the file offset it starts at stops the recorder, although no byte of the
    write need be in it. *)
Theorem low_mapping_panics p t u m o r ranges e : km_start (map m) + o < offset (map m) -> km_start (map m) + o < USIZE ->
  mapped_ranges p t u m o (r :: ranges) e = Panic.
Proof.
  intros Hlo Hh. cbn [mapped_ranges]. rewrite (add_in (km_start (map m)) o) by lia. cbn [mbind res_bind]. unfold checked_sub.
  destruct (Z.leb_spec (offset (map m)) (km_start (map m) + o)); [lia|done].
Qed.

(** The offset of a write is found again on replay: from the registers, or from the event it
    was recorded in. *)
Theorem offset_replays l l' e e' er o : recording (world e) = true -> recording (world er) = false ->
  retrieve get_fd_offset l true e = Ok (o, e') ->
  larch l' = larch l -> lregs l' = lregs l -> syscallno l' = syscallno l -> frame_write_offset l' = write_offset e' ->
  retrieve get_fd_offset l' true er = Ok (o, er).
Proof.
  intros Hr Hrp E Ha Hre Hsy Hf. unfold retrieve in *. rewrite Hr in E. rewrite Hrp, Hsy. cbn [negb orb andb assert_ mbind res_bind] in *.
  destruct (is_implicit_offset_syscall (syscallno l)) eqn:Hi.
  - apply bind_Ok in E as (o0 & _ & [= <- <-]). rewrite Hf. done.
  - apply bind_Ok in E as (o0 & E & [= <- <-]). assert (retrieve_offset get_fd_offset l' er = Ok o0) as ->; [|done].
    revert E. unfold retrieve_offset. rewrite Ha, Hre, Hsy. unfold is_implicit_offset_syscall in Hi. by destruct (syscallno l).
Qed.

End Mapped.

(** ** Virtual counters *)

(** C37: a virtual counter created with a sampling period registers a weak pointer that points nowhere, since its
    own is set only when the table takes it: the next time the interrupt of the task is asked for rd stops, and
    neither the signal nor dropping the counter removes the entry. *)
Theorem period_at_creation_panics target period e v e1 : recording (world e) = true -> 0 < period < 2 ^ 32 ->
  tasks_with_interrupts e !! tuid target = None -> vpmc_new target true period e = Ok (v, e1) ->
  interrupting_virtual_pmc_for_task target e1 = Panic /\
  forall mp v', set_weak_self mp (VirtualPerf v) = VirtualPerf v' -> disable_interrupt v' e1 = e1.
Proof.
  intros Hr Hp Hn E. unfold vpmc_new, maybe_enable_interrupt in E. rewrite Hr in E. cbn [assert_ mbind res_bind target_tuid_ weak_self] in E.
  apply bind_Ok in E as (tt0 & _ & E). destruct (Z.eqb_spec period 0); [lia|]. destruct (Z.ltb_spec 4294967295 period); [lia|]. cbn [orb] in E.
  rewrite Hn in E. cbn [mbind res_bind] in E. apply bind_Ok in E as (ticks & _ & [= <- <-]). split.
  - unfold interrupting_virtual_pmc_for_task. cbn. by rewrite lookup_insert_eq.
  - intros mp v' [= <-]. unfold disable_interrupt. cbn. by rewrite lookup_insert_eq.
Qed.

(** A counter whose period is set after the table took it is found, and found no more after
    its signal. *)
Theorem period_set_later v mp target after e v1 e1 : weak_self v = Some mp -> w_monitors (world e) !! mp = Some (VirtualPerf v) -> tuid target = target_tuid_ v ->
  0 < after < 2 ^ 32 -> maybe_enable_interrupt v after e = Ok (v1, e1) ->
  interrupting_virtual_pmc_for_task target e1 = Ok (Some mp) /\
  forall e2, synthesize_signal v1 e1 = Ok e2 -> interrupting_virtual_pmc_for_task target e2 = Ok None.
Proof.
  intros Hw Hm Ht Hp E. unfold maybe_enable_interrupt in E. apply bind_Ok in E as (tg & _ & E).
  destruct (Z.eqb_spec after 0); [lia|]. destruct (Z.ltb_spec 4294967295 after); [lia|]. cbn [orb] in E.
  apply bind_Ok in E as (u & _ & E). apply bind_Ok in E as (ticks & _ & [= <- <-]). split.
  - unfold interrupting_virtual_pmc_for_task. cbn. rewrite Ht, lookup_insert_eq, Hw. cbn. by rewrite Hm.
  - intros e2 E2. unfold synthesize_signal in E2. apply bind_Ok in E2 as (? & _ & [= <-]). unfold disable_interrupt. cbn.
    rewrite lookup_insert_eq, bool_decide_true by done. unfold interrupting_virtual_pmc_for_task. cbn. by rewrite Ht, lookup_delete_eq.
Qed.

(** Reading a counter into one buffer that is long enough gives the ticks since it was reset. *)
Theorem counter_read_ok v t target vm0 r e : find_task_from_task_uid (world e) (target_tuid_ v) = Some target ->
  rec_tid t <> (target_tuid_ v).1 -> initial_ticks v <= tick_count target -> w_vms (world e) !! as_ t = Some vm0 -> 8 <= FileMon.length r ->
  mapped (data r) 8 (vmem vm0) ->
  exists e', vpmc_emulate_read v [r] t e = Ok (8, e') /\
    w_vms (world e') !! as_ t = Some (mkVm (task_set vm0) (write_map (data r) (le_bytes 8 (tick_count target - initial_ticks v)) (vmem vm0))).
Proof.
  intros Ht Hne Hi Ev Hl Hm. unfold vpmc_emulate_read. rewrite Ht. destruct (Z.eqb_spec (rec_tid t) (target_tuid_ v).1); [done|].
  rewrite sub_in by done. cbn [mbind res_bind write_ranges]. rewrite Z.min_l by lia.
  rewrite take_ge by (rewrite le_bytes_length; lia). unfold write_bytes_helper, write_bytes, vm. rewrite Ev. cbn [unwrap mbind res_bind].
  rewrite write_mem_ok by (by rewrite le_bytes_length). cbn [mbind res_bind]. eexists. split; [done|]. cbn. apply lookup_insert_eq.
Qed.

(** Split over two buffers the second gets the first bytes again. *)
Theorem split_counter_read_repeats v t target vm0 r1 r2 e : find_task_from_task_uid (world e) (target_tuid_ v) = Some target ->
  rec_tid t <> (target_tuid_ v).1 -> initial_ticks v <= tick_count target -> w_vms (world e) !! as_ t = Some vm0 ->
  FileMon.length r1 = 4 -> FileMon.length r2 = 4 -> mapped (data r1) 4 (vmem vm0) -> mapped (data r2) 4 (vmem vm0) ->
  let ticks := le_bytes 8 (tick_count target - initial_ticks v) in
  exists e', vpmc_emulate_read v [r1; r2] t e = Ok (8, e') /\
    w_vms (world e') !! as_ t = Some (mkVm (task_set vm0) (write_map (data r2) (take 4 ticks) (write_map (data r1) (take 4 ticks) (vmem vm0)))).
Proof.
  intros Ht Hne Hi Ev H1 H2 Hm1 Hm2 ticks. unfold vpmc_emulate_read. rewrite Ht. destruct (Z.eqb_spec (rec_tid t) (target_tuid_ v).1); [done|].
  rewrite sub_in by done. cbn [mbind res_bind write_ranges]. fold ticks. rewrite H1, H2.
  change (8 `min` 4) with 4. change ((8 - 4) `min` 4) with 4. change (Z.to_nat 4) with 4%nat.
  assert (List.length (take 4 ticks) = 4%nat) as Hl by (unfold ticks; rewrite length_take, le_bytes_length; done).
  unfold write_bytes_helper, write_bytes, vm. rewrite Ev. cbn [unwrap mbind res_bind].
  rewrite write_mem_ok by (by rewrite Hl). cbn [mbind res_bind world set_world set_vms w_vms]. rewrite lookup_insert_eq. cbn [unwrap mbind res_bind vmem task_set].
  rewrite write_mem_ok by (rewrite Hl; by apply write_map_mapped). cbn [mbind res_bind]. eexists. split; [done|]. cbn. apply lookup_insert_eq.
Qed.

(** ** Tasks named by unique ids *)

(** A unique id of a task that is gone finds the task that has its thread id now. *)
Theorem stale_uid_found w tid s p t : task_map w !! tid = Some p -> w_tasks w !! p = Some t -> find_task_from_task_uid w (tid, s) = Some t.
Proof. intros Em Et. unfold find_task_from_task_uid, find_task_from_rec_tid. cbn. by rewrite Em. Qed.
End FileMonProofs.
