(* ===== verification/Dirents.v ===== *)
(** Directory entries of [/proc/<tid>/fd]: [src/src/file_monitor/proc_fd_dir_monitor.rs]
    hides the descriptors that belong to rd from the tracee that lists them. *)

From Stdlib Require Import Ascii String.
From S2P Require Import Prelude TraceeMemory FdTable FileMonitors.

Module Dirents.
Import TMem FdTable FileMon.

(** ** Entries in a buffer *)

(** Where an entry has its length and its name. *)
Record Layout := mkLayout { reclen_off : nat; name_off : nat }.

(** [linux_dirent] of the two architectures and [linux_dirent64]. *)
Definition dirent_layout (a : Arch) : Layout := match a with X86 => mkLayout 8 10 | X64 => mkLayout 16 18 end.
Definition dirent64_layout : Layout := mkLayout 16 19.

(** [d_reclen] of the entry at the start of [buf]; it has to be within the buffer. *)
Definition d_reclen (l : Layout) (buf : list Z) : res Z :=
  lo ← unwrap (buf !! reclen_off l); hi ← unwrap (buf !! S (reclen_off l)); Ok (lo + 256 * hi).

(** [str::parse::<i32>] of the text of a name; text that is not UTF-8 has no digits where the
    replacement characters are. *)
Definition digit (b : Z) : option Z := if (48 <=? b) && (b <=? 57) then Some (b - 48) else None.

Fixpoint parse_digits (neg : bool) (acc : Z) (l : list Z) : option Z :=
  match l with
  | [] => Some acc
  | b :: l =>
      d ← digit b;
      let acc := if neg then acc * 10 - d else acc * 10 + d in
      if (acc <? - 2 ^ 31) || (2 ^ 31 - 1 <? acc) then None else parse_digits neg acc l
  end.

Definition parse_i32 (l : list Z) : option Z :=
  match l with
  | [] => None
  | [43] | [45] => None
  | 43 :: l => parse_digits false 0 l
  | 45 :: l => parse_digits true 0 l
  | l => parse_digits false 0 l
  end.

(** Index of the first zero byte. *)
Fixpoint null_at (l : list Z) : option nat :=
  match l with [] => None | b :: l => if b =? 0 then Some O else S <$> null_at l end.

(** [ptr::copy] of [n] bytes from index [from] to index [to]. *)
Definition copy_within (buf : list Z) (from to n : nat) : list Z := take to buf ++ take n (drop from buf) ++ drop (to + n) buf.

(** [filter_dirent_structs]: [hidden] is whether a descriptor belongs to rd.  Offsets are
    indices of the buffer, which keeps its length until the end. *)
Fixpoint filter_loop (hidden : Z -> bool) (l : Layout) (fuel : nat) (buf : list Z) (bytes current_offset size : nat) : res (list Z) :=
  match fuel with
  | O => Spin
  | S fuel =>
      if (current_offset =? size)%nat then Ok (take bytes buf ++ replicate (bytes - List.length buf) 0) else
      _ ← assert_ (current_offset <=? List.length buf)%nat;
      reclen ← d_reclen l (drop current_offset buf);
      let next_off := (current_offset + Z.to_nat reclen)%nat in
      _ ← assert_ (current_offset + name_off l <=? List.length buf)%nat;
      let name_on := drop (current_offset + name_off l) buf in
      n ← unwrap (null_at name_on);
      if match parse_i32 (take n name_on) with Some fd => hidden fd | None => false end then
        _ ← assert_ (next_off <=? size)%nat;
        filter_loop hidden l fuel (copy_within buf next_off current_offset (size - next_off)) bytes current_offset (size - (next_off - current_offset))
      else filter_loop hidden l fuel buf (bytes + Z.to_nat reclen) next_off size
  end.

Definition filter_dirent_structs (hidden : Z -> bool) (l : Layout) (fuel : nat) (buf : list Z) : res (list Z) :=
  filter_loop hidden l fuel buf 0 0 (List.length buf).

(** ** The system call *)

Definition syscall_failed (result : Z) : bool := (-4096 <? swrap 64 result) && (swrap 64 result <? 0).

Section Filter.

(** What the kernel does when the system call is repeated: the results and the bytes it puts
    at the start of the buffer, one after another. *)
Fixpoint filter_dirents_loop (hidden : Z -> bool) (l : Layout) (fuel : nat) (t : Task) (ptr len result : Z) (kernel : list (Z * list Z)) (e : Env) : res (Z * Env) :=
  buf ← read_bytes_helper t ptr len e;
  let buf := take (Z.to_nat result) buf ++ replicate (Z.to_nat result - List.length buf) 0 in
  buf ← filter_dirent_structs hidden l fuel buf;
  if bool_decide (buf <> []) then
    e ← write_bytes_helper t ptr buf e;
    let bytes := Z.of_nat (List.length buf) in
    e ← (if bytes <? len then record_remote t (wrap 64 (ptr + bytes)) (len - bytes) e else Ok e);
    Ok (bytes, e)
  else match kernel with
       | [] => Spin
       | (result, data) :: kernel =>
           e ← write_bytes_helper t ptr data e;
           if syscall_failed result || (result =? 0) then e ← record_remote t ptr len e; Ok (result, e)
           else filter_dirents_loop hidden l fuel t ptr len result kernel e
       end.

(** [t.fd_table().is_rd_fd(fd)]. *)
Definition hidden_fd (t : Task) (e : Env) (fd : Z) : bool := match is_rd_fd t fd e with Ok b => b | _ => false end.

(** The result of the system call and what it leaves behind. *)
Definition filter_dirents (getdents64 : bool) (a : Arch) (fuel : nat) (t : Task) (r : Registers) (kernel : list (Z * list Z)) (e : Env) : res (Z * Env) :=
  if syscall_failed (syscall_result r) || (syscall_result r =? 0) then Ok (syscall_result r, e)
  else filter_dirents_loop (hidden_fd t e) (if getdents64 then dirent64_layout else dirent_layout a) fuel t (arg2 r) (arg3 r) (syscall_result r) kernel e.

(** [FdTable::filter_getdents] and [ProcFdDirMonitor::filter_getdents]. *)
Definition filter_getdents (fd : Z) (getdents64 : bool) (a : Arch) (fuel : nat) (t : Task) (r : Registers)
    (kernel : list (Z * list Z)) (e : Env) : res (Z * Env) :=
  m ← monitor_of t fd e;
  match m with
  | Some (_, ProcFd maybe_tuid) =>
      _ ← assert_ (recording (world e));
      match maybe_tuid with
      | None => Ok (syscall_result r, e)
      | Some u => match find_task_from_task_uid (world e) u with
                  | None => Ok (syscall_result r, e)
                  | Some _ => filter_dirents getdents64 a fuel t r kernel e
                  end
      end
  | _ => Ok (syscall_result r, e)
  end.

(** ** The task a path of [/proc] names *)

(** [Path::components]: the parts between slashes, without empty ones and dots. *)
Inductive Component := RootDir | CurDir | ParentDir | Normal (s : list Z).

Fixpoint split_slash (acc l : list Z) : list (list Z) :=
  match l with
  | [] => [rev acc]
  | b :: l => if b =? 47 then rev acc :: split_slash [] l else split_slash (b :: acc) l
  end.

Definition component (s : list Z) : list Component :=
  if bool_decide (s = []) || bool_decide (s = [46]) then [] else if bool_decide (s = [46; 46]) then [ParentDir] else [Normal s].

Definition components (path : list Z) : list Component :=
  match path with
  | 47 :: rest => RootDir :: (split_slash [] rest ≫= component)
  | _ => match split_slash [] path with
         | [46] :: rest => CurDir :: (rest ≫= component)
         | parts => parts ≫= component
         end
  end.

(** [ProcFdDirMonitor::new] and [ProcMemMonitor::new] for the last part [what]: only the
    first four parts of the path are looked at. *)
Definition proc_task (what : list Z) (t : Task) (path : list Z) (w : World) : res (option TaskUid) :=
  match components path with
  | RootDir :: Normal proc :: Normal tid :: Normal last :: _ =>
      if bool_decide (proc = bytes_of "proc"%string) && bool_decide (last = what) then
        tid ← unwrap (parse_i32 tid);
        Ok (if rec_tid t =? tid then Some (tuid t) else tuid <$> find_task_from_rec_tid w tid)
      else Ok None
  | _ => Ok None
  end.

Definition proc_fd_new (t : Task) (path : list Z) (w : World) : res FileMonitor := u ← proc_task (bytes_of "fd"%string) t path w; Ok (ProcFd u).
Definition proc_mem_new (t : Task) (path : list Z) (w : World) : res FileMonitor := u ← proc_task (bytes_of "mem"%string) t path w; Ok (ProcMem u).

End Filter.
End Dirents.
