(* ===== verification/DirentProofs.v ===== *)
(** Listing the descriptors of a tracee shows those of the tracee, as the kernel lists them,
    and none of rd's. *)

From S2P Require Import Prelude TraceeMemory FdTable FileMonitors Dirents.

Module DirentProofs.
Import TMem FdTable FileMon Dirents.

(** ** Entries *)

(** What comes before the length, between the length and the name, the name, and padding. *)
Record Dirent := mkDirent { d_head : list Z; d_mid : list Z; d_name : list Z; d_pad : list Z }.

Definition reclen (e : Dirent) : nat :=
  (List.length (d_head e) + 2 + List.length (d_mid e) + List.length (d_name e) + 1 + List.length (d_pad e))%nat.

(** The bytes of an entry. *)
Definition enc (e : Dirent) : list Z := d_head e ++ le_bytes 2 (Z.of_nat (reclen e)) ++ d_mid e ++ d_name e ++ [0] ++ d_pad e.

Definition encs (es : list Dirent) : list Z := e ← es; enc e.

Record entry_ok (l : Layout) (e : Dirent) : Prop := {
  ok_head : List.length (d_head e) = reclen_off l;
  ok_mid : (reclen_off l + 2 + List.length (d_mid e))%nat = name_off l;
  ok_name : Forall (fun b => b <> 0) (d_name e);
  ok_len : Z.of_nat (reclen e) < 65536 }.

Lemma enc_length e : List.length (enc e) = reclen e.
Proof. unfold enc, reclen. rewrite !length_app, le_bytes_length. cbn. lia. Qed.

(** The length read back. *)
Lemma d_reclen_enc l e post : entry_ok l e -> d_reclen l (enc e ++ post) = Ok (Z.of_nat (reclen e)).
Proof.
  intros [Hh _ _ Hl]. unfold d_reclen, enc. rewrite <- Hh. rewrite <- !app_assoc.
  rewrite (lookup_app_r (d_head e) _ (List.length (d_head e))), Nat.sub_diag by lia.
  rewrite (lookup_app_r (d_head e) _ (S (List.length (d_head e)))) by lia. replace (S (List.length (d_head e)) - List.length (d_head e))%nat with 1%nat by lia.
  cbn [le_bytes app lookup list_lookup unwrap mbind res_bind]. f_equal.
  assert (0 <= Z.of_nat (reclen e) < 65536) as Hv by lia. revert Hv. generalize (Z.of_nat (reclen e)). intros v Hv.
  rewrite (Z.mod_small (v / 256) 256) by (split; [apply Z.div_pos; lia|apply Z.div_lt_upper_bound; lia]).
  pose proof (Z.div_mod v 256). lia.
Qed.

Lemma null_at_name name rest : Forall (fun b => b <> 0) name -> null_at (name ++ 0 :: rest) = Some (List.length name).
Proof.
  induction 1 as [|b name Hb _ IH]; cbn; [done|]. destruct (Z.eqb_spec b 0); [done|]. by rewrite IH.
Qed.

Lemma name_enc l e post : entry_ok l e -> drop (name_off l) (enc e ++ post) = d_name e ++ 0 :: d_pad e ++ post.
Proof.
  intros [Hh Hm _ _]. unfold enc. rewrite <- !app_assoc. rewrite drop_app_ge by lia. rewrite drop_app_ge by (rewrite le_bytes_length; lia).
  rewrite drop_app_ge by (rewrite le_bytes_length; lia). rewrite le_bytes_length.
  replace (name_off l - List.length (d_head e) - 2 - List.length (d_mid e))%nat with 0%nat by lia. done.
Qed.

Section Loop.
Context (hidden : Z -> bool) (l : Layout).

Definition hides (e : Dirent) : bool := match parse_i32 (d_name e) with Some fd => hidden fd | None => false end.

(** The entries the tracee sees. *)
Definition visible (es : list Dirent) : list Dirent := List.filter (fun e => negb (hides e)) es.

Lemma filter_loop_ok es : forall fuel pre junk, Forall (entry_ok l) es -> (List.length es < fuel)%nat ->
  filter_loop hidden l fuel (pre ++ encs es ++ junk) (List.length pre) (List.length pre) (List.length pre + List.length (encs es)) = Ok (pre ++ encs (visible es)).
Proof.
  induction es as [|e es IH]; intros fuel pre junk Hok Hf; (destruct fuel as [|fuel]; [cbn in Hf; lia|]); cbn [filter_loop].
  { cbn. rewrite Nat.add_0_r, Nat.eqb_refl. rewrite take_app_length, app_nil_r. rewrite length_app.
    replace (List.length pre - (List.length pre + List.length junk))%nat with 0%nat by lia. cbn. by rewrite app_nil_r. }
  inversion Hok as [|? ? He Hok']; subst. pose proof (enc_length e) as Hel. assert (0 < reclen e)%nat as Hpos by (unfold reclen; lia).
  change (encs (e :: es)) with (enc e ++ encs es). rewrite <- app_assoc. rewrite !length_app, Hel.
  destruct (Nat.eqb_spec (List.length pre) (List.length pre + (reclen e + List.length (encs es)))); [lia|].
  rewrite (proj2 (Nat.leb_le (List.length pre) _)) by lia. cbn [assert_ mbind res_bind]. rewrite drop_app_length.
  rewrite (d_reclen_enc l e) by done. cbn [mbind res_bind]. rewrite Nat2Z.id.
  assert (name_off l <= reclen e)%nat as Hno. { destruct He as [Hh Hm _ _]. unfold reclen. lia. }
  rewrite (proj2 (Nat.leb_le (List.length pre + name_off l) _)) by lia. cbn [assert_ mbind res_bind]. rewrite <- drop_drop, drop_app_length, (name_enc l e) by done.
  rewrite null_at_name by apply He. cbn [unwrap mbind res_bind]. rewrite take_app_length. fold (hides e). cbn [visible List.filter].
  destruct (hides e) eqn:Eh; cbn [negb].
  - rewrite (proj2 (Nat.leb_le (List.length pre + reclen e) _)) by lia. cbn [assert_ mbind res_bind].
    replace (List.length pre + (reclen e + List.length (encs es)) - (List.length pre + reclen e))%nat with (List.length (encs es)) by lia.
    assert (copy_within (pre ++ enc e ++ encs es ++ junk) (List.length pre + reclen e) (List.length pre) (List.length (encs es)) =
      pre ++ encs es ++ drop (List.length pre + List.length (encs es)) (pre ++ enc e ++ encs es ++ junk)) as ->.
    { unfold copy_within. rewrite take_app_length. f_equal. f_equal. rewrite <- drop_drop, drop_app_length, <- Hel, drop_app_length. by rewrite take_app_length. }
    replace (List.length pre + (reclen e + List.length (encs es)) - (List.length pre + reclen e - List.length pre))%nat
      with (List.length pre + List.length (encs es))%nat by lia.
    apply IH; [done|cbn in Hf; lia].
  - fold (visible es). change (encs (e :: visible es)) with (enc e ++ encs (visible es)). rewrite !(app_assoc pre (enc e)).
    assert (List.length (pre ++ enc e) = (List.length pre + reclen e)%nat) as Hlen by (rewrite length_app, Hel; done).
    rewrite <- Hlen. replace (List.length pre + (reclen e + List.length (encs es)))%nat with (List.length (pre ++ enc e) + List.length (encs es))%nat by lia.
    apply IH; [done|cbn in Hf; lia].
Qed.

Lemma filter_structs_ok es fuel : Forall (entry_ok l) es -> (List.length es < fuel)%nat -> filter_dirent_structs hidden l fuel (encs es) = Ok (encs (visible es)).
Proof. intros Hok Hf. unfold filter_dirent_structs. pose proof (filter_loop_ok es fuel [] [] Hok Hf) as E. cbn [app List.length] in E. by rewrite app_nil_r in E. Qed.

(** ** Repeated system calls *)

(** Memory has the bytes [bs] at [ptr]. *)
Definition holds (m : Memory) (ptr : Z) (bs : list Z) : Prop := forall i b, bs !! i = Some b -> m !! (ptr + Z.of_nat i) = Some b.

Lemma write_holds m ptr bs : holds (write_map ptr bs m) ptr bs.
Proof.
  intros i b E. pose proof (lookup_lt_Some _ _ _ E). rewrite write_map_lookup, decide_True by lia. rewrite <- E. f_equal. lia.
Qed.

(** A buffer that starts with [bs], read and cut to the length of [bs]. *)
Lemma read_holds t v ptr len bs e : w_vms (world e) !! as_ t = Some v -> mapped ptr len (vmem v) -> holds (vmem v) ptr bs -> Z.of_nat (List.length bs) <= len ->
  exists buf, read_bytes_helper t ptr len e = Ok buf /\ take (List.length bs) buf ++ replicate (List.length bs - List.length buf) 0 = bs.
Proof.
  intros Ev Hm Hh Hl. destruct (read_mem_ok ptr len (vmem v)) as (buf & E & Hlen & Hb); [lia|done|]. exists buf. unfold read_bytes_helper, vm. rewrite Ev. cbn [unwrap mbind res_bind].
  split; [done|]. replace (List.length bs - List.length buf)%nat with 0%nat by lia. cbn. rewrite app_nil_r. apply list_eq. intros i.
  destruct (bs !! i) as [b|] eqn:Ei.
  - pose proof (lookup_lt_Some _ _ _ Ei). rewrite lookup_take_lt by lia. rewrite <- (Hh i b Ei), (Hb (ptr + Z.of_nat i)) by lia. f_equal. lia.
  - apply lookup_ge_None_2. apply lookup_ge_None in Ei. rewrite length_take. lia.
Qed.

(** [a] is in a record of the trace made after [e], as it is in memory. *)
Definition newly_recorded (e e' : Env) (t : Task) (m : Memory) (a : Z) : Prop := exists recs addr bs,
  raw_data (world e') = raw_data (world e) ++ recs /\ (rec_tid t, addr, bs) ∈ recs /\ addr <= a /\ bs !! Z.to_nat (a - addr) = m !! a /\ is_Some (m !! a).

Lemma record_remote_new t v ptr len e : w_vms (world e) !! as_ t = Some v -> 0 < ptr -> 0 <= len -> mapped ptr len (vmem v) ->
  exists e', record_remote t ptr len e = Ok e' /\ w_vms (world e') = w_vms (world e) /\ forall a, ptr <= a < ptr + len -> newly_recorded e e' t (vmem v) a.
Proof.
  intros Ev Hp Hl Hm. unfold record_remote. destruct (Z.eqb_spec ptr 0); [lia|]. unfold read_bytes_helper, vm. rewrite Ev. cbn [unwrap mbind res_bind].
  destruct (read_mem_ok ptr len (vmem v) Hl Hm) as (buf & -> & Hlen & Hb). cbn [mbind res_bind]. eexists. split; [done|]. split; [done|].
  intros a Ha. exists [(rec_tid t, ptr, buf)], ptr, buf. cbn. splits; [done|by left|lia|by rewrite Hb|by apply Hm].
Qed.

(** The kernel's buffers, one per system call, and the end of the directory. *)
Definition responses (ess : list (list Dirent)) : list (Z * list Z) := ((fun es => (Z.of_nat (List.length (encs es)), encs es)) <$> ess) ++ [(0, [])].

(** The first buffer with entries for the tracee, without the others. *)
Fixpoint first_visible (ess : list (list Dirent)) : list Dirent :=
  match ess with [] => [] | es :: ess => match visible es with [] => first_visible ess | vis => vis end end.

Record buffer_ok (fuel : nat) (len : Z) (es : list Dirent) : Prop := {
  bo_entries : Forall (entry_ok l) es;
  bo_some : es <> [];
  bo_fits : Z.of_nat (List.length (encs es)) <= len;
  bo_fuel : (List.length es < fuel)%nat }.

Lemma encs_nil es : encs es = [] <-> es = [].
Proof.
  split; [|by intros ->]. destruct es as [|e es]; [done|]. change (encs (e :: es)) with (enc e ++ encs es). intros E. apply (f_equal List.length) in E.
  rewrite length_app, enc_length in E. unfold reclen in E. cbn in E. lia.
Qed.

Lemma encs_visible es : (List.length (encs (visible es)) <= List.length (encs es))%nat.
Proof.
  induction es as [|e es IH]; [done|]. cbn [visible List.filter]. fold (visible es). change (encs (e :: es)) with (enc e ++ encs es). rewrite length_app.
  destruct (negb (hides e)); [|lia]. change (encs (e :: visible es)) with (enc e ++ encs (visible es)). rewrite length_app. lia.
Qed.

Lemma write_vm t v addr bs e : w_vms (world e) !! as_ t = Some v -> mapped addr (Z.of_nat (List.length bs)) (vmem v) ->
  exists e', write_bytes_helper t addr bs e = Ok e' /\ w_vms (world e') !! as_ t = Some (mkVm (task_set v) (write_map addr bs (vmem v))) /\
    raw_data (world e') = raw_data (world e).
Proof.
  intros Ev Hm. unfold write_bytes_helper, write_bytes, vm. rewrite Ev. cbn [unwrap mbind res_bind]. rewrite write_mem_ok by done. cbn [mbind res_bind].
  eexists. split; [done|]. cbn. split; [apply lookup_insert_eq|done].
Qed.

Lemma not_failed n : 0 <= n < 2 ^ 62 -> syscall_failed n = false.
Proof. intros Hn. unfold syscall_failed. rewrite swrap_small by lia. destruct (Z.ltb_spec n 0); [lia|]. apply andb_false_r. Qed.

(** One turn of the loop, after the buffer has been filtered. *)
Lemma filter_dirents_turn fuel t v ptr len es kernel e : w_vms (world e) !! as_ t = Some v -> mapped ptr len (vmem v) ->
  holds (vmem v) ptr (encs es) -> buffer_ok fuel len es ->
  filter_dirents_loop hidden l fuel t ptr len (Z.of_nat (List.length (encs es))) kernel e =
    (let buf := encs (visible es) in
     if bool_decide (buf <> []) then
       e ← write_bytes_helper t ptr buf e;
       let bytes := Z.of_nat (List.length buf) in
       e ← (if bytes <? len then record_remote t (wrap 64 (ptr + bytes)) (len - bytes) e else Ok e);
       Ok (bytes, e)
     else match kernel with
          | [] => Spin
          | (result, data) :: kernel =>
              e ← write_bytes_helper t ptr data e;
              if syscall_failed result || (result =? 0) then e ← record_remote t ptr len e; Ok (result, e)
              else filter_dirents_loop hidden l fuel t ptr len result kernel e
          end).
Proof.
  intros Ev Hm Hh [He _ Hfit Hfuel]. destruct (read_holds t v ptr len (encs es) e Ev Hm Hh Hfit) as (buf & Ebuf & Hbuf).
  destruct kernel as [|[result bs] kernel]; cbn [filter_dirents_loop]; rewrite Ebuf; cbn [mbind res_bind]; rewrite Nat2Z.id, Hbuf;
    rewrite (filter_structs_ok es fuel He Hfuel); done.
Qed.

(** A buffer with entries for the tracee ends the loop. *)
Lemma visible_turn fuel t v ptr len es kernel e : w_vms (world e) !! as_ t = Some v -> 0 < ptr -> ptr + len < USIZE -> mapped ptr len (vmem v) ->
  holds (vmem v) ptr (encs es) -> buffer_ok fuel len es -> visible es <> [] ->
  exists e' v', filter_dirents_loop hidden l fuel t ptr len (Z.of_nat (List.length (encs es))) kernel e = Ok (Z.of_nat (List.length (encs (visible es))), e') /\
    w_vms (world e') !! as_ t = Some v' /\ holds (vmem v') ptr (encs (visible es)) /\
    forall a, ptr + Z.of_nat (List.length (encs (visible es))) <= a < ptr + len -> newly_recorded e e' t (vmem v') a.
Proof.
  intros Ev Hp Hb Hm Hh Hok Hvis. rewrite (filter_dirents_turn fuel t v) by done. cbn zeta. rewrite bool_decide_true by (by rewrite encs_nil).
  pose proof (encs_visible es) as Hle. pose proof (bo_fits _ _ _ Hok) as Hfit. set (n := List.length (encs (visible es))) in *.
  destruct (write_vm t v ptr (encs (visible es)) e Ev) as (e1 & -> & Ev1 & Er1); [intros a Ha; apply Hm; fold n in Ha; lia|]. cbn [mbind res_bind].
  destruct (Z.ltb_spec (Z.of_nat n) len) as [Hlt|Hge].
  - rewrite (wrap_small 64) by (change (2 ^ 64) with USIZE; lia).
    destruct (record_remote_new t _ (ptr + Z.of_nat n) (len - Z.of_nat n) e1 Ev1) as (e2 & -> & Ev2 & Hrec); [lia|lia|apply write_map_mapped; intros a Ha; apply Hm; lia|].
    cbn [mbind res_bind]. exists e2. eexists. rewrite Ev2. splits; [done|exact Ev1|apply write_holds|]. intros a Ha. unfold newly_recorded. rewrite <- Er1. apply Hrec. lia.
  - cbn [mbind res_bind]. exists e1. eexists. splits; [done|exact Ev1|apply write_holds|]. lia.
Qed.

(** The loop ends with the first buffer that has entries for the tracee, or at the end of
    the directory. *)
Lemma filter_dirents_loop_ok fuel t ptr len ess : forall es v e, w_vms (world e) !! as_ t = Some v -> 0 < ptr -> ptr + len < USIZE -> len < 2 ^ 62 -> mapped ptr len (vmem v) ->
  holds (vmem v) ptr (encs es) -> buffer_ok fuel len es -> Forall (buffer_ok fuel len) ess ->
  let vis := encs (first_visible (es :: ess)) in
  exists e' v', filter_dirents_loop hidden l fuel t ptr len (Z.of_nat (List.length (encs es))) (responses ess) e = Ok (Z.of_nat (List.length vis), e') /\
    w_vms (world e') !! as_ t = Some v' /\ holds (vmem v') ptr vis /\
    forall a, ptr + Z.of_nat (List.length vis) <= a < ptr + len -> newly_recorded e e' t (vmem v') a.
Proof.
  induction ess as [|es' ess IH]; intros es v e Ev Hp Hb Hlen Hm Hh Hok Hess vis; unfold vis; cbn [first_visible];
    (destruct (visible es) as [|x xs] eqn:Evis; [|rewrite <- Evis; eapply visible_turn; try done; by rewrite Evis]);
    rewrite (filter_dirents_turn fuel t v) by done; cbn zeta; rewrite Evis; cbn [encs mbind list_bind app]; rewrite bool_decide_false by tauto.
  - cbn [responses fmap list_fmap app]. destruct (write_vm t v ptr [] e Ev) as (e1 & -> & Ev1 & Er1); [intros a Ha; cbn in Ha; lia|].
    cbn [mbind res_bind]. change (syscall_failed 0 || (0 =? 0)) with true. cbn match.
    pose proof (bo_fits _ _ _ Hok) as Hfit.
    destruct (record_remote_new t _ ptr len e1 Ev1) as (e2 & -> & Ev2 & Hrec); [lia|lia|done|]. cbn [mbind res_bind]. exists e2. eexists. rewrite Ev2.
    splits; [done|exact Ev1|done|]. intros a Ha. unfold newly_recorded. rewrite <- Er1. apply Hrec. cbn in Ha. lia.
  - inversion Hess as [|? ? Hok' Hess']; subst. pose proof Hok' as [He' Hsome' Hfit' Hfuel'].
    change (responses (es' :: ess)) with ((Z.of_nat (List.length (encs es')), encs es') :: responses ess). cbn match.
    destruct (write_vm t v ptr (encs es') e Ev) as (e1 & -> & Ev1 & Er1); [intros a Ha; apply Hm; lia|]. cbn [mbind res_bind].
    assert (0 < Z.of_nat (List.length (encs es'))) as Hpos. { rewrite <- encs_nil in Hsome'. destruct (encs es'); [done|cbn; lia]. }
    rewrite not_failed by lia.
    destruct (Z.eqb_spec (Z.of_nat (List.length (encs es'))) 0); [lia|]. cbn [orb].
    destruct (IH es' _ e1 Ev1 Hp Hb Hlen) as (e2 & v2 & -> & Ev2 & Hh2 & Hrec); [by apply write_map_mapped|apply write_holds|done|done|].
    exists e2, v2. splits; try done. intros a Ha. unfold newly_recorded. rewrite <- Er1. by apply Hrec.
Qed.

Lemma first_visible_shown ess d f : d ∈ first_visible ess -> parse_i32 (d_name d) = Some f -> hidden f = false.
Proof.
  intros Hin Hp. induction ess as [|es ess IH]; cbn [first_visible] in Hin; [by apply not_elem_of_nil in Hin|].
  destruct (visible es) as [|x xs] eqn:E; [by apply IH|]. rewrite <- E in Hin.
  apply list_elem_of_In, List.filter_In in Hin as [_ Hh]. unfold hides in Hh. rewrite Hp in Hh. by destruct (hidden f).
Qed.

End Loop.

(** C17: a tracee that lists the descriptors of a task it shares a recording with gets the entries of the first
    buffer of the kernel that has one for it, byte for byte and in order, without those of descriptors that its
    own table gives to rd, with the length that is left as the result and at the end of the directory 0; what the kernel had
    written beyond them is recorded. *)
Theorem listing_hides_rd_fds fd mp u target getdents64 a fuel t r es ess v e :
  let lay := if getdents64 : bool then dirent64_layout else dirent_layout a in
  let hidden := hidden_fd t e in
  let len := arg3 r in let ptr := arg2 r in
  monitor_of t fd e = Ok (Some (mp, ProcFd (Some u))) -> recording (world e) = true -> find_task_from_task_uid (world e) u = Some target ->
  w_vms (world e) !! as_ t = Some v -> 0 < ptr -> ptr + len < USIZE -> len < 2 ^ 62 -> mapped ptr len (vmem v) ->
  syscall_result r = Z.of_nat (List.length (encs es)) -> holds (vmem v) ptr (encs es) ->
  buffer_ok lay fuel len es -> Forall (buffer_ok lay fuel len) ess ->
  let shown := first_visible hidden (es :: ess) in
  exists e' v', filter_getdents fd getdents64 a fuel t r (responses ess) e = Ok (Z.of_nat (List.length (encs shown)), e') /\
    w_vms (world e') !! as_ t = Some v' /\ holds (vmem v') ptr (encs shown) /\
    (forall d f, d ∈ shown -> parse_i32 (d_name d) = Some f -> hidden f = false) /\
    forall b, ptr + Z.of_nat (List.length (encs shown)) <= b < ptr + len -> newly_recorded e e' t (vmem v') b.
Proof.
  intros lay hidden len ptr Em Hr Ht Ev Hp Hb Hlen Hm Hres Hh Hok Hess shown.
  destruct (filter_dirents_loop_ok hidden lay fuel t ptr len ess es v e) as (e' & v' & E & Ev' & Hh' & Hrec); try done.
  exists e', v'. splits; try done; [|intros d f; apply first_visible_shown].
  unfold filter_getdents. rewrite Em. cbn [mbind res_bind]. rewrite Hr. cbn [assert_ mbind res_bind]. rewrite Ht. unfold filter_dirents. rewrite Hres.
  assert (0 < Z.of_nat (List.length (encs es)) <= len) as Hpos.
  { destruct Hok as [_ Hsome Hfit _]. rewrite <- encs_nil in Hsome. destruct (encs es); [done|cbn in *; lia]. }
  rewrite not_failed by lia.
  destruct (Z.eqb_spec (Z.of_nat (List.length (encs es))) 0); [lia|]. exact E.
Qed.
End DirentProofs.
