(* ===== verification/FileMonitorExamples.v ===== *)
(** The theorems on file monitors at concrete tracees. *)

From Stdlib Require Import Ascii String.
From S2P Require Import Prelude MemoryRange KernelMapping TraceeMemory FdTable FdTableProofs FdTableExamples FileMonitors FileMonitorProofs Dirents DirentProofs.

Module FileMonExamples.
Import Range KMap TMem FdTable FdProofs FdExamples FileMon FileMonProofs Dirents DirentProofs.

(** One task whose descriptor 5 is [/proc/100/fd], 1000 belongs to rd and 7 is a file that is
    mapped. *)
Definition task0 : Task := mkTask 100 0 (100, 0, 0) 10 0 (-1) (-1) 0.
Definition table0 : FdTable := mkFdTable {[1]} (<[5:=50]> (<[1000:=51]> (<[7:=52]> ∅))) 0.
Definition monitors0 : gmap Z FileMonitor := <[50:=ProcFd (Some (100, 0))]> (<[51:=Preserve]> (<[52:=Mmapped false 8 9]> ∅)).
Definition world0 (m : Memory) : World :=
  mkWorld true {[1 := task0]} {[10 := table0]} {[(100, 0, 0) := mkVm {[1]} m]} monitors0 {[100 := 1]} 1 [].
Definition env0 (m : Memory) (ms : list (VmUid * list Mapping)) : Env :=
  mkEnv (world0 m) ms ∅ None [] [] ∅ [] (mkStdio false false false false false 100 0).

(** ** A listing *)

Definition entry (name : string) (pad : nat) : Dirent := mkDirent (replicate 16 0) [4] (bytes_of name) (replicate pad 0).
Definition dir0 : list Dirent := [entry "3" 3; entry "1000" 0]%string.
Definition mem_dir : Memory := write_map 8192 (encs dir0) (sevens 8192 64).
Definition regs_dir : Registers := mkRegs 5 8192 64 0 0 48.

Lemma dir0_ok : buffer_ok dirent64_layout 5 64 dir0.
Proof.
  split; [|done|vm_compute; done|cbn; lia]. repeat constructor; try (vm_compute; done); repeat constructor; vm_compute; done.
Qed.

(** Of the two entries the tracee sees its own. *)
Example dir0_shown : first_visible (hidden_fd task0 (env0 mem_dir [])) [dir0] = [entry "3"%string 3].
Proof. vm_compute. reflexivity. Qed.

Lemma listing_hides_rd_fds_witness :
  let e := env0 mem_dir [] in let shown := first_visible (hidden_fd task0 e) [dir0] in
  exists e' v', filter_getdents 5 true X64 5 task0 regs_dir (responses []) e = Ok (Z.of_nat (List.length (encs shown)), e') /\
    w_vms (world e') !! as_ task0 = Some v' /\ holds (vmem v') 8192 (encs shown) /\
    (forall d f, d ∈ shown -> parse_i32 (d_name d) = Some f -> hidden_fd task0 e f = false) /\
    forall b, 8192 + Z.of_nat (List.length (encs shown)) <= b < 8192 + 64 -> newly_recorded e e' task0 (vmem v') b.
Proof.
  apply (listing_hides_rd_fds 5 50 (100, 0) task0 true X64 5 task0 regs_dir dir0 [] (mkVm {[1]} mem_dir)).
  - done.
  - done.
  - done.
  - done.
  - done.
  - done.
  - done.
  - apply write_map_mapped. exact (sevens_mapped 8192 64).
  - done.
  - apply write_holds.
  - exact dir0_ok.
  - constructor.
Defined.

(** ** A write to a mapped file *)

Definition mapping0 : Mapping :=
  let km := mkKM (mkRange 4096 8192) (os "/f"%string) 8 9 3 MAP_SHARED 0 in mkMapping km km None None None None 0.
Definition env_map : Env := env0 (sevens 4096 (Z.to_nat 4096)) [((100, 0, 0), [mapping0])].
Definition lazy0 : LazyOffset := mkLazy task0 X64 (mkRegs 7 100 10 20 0 10) PWRITE64 None.
Definition no_offset (tid fd : Z) : Z := 0.

#[local] Existing Instance elements_order.

Lemma env_map_linked m : linked (world0 m).
Proof.
  split; cbn.
  - intros p t [<- <-]%lookup_singleton_Some. exists table0. split; [done|]. cbn. set_solver.
  - intros q tb p [<- <-]%lookup_singleton_Some Hp. assert (p = 1) as -> by (cbn in Hp; set_solver). exists task0. done.
  - intros p t [<- <-]%lookup_singleton_Some. eexists. split; [done|]. cbn. set_solver.
  - intros u v p [<- <-]%lookup_singleton_Some Hp. assert (p = 1) as -> by (cbn in Hp; set_solver). exists task0. done.
Qed.

Lemma env_map_recordable u m : (u, m) ∈ all_maps env_map -> recordable env_map u m 20 10.
Proof.
  intros Hin. assert ((u, m) = ((100, 0, 0), mapping0)) as [= -> ->].
  { apply list_elem_of_singleton. exact Hin. }
  split; cbn; try lia. eexists. splits; [done|set_solver|]. intros b _ Hb. apply (sevens_mapped 4096 (Z.to_nat 4096)). change (Z.of_nat (Z.to_nat 4096)) with 4096. lia.
Qed.

Lemma mapped_write_recorded_witness :
  exists e', mmapped_did_write no_offset 1 52 false 8 9 [mkFRange 100 10] lazy0 env_map = Ok e' /\
    w_monitors (world e') !! 52 = Some (Mmapped (forallb (fun um => negb (shows_file 8 9 um.2)) (all_maps env_map)) 8 9) /\
    forall u m b, (u, m) ∈ all_maps env_map -> shows_file 8 9 m = true -> 20 <= b < 20 + total [mkFRange 100 10] ->
      km_start (map m) <= file_addr m b < km_end (map m) -> recorded e' u (file_addr m b).
Proof.
  apply (mapped_write_recorded no_offset 1 52 lazy0 8 9 [mkFRange 100 10] 20 env_map).
  - split; [apply env_map_linked|]. split; [done|]. done.
  - done.
  - constructor; [cbn; lia|constructor].
  - done.
  - intros u m Hin _. exact (env_map_recordable u m Hin).
Defined.

(** ** A counter with a period *)

Definition env1 : Env := env0 ∅ [].
Definition vpmc1 : VirtualPerfCounter := mkVpmc 0 1000 (100, 0) 0 0 None false None.
Definition env2 : Env := set_interrupts {[(100, 0) := None]} env1.

Lemma period_at_creation_panics_witness :
  interrupting_virtual_pmc_for_task task0 env2 = Panic /\
  forall mp v', set_weak_self mp (VirtualPerf vpmc1) = VirtualPerf v' -> disable_interrupt v' env2 = env2.
Proof. apply (period_at_creation_panics task0 1000 env1 vpmc1 env2); [done|lia|done|reflexivity]. Defined.

End FileMonExamples.
