(* ===== verification/Timeline.v ===== *)
(** The replay timeline ([replay_timeline.rs]): marks, checkpoints, and the breakpoints
    and watchpoints that follow the current session.  What the timeline uses of a replay
    session is the class [Sessions], what it uses of registers the class [Machine]. *)

From S2P Require Import Prelude Float64 Watchpoints.

Module Timeline.

Export Watchpoints.Watch(WatchType, WatchExec, WatchWrite, WatchReadWrite, WatchConfig, mkConfig, w_addr, w_num_bytes, w_type).

(** ** Keys *)

Inductive ReplayTraceStepType :=
| TstepNone | TstepEnterSyscall | TstepExitSyscall | TstepDeterministicSignal | TstepProgramAsyncSignalInterrupt
| TstepDeliverSignal | TstepFlushSyscallbuf | TstepPatchSyscall | TstepExitTask | TstepRetire.

#[export] Instance step_type_eq : EqDecision ReplayTraceStepType.
Proof. solve_decision. Defined.

Definition as_i32 (k : ReplayTraceStepType) : Z :=
  match k with
  | TstepNone => 0 | TstepEnterSyscall => 1 | TstepExitSyscall => 2 | TstepDeterministicSignal => 3
  | TstepProgramAsyncSignalInterrupt => 4 | TstepDeliverSignal => 5 | TstepFlushSyscallbuf => 6
  | TstepPatchSyscall => 7 | TstepExitTask => 8 | TstepRetire => 9
  end.

Definition in_execution (k : ReplayTraceStepType) : bool := negb (bool_decide (k = TstepNone)).

Record MarkKey := mkMarkKey { trace_time : Z; ticks : Z; step_key : ReplayTraceStepType }.

#[export] Instance mark_key_eq : EqDecision MarkKey.
Proof. solve_decision. Defined.

Lemma as_i32_inj a b : as_i32 a = as_i32 b -> a = b.
Proof. by destruct a, b. Qed.

#[export] Instance mark_key_countable : Countable MarkKey.
Proof.
  refine (inj_countable (fun k => (trace_time k, ticks k, as_i32 (step_key k)))
    (fun '(a, b, c) => mkMarkKey a b <$> List.find (fun k => as_i32 k =? c)
       [TstepNone; TstepEnterSyscall; TstepExitSyscall; TstepDeterministicSignal; TstepProgramAsyncSignalInterrupt;
        TstepDeliverSignal; TstepFlushSyscallbuf; TstepPatchSyscall; TstepExitTask; TstepRetire]) _).
  by intros [a b []].
Defined.

(** The derived order: lexicographic. *)
Definition key_lt (a b : MarkKey) : bool :=
  (trace_time a <? trace_time b) ||
  ((trace_time a =? trace_time b) &&
   ((ticks a <? ticks b) || ((ticks a =? ticks b) && (as_i32 (step_key a) <? as_i32 (step_key b))))).

Definition key_le (a b : MarkKey) : bool := negb (key_lt b a).

(** The least and the greatest key of a list. *)
Definition min_key (l : list MarkKey) : option MarkKey :=
  foldr (fun k o => match o with Some k' => Some (if key_lt k k' then k else k') | None => Some k end) None l.
Definition max_key (l : list MarkKey) : option MarkKey :=
  foldr (fun k o => match o with Some k' => Some (if key_lt k' k then k else k') | None => Some k end) None l.

(** ** The machine and replay sessions *)

Class Machine := {
  Registers : Type;
  default_regs : Registers;
  ip : Registers -> Z;
  matches : Registers -> Registers -> bool;
  ExtraRegisters : Type;
  default_extra_regs : ExtraRegisters }.

Abbreviation TaskUid := (Z * Z)%type.
Abbreviation AddressSpaceUid := (Z * Z * Z)%type.

Inductive RunCommand := RunContinue | RunSinglestep | RunSinglestepFastForward.

#[export] Instance run_command_eq : EqDecision RunCommand.
Proof. solve_decision. Defined.

Inductive ReplayStatus := ReplayContinue | ReplayExited.

#[export] Instance replay_status_eq : EqDecision ReplayStatus.
Proof. solve_decision. Defined.

(** What the timeline reads of a task: [maybe_at_or_after_x86_string_instruction], and
    whether an address of its memory map may be executed, are functions of the task. *)
Record Task `{Machine} := mkTask {
  tuid : TaskUid;
  vm_uid : AddressSpaceUid;
  tick_count : Z;
  regs : Registers;
  extra_regs_ref : ExtraRegisters;
  return_address_list : list Z;
  maybe_at_or_after_x86_string_instruction : bool;
  prot_exec : Z -> bool }.

(** A task is a weak pointer, [None] for [Weak::new()]. *)
Record BreakStatus := mkBreakStatus {
  bs_task : option TaskUid;
  watchpoints_hit : list WatchConfig;
  signal : option Z;
  breakpoint_hit : bool;
  singlestep_complete : bool;
  approaching_ticks_target : bool;
  task_exit : bool }.

Definition break_status_new : BreakStatus := mkBreakStatus None [] None false false false false.

Definition is_exec (w : WatchConfig) : bool := bool_decide (w_type w = WatchExec).

Definition hardware_or_software_breakpoint_hit (b : BreakStatus) : bool := existsb is_exec (watchpoints_hit b) || breakpoint_hit b.

Definition data_watchpoints_hit (b : BreakStatus) : list WatchConfig :=
  List.filter (fun w => negb (is_exec w)) (watchpoints_hit b).

Definition any_break (b : BreakStatus) : bool :=
  negb (bool_decide (watchpoints_hit b = [])) || bool_decide (is_Some (signal b)) || breakpoint_hit b ||
  singlestep_complete b || approaching_ticks_target b.

Record ReplayResult := mkResult {
  status : ReplayStatus;
  break_status : BreakStatus;
  did_fast_forward : bool;
  incomplete_fast_forward : bool }.

Definition replay_result_new (s : ReplayStatus) : ReplayResult := mkResult s break_status_new false false.

Record StepConstraints `{Machine} := mkConstraints {
  command : RunCommand;
  stop_at_time : Z;
  ticks_target : Z;
  stop_before_states : list Registers }.

Definition constraints_new `{Machine} (c : RunCommand) : StepConstraints := mkConstraints _ c 0 0 [].

Record Statistics := mkStatistics { bytes_written : Z; ticks_processed : Z; syscalls_performed : Z }.

(** Replay sessions are values: a clone, which is documented as a semantic copy, is the
    same value.  The operations on address spaces are those of [address_space.rs], with
    breakpoints of the type [BkptUser]. *)
Class Sessions `{Machine} := {
  Session : Type;
  create : Session -> res Session;
  replay_step_with_constraints : StepConstraints -> Session -> res (ReplayResult * Session);
  session_time : Session -> Z;
  current_trace_frame_ticks : Session -> Z;
  current_step_key : Session -> ReplayTraceStepType;
  ticks_at_start_of_current_event : Session -> Z;
  current_task : Session -> option Task;
  find_task_from_task_uid : TaskUid -> Session -> option Task;
  can_clone : Session -> bool;
  done_initial_exec : Session -> bool;
  set_visible_execution : bool -> Session -> Session;
  statistics : Session -> Statistics;
  find_address_space : AddressSpaceUid -> Session -> bool;
  vm_add_breakpoint : AddressSpaceUid -> Z -> Session -> res (bool * Session);
  vm_remove_breakpoint : AddressSpaceUid -> Z -> Session -> res Session;
  vm_add_watchpoint : AddressSpaceUid -> Z -> Z -> WatchType -> Session -> res (bool * Session);
  vm_remove_watchpoint : AddressSpaceUid -> Z -> Z -> WatchType -> Session -> res Session;
  BreakpointCondition : Type;
  evaluate : BreakpointCondition -> Task -> Session -> bool }.

(** ** Breakpoints and watchpoints of the debugger *)

Record TimelineBreakpoint := mkBp { bp_uid : AddressSpaceUid; bp_addr : Z }.
Record TimelineWatchpoint := mkWp { wp_uid : AddressSpaceUid; wp_addr : Z; wp_size : Z; wp_type : WatchType }.

#[export] Instance timeline_breakpoint_eq : EqDecision TimelineBreakpoint.
Proof. solve_decision. Defined.
#[export] Instance timeline_watchpoint_eq : EqDecision TimelineWatchpoint.
Proof. solve_decision. Defined.
#[export] Instance timeline_breakpoint_countable : Countable TimelineBreakpoint.
Proof. refine (inj_countable' (fun b => (bp_uid b, bp_addr b)) (fun '(u, a) => mkBp u a) _). by intros []. Defined.

Definition watch_type_code (w : WatchType) : Z := match w with WatchExec => 0 | WatchWrite => 1 | WatchReadWrite => 3 end.
Definition watch_type_of_code (z : Z) : WatchType := if z =? 0 then WatchExec else if z =? 1 then WatchWrite else WatchReadWrite.

#[export] Instance timeline_watchpoint_countable : Countable TimelineWatchpoint.
Proof.
  refine (inj_countable' (fun w => (wp_uid w, wp_addr w, wp_size w, watch_type_code (wp_type w)))
    (fun '(u, a, n, t) => mkWp u a n (watch_type_of_code t)) _). by intros [? ? ? []].
Defined.

(** The derived orders, on the fields from left to right: the order in which the maps are
    iterated. *)
Fixpoint lex_le (a b : list Z) : bool :=
  match a, b with
  | x :: a, y :: b => (x <? y) || ((x =? y) && lex_le a b)
  | [], _ => true
  | _, [] => false
  end.

Definition bp_fields (b : TimelineBreakpoint) : list Z := let '(t, s, e) := bp_uid b in [t; s; e; bp_addr b].
Definition wp_fields (w : TimelineWatchpoint) : list Z :=
  let '(t, s, e) := wp_uid w in [t; s; e; wp_addr w; wp_size w; watch_type_code (wp_type w)].

Definition bp_keys {A} (m : gmap TimelineBreakpoint A) : list TimelineBreakpoint :=
  merge_sort (fun a b => lex_le (bp_fields a) (bp_fields b)) (map_to_list m).*1.
Definition wp_keys {A} (m : gmap TimelineWatchpoint A) : list TimelineWatchpoint :=
  merge_sort (fun a b => lex_le (wp_fields a) (wp_fields b)) (map_to_list m).*1.

Fixpoint for_each {A S} (f : A -> S -> res S) (l : list A) (s : S) : res S :=
  match l with [] => Ok s | x :: l => s ← f x s; for_each f l s end.

(** A mark is a shared pointer: its place in the list of all marks ever made. *)
Abbreviation Mark := nat.

Section Timeline.
Context `{Sessions}.

(** ** Marks *)

Record ProtoMark := mkProto { key : MarkKey; p_regs : Registers; return_addresses : list Z }.

Definition zero_addresses : list Z := replicate 8 0.

Definition proto_new (k : MarkKey) (t : Task) : ProtoMark := mkProto k (regs t) (return_address_list t).
Definition proto_new_from_key (k : MarkKey) : ProtoMark := mkProto k default_regs zero_addresses.

Definition session_mark_key (s : Session) : MarkKey :=
  mkMarkKey (session_time s) (match current_task s with Some t => tick_count t | None => 0 end) (current_step_key s).

Definition equal_regs (r1 r2 : Registers) : bool := (ip r1 =? ip r2) && matches r1 r2.

Definition equal_states (p : ProtoMark) (s : Session) : res bool :=
  if negb (bool_decide (session_mark_key s = key p)) then Ok false else
  t ← unwrap (current_task s);
  Ok (equal_regs (p_regs p) (regs t) && bool_decide (return_addresses p = return_address_list t)).

Record InternalMark := mkInternal {
  proto : ProtoMark;
  extra_regs : ExtraRegisters;
  checkpoint : option Session;
  checkpoint_refcount : Z;
  ticks_at_event_start : Z;
  singlestep_to_next_mark_no_signal : bool }.

Definition internal_mark_new (s : Session) (k : MarkKey) : InternalMark :=
  let '(p, e) := match current_task s with
                 | Some t => (proto_new k t, extra_regs_ref t)
                 | None => (proto_new_from_key k, default_extra_regs)
                 end in
  mkInternal p e None 0 (ticks_at_start_of_current_event s) false.

Record ReplayTimeline := mkTimeline {
  current : option Session;
  current_at_or_after_mark : option Mark;
  heap : list InternalMark;
  marks : gmap MarkKey (list Mark);
  marks_with_checkpoints : gmap MarkKey Z;
  breakpoints : gmap TimelineBreakpoint (option BreakpointCondition);
  watchpoints : gmap TimelineWatchpoint (option BreakpointCondition);
  breakpoints_applied : bool;
  reverse_execution_barrier_event : Z;
  reverse_exec_checkpoints : list (Mark * Z);
  no_watchpoints_hit_interval_start : option Mark;
  no_watchpoints_hit_interval_end : option Mark;
  reverse_exec_short_checkpoint : option Mark }.

Definition set_current (x : option Session) (tl : ReplayTimeline) : ReplayTimeline :=
  mkTimeline x (current_at_or_after_mark tl) (heap tl) (marks tl) (marks_with_checkpoints tl) (breakpoints tl)
    (watchpoints tl) (breakpoints_applied tl) (reverse_execution_barrier_event tl) (reverse_exec_checkpoints tl)
    (no_watchpoints_hit_interval_start tl) (no_watchpoints_hit_interval_end tl) (reverse_exec_short_checkpoint tl).
Definition set_at_or_after (x : option Mark) (tl : ReplayTimeline) : ReplayTimeline :=
  mkTimeline (current tl) x (heap tl) (marks tl) (marks_with_checkpoints tl) (breakpoints tl) (watchpoints tl)
    (breakpoints_applied tl) (reverse_execution_barrier_event tl) (reverse_exec_checkpoints tl)
    (no_watchpoints_hit_interval_start tl) (no_watchpoints_hit_interval_end tl) (reverse_exec_short_checkpoint tl).
Definition set_heap (x : list InternalMark) (tl : ReplayTimeline) : ReplayTimeline :=
  mkTimeline (current tl) (current_at_or_after_mark tl) x (marks tl) (marks_with_checkpoints tl) (breakpoints tl)
    (watchpoints tl) (breakpoints_applied tl) (reverse_execution_barrier_event tl) (reverse_exec_checkpoints tl)
    (no_watchpoints_hit_interval_start tl) (no_watchpoints_hit_interval_end tl) (reverse_exec_short_checkpoint tl).
Definition set_marks (x : gmap MarkKey (list Mark)) (tl : ReplayTimeline) : ReplayTimeline :=
  mkTimeline (current tl) (current_at_or_after_mark tl) (heap tl) x (marks_with_checkpoints tl) (breakpoints tl)
    (watchpoints tl) (breakpoints_applied tl) (reverse_execution_barrier_event tl) (reverse_exec_checkpoints tl)
    (no_watchpoints_hit_interval_start tl) (no_watchpoints_hit_interval_end tl) (reverse_exec_short_checkpoint tl).
Definition set_with_checkpoints (x : gmap MarkKey Z) (tl : ReplayTimeline) : ReplayTimeline :=
  mkTimeline (current tl) (current_at_or_after_mark tl) (heap tl) (marks tl) x (breakpoints tl) (watchpoints tl)
    (breakpoints_applied tl) (reverse_execution_barrier_event tl) (reverse_exec_checkpoints tl)
    (no_watchpoints_hit_interval_start tl) (no_watchpoints_hit_interval_end tl) (reverse_exec_short_checkpoint tl).
Definition set_breakpoints (x : gmap TimelineBreakpoint (option BreakpointCondition)) (tl : ReplayTimeline) : ReplayTimeline :=
  mkTimeline (current tl) (current_at_or_after_mark tl) (heap tl) (marks tl) (marks_with_checkpoints tl) x
    (watchpoints tl) (breakpoints_applied tl) (reverse_execution_barrier_event tl) (reverse_exec_checkpoints tl)
    (no_watchpoints_hit_interval_start tl) (no_watchpoints_hit_interval_end tl) (reverse_exec_short_checkpoint tl).
Definition set_watchpoints (x : gmap TimelineWatchpoint (option BreakpointCondition)) (tl : ReplayTimeline) : ReplayTimeline :=
  mkTimeline (current tl) (current_at_or_after_mark tl) (heap tl) (marks tl) (marks_with_checkpoints tl) (breakpoints
    tl) x (breakpoints_applied tl) (reverse_execution_barrier_event tl) (reverse_exec_checkpoints tl)
    (no_watchpoints_hit_interval_start tl) (no_watchpoints_hit_interval_end tl) (reverse_exec_short_checkpoint tl).
Definition set_applied (x : bool) (tl : ReplayTimeline) : ReplayTimeline :=
  mkTimeline (current tl) (current_at_or_after_mark tl) (heap tl) (marks tl) (marks_with_checkpoints tl) (breakpoints
    tl) (watchpoints tl) x (reverse_execution_barrier_event tl) (reverse_exec_checkpoints tl)
    (no_watchpoints_hit_interval_start tl) (no_watchpoints_hit_interval_end tl) (reverse_exec_short_checkpoint tl).
Definition set_barrier (x : Z) (tl : ReplayTimeline) : ReplayTimeline :=
  mkTimeline (current tl) (current_at_or_after_mark tl) (heap tl) (marks tl) (marks_with_checkpoints tl) (breakpoints
    tl) (watchpoints tl) (breakpoints_applied tl) x (reverse_exec_checkpoints tl) (no_watchpoints_hit_interval_start
    tl) (no_watchpoints_hit_interval_end tl) (reverse_exec_short_checkpoint tl).
Definition set_reverse_exec (x : list (Mark * Z)) (tl : ReplayTimeline) : ReplayTimeline :=
  mkTimeline (current tl) (current_at_or_after_mark tl) (heap tl) (marks tl) (marks_with_checkpoints tl) (breakpoints
    tl) (watchpoints tl) (breakpoints_applied tl) (reverse_execution_barrier_event tl) x
    (no_watchpoints_hit_interval_start tl) (no_watchpoints_hit_interval_end tl) (reverse_exec_short_checkpoint tl).
Definition set_interval_start (x : option Mark) (tl : ReplayTimeline) : ReplayTimeline :=
  mkTimeline (current tl) (current_at_or_after_mark tl) (heap tl) (marks tl) (marks_with_checkpoints tl) (breakpoints
    tl) (watchpoints tl) (breakpoints_applied tl) (reverse_execution_barrier_event tl) (reverse_exec_checkpoints tl) x
    (no_watchpoints_hit_interval_end tl) (reverse_exec_short_checkpoint tl).
Definition set_interval_end (x : option Mark) (tl : ReplayTimeline) : ReplayTimeline :=
  mkTimeline (current tl) (current_at_or_after_mark tl) (heap tl) (marks tl) (marks_with_checkpoints tl) (breakpoints
    tl) (watchpoints tl) (breakpoints_applied tl) (reverse_execution_barrier_event tl) (reverse_exec_checkpoints tl)
    (no_watchpoints_hit_interval_start tl) x (reverse_exec_short_checkpoint tl).
Definition set_short (x : option Mark) (tl : ReplayTimeline) : ReplayTimeline :=
  mkTimeline (current tl) (current_at_or_after_mark tl) (heap tl) (marks tl) (marks_with_checkpoints tl) (breakpoints
    tl) (watchpoints tl) (breakpoints_applied tl) (reverse_execution_barrier_event tl) (reverse_exec_checkpoints tl)
    (no_watchpoints_hit_interval_start tl) (no_watchpoints_hit_interval_end tl) x.

Definition timeline_new (s : Session) : ReplayTimeline := mkTimeline (Some s) None [] ∅ ∅ ∅ ∅ false 0 [] None None None.

Definition set_reverse_execution_barrier_event (event : Z) (tl : ReplayTimeline) : ReplayTimeline := set_barrier event tl.

Definition current_session (tl : ReplayTimeline) : res Session := unwrap (current tl).
Definition get_mark (m : Mark) (tl : ReplayTimeline) : res InternalMark := unwrap (heap tl !! m).
Definition mark_key (m : Mark) (tl : ReplayTimeline) : res MarkKey := im ← get_mark m tl; Ok (key (proto im)).

(** [RefCell::borrow_mut] of a mark. *)
Definition update_mark (m : Mark) (f : InternalMark -> InternalMark) (tl : ReplayTimeline) : ReplayTimeline :=
  set_heap (alter f m (heap tl)) tl.

Definition set_checkpoint (c : option Session) (i : InternalMark) : InternalMark :=
  mkInternal (proto i) (extra_regs i) c (checkpoint_refcount i) (ticks_at_event_start i) (singlestep_to_next_mark_no_signal i).
Definition set_refcount (n : Z) (i : InternalMark) : InternalMark :=
  mkInternal (proto i) (extra_regs i) (checkpoint i) n (ticks_at_event_start i) (singlestep_to_next_mark_no_signal i).
Definition set_no_signal (i : InternalMark) : InternalMark :=
  mkInternal (proto i) (extra_regs i) (checkpoint i) (checkpoint_refcount i) (ticks_at_event_start i) true.

(** [Rc::new(RefCell::new(..))]. *)
Definition new_mark (s : Session) (k : MarkKey) (tl : ReplayTimeline) : Mark * ReplayTimeline :=
  (List.length (heap tl), set_heap (heap tl ++ [internal_mark_new s k]) tl).

(** *** The order of marks *)

Fixpoint scan_vector (v : list Mark) (m1 m2 : Mark) : res comparison :=
  match v with
  | [] => Panic
  | m :: v => if bool_decide (m = m2) then Ok Gt else if bool_decide (m = m1) then Ok Lt else scan_vector v m1 m2
  end.

Definition mark_cmp (m1 m2 : Mark) (tl : ReplayTimeline) : res comparison :=
  if bool_decide (m1 = m2) then Ok Eq else
  k1 ← mark_key m1 tl;
  k2 ← mark_key m2 tl;
  if key_lt k1 k2 then Ok Lt else if key_lt k2 k1 then Ok Gt else
  scan_vector (default [] (marks tl !! k1)) m1 m2.

(** The comparison operators of [PartialOrd]. *)
Definition mark_lt (m1 m2 : Mark) (tl : ReplayTimeline) : res bool := c ← mark_cmp m1 m2 tl; Ok (match c with Lt => true | _ => false end).
Definition mark_gt (m1 m2 : Mark) (tl : ReplayTimeline) : res bool := c ← mark_cmp m1 m2 tl; Ok (match c with Gt => true | _ => false end).
Definition mark_le (m1 m2 : Mark) (tl : ReplayTimeline) : res bool := c ← mark_cmp m1 m2 tl; Ok (match c with Gt => false | _ => true end).
Definition mark_ge (m1 m2 : Mark) (tl : ReplayTimeline) : res bool := c ← mark_cmp m1 m2 tl; Ok (match c with Lt => false | _ => true end).

(** ** Breakpoints and watchpoints *)

Definition has_breakpoint_at_address (t : Task) (addr : Z) (tl : ReplayTimeline) : bool :=
  bool_decide (is_Some (breakpoints tl !! mkBp (vm_uid t) addr)).

Definition has_watchpoint_at_address (t : Task) (addr num_bytes : Z) (type_ : WatchType) (tl : ReplayTimeline) : bool :=
  bool_decide (is_Some (watchpoints tl !! mkWp (vm_uid t) addr num_bytes type_)).

Definition with_session (f : Session -> res Session) (tl : ReplayTimeline) : res ReplayTimeline :=
  s ← current_session tl; s ← f s; Ok (set_current (Some s) tl).

Definition apply_bp (b : TimelineBreakpoint) (s : Session) : res Session :=
  if find_address_space (bp_uid b) s then '(_, s) ← vm_add_breakpoint (bp_uid b) (bp_addr b) s; Ok s else Ok s.
Definition unapply_bp (b : TimelineBreakpoint) (s : Session) : res Session :=
  if find_address_space (bp_uid b) s then vm_remove_breakpoint (bp_uid b) (bp_addr b) s else Ok s.

(** The watchpoints that are ([exec = true]) or are not execution watchpoints. *)
Definition apply_wp (exec : bool) (w : TimelineWatchpoint) (s : Session) : res Session :=
  if find_address_space (wp_uid w) s && eqb exec (bool_decide (wp_type w = WatchExec))
  then '(_, s) ← vm_add_watchpoint (wp_uid w) (wp_addr w) (wp_size w) (wp_type w) s; Ok s else Ok s.
Definition unapply_wp (exec : bool) (w : TimelineWatchpoint) (s : Session) : res Session :=
  if find_address_space (wp_uid w) s && eqb exec (bool_decide (wp_type w = WatchExec))
  then vm_remove_watchpoint (wp_uid w) (wp_addr w) (wp_size w) (wp_type w) s else Ok s.

Definition apply_breakpoints_internal (tl : ReplayTimeline) : res ReplayTimeline :=
  with_session (fun s =>
    s ← for_each apply_bp (bp_keys (breakpoints tl)) s;
    for_each (apply_wp true) (wp_keys (watchpoints tl)) s) tl.

(** The loop over the watchpoints is inside the loop over the breakpoints. *)
Definition unapply_breakpoints_internal (tl : ReplayTimeline) : res ReplayTimeline :=
  with_session (for_each (fun b s =>
    s ← unapply_bp b s;
    for_each (unapply_wp true) (wp_keys (watchpoints tl)) s) (bp_keys (breakpoints tl))) tl.

Definition apply_breakpoints_and_watchpoints (tl : ReplayTimeline) : res ReplayTimeline :=
  if breakpoints_applied tl then Ok tl else
  tl ← apply_breakpoints_internal (set_applied true tl);
  with_session (for_each (apply_wp false) (wp_keys (watchpoints tl))) tl.

Definition unapply_breakpoints_and_watchpoints (tl : ReplayTimeline) : res ReplayTimeline :=
  if negb (breakpoints_applied tl) then Ok tl else
  tl ← unapply_breakpoints_internal (set_applied false tl);
  with_session (for_each (unapply_wp false) (wp_keys (watchpoints tl))) tl.

(** [t] is a task of the current session. *)
Definition remove_breakpoint (t : Task) (addr : Z) (tl : ReplayTimeline) : res ReplayTimeline :=
  tl ← (if breakpoints_applied tl then with_session (vm_remove_breakpoint (vm_uid t) addr) tl else Ok tl);
  _ ← assert_ (has_breakpoint_at_address t addr tl);
  Ok (set_breakpoints (delete (mkBp (vm_uid t) addr) (breakpoints tl)) tl).

Definition add_breakpoint (t : Task) (addr : Z) (condition : option BreakpointCondition) (tl : ReplayTimeline)
    : res (bool * ReplayTimeline) :=
  tl ← (if has_breakpoint_at_address t addr tl then remove_breakpoint t addr tl else Ok tl);
  tl ← apply_breakpoints_and_watchpoints tl;
  s ← current_session tl;
  '(ok, s) ← vm_add_breakpoint (vm_uid t) addr s;
  let tl := set_current (Some s) tl in
  if negb ok then Ok (false, tl) else
  Ok (true, set_breakpoints (<[mkBp (vm_uid t) addr := condition]> (breakpoints tl)) tl).

Definition remove_watchpoint (t : Task) (addr num_bytes : Z) (type_ : WatchType) (tl : ReplayTimeline) : res ReplayTimeline :=
  tl ← (if breakpoints_applied tl then with_session (vm_remove_watchpoint (vm_uid t) addr num_bytes type_) tl else Ok tl);
  _ ← assert_ (has_watchpoint_at_address t addr num_bytes type_ tl);
  Ok (set_watchpoints (delete (mkWp (vm_uid t) addr num_bytes type_) (watchpoints tl)) tl).

Definition add_watchpoint (t : Task) (addr num_bytes : Z) (type_ : WatchType) (condition : option BreakpointCondition)
    (tl : ReplayTimeline) : res (bool * ReplayTimeline) :=
  tl ← (if has_watchpoint_at_address t addr num_bytes type_ tl then remove_watchpoint t addr num_bytes type_ tl else Ok tl);
  tl ← apply_breakpoints_and_watchpoints tl;
  s ← current_session tl;
  '(ok, s) ← vm_add_watchpoint (vm_uid t) addr num_bytes type_ s;
  let tl := set_current (Some s) tl in
  if negb ok then Ok (false, tl) else
  let tl := set_watchpoints (<[mkWp (vm_uid t) addr num_bytes type_ := condition]> (watchpoints tl)) tl in
  Ok (true, set_interval_end None (set_interval_start None tl)).

Definition remove_breakpoints_and_watchpoints (tl : ReplayTimeline) : res ReplayTimeline :=
  tl ← unapply_breakpoints_and_watchpoints tl;
  Ok (set_watchpoints ∅ (set_breakpoints ∅ tl)).

(** *** Conditions *)

(** A condition of the debugger that is there holds when it has no expression or its
    expression does. *)
Definition condition_holds (c : option (option BreakpointCondition)) (t : Task) (s : Session) : bool :=
  match c with
  | Some None => true
  | Some (Some c) => evaluate c t s
  | None => false
  end.

(** [Vec::remove]. *)
Definition vec_remove {A} (i : nat) (l : list A) : res (list A) :=
  if (i <? List.length l)%nat then Ok (delete i l) else Panic.

Definition set_break_status (b : BreakStatus) (r : ReplayResult) : ReplayResult :=
  mkResult (status r) b (did_fast_forward r) (incomplete_fast_forward r).
Definition set_breakpoint_hit (x : bool) (b : BreakStatus) : BreakStatus :=
  mkBreakStatus (bs_task b) (watchpoints_hit b) (signal b) x (singlestep_complete b) (approaching_ticks_target b) (task_exit b).
Definition set_watchpoints_hit (x : list WatchConfig) (b : BreakStatus) : BreakStatus :=
  mkBreakStatus (bs_task b) x (signal b) (breakpoint_hit b) (singlestep_complete b) (approaching_ticks_target b) (task_exit b).
Definition set_singlestep_complete (x : bool) (b : BreakStatus) : BreakStatus :=
  mkBreakStatus (bs_task b) (watchpoints_hit b) (signal b) (breakpoint_hit b) x (approaching_ticks_target b) (task_exit b).
Definition set_approaching (x : bool) (b : BreakStatus) : BreakStatus :=
  mkBreakStatus (bs_task b) (watchpoints_hit b) (signal b) (breakpoint_hit b) (singlestep_complete b) x (task_exit b).
Definition set_task_exit (x : bool) (b : BreakStatus) : BreakStatus :=
  mkBreakStatus (bs_task b) (watchpoints_hit b) (signal b) (breakpoint_hit b) (singlestep_complete b) (approaching_ticks_target b) x.
Definition set_task (x : option TaskUid) (b : BreakStatus) : BreakStatus :=
  mkBreakStatus x (watchpoints_hit b) (signal b) (breakpoint_hit b) (singlestep_complete b) (approaching_ticks_target b) (task_exit b).

Fixpoint to_remove (t : Task) (s : Session) (tl : ReplayTimeline) (i : nat) (ws : list WatchConfig) : list nat :=
  match ws with
  | [] => []
  | w :: ws =>
      let hit := condition_holds (watchpoints tl !! mkWp (vm_uid t) (w_addr w) (w_num_bytes w) (w_type w)) t s in
      (if hit then [] else [i]) ++ to_remove t s tl (S i) ws
  end.

(** [Weak::upgrade] of the task of a result. *)
Definition upgrade (o : option TaskUid) (s : Session) : option Task := u ← o; find_task_from_task_uid u s.

Definition evaluate_conditions (result : ReplayResult) (tl : ReplayTimeline) : res ReplayResult :=
  s ← current_session tl;
  let b := break_status result in
  match upgrade (bs_task b) s with
  | None => Ok result
  | Some t =>
      let b := if breakpoint_hit b && negb (condition_holds (breakpoints tl !! mkBp (vm_uid t) (ip (regs t))) t s)
               then set_breakpoint_hit false b else b in
      ws ← for_each (fun i ws => vec_remove i ws) (to_remove t s tl 0 (watchpoints_hit b)) (watchpoints_hit b);
      Ok (set_break_status (set_watchpoints_hit ws b) result)
  end.

(** ** Making marks *)

Definition current_mark_key (tl : ReplayTimeline) : res MarkKey := s ← current_session tl; Ok (session_mark_key s).

Definition proto_mark (tl : ReplayTimeline) : res ProtoMark :=
  s ← current_session tl;
  k ← current_mark_key tl;
  Ok (match current_task s with Some t => proto_new k t | None => proto_new_from_key k end).

(** The first mark of a vector whose state is that of a session, with its index. *)
Fixpoint find_equal (i : nat) (v : list Mark) (s : Session) (tl : ReplayTimeline) : res (option (nat * Mark)) :=
  match v with
  | [] => Ok None
  | m :: v =>
      im ← get_mark m tl;
      b ← equal_states (proto im) s;
      if b : bool then Ok (Some (i, m)) else find_equal (S i) v s tl
  end.

Definition current_mark (tl : ReplayTimeline) : res (option Mark) :=
  s ← current_session tl;
  k ← current_mark_key tl;
  match marks tl !! k with
  | Some v => o ← find_equal 0 v s tl; Ok (snd <$> o)
  | None => Ok None
  end.

Definition at_mark (m : Mark) (tl : ReplayTimeline) : res bool :=
  o ← current_mark tl; Ok (bool_decide (o = Some m)).

(** [entry(key).or_insert(Vec::new())]. *)
Definition entry_or_insert (k : MarkKey) (tl : ReplayTimeline) : ReplayTimeline :=
  set_marks (<[k := default [] (marks tl !! k)]> (marks tl)) tl.

Fixpoint mark_protos (v : list Mark) (tl : ReplayTimeline) : res (list Registers) :=
  match v with
  | [] => Ok []
  | m :: v => im ← get_mark m tl; l ← mark_protos v tl; Ok (p_regs (proto im) :: l)
  end.

(** Singlestepping a copy of the session until it is in the state of a mark of the vector,
    or has another key: the index of that mark, and the new marks for the states on the
    way. *)
Fixpoint mark_loop (fuel : nat) (constraints : StepConstraints) (k : MarkKey) (v : list Mark) (new_marks : list Mark)
    (last_mark : Mark) (tmp_session : Session) (tl : ReplayTimeline) : res (nat * list Mark * ReplayTimeline) :=
  match fuel with
  | O => Spin
  | S fuel =>
      '(result, tmp_session) ← replay_step_with_constraints constraints tmp_session;
      if negb (bool_decide (session_mark_key tmp_session = k)) || negb (bool_decide (status result = ReplayContinue))
      then Ok (List.length v, new_marks, tl) else
      if negb (singlestep_complete (break_status result)) then mark_loop fuel constraints k v new_marks last_mark tmp_session tl else
      o ← find_equal 0 v tmp_session tl;
      let tl := if negb (did_fast_forward result) && bool_decide (signal (break_status result) = None)
                then update_mark last_mark set_no_signal tl else tl in
      match o with
      | Some (i, _) => Ok (i, new_marks, tl)
      | None =>
          let '(m, tl) := new_mark tmp_session k tl in
          mark_loop fuel constraints k v (new_marks ++ [m]) m tmp_session tl
      end
  end.

(** The new mark [m] for the current state goes into the vector of its key. *)
Definition place_mark (fuel : nat) (k : MarkKey) (m : Mark) (tl : ReplayTimeline) : res ReplayTimeline :=
  let v := default [] (marks tl !! k) in
  if bool_decide (v = []) || (bool_decide (is_Some (current_at_or_after_mark tl)) && bool_decide (current_at_or_after_mark tl = last v))
  then Ok (set_marks (<[k := v ++ [m]]> (marks tl)) tl)
  else
    tl ← unapply_breakpoints_and_watchpoints tl;
    s ← current_session tl;
    states ← mark_protos v tl;
    '(mark_index, new_marks, tl) ← mark_loop fuel (mkConstraints _ RunSinglestepFastForward 0 0 states) k v [m] m s tl;
    Ok (set_marks (<[k := take mark_index v ++ new_marks ++ drop mark_index v]> (marks tl)) tl).

Definition mark (fuel : nat) (tl : ReplayTimeline) : res (Mark * ReplayTimeline) :=
  o ← current_mark tl;
  match o with
  | Some m => Ok (m, tl)
  | None =>
      k ← current_mark_key tl;
      s ← current_session tl;
      let '(m, tl) := new_mark s k tl in
      tl ← place_mark fuel k m (entry_or_insert k tl);
      Ok (m, set_at_or_after (Some m) tl)
  end.

Definition mark_after_singlestep (fuel : nat) (from : Mark) (result : ReplayResult) (tl : ReplayTimeline) : res ReplayTimeline :=
  _ ← assert_ (singlestep_complete (break_status result));
  '(m, tl) ← mark fuel tl;
  m_key ← mark_key m tl;
  from_key ← mark_key from tl;
  if negb (did_fast_forward result) && bool_decide (m_key = from_key) && bool_decide (signal (break_status result) = None) then
    let tl := entry_or_insert m_key tl in
    let v := default [] (marks tl !! m_key) in
    _ ← match list_find (eq from) v with
        | Some (i, _) => assert_ (bool_decide (v !! S i = Some m))
        | None => Ok tt
        end;
    Ok (update_mark from set_no_signal tl)
  else Ok tl.

(** The index of a mark, searched from the end of the vector. *)
Fixpoint rposition (m : Mark) (v : list Mark) : option nat :=
  match v with
  | [] => None
  | x :: v => match rposition m v with Some i => Some (S i) | None => if bool_decide (x = m) then Some O else None end
  end.

Definition find_singlestep_before (m : Mark) (tl : ReplayTimeline) : res (option Mark) :=
  k ← mark_key m tl;
  match marks tl !! k with
  | None => Ok None
  | Some v =>
      i ← unwrap (rposition m v);
      match i with
      | O => Ok None
      | S i =>
          p ← unwrap (v !! i);
          im ← get_mark p tl;
          Ok (if singlestep_to_next_mark_no_signal im then Some p else None)
      end
  end.

Definition lazy_reverse_singlestep (from : Mark) (t : Task) (tl : ReplayTimeline) : res (option Mark) :=
  match no_watchpoints_hit_interval_start tl, no_watchpoints_hit_interval_end tl with
  | Some start, Some end_ =>
      o ← find_singlestep_before from tl;
      match o with
      | None => Ok None
      | Some m =>
          ge ← mark_ge m start tl;
          lt ← (if ge : bool then mark_lt m end_ tl else Ok false);
          im ← get_mark from tl;
          Ok (if lt && negb (has_breakpoint_at_address t (ip (p_regs (proto im))) tl) then Some m else None)
      end
  | _, _ => Ok None
  end.

(** ** Checkpoints

    The numbers of checkpoints and of their users are [u32] in the source; each stands for
    a live copy of all tracees or a request of the debugger, and they are integers here. *)

Definition remove_mark_with_checkpoint (k : MarkKey) (tl : ReplayTimeline) : res ReplayTimeline :=
  n ← unwrap (marks_with_checkpoints tl !! k);
  _ ← assert_ (0 <? n);
  Ok (set_with_checkpoints
        (if n - 1 =? 0 then delete k (marks_with_checkpoints tl) else <[k := n - 1]> (marks_with_checkpoints tl)) tl).

Definition can_add_checkpoint (tl : ReplayTimeline) : res bool := s ← current_session tl; Ok (can_clone s).

Definition add_explicit_checkpoint (fuel : nat) (tl : ReplayTimeline) : res (Mark * ReplayTimeline) :=
  c ← can_add_checkpoint tl;
  _ ← assert_ c;
  '(m, tl) ← mark fuel tl;
  im ← get_mark m tl;
  tl ← match checkpoint im with
       | Some _ => Ok tl
       | None =>
           tl ← unapply_breakpoints_and_watchpoints tl;
           s ← current_session tl;
           let tl := update_mark m (set_checkpoint (Some s)) tl in
           let k := key (proto im) in
           let n := default 0 (marks_with_checkpoints tl !! k) in
           Ok (set_with_checkpoints (<[k := n + 1]> (marks_with_checkpoints tl)) tl)
       end;
  Ok (m, update_mark m (set_refcount (checkpoint_refcount im + 1)) tl).

Definition remove_explicit_checkpoint (m : Mark) (tl : ReplayTimeline) : res ReplayTimeline :=
  im ← get_mark m tl;
  let cnt := checkpoint_refcount im in
  _ ← assert_ (0 <? cnt);
  let tl := update_mark m (set_refcount (cnt - 1)) tl in
  if cnt - 1 =? 0 then remove_mark_with_checkpoint (key (proto im)) (update_mark m (set_checkpoint None) tl) else Ok tl.

(** [BTreeMap<Mark, Progress>]. *)
Fixpoint rec_insert (m : Mark) (p : Z) (l : list (Mark * Z)) (tl : ReplayTimeline) : res (list (Mark * Z)) :=
  match l with
  | [] => Ok [(m, p)]
  | (m', p') :: l' =>
      c ← mark_cmp m m' tl;
      match c with
      | Lt => Ok ((m, p) :: l)
      | Eq => Ok ((m', p) :: l')
      | Gt => r ← rec_insert m p l' tl; Ok ((m', p') :: r)
      end
  end.

Fixpoint rec_remove (m : Mark) (l : list (Mark * Z)) (tl : ReplayTimeline) : res (list (Mark * Z)) :=
  match l with
  | [] => Ok []
  | (m', p') :: l' =>
      c ← mark_cmp m m' tl;
      match c with
      | Lt => Ok l
      | Eq => Ok l'
      | Gt => r ← rec_remove m l' tl; Ok ((m', p') :: r)
      end
  end.

(** *** Automatic checkpoints *)

(** [as i64] of an [f64]: truncation, saturating; NaN is 0. *)
Definition as_i64 (x : F64.f64) : Z :=
  let clamp z := Z.max (- I64_BOUND) (Z.min (I64_BOUND - 1) z) in
  match x with
  | SpecFloat.S754_finite s m e =>
      let a := if 0 <=? e then Z.pos m * 2 ^ e else Z.pos m / 2 ^ (- e) in clamp (if s then - a else a)
  | SpecFloat.S754_infinity s => clamp (if s then - I64_BOUND else I64_BOUND)
  | _ => 0
  end.

Definition MICROSECONDS_PER_TICK : F64.f64 := F64.lit 20503143 10000000000.
Definition MICROSECONDS_PER_SYSCALL : F64.f64 := F64.lit 396793587609 10000000000.
Definition MICROSECONDS_PER_BYTE_WRITTEN : F64.f64 := F64.lit 1833611 1000000000.
Definition MICROSECONDS_CONSTANT : F64.f64 := F64.lit 9978257239043 10000000000.

Definition progress_of (st : Statistics) : Z :=
  as_i64 (F64.add (F64.add (F64.add (F64.mul MICROSECONDS_PER_TICK (F64.of_Z (ticks_processed st)))
                                    (F64.mul MICROSECONDS_PER_SYSCALL (F64.of_Z (syscalls_performed st))))
                           (F64.mul MICROSECONDS_PER_BYTE_WRITTEN (F64.of_Z (bytes_written st))))
                  MICROSECONDS_CONSTANT).

Definition estimate_progress (tl : ReplayTimeline) : res Z := s ← current_session tl; Ok (progress_of (statistics s)).

Inductive CheckpointStrategy := LowOverhead | ExpectShortReverseExecution.

Definition LOW_OVERHEAD_INTER_CHECKPOINT_INTERVAL : Z := 500000.
Definition EXPECTING_REVERSE_EXEC_INTER_CHECKPOINT_INTERVAL : Z := 100000.
Definition CHECKPOINT_INTERVAL_EXPONENT : Z := 2.
Definition STOP_COUNT_LIMIT : nat := 20.

Definition inter_checkpoint_interval (strategy : CheckpointStrategy) : Z :=
  match strategy with
  | LowOverhead => LOW_OVERHEAD_INTER_CHECKPOINT_INTERVAL
  | ExpectShortReverseExecution => EXPECTING_REVERSE_EXEC_INTER_CHECKPOINT_INTERVAL
  end.

(** Checked [i64] arithmetic. *)
Definition i64 (z : Z) : res Z := if (- I64_BOUND <=? z) && (z <? I64_BOUND) then Ok z else Panic.

Definition next_interval_length (len : Z) : res Z :=
  if LOW_OVERHEAD_INTER_CHECKPOINT_INTERVAL <=? len then i64 (CHECKPOINT_INTERVAL_EXPONENT * len)
  else i64 (len + EXPECTING_REVERSE_EXEC_INTER_CHECKPOINT_INTERVAL).

(** An iterator that is used from the back is the list of what is left, last first.
    [count_range] leaves the first checkpoint before [start] behind. *)
Fixpoint count_range (start : Z) (tmp_it : list (Mark * Z)) (in_range : nat) : nat * list (Mark * Z) :=
  match tmp_it with
  | [] => (in_range, [])
  | (_, v) :: tmp_it => if start <=? v then count_range start tmp_it (S in_range) else (in_range, tmp_it)
  end.

Fixpoint delete_excess (it : list (Mark * Z)) (in_range allowed : nat) : res (list Mark * nat) :=
  if (in_range <=? allowed)%nat then Ok ([], in_range) else
  match it with
  | [] => Panic
  | (m, _) :: it => '(d, n) ← delete_excess it (in_range - 1) allowed; Ok (m :: d, n)
  end.

(** A turn takes at least one checkpoint out of the iterator, so the fuel is its length. *)
Fixpoint discard_loop (fuel : nat) (now len : Z) (it : list (Mark * Z)) (in_range allowed : nat) : res (list Mark) :=
  match fuel with
  | O => Spin
  | S fuel =>
      start ← i64 (now - len);
      let '(in_range, tmp_it) := count_range start it in_range in
      '(d, in_range) ← delete_excess it in_range allowed;
      match tmp_it with
      | [] => Ok d
      | _ => len ← next_interval_length len; r ← discard_loop fuel now len tmp_it in_range (S allowed); Ok (d ++ r)
      end
  end.

Definition discard_checkpoint (m : Mark) (tl : ReplayTimeline) : res ReplayTimeline :=
  tl ← remove_explicit_checkpoint m tl;
  l ← rec_remove m (reverse_exec_checkpoints tl) tl;
  Ok (set_reverse_exec l tl).

Definition discard_past_reverse_exec_checkpoints (strategy : CheckpointStrategy) (tl : ReplayTimeline) : res ReplayTimeline :=
  now ← estimate_progress tl;
  checkpoints_to_delete ← discard_loop (S (List.length (reverse_exec_checkpoints tl))) now (inter_checkpoint_interval strategy)
    (rev (reverse_exec_checkpoints tl)) 0 0;
  for_each discard_checkpoint checkpoints_to_delete tl.

Fixpoint discard_future_loop (fuel : nat) (now : Z) (tl : ReplayTimeline) : res ReplayTimeline :=
  match fuel with
  | O => Spin
  | S fuel =>
      match last (reverse_exec_checkpoints tl) with
      | Some (k, v) => if v <=? now then Ok tl else tl ← discard_checkpoint k tl; discard_future_loop fuel now tl
      | None => Ok tl
      end
  end.

Definition discard_future_reverse_exec_checkpoints (tl : ReplayTimeline) : res ReplayTimeline :=
  now ← estimate_progress tl;
  discard_future_loop (S (List.length (reverse_exec_checkpoints tl))) now tl.

Definition maybe_add_reverse_exec_checkpoint (fuel : nat) (strategy : CheckpointStrategy) (tl : ReplayTimeline) : res ReplayTimeline :=
  tl ← discard_future_reverse_exec_checkpoints tl;
  now ← estimate_progress tl;
  close ← match last (reverse_exec_checkpoints tl) with
          | Some (_, v) => start ← i64 (now - inter_checkpoint_interval strategy); Ok (start <=? v)
          | None => Ok false
          end;
  if close : bool then Ok tl else
  c ← can_add_checkpoint tl;
  if negb c then Ok tl else
  tl ← discard_past_reverse_exec_checkpoints strategy tl;
  '(m, tl) ← add_explicit_checkpoint fuel tl;
  l ← rec_insert m now (reverse_exec_checkpoints tl) tl;
  Ok (set_reverse_exec l tl).

Definition set_short_checkpoint (fuel : nat) (tl : ReplayTimeline) : res (Mark * ReplayTimeline) :=
  c ← can_add_checkpoint tl;
  if negb c then mark fuel tl else
  '(m, tl) ← add_explicit_checkpoint fuel tl;
  match reverse_exec_short_checkpoint tl with
  | Some chkp => tl ← remove_explicit_checkpoint chkp (set_short None tl); Ok (m, tl)
  | None => Ok (m, tl)
  end.

(** ** Seeking *)

(** The first mark of a vector with a checkpoint. *)
Fixpoint first_checkpoint (v : list Mark) (tl : ReplayTimeline) : res (option (Mark * Session)) :=
  match v with
  | [] => Ok None
  | m :: v => im ← get_mark m tl; match checkpoint im with Some s => Ok (Some (m, s)) | None => first_checkpoint v tl end
  end.

Definition restore_checkpoint (m : Mark) (s : Session) (tl : ReplayTimeline) : ReplayTimeline :=
  set_at_or_after (Some m) (set_applied false (set_current (Some s) tl)).

Definition seek_to_before_key (k : MarkKey) (tl : ReplayTimeline) : res ReplayTimeline :=
  current_key ← current_mark_key tl;
  let keys := (map_to_list (marks_with_checkpoints tl)).*1 in
  let lb := min_key (List.filter (fun k' => key_le k k') keys) in
  if bool_decide (lb = min_key keys) then
    if key_lt current_key k then Ok tl else
    s ← current_session tl;
    s ← create s;
    Ok (set_at_or_after None (set_applied false (set_current (Some s) tl)))
  else
    it ← unwrap (max_key (List.filter (fun k' => key_lt k' k) keys));
    if key_lt it current_key && key_lt current_key k then Ok tl else
    let tl := entry_or_insert it (set_current None tl) in
    o ← first_checkpoint (default [] (marks tl !! it)) tl;
    '(m, s) ← unwrap o;
    Ok (restore_checkpoint m s tl).

Definition seek_to_before_event (time : Z) (tl : ReplayTimeline) : res ReplayTimeline :=
  seek_to_before_key (mkMarkKey time 0 TstepNone) tl.

(** The last mark of a vector with a checkpoint that is not after [m]; the vector is given
    last first. *)
Fixpoint usable_checkpoint (m : Mark) (v : list Mark) (at_or_before_mark : bool) (tl : ReplayTimeline) : res (option (Mark * Session)) :=
  match v with
  | [] => Ok None
  | m' :: v =>
      im ← get_mark m' tl;
      let b := at_or_before_mark || bool_decide (m' = m) in
      match checkpoint im with
      | Some s => if b then Ok (Some (m', s)) else usable_checkpoint m v b tl
      | None => usable_checkpoint m v b tl
      end
  end.

Definition seek_up_to_mark (fuel : nat) (m : Mark) (tl : ReplayTimeline) : res ReplayTimeline :=
  k ← mark_key m tl;
  current_key ← current_mark_key tl;
  '(stay, tl) ← (if bool_decide (current_key = k)
                 then '(cm, tl) ← mark fuel tl; b ← mark_le cm m tl; Ok (b, tl)
                 else Ok (false, tl));
  if stay : bool then Ok tl else
  let tl := entry_or_insert k tl in
  o ← usable_checkpoint m (rev (default [] (marks tl !! k))) false tl;
  match o with
  | Some (m', s) => Ok (restore_checkpoint m' s tl)
  | None => seek_to_before_key k tl
  end.

End Timeline.
End Timeline.


