(* ===== verification/TimelineRun.v ===== *)
(** Running the current session of a timeline forward to a mark and backward
    ([replay_timeline.rs]).  Loops whose length is up to the tracees take fuel. *)

From S2P Require Import Prelude Timeline.

Module Run.

Export Timeline.

Inductive ForceProgress := DoForceProgress | DontForceProgress.

Section Run.
Context `{Sessions}.

(** ** Steps of the current session *)

Definition step (c : StepConstraints) (tl : ReplayTimeline) : res (ReplayResult * ReplayTimeline) :=
  s ← current_session tl; '(r, s) ← replay_step_with_constraints c s; Ok (r, set_current (Some s) tl).

Definition replay_step (c : RunCommand) (tl : ReplayTimeline) : res (ReplayResult * ReplayTimeline) := step (constraints_new c) tl.

(** A task behind a shared pointer, after the session has moved. *)
Definition refresh (t : Task) (s : Session) : Task := default t (find_task_from_task_uid (tuid t) s).

Definition with_time (time : Z) (c : StepConstraints) : StepConstraints := mkConstraints _ (command c) time (ticks_target c) (stop_before_states c).
Definition with_ticks (n : Z) (c : StepConstraints) : StepConstraints := mkConstraints _ (command c) (stop_at_time c) n (stop_before_states c).
Definition with_states (l : list Registers) (c : StepConstraints) : StepConstraints := mkConstraints _ (command c) (stop_at_time c) (ticks_target c) l.

(** The strategy is the number of singlesteps to perform. *)
Definition setup_step_constraints (singlesteps_to_perform : nat) : StepConstraints * nat :=
  match singlesteps_to_perform with
  | O => (constraints_new RunContinue, O)
  | S n => (constraints_new RunSinglestepFastForward, n)
  end.

Definition singlestep_with_breakpoints_disabled (tl : ReplayTimeline) : res (ReplayResult * ReplayTimeline) :=
  tl ← apply_breakpoints_and_watchpoints tl;
  tl ← unapply_breakpoints_internal tl;
  '(result, tl) ← replay_step RunSinglestep tl;
  tl ← apply_breakpoints_internal tl;
  Ok (result, tl).

(** ** The coalescing quirk of string instructions *)

Fixpoint seek_to_proto_mark_loop (fuel : nat) (pmark : ProtoMark) (tl : ReplayTimeline) : res ReplayTimeline :=
  match fuel with
  | O => Spin
  | S fuel =>
      s ← current_session tl;
      there ← equal_states pmark s;
      if there : bool then Ok tl else
      if session_time s <? trace_time (key pmark) then
        '(_, tl) ← step (with_time (trace_time (key pmark)) (constraints_new RunContinue)) tl;
        seek_to_proto_mark_loop fuel pmark tl
      else
        t ← unwrap (current_task s);
        let mark_addr := ip (p_regs pmark) in
        if (ip (regs t) =? mark_addr) && in_execution (current_step_key s) then
          '(_, tl) ← step (with_states [p_regs pmark] (constraints_new RunSinglestepFastForward)) tl;
          seek_to_proto_mark_loop fuel pmark tl
        else
          '(_, s) ← vm_add_breakpoint (vm_uid t) mark_addr s;
          '(_, tl) ← replay_step RunContinue (set_current (Some s) tl);
          tl ← with_session (vm_remove_breakpoint (vm_uid t) mark_addr) tl;
          seek_to_proto_mark_loop fuel pmark tl
  end.

Definition seek_to_proto_mark (fuel : nat) (pmark : ProtoMark) (tl : ReplayTimeline) : res ReplayTimeline :=
  tl ← seek_to_before_key (key pmark) tl;
  tl ← unapply_breakpoints_and_watchpoints tl;
  seek_to_proto_mark_loop fuel pmark tl.

Fixpoint quirk_loop (fuel : nat) (after_tuid : TaskUid) (after_ticks : Z) (approaching : bool) (tl : ReplayTimeline)
    : res (ReplayResult * ReplayTimeline) :=
  match fuel with
  | O => Spin
  | S fuel =>
      s ← current_session tl;
      t ← unwrap (current_task s);
      let not_too_far tl := s ← current_session tl; assert_ (tick_count (refresh t s) <=? after_ticks) in
      if bool_decide (tuid t = after_tuid) then
        if approaching then
          '(result, tl) ← replay_step RunSinglestepFastForward tl;
          if negb (bool_decide (data_watchpoints_hit (break_status result) = [])) then Ok (result, tl) else
          _ ← not_too_far tl;
          quirk_loop fuel after_tuid after_ticks approaching tl
        else
          target ← checked_sub after_ticks 1;
          '(result, tl) ← step (with_ticks target (constraints_new RunContinue)) tl;
          _ ← not_too_far tl;
          quirk_loop fuel after_tuid after_ticks (approaching_ticks_target (break_status result)) tl
      else
        '(_, tl) ← replay_step RunContinue tl;
        quirk_loop fuel after_tuid after_ticks approaching tl
  end.

Definition fix_watchpoint_coalescing_quirk (fuel : nat) (result : ReplayResult) (before : ProtoMark) (tl : ReplayTimeline)
    : res (bool * ReplayResult * ReplayTimeline) :=
  if bool_decide (status result = ReplayExited) || bool_decide (data_watchpoints_hit (break_status result) = [])
  then Ok (false, result, tl) else
  s ← current_session tl;
  break_status_task ← unwrap (upgrade (bs_task (break_status result)) s);
  if negb (maybe_at_or_after_x86_string_instruction break_status_task) then Ok (false, result, tl) else
  tl ← seek_to_proto_mark fuel before tl;
  tl ← apply_breakpoints_and_watchpoints tl;
  '(result, tl) ← quirk_loop fuel (tuid break_status_task) (tick_count break_status_task) false tl;
  Ok (true, result, tl).

Definition update_strategy_and_fix_watchpoint_quirk (fuel strategy : nat) (constraints : StepConstraints) (result : ReplayResult)
    (before : ProtoMark) (tl : ReplayTimeline) : res (ReplayResult * nat * ReplayTimeline) :=
  if bool_decide (command constraints = RunContinue) then
    '(fixed, result, tl) ← fix_watchpoint_coalescing_quirk fuel result before tl;
    Ok (result, if fixed : bool then 7%nat else strategy, tl)
  else Ok (result, strategy, tl).

(** ** Towards a mark *)

(** The step with a target of ticks before the mark; [None] when another strategy has to
    be tried. *)
Definition step_towards_ticks (fuel strategy : nat) (t : Task) (mark_ticks : Z) (before : ProtoMark) (tl : ReplayTimeline)
    : res (option (ReplayResult) * nat * ReplayTimeline) :=
  if negb (tick_count t <? mark_ticks) then Ok (None, strategy, tl) else
  let '(constraints, strategy) := setup_step_constraints strategy in
  let constraints := with_ticks (mark_ticks - 1) constraints in
  if negb (0 <? ticks_target constraints) then Ok (None, strategy, tl) else
  '(result, tl) ← step constraints tl;
  let approaching := approaching_ticks_target (break_status result) in
  let result := set_break_status (set_approaching false (break_status result)) result in
  s ← current_session tl;
  _ ← assert_ (tick_count (refresh t s) <? mark_ticks);
  if negb approaching || any_break (break_status result) then
    '(result, strategy, tl) ← update_strategy_and_fix_watchpoint_quirk fuel strategy constraints result before tl;
    Ok (Some result, strategy, tl)
  else Ok (None, strategy, tl).

Definition replay_step_to_mark (fuel : nat) (m : Mark) (strategy : nat) (tl : ReplayTimeline)
    : res (ReplayResult * nat * ReplayTimeline) :=
  s ← current_session tl;
  t ← unwrap (current_task s);
  before ← proto_mark tl;
  im ← get_mark m tl;
  let mkey := key (proto im) in
  _ ← assert_ (key_le (key before) mkey);
  if session_time s <? trace_time mkey then
    let '(constraints, strategy) := setup_step_constraints strategy in
    let constraints := with_time (trace_time mkey) constraints in
    '(result, tl) ← step constraints tl;
    update_strategy_and_fix_watchpoint_quirk fuel strategy constraints result before tl
  else
  _ ← assert_ (session_time s =? trace_time mkey);
  '(done_, strategy, tl) ← step_towards_ticks fuel strategy t (ticks mkey) before tl;
  match done_ with
  | Some result => Ok (result, strategy, tl)
  | None =>
      s ← current_session tl;
      let t := refresh t s in
      let mark_addr_code := ip (p_regs (proto im)) in
      if negb (ip (regs t) =? mark_addr_code) && prot_exec t mark_addr_code then
        '(succeeded, s) ← vm_add_breakpoint (vm_uid t) mark_addr_code s;
        _ ← assert_ succeeded;
        let '(constraints, strategy) := setup_step_constraints strategy in
        '(result, tl) ← step constraints (set_current (Some s) tl);
        s ← current_session tl;
        let t := refresh t s in
        tl ← with_session (vm_remove_breakpoint (vm_uid t) mark_addr_code) tl;
        let result := if breakpoint_hit (break_status result) && negb (has_breakpoint_at_address t (ip (regs t)) tl)
                      then set_break_status (set_breakpoint_hit false (break_status result)) result else result in
        update_strategy_and_fix_watchpoint_quirk fuel strategy constraints result before tl
      else
        '(result, tl) ← step (with_states [p_regs (proto im)] (constraints_new RunSinglestepFastForward)) tl;
        Ok (set_break_status (set_singlestep_complete false (break_status result)) result, strategy, tl)
  end.

Fixpoint seek_to_mark_loop (fuel n : nat) (m : Mark) (tl : ReplayTimeline) : res ReplayTimeline :=
  match n with
  | O => Spin
  | S n =>
      there ← at_mark m tl;
      if there : bool then Ok tl else
      tl ← unapply_breakpoints_and_watchpoints tl;
      '(_, _, tl) ← replay_step_to_mark fuel m 0 tl;
      seek_to_mark_loop fuel n m tl
  end.

Definition seek_to_mark (fuel : nat) (m : Mark) (tl : ReplayTimeline) : res ReplayTimeline :=
  tl ← seek_up_to_mark fuel m tl;
  tl ← seek_to_mark_loop fuel fuel m tl;
  Ok (set_at_or_after (Some m) tl).

(** ** Forward *)

Definition visible (b : bool) (tl : ReplayTimeline) : res ReplayTimeline := with_session (fun s => Ok (set_visible_execution b s)) tl.

Definition replay_step_forward (fuel : nat) (c : RunCommand) (time : Z) (tl : ReplayTimeline) : res (ReplayResult * ReplayTimeline) :=
  _ ← assert_ (negb (bool_decide (c = RunSinglestepFastForward)));
  tl ← apply_breakpoints_and_watchpoints tl;
  before ← proto_mark tl;
  tl ← visible true tl;
  '(result, tl) ← step (with_time time (constraints_new c)) tl;
  tl ← visible false tl;
  '(result, tl) ← (if bool_decide (c = RunContinue) then
                     '(_, result, tl) ← fix_watchpoint_coalescing_quirk fuel result before tl;
                     Ok (set_break_status (set_singlestep_complete false (break_status result)) result, tl)
                   else Ok (result, tl));
  tl ← maybe_add_reverse_exec_checkpoint fuel LowOverhead tl;
  let did_hit_breakpoint := hardware_or_software_breakpoint_hit (break_status result) in
  result ← evaluate_conditions result tl;
  if did_hit_breakpoint && negb (any_break (break_status result)) then
    tl ← visible true tl;
    '(result, tl) ← singlestep_with_breakpoints_disabled tl;
    let result := if bool_decide (c = RunContinue)
                  then set_break_status (set_singlestep_complete false (break_status result)) result else result in
    tl ← visible false tl;
    Ok (result, tl)
  else Ok (result, tl).

(** ** Backward *)

(** Run without stops until the event [time]. *)
Fixpoint run_to_time (fuel : nat) (time : Z) (tl : ReplayTimeline) : res ReplayTimeline :=
  match fuel with
  | O => Spin
  | S fuel =>
      s ← current_session tl;
      if session_time s <? time then
        '(_, tl) ← step (with_time time (constraints_new RunContinue)) tl;
        run_to_time fuel time tl
      else _ ← assert_ (session_time s =? time); Ok tl
  end.

Fixpoint run_to_ticks (fuel : nat) (t : Task) (target : Z) (result : ReplayResult) (tl : ReplayTimeline) : res ReplayTimeline :=
  match fuel with
  | O => Spin
  | S fuel =>
      s ← current_session tl;
      if (tick_count (refresh t s) <? target) && negb (approaching_ticks_target (break_status result)) then
        '(result, tl) ← step (with_ticks target (constraints_new RunContinue)) tl;
        run_to_ticks fuel t target result tl
      else Ok tl
  end.

(** The last resort of [run_forward_to_intermediate_point]. *)
Definition fast_forward_before (end_ : Mark) (start_ticks end_ticks : Z) (m : ProtoMark) (force : ForceProgress) (tl : ReplayTimeline)
    : res (bool * ReplayTimeline) :=
  match force with
  | DontForceProgress => Ok (false, tl)
  | DoForceProgress =>
      s ← current_session tl;
      next ← checked_add start_ticks 1;
      let tmp_session := if end_ticks <=? next then Some s else None in
      im ← get_mark end_ tl;
      '(_, tl) ← step (with_states [p_regs (proto im)] (constraints_new RunSinglestepFastForward)) tl;
      at_end ← at_mark end_ tl;
      if at_end : bool then
        _ ← assert_ (bool_decide (is_Some tmp_session));
        Ok (false, set_current tmp_session tl)
      else
        s ← current_session tl;
        same ← equal_states m s;
        Ok (negb same, tl)
  end.

Definition run_forward_to_intermediate_point (fuel : nat) (end_ : Mark) (force : ForceProgress) (tl : ReplayTimeline)
    : res (bool * ReplayTimeline) :=
  tl ← unapply_breakpoints_and_watchpoints tl;
  s ← current_session tl;
  im ← get_mark end_ tl;
  let ekey := key (proto im) in
  let now := session_time s in
  sum ← checked_add now (trace_time ekey);
  let mid := sum / 2 in
  if (now <? mid) && (mid <? trace_time ekey) then tl ← run_to_time fuel mid tl; Ok (true, tl) else
  if (now <? trace_time ekey) && (ticks_at_event_start im <? ticks ekey) then
    tl ← run_to_time fuel (trace_time ekey) tl; Ok (true, tl)
  else
  match current_task s with
  | None => Ok (false, tl)
  | Some t =>
      let start_ticks := tick_count t in
      let end_ticks := current_trace_frame_ticks s in
      let end_ticks := if trace_time ekey =? now then Z.min end_ticks (ticks ekey) else end_ticks in
      _ ← assert_ (start_ticks <=? end_ticks);
      sum ← checked_add start_ticks end_ticks;
      let target := Z.min end_ticks (sum / 2) in
      m ← proto_mark tl;
      if negb (target =? end_ticks) then
        '(result, tl) ← step (with_ticks target (constraints_new RunContinue)) tl;
        s ← current_session tl;
        same ← equal_states m s;
        if negb same then tl ← run_to_ticks fuel t target result tl; Ok (true, tl) else
        _ ← assert_ (approaching_ticks_target (break_status result));
        _ ← assert_ (tick_count (refresh t s) =? start_ticks);
        fast_forward_before end_ start_ticks end_ticks m force tl
      else fast_forward_before end_ start_ticks end_ticks m force tl
  end.

Definition is_start_of_reverse_execution_barrier_event (tl : ReplayTimeline) : res bool :=
  s ← current_session tl;
  Ok (negb (negb (session_time s =? reverse_execution_barrier_event tl) || in_execution (current_step_key s))).

(** *** [reverse_continue] *)

(** Whether the debugger wants to stop in a task, and whether it asks to stop, which may
    be answered differently at any time. *)
Context (stop_filter : Task -> bool) (interrupt_check : ReplayTimeline -> bool).

(** The variables of the outer loop; the last restart point is first. *)
Record Search := mkSearch {
  r_end : Mark;
  last_stop_is_watch_or_signal : bool;
  final_result : ReplayResult;
  final_tuid : option TaskUid;
  final_ticks : option Z;
  maybe_dest : option Mark;
  restart_points : list Mark }.

(** The variables of the inner loop. *)
Record Scan := mkScan {
  checkpoint_at_first_break : bool;
  at_breakpoint : bool;
  strategy : nat;
  stop_count : nat;
  made_progress_between_stops : bool;
  avoidable_stop_ip : Z;
  avoidable_stop_ticks : Z }.

(** How a turn of the inner loop ends. *)
Inductive Flow :=
| Loop (sc : Scan)
| Break
| Return (result : ReplayResult).

Definition set_dest (d : option Mark) (r : Search) : Search :=
  mkSearch (r_end r) (last_stop_is_watch_or_signal r) (final_result r) (final_tuid r) (final_ticks r) d (restart_points r).

(** A stop becomes the destination. *)
Definition found (dest : Mark) (watch_or_signal : bool) (result : ReplayResult) (t : option Task) (r : Search) : Search :=
  mkSearch (r_end r) watch_or_signal result (tuid <$> t) (tick_count <$> t) (Some dest) (restart_points r).

(** The task of a stop: [None] only for [Weak::new()]. *)
Definition stop_task (result : ReplayResult) (s : Session) : res (option Task) :=
  match bs_task (break_status result) with
  | None => Ok None
  | Some u => t ← unwrap (find_task_from_task_uid u s); Ok (Some t)
  end.

Definition note_stop (result : ReplayResult) (avoidable : bool) (s : Session) (sc : Scan) : res Scan :=
  if avoidable then
    t ← unwrap (upgrade (bs_task (break_status result)) s);
    Ok (mkScan (checkpoint_at_first_break sc) (at_breakpoint sc) (strategy sc) (stop_count sc)
          (negb (avoidable_stop_ip sc =? ip (regs t)) || negb (avoidable_stop_ticks sc =? tick_count t)) (ip (regs t)) (tick_count t))
  else Ok sc.

Definition set_scan_step (at_bp : bool) (st : nat) (sc : Scan) : Scan :=
  mkScan (checkpoint_at_first_break sc) at_bp st (stop_count sc) (made_progress_between_stops sc) (avoidable_stop_ip sc) (avoidable_stop_ticks sc).
Definition set_first_break (b : bool) (sc : Scan) : Scan :=
  mkScan b (at_breakpoint sc) (strategy sc) (stop_count sc) (made_progress_between_stops sc) (avoidable_stop_ip sc) (avoidable_stop_ticks sc).
Definition count_stop (sc : Scan) : Scan :=
  mkScan (checkpoint_at_first_break sc) (at_breakpoint sc) (strategy sc) (S (stop_count sc)) (made_progress_between_stops sc) (avoidable_stop_ip sc) (avoidable_stop_ticks sc).

(** What a step has found, with the conditions evaluated and the filter applied. *)
Definition judge_step (result : ReplayResult) (st : nat) (sc : Scan) (tl : ReplayTimeline) : res (ReplayResult * bool * Scan * ReplayTimeline) :=
  let b := break_status result in
  let sc := set_scan_step (hardware_or_software_breakpoint_hit b) st sc in
  let avoidable := breakpoint_hit b || negb (bool_decide (watchpoints_hit b = [])) in
  s ← current_session tl;
  sc ← note_stop result avoidable s sc;
  result ← evaluate_conditions result tl;
  filtered ← (if any_break (break_status result)
              then t ← unwrap (upgrade (bs_task (break_status result)) s); Ok (negb (stop_filter t))
              else Ok false);
  Ok (if filtered : bool then set_break_status break_status_new result else result, avoidable, sc, tl).

(** The step of a turn. *)
Definition scan_step (fuel : nat) (end_ : Mark) (sc : Scan) (tl : ReplayTimeline) : res (ReplayResult * bool * Scan * ReplayTimeline) :=
  tl ← apply_breakpoints_and_watchpoints tl;
  '(result, st, tl) ← (if at_breakpoint sc then '(result, tl) ← singlestep_with_breakpoints_disabled tl; Ok (result, strategy sc, tl)
                       else replay_step_to_mark fuel end_ (strategy sc) tl);
  judge_step result st sc tl.

(** A watchpoint or a signal. *)
Definition note_watch (fuel : nat) (result : ReplayResult) (r : Search) (tl : ReplayTimeline) : res (Search * ReplayTimeline) :=
  let b := break_status result in
  if negb (bool_decide (data_watchpoints_hit b = [])) || bool_decide (is_Some (signal b)) then
    '(dest, tl) ← mark fuel tl;
    s ← current_session tl;
    t ← stop_task result s;
    Ok (found dest true result t r, tl)
  else Ok (r, tl).

(** The event before which the debugger does not go. *)
Definition note_barrier (fuel : nat) (result : ReplayResult) (r : Search) (tl : ReplayTimeline) : res (Search * ReplayTimeline) :=
  barrier ← is_start_of_reverse_execution_barrier_event tl;
  if barrier : bool then
    '(dest, tl) ← mark fuel tl;
    s ← current_session tl;
    t ← unwrap (current_task s);
    t' ← unwrap (upgrade (bs_task (break_status result)) s);
    let final := set_break_status (set_task_exit true (set_task (Some (tuid t)) (break_status result))) result in
    Ok (mkSearch (r_end r) false final (Some (tuid t)) (Some (tick_count t')) (Some dest) (restart_points r), tl)
  else Ok (r, tl).

(** A breakpoint. *)
Definition note_breakpoint (fuel : nat) (result : ReplayResult) (r : Search) (tl : ReplayTimeline) : res (Search * ReplayTimeline) :=
  if hardware_or_software_breakpoint_hit (break_status result) then
    '(dest, tl) ← mark fuel tl;
    s ← current_session tl;
    t ← stop_task result s;
    Ok (found dest false result t r, tl)
  else Ok (r, tl).

(** Too many stops: go on from a point nearer to the end without stopping. *)
Definition split_interval (fuel : nat) (start : Mark) (avoidable : bool) (sc : Scan) (r : Search) (tl : ReplayTimeline)
    : res (Flow * Search * ReplayTimeline) :=
  if negb avoidable then Ok (Loop sc, r, tl) else
  let sc := count_stop sc in
  if (stop_count sc <=? STOP_COUNT_LIMIT)%nat then Ok (Loop sc, r, tl) else
  '(before_running, tl) ← mark fuel tl;
  '(moved, tl) ← run_forward_to_intermediate_point fuel (r_end r)
                   (if made_progress_between_stops sc then DontForceProgress else DoForceProgress) tl;
  if moved : bool then
    at_end ← at_mark (r_end r) tl;
    _ ← assert_ (negb at_end);
    let points := match maybe_dest r with Some _ => start :: restart_points r | None => restart_points r end in
    Ok (Break, mkSearch (r_end r) (last_stop_is_watch_or_signal r) (final_result r) (final_tuid r) (final_ticks r) None
                 (before_running :: points), tl)
  else Ok (Loop sc, r, tl).

(** One turn of the inner loop. *)
Definition scan_turn (fuel : nat) (start : Mark) (sc : Scan) (r : Search) (tl : ReplayTimeline) : res (Flow * Search * ReplayTimeline) :=
  '(result, avoidable, sc, tl) ← scan_step fuel (r_end r) sc tl;
  tl ← maybe_add_reverse_exec_checkpoint fuel ExpectShortReverseExecution tl;
  '(sc, tl) ← (if checkpoint_at_first_break sc && negb (bool_decide (maybe_dest r = Some start)) && any_break (break_status result)
               then '(_, tl) ← set_short_checkpoint fuel tl; Ok (set_first_break false sc, tl)
               else Ok (sc, tl));
  '(r, tl) ← note_watch fuel result r tl;
  _ ← assert_ (bool_decide (status result = ReplayContinue));
  '(r, tl) ← note_barrier fuel result r tl;
  at_end ← at_mark (r_end r) tl;
  if at_end : bool then
    Ok (Break, mkSearch start (last_stop_is_watch_or_signal r) (final_result r) (final_tuid r) (final_ticks r) (maybe_dest r) (restart_points r), tl)
  else
  '(r, tl) ← note_breakpoint fuel result r tl;
  if interrupt_check tl then
    tl ← seek_to_mark fuel (r_end r) tl;
    s ← current_session tl;
    t ← unwrap (current_task s);
    Ok (Return (set_break_status (set_task (Some (tuid t)) break_status_new) (replay_result_new ReplayContinue)), r, tl)
  else split_interval fuel start avoidable sc r tl.

Fixpoint scan_loop (fuel n : nat) (start : Mark) (sc : Scan) (r : Search) (tl : ReplayTimeline)
    : res (option ReplayResult * Search * ReplayTimeline) :=
  match n with
  | O => Spin
  | S n =>
      '(flow, r, tl) ← scan_turn fuel start sc r tl;
      match flow with
      | Loop sc => scan_loop fuel n start sc r tl
      | Break => Ok (None, r, tl)
      | Return result => Ok (Some result, r, tl)
      end
  end.

(** Where a turn of the outer loop starts, and whether it makes a checkpoint at its first
    break; [None] when there is nothing before the end. *)
Definition scan_start (fuel : nat) (r : Search) (tl : ReplayTimeline) : res (option (Mark * bool) * Search * ReplayTimeline) :=
  '(start, tl) ← mark fuel tl;
  ge ← mark_ge start (r_end r) tl;
  if negb ge then Ok (Some (start, false), r, tl) else
  match restart_points r with
  | [] =>
      k ← mark_key (r_end r) tl;
      tl ← seek_to_before_key k tl;
      '(start, tl) ← mark fuel tl;
      ge ← mark_ge start (r_end r) tl;
      Ok (if ge : bool then None else Some (start, true), r, tl)
  | seek :: points =>
      tl ← seek_to_mark fuel seek tl;
      Ok (Some (seek, true),
          mkSearch (r_end r) (last_stop_is_watch_or_signal r) (final_result r) (final_tuid r) (final_ticks r) (maybe_dest r) points, tl)
  end.

Fixpoint search_loop (fuel n : nat) (r : Search) (tl : ReplayTimeline) : res (option ReplayResult * Search * ReplayTimeline) :=
  match n with
  | O => Spin
  | S n =>
      match maybe_dest r with
      | Some _ => Ok (None, r, tl)
      | None =>
          '(o, r, tl) ← scan_start fuel r tl;
          match o with
          | None =>
              Ok (Some (mkResult ReplayExited break_status_new (did_fast_forward (final_result r)) (incomplete_fast_forward (final_result r))), r, tl)
          | Some (start, first_break) =>
              tl ← maybe_add_reverse_exec_checkpoint fuel ExpectShortReverseExecution tl;
              '(o, r, tl) ← scan_loop fuel fuel start (mkScan first_break false 0 0 false 0 0) r tl;
              match o with
              | Some result => Ok (Some result, r, tl)
              | None => search_loop fuel n r tl
              end
          end
      end
  end.

(** The end of [reverse_continue]: the task of the result is that of the session the
    timeline has got to. *)
Definition finish_reverse_continue (r : Search) (tl : ReplayTimeline) : res (ReplayResult * ReplayTimeline) :=
  s ← current_session tl;
  u ← unwrap (final_tuid r);
  t ← unwrap (find_task_from_task_uid u s);
  let b := set_singlestep_complete false (set_task (Some (tuid t)) (break_status (final_result r))) in
  Ok (set_break_status b (final_result r), tl).

End Run.

(** *** [reverse_singlestep] *)

Section Reverse.
Context `{Sessions}.

Definition update_observable_break_status (fuel : nat) (result : ReplayResult) (tl : ReplayTimeline) : res (Mark * ReplayTimeline) :=
  '(now, tl) ← mark fuel tl;
  Ok (now, if bool_decide (no_watchpoints_hit_interval_start tl = None) || negb (bool_decide (watchpoints_hit (break_status result) = []))
           then set_interval_start (Some now) tl else tl).

(** Back before all states with the time and the ticks of [end_]; [false] when that is not
    possible. *)
Fixpoint seek_before_ticks (fuel n : nat) (ekey current_key : MarkKey) (tl : ReplayTimeline) : res (bool * ReplayTimeline) :=
  match n with
  | O => Spin
  | S n =>
      if negb (trace_time ekey =? trace_time current_key) || negb (ticks ekey =? ticks current_key) then Ok (true, tl) else
      tl ← seek_to_before_key current_key tl;
      tl ← maybe_add_reverse_exec_checkpoint fuel ExpectShortReverseExecution tl;
      k ← current_mark_key tl;
      if bool_decide (k = current_key) then Ok (false, tl) else seek_before_ticks fuel n ekey k tl
  end.

(** Forward until the stepping task is near its ticks. *)
Fixpoint approach_loop (fuel n : nat) (stop_filter : Task -> bool) (end_ : Mark) (step_tuid : TaskUid) (target : Z) (constraints : StepConstraints)
    (seen_barrier seen_other : bool) (tl : ReplayTimeline) : res (bool * bool * bool * ReplayTimeline) :=
  match n with
  | O => Spin
  | S n =>
      at_end ← at_mark end_ tl;
      if at_end : bool then Ok (false, seen_barrier, seen_other, tl) else
      s ← current_session tl;
      t ← unwrap (current_task s);
      let wanted := stop_filter t && done_initial_exec s in
      if wanted && bool_decide (tuid t = step_tuid) && (target <=? tick_count t) then Ok (true, seen_barrier, seen_other, tl) else
      '(constraints, seen_other, tl) ←
        (if wanted then
           if bool_decide (tuid t = step_tuid) then
             tl ← unapply_breakpoints_and_watchpoints tl;
             let constraints := with_ticks (if bool_decide (command constraints = RunContinue) then target else 0) constraints in
             '(result, tl) ← step constraints tl;
             Ok (if approaching_ticks_target (break_status result) then constraints_new RunSinglestepFastForward else constraints, seen_other, tl)
           else
             tl ← (if seen_other then unapply_breakpoints_and_watchpoints tl else apply_breakpoints_and_watchpoints tl);
             '(result, tl) ← replay_step RunContinue tl;
             Ok (with_ticks 0 constraints, seen_other || any_break (break_status result), tl)
         else
           tl ← unapply_breakpoints_and_watchpoints tl;
           '(_, tl) ← replay_step RunContinue tl;
           Ok (with_ticks 0 constraints, seen_other, tl));
      barrier ← is_start_of_reverse_execution_barrier_event tl;
      tl ← maybe_add_reverse_exec_checkpoint fuel ExpectShortReverseExecution tl;
      approach_loop fuel n stop_filter end_ step_tuid target constraints (seen_barrier || barrier) seen_other tl
  end.

(** How the search for the place to step from ends. *)
Inductive Approach :=
| Found (end_ start : Mark) (seen_barrier : bool)
| OtherTaskBreak
| NothingBefore.

Fixpoint approach (fuel n : nat) (stop_filter : Task -> bool) (end_ : Mark) (step_tuid : TaskUid) (target : Z) (seen_barrier : bool)
    (tl : ReplayTimeline) : res (Approach * ReplayTimeline) :=
  match n with
  | O => Spin
  | S n =>
      ekey ← mark_key end_ tl;
      '(ok, tl) ← seek_before_ticks fuel fuel ekey ekey tl;
      if negb ok then Ok (NothingBefore, tl) else
      '(start, tl) ← mark fuel tl;
      '(near, seen_barrier, seen_other, tl) ←
        approach_loop fuel fuel stop_filter end_ step_tuid target (constraints_new RunContinue) seen_barrier false tl;
      if near || seen_barrier then Ok (Found end_ start seen_barrier, tl) else
      if seen_other : bool then Ok (OtherTaskBreak, tl) else
      approach fuel n stop_filter start step_tuid target seen_barrier tl
  end.

(** The variables of the loop that steps to the end. *)
Record Stepping := mkStepping {
  destination_candidate : option Mark;
  step_start : Mark;
  destination_candidate_result : ReplayResult;
  destination_candidate_tuid : option TaskUid;
  destination_candidate_saw_other_task_break : bool;
  seen_other_task_break : bool }.

Definition saw_other (b : bool) (st : Stepping) : Stepping :=
  mkStepping (destination_candidate st) (step_start st) (destination_candidate_result st) (destination_candidate_tuid st)
    (destination_candidate_saw_other_task_break st) (seen_other_task_break st || b).

(** A step, and a second one without breakpoints when the first stopped at one. *)
Definition observed_step (fuel : nat) (first second : StepConstraints) (tl : ReplayTimeline)
    : res (ReplayResult * Mark * bool * ReplayTimeline) :=
  '(result, tl) ← step first tl;
  '(now, tl) ← update_observable_break_status fuel result tl;
  let broke := any_break (break_status result) in
  if hardware_or_software_breakpoint_hit (break_status result) then
    tl ← unapply_breakpoints_and_watchpoints tl;
    '(result, tl) ← step second tl;
    '(now, tl) ← update_observable_break_status fuel result tl;
    Ok (result, now, broke || any_break (break_status result), tl)
  else Ok (result, now, broke, tl).

(** A step of the stepping task; [None] when it went too far. *)
Definition own_step (fuel : nat) (end_ : Mark) (st : Stepping) (tl : ReplayTimeline)
    : res (option (ReplayResult * Mark) * Stepping * ReplayTimeline) :=
  '(before_step, tl) ← mark fuel tl;
  im ← get_mark end_ tl;
  let constraints := with_states [p_regs (proto im)] (constraints_new RunSinglestepFastForward) in
  '(result, now, _, tl) ← observed_step fuel constraints constraints tl;
  if singlestep_complete (break_status result) then
    tl ← mark_after_singlestep fuel before_step result tl;
    beyond ← mark_gt now end_ tl;
    if beyond : bool then Ok (None, st, tl) else
    s ← current_session tl;
    t ← unwrap (upgrade (bs_task (break_status result)) s);
    Ok (Some (result, now), mkStepping (Some (step_start st)) now result (Some (tuid t)) (seen_other_task_break st) false, tl)
  else Ok (Some (result, now), st, tl).

Definition stepping_turn (fuel : nat) (stop_filter : Task -> bool) (end_ : Mark) (step_tuid : TaskUid) (st : Stepping) (tl : ReplayTimeline)
    : res (bool * Stepping * ReplayTimeline) :=
  s ← current_session tl;
  t ← unwrap (current_task s);
  '(o, st, tl) ←
    (if stop_filter t then
       tl ← apply_breakpoints_and_watchpoints tl;
       s ← current_session tl;
       t ← unwrap (current_task s);
       if bool_decide (tuid t = step_tuid) then own_step fuel end_ st tl
       else
         '(result, now, broke, tl) ← observed_step fuel (constraints_new RunContinue) (constraints_new RunSinglestepFastForward) tl;
         Ok (Some (result, now), saw_other broke st, tl)
     else
       tl ← unapply_breakpoints_and_watchpoints tl;
       '(result, tl) ← replay_step RunContinue tl;
       '(now, tl) ← mark fuel (set_interval_start None tl);
       Ok (Some (result, now), st, tl));
  match o with
  | None => Ok (false, st, tl)
  | Some (result, now) =>
      barrier ← is_start_of_reverse_execution_barrier_event tl;
      '(st, tl) ← (if barrier : bool then
                     '(m, tl) ← mark fuel tl;
                     s ← current_session tl;
                     t ← unwrap (current_task s);
                     Ok (mkStepping (Some m) (step_start st) (set_break_status (set_task_exit true (break_status result)) result)
                           (Some (tuid t)) false false, tl)
                   else Ok (st, tl));
      ge ← mark_ge now end_ tl;
      if ge : bool then Ok (false, st, tl) else
      tl ← maybe_add_reverse_exec_checkpoint fuel ExpectShortReverseExecution tl;
      Ok (true, st, tl)
  end.

Fixpoint stepping_loop (fuel n : nat) (stop_filter : Task -> bool) (end_ : Mark) (step_tuid : TaskUid) (st : Stepping) (tl : ReplayTimeline)
    : res (Stepping * ReplayTimeline) :=
  match n with
  | O => Spin
  | S n =>
      '(more, st, tl) ← stepping_turn fuel stop_filter end_ step_tuid st tl;
      if more : bool then stepping_loop fuel n stop_filter end_ step_tuid st tl else Ok (st, tl)
  end.

(** The state in which stepping to [end_] begins. *)
Definition stepping_start (fuel : nat) (tl : ReplayTimeline) : res (Stepping * ReplayTimeline) :=
  '(m, tl) ← set_short_checkpoint fuel tl;
  let st := mkStepping None m (replay_result_new ReplayContinue) None false false in
  barrier ← is_start_of_reverse_execution_barrier_event tl;
  '(st, tl) ← (if barrier : bool then
                 '(c, tl) ← mark fuel tl;
                 s ← current_session tl;
                 t ← unwrap (current_task s);
                 let r := replay_result_new ReplayContinue in
                 Ok (mkStepping (Some c) m (set_break_status (set_task_exit true (break_status r)) r) (Some (tuid t)) false false, tl)
               else Ok (st, tl));
  Ok (st, set_interval_start None tl).

(** The end of [reverse_singlestep] at a destination. *)
Definition finish_reverse_singlestep (fuel : nat) (dest : Mark) (st : Stepping) (tl : ReplayTimeline) : res (ReplayResult * ReplayTimeline) :=
  tl ← seek_to_mark fuel dest tl;
  s ← current_session tl;
  u ← unwrap (destination_candidate_tuid st);
  t ← unwrap (find_task_from_task_uid u s);
  let r := destination_candidate_result st in
  r ← evaluate_conditions (set_break_status (set_task (Some (tuid t)) (break_status r)) r) tl;
  Ok (r, tl).

(** [continue_] is [reverse_continue], which follows.  A turn is one of the loop over
    [outer]. *)
Fixpoint reverse_singlestep2 (fuel n : nat)
    (continue_ : (Task -> bool) -> (ReplayTimeline -> bool) -> ReplayTimeline -> res (ReplayResult * ReplayTimeline))
    (outer : Mark) (step_tuid : TaskUid) (step_ticks : Z) (stop_filter : Task -> bool)
    (interrupt_check : ReplayTimeline -> bool) (tl : ReplayTimeline) : res (ReplayResult * ReplayTimeline) :=
  match n with
  | O => Spin
  | S n =>
      let target := if step_ticks =? 0 then 0 else step_ticks - 1 in
      '(a, tl) ← approach fuel fuel stop_filter outer step_tuid target false tl;
      match a with
      | NothingBefore => Ok (replay_result_new ReplayExited, tl)
      | OtherTaskBreak => continue_ stop_filter interrupt_check tl
      | Found end_ start seen_barrier =>
          s ← current_session tl;
          t ← unwrap (current_task s);
          _ ← assert_ (stop_filter t || seen_barrier);
          '(st, tl) ← stepping_start fuel tl;
          '(st, tl) ← stepping_loop fuel fuel stop_filter end_ step_tuid st tl;
          let tl := set_interval_end (match no_watchpoints_hit_interval_start tl with Some _ => Some end_ | None => None end) tl in
          if seen_other_task_break st || destination_candidate_saw_other_task_break st
          then continue_ stop_filter interrupt_check tl else
          match destination_candidate st with
          | Some dest => finish_reverse_singlestep fuel dest st tl
          | None => reverse_singlestep2 fuel n continue_ start step_tuid step_ticks stop_filter interrupt_check tl
          end
      end
  end.

(** The two operations call each other; [depth] is the fuel of that. *)
Fixpoint reverse_continue (fuel depth : nat) (stop_filter : Task -> bool) (interrupt_check : ReplayTimeline -> bool) (tl : ReplayTimeline)
    : res (ReplayResult * ReplayTimeline) :=
  match depth with
  | O => Spin
  | S depth =>
      '(end_, tl) ← mark fuel tl;
      '(o, r, tl) ← search_loop stop_filter interrupt_check fuel fuel
                      (mkSearch end_ false (replay_result_new ReplayContinue) None None None []) tl;
      match o with
      | Some result => Ok (result, tl)
      | None =>
          dest ← unwrap (maybe_dest r);
          tl ← (if last_stop_is_watch_or_signal r then
                  u ← unwrap (final_tuid r);
                  n ← unwrap (final_ticks r);
                  '(_, tl) ← reverse_singlestep2 fuel fuel (reverse_continue fuel depth) dest u n (fun t => bool_decide (tuid t = u)) interrupt_check tl;
                  Ok tl
                else seek_to_mark fuel dest tl);
          finish_reverse_continue r tl
      end
  end.

Definition reverse_singlestep (fuel depth : nat) (u : TaskUid) (tuid_ticks : Z) (stop_filter : Task -> bool)
    (interrupt_check : ReplayTimeline -> bool) (tl : ReplayTimeline) : res (ReplayResult * ReplayTimeline) :=
  '(m, tl) ← mark fuel tl;
  reverse_singlestep2 fuel fuel (reverse_continue fuel depth) m u tuid_ticks stop_filter interrupt_check tl.

End Reverse.
End Run.
