(* ===== verification/TimelineSpec.v ===== *)
(** What the timeline relies on: a recording replays the same way every time.  [Execution]
    names the states a replay goes through by their number, [ReplayLaws] is what the
    documentation of [replay_session.rs], [fast_forward.rs] and [replay_timeline.rs]
    promises about the operations of a session in terms of these states. *)

From S2P Require Import Prelude Timeline TimelineRun.

Module Spec.

Export Run.

Section Data.
Context `{Sessions}.

(** The states of a recording, in the order of its execution, and where a session is.
    [traps n]: the task of state [n] is about to execute an instruction, so a breakpoint
    there is hit.  [placed s b]: the number of user breakpoints a session has at [b].
    [placeable b n]: the memory at [b] can be read in state [n].  [watched s]: a session has
    a watchpoint.  [signals n]: a signal is reported on the way to state [n]. *)
Class Execution := {
  pos : Session -> nat;
  last_pos : nat;
  time_at : nat -> Z;
  step_at : nat -> ReplayTraceStepType;
  task_at : nat -> option Task;
  find_at : TaskUid -> nat -> option Task;
  start_ticks_at : nat -> Z;
  frame_ticks_at : nat -> Z;
  space_at : AddressSpaceUid -> nat -> bool;
  evaluate_at : BreakpointCondition -> Task -> nat -> bool;
  traps : nat -> bool;
  signals : nat -> bool;
  placeable : TimelineBreakpoint -> nat -> bool;
  placed : Session -> TimelineBreakpoint -> nat;
  watched : Session -> bool }.

Context {Ex : Execution}.

Definition tick_at (n : nat) : Z := match task_at n with Some t => tick_count t | None => 0 end.
Definition key_at (n : nat) : MarkKey := mkMarkKey (time_at n) (tick_at n) (step_at n).

(** The breakpoint that would stop the task of a state. *)
Definition bp_at (n : nat) : option TimelineBreakpoint := t ← task_at n; Some (mkBp (vm_uid t) (ip (regs t))).

(** A session has a breakpoint at the instruction of state [n]. *)
Definition has_bp (s : Session) (n : nat) : Prop := exists b, bp_at n = Some b /\ (0 < placed s b)%nat.
Definition trapped (s : Session) (n : nat) : Prop := traps n = true /\ has_bp s n.
Definition blocked (s : Session) (n : nat) : Prop := in_execution (step_at n) = true /\ has_bp s n.

(** States of the same event, both before or both after the step that begins it. *)
Definition same_phase (p q : nat) : Prop := time_at p = time_at q /\ in_execution (step_at p) = in_execution (step_at q).

(** The result of a step that does not start at the end of the recording. *)
Record stepped (c : StepConstraints) (s : Session) (r : ReplayResult) (s' : Session) : Prop := {
  st_status : status r = ReplayContinue;
  st_forward : (pos s <= pos s' <= last_pos)%nat;
  (** a breakpoint at the first instruction is hit at once, and hits are at breakpoints *)
  st_trapped : trapped s (pos s) -> pos s' = pos s /\ breakpoint_hit (break_status r) = true;
  st_hit : breakpoint_hit (break_status r) = true -> trapped s (pos s');
  (** the first step of an event sets it up *)
  st_setup : step_at (pos s) = TstepNone -> pos s' = S (pos s);
  (** no breakpoint is passed *)
  st_blocked : forall n, (pos s < n < pos s')%nat -> ~ blocked s n;
  st_progress : ~ trapped s (pos s) -> (pos s < pos s')%nat \/
                (command c = RunContinue /\ 0 < ticks_target c /\ approaching_ticks_target (break_status r) = true /\
                 any_break (set_approaching false (break_status r)) = false);
  st_approaching : approaching_ticks_target (break_status r) = true -> 0 < ticks_target c;
  (** "Ensure we stop at event [stop_at_time]" *)
  st_time : time_at (pos s) < stop_at_time c -> forall n, stop_at_time c <= time_at n -> (n < last_pos)%nat -> (pos s' <= n)%nat;
  (** "stop before the current task's ticks reaches [ticks_target]" *)
  st_ticks : command c = RunContinue -> 0 < ticks_target c < frame_ticks_at (pos s) -> tick_at (pos s) <= ticks_target c ->
             (pos s' < last_pos)%nat /\ time_at (pos s') = time_at (pos s) /\ tick_at (pos s') <= ticks_target c;
  st_single : command c = RunSinglestep -> ~ trapped s (pos s) -> pos s' = S (pos s);
  (** "Stop if the next singlestep would enter one of the register states" *)
  st_fast_states : command c = RunSinglestepFastForward -> forall n t x, (pos s < n < pos s')%nat -> task_at n = Some t ->
             x ∈ stop_before_states c -> matches x (regs t) = false;
  st_fast_done : command c = RunSinglestepFastForward -> ~ trapped s (pos s) -> key_at (pos s') = key_at (pos s) ->
             singlestep_complete (break_status r) = true;
  st_fast_single : command c = RunSinglestepFastForward -> did_fast_forward r = false -> (pos s' <= S (pos s))%nat;
  (** "This will not add more than one tick" *)
  st_fast_ticks : command c = RunSinglestepFastForward ->
             if time_at (pos s') =? time_at (pos s) then tick_at (pos s') <= tick_at (pos s) + 1
             else frame_ticks_at (pos s) <= tick_at (pos s) + 1;
  (** the task of the result *)
  st_task : any_break (break_status r) = true -> is_Some (upgrade (bs_task (break_status r)) s');
  st_hit_task : breakpoint_hit (break_status r) = true -> upgrade (bs_task (break_status r)) s' = task_at (pos s');
  (** what is reported otherwise *)
  st_watch : watched s = false -> watchpoints_hit (break_status r) = [] /\ watched s' = false;
  st_signal : is_Some (signal (break_status r)) -> exists n, (pos s < n <= pos s')%nat /\ signals n = true;
  (** breakpoints stay with their address space *)
  st_placed : forall b, placed s' b = if space_at (bp_uid b) (pos s') then placed s b else O }.

(** Adding or removing a breakpoint. *)
Record same_but (s s' : Session) (b : TimelineBreakpoint) (n : nat) : Prop := {
  sb_pos : pos s' = pos s;
  sb_watched : watched s' = watched s;
  sb_placed : forall b', placed s' b' = if bool_decide (b' = b) then n else placed s b' }.

Class ReplayLaws : Prop := {
  (** a session shows the state it is in *)
  pos_last s : (pos s <= last_pos)%nat;
  obs_time s : session_time s = time_at (pos s);
  obs_step s : current_step_key s = step_at (pos s);
  obs_task s : current_task s = task_at (pos s);
  obs_find s u : find_task_from_task_uid u s = find_at u (pos s);
  obs_start_ticks s : ticks_at_start_of_current_event s = start_ticks_at (pos s);
  obs_frame_ticks s : current_trace_frame_ticks s = frame_ticks_at (pos s);
  obs_space s u : find_address_space u s = space_at u (pos s);
  obs_evaluate s c t : evaluate c t s = evaluate_at c t (pos s);
  (** "intrinsically totally ordered", "assumed to identify a unique program state" *)
  key_mono p q : (p <= q < last_pos)%nat -> key_le (key_at p) (key_at q) = true;
  key_last p : (p < last_pos)%nat -> key_at p <> key_at last_pos;
  state_unique p q tp tq : (p < last_pos)%nat -> (q < last_pos)%nat -> key_at p = key_at q -> task_at p = Some tp -> task_at q = Some tq ->
    equal_regs (regs tp) (regs tq) = true -> return_address_list tp = return_address_list tq -> p = q;
  matches_refl r : matches r r = true;
  task_there p : (p < last_pos)%nat -> is_Some (task_at p);
  (** an event has one task, in one address space, and its ticks *)
  task_same p q tp tq : (p < last_pos)%nat -> (q < last_pos)%nat -> time_at p = time_at q -> task_at p = Some tp -> task_at q = Some tq ->
    tuid tp = tuid tq;
  task_found p t : task_at p = Some t -> find_at (tuid t) p = Some t;
  task_space p t : task_at p = Some t -> space_at (vm_uid t) p = true;
  (** only the beginning of an event changes the address space of its task, and then the new one is new *)
  space_same p q u : (p < last_pos)%nat -> (q < last_pos)%nat -> same_phase p q -> space_at u p = space_at u q;
  vm_same p q tp tq : (p < last_pos)%nat -> (q < last_pos)%nat -> same_phase p q -> task_at p = Some tp -> task_at q = Some tq ->
    vm_uid tp = vm_uid tq;
  vm_exec p tp tq : (S p < last_pos)%nat -> step_at p = TstepNone -> task_at p = Some tp -> task_at (S p) = Some tq ->
    vm_uid tp = vm_uid tq \/ space_at (vm_uid tq) p = false;
  begin_first p q : (p < last_pos)%nat -> (q < last_pos)%nat -> step_at p = TstepNone -> time_at p = time_at q -> (p <= q)%nat;
  (** events have one number of ticks, and are numbered consecutively *)
  frame_same p q : (p < last_pos)%nat -> (q < last_pos)%nat -> time_at p = time_at q -> frame_ticks_at p = frame_ticks_at q;
  time_step p : (S p < last_pos)%nat -> time_at (S p) <= time_at p + 1;
  event_ticks p q : (p < last_pos)%nat -> (q < last_pos)%nat -> time_at p = time_at q -> tick_at q <= frame_ticks_at p;
  event_start p q : (p < last_pos)%nat -> (q < last_pos)%nat -> time_at p = time_at q ->
    (forall n, (n < last_pos)%nat -> time_at n = time_at p -> (p <= n)%nat) -> start_ticks_at q = tick_at p;
  numbers p : 0 <= time_at p < 2 ^ 62 /\ 0 <= tick_at p < 2 ^ 62 /\ 0 <= frame_ticks_at p < 2 ^ 62;
  traps_execution p : traps p = true -> in_execution (step_at p) = true;
  (** operations *)
  create_ok s : exists s', create s = Ok s' /\ pos s' = O /\ (forall b, placed s' b = O) /\ watched s' = false;
  step_ok c s : (pos s < last_pos)%nat -> exists r s', replay_step_with_constraints c s = Ok (r, s') /\ stepped c s r s';
  placed_space s b : (0 < placed s b)%nat -> space_at (bp_uid b) (pos s) = true;
  add_ok s u a : space_at u (pos s) = true -> exists ok s', vm_add_breakpoint u a s = Ok (ok, s') /\
    same_but s s' (mkBp u a) (if ok then S (placed s (mkBp u a)) else placed s (mkBp u a)) /\
    ok = placeable (mkBp u a) (pos s) || bool_decide (0 < placed s (mkBp u a))%nat;
  remove_ok s u a : space_at u (pos s) = true -> exists s', vm_remove_breakpoint u a s = Ok s' /\
    same_but s s' (mkBp u a) (pred (placed s (mkBp u a)));
  visible_ok b s : pos (set_visible_execution b s) = pos s /\ watched (set_visible_execution b s) = watched s /\
    (forall bp, placed (set_visible_execution b s) bp = placed s bp);
  (** executable memory can be read *)
  placeable_exec p t a : task_at p = Some t -> prot_exec t a = true -> placeable (mkBp (vm_uid t) a) p = true;
  statistics_unsigned s : 0 <= ticks_processed (statistics s) /\ 0 <= syscalls_performed (statistics s) /\ 0 <= bytes_written (statistics s);
  progress_bound s : progress_of (statistics s) < 2 ^ 62 }.

(** No task of the recording executes a program while another task is in its address space.
    This is a restriction: a child of [vfork] shares the address space of its parent until it
    executes a program.  Then [replay_step_to_mark] leaves a breakpoint behind in the address
    space of the parent. *)
Class ExecAlone : Prop := exec_alone p tp tq : (S p < last_pos)%nat -> step_at p = TstepNone -> task_at p = Some tp -> task_at (S p) = Some tq ->
  vm_uid tp <> vm_uid tq -> space_at (vm_uid tp) (S p) = false.

End Data.
End Spec.
