(* ===== verification/TimelineMarks.v ===== *)
(** Marks are in the order of the execution: the invariant of the marks of a timeline and
    what [mark], [at_mark] and the comparison of marks do. *)

From S2P Require Import Prelude Timeline TimelineRun TimelineSpec.

Module Marks.

Export Spec.

(** ** The order of keys *)

Lemma key_lt_irrefl k : key_lt k k = false.
Proof. unfold key_lt. lia. Qed.

Lemma key_lt_trans a b c : key_lt a b = true -> key_lt b c = true -> key_lt a c = true.
Proof. unfold key_lt. lia. Qed.

Lemma key_le_trans a b c : key_le a b = true -> key_le b c = true -> key_le a c = true.
Proof. unfold key_le, key_lt. lia. Qed.

Lemma key_lt_le a b c : key_lt a b = true -> key_le b c = true -> key_lt a c = true.
Proof. unfold key_le, key_lt. lia. Qed.

Lemma key_le_lt a b c : key_le a b = true -> key_lt b c = true -> key_lt a c = true.
Proof. unfold key_le, key_lt. lia. Qed.

Lemma key_eq a b : key_lt a b = false -> key_lt b a = false -> a = b.
Proof.
  destruct a as [a1 a2 a3], b as [b1 b2 b3]. unfold key_lt. cbn. intros.
  assert (a1 = b1 /\ a2 = b2 /\ as_i32 a3 = as_i32 b3) as (-> & -> & E) by lia. by apply as_i32_inj in E as ->.
Qed.

Lemma key_le_antisym a b : key_le a b = true -> key_le b a = true -> a = b.
Proof. unfold key_le. intros ? ?. apply key_eq; by apply negb_true_iff. Qed.

Lemma key_le_cases a b : key_le a b = true -> a = b \/ key_lt a b = true.
Proof.
  intros E. destruct (key_lt a b) eqn:L; [by right|left]. apply key_eq; [done|]. by apply negb_true_iff.
Qed.

Lemma key_lt_incl a b : key_lt a b = true -> key_le a b = true.
Proof. unfold key_le, key_lt. lia. Qed.

(** ** Sorted lists *)

Lemma sorted_impl {A} (R R' : A -> A -> Prop) l : (forall x y, R x y -> R' x y) -> StronglySorted R l -> StronglySorted R' l.
Proof. intros Hi S. induction S as [|x l S IH F]; constructor; [done|]. eapply Forall_impl; eauto. Qed.

Lemma sorted_lookup {A} (R : A -> A -> Prop) l i j x y : StronglySorted R l -> (i < j)%nat -> l !! i = Some x -> l !! j = Some y -> R x y.
Proof.
  intros S. revert i j. induction S as [|a l S IH F]; intros i j L Ei Ej; [done|]. destruct j as [|j]; [lia|]. destruct i as [|i]; cbn in *.
  - injection Ei as <-. rewrite Forall_forall in F. apply F. by eapply list_elem_of_lookup_2.
  - eapply IH; [|done..]. lia.
Qed.

Lemma sorted_intro {A} (R : A -> A -> Prop) l : (forall i j x y, (i < j)%nat -> l !! i = Some x -> l !! j = Some y -> R x y) -> StronglySorted R l.
Proof.
  induction l as [|a l IH]; intros Hl; constructor.
  - apply IH. intros i j x y L Ei Ej. apply (Hl (S i) (S j)); [lia|done..].
  - apply Forall_forall. intros y [j Ej]%list_elem_of_lookup. apply (Hl O (S j)); [lia|done..].
Qed.

Section Marks.
Context `{Laws : ReplayLaws}.

(** ** States and sessions *)

Lemma session_key s : session_mark_key s = key_at (pos s).
Proof. unfold session_mark_key, key_at, tick_at. by rewrite obs_time, obs_task, obs_step. Qed.

Lemma key_between p n q : (p <= n <= q)%nat -> (q < last_pos)%nat -> key_at p = key_at q -> key_at n = key_at p.
Proof.
  intros Hn Hq E. apply key_le_antisym; [|apply key_mono; lia]. rewrite E. apply key_mono. lia.
Qed.

Lemma key_lt_pos p q : (p < last_pos)%nat -> (q < last_pos)%nat -> key_lt (key_at p) (key_at q) = true -> (p < q)%nat.
Proof.
  intros Hp Hq E. destruct (decide (p < q)%nat) as [|N]; [done|]. exfalso.
  pose proof (key_mono q p ltac:(lia)) as M. unfold key_le in M. rewrite E in M. done.
Qed.

Lemma time_mono p q : (p <= q < last_pos)%nat -> time_at p <= time_at q.
Proof. intros Hq. pose proof (key_mono p q Hq) as M. unfold key_le, key_lt, key_at in M. cbn in M. lia. Qed.

(** ** The invariant *)

(** A mark stands for a state of the execution; a checkpoint is a session in that state
    with no breakpoints. *)
Record represents (im : InternalMark) (n : nat) : Prop := {
  rp_last : (n < last_pos)%nat;
  rp_proto : exists t, task_at n = Some t /\ proto im = proto_new (key_at n) t;
  rp_start : ticks_at_event_start im = start_ticks_at n;
  rp_checkpoint : match checkpoint im with
                  | Some s => pos s = n /\ (forall b, placed s b = O) /\ watched s = false /\ 0 < checkpoint_refcount im
                  | None => checkpoint_refcount im = 0
                  end }.

(** [ps] has the state of each mark. *)
Definition before (ps : list nat) (m m' : Mark) : Prop := exists n n', ps !! m = Some n /\ ps !! m' = Some n' /\ (n < n')%nat.

Record vector_ok (ps : list nat) (k : MarkKey) (v : list Mark) : Prop := {
  vo_sorted : StronglySorted (before ps) v;
  vo_key : Forall (fun m => exists n, ps !! m = Some n /\ key_at n = k) v }.

(** A mark that says so is one singlestep before a mark with the same key. *)
Definition flags_ok (ps : list nat) (h : list InternalMark) : Prop :=
  forall m im n, h !! m = Some im -> ps !! m = Some n -> singlestep_to_next_mark_no_signal im = true ->
  exists m', ps !! m' = Some (S n) /\ key_at (S n) = key_at n.

Record marks_ok (ps : list nat) (tl : ReplayTimeline) : Prop := {
  mo_heap : Forall2 represents (heap tl) ps;
  mo_vec : forall k v, marks tl !! k = Some v -> vector_ok ps k v;
  mo_in : forall m n, ps !! m = Some n -> exists v, marks tl !! key_at n = Some v /\ m ∈ v;
  mo_flags : flags_ok ps (heap tl) }.

Lemma heap_at ps h m n : Forall2 represents h ps -> ps !! m = Some n -> exists im, h !! m = Some im /\ represents im n.
Proof. intros F E. eapply Forall2_lookup_r in F as (im & ? & ?); [|done]. eauto. Qed.

Lemma get_mark_ok ps tl m n : Forall2 represents (heap tl) ps -> ps !! m = Some n -> exists im, get_mark m tl = Ok im /\ represents im n.
Proof. intros F E. destruct (heap_at _ _ _ _ F E) as (im & Ei & ?). exists im. unfold get_mark. by rewrite Ei. Qed.

Lemma place_live ps tl m n : marks_ok ps tl -> ps !! m = Some n -> (n < last_pos)%nat.
Proof. intros Om E. destruct (heap_at _ _ _ _ (mo_heap _ _ Om) E) as (im & _ & R). apply R. Qed.

Lemma mark_key_ok ps tl m n : Forall2 represents (heap tl) ps -> ps !! m = Some n -> mark_key m tl = Ok (key_at n).
Proof.
  intros F E. destruct (get_mark_ok _ _ _ _ F E) as (im & Ei & [_ (t & _ & Ep) _ _]). unfold mark_key. rewrite Ei. cbn. by rewrite Ep.
Qed.

(** A state of a mark is told from all others. *)
Lemma equal_states_ok im n s : represents im n -> (pos s < last_pos)%nat -> equal_states (proto im) s = Ok (bool_decide (n = pos s)).
Proof.
  intros [Hn (t & Et & Ep) _ _] Hs. unfold equal_states. rewrite session_key, Ep. cbn [key proto_new p_regs return_addresses].
  destruct (decide (key_at (pos s) = key_at n)) as [Ek|Nk].
  2: { rewrite bool_decide_false by done. cbn. f_equal. symmetry. apply bool_decide_false. by intros ->. }
  rewrite bool_decide_true by done. cbn [negb]. rewrite obs_task. destruct (task_there _ Hs) as (t' & Et'). rewrite Et'. cbn.
  f_equal. apply eq_iff_eq_true. rewrite bool_decide_eq_true. split.
  - intros [E1 E2%bool_decide_eq_true]%andb_true_iff. by eapply state_unique.
  - intros ->. assert (t = t') as <- by congruence. unfold equal_regs. by rewrite Z.eqb_refl, matches_refl, bool_decide_true.
Qed.

Lemma find_equal_ok ps tl s v i :
  Forall2 represents (heap tl) ps -> Forall (fun m => exists n, ps !! m = Some n) v -> (pos s < last_pos)%nat ->
  find_equal i v s tl = Ok (match list_find (fun m => ps !! m = Some (pos s)) v with Some (j, m) => Some ((i + j)%nat, m) | None => None end).
Proof.
  intros F Fv Hs. revert i. induction Fv as [|m v (n & En) Fv IH]; intros i; [done|]. cbn [find_equal list_find].
  destruct (get_mark_ok _ _ _ _ F En) as (im & -> & R). cbn [mbind res_bind]. rewrite (equal_states_ok _ _ _ R Hs). cbn [mbind res_bind].
  destruct (decide (n = pos s)) as [->|N].
  - rewrite bool_decide_true by done. rewrite decide_True by done. by rewrite Nat.add_0_r.
  - rewrite bool_decide_false by done. rewrite decide_False by congruence. rewrite IH. destruct (list_find _ v) as [[j m']|]; cbn; [|done].
    by rewrite Nat.add_succ_r.
Qed.

Lemma vector_places ps k v : vector_ok ps k v -> Forall (fun m => exists n, ps !! m = Some n) v.
Proof. intros [_ Fk]. eapply Forall_impl; [done|]. cbn. naive_solver. Qed.

Lemma sorted_inj ps v m m' n : StronglySorted (before ps) v -> m ∈ v -> m' ∈ v -> ps !! m = Some n -> ps !! m' = Some n -> m = m'.
Proof.
  intros S Hm Hm' E E'. induction S as [|x v S IH Fx]; [by apply not_elem_of_nil in Hm|].
  rewrite Forall_forall in Fx. apply elem_of_cons in Hm as [->|Hm], Hm' as [->|Hm']; [done| | |by apply IH].
  - destruct (Fx _ Hm') as (a & b & ? & ? & ?). simplify_eq. lia.
  - destruct (Fx _ Hm) as (a & b & ? & ? & ?). simplify_eq. lia.
Qed.

Lemma marks_inj ps tl m m' n : marks_ok ps tl -> ps !! m = Some n -> ps !! m' = Some n -> m = m'.
Proof.
  intros O E E'. destruct (mo_in _ _ O _ _ E) as (v & Ev & Hm), (mo_in _ _ O _ _ E') as (v' & Ev' & Hm'). simplify_eq.
  eapply sorted_inj; [eapply mo_vec|..]; done.
Qed.

Lemma current_mark_ok ps tl s : marks_ok ps tl -> current tl = Some s -> (pos s < last_pos)%nat ->
  (exists m, current_mark tl = Ok (Some m) /\ ps !! m = Some (pos s)) \/ (current_mark tl = Ok None /\ pos s ∉ ps).
Proof.
  intros O Ec Hs. unfold current_mark, current_mark_key, current_session. rewrite Ec. cbn [unwrap mbind res_bind]. rewrite session_key.
  assert (forall m, ps !! m = Some (pos s) -> exists v, marks tl !! key_at (pos s) = Some v /\ m ∈ v) as Hin by (intros; by eapply mo_in).
  destruct (marks tl !! key_at (pos s)) as [v|] eqn:Ev.
  - rewrite (find_equal_ok ps); [|apply O|by eapply vector_places, mo_vec|done]. cbn [mbind res_bind].
    destruct (list_find _ v) as [[j m]|] eqn:Ef; cbn.
    + left. exists m. apply list_find_Some in Ef as (? & ? & ?). done.
    + right. split; [done|]. intros [m Em]%list_elem_of_lookup. destruct (Hin m Em) as (? & [= <-] & Hm).
      apply list_find_None in Ef. rewrite Forall_forall in Ef. by apply (Ef m).
  - right. split; [done|]. intros [m Em]%list_elem_of_lookup. destruct (Hin m Em) as (? & ? & ?). done.
Qed.

Lemma at_mark_ok ps tl s m n : marks_ok ps tl -> current tl = Some s -> (pos s < last_pos)%nat -> ps !! m = Some n ->
  at_mark m tl = Ok (bool_decide (n = pos s)).
Proof.
  intros O Ec Hs Em. unfold at_mark. destruct (current_mark_ok _ _ _ O Ec Hs) as [(m' & -> & Em')|(-> & N)]; cbn; f_equal; apply bool_decide_ext.
  - split; [intros [= ->]; congruence|intros ->]. f_equal. by eapply marks_inj.
  - split; [done|intros ->]. destruct N. by apply list_elem_of_lookup_2 in Em.
Qed.

(** *** The order of marks is the order of their states *)

Lemma scan_vector_ok ps v m1 m2 n1 n2 : StronglySorted (before ps) v -> m1 ∈ v -> m2 ∈ v -> ps !! m1 = Some n1 -> ps !! m2 = Some n2 ->
  m1 <> m2 -> scan_vector v m1 m2 = Ok (Nat.compare n1 n2).
Proof.
  intros S H1 H2 E1 E2 N. induction S as [|x v S IH Fx]; [by apply not_elem_of_nil in H1|]. cbn [scan_vector]. rewrite Forall_forall in Fx.
  apply elem_of_cons in H1 as [->|H1].
  - apply elem_of_cons in H2 as [->|H2]; [done|]. rewrite bool_decide_false by done. rewrite bool_decide_true by done.
    destruct (Fx _ H2) as (a & b & ? & ? & ?). simplify_eq. f_equal. symmetry. by apply Nat.compare_lt_iff.
  - apply elem_of_cons in H2 as [->|H2].
    + rewrite bool_decide_true by done. destruct (Fx _ H1) as (a & b & ? & ? & ?). simplify_eq. f_equal. symmetry. by apply Nat.compare_gt_iff.
    + assert (x <> m2) by (intros ->; destruct (Fx _ H2) as (a & b & ? & ? & ?); simplify_eq; lia).
      assert (x <> m1) by (intros ->; destruct (Fx _ H1) as (a & b & ? & ? & ?); simplify_eq; lia).
      rewrite !bool_decide_false by done. by apply IH.
Qed.

Lemma mark_cmp_ok ps tl m1 m2 n1 n2 : marks_ok ps tl -> ps !! m1 = Some n1 -> ps !! m2 = Some n2 -> mark_cmp m1 m2 tl = Ok (Nat.compare n1 n2).
Proof.
  intros O E1 E2. unfold mark_cmp. case_bool_decide as N; [subst; simplify_eq; by rewrite Nat.compare_refl|].
  rewrite (mark_key_ok ps _ _ _ (mo_heap _ _ O) E1), (mark_key_ok ps _ _ _ (mo_heap _ _ O) E2). cbn [mbind res_bind].
  destruct (heap_at _ _ _ _ (mo_heap _ _ O) E1) as (? & _ & [L1 _ _ _]), (heap_at _ _ _ _ (mo_heap _ _ O) E2) as (? & _ & [L2 _ _ _]).
  destruct (key_lt (key_at n1) _) eqn:A; [f_equal; symmetry; by apply Nat.compare_lt_iff, key_lt_pos|].
  destruct (key_lt _ (key_at n1)) eqn:B; [f_equal; symmetry; by apply Nat.compare_gt_iff, key_lt_pos|].
  pose proof (key_eq _ _ A B) as K. destruct (mo_in _ _ O _ _ E1) as (v & Ev & Hv), (mo_in _ _ O _ _ E2) as (v' & Ev' & Hv').
  rewrite <- K in Ev'. simplify_eq. rewrite Ev. cbn [default]. eapply scan_vector_ok; [eapply mo_vec|..]; done.
Qed.

(** ** Breakpoints of the debugger in the session *)

(** No watchpoints are set; breakpoints are in the session only when they are applied, and
    then once. *)
Record session_ok (tl : ReplayTimeline) (s : Session) : Prop := {
  so_current : current tl = Some s;
  so_watched : watched s = false;
  so_no_watchpoints : watchpoints tl = ∅;
  so_off : breakpoints_applied tl = false -> forall b, placed s b = O;
  so_on : forall b, (placed s b <= 1)%nat /\ ((0 < placed s b)%nat -> is_Some (breakpoints tl !! b)) }.

Lemma bp_keys_elem {A} (m : gmap TimelineBreakpoint A) b : b ∈ bp_keys m <-> is_Some (m !! b).
Proof.
  unfold bp_keys. rewrite merge_sort_Permutation, list_elem_of_fmap. split.
  - intros ([b' x] & -> & Hx%elem_of_map_to_list). by exists x.
  - intros [x Hx%elem_of_map_to_list]. by exists (b, x).
Qed.

Lemma bp_keys_nodup {A} (m : gmap TimelineBreakpoint A) : NoDup (bp_keys m).
Proof. unfold bp_keys. rewrite merge_sort_Permutation. apply NoDup_fst_map_to_list. Qed.

Lemma wp_keys_empty {A} : wp_keys (∅ : gmap TimelineWatchpoint A) = [].
Proof. unfold wp_keys. by rewrite map_to_list_empty. Qed.

(** Taking the breakpoints of a list out of a session, and putting them in. *)
Lemma unapply_bp_ok x s : exists s1, unapply_bp x s = Ok s1 /\ same_but s s1 x (pred (placed s x)).
Proof.
  unfold unapply_bp. rewrite obs_space. destruct (space_at _ _) eqn:Es; [destruct x; by apply remove_ok|]. exists s. split; [done|].
  split; [done..|]. intros b. case_bool_decide; [subst|done]. destruct (placed s x) eqn:Ep; [done|]. rewrite placed_space in Es by lia. done.
Qed.

Lemma apply_bp_ok x s : exists s1, apply_bp x s = Ok s1 /\
  same_but s s1 x (if space_at (bp_uid x) (pos s) && (placeable x (pos s) || bool_decide (0 < placed s x)%nat) then S (placed s x) else placed s x).
Proof.
  unfold apply_bp. rewrite obs_space. destruct (space_at _ _) eqn:Es; cbn [andb].
  - destruct x as [u a]. destruct (add_ok s u a Es) as (ok & s1 & Ea & SB & Eok). cbn [bp_uid bp_addr]. rewrite Ea. cbn. exists s1. split; [done|].
    by rewrite <- Eok.
  - exists s. split; [done|]. split; [done..|]. intros b. case_bool_decide; by subst.
Qed.

Lemma unapply_bps_ok l s : NoDup l -> exists s', for_each unapply_bp l s = Ok s' /\ pos s' = pos s /\ watched s' = watched s /\
  forall b, placed s' b = if bool_decide (b ∈ l) then pred (placed s b) else placed s b.
Proof.
  intros N. revert s. induction N as [|x l Hx N IH]; intros s; [exists s; splits; try done; intros b; by rewrite bool_decide_false by apply not_elem_of_nil|].
  cbn [for_each]. destruct (unapply_bp_ok x s) as (s1 & -> & [P1 W1 B1]).
  cbn [mbind res_bind]. destruct (IH s1) as (s' & -> & P' & W' & B'). exists s'. splits; [done|congruence..|].
  intros b. rewrite B', B1. destruct (decide (b = x)) as [->|Nb].
  - rewrite (bool_decide_false (x ∈ l)), (bool_decide_true (x = x)), bool_decide_true; [done|by left|done|done].
  - rewrite (bool_decide_false (b = x)) by done.
    replace (bool_decide (b ∈ x :: l)) with (bool_decide (b ∈ l)) by (apply bool_decide_ext; rewrite elem_of_cons; naive_solver). done.
Qed.

Lemma apply_bps_ok l s : NoDup l -> exists s', for_each apply_bp l s = Ok s' /\ pos s' = pos s /\ watched s' = watched s /\
  forall b, placed s' b = if bool_decide (b ∈ l) && space_at (bp_uid b) (pos s) && (placeable b (pos s) || bool_decide (0 < placed s b)%nat)
                          then S (placed s b) else placed s b.
Proof.
  intros N. revert s. induction N as [|x l Hx N IH]; intros s; [exists s; splits; try done; intros b; by rewrite bool_decide_false by apply not_elem_of_nil|].
  cbn [for_each]. destruct (apply_bp_ok x s) as (s1 & -> & [P1 W1 B1]).
  cbn [mbind res_bind]. destruct (IH s1) as (s' & -> & P' & W' & B'). exists s'. splits; [done|congruence..|].
  intros b. rewrite B', B1, P1. destruct (decide (b = x)) as [->|Nb].
  - rewrite (bool_decide_false (x ∈ l)), (bool_decide_true (x = x)), (bool_decide_true (x ∈ x :: l)); [done|by left|done|done].
  - rewrite (bool_decide_false (b = x)) by done.
    replace (bool_decide (b ∈ x :: l)) with (bool_decide (b ∈ l)) by (apply bool_decide_ext; rewrite elem_of_cons; naive_solver). done.
Qed.

Definition unapplied (s : Session) (tl : ReplayTimeline) : ReplayTimeline := set_current (Some s) (set_applied false tl).

Lemma unapply_internal_ok tl s : current tl = Some s -> watched s = false -> watchpoints tl = ∅ ->
  (forall b, (placed s b <= 1)%nat /\ ((0 < placed s b)%nat -> is_Some (breakpoints tl !! b))) ->
  exists s', unapply_breakpoints_internal tl = Ok (set_current (Some s') tl) /\ pos s' = pos s /\ watched s' = false /\ forall b, placed s' b = O.
Proof.
  intros Ec Hw Nw Hon. unfold unapply_breakpoints_internal, with_session, current_session. rewrite Ec, Nw, wp_keys_empty. cbn [unwrap mbind res_bind].
  destruct (unapply_bps_ok (bp_keys (breakpoints tl)) s (bp_keys_nodup _)) as (s' & E & P & W & B).
  exists s'. splits; [|done|congruence|].
  - assert (forall l s0, for_each (fun b s1 => s2 ← unapply_bp b s1; for_each (unapply_wp true) [] s2) l s0 = for_each unapply_bp l s0) as ->.
    { induction l as [|b l IH]; intros s0; [done|]. cbn [for_each]. destruct (unapply_bp b s0); cbn; [apply IH|done..]. }
    rewrite E. done.
  - intros b. rewrite B. destruct (Hon b) as [L I]. case_bool_decide as Hb; [lia|]. rewrite bp_keys_elem in Hb.
    destruct (placed s b); [done|]. destruct Hb. apply I. lia.
Qed.

Lemma unapply_ok tl s : session_ok tl s -> exists s', unapply_breakpoints_and_watchpoints tl = Ok (unapplied s' tl) /\ pos s' = pos s /\
  session_ok (unapplied s' tl) s'.
Proof.
  intros [Ec Hw Nw Hoff Hon]. unfold unapply_breakpoints_and_watchpoints. destruct (breakpoints_applied tl) eqn:Ea; cbn [negb].
  - destruct (unapply_internal_ok (set_applied false tl) s) as (s' & E & P & W & B); [done..|]. exists s'. rewrite E. cbn [mbind res_bind].
    cbn. rewrite Nw, wp_keys_empty. splits; [done..|]. split; cbn; try done. intros b. rewrite B. split; lia.
  - exists s. split; [|split; [done|by split]]. f_equal. unfold unapplied. destruct tl. cbn in *. by subst.
Qed.

(** Breakpoints that are applied: all of those whose address space is there. *)
Lemma apply_ok tl s : session_ok tl s -> exists s', apply_breakpoints_and_watchpoints tl = Ok (set_current (Some s') (set_applied true tl)) /\
  pos s' = pos s /\ session_ok (set_current (Some s') (set_applied true tl)) s' /\
  if breakpoints_applied tl then s' = s
  else forall b, is_Some (breakpoints tl !! b) -> space_at (bp_uid b) (pos s) = true -> placeable b (pos s) = true -> placed s' b = 1%nat.
Proof.
  intros [Ec Hw Nw Hoff Hon]. unfold apply_breakpoints_and_watchpoints. destruct (breakpoints_applied tl) eqn:Ea.
  - exists s. splits; [|done|by split|done]. f_equal. destruct tl. cbn in *. by subst.
  - specialize (Hoff eq_refl). unfold apply_breakpoints_internal, with_session, current_session. cbn. rewrite Ec. cbn.
    destruct (apply_bps_ok (bp_keys (breakpoints tl)) s (bp_keys_nodup _)) as (s' & E & P & W & B). exists s'. rewrite E. cbn. rewrite Nw, wp_keys_empty. cbn.
    rewrite Nw, wp_keys_empty. splits; [done..| |].
    + split; cbn; try done; [congruence|]. intros b. rewrite B, Hoff. destruct (bool_decide (b ∈ _)) eqn:Hb; cbn [andb].
      * apply bool_decide_eq_true in Hb. rewrite bp_keys_elem in Hb. destruct (_ && _); split; lia || done.
      * split; lia.
    + intros b Hb Hs Hp. rewrite B, Hoff, Hs, Hp, bool_decide_true by by apply bp_keys_elem. done.
Qed.

(** ** Making a mark *)

Lemma heap_alter f m h ps : Forall2 represents h ps -> (forall im n, represents im n -> represents (f im) n) -> Forall2 represents (alter f m h) ps.
Proof.
  intros F Hf. apply Forall2_same_length_lookup. split; [by rewrite length_alter, (Forall2_length _ _ _ F)|].
  intros i im n E En. destruct (decide (i = m)) as [->|N].
  - rewrite list_lookup_alter_eq in E. destruct (h !! m) as [im'|] eqn:Eh; [|done]. injection E as <-. apply Hf.
    eapply Forall2_lookup_lr; done.
  - rewrite list_lookup_alter_ne in E by done. eapply Forall2_lookup_lr; done.
Qed.

Lemma represents_flag im n : represents im n -> represents (set_no_signal im) n.
Proof. by intros [? ? ? ?]. Qed.

Lemma represents_new s : (pos s < last_pos)%nat -> represents (internal_mark_new s (key_at (pos s))) (pos s).
Proof.
  intros Hs. unfold internal_mark_new. rewrite obs_task. destruct (task_there _ Hs) as [t Et]. rewrite Et. split; cbn; eauto.
  by rewrite obs_start_ticks.
Qed.

Lemma lookup_places (ps qs : list nat) m n : ps !! m = Some n -> (ps ++ qs) !! m = Some n.
Proof. intros E. by apply lookup_app_l_Some. Qed.

Lemma vector_ok_app ps qs k v : vector_ok ps k v -> vector_ok (ps ++ qs) k v.
Proof.
  intros [S F]. split.
  - eapply sorted_impl; [|done]. intros a b (n & n' & Ea & Eb & L). exists n, n'. eauto using lookup_places.
  - eapply Forall_impl; [done|]. intros m (n & En & Ek). exists n. eauto using lookup_places.
Qed.

(** What the checkpoints of marks are. *)
Definition refs (h : list InternalMark) : list (option Session * Z) := (fun im => (checkpoint im, checkpoint_refcount im)) <$> h.

Lemma refs_flag m h : refs (alter set_no_signal m h) = refs h.
Proof.
  unfold refs. apply list_eq. intros i. rewrite !list_lookup_fmap. destruct (decide (i = m)) as [->|N].
  - rewrite list_lookup_alter_eq. by destruct (h !! m).
  - by rewrite list_lookup_alter_ne.
Qed.

Lemma flags_app ps qs h : Forall2 represents h ps -> flags_ok ps h -> flags_ok (ps ++ qs) h.
Proof.
  intros F Fl i im n Ei En Ef. apply lookup_lt_Some in Ei as L. rewrite (Forall2_length _ _ _ F) in L. rewrite lookup_app_l in En by done.
  destruct (Fl _ _ _ Ei En Ef) as (m' & ? & ?). exists m'. eauto using lookup_places.
Qed.

Lemma flags_set ps h m n (single : bool) :
  flags_ok ps h -> ps !! m = Some n -> (single = true -> exists m', ps !! m' = Some (S n) /\ key_at (S n) = key_at n) ->
  flags_ok ps (if single then alter set_no_signal m h else h).
Proof.
  intros F Em Hs. destruct single; [|done]. destruct (Hs eq_refl) as (m' & Em' & Ek). intros i im n' Ei En Ef.
  destruct (decide (i = m)) as [->|N]; [simplify_eq; eauto|]. rewrite list_lookup_alter_ne in Ei by done. eauto.
Qed.

Lemma flags_new ps h s k : flags_ok ps h -> flags_ok ps (h ++ [internal_mark_new s k]).
Proof.
  intros Fl i im n' Ei En Ef. apply lookup_app_Some in Ei as [Ei|[_ Ei]]; [eauto|]. apply list_lookup_singleton_Some in Ei as [_ <-].
  unfold internal_mark_new in Ef. by destruct (current_task s).
Qed.

(** The states a singlestep with the marks of a vector as states to stop before goes over. *)
Lemma no_mark_skipped (ps : list nat) (v : list Mark) states s r s' m n :
  stepped (mkConstraints _ RunSinglestepFastForward 0 0 states) s r s' ->
  (forall m n t, m ∈ v -> ps !! m = Some n -> task_at n = Some t -> regs t ∈ states) ->
  m ∈ v -> ps !! m = Some n -> (n < last_pos)%nat -> ~ (pos s < n < pos s')%nat.
Proof.
  intros St Hst Hm En Ln Hn. destruct (task_there _ Ln) as [t Et].
  pose proof (st_fast_states _ _ _ _ St eq_refl n t (regs t) Hn Et (Hst _ _ _ Hm En Et)) as M. by rewrite matches_refl in M.
Qed.

(** Where the new marks, those of the states from [s] on, belong in the vector. *)
Definition belongs (ps : list nat) (v : list Mark) (p : nat) (i : nat) (qs : list nat) : Prop :=
  forall j m n, v !! j = Some m -> ps !! m = Some n -> if (j <? i)%nat then (n < p)%nat else forall n', n' ∈ qs -> (n' < n)%nat.

(** The state of the search at a session in state [q]: the marks of the vector before [q]
    are before [p]. *)
Record searching (ps : list nat) (v : list Mark) (states : list Registers) (k : MarkKey) (p q : nat) : Prop := {
  se_last : (q < last_pos)%nat;
  se_key : key_at q = k;
  se_le : (p <= q)%nat;
  se_vec : vector_ok ps k v;
  se_range : forall m n, m ∈ v -> ps !! m = Some n -> (n < last_pos)%nat;
  se_before : forall m n, m ∈ v -> ps !! m = Some n -> (n <= q)%nat -> (n < p)%nat;
  se_states : forall m n t, m ∈ v -> ps !! m = Some n -> task_at n = Some t -> regs t ∈ states }.

Lemma vector_key ps k v m n : vector_ok ps k v -> m ∈ v -> ps !! m = Some n -> key_at n = k.
Proof. intros [_ F] Hm En. rewrite Forall_forall in F. destruct (F m Hm) as (n' & ? & ?). congruence. Qed.

Lemma search_skip ps v states k p s r s' m n :
  searching ps v states k p (pos s) -> stepped (mkConstraints _ RunSinglestepFastForward 0 0 states) s r s' ->
  m ∈ v -> ps !! m = Some n -> (n < pos s')%nat -> (n < p)%nat.
Proof.
  intros [_ _ _ _ Hr Hb Hst] St Hm En Ln. apply (Hb m n); try done. destruct (decide (n <= pos s)%nat); [done|]. exfalso.
  eapply (no_mark_skipped ps v); [done..|by eapply Hr|lia].
Qed.

(** The session has left the key: all marks of the vector are before it. *)
Lemma search_left ps v states k p s r s' :
  searching ps v states k p (pos s) -> stepped (mkConstraints _ RunSinglestepFastForward 0 0 states) s r s' ->
  key_at (pos s') <> k -> (pos s < pos s')%nat -> belongs ps v p (List.length v) [pos s].
Proof.
  intros Se St Ek Lt j m n Ej En. apply list_elem_of_lookup_2 in Ej as Hm. apply lookup_lt_Some in Ej. rewrite (proj2 (Nat.ltb_lt _ _) Ej).
  apply (search_skip _ _ _ _ _ _ _ _ _ _ Se St Hm En). destruct (decide (n < pos s')%nat); [done|]. destruct Ek.
  transitivity (key_at (pos s)); [|apply Se]. apply (key_between (pos s) (pos s') n); [lia|by eapply se_range|].
  rewrite (se_key _ _ _ _ _ _ Se). symmetry. by eapply vector_key; [apply Se|..].
Qed.

(** The session has come to a mark of the vector. *)
Lemma search_found ps v states k p s r s' i m :
  searching ps v states k p (pos s) -> stepped (mkConstraints _ RunSinglestepFastForward 0 0 states) s r s' ->
  v !! i = Some m -> ps !! m = Some (pos s') -> (pos s < pos s')%nat -> belongs ps v p i [pos s].
Proof.
  intros Se St E0 Em0 Lt j m' n Ej En. pose proof (vo_sorted _ _ _ (se_vec _ _ _ _ _ _ Se)) as So. destruct (Nat.ltb_spec j i) as [L|L].
  - apply (search_skip _ _ _ _ _ _ _ _ m' n Se St); [by eapply list_elem_of_lookup_2|done|].
    destruct (sorted_lookup _ _ _ _ _ _ So L Ej E0) as (? & ? & ? & ? & ?). by simplify_eq.
  - intros n' ->%list_elem_of_singleton. destruct (decide (j = i)) as [->|]; [by simplify_eq|].
    destruct (sorted_lookup _ _ i j _ _ So ltac:(lia) E0 Ej) as (? & ? & ? & ? & ?). simplify_eq. lia.
Qed.

(** The session is in a state without a mark: it gets one and the search goes on. *)
Lemma search_on ps v states k p s r s' :
  searching ps v states k p (pos s) -> stepped (mkConstraints _ RunSinglestepFastForward 0 0 states) s r s' ->
  (pos s' < last_pos)%nat -> key_at (pos s') = k -> (forall m, m ∈ v -> ps !! m <> Some (pos s')) -> (pos s < pos s')%nat ->
  searching (ps ++ [pos s']) v states k p (pos s').
Proof.
  intros Se St Ls Ek Nf Lt. pose proof (vector_places _ _ _ (se_vec _ _ _ _ _ _ Se)) as Fv. rewrite Forall_forall in Fv.
  assert (forall m n, m ∈ v -> (ps ++ [pos s']) !! m = Some n -> ps !! m = Some n) as Hold.
  { intros m n Hm En. destruct (Fv m Hm) as (n' & En'). pose proof (lookup_places _ [pos s'] _ _ En'). by simplify_eq. }
  split; try done.
  - pose proof (se_le _ _ _ _ _ _ Se). lia.
  - apply vector_ok_app, Se.
  - intros m n Hm En. eapply se_range; eauto.
  - intros m n Hm En Ln. apply (search_skip _ _ _ _ _ _ _ _ m n Se St); eauto. pose proof (Nf m Hm).
    assert (n <> pos s') by (intros ->; eauto). lia.
  - intros m n t Hm En Et. eapply se_states; eauto.
Qed.

Lemma mark_loop_ok states v k p : forall fuel s tl nm last_mark ps,
  searching ps v states k p (pos s) -> (forall b, placed s b = O) -> Forall2 represents (heap tl) ps -> flags_ok ps (heap tl) ->
  ps !! last_mark = Some (pos s) -> (last_pos - pos s < fuel)%nat ->
  exists i ps' h, mark_loop fuel (mkConstraints _ RunSinglestepFastForward 0 0 states) k v nm last_mark s tl =
      Ok (i, nm ++ seq (List.length ps) (List.length ps'), set_heap h tl) /\
    Forall2 represents h (ps ++ ps') /\ flags_ok (ps ++ ps') h /\ refs h = refs (heap tl) ++ replicate (List.length ps') (None, 0) /\
    StronglySorted lt (pos s :: ps') /\ Forall (fun n => key_at n = k) ps' /\ belongs ps v p i (pos s :: ps').
Proof.
  induction fuel as [|fuel IH]; intros s tl nm last_mark ps Se Hb F Fl El Hf; [lia|]. cbn [mark_loop]. pose proof (se_last _ _ _ _ _ _ Se) as Hs.
  pose proof (se_key _ _ _ _ _ _ Se) as Hk.
  destruct (step_ok (mkConstraints _ RunSinglestepFastForward 0 0 states) s Hs) as (r & s' & -> & St). cbn [mbind res_bind].
  assert (~ trapped s (pos s)) as NT by (intros (_ & b & _ & Hpl); rewrite Hb in Hpl; lia).
  assert (pos s < pos s')%nat as Lt by (by destruct (st_progress _ _ _ _ St NT) as [|(? & _)]).
  rewrite session_key, (st_status _ _ _ _ St), (bool_decide_true (ReplayContinue = ReplayContinue)), orb_false_r by done.
  case_bool_decide as Ek; cbn [negb].
  2: { exists (List.length v), [], (heap tl). rewrite !app_nil_r. splits; try done; [by destruct tl|repeat constructor|by eapply search_left]. }
  assert (pos s' < last_pos)%nat as Hs'.
  { pose proof (pos_last s'). destruct (decide (pos s' = last_pos)) as [E|]; [|lia]. destruct (key_last (pos s) Hs). congruence. }
  rewrite (st_fast_done _ _ _ _ St eq_refl NT ltac:(congruence)). cbn [negb].
  rewrite (find_equal_ok ps) by (done || by eapply vector_places, Se). cbn [mbind res_bind].
  set (single := negb (did_fast_forward r) && _).
  assert (single = true -> pos s' = S (pos s)) as Hsingle.
  { subst single. intros [D _]%andb_true_iff. apply negb_true_iff in D. pose proof (st_fast_single _ _ _ _ St eq_refl D). lia. }
  set (h1 := if single then alter set_no_signal last_mark (heap tl) else heap tl).
  replace (if single then update_mark last_mark set_no_signal tl else tl) with (set_heap h1 tl) by (subst h1; destruct single, tl; done).
  assert (Forall2 represents h1 ps) as F1 by (subst h1; destruct single; [apply heap_alter; [done|apply represents_flag]|done]).
  assert (refs h1 = refs (heap tl)) as R1 by (subst h1; destruct single; [apply refs_flag|done]).
  destruct (list_find _ v) as [[i0 m0]|] eqn:Efind; cbn [mbind res_bind].
  - apply list_find_Some in Efind as (E0 & Em0 & _). exists i0, [], h1. rewrite !app_nil_r. splits; try done; [|repeat constructor|by eapply search_found].
    apply (flags_set ps _ _ (pos s)); [done..|]. intros Hsi. exists m0. rewrite <- (Hsingle Hsi). split; [done|congruence].
  - apply list_find_None in Efind. rewrite Forall_forall in Efind. unfold new_mark. cbn [heap set_heap].
    set (nw := internal_mark_new s' k). pose proof (Forall2_length _ _ _ F1) as Len.
    destruct (IH s' (set_heap (h1 ++ [nw]) tl) (nm ++ [List.length h1]) (List.length h1) (ps ++ [pos s'])) as (i & ps' & h & E & F3 & Fl3 & R3 & S3 & K3 & J3).
    { by eapply search_on. }
    { intros b. rewrite (st_placed _ _ _ _ St), Hb. by destruct (space_at _ _). }
    { apply Forall2_app; [done|]. apply Forall2_cons. split; [|constructor]. subst nw. rewrite <- Ek. by apply represents_new. }
    { apply flags_new, (flags_set _ _ _ (pos s)); [by apply flags_app|by apply lookup_places|]. intros Hsi. exists (List.length ps).
      rewrite <- (Hsingle Hsi), list_lookup_middle by done. split; [done|congruence]. }
    { rewrite Len. by apply list_lookup_middle. }
    { lia. }
    exists i, (pos s' :: ps'), h. replace (ps ++ pos s' :: ps') with ((ps ++ [pos s']) ++ ps') by (by rewrite <- app_assoc). splits; try done.
    + etransitivity; [exact E|]. rewrite <- app_assoc, length_app, Len. cbn. by rewrite Nat.add_1_r.
    + rewrite R3. cbn [heap set_heap]. unfold refs in *. rewrite fmap_app, R1, <- app_assoc. cbn. subst nw. unfold internal_mark_new. by destruct (current_task s').
    + constructor; [done|]. apply StronglySorted_inv in S3 as [S3 F4]. constructor; [done|]. eapply Forall_impl; [exact F4|]. intros ? ?. cbn in *. lia.
    + by constructor.
    + intros j m n Ej En. specialize (J3 j m n Ej (lookup_places _ _ _ _ En)). destruct (j <? i)%nat; [done|].
      intros n' [->|Hn']%elem_of_cons; [|by apply J3]. assert (pos s' < n)%nat by (apply J3; by left). lia.
Qed.

(** New marks go into the vector of their key as a block. *)
Lemma new_places (ps qs : list nat) : StronglySorted lt qs -> StronglySorted (before (ps ++ qs)) (seq (List.length ps) (List.length qs)).
Proof.
  intros S. apply sorted_intro. intros i j x y L [-> Li]%lookup_seq [-> Lj]%lookup_seq.
  destruct (lookup_lt_is_Some_2 qs i Li) as [n En], (lookup_lt_is_Some_2 qs j Lj) as [n' En'].
  exists n, n'. rewrite !lookup_app_r by lia. replace (List.length ps + i - List.length ps)%nat with i by lia.
  replace (List.length ps + j - List.length ps)%nat with j by lia. splits; [done..|]. by eapply (sorted_lookup lt qs i j).
Qed.

Lemma new_place (ps qs : list nat) m : m ∈ seq (List.length ps) (List.length qs) -> exists n, (ps ++ qs) !! m = Some n /\ n ∈ qs.
Proof.
  intros Hm%elem_of_seq. destruct (lookup_lt_is_Some_2 qs (m - List.length ps)) as [n En]; [lia|]. exists n. rewrite lookup_app_r by lia.
  split; [done|]. by eapply list_elem_of_lookup_2.
Qed.

Lemma belongs_take ps k v p i qs rs m : vector_ok ps k v -> belongs ps v p i qs -> m ∈ take i v -> exists n, (ps ++ rs) !! m = Some n /\ (n < p)%nat.
Proof.
  intros V B [j Ej]%list_elem_of_lookup. apply lookup_take_Some in Ej as [Ej Lj]. pose proof (vector_places _ _ _ V) as PV. rewrite Forall_forall in PV.
  destruct (PV m) as [n En]; [by eapply list_elem_of_lookup_2|]. exists n. split; [by apply lookup_places|]. specialize (B _ _ _ Ej En).
  by rewrite (proj2 (Nat.ltb_lt _ _) Lj) in B.
Qed.

Lemma belongs_drop ps k v p i qs rs m : vector_ok ps k v -> belongs ps v p i qs -> m ∈ drop i v ->
  exists n, (ps ++ rs) !! m = Some n /\ forall n', n' ∈ qs -> (n' < n)%nat.
Proof.
  intros V B [j Ej]%list_elem_of_lookup. rewrite lookup_drop in Ej. pose proof (vector_places _ _ _ V) as PV. rewrite Forall_forall in PV.
  destruct (PV m) as [n En]; [by eapply list_elem_of_lookup_2|]. exists n. split; [by apply lookup_places|]. specialize (B _ _ _ Ej En).
  by rewrite (proj2 (Nat.ltb_ge _ _) (Nat.le_add_r i j)) in B.
Qed.

Lemma insert_vector_ok ps k v p i qs :
  vector_ok ps k v -> belongs ps v p i (p :: qs) -> StronglySorted lt (p :: qs) -> Forall (fun n => key_at n = k) (p :: qs) ->
  vector_ok (ps ++ p :: qs) k (take i v ++ seq (List.length ps) (List.length (p :: qs)) ++ drop i v).
Proof.
  intros V B S K. pose proof (vector_ok_app ps (p :: qs) k v V) as [SV KV]. rewrite <- (take_drop i v) in SV, KV. apply Forall_app in KV as [K1 K2].
  assert (forall n, n ∈ p :: qs -> (p <= n)%nat) as Hp.
  { pose proof S as [_ Fp]%StronglySorted_inv. rewrite Forall_forall in Fp. intros n [->|Hn%Fp]%elem_of_cons; lia. }
  split; [apply StronglySorted_app_intro; [|apply StronglySorted_app_intro|]|rewrite !Forall_app; splits; try done].
  - by eapply StronglySorted_app_1_l.
  - by apply new_places.
  - by eapply StronglySorted_app_1_r.
  - intros x y Hx Hy. destruct (new_place _ _ _ Hx) as (a & Ea & Ha), (belongs_drop _ _ _ _ _ _ (p :: qs) _ V B Hy) as (b & Eb & Hb). exists a, b. eauto.
  - intros x y Hx Hy. destruct (belongs_take _ _ _ _ _ _ (p :: qs) _ V B Hx) as (a & Ea & Ha). apply elem_of_app in Hy as [Hy|Hy].
    + destruct (new_place _ _ _ Hy) as (b & Eb & Hb). exists a, b. splits; [done..|]. apply Hp in Hb. lia.
    + destruct (belongs_drop _ _ _ _ _ _ (p :: qs) _ V B Hy) as (b & Eb & Hb). exists a, b. splits; [done..|]. specialize (Hb p ltac:(by left)). lia.
  - apply Forall_forall. intros m Hm. destruct (new_place _ _ _ Hm) as (n & En & Hn). exists n. rewrite Forall_forall in K. eauto.
Qed.

Lemma marks_insert_ok ps tl h k v p i qs :
  marks_ok ps tl -> v = default [] (marks tl !! k) -> Forall2 represents h (ps ++ p :: qs) -> flags_ok (ps ++ p :: qs) h ->
  belongs ps v p i (p :: qs) -> StronglySorted lt (p :: qs) -> Forall (fun n => key_at n = k) (p :: qs) ->
  marks_ok (ps ++ p :: qs) (set_marks (<[k := take i v ++ seq (List.length ps) (List.length (p :: qs)) ++ drop i v]> (marks tl)) (set_heap h tl)).
Proof.
  intros O Ev F Fl B S K. assert (vector_ok ps k v) as V.
  { subst v. destruct (marks tl !! k) as [v|] eqn:Ek; [by eapply mo_vec|]. split; constructor. }
  split; cbn [heap marks set_marks set_heap]; [done| |..].
  - intros k' v' E. destruct (decide (k' = k)) as [->|N].
    + rewrite lookup_insert_eq in E. injection E as <-. by apply insert_vector_ok.
    + rewrite lookup_insert_ne in E by done. by eapply vector_ok_app, mo_vec.
  - intros m n En. apply lookup_app_Some in En as [En|[L En]].
    + destruct (mo_in _ _ O _ _ En) as (v' & Ev' & Hm). destruct (decide (key_at n = k)) as [Ek|N].
      * rewrite Ek in *. rewrite lookup_insert_eq. eexists. split; [done|]. rewrite Ev' in Ev. cbn in Ev. subst v'.
        rewrite <- (take_drop i v) in Hm. rewrite !elem_of_app in *. tauto.
      * rewrite lookup_insert_ne by done. eauto.
    + rewrite Forall_forall in K. rewrite (K n) by (by eapply list_elem_of_lookup_2). rewrite lookup_insert_eq. eexists. split; [done|].
      rewrite !elem_of_app. right. left. apply elem_of_seq. apply lookup_lt_Some in En. lia.
  - done.
Qed.

Lemma mark_protos_ok ps tl v : Forall2 represents (heap tl) ps -> Forall (fun m => exists n, ps !! m = Some n) v ->
  exists states, mark_protos v tl = Ok states /\ forall m n t, m ∈ v -> ps !! m = Some n -> task_at n = Some t -> regs t ∈ states.
Proof.
  intros F Fv. induction Fv as [|m v (n & En) Fv (states & E & IH)]; [exists []; split; [done|]; intros m n t Hm; by apply not_elem_of_nil in Hm|].
  cbn [mark_protos]. destruct (get_mark_ok _ _ _ _ F En) as (im & -> & [_ (t & Et & Ep) _ _]). cbn [mbind res_bind]. rewrite E, Ep. cbn.
  eexists. split; [done|]. intros m' n' t' [->|Hm]%elem_of_cons En' Et'; [simplify_eq; by left|right; eauto].
Qed.

(** ** The invariant of a timeline and what keeps it *)

Record inv (ps : list nat) (tl : ReplayTimeline) (s : Session) : Prop := {
  i_marks : marks_ok ps tl;
  i_session : session_ok tl s;
  i_live : (pos s < last_pos)%nat;
  i_after : forall m, current_at_or_after_mark tl = Some m -> exists n, ps !! m = Some n /\ (n <= pos s)%nat }.

(** What the debugger has set, and the checkpoints. *)
Record same_client (tl tl' : ReplayTimeline) : Prop := {
  sc_breakpoints : breakpoints tl' = breakpoints tl;
  sc_barrier : reverse_execution_barrier_event tl' = reverse_execution_barrier_event tl }.

Record same_checkpoints (tl tl' : ReplayTimeline) : Prop := {
  sk_keys : marks_with_checkpoints tl' = marks_with_checkpoints tl;
  sk_reverse : reverse_exec_checkpoints tl' = reverse_exec_checkpoints tl;
  sk_short : reverse_exec_short_checkpoint tl' = reverse_exec_short_checkpoint tl }.

#[export] Instance same_client_po : PreOrder same_client.
Proof. split; [by split|]. intros a b c [] []. split; congruence. Qed.

#[export] Instance same_checkpoints_po : PreOrder same_checkpoints.
Proof. split; [by split|]. intros a b c [] []. split; congruence. Qed.

Lemma session_ok_frame tl tl' s : session_ok tl s -> current tl' = current tl -> watchpoints tl' = watchpoints tl -> breakpoints tl' = breakpoints tl ->
  breakpoints_applied tl' = breakpoints_applied tl -> session_ok tl' s.
Proof. intros [? ? ? ? ?] Ec Ew Eb Ea. split; rewrite ?Ec, ?Ew, ?Eb, ?Ea; done. Qed.

Lemma marks_ok_frame ps tl tl' : marks_ok ps tl -> heap tl' = heap tl -> marks tl' = marks tl -> marks_ok ps tl'.
Proof. intros [? ? ? ?] Eh Em. split; rewrite ?Eh, ?Em; done. Qed.

Lemma last_vector ps k v p : vector_ok ps k v -> p ∉ ps ->
  (v = [] \/ exists m n, last v = Some m /\ ps !! m = Some n /\ (n <= p)%nat) -> belongs ps v p (List.length v) [p].
Proof.
  intros V Np Hl j m n Ej En. apply lookup_lt_Some in Ej as L. rewrite (proj2 (Nat.ltb_lt _ _) L).
  destruct Hl as [->|(ml & nl & El & Enl & Lnl)]; [done|]. assert (n <> p) by (intros ->; by apply list_elem_of_lookup_2 in En).
  rewrite last_lookup in El. destruct (decide (j = pred (List.length v))) as [->|N]; [simplify_eq; lia|].
  destruct (sorted_lookup _ _ j (pred (List.length v)) _ _ (vo_sorted _ _ _ V) ltac:(lia) Ej El) as (? & ? & ? & ? & ?). simplify_eq. lia.
Qed.

(** What placing the new mark, and the marks after it, in the vector gives. *)
Record placed_marks (ps : list nat) (tl : ReplayTimeline) (s : Session) (i : nat) (qs : list nat) (h : list InternalMark) : Prop := {
  pm_heap : Forall2 represents h (ps ++ pos s :: qs);
  pm_flags : flags_ok (ps ++ pos s :: qs) h;
  pm_refs : refs h = refs (heap tl) ++ replicate (List.length (pos s :: qs)) (None, 0);
  pm_belongs : belongs ps (default [] (marks tl !! key_at (pos s))) (pos s) i (pos s :: qs);
  pm_sorted : StronglySorted lt (pos s :: qs);
  pm_key : Forall (fun n => key_at n = key_at (pos s)) (pos s :: qs) }.

Definition with_new_mark (s : Session) (tl : ReplayTimeline) : ReplayTimeline :=
  entry_or_insert (key_at (pos s)) (set_heap (heap tl ++ [internal_mark_new s (key_at (pos s))]) tl).

Definition with_vector (s : Session) (ps : list nat) (i : nat) (qs : list nat) (h : list InternalMark) (tl : ReplayTimeline) : ReplayTimeline :=
  let v := default [] (marks tl !! key_at (pos s)) in
  set_marks (<[key_at (pos s) := take i v ++ seq (List.length ps) (List.length (pos s :: qs)) ++ drop i v]> (marks tl)) (set_heap h tl).

Lemma vector_default ps tl k : marks_ok ps tl -> vector_ok ps k (default [] (marks tl !! k)).
Proof. intros O. destruct (marks tl !! k) as [v|] eqn:Ek; [by eapply mo_vec|]. split; constructor. Qed.

Lemma refs_new s k h : refs (h ++ [internal_mark_new s k]) = refs h ++ [(None, 0)].
Proof. unfold refs. rewrite fmap_app. cbn. unfold internal_mark_new. by destruct (current_task s). Qed.

Lemma heap_new s h ps : Forall2 represents h ps -> (pos s < last_pos)%nat ->
  Forall2 represents (h ++ [internal_mark_new s (key_at (pos s))]) (ps ++ [pos s]).
Proof. intros F L. apply Forall2_app; [done|]. apply Forall2_cons. split; [by apply represents_new|constructor]. Qed.

(** Searching forward for the place of the new mark. *)
Lemma place_search_ok fuel ps tl s : inv ps tl s -> pos s ∉ ps -> (last_pos < fuel)%nat ->
  let v := default [] (marks tl !! key_at (pos s)) in
  exists i qs h s' states tl2, unapply_breakpoints_and_watchpoints (with_new_mark s tl) = Ok (unapplied s' (with_new_mark s tl)) /\
    mark_protos v (unapplied s' (with_new_mark s tl)) = Ok states /\
    mark_loop fuel (mkConstraints _ RunSinglestepFastForward 0 0 states) (key_at (pos s)) v [List.length (heap tl)] (List.length (heap tl)) s'
      (unapplied s' (with_new_mark s tl)) = Ok (i, seq (List.length ps) (List.length (pos s :: qs)), tl2) /\
    tl2 = set_heap h (unapplied s' (with_new_mark s tl)) /\
    pos s' = pos s /\ session_ok (unapplied s' tl) s' /\ placed_marks ps tl s i qs h.
Proof.
  intros [O So Li Ca] Np Hf v. pose proof (mo_heap _ _ O) as F. pose proof (Forall2_length _ _ _ F) as Len. pose proof (vector_default _ _ (key_at (pos s)) O) as V.
  fold v in V. destruct (unapply_ok (with_new_mark s tl) s) as (s' & E & P & So'); [by eapply session_ok_frame|].
  pose proof (vector_places _ _ _ V) as PV. pose proof PV as PV'. rewrite Forall_forall in PV'.
  destruct (mark_protos_ok (ps ++ [pos s]) (unapplied s' (with_new_mark s tl)) v) as (states & Es & Hst).
  { by apply heap_new. } { eapply Forall_impl; [done|]. intros m (n & En). exists n. by apply lookup_places. }
  assert (forall m n, m ∈ v -> (ps ++ [pos s]) !! m = Some n -> ps !! m = Some n) as Hold.
  { intros m n Hm En. destruct (PV' m Hm) as (n' & En'). pose proof (lookup_places _ [pos s] _ _ En'). by simplify_eq. }
  destruct (mark_loop_ok states v (key_at (pos s)) (pos s) fuel s' (unapplied s' (with_new_mark s tl)) [List.length (heap tl)] (List.length (heap tl)) (ps ++ [pos s]))
    as (i & qs & h & El & F2 & Fl2 & R2 & S2 & K2 & B2).
  { rewrite P. split; try done; [by apply vector_ok_app|..].
    - intros m n Hm En%Hold; [|done]. by destruct (heap_at _ _ _ _ F En) as (? & _ & [? _ _ _]).
    - intros m n Hm En%Hold Ln; [|done]. assert (n <> pos s) by (intros ->; by apply list_elem_of_lookup_2 in En). lia. }
  { by apply (so_off _ _ So'). } { by apply heap_new. } { apply flags_new, flags_app; [done|apply O]. }
  { rewrite Len, P. by apply list_lookup_middle. } { rewrite P. lia. }
  rewrite P in *. exists i, qs, h, s', states. eexists. splits; try done.
  - rewrite El. f_equal. rewrite length_app, Len. cbn. by rewrite Nat.add_1_r.
  - eapply session_ok_frame; done.
  - rewrite <- app_assoc in F2, Fl2. split; try done.
    + rewrite R2. cbn [heap unapplied set_current set_applied with_new_mark entry_or_insert set_marks set_heap]. unfold with_new_mark. cbn. by rewrite refs_new, <- app_assoc.
    + intros j m n Ej En. apply (B2 j m n Ej). by apply lookup_places.
    + by constructor.
Qed.

Lemma place_mark_ok fuel ps tl s : inv ps tl s -> pos s ∉ ps -> (last_pos < fuel)%nat ->
  exists i qs h s' a, place_mark fuel (key_at (pos s)) (List.length (heap tl)) (with_new_mark s tl) =
      Ok (with_vector s ps i qs h (set_current (Some s') (set_applied a tl))) /\
    pos s' = pos s /\ session_ok (set_current (Some s') (set_applied a tl)) s' /\ placed_marks ps tl s i qs h /\
    (a = true -> breakpoints_applied tl = true /\ s' = s).
Proof.
  intros I Np Hf. pose proof I as [O So Li Ca]. pose proof (mo_heap _ _ O) as F. pose proof (Forall2_length _ _ _ F) as Len.
  unfold place_mark. replace (default [] (marks (with_new_mark s tl) !! key_at (pos s))) with (default [] (marks tl !! key_at (pos s))).
  2: { cbn. by rewrite lookup_insert_eq. }
  match goal with |- context [if ?b then _ else _] => destruct b eqn:Epush end.
  - exists (List.length (default [] (marks tl !! key_at (pos s)))), [], (heap tl ++ [internal_mark_new s (key_at (pos s))]), s, (breakpoints_applied tl). splits; try done.
    + unfold with_vector. cbn [marks set_current set_applied with_new_mark]. rewrite firstn_all, drop_all, app_nil_r, Len. f_equal.
      unfold with_new_mark, entry_or_insert. cbn [marks set_heap set_marks]. rewrite insert_insert_eq. destruct tl. destruct So as [Ec _ _ _ _]. cbn in *. by rewrite Ec.
    + eapply session_ok_frame; [done|..]; try done. cbn. by destruct So.
    + split; [by apply heap_new|apply flags_new, flags_app; [done|apply O]|apply refs_new| |repeat constructor..].
      apply (last_vector _ (key_at (pos s))); [by apply vector_default|done|].
      apply orb_true_iff in Epush as [E%bool_decide_eq_true|[Ei Ee]%andb_true_iff]; [by left|right].
      apply bool_decide_eq_true in Ei as [m Em], Ee. destruct (Ca m Em) as (n & En & Ln). exists m, n. splits; try done. by rewrite <- Ee.
  - destruct (place_search_ok fuel ps tl s I Np Hf) as (i & qs & h & s' & states & tl2 & E1 & E2 & E3 & -> & P & So' & PM).
    rewrite E1. cbn [mbind res_bind]. cbn [current_session current unapplied set_current unwrap mbind res_bind]. unfold current_session. cbn [current unapplied set_current unwrap mbind res_bind].
    rewrite E2. cbn [mbind res_bind]. rewrite E3. cbn [mbind res_bind].
    exists i, qs, h, s', false. splits; try done. unfold with_vector. cbn [marks set_current set_applied unapplied set_heap with_new_mark].
    unfold with_new_mark, entry_or_insert, unapplied. cbn. by rewrite insert_insert_eq.
Qed.

(** [mark] gives a mark of the current state and keeps the order of all others. *)
Lemma mark_ok fuel ps tl s : inv ps tl s -> (last_pos < fuel)%nat -> exists m tl' s' qs, mark fuel tl = Ok (m, tl') /\
  inv (ps ++ qs) tl' s' /\ pos s' = pos s /\ (ps ++ qs) !! m = Some (pos s) /\ refs (heap tl') = refs (heap tl) ++ replicate (List.length qs) (None, 0) /\
  same_client tl tl' /\ same_checkpoints tl tl' /\ (breakpoints_applied tl' = true -> breakpoints_applied tl = true /\ s' = s).
Proof.
  intros I Hf. pose proof I as [O So Li Ca]. unfold mark. destruct (current_mark_ok _ _ _ O (so_current _ _ So) Li) as [(m & -> & Em)|(-> & Np)]; cbn [mbind res_bind].
  { exists m, tl, s, []. rewrite !app_nil_r. by splits. }
  unfold current_mark_key, current_session. rewrite (so_current _ _ So). cbn [unwrap mbind res_bind]. rewrite session_key. unfold new_mark.
  destruct (place_mark_ok fuel ps tl s I Np Hf) as (i & qs & h & s' & a & E & P & So' & [F Fl R B S K] & Ha).
  unfold with_new_mark in E. rewrite E. cbn [mbind res_bind]. eexists _, _, s', (pos s :: qs). pose proof (Forall2_length _ _ _ (mo_heap _ _ O)) as Len.
  assert ((ps ++ pos s :: qs) !! List.length (heap tl) = Some (pos s)) as Em by (rewrite Len; by apply list_lookup_middle).
  splits; try done. split; [| |by rewrite P|].
  - eapply marks_ok_frame; [eapply (marks_insert_ok ps tl h (key_at (pos s))); done|done|done].
  - eapply session_ok_frame; done.
  - cbn. intros m [= <-]. exists (pos s). split; [done|lia].
Qed.
End Marks.
End Marks.
