(* ===== verification/TimelineCheckpoints.v ===== *)
(** Checkpoints: the counts a timeline keeps of them are exact, and every operation on
    checkpoints keeps the invariant. *)

From S2P Require Import Prelude Timeline TimelineRun TimelineSpec TimelineMarks.

Module Checkpoints.

Export Marks.

Section Checkpoints.
Context `{Laws : ReplayLaws}.

(** ** Counting checkpoints *)

Definition counted (k : MarkKey) (x : option Session * Z * nat) : bool := bool_decide (is_Some x.1.1) && bool_decide (key_at x.2 = k).

(** The number of marks with the key [k] that have a checkpoint. *)
Definition count (k : MarkKey) (rs : list (option Session * Z)) (ps : list nat) : Z :=
  Z.of_nat (List.length (List.filter (counted k) (zip rs ps))).

Lemma filter_insert_length {A} (f : A -> bool) l i x y : l !! i = Some x ->
  (List.length (List.filter f (<[i := y]> l)) + Nat.b2n (f x) = List.length (List.filter f l) + Nat.b2n (f y))%nat.
Proof.
  revert i. induction l as [|a l IH]; intros [|i] E; try done; simpl in *.
  - injection E as ->. destruct (f x), (f y); simpl; lia.
  - specialize (IH i E). destruct (f a); simpl; lia.
Qed.

Lemma zip_insert_l {A B} (l : list A) (k : list B) i x y : k !! i = Some y -> zip (<[i := x]> l) k = <[i := (x, y)]> (zip l k).
Proof. revert k i. induction l as [|a l IH]; intros [|b k] [|i] E; try done; cbn in *; [by injection E as ->|by rewrite IH]. Qed.

Lemma count_insert k rs ps m x y n : rs !! m = Some x -> ps !! m = Some n ->
  count k (<[m := y]> rs) ps + Z.b2z (counted k (x, n)) = count k rs ps + Z.b2z (counted k (y, n)).
Proof.
  intros Erm En. unfold count. rewrite (zip_insert_l _ _ _ _ n) by done.
  pose proof (filter_insert_length (counted k) (zip rs ps) m (x, n) (y, n)) as L. rewrite lookup_zip_with, Erm, En in L. specialize (L eq_refl).
  destruct (counted k (x, n)), (counted k (y, n)); cbn in *; lia.
Qed.

Lemma count_app k rs ps qs : List.length rs = List.length ps -> count k (rs ++ replicate (List.length qs) (None, 0)) (ps ++ qs) = count k rs ps.
Proof.
  intros L. unfold count. rewrite zip_with_app by done. rewrite List.filter_app, length_app.
  assert (List.filter (counted k) (zip (replicate (List.length qs) (None, 0)) qs) = []) as ->; [|cbn; lia].
  induction qs as [|q qs IH]; [done|]. cbn. exact IH.
Qed.

Lemma count_positive k rs ps : 0 < count k rs ps -> exists m c r n, rs !! m = Some (Some c, r) /\ ps !! m = Some n /\ key_at n = k.
Proof.
  unfold count. destruct (List.filter (counted k) (zip rs ps)) as [|[[c r] n] l] eqn:E; [cbn; lia|]. intros _.
  assert (((c, r), n) ∈ zip rs ps /\ counted k ((c, r), n) = true) as [Hz Hc] by (apply elem_of_bfilter; rewrite E; by left).
  apply andb_true_iff in Hc as [[c' Ec]%bool_decide_eq_true Ek%bool_decide_eq_true]. cbn in *. subst c.
  apply list_elem_of_lookup in Hz as [m Hm]. rewrite lookup_zip_with in Hm. apply bind_Some in Hm as (x & Erx & Hm). apply bind_Some in Hm as (y & Ey & Hm).
  injection Hm as -> ->. eauto 8.
Qed.

(** ** The invariant *)

Definition owned (tl : ReplayTimeline) (m : Mark) : Z :=
  Z.b2z (bool_decide (m ∈ (reverse_exec_checkpoints tl).*1)).

(** [ext m] is the number of users of the checkpoint of [m] other than the timeline. *)
Record checkpoints_ok (ps : list nat) (tl : ReplayTimeline) (ext : Mark -> Z) : Prop := {
  co_keys : forall k, default 0 (marks_with_checkpoints tl !! k) = count k (refs (heap tl)) ps;
  co_positive : forall k n, marks_with_checkpoints tl !! k = Some n -> 0 < n;
  co_reverse : StronglySorted (before ps) (reverse_exec_checkpoints tl).*1;
  co_progress : Forall (fun x : Mark * Z => 0 <= x.2) (reverse_exec_checkpoints tl);
  co_short : reverse_exec_short_checkpoint tl = None;
  co_users : forall m c r, refs (heap tl) !! m = Some (c, r) -> r = owned tl m + ext m;
  co_known : forall m, ps !! m = None -> owned tl m = 0 /\ ext m = 0;
  co_ext : forall m, 0 <= ext m }.

Record good (ps : list nat) (tl : ReplayTimeline) (s : Session) (ext : Mark -> Z) : Prop := {
  g_inv : inv ps tl s;
  g_checkpoints : checkpoints_ok ps tl ext }.

Lemma owned_same tl tl' m : same_checkpoints tl tl' -> owned tl' m = owned tl m.
Proof. intros [_ Er _]. unfold owned. by rewrite Er. Qed.

Lemma owned_nonneg tl m : 0 <= owned tl m.
Proof. unfold owned. destruct (bool_decide _); cbn; lia. Qed.

Lemma before_app ps qs m m' : before ps m m' -> before (ps ++ qs) m m'.
Proof. intros (n & n' & ? & ? & ?). exists n, n'. eauto using lookup_places. Qed.

Lemma length_refs ps tl : marks_ok ps tl -> List.length (refs (heap tl)) = List.length ps.
Proof. intros O. unfold refs. rewrite length_fmap. by apply (Forall2_length _ _ _ (mo_heap _ _ O)). Qed.

(** New marks have no checkpoints. *)
Lemma checkpoints_app ps qs tl tl' ext : checkpoints_ok ps tl ext -> List.length (refs (heap tl)) = List.length ps ->
  refs (heap tl') = refs (heap tl) ++ replicate (List.length qs) (None, 0) -> same_checkpoints tl tl' -> checkpoints_ok (ps ++ qs) tl' ext.
Proof.
  intros [Ck Cp Cr Cv Cs Cu Cn Ce] Len R Sk. pose proof (fun m => owned_same tl tl' m Sk) as Ow. destruct Sk as [Ek Er Es]. split.
  - intros k. rewrite Ek, R, Ck. symmetry. by apply count_app.
  - intros k n. rewrite Ek. apply Cp.
  - rewrite Er. eapply sorted_impl; [|done]. intros; by apply before_app.
  - by rewrite Er.
  - by rewrite Es.
  - intros m c r E. rewrite Ow, R in *. apply lookup_app_Some in E as [E|[L E]]; [by eapply Cu|].
    apply lookup_replicate in E as [E _]. injection E as -> ->. rewrite Len in L. destruct (Cn m) as [-> ->]; [by apply lookup_ge_None|done].
  - intros m E. rewrite Ow. apply lookup_ge_None in E. rewrite length_app in E. apply Cn, lookup_ge_None. lia.
  - done.
Qed.

(** Going on with more marks, and no fewer users of their checkpoints; breakpoints may have
    been taken out of the session. *)
Record evolves (ps : list nat) (tl : ReplayTimeline) (s : Session) (ext : Mark -> Z)
    (ps' : list nat) (tl' : ReplayTimeline) (s' : Session) (ext' : Mark -> Z) : Prop := {
  ev_places : forall m n, ps !! m = Some n -> ps' !! m = Some n;
  ev_client : same_client tl tl';
  ev_ext : forall m, ext m <= ext' m;
  ev_applied : breakpoints_applied tl' = true -> breakpoints_applied tl = true /\ s' = s }.

Lemma evolves_refl ps tl s ext : evolves ps tl s ext ps tl s ext.
Proof. by split. Qed.

Lemma evolves_trans ps1 tl1 s1 ext1 ps2 tl2 s2 ext2 ps3 tl3 s3 ext3 :
  evolves ps1 tl1 s1 ext1 ps2 tl2 s2 ext2 -> evolves ps2 tl2 s2 ext2 ps3 tl3 s3 ext3 -> evolves ps1 tl1 s1 ext1 ps3 tl3 s3 ext3.
Proof.
  intros [A B C D] [A' B' C' D']. split; [eauto|by etransitivity| |].
  - intros m. specialize (C m). specialize (C' m). lia.
  - intros E. destruct (D' E) as [E2 ->]. by apply D.
Qed.

(** The debugger's settings and the session stay. *)
Record undisturbed (tl tl' : ReplayTimeline) : Prop := {
  ud_client : same_client tl tl';
  ud_applied : breakpoints_applied tl' = breakpoints_applied tl }.

#[export] Instance undisturbed_po : PreOrder undisturbed.
Proof. split; [by split|]. intros a b c [] []. split; [by etransitivity|congruence]. Qed.

Lemma evolves_undisturbed ps tl s ext tl' : undisturbed tl tl' -> evolves ps tl s ext ps tl' s ext.
Proof. intros [? Ea]. split; try done. by rewrite Ea. Qed.

Lemma mark_good fuel ps tl s ext : good ps tl s ext -> (last_pos < fuel)%nat -> exists m tl' s' ps', mark fuel tl = Ok (m, tl') /\
  good ps' tl' s' ext /\ pos s' = pos s /\ ps' !! m = Some (pos s) /\ evolves ps tl s ext ps' tl' s' ext /\ same_checkpoints tl tl'.
Proof.
  intros [I C] Hf. destruct (mark_ok fuel ps tl s I Hf) as (m & tl' & s' & qs & E & I' & P & Em & R & Sc & Sk & Ha). exists m, tl', s', (ps ++ qs).
  splits; try done; [|split; [|done..]; intros; by apply lookup_places]. split; [done|]. eapply checkpoints_app; [done| |done..]. apply length_refs, I.
Qed.

(** Breakpoints come and go without an effect on marks and checkpoints. *)
Lemma unapply_good ps tl s ext : good ps tl s ext -> exists s', unapply_breakpoints_and_watchpoints tl = Ok (unapplied s' tl) /\ pos s' = pos s /\
  good ps (unapplied s' tl) s' ext.
Proof.
  intros [[O So Li Ca] C]. destruct (unapply_ok tl s So) as (s' & E & P & So'). exists s'. splits; try done.
  split; [split; try done; [by eapply marks_ok_frame|by rewrite P|by rewrite P]|]. by destruct C.
Qed.

(** ** Changing the checkpoint of a mark *)

(** [f] changes the checkpoint and its count to [c] and [r]. *)
Record recounts (f : InternalMark -> InternalMark) (n : nat) (c : option Session) (r : Z) (im : InternalMark) : Prop := {
  rc_represents : represents (f im) n;
  rc_checkpoint : checkpoint (f im) = c;
  rc_refcount : checkpoint_refcount (f im) = r;
  rc_flag : singlestep_to_next_mark_no_signal (f im) = singlestep_to_next_mark_no_signal im }.

Lemma refs_alter f m h im : h !! m = Some im -> refs (alter f m h) = <[m := (checkpoint (f im), checkpoint_refcount (f im))]> (refs h).
Proof.
  intros E. unfold refs. apply list_eq. intros i. destruct (decide (i = m)) as [->|N].
  - rewrite list_lookup_insert_eq by (rewrite length_fmap; by eapply lookup_lt_Some). by rewrite list_lookup_fmap, list_lookup_alter_eq, E.
  - rewrite list_lookup_insert_ne, !list_lookup_fmap, list_lookup_alter_ne by done. done.
Qed.

Lemma marks_alter ps tl m n im f c r : marks_ok ps tl -> ps !! m = Some n -> heap tl !! m = Some im -> recounts f n c r im ->
  marks_ok ps (update_mark m f tl).
Proof.
  intros [F V I Fl] Em Eh [R _ _ Fg]. split; [|done..|].
  - cbn. apply Forall2_same_length_lookup. split; [by rewrite length_alter, (Forall2_length _ _ _ F)|]. intros i im' n' E En.
    destruct (decide (i = m)) as [->|N]; [rewrite list_lookup_alter_eq, Eh in E; by simplify_eq/=|].
    rewrite list_lookup_alter_ne in E by done. eapply Forall2_lookup_lr; done.
  - cbn. intros i im' n' E En Ef. destruct (decide (i = m)) as [->|N].
    + rewrite list_lookup_alter_eq, Eh in E. simplify_eq/=. eapply (Fl m im); congruence.
    + rewrite list_lookup_alter_ne in E by done. eauto.
Qed.

Lemma inv_alter ps tl s m n im f c r : inv ps tl s -> ps !! m = Some n -> heap tl !! m = Some im -> recounts f n c r im ->
  inv ps (update_mark m f tl) s.
Proof. intros [O So Li Ca] Em Eh Rc. split; [by eapply marks_alter|by eapply session_ok_frame|done|done]. Qed.

(** One more or one less user of a checkpoint. *)
Definition bump (m : Mark) (d : Z) (ext : Mark -> Z) : Mark -> Z := fun x => if bool_decide (x = m) then ext x + d else ext x.

Lemma bump_eq m d ext : bump m d ext m = ext m + d.
Proof. unfold bump. by rewrite bool_decide_true. Qed.

Lemma bump_ne m d ext x : x <> m -> bump m d ext x = ext x.
Proof. intros N. unfold bump. by rewrite bool_decide_false. Qed.

(** The keys with checkpoints after the mark [m] in state [n] got ([d = 1]) or lost one. *)
Definition rekeyed (n : nat) (d : Z) (ks ks' : gmap MarkKey Z) : Prop :=
  (forall k, default 0 (ks' !! k) = default 0 (ks !! k) + (if bool_decide (key_at n = k) then d else 0)) /\ (forall k z, ks' !! k = Some z -> 0 < z).

Lemma checkpoints_alter ps tl tl' ext m n c r c' r' d : checkpoints_ok ps tl ext -> ps !! m = Some n -> refs (heap tl) !! m = Some (c, r) ->
  refs (heap tl') = <[m := (c', r')]> (refs (heap tl)) -> reverse_exec_checkpoints tl' = reverse_exec_checkpoints tl ->
  reverse_exec_short_checkpoint tl' = reverse_exec_short_checkpoint tl ->
  Z.b2z (bool_decide (is_Some c')) = Z.b2z (bool_decide (is_Some c)) + d -> rekeyed n d (marks_with_checkpoints tl) (marks_with_checkpoints tl') ->
  0 <= ext m + (r' - r) -> checkpoints_ok ps tl' (bump m (r' - r) ext).
Proof.
  intros [Ck Cp Cr Cv Cs Cu Cn Ce] Em Er R Erv Esh Ed [Rk Rp] Hp.
  assert (forall x, owned tl' x = owned tl x) as Ow by (intros; unfold owned; by rewrite Erv). split.
  - intros k. rewrite Rk, Ck, R. pose proof (count_insert k _ _ _ _ (c', r') _ Er Em) as Ci. unfold counted in Ci. cbn [fst snd] in Ci.
    destruct (bool_decide (key_at n = k)); cbn [andb] in Ci; rewrite ?andb_true_r, ?andb_false_r in Ci; [|cbn in Ci; lia].
    destruct (bool_decide (is_Some c)), (bool_decide (is_Some c')); cbn in *; lia.
  - done.
  - by rewrite Erv.
  - by rewrite Erv.
  - by rewrite Esh.
  - intros x cx rx E. rewrite Ow. rewrite R in E. destruct (decide (x = m)) as [->|N].
    + rewrite list_lookup_insert_eq in E by (by eapply lookup_lt_Some). injection E as <- <-. pose proof (Cu _ _ _ Er). rewrite bump_eq. lia.
    + rewrite list_lookup_insert_ne in E by done. rewrite bump_ne by done. eauto.
  - intros x E. rewrite Ow, bump_ne by congruence. by apply Cn.
  - intros x. destruct (decide (x = m)) as [->|N]; [rewrite bump_eq; lia|rewrite bump_ne by done; apply Ce].
Qed.

Lemma evolves_bump ps tl s ext m : evolves ps tl s ext ps tl s (bump m 1 ext).
Proof. split; [done..| |done]. intros x. destruct (decide (x = m)) as [->|N]; [rewrite bump_eq|rewrite bump_ne by done]; lia. Qed.

Lemma rekeyed_add ps tl ext n : checkpoints_ok ps tl ext ->
  rekeyed n 1 (marks_with_checkpoints tl) (<[key_at n := default 0 (marks_with_checkpoints tl !! key_at n) + 1]> (marks_with_checkpoints tl)).
Proof.
  intros C. split.
  - intros k. case_bool_decide as N; [subst; by rewrite lookup_insert_eq|rewrite lookup_insert_ne by done; lia].
  - intros k z E. destruct (decide (key_at n = k)) as [<-|N]; [|rewrite lookup_insert_ne in E by done; by eapply C].
    rewrite lookup_insert_eq in E. injection E as <-. destruct (marks_with_checkpoints tl !! key_at n) as [z|] eqn:Ez; cbn; [|lia].
    pose proof (co_positive _ _ _ C _ _ Ez). lia.
Qed.

Lemma rekeyed_remove ps tl ext n z : checkpoints_ok ps tl ext -> marks_with_checkpoints tl !! key_at n = Some z ->
  rekeyed n (-1) (marks_with_checkpoints tl) (if z - 1 =? 0 then delete (key_at n) (marks_with_checkpoints tl) else <[key_at n := z - 1]> (marks_with_checkpoints tl)).
Proof.
  intros C Ez. pose proof (co_positive _ _ _ C _ _ Ez) as Hz. destruct (Z.eqb_spec (z - 1) 0) as [E|N]; split.
  - intros k. case_bool_decide as Ek; [subst k; rewrite lookup_delete_eq, Ez; cbn; lia|rewrite lookup_delete_ne by done; lia].
  - intros k y E'. apply lookup_delete_Some in E' as [_ E']. by eapply C.
  - intros k. case_bool_decide as Ek; [subst k; rewrite lookup_insert_eq, Ez; cbn; lia|rewrite lookup_insert_ne by done; lia].
  - intros k y E'. apply lookup_insert_Some in E' as [[_ <-]|[_ E']]; [lia|by eapply C].
Qed.

(** A key of a mark with a checkpoint is known. *)
Lemma key_counted ps tl ext m n c r : checkpoints_ok ps tl ext -> ps !! m = Some n -> refs (heap tl) !! m = Some (Some c, r) ->
  exists z, marks_with_checkpoints tl !! key_at n = Some z /\ 0 < z.
Proof.
  intros C Em Er. assert (0 < count (key_at n) (refs (heap tl)) ps) as Hc.
  { unfold count. assert ((Some c, r, n) ∈ List.filter (counted (key_at n)) (zip (refs (heap tl)) ps)) as Hin.
    { apply elem_of_bfilter. split; [|unfold counted; cbn; by rewrite bool_decide_true].
      apply list_elem_of_lookup. exists m. by rewrite lookup_zip_with, Er, Em. }
    destruct (List.filter _ _); [by apply not_elem_of_nil in Hin|]. cbn. lia. }
  rewrite <- (co_keys _ _ _ C) in Hc. destruct (marks_with_checkpoints tl !! key_at n) as [z|] eqn:Ez; cbn in *; [|lia]. eauto.
Qed.

Lemma rekeyed_refl tl ps ext n : checkpoints_ok ps tl ext -> rekeyed n 0 (marks_with_checkpoints tl) (marks_with_checkpoints tl).
Proof. intros C. split; [intros k; case_bool_decide; lia|apply C]. Qed.

Lemma recount_good ps tl s ext m n im f c r d ks : good ps tl s ext -> ps !! m = Some n -> heap tl !! m = Some im -> recounts f n c r im ->
  Z.b2z (bool_decide (is_Some c)) = Z.b2z (bool_decide (is_Some (checkpoint im))) + d -> rekeyed n d (marks_with_checkpoints tl) ks ->
  0 <= ext m + (r - checkpoint_refcount im) ->
  good ps (set_with_checkpoints ks (update_mark m f tl)) s (bump m (r - checkpoint_refcount im) ext).
Proof.
  intros [I C] Em Eh Rc Ed Rk Hp. split; [destruct (inv_alter _ _ _ _ _ _ _ _ _ I Em Eh Rc) as [O So Li Ca]; by split; [eapply marks_ok_frame|eapply session_ok_frame|..]|].
  eapply (checkpoints_alter ps tl); [done|done| |cbn [heap set_with_checkpoints update_mark set_heap]; rewrite (refs_alter _ _ _ im) by done|done..].
  - unfold refs. by rewrite list_lookup_fmap, Eh.
  - by rewrite (rc_checkpoint _ _ _ _ _ Rc), (rc_refcount _ _ _ _ _ Rc).
Qed.

(** A user of a checkpoint of the current state. *)
Lemma add_explicit_checkpoint_good fuel ps tl s ext : good ps tl s ext -> (last_pos < fuel)%nat -> can_clone s = true ->
  exists m tl' s' ps', add_explicit_checkpoint fuel tl = Ok (m, tl') /\ good ps' tl' s' (bump m 1 ext) /\ pos s' = pos s /\
    ps' !! m = Some (pos s) /\ evolves ps tl s ext ps' tl' s' (bump m 1 ext) /\
    reverse_exec_checkpoints tl' = reverse_exec_checkpoints tl /\ reverse_exec_short_checkpoint tl' = reverse_exec_short_checkpoint tl.
Proof.
  intros G Hf Hc. unfold add_explicit_checkpoint, can_add_checkpoint, current_session. rewrite (so_current _ _ (i_session _ _ _ (g_inv _ _ _ _ G))).
  cbn [unwrap mbind res_bind]. rewrite Hc. cbn [assert_ mbind res_bind].
  destruct (mark_good fuel ps tl s ext G Hf) as (m & tl1 & s1 & ps' & -> & G1 & P1 & Em & Ev & [_ Erv Esh]). cbn [mbind res_bind].
  destruct (heap_at _ _ _ _ (mo_heap _ _ (i_marks _ _ _ (g_inv _ _ _ _ G1))) Em) as (im & Eh & R).
  unfold get_mark. rewrite Eh. cbn [unwrap mbind res_bind]. pose proof R as [Rl (t & Et & Ep) Rs Rk].
  pose proof (co_ext _ _ _ (g_checkpoints _ _ _ _ G1) m) as He.
  assert (forall tl' s', same_client tl1 tl' -> (breakpoints_applied tl' = true -> breakpoints_applied tl1 = true /\ s' = s1) ->
    evolves ps tl s ext ps' tl' s' (bump m 1 ext)) as Hev.
  { intros tl' s' Sc Ha. eapply evolves_trans; [done|]. eapply (evolves_trans _ _ _ _ ps' tl1); [apply evolves_bump|]. by split. }
  assert (bump m (checkpoint_refcount im + 1 - checkpoint_refcount im) ext = bump m 1 ext) as Eb by (f_equal; lia).
  destruct (checkpoint im) as [ck|] eqn:Eck; cbn [mbind res_bind].
  - eexists m, _, s1, ps'. splits; [done| |done|done|by apply Hev|done|done].
    assert (recounts (set_refcount (checkpoint_refcount im + 1)) (pos s) (Some ck) (checkpoint_refcount im + 1) im) as Rc.
    { split; try done. split; cbn; eauto. rewrite Eck. destruct Rk as (? & ? & ? & ?). splits; try done. lia. }
    pose proof (recount_good _ _ _ _ _ _ _ _ _ _ 0 (marks_with_checkpoints tl1) G1 Em Eh Rc) as G2. rewrite Eck, Eb in G2. apply G2; [done|eapply rekeyed_refl, G1|lia].
  - destruct (unapply_good ps' tl1 s1 ext G1) as (s2 & -> & P2 & G2). cbn [mbind res_bind current unapplied set_current unwrap].
    eexists m, _, s2, ps'. splits; [done| |lia|done|by apply Hev|done|done].
    assert (recounts (set_refcount (checkpoint_refcount im + 1) ∘ set_checkpoint (Some s2)) (pos s) (Some s2) (checkpoint_refcount im + 1) im) as Rc.
    { split; try done. split; cbn; eauto. pose proof (g_inv _ _ _ _ G2) as [_ So2 _ _]. splits; [lia|by apply (so_off _ _ So2)|apply So2|lia]. }
    pose proof (rekeyed_add _ _ _ (pos s) (g_checkpoints _ _ _ _ G2)) as Rk2.
    assert (Z.b2z (bool_decide (is_Some (Some s2))) = Z.b2z (bool_decide (is_Some (checkpoint im))) + 1) as Ed by (by rewrite Eck).
    pose proof (recount_good _ _ _ _ _ _ _ _ _ _ _ _ G2 Em Eh Rc Ed Rk2 ltac:(lia)) as G3. rewrite Eb in G3.
    rewrite Ep. unfold update_mark in *. cbn in *. rewrite <- list_alter_alter_eq in G3. exact G3.
Qed.

(** A user of a checkpoint less. *)
Lemma remove_explicit_checkpoint_good ps tl s ext m n : good ps tl s ext -> ps !! m = Some n -> 0 < ext m ->
  exists tl', remove_explicit_checkpoint m tl = Ok tl' /\ good ps tl' s (bump m (-1) ext) /\ undisturbed tl tl' /\
    reverse_exec_checkpoints tl' = reverse_exec_checkpoints tl /\ reverse_exec_short_checkpoint tl' = reverse_exec_short_checkpoint tl /\
    marks tl' = marks tl.
Proof.
  intros G Em He. pose proof (g_checkpoints _ _ _ _ G) as C. destruct (heap_at _ _ _ _ (mo_heap _ _ (i_marks _ _ _ (g_inv _ _ _ _ G))) Em) as (im & Eh & R).
  unfold remove_explicit_checkpoint, get_mark. rewrite Eh. cbn [unwrap mbind res_bind]. pose proof R as [Rl (t & Et & Ep) Rs Rk].
  assert (refs (heap tl) !! m = Some (checkpoint im, checkpoint_refcount im)) as Er by (unfold refs; by rewrite list_lookup_fmap, Eh).
  pose proof (co_users _ _ _ C _ _ _ Er) as Eu. pose proof (owned_nonneg tl m) as Ho. rewrite (proj2 (Z.ltb_lt 0 (checkpoint_refcount im))) by lia.
  cbn [assert_ mbind res_bind]. destruct (checkpoint im) as [ck|] eqn:Eck; [|lia].
  replace (bump m (-1) ext) with (bump m (checkpoint_refcount im - 1 - checkpoint_refcount im) ext) by (f_equal; lia).
  destruct (Z.eqb_spec (checkpoint_refcount im - 1) 0) as [E0|N0].
  - assert (recounts (set_checkpoint None ∘ set_refcount (checkpoint_refcount im - 1)) n None (checkpoint_refcount im - 1) im) as Rc.
    { split; try done. split; cbn; eauto. }
    unfold remove_mark_with_checkpoint. cbn [marks_with_checkpoints update_mark set_heap]. rewrite Ep. cbn [key proto_new].
    destruct (key_counted _ _ _ _ _ _ _ C Em Er) as (z & Ez & Hz). rewrite Ez. cbn [unwrap mbind res_bind]. rewrite (proj2 (Z.ltb_lt 0 z) Hz). cbn [assert_ mbind res_bind].
    eexists. splits; try done. pose proof (rekeyed_remove _ _ _ _ _ C Ez) as Rk2.
    assert (Z.b2z (bool_decide (is_Some (@None Session))) = Z.b2z (bool_decide (is_Some (checkpoint im))) + -1) as Ed by (by rewrite Eck).
    pose proof (recount_good _ _ _ _ _ _ _ _ _ _ _ _ G Em Eh Rc Ed Rk2 ltac:(lia)) as G3. unfold update_mark in *. cbn in *. rewrite <- list_alter_alter_eq in G3. exact G3.
  - assert (recounts (set_refcount (checkpoint_refcount im - 1)) n (Some ck) (checkpoint_refcount im - 1) im) as Rc.
    { split; try done. split; cbn; eauto. rewrite Eck. destruct Rk as (? & ? & ? & ?). splits; try done. lia. }
    eexists. splits; try done. pose proof (recount_good _ _ _ _ _ _ _ _ _ _ 0 (marks_with_checkpoints tl) G Em Eh Rc) as G2. rewrite Eck in G2.
    apply G2; [done|eapply rekeyed_refl, C|lia].
Qed.

(** ** The map of automatic checkpoints *)

Definition without (m : Mark) (l : list (Mark * Z)) : list (Mark * Z) := List.filter (fun x => negb (bool_decide (x.1 = m))) l.

Lemma rec_places ps tl ext m : checkpoints_ok ps tl ext -> m ∈ (reverse_exec_checkpoints tl).*1 -> exists n, ps !! m = Some n.
Proof.
  intros C Hm. destruct (ps !! m) as [n|] eqn:E; [eauto|]. destruct (co_known _ _ _ C m E) as [Ho _]. unfold owned in Ho.
  by rewrite bool_decide_true in Ho.
Qed.

Lemma before_ne ps m m' : before ps m m' -> m' <> m.
Proof. intros (n & n' & ? & ? & ?) ->. simplify_eq. lia. Qed.

Lemma without_none m l : m ∉ l.*1 -> without m l = l.
Proof.
  induction l as [|[x p] l IH]; intros N; [done|]. cbn in *. apply not_elem_of_cons in N as [Nx N].
  rewrite bool_decide_false by done. cbn. f_equal. by apply IH.
Qed.

Lemma rec_remove_ok ps tl m n l : marks_ok ps tl -> ps !! m = Some n -> StronglySorted (before ps) l.*1 -> Forall (fun x => exists n, ps !! x = Some n) l.*1 ->
  rec_remove m l tl = Ok (without m l).
Proof.
  intros O Em. induction l as [|[x p] l IH]; intros S F; [done|]. cbn in S, F. apply StronglySorted_inv in S as [S Fx]. apply Forall_cons in F as [[nx Ex'] F].
  cbn [rec_remove]. rewrite (mark_cmp_ok ps tl m x n nx O Em Ex'). cbn [mbind res_bind without List.filter fst]. rewrite Forall_forall in Fx.
  destruct (Nat.compare_spec n nx) as [E|L|L].
  - subst. assert (m = x) as <- by (by eapply marks_inj). rewrite bool_decide_true by done. cbn. f_equal. symmetry. apply without_none.
    intros Hm. by apply (before_ne _ _ _ (Fx _ Hm)).
  - rewrite bool_decide_false by (intros ->; simplify_eq; lia). cbn. f_equal. f_equal. symmetry. apply without_none. intros Hm.
    destruct (Fx _ Hm) as (? & ? & ? & ? & ?). simplify_eq. lia.
  - rewrite bool_decide_false by (intros ->; simplify_eq; lia). cbn [negb]. rewrite IH by done. done.
Qed.

Lemma without_elem m l x : x ∈ (without m l).*1 <-> x ∈ l.*1 /\ x <> m.
Proof.
  unfold without. rewrite !list_elem_of_fmap. split.
  - intros ([y p] & -> & [Hy Ny%negb_true_iff%bool_decide_eq_false]%elem_of_bfilter). cbn in *. split; [|done]. by exists (y, p).
  - intros (([y p] & -> & Hy) & N). exists (y, p). split; [done|]. apply elem_of_bfilter. split; [done|]. cbn in *. by rewrite bool_decide_false.
Qed.

Lemma without_sorted {A} (R : A -> A -> Prop) (f : A * Z -> bool) l : StronglySorted R l.*1 -> StronglySorted R (List.filter f l).*1.
Proof.
  induction l as [|x l IH]; intros S; [done|]. cbn in *. apply StronglySorted_inv in S as [S F]. destruct (f x); cbn; [|by apply IH].
  constructor; [by apply IH|]. rewrite Forall_forall in *. intros y (z & -> & [Hz _]%elem_of_bfilter)%list_elem_of_fmap. apply F, list_elem_of_fmap. eauto.
Qed.

Lemma rec_insert_ok ps tl m n p l : marks_ok ps tl -> ps !! m = Some n -> 0 <= p -> StronglySorted (before ps) l.*1 -> Forall (fun x => exists n, ps !! x = Some n) l.*1 ->
  Forall (fun x : Mark * Z => 0 <= x.2) l ->
  exists l', rec_insert m p l tl = Ok l' /\ StronglySorted (before ps) l'.*1 /\ Forall (fun x : Mark * Z => 0 <= x.2) l' /\ (forall x, x ∈ l'.*1 <-> x = m \/ x ∈ l.*1) /\
    (List.length l' <= S (List.length l))%nat.
Proof.
  intros O Em Hp. induction l as [|[x q] l IH]; intros S F V; cbn [rec_insert].
  { exists [(m, p)]. splits; [done|repeat constructor|by repeat constructor| |done]. intros x. cbn. rewrite list_elem_of_singleton, elem_of_nil. tauto. }
  cbn in S, F. apply StronglySorted_inv in S as [S Fx]. apply Forall_cons in F as [[nx Ex'] F]. apply Forall_cons in V as [Vx V].
  rewrite (mark_cmp_ok ps tl m x n nx O Em Ex'). cbn [mbind res_bind]. destruct (Nat.compare_spec n nx) as [E|L|L].
  - subst. assert (m = x) as <- by (by eapply marks_inj). eexists. splits; [done|by constructor|by constructor| |cbn; lia].
    intros y. cbn. rewrite elem_of_cons. tauto.
  - eexists. splits; [done| |by repeat constructor| |cbn; lia].
    + cbn. constructor; [by constructor|]. constructor; [by exists n, nx|]. eapply Forall_impl; [exact Fx|]. intros y (a & b & ? & ? & ?). exists n, b. simplify_eq. splits; [done..|lia].
    + intros y. cbn. rewrite !elem_of_cons. tauto.
  - destruct (IH S F V) as (l' & -> & S' & V' & El & Ll). cbn. eexists. splits; [done| |by constructor| |cbn; lia].
    + cbn. constructor; [done|]. rewrite Forall_forall in *. intros y [->|Hy]%El; [by exists nx, n|by apply Fx].
    + intros y. cbn. rewrite !elem_of_cons, El. tauto.
Qed.

End Checkpoints.
End Checkpoints.
