(* ===== verification/TimelineAutomatic.v ===== *)
(** The checkpoints a timeline takes by itself for reverse execution: taking and discarding
    them keeps the counts exact, and their number stays logarithmic. *)

From Stdlib Require Import Floats.SpecFloat.
From S2P Require Import Prelude Float64 Timeline TimelineRun TimelineSpec TimelineMarks TimelineCheckpoints.

Module Automatic.

Export Checkpoints.

(** ** The estimate of progress is not negative *)

Definition nonneg (x : spec_float) : bool :=
  match x with S754_finite s _ _ | S754_infinity s => negb s | S754_zero _ | S754_nan => true end.

Lemma round_nonneg prec emax m e l : 0 <= m -> nonneg (binary_round_aux prec emax false m e l) = true.
Proof.
  intros Hm. unfold binary_round_aux. destruct (shr_fexp prec emax m e l) as [mrs' e'].
  destruct (shr_fexp prec emax _ e' loc_Exact) as [mrs'' e'']. destruct (shr_m mrs''); [done| |done].
  by destruct (e'' <=? emax - prec).
Qed.

Lemma normalize_nonneg prec emax m e : 0 <= m -> nonneg (binary_normalize prec emax m e false) = true.
Proof.
  intros Hm. unfold binary_normalize. destruct m as [|m|m]; [done| |lia]. unfold binary_round.
  destruct (shl_align _ _ _) as [mz ez]. by apply round_nonneg.
Qed.

Lemma add_nonneg x y : nonneg x = true -> nonneg y = true -> nonneg (F64.add x y) = true.
Proof.
  intros Hx Hy. unfold F64.add, SFadd. destruct x as [[]|[]| |[] mx ex], y as [[]|[]| |[] my ey]; try done.
  apply normalize_nonneg. unfold cond_Zopp. lia.
Qed.

Lemma mul_nonneg x y : nonneg x = true -> nonneg y = true -> nonneg (F64.mul x y) = true.
Proof. intros Hx Hy. unfold F64.mul, SFmul. destruct x as [[]|[]| |[] mx ex], y as [[]|[]| |[] my ey]; try done. by apply round_nonneg. Qed.

Lemma as_i64_nonneg x : nonneg x = true -> 0 <= as_i64 x.
Proof.
  intros Hx. unfold as_i64. destruct x as [?|[]| |[] m e]; try done. apply Z.max_le_iff. right. apply Z.min_glb; [done|].
  destruct (Z.leb_spec 0 e); [apply Z.mul_nonneg_nonneg; [lia|by apply Z.pow_nonneg]|]. apply Z.div_pos; [lia|]. apply Z.pow_pos_nonneg; lia.
Qed.

Lemma progress_nonneg st : 0 <= ticks_processed st -> 0 <= syscalls_performed st -> 0 <= bytes_written st -> 0 <= progress_of st.
Proof.
  intros Ht Hs Hb. apply as_i64_nonneg. do 3 (apply add_nonneg; [|by (apply mul_nonneg; [by vm_compute|by apply normalize_nonneg]) || by vm_compute]).
  apply mul_nonneg; [by vm_compute|by apply normalize_nonneg].
Qed.

(** ** Which checkpoints are discarded *)

Lemma count_range_spec start it n : exists k, (k <= List.length it)%nat /\ (count_range start it n).1 = (n + k)%nat /\
  (count_range start it n).2 = drop (S k) it /\ Forall (fun x : Mark * Z => start <= x.2) (take k it) /\
  (forall x : Mark * Z, it !! k = Some x -> x.2 < start).
Proof.
  revert n. induction it as [|[m v] it IH]; intros n; cbn [count_range].
  { exists O. splits; cbn; [lia|lia|done|constructor|done]. }
  destruct (Z.leb_spec start v) as [L|L].
  - destruct (IH (S n)) as (k & Hk & E1 & E2 & F & N). exists (S k). splits; cbn; [lia|lia|done|by constructor|done].
  - exists O. splits; cbn; [lia|lia|by rewrite drop_0|constructor|]. intros ? [= <-]. done.
Qed.

Lemma delete_excess_spec it n allowed : (n - allowed <= List.length it)%nat -> delete_excess it n allowed = Ok ((take (n - allowed) it).*1, Nat.min n allowed).
Proof.
  revert n. induction it as [|[m v] it IH]; intros n L; cbn [delete_excess]; destruct (Nat.leb_spec n allowed) as [Hn|Hn].
  - replace (n - allowed)%nat with O by lia. by rewrite Nat.min_l.
  - cbn in L. lia.
  - replace (n - allowed)%nat with O by lia. by rewrite Nat.min_l.
  - cbn in L. rewrite IH by lia. cbn. replace (n - allowed)%nat with (S (n - 1 - allowed)) by lia. cbn. do 2 f_equal. lia.
Qed.

Lemma i64_ok z : - I64_BOUND <= z < I64_BOUND -> i64 z = Ok z.
Proof. intros Hz. unfold i64. by rewrite (proj2 (andb_true_iff _ _)) by lia. Qed.

(** The length of the interval before one of length [len]. *)
Definition next_length (len : Z) : Z :=
  if LOW_OVERHEAD_INTER_CHECKPOINT_INTERVAL <=? len then CHECKPOINT_INTERVAL_EXPONENT * len else len + EXPECTING_REVERSE_EXEC_INTER_CHECKPOINT_INTERVAL.

Lemma next_interval_ok len : 0 < len < 2 ^ 62 -> next_interval_length len = Ok (next_length len).
Proof.
  intros Hl. unfold next_interval_length, next_length, CHECKPOINT_INTERVAL_EXPONENT, EXPECTING_REVERSE_EXEC_INTER_CHECKPOINT_INTERVAL in *.
  destruct (_ <=? len); apply i64_ok; lia.
Qed.

Lemma next_length_bounds len : 0 < len < 2 ^ 62 -> len < next_length len < 2 ^ 63.
Proof.
  unfold next_length, CHECKPOINT_INTERVAL_EXPONENT, EXPECTING_REVERSE_EXEC_INTER_CHECKPOINT_INTERVAL. destruct (_ <=? len); lia.
Qed.

(** The loop ends, deletes checkpoints it has seen, and none of them twice.  After [T] turns
    it has kept at most one checkpoint more in a turn than allowed. *)
Lemma discard_loop_ok fuel now len it in_range allowed : (List.length it < fuel)%nat -> 0 <= now < 2 ^ 62 -> 0 < len < 2 ^ 63 ->
  Forall (fun x : Mark * Z => 0 <= x.2) it -> (in_range <= allowed)%nat ->
  exists d T, discard_loop fuel now len it in_range allowed = Ok d /\ sublist d it.*1 /\
    (in_range + List.length it <= List.length d + allowed + T + S T)%nat /\ (T = O \/ Nat.iter (pred T) next_length len < now).
Proof.
  revert len it in_range allowed. induction fuel as [|fuel IH]; intros len it n a Hf Hn Hl F Ha; [lia|]. cbn [discard_loop].
  rewrite i64_ok by lia. cbn [mbind res_bind].
  destruct (count_range_spec (now - len) it n) as (k & Hk & E1 & E2 & Fk & Nk). destruct (count_range (now - len) it n) as [n' tmp]. cbn in E1, E2. subst n' tmp.
  rewrite delete_excess_spec by lia. cbn [mbind res_bind]. destruct (drop (S k) it) as [|x tmp] eqn:Et.
  { eexists _, O. splits; [done|rewrite fmap_take; apply sublist_take| |by left]. apply (f_equal List.length) in Et. rewrite length_drop in Et.
    rewrite length_fmap, length_take. cbn in Et. lia. }
  rewrite <- Et. assert (S k < List.length it)%nat as Lk by (apply (f_equal List.length) in Et; rewrite length_drop in Et; cbn in Et; lia).
  destruct (lookup_lt_is_Some_2 it k ltac:(lia)) as [y Ey]. pose proof (Nk _ Ey) as Ly. rewrite Forall_lookup in F. pose proof (F _ _ Ey) as Fy. cbn in *.
  rewrite next_interval_ok by lia. cbn [mbind res_bind].
  destruct (IH (next_length len) (drop (S k) it) (Nat.min (n + k) a) (S a)) as (d & T & -> & Sd & Ld & HT).
  - rewrite length_drop. lia.
  - done.
  - pose proof (next_length_bounds len). lia.
  - apply Forall_drop, Forall_lookup, F.
  - lia.
  - cbn [mbind res_bind]. eexists _, (S T). splits; [done| | |].
    + rewrite <- (take_drop (S k) it.*1). rewrite fmap_take, fmap_drop in *. apply sublist_app; [|done].
      replace (n + k - a)%nat with (Nat.min (n + k - a) (S k)) by lia. rewrite <- take_take. apply sublist_take.
    + rewrite length_drop in Ld. rewrite length_app, length_fmap, length_take. lia.
    + right. destruct T as [|T]; [cbn; lia|]. destruct HT as [|HT]; [done|]. cbn [pred] in *. by rewrite Nat.iter_succ_r.
Qed.

(** The lengths of the intervals grow exponentially. *)
Lemma iter_next_low n len : LOW_OVERHEAD_INTER_CHECKPOINT_INTERVAL <= len -> Nat.iter n next_length len = 2 ^ Z.of_nat n * len.
Proof.
  intros Hl. induction n as [|n IH]; [cbn; lia|]. rewrite Nat.iter_succ, IH. unfold next_length, CHECKPOINT_INTERVAL_EXPONENT, LOW_OVERHEAD_INTER_CHECKPOINT_INTERVAL in *.
  rewrite Nat2Z.inj_succ, Z.pow_succ_r by lia. pose proof (Z.pow_pos_nonneg 2 (Z.of_nat n) ltac:(lia) ltac:(lia)).
  rewrite (proj2 (Z.leb_le _ _)) by nia. lia.
Qed.

Lemma iter_next n strategy : 2 ^ Z.of_nat n * LOW_OVERHEAD_INTER_CHECKPOINT_INTERVAL <= Nat.iter (4 + n) next_length (inter_checkpoint_interval strategy).
Proof.
  rewrite Nat.add_comm, Nat.iter_add. rewrite iter_next_low by (by destruct strategy). apply Z.mul_le_mono_nonneg_l; [by apply Z.pow_nonneg|]. by destruct strategy.
Qed.

Lemma turns_log T now strategy : 0 <= now -> T = O \/ Nat.iter (pred T) next_length (inter_checkpoint_interval strategy) < now ->
  Z.of_nat T <= 5 + Z.log2 (now / LOW_OVERHEAD_INTER_CHECKPOINT_INTERVAL).
Proof.
  intros Hn HT. pose proof (Z.log2_nonneg (now / LOW_OVERHEAD_INTER_CHECKPOINT_INTERVAL)). destruct (Nat.le_gt_cases T 5) as [L|L]; [lia|].
  destruct HT as [->|HT]; [lia|]. replace (pred T) with (4 + (T - 5))%nat in HT by lia. pose proof (iter_next (T - 5) strategy).
  assert (2 ^ Z.of_nat (T - 5) <= now / LOW_OVERHEAD_INTER_CHECKPOINT_INTERVAL) as Hd by (apply Z.div_le_lower_bound; [done|lia]).
  apply Z.log2_le_mono in Hd. rewrite Z.log2_pow2 in Hd by lia. lia.
Qed.

Section Automatic.
Context `{Laws : ReplayLaws}.

Lemma estimate_progress_ok tl s : session_ok tl s -> estimate_progress tl = Ok (progress_of (statistics s)) /\ 0 <= progress_of (statistics s) < 2 ^ 62.
Proof.
  intros So. unfold estimate_progress, current_session. rewrite (so_current _ _ So). split; [done|]. pose proof (statistics_unsigned s) as (? & ? & ?).
  split; [by apply progress_nonneg|apply progress_bound].
Qed.

(** ** Taking a checkpoint over, and giving it back *)

Lemma set_reverse_exec_inv ps tl s l : inv ps tl s -> inv ps (set_reverse_exec l tl) s.
Proof. intros [O So Li Ca]. split; [by eapply marks_ok_frame|by eapply session_ok_frame|done|done]. Qed.

Lemma release_good ps tl s ext m : good ps tl s ext -> m ∈ (reverse_exec_checkpoints tl).*1 ->
  good ps (set_reverse_exec (without m (reverse_exec_checkpoints tl)) tl) s (bump m 1 ext).
Proof.
  intros [I [Ck Cp Cr Cv Cs Cu Cn Ce]] Hm. split; [by apply set_reverse_exec_inv|].
  assert (forall x, owned (set_reverse_exec (without m (reverse_exec_checkpoints tl)) tl) x + bump m 1 ext x = owned tl x + ext x) as Ow.
  { intros x. unfold owned. cbn [reverse_exec_checkpoints set_reverse_exec]. destruct (decide (x = m)) as [->|N].
    - rewrite bump_eq, (bool_decide_true (m ∈ (reverse_exec_checkpoints tl).*1)), (bool_decide_false (m ∈ (without _ _).*1)) by (done || rewrite without_elem; tauto).
      cbn. lia.
    - rewrite bump_ne by done. do 2 f_equal. apply bool_decide_ext. rewrite without_elem. tauto. }
  split; try done.
  - by apply without_sorted.
  - cbn. apply Forall_forall. intros y [Hy _]%elem_of_bfilter. rewrite Forall_forall in Cv. by apply Cv.
  - intros x c r Ex'. rewrite Ow. by eapply Cu.
  - intros x Ex'. destruct (Cn x Ex') as [Ho Hx]. pose proof (Ow x) as Ox. assert (x <> m) as N.
    { intros ->. destruct (rec_places ps tl ext m) as [n En]; [by split|done|congruence]. }
    rewrite bump_ne in * by done. lia.
  - intros x. pose proof (Ce x). destruct (decide (x = m)) as [->|N]; [rewrite bump_eq|rewrite bump_ne by done]; lia.
Qed.

Lemma acquire_good ps tl s ext m l : good ps tl s ext -> m ∉ (reverse_exec_checkpoints tl).*1 -> 0 < ext m -> StronglySorted (before ps) l.*1 ->
  Forall (fun x : Mark * Z => 0 <= x.2) l -> (forall x, x ∈ l.*1 <-> x = m \/ x ∈ (reverse_exec_checkpoints tl).*1) ->
  good ps (set_reverse_exec l tl) s (bump m (-1) ext).
Proof.
  intros [I [Ck Cp Cr Cv Cs Cu Cn Ce]] Hm He S V El. split; [by apply set_reverse_exec_inv|].
  assert (forall x, owned (set_reverse_exec l tl) x + bump m (-1) ext x = owned tl x + ext x) as Ow.
  { intros x. unfold owned. cbn [reverse_exec_checkpoints set_reverse_exec]. destruct (decide (x = m)) as [->|N].
    - rewrite bump_eq, (bool_decide_true (m ∈ l.*1)), (bool_decide_false (m ∈ (reverse_exec_checkpoints tl).*1)) by (done || rewrite El; tauto). cbn. lia.
    - rewrite bump_ne by done. do 2 f_equal. apply bool_decide_ext. rewrite El. tauto. }
  split; try done.
  - intros x c r Ex'. rewrite Ow. by eapply Cu.
  - intros x Ex'. destruct (Cn x Ex') as [Ho Hx]. pose proof (Ow x) as Ox. assert (x <> m) as N by (intros ->; lia).
    rewrite bump_ne in * by done. lia.
  - intros x. pose proof (Ce x). destruct (decide (x = m)) as [->|N]; [rewrite bump_eq|rewrite bump_ne by done]; lia.
Qed.

Lemma replace_good ps tl s ext l : good ps tl s ext -> StronglySorted (before ps) l.*1 -> Forall (fun x : Mark * Z => 0 <= x.2) l ->
  (forall x, x ∈ l.*1 <-> x ∈ (reverse_exec_checkpoints tl).*1) -> good ps (set_reverse_exec l tl) s ext.
Proof.
  intros [I [Ck Cp Cr Cv Cs Cu Cn Ce]] S V El. split; [by apply set_reverse_exec_inv|].
  assert (forall x, owned (set_reverse_exec l tl) x = owned tl x) as Ow by (intros x; unfold owned; cbn; f_equal; by apply bool_decide_ext).
  split; try done; [intros x c r; rewrite Ow; apply Cu|intros x; rewrite Ow; apply Cn].
Qed.

(** The map of automatic checkpoints has no effect on the counts. *)
Lemma remove_explicit_frame m tl l : remove_explicit_checkpoint m (set_reverse_exec l tl) = (tl' ← remove_explicit_checkpoint m tl; Ok (set_reverse_exec l tl')).
Proof.
  unfold remove_explicit_checkpoint, get_mark. cbn [heap set_reverse_exec]. destruct (heap tl !! m) as [im|]; [|done]. cbn [unwrap mbind res_bind].
  destruct (0 <? checkpoint_refcount im); [|done]. cbn [assert_ mbind res_bind]. destruct (_ =? 0); [|done].
  unfold remove_mark_with_checkpoint. cbn [marks_with_checkpoints update_mark set_heap set_reverse_exec].
  destruct (marks_with_checkpoints tl !! key (proto im)) as [n|]; [|done]. cbn [unwrap mbind res_bind]. by destruct (0 <? n).
Qed.

Lemma bump_cancel m d ext x : bump m (- d) (bump m d ext) x = ext x.
Proof. destruct (decide (x = m)) as [->|N]; [rewrite !bump_eq; lia|by rewrite !bump_ne]. Qed.

Lemma good_ext ps tl s ext ext' : good ps tl s ext -> (forall x, ext' x = ext x) -> good ps tl s ext'.
Proof.
  intros [I [Ck Cp Cr Cv Cs Cu Cn Ce]] E. split; [done|]. split; try done; [intros m c r; rewrite E; apply Cu|intros m; rewrite E; apply Cn|intros m; by rewrite E].
Qed.

Lemma discard_checkpoint_good ps tl s ext m : good ps tl s ext -> m ∈ (reverse_exec_checkpoints tl).*1 ->
  exists tl', discard_checkpoint m tl = Ok tl' /\ good ps tl' s ext /\ undisturbed tl tl' /\
    reverse_exec_checkpoints tl' = without m (reverse_exec_checkpoints tl).
Proof.
  intros G Hm. pose proof (release_good _ _ _ _ _ G Hm) as G1. destruct (rec_places _ _ _ _ (g_checkpoints _ _ _ _ G) Hm) as [n En].
  pose proof (co_ext _ _ _ (g_checkpoints _ _ _ _ G) m) as He.
  destruct (remove_explicit_checkpoint_good _ _ _ _ _ _ G1 En) as (tl' & E & G2 & Sc & Er & Es & Em); [rewrite bump_eq; lia|].
  rewrite remove_explicit_frame in E. unfold discard_checkpoint. destruct (remove_explicit_checkpoint m tl) as [tl1| | |] eqn:E1; try done.
  injection E as <-. cbn [mbind res_bind]. cbn [reverse_exec_checkpoints set_reverse_exec] in *.
  assert (reverse_exec_checkpoints tl1 = reverse_exec_checkpoints tl) as Erv.
  { clear -E1. unfold remove_explicit_checkpoint, get_mark in E1. destruct (heap tl !! m) as [im|]; [|done]. cbn [unwrap mbind res_bind] in E1.
    destruct (0 <? checkpoint_refcount im); [|done]. cbn [assert_ mbind res_bind] in E1. destruct (_ =? 0); [|by injection E1 as <-].
    unfold remove_mark_with_checkpoint in E1. destruct (_ !! _) as [z|]; [|done]. cbn [unwrap mbind res_bind] in E1. destruct (0 <? z); [|done]. by injection E1 as <-. }
  pose proof (g_inv _ _ _ _ G2) as I2. pose proof (g_checkpoints _ _ _ _ G) as C. rewrite Erv, (rec_remove_ok ps tl1 m n).
  - cbn [mbind res_bind]. eexists. splits; [done| |by destruct Sc as [[] ?]; split; [split|]|done]. eapply good_ext; [exact G2|]. intros x. symmetry. apply (bump_cancel m 1).
  - eapply marks_ok_frame; [apply I2|done|done].
  - done.
  - apply C.
  - apply Forall_forall. intros x Hx. by eapply rec_places.
Qed.

Lemma without_length m l : NoDup l.*1 -> m ∈ l.*1 -> List.length l = S (List.length (without m l)).
Proof.
  induction l as [|[x p] l IH]; intros Nd Hm; [by apply elem_of_nil in Hm|]. cbn in *. apply NoDup_cons in Nd as [Nx Nd].
  apply elem_of_cons in Hm as [->|Hm].
  - rewrite bool_decide_true by done. cbn. f_equal. rewrite <- (without_none x l) at 1 by done. done.
  - rewrite bool_decide_false by set_solver. cbn. f_equal. by apply IH.
Qed.

Lemma sorted_nodup ps l : StronglySorted (before ps) l -> NoDup l.
Proof.
  induction 1 as [|x l S IH F]; constructor; [|done]. intros Hx. rewrite Forall_forall in F. by apply (before_ne _ _ _ (F _ Hx)).
Qed.

Lemma discard_all_good ps s ext ds tl : good ps tl s ext -> NoDup ds -> (forall m, m ∈ ds -> m ∈ (reverse_exec_checkpoints tl).*1) ->
  exists tl', for_each discard_checkpoint ds tl = Ok tl' /\ good ps tl' s ext /\ undisturbed tl tl' /\
    (List.length (reverse_exec_checkpoints tl') + List.length ds = List.length (reverse_exec_checkpoints tl))%nat /\
    (forall x, x ∈ (reverse_exec_checkpoints tl').*1 -> x ∈ (reverse_exec_checkpoints tl).*1).
Proof.
  revert tl. induction ds as [|d ds IH]; intros tl G Nd Hd; cbn [for_each].
  { exists tl. splits; [done|done|reflexivity|cbn; lia|done]. }
  apply NoDup_cons in Nd as [Nx Nd]. assert (d ∈ (reverse_exec_checkpoints tl).*1) as Hdd by (apply Hd; by left).
  destruct (discard_checkpoint_good ps tl s ext d G Hdd) as (tl1 & -> & G1 & Sc1 & Er1). cbn [mbind res_bind].
  destruct (IH tl1 G1 Nd) as (tl2 & -> & G2 & Sc2 & L2 & M2).
  { intros m Hm. rewrite Er1, without_elem. split; [apply Hd; by right|]. by intros ->. }
  exists tl2. splits; [done|done|by etransitivity| |].
  - rewrite Er1 in L2. pose proof (sorted_nodup _ _ (co_reverse _ _ _ (g_checkpoints _ _ _ _ G))) as N. rewrite (without_length d _ N Hdd). cbn. lia.
  - intros x Hx%M2. rewrite Er1, without_elem in Hx. by destruct Hx.
Qed.

(** The bound on the number of automatic checkpoints. *)
Definition checkpoint_bound (now : Z) : Z := 11 + 2 * Z.log2 (now / LOW_OVERHEAD_INTER_CHECKPOINT_INTERVAL).

Lemma discard_past_good ps tl s ext strategy : good ps tl s ext -> exists tl', discard_past_reverse_exec_checkpoints strategy tl = Ok tl' /\
  good ps tl' s ext /\ undisturbed tl tl' /\ Z.of_nat (List.length (reverse_exec_checkpoints tl')) <= checkpoint_bound (progress_of (statistics s)) /\
  (forall x, x ∈ (reverse_exec_checkpoints tl').*1 -> x ∈ (reverse_exec_checkpoints tl).*1).
Proof.
  intros G. unfold discard_past_reverse_exec_checkpoints. destruct (estimate_progress_ok tl s (i_session _ _ _ (g_inv _ _ _ _ G))) as [-> Hn]. cbn [mbind res_bind].
  pose proof (g_checkpoints _ _ _ _ G) as C.
  destruct (discard_loop_ok (S (List.length (reverse_exec_checkpoints tl))) (progress_of (statistics s)) (inter_checkpoint_interval strategy)
    (rev (reverse_exec_checkpoints tl)) 0 0) as (d & T & -> & Sd & Ld & HT).
  - rewrite length_rev. lia.
  - done.
  - by destruct strategy.
  - apply Forall_rev, C.
  - done.
  - cbn [mbind res_bind]. assert (rev (reverse_exec_checkpoints tl) = reverse (reverse_exec_checkpoints tl)) as Erv by (by rewrite rev_alt).
    rewrite Erv, fmap_reverse in Sd. destruct (discard_all_good ps s ext d tl G) as (tl' & -> & G' & Sc & L & M).
    + eapply sublist_NoDup; [|exact Sd]. rewrite reverse_Permutation. eapply sorted_nodup, C.
    + intros m Hm. apply elem_of_reverse. by eapply elem_of_submseteq, sublist_submseteq.
    + exists tl'. splits; try done. pose proof (turns_log T (progress_of (statistics s)) strategy ltac:(lia) HT). rewrite length_rev in Ld. unfold checkpoint_bound. lia.
Qed.

Lemma discard_future_loop_good fuel ps tl s ext now : good ps tl s ext -> (List.length (reverse_exec_checkpoints tl) < fuel)%nat ->
  exists tl', discard_future_loop fuel now tl = Ok tl' /\ good ps tl' s ext /\ undisturbed tl tl' /\
    (List.length (reverse_exec_checkpoints tl') <= List.length (reverse_exec_checkpoints tl))%nat /\
    (forall x : Mark * Z, last (reverse_exec_checkpoints tl') = Some x -> x.2 <= now).
Proof.
  revert tl. induction fuel as [|fuel IH]; intros tl G L; [lia|]. cbn [discard_future_loop].
  destruct (last (reverse_exec_checkpoints tl)) as [[m v]|] eqn:El; [|exists tl; splits; try done; by rewrite El].
  destruct (Z.leb_spec v now) as [Lv|Lv]; [exists tl; splits; try done; by rewrite El; intros ? [= <-]|].
  assert (m ∈ (reverse_exec_checkpoints tl).*1) as Hm.
  { apply list_elem_of_fmap. exists (m, v). split; [done|]. rewrite last_lookup in El. by eapply list_elem_of_lookup_2. }
  destruct (discard_checkpoint_good ps tl s ext m G Hm) as (tl1 & -> & G1 & Sc1 & Er1). cbn [mbind res_bind].
  pose proof (sorted_nodup _ _ (co_reverse _ _ _ (g_checkpoints _ _ _ _ G))) as N. pose proof (without_length m _ N Hm) as Lw. rewrite <- Er1 in Lw.
  destruct (IH tl1 G1) as (tl2 & E2 & G2 & Sc2 & L2 & H2); [lia|]. exists tl2. splits; [done|done|by etransitivity|lia|done].
Qed.

Lemma can_add_ok tl s : session_ok tl s -> can_add_checkpoint tl = Ok (can_clone s).
Proof. intros So. unfold can_add_checkpoint, current_session. by rewrite (so_current _ _ So). Qed.

(** Taking an automatic checkpoint keeps the invariant; it has at most one user too many. *)
Lemma maybe_add_good fuel ps tl s ext strategy : good ps tl s ext -> (last_pos < fuel)%nat ->
  exists tl' s' ps' ext', maybe_add_reverse_exec_checkpoint fuel strategy tl = Ok tl' /\ good ps' tl' s' ext' /\ pos s' = pos s /\
    evolves ps tl s ext ps' tl' s' ext' /\
    Z.of_nat (List.length (reverse_exec_checkpoints tl')) <= Z.max (Z.of_nat (List.length (reverse_exec_checkpoints tl))) (1 + checkpoint_bound (progress_of (statistics s))).
Proof.
  intros G Hf. unfold maybe_add_reverse_exec_checkpoint, discard_future_reverse_exec_checkpoints.
  destruct (estimate_progress_ok tl s (i_session _ _ _ (g_inv _ _ _ _ G))) as [-> Hn]. cbn [mbind res_bind].
  destruct (discard_future_loop_good (S (List.length (reverse_exec_checkpoints tl))) ps tl s ext (progress_of (statistics s)) G ltac:(lia)) as (tl1 & -> & G1 & Sc1 & L1 & H1).
  cbn [mbind res_bind]. destruct (estimate_progress_ok tl1 s (i_session _ _ _ (g_inv _ _ _ _ G1))) as [-> _]. cbn [mbind res_bind].
  set (now := progress_of (statistics s)) in *.
  assert (exists b : bool, match last (reverse_exec_checkpoints tl1) with Some (_, v) => start ← i64 (now - inter_checkpoint_interval strategy); Ok (start <=? v) | None => Ok false end = Ok b) as (close & ->).
  { destruct (last (reverse_exec_checkpoints tl1)) as [[]|]; [|eauto]. rewrite i64_ok by (destruct strategy; cbv [inter_checkpoint_interval LOW_OVERHEAD_INTER_CHECKPOINT_INTERVAL EXPECTING_REVERSE_EXEC_INTER_CHECKPOINT_INTERVAL]; lia).
    eauto. }
  cbn [mbind res_bind]. assert (evolves ps tl s ext ps tl1 s ext) as Ev1 by (by apply evolves_undisturbed).
  destruct close; [exists tl1, s, ps, ext; splits; try done; lia|]. rewrite (can_add_ok tl1 s (i_session _ _ _ (g_inv _ _ _ _ G1))). cbn [mbind res_bind].
  destruct (can_clone s) eqn:Ec; cbn [negb]; [|exists tl1, s, ps, ext; splits; try done; lia].
  destruct (discard_past_good ps tl1 s ext strategy G1) as (tl2 & -> & G2 & Sc2 & L2 & _). cbn [mbind res_bind].
  destruct (add_explicit_checkpoint_good fuel ps tl2 s ext G2 Hf Ec) as (m & tl3 & s3 & ps3 & E3 & G3 & P3 & Em & Ev3 & Er3 & _). rewrite E3. cbn [mbind res_bind].
  pose proof (g_checkpoints _ _ _ _ G3) as C3.
  destruct (rec_insert_ok ps3 tl3 m (pos s) now (reverse_exec_checkpoints tl3)) as (l & -> & Sl & Vl & El & Ll); [apply G3|done|lia|apply C3| |apply C3|].
  { apply Forall_forall. intros x Hx. by eapply rec_places. }
  cbn [mbind res_bind]. assert (evolves ps tl s ext ps3 tl3 s3 (bump m 1 ext)) as Ev.
  { eapply evolves_trans; [exact Ev1|]. eapply evolves_trans; [|exact Ev3]. by apply evolves_undisturbed. }
  pose proof (co_ext _ _ _ (g_checkpoints _ _ _ _ G) m) as He. rewrite Er3 in Ll. fold now in L2.
  destruct (decide (m ∈ (reverse_exec_checkpoints tl3).*1)) as [Hm|Hm].
  - exists (set_reverse_exec l tl3), s3, ps3, (bump m 1 ext). splits; [done| |done|by destruct Ev as [? [] ?]; split; [|split|..]|cbn; lia].
    apply replace_good; try done. intros x. rewrite El. split; [by intros [->|]|by right].
  - exists (set_reverse_exec l tl3), s3, ps3, ext. splits; [done| |done|by destruct Ev as [? [] ?]; split; [|split|..]|cbn; lia].
    eapply good_ext; [eapply (acquire_good _ _ _ (bump m 1 ext)); try done; rewrite bump_eq; lia|]. intros x. symmetry. apply (bump_cancel m 1).
Qed.

Lemma set_short_good fuel ps tl s ext : good ps tl s ext -> (last_pos < fuel)%nat -> exists m tl' s' ps' ext', set_short_checkpoint fuel tl = Ok (m, tl') /\
  good ps' tl' s' ext' /\ pos s' = pos s /\ ps' !! m = Some (pos s) /\ evolves ps tl s ext ps' tl' s' ext'.
Proof.
  intros G Hf. unfold set_short_checkpoint. rewrite (can_add_ok tl s) by apply G. cbn [mbind res_bind]. destruct (can_clone s) eqn:Ec; cbn [negb].
  - destruct (add_explicit_checkpoint_good fuel ps tl s ext G Hf Ec) as (m & tl' & s' & ps' & -> & G' & P & Em & Ev & _ & Es). cbn [mbind res_bind].
    rewrite (co_short _ _ _ (g_checkpoints _ _ _ _ G')). eauto 10.
  - destruct (mark_good fuel ps tl s ext G Hf) as (m & tl' & s' & ps' & -> & G' & P & Em & Ev & _). eauto 10.
Qed.

End Automatic.
End Automatic.
