(* ===== verification/TimelineSeek.v ===== *)
(** Seeking: restoring the checkpoint to start from, replaying up to a mark, and that
    [seek_to_mark] ends in the state of the mark. *)

From S2P Require Import Prelude Timeline TimelineRun TimelineSpec TimelineMarks TimelineCheckpoints TimelineAutomatic.

Module Seek.

Export Automatic.

(** ** Least and greatest keys *)

Lemma min_key_spec l : match min_key l with Some k => k ∈ l /\ (forall k', k' ∈ l -> key_le k k' = true) | None => l = [] end.
Proof.
  induction l as [|a l IH]; [done|]. cbn. fold (min_key l). destruct (min_key l) as [k|].
  - destruct IH as [Hk Hl]. destruct (key_lt a k) eqn:E.
    + split; [by left|]. intros k' [->|Hk']%elem_of_cons; [by unfold key_le; rewrite key_lt_irrefl|].
      unfold key_le. destruct (key_lt k' a) eqn:E'; [|done]. pose proof (key_lt_trans _ _ _ E' E) as T. specialize (Hl _ Hk'). unfold key_le in Hl. by rewrite T in Hl.
    + split; [by right|]. intros k' [->|Hk']%elem_of_cons; [unfold key_le; by rewrite E|by apply Hl].
  - subst. split; [by left|]. intros k' [->|[]%elem_of_nil]%elem_of_cons. unfold key_le. by rewrite key_lt_irrefl.
Qed.

Lemma max_key_spec l : match max_key l with Some k => k ∈ l /\ (forall k', k' ∈ l -> key_le k' k = true) | None => l = [] end.
Proof.
  induction l as [|a l IH]; [done|]. cbn. fold (max_key l). destruct (max_key l) as [k|].
  - destruct IH as [Hk Hl]. destruct (key_lt k a) eqn:E.
    + split; [by left|]. intros k' [->|Hk']%elem_of_cons; [by unfold key_le; rewrite key_lt_irrefl|].
      unfold key_le. destruct (key_lt a k') eqn:E'; [|done]. pose proof (key_lt_trans _ _ _ E E') as T. specialize (Hl _ Hk'). unfold key_le in Hl. by rewrite T in Hl.
    + split; [by right|]. intros k' [->|Hk']%elem_of_cons; [unfold key_le; by rewrite E|by apply Hl].
  - subst. split; [by left|]. intros k' [->|[]%elem_of_nil]%elem_of_cons. unfold key_le. by rewrite key_lt_irrefl.
Qed.

(** Whether the lower bound of a key is the beginning of the map. *)
Lemma lower_bound_begin k l : min_key (List.filter (fun k' => key_le k k') l) = min_key l <-> (forall k', k' ∈ l -> key_le k k' = true).
Proof.
  split.
  - intros E k' Hk'. pose proof (min_key_spec l) as M. pose proof (min_key_spec (List.filter (fun k' => key_le k k') l)) as M'. rewrite E in M'.
    destruct (min_key l) as [k0|]; [|subst; by apply elem_of_nil in Hk']. destruct M as [_ M], M' as [[_ L]%elem_of_bfilter _].
    eapply key_le_trans; [exact L|by apply M].
  - intros F. rewrite forallb_filter_id; [done|]. apply forallb_forall. intros x Hx. apply F. by apply list_elem_of_In.
Qed.

Section Seek.
Context `{Laws : ReplayLaws}.

(** ** The checkpoint to start from *)

Definition checkpointed (ps : list nat) (tl : ReplayTimeline) (n : nat) : Prop :=
  exists m c r, refs (heap tl) !! m = Some (Some c, r) /\ ps !! m = Some n.

Lemma keys_checkpointed ps tl ext k : checkpoints_ok ps tl ext -> k ∈ (map_to_list (marks_with_checkpoints tl)).*1 <-> exists n, checkpointed ps tl n /\ key_at n = k.
Proof.
  intros C. rewrite list_elem_of_fmap. split.
  - intros ([k' z] & -> & Hz%elem_of_map_to_list). cbn. pose proof (co_positive _ _ _ C _ _ Hz) as P. pose proof (co_keys _ _ _ C k') as K. rewrite Hz in K. cbn in K.
    destruct (count_positive k' (refs (heap tl)) ps) as (m & c & r & n & Er & Em & Ek); [lia|]. exists n. split; [|done]. by exists m, c, r.
  - intros (n & (m & c & r & Er & Em) & <-). destruct (key_counted _ _ _ _ _ _ _ C Em Er) as (z & Ez & _). exists (key_at n, z). split; [done|]. by apply elem_of_map_to_list.
Qed.

(** A timeline that has been moved to another session without breakpoints. *)
Lemma moved_good ps tl s ext s' a : good ps tl s ext -> (forall b, placed s' b = O) -> watched s' = false -> (pos s' < last_pos)%nat ->
  (forall m, a = Some m -> exists n, ps !! m = Some n /\ (n <= pos s')%nat) ->
  good ps (set_at_or_after a (set_applied false (set_current (Some s') tl))) s' ext.
Proof.
  intros [[O So Li Ca] C] P W L A. split; [|by destruct C]. split; [by eapply marks_ok_frame| |done|done].
  split; try done; [apply So|intros b; rewrite P; split; lia].
Qed.

Lemma first_checkpoint_ok ps tl v : marks_ok ps tl -> Forall (fun m => exists n, ps !! m = Some n) v ->
  exists o, first_checkpoint v tl = Ok o /\
    match o with
    | Some (m, s) => exists n, m ∈ v /\ ps !! m = Some n /\ pos s = n /\ (forall b, placed s b = O) /\ watched s = false /\ (n < last_pos)%nat
    | None => forall m c r, m ∈ v -> refs (heap tl) !! m = Some (Some c, r) -> False
    end.
Proof.
  intros O. induction v as [|m v IH]; intros F; cbn [first_checkpoint]; [exists None; split; [done|]; intros m c r []%elem_of_nil|].
  apply Forall_cons in F as [[n En] F]. destruct (heap_at _ _ _ _ (mo_heap _ _ O) En) as (im & Eh & [Hn _ _ Rk]). unfold get_mark. rewrite Eh. cbn [unwrap mbind res_bind].
  destruct (checkpoint im) as [s|] eqn:Ec.
  - exists (Some (m, s)). split; [done|]. exists n. destruct Rk as (? & ? & ? & ?). splits; [by left|done..].
  - destruct (IH F) as (o & -> & Ho). exists o. split; [done|]. destruct o as [[m' s]|].
    + destruct Ho as (n' & ? & Ho). exists n'. splits; [by right|apply Ho..].
    + intros m' c r [->|Hm]%elem_of_cons Er; [|by eapply Ho]. unfold refs in Er. rewrite list_lookup_fmap, Eh in Er. cbn in Er. congruence.
Qed.

Lemma entry_frame ps tl k : marks_ok ps tl -> marks_ok ps (entry_or_insert k tl) /\ marks (entry_or_insert k tl) !! k = Some (default [] (marks tl !! k)).
Proof.
  intros [F V I Fl]. split; [|cbn; by rewrite lookup_insert_eq]. split; [done| | |done]; cbn.
  - intros k' v. destruct (decide (k = k')) as [<-|N]; [rewrite lookup_insert_eq|rewrite lookup_insert_ne by done; apply V]. intros [= <-].
    destruct (marks tl !! k) as [v|] eqn:E; [by apply V|]. by split; constructor.
  - intros m n Em. destruct (I m n Em) as (v & Ev & Hv). exists v. split; [|done]. destruct (decide (k = key_at n)) as [->|N]; [by rewrite lookup_insert_eq, Ev|by rewrite lookup_insert_ne].
Qed.

Lemma good_entry ps tl s ext k : good ps tl s ext -> good ps (entry_or_insert k tl) s ext.
Proof.
  intros [[O So Li Ca] C]. split; [|by destruct C]. split; [by apply entry_frame|by eapply session_ok_frame|done|done].
Qed.

Lemma restore_first ps tl s ext k : good ps tl s ext -> (exists n, checkpointed ps tl n /\ key_at n = k) -> let tl' := entry_or_insert k (set_current None tl) in
  exists m s', first_checkpoint (default [] (marks tl' !! k)) tl' = Ok (Some (m, s')) /\ good ps (restore_checkpoint m s' tl') s' ext /\ key_at (pos s') = k.
Proof.
  intros G (n & (m & c & r & Er & Em) & Ek) tl'. pose proof (good_entry ps tl s ext k G) as G'. pose proof (g_inv _ _ _ _ G') as [O' _ _ _].
  assert (marks_ok ps tl') as O1 by (by eapply marks_ok_frame). destruct (mo_in _ _ O1 m n Em) as (v & Ev & Hv). rewrite Ek in Ev. rewrite Ev. change (default [] (Some v)) with v.
  pose proof (mo_vec _ _ O1 _ _ Ev) as [_ Vk]. destruct (first_checkpoint_ok ps tl' v O1) as (o & -> & Ho); [eapply Forall_impl; [exact Vk|]; naive_solver|].
  destruct o as [[m' s']|]; [|by destruct (Ho m c r Hv Er)]. destruct Ho as (n' & Hm' & Em' & P & Pl & W & L). exists m', s'. split; [done|]. split.
  - apply (moved_good ps (entry_or_insert k tl) s ext s' (Some m') G' Pl W); [lia|]. intros ? [= <-]. exists n'. split; [done|lia].
  - rewrite Forall_forall in Vk. destruct (Vk _ Hm') as (n'' & ? & ?). rewrite P. congruence.
Qed.

(** [seek_to_before_key] does not fail and ends before the key (at the start, if nothing is
    before it), and no checkpoint before the key would have been closer. *)
Lemma seek_to_before_key_good ps tl s ext k : good ps tl s ext -> exists tl' s', seek_to_before_key k tl = Ok tl' /\ good ps tl' s' ext /\
  same_client tl tl' /\ (breakpoints_applied tl' = true -> breakpoints_applied tl = true /\ s' = s) /\ (key_lt (key_at (pos s')) k = true \/ pos s' = O) /\
  (forall n, checkpointed ps tl n -> key_lt (key_at n) k = true -> key_lt (key_at (pos s')) k = true /\ key_le (key_at n) (key_at (pos s')) = true).
Proof.
  intros G. pose proof (g_inv _ _ _ _ G) as [O So Li Ca]. pose proof (g_checkpoints _ _ _ _ G) as C. unfold seek_to_before_key, current_mark_key, current_session.
  rewrite (so_current _ _ So). cbn [unwrap mbind res_bind]. rewrite session_key. set (keys := (map_to_list (marks_with_checkpoints tl)).*1).
  case_bool_decide as E; rewrite lower_bound_begin in E.
  - assert (forall n, checkpointed ps tl n -> key_lt (key_at n) k = true -> False) as None'.
    { intros n Hn L. specialize (E (key_at n) (proj2 (keys_checkpointed _ _ _ _ C) (ex_intro _ n (conj Hn eq_refl)))). unfold key_le in E. by rewrite L in E. }
    destruct (key_lt (key_at (pos s)) k) eqn:L.
    + exists tl, s. splits; [done..|by left|]. intros n Hn Ln. by destruct (None' n).
    + destruct (create_ok s) as (s' & -> & P & Pl & W). cbn [mbind res_bind]. eexists _, s'.
      splits; [done|apply (moved_good ps tl s ext); try done; lia|done|done|by right|]. intros n Hn Ln. by destruct (None' n).
  - pose proof (max_key_spec (List.filter (fun k' => key_lt k' k) keys)) as M. destruct (max_key _) as [it|].
    2: { exfalso. apply E. intros k' Hk'. unfold key_le. destruct (key_lt k' k) eqn:L; [|done].
         assert (k' ∈ List.filter (fun k' => key_lt k' k) keys) as Hin by (by apply elem_of_bfilter). rewrite M in Hin. by apply elem_of_nil in Hin. }
    destruct M as [[Hit Lit]%elem_of_bfilter Mx]. cbn [unwrap mbind res_bind].
    assert (forall n, checkpointed ps tl n -> key_lt (key_at n) k = true -> key_le (key_at n) it = true) as Mx'.
    { intros n Hn Ln. apply Mx, elem_of_bfilter. split; [|done]. apply (keys_checkpointed _ _ _ _ C). eauto. }
    destruct (key_lt it (key_at (pos s)) && key_lt (key_at (pos s)) k) eqn:L.
    + apply andb_true_iff in L as [L1 L2]. exists tl, s. splits; try done; [by left|]. intros n Hn Ln. split; [done|]. specialize (Mx' n Hn Ln).
      unfold key_le. destruct (key_lt (key_at (pos s)) (key_at n)) eqn:L3; [|done]. pose proof (key_lt_trans _ _ _ L1 L3) as T. unfold key_le in Mx'. by rewrite T in Mx'.
    + apply (keys_checkpointed _ _ _ _ C) in Hit. destruct (restore_first ps tl s ext it G Hit) as (m & s' & E' & G' & P'). rewrite E'. cbn [unwrap mbind res_bind].
      eexists _, s'. splits; [done|exact G'|done|done|left; by rewrite P'|]. rewrite P'. eauto.
Qed.

Lemma ext_checkpointed ps tl s ext m n : good ps tl s ext -> ps !! m = Some n -> 0 < ext m -> checkpointed ps tl n.
Proof.
  intros G Em He. destruct (heap_at _ _ _ _ (mo_heap _ _ (i_marks _ _ _ (g_inv _ _ _ _ G))) Em) as (im & Eh & [_ _ _ Rk]).
  assert (refs (heap tl) !! m = Some (checkpoint im, checkpoint_refcount im)) as Er by (unfold refs; by rewrite list_lookup_fmap, Eh).
  pose proof (co_users _ _ _ (g_checkpoints _ _ _ _ G) _ _ _ Er) as U. pose proof (owned_nonneg tl m). destruct (checkpoint im) as [c|]; [|lia]. by exists m, c, (checkpoint_refcount im).
Qed.

Lemma sorted_rev {A} (R : A -> A -> Prop) l : StronglySorted R l -> StronglySorted (flip R) (rev l).
Proof.
  induction 1 as [|x l S IH F]; cbn; [constructor|]. apply StronglySorted_app_2; [|done|repeat constructor].
  intros a b Ha Hb. apply list_elem_of_singleton in Hb as ->. rewrite Forall_forall in F. apply F. by apply list_elem_of_In, in_rev, list_elem_of_In.
Qed.

Definition usable (ps : list nat) (n : nat) (w : list Mark) (o : option (Mark * Session)) : Prop :=
  forall m s, o = Some (m, s) -> ps !! m = Some (pos s) /\ m ∈ w /\ (pos s <= n)%nat /\ (forall b, placed s b = O) /\ watched s = false.

Lemma usable_checkpoint_ok ps tl m n w b : marks_ok ps tl -> ps !! m = Some n -> StronglySorted (flip (before ps)) w -> Forall (fun m => exists n, ps !! m = Some n) w ->
  (b = true -> Forall (fun x => before ps x m) w) -> exists o, usable_checkpoint m w b tl = Ok o /\ usable ps n w o.
Proof.
  intros Om Em. revert b. induction w as [|m' w IH]; intros b S F B; cbn [usable_checkpoint]; [by exists None|].
  apply StronglySorted_inv in S as [S Fs]. apply Forall_cons in F as [[n' En'] F].
  destruct (heap_at _ _ _ _ (mo_heap _ _ Om) En') as (im & Eh & [Hn _ _ Rk]). unfold get_mark. rewrite Eh. cbn [unwrap mbind res_bind].
  set (b' := b || bool_decide (m' = m)). assert (b' = true -> Forall (fun x => before ps x m) w /\ (n' <= n)%nat) as B'.
  { intros [E|E%bool_decide_eq_true]%orb_true_iff; [|subst m'; split; [exact Fs|simplify_eq; lia]].
    apply B in E. apply Forall_cons in E as [(? & ? & ? & ? & ?) E]. simplify_eq. split; [done|lia]. }
  assert (exists o, usable_checkpoint m w b' tl = Ok o /\ usable ps n (m' :: w) o) as Ho.
  { destruct (IH b' S F) as (o & Eo & Ho); [intros E; by apply B'|]. exists o. split; [done|]. intros x s E. destruct (Ho x s E) as (? & ? & Hr). splits; [done|by right|apply Hr..]. }
  destruct (checkpoint im) as [s|]; [|done]. destruct b' eqn:Eb; [|done]. exists (Some (m', s)). split; [done|]. intros ? ? [= <- <-].
  destruct Rk as (P & Pl & W & _). destruct (B' eq_refl) as [_ Ln]. rewrite P. splits; try done; by left.
Qed.

(** [seek_up_to_mark] does not fail and ends at or before the mark, at or after every
    checkpoint before the mark's key. *)
Lemma seek_up_to_mark_good fuel ps tl s ext m n : good ps tl s ext -> ps !! m = Some n -> (last_pos < fuel)%nat ->
  exists tl' s' ps', seek_up_to_mark fuel m tl = Ok tl' /\ good ps' tl' s' ext /\ evolves ps tl s ext ps' tl' s' ext /\ (pos s' <= n)%nat /\
    (forall m' c, ps !! m' = Some c -> 0 < ext m' -> key_lt (key_at c) (key_at n) = true -> key_le (key_at c) (key_at (pos s')) = true).
Proof.
  intros G Em Hf. unfold seek_up_to_mark. rewrite (mark_key_ok ps tl m n) by (done || apply G). cbn [mbind res_bind].
  unfold current_mark_key, current_session. rewrite (so_current tl s) by apply G. cbn [unwrap mbind res_bind]. rewrite session_key.
  assert (exists (stay : bool) tl1 s1 ps1, (if bool_decide (key_at (pos s) = key_at n) then '(cm, tl) ← mark fuel tl; b ← mark_le cm m tl; Ok (b, tl) else Ok (false, tl)) = Ok (stay, tl1) /\
    good ps1 tl1 s1 ext /\ evolves ps tl s ext ps1 tl1 s1 ext /\ (stay = true -> (pos s1 <= n)%nat /\ key_at (pos s1) = key_at n)) as (stay & tl1 & s1 & ps1 & -> & G1 & Ev1 & Hs1).
  { case_bool_decide as Ek; [|exists false, tl, s, ps; splits; try done; apply evolves_refl].
    destruct (mark_good fuel ps tl s ext G Hf) as (cm & tl1 & s1 & ps1 & -> & G1 & P1 & Ecm & Ev1 & _). cbn [mbind res_bind]. unfold mark_le.
    rewrite (mark_cmp_ok ps1 tl1 cm m (pos s) n) by (done || apply G1 || by apply (ev_places _ _ _ _ _ _ _ _ Ev1)). cbn [mbind res_bind]. eexists _, tl1, s1, ps1. splits; [done|done|done|].
    rewrite P1. destruct (Nat.compare_spec (pos s) n); intros; try done; (split; [lia|done]). }
  cbn [mbind res_bind]. pose proof (ev_places _ _ _ _ _ _ _ _ Ev1 _ _ Em) as Em1. destruct stay.
  { exists tl1, s1, ps1. destruct (Hs1 eq_refl) as [L E]. splits; try done. intros m' c Ec He Lc. rewrite E. by apply key_lt_incl. }
  pose proof (good_entry ps1 tl1 s1 ext (key_at n) G1) as G2. set (tl2 := entry_or_insert (key_at n) tl1) in *. pose proof (g_inv _ _ _ _ G2) as [O2 _ _ _].
  destruct (mo_in _ _ O2 m n Em1) as (v & Ev & Hv). rewrite Ev. change (default [] (Some v)) with v. pose proof (mo_vec _ _ O2 _ _ Ev) as [Vs Vk].
  destruct (usable_checkpoint_ok ps1 tl2 m n (rev v) false O2 Em1) as (o & -> & Ho); [by apply sorted_rev| |done|].
  { apply Forall_rev. eapply Forall_impl; [exact Vk|]. naive_solver. }
  cbn [mbind res_bind]. assert (evolves ps tl s ext ps1 tl2 s1 ext) as Ev2 by (destruct Ev1 as [? [] ?]; by split; [|split|..]). destruct o as [[m' s']|].
  - destruct (Ho m' s' eq_refl) as (Em' & Hm' & L & Pl & W). eexists _, s', ps1. splits; [done| |by destruct Ev2 as [? [] ?]; split; [|split|..]|done|].
    + apply (moved_good ps1 tl2 s1 ext); try done; [|intros ? [= <-]; eauto]. by eapply place_live.
    + intros x c Ec He Lc. rewrite Forall_forall in Vk. apply list_elem_of_In, in_rev, list_elem_of_In in Hm'. destruct (Vk _ Hm') as (n' & En' & Ek'). rewrite Em' in En'. injection En' as ->.
      rewrite Ek'. by apply key_lt_incl.
  - destruct (seek_to_before_key_good ps1 tl2 s1 ext (key_at n) G2) as (tl3 & s3 & -> & G3 & Sc3 & Eh & Hk & Hc). eexists tl3, s3, ps1. splits; [done|done| | |].
    + eapply evolves_trans; [exact Ev2|]. by split.
    + destruct Hk as [L| ->]; [|lia]. apply key_lt_pos in L; [lia|apply G3|]. by eapply place_live.
    + intros x c Ec He Lc. apply Hc; [|done]. eapply ext_checkpointed; [exact G2| |exact He]. by apply (ev_places _ _ _ _ _ _ _ _ Ev1).
Qed.

End Seek.
End Seek.
