(* ===== verification/TimelineTowards.v ===== *)
(** Replaying towards a mark: [replay_step_to_mark] does not pass the mark, passes no
    breakpoint without reporting it, and gets nearer; so [seek_to_mark] ends in the state of
    the mark. *)

From S2P Require Import Prelude Timeline TimelineRun TimelineSpec TimelineMarks TimelineCheckpoints TimelineAutomatic TimelineSeek.

Module Towards.

Export Seek.

Section Towards.
Context `{Laws : ReplayLaws} {Alone : ExecAlone}.

(** ** What a step towards a state shows *)

(** From [s] to [s'] on the way to the state [e] with the result [r]. *)
Record scanned (tl : ReplayTimeline) (e : nat) (s : Session) (r : ReplayResult) (s' : Session) : Prop := {
  sn_status : status r = ReplayContinue;
  sn_range : (pos s <= pos s' <= e)%nat;
  sn_trapped : trapped s (pos s) -> pos s' = pos s /\ breakpoint_hit (break_status r) = true;
  sn_moves : ~ trapped s (pos s) -> (pos s < pos s')%nat;
  sn_hit : breakpoint_hit (break_status r) = true -> traps (pos s') = true /\ exists b, bp_at (pos s') = Some b /\ is_Some (breakpoints tl !! b);
  sn_skipped : forall n, (pos s <= n < pos s')%nat -> ~ trapped s n;
  sn_task : any_break (break_status r) = true -> is_Some (upgrade (bs_task (break_status r)) s');
  sn_hit_task : breakpoint_hit (break_status r) = true -> upgrade (bs_task (break_status r)) s' = task_at (pos s');
  sn_watch : watchpoints_hit (break_status r) = [] /\ watched s' = false;
  sn_signal : is_Some (signal (break_status r)) -> exists n, (pos s < n <= pos s')%nat /\ signals n = true;
  sn_placed : forall b, placed s' b = if space_at (bp_uid b) (pos s') then placed s b else O }.

Lemma set_current_same (tl : ReplayTimeline) s : current tl = Some s -> set_current (Some s) tl = tl.
Proof. destruct tl. cbn. by intros ->. Qed.

Lemma step_session tl s c : session_ok tl s -> (pos s < last_pos)%nat -> exists r s', step c tl = Ok (r, set_current (Some s') tl) /\ stepped c s r s'.
Proof.
  intros So L. destruct (step_ok c s L) as (r & s' & E & St). exists r, s'. split; [|done]. unfold step, current_session. rewrite (so_current _ _ So). cbn. by rewrite E.
Qed.

Lemma trapped_blocked s n : trapped s n -> blocked s n.
Proof. intros [T B]. split; [by apply traps_execution|done]. Qed.

Lemma stepped_scanned c tl s r s' e : session_ok tl s -> stepped c s r s' -> (pos s' <= e)%nat -> (~ trapped s (pos s) -> (pos s < pos s')%nat) -> scanned tl e s r s'.
Proof.
  intros So St L M. pose proof (st_forward _ _ _ _ St) as F. split; try apply St; try done; [| | |apply So].
  - lia.
  - intros Hh. destruct (st_hit _ _ _ _ St Hh) as (T & b & Eb & Hb). split; [done|]. exists b. split; [done|]. by apply (so_on _ _ So).
  - intros n Hn T. destruct (decide (n = pos s)) as [->|N]; [|by eapply (st_blocked _ _ _ _ St n); [lia|apply trapped_blocked]].
    apply (st_trapped _ _ _ _ St) in T. lia.
Qed.

(** A session that went on, with the breakpoints it had. *)
Record carried (s s' : Session) : Prop := {
  ca_forward : (pos s <= pos s')%nat;
  ca_watched : watched s' = false;
  ca_placed : forall b, placed s' b = if space_at (bp_uid b) (pos s') then placed s b else O }.

Lemma carried_session tl s s' : session_ok tl s -> carried s s' -> session_ok (set_current (Some s') tl) s'.
Proof.
  intros [Ec Hw Nw Hoff Hon] [_ W P]. split; cbn; try done.
  - intros Ea b. rewrite P, Hoff by done. by destruct (space_at _ _).
  - intros b. rewrite P. destruct (space_at _ _); [apply Hon|]. split; lia.
Qed.

Lemma carried_good ps tl s ext s' : good ps tl s ext -> carried s s' -> (pos s' < last_pos)%nat -> good ps (set_current (Some s') tl) s' ext.
Proof.
  intros [[Om So Li Ca] C] Cr Le. pose proof (ca_forward _ _ Cr) as R. split; [|by destruct C]. split; [by eapply marks_ok_frame|by eapply carried_session|lia|].
  intros m Em. destruct (Ca m Em) as (n & En & Ln). exists n. split; [done|lia].
Qed.

Lemma stepped_carried tl c s r s' : session_ok tl s -> stepped c s r s' -> carried s s'.
Proof. intros So St. split; [apply St|apply St, So|apply St]. Qed.

Lemma scanned_carried tl e s r s' : scanned tl e s r s' -> carried s s'.
Proof. intros Sn. split; [apply Sn|apply Sn|apply Sn]. Qed.

Lemma scanned_good ps tl s ext e r s' : good ps tl s ext -> scanned tl e s r s' -> (e < last_pos)%nat -> good ps (set_current (Some s') tl) s' ext.
Proof. intros G Sn Le. apply (carried_good ps tl s ext); [done|by eapply scanned_carried|]. pose proof (sn_range _ _ _ _ _ Sn). lia. Qed.

(** Forgetting part of the result. *)
Lemma scanned_singlestep tl e s r s' : scanned tl e s r s' -> scanned tl e s (set_break_status (set_singlestep_complete false (break_status r)) r) s'.
Proof.
  intros [? ? ? ? ? ? Ht ? ? ? ?]. split; try done. intros A. apply Ht. unfold any_break in *. cbn in *. destruct (singlestep_complete (break_status r)); [|done].
  by rewrite orb_true_r.
Qed.

Lemma scanned_approaching tl e s r s' : scanned tl e s r s' -> scanned tl e s (set_break_status (set_approaching false (break_status r)) r) s'.
Proof.
  intros [? ? ? ? ? ? Ht ? ? ? ?]. split; try done. intros A. apply Ht. unfold any_break in *. cbn in *. destruct (approaching_ticks_target (break_status r)); [|done].
  by rewrite orb_true_r.
Qed.

(** Without watchpoints there is no quirk to fix. *)
Lemma no_quirk fuel c r before tl tl' e s s' : scanned tl' e s r s' -> update_strategy_and_fix_watchpoint_quirk fuel 0 c r before tl = Ok (r, 0%nat, tl).
Proof.
  intros Sn. unfold update_strategy_and_fix_watchpoint_quirk, fix_watchpoint_coalescing_quirk, data_watchpoints_hit. destruct (sn_watch _ _ _ _ _ Sn) as [-> _].
  cbn. case_bool_decide; [|done]. rewrite orb_true_r. done.
Qed.

(** ** Nearer to a state of the same event *)

Record nearer (e : nat) (s s1 : Session) : Prop := {
  nr_range : (pos s <= pos s1 < e)%nat;
  nr_event : time_at (pos s) = time_at e;
  nr_time : time_at (pos s1) = time_at e;
  nr_skipped : forall n, (pos s <= n < pos s1)%nat -> ~ trapped s n;
  nr_watched : watched s1 = false;
  nr_placed : forall b, placed s1 b = if space_at (bp_uid b) (pos s1) then placed s b else O }.

Lemma placed_here s b : placed s b = if space_at (bp_uid b) (pos s) then placed s b else O.
Proof. destruct (space_at _ _) eqn:E; [done|]. destruct (placed s b) eqn:P; [done|]. rewrite placed_space in E by lia. done. Qed.

Lemma nearer_refl e s : (pos s < e)%nat -> time_at (pos s) = time_at e -> watched s = false -> nearer e s s.
Proof. intros L T W. split; [lia|done|done|intros n ?; lia|done|apply placed_here]. Qed.

(** Only the first state of an event is before the step that begins it. *)
Lemma later_execution p q : (p < q < last_pos)%nat -> time_at p = time_at q -> in_execution (step_at q) = true.
Proof.
  intros L T. destruct (step_at q) eqn:E; try done. pose proof (begin_first q p ltac:(lia) ltac:(lia) E ltac:(lia)). lia.
Qed.

(** An address space of a later state of the event was there. *)
Lemma nearer_space e s s1 n u : nearer e s s1 -> (pos s1 <= n <= e)%nat -> (e < last_pos)%nat -> space_at u (pos s) = true -> space_at u n = true -> space_at u (pos s1) = true.
Proof.
  intros [Hr Hs' Ht _ _ _] Hn Le Hs Hu. destruct (decide (pos s1 = pos s)) as [E|N]; [by rewrite E|]. destruct (decide (n = pos s1)) as [<-|N']; [done|].
  assert (time_at n = time_at e) as Tn by (pose proof (time_mono (pos s1) n ltac:(lia)); pose proof (time_mono n e ltac:(lia)); lia).
  rewrite (space_same (pos s1) n); [done|lia|lia|]. split; [lia|]. rewrite (later_execution (pos s1) n) by lia.
  apply (later_execution (pos s)); [lia|congruence].
Qed.

Lemma nearer_trapped e s s1 n : nearer e s s1 -> (pos s1 <= n <= e)%nat -> (e < last_pos)%nat -> trapped s n -> trapped s1 n.
Proof.
  intros Nr Hn Le (T & b & Eb & Hb). split; [done|]. exists b. split; [done|]. rewrite (nr_placed _ _ _ Nr).
  unfold bp_at in Eb. destruct (task_at n) as [t|] eqn:Et; [|done]. cbn in Eb. injection Eb as <-. cbn [bp_uid].
  rewrite (nearer_space e s s1 n); try done; [by apply (placed_space s) in Hb|by apply task_space].
Qed.

Lemma nearer_scanned tl e s s1 r s' : nearer e s s1 -> scanned tl e s1 r s' -> (e < last_pos)%nat -> scanned tl e s r s'.
Proof.
  intros Nr Sn Le. pose proof (nr_range _ _ _ Nr) as R1. pose proof (sn_range _ _ _ _ _ Sn) as R2. split; try apply Sn.
  - lia.
  - intros T. destruct (decide (pos s1 = pos s)) as [E|N]; [|exfalso; by apply (nr_skipped _ _ _ Nr (pos s)); [lia|]].
    rewrite <- E. apply (sn_trapped _ _ _ _ _ Sn). apply (nearer_trapped e s); [done|lia|done|by rewrite E].
  - intros T. destruct (decide (pos s1 = pos s)) as [E|N]; [|lia]. rewrite <- E. apply (sn_moves _ _ _ _ _ Sn). intros (T' & b & Eb & Hb). apply T.
    rewrite E in *. split; [done|]. exists b. split; [done|]. rewrite (nr_placed _ _ _ Nr) in Hb. destruct (space_at _ _); [done|lia].
  - intros n Hn T. destruct (decide (n < pos s1)%nat); [by apply (nr_skipped _ _ _ Nr n); [lia|]|]. apply (sn_skipped _ _ _ _ _ Sn n); [lia|]. apply (nearer_trapped e s); [done|lia|done..].
  - intros Hsig. destruct (sn_signal _ _ _ _ _ Sn Hsig) as (n & Hn & ?). exists n. split; [lia|done].
  - intros b. rewrite (sn_placed _ _ _ _ _ Sn), (nr_placed _ _ _ Nr). destruct (space_at (bp_uid b) (pos s')) eqn:E'; [|done].
    destruct (placed s b) eqn:P; [by destruct (space_at (bp_uid b) (pos s1))|]. rewrite (nearer_space e s s1 (pos s')); [done|done|lia|done| |done]. apply placed_space. lia.
Qed.

(** ** The three kinds of steps *)

Lemma refresh_ok p t s1 : (p < last_pos)%nat -> (pos s1 < last_pos)%nat -> task_at p = Some t -> time_at p = time_at (pos s1) ->
  exists t1, task_at (pos s1) = Some t1 /\ refresh t s1 = t1.
Proof.
  intros Lp L1 Et T. destruct (task_there _ L1) as [t1 Et1]. exists t1. split; [done|]. unfold refresh. rewrite obs_find.
  rewrite (task_same p (pos s1) t t1) by done. by rewrite (task_found _ _ Et1).
Qed.

Lemma tick_at_task n t : task_at n = Some t -> tick_count t = tick_at n.
Proof. intros E. unfold tick_at. by rewrite E. Qed.

(** With a target of ticks. *)
Lemma step_towards_ticks_ok fuel tl s t e before : session_ok tl s -> (pos s < e < last_pos)%nat -> task_at (pos s) = Some t -> time_at (pos s) = time_at e ->
  exists o s1, step_towards_ticks fuel 0 t (tick_at e) before tl = Ok (o, 0%nat, set_current (Some s1) tl) /\
    match o with Some r => scanned tl e s r s1 | None => nearer e s s1 end.
Proof.
  intros So Le Et T. assert (nearer e s s) as N0 by (apply nearer_refl; [lia|done|apply So]).
  assert (set_current (Some s) tl = tl) as Es by (apply set_current_same, So).
  unfold step_towards_ticks. rewrite (tick_at_task _ _ Et). destruct (Z.ltb_spec (tick_at (pos s)) (tick_at e)) as [Lt|]; cbn [negb]; [|exists None, s; by rewrite Es].
  cbn [setup_step_constraints]. set (c := with_ticks (tick_at e - 1) (constraints_new RunContinue)). change (ticks_target c) with (tick_at e - 1). destruct (Z.ltb_spec 0 (tick_at e - 1)) as [L0|]; cbn [negb]; [|exists None, s; by rewrite Es].
  destruct (step_session tl s c So ltac:(lia)) as (r & s1 & -> & St). cbn [mbind res_bind]. unfold current_session. cbn [current set_current unwrap mbind res_bind].
  pose proof (event_ticks (pos s) e ltac:(lia) ltac:(lia) T) as Ft. destruct (st_ticks _ _ _ _ St) as (L1 & T1 & K1); [done|cbn; lia|cbn; lia|]. cbn in K1.
  destruct (refresh_ok (pos s) t s1 ltac:(lia) L1 Et ltac:(lia)) as (t1 & Et1 & ->). rewrite (tick_at_task _ _ Et1), (proj2 (Z.ltb_lt _ _)) by lia. cbn [assert_ mbind res_bind].
  assert (pos s1 < e)%nat as Lp by (apply key_lt_pos; [lia|lia|]; unfold key_lt, key_at; cbn; lia).
  destruct (negb (approaching_ticks_target (break_status r)) || any_break (set_approaching false (break_status r))) eqn:Ea.
  - assert (scanned tl e s r s1) as Sn.
    { apply (stepped_scanned c); [done|done|lia|]. intros NT. destruct (st_progress _ _ _ _ St NT) as [|(_ & _ & A & B)]; [done|]. rewrite A, B in Ea. done. }
    cbn [break_status set_break_status]. rewrite Ea. cbn [mbind res_bind]. erewrite no_quirk by (eapply scanned_approaching; exact Sn). cbn [mbind res_bind]. eexists _, s1. split; [done|]. by apply scanned_approaching.
  - cbn [break_status set_break_status]. rewrite Ea. eexists None, s1. split; [done|]. apply orb_false_iff in Ea as [_ Ea]. pose proof (st_forward _ _ _ _ St) as F. split; try done; [lia|congruence| |by apply St; apply So|apply St].
    intros n Hn Tn. destruct (decide (n = pos s)) as [->|N]; [|by eapply (st_blocked _ _ _ _ St n); [lia|apply trapped_blocked]].
    apply (st_trapped _ _ _ _ St) in Tn. lia.
Qed.

(** With the state to stop before. *)
Lemma fast_forward_ok tl s e te : session_ok tl s -> (pos s < e < last_pos)%nat -> task_at e = Some te ->
  exists r s', step (with_states [regs te] (constraints_new RunSinglestepFastForward)) tl = Ok (r, set_current (Some s') tl) /\ scanned tl e s r s' /\
    stepped (with_states [regs te] (constraints_new RunSinglestepFastForward)) s r s'.
Proof.
  intros So Le Et. set (c := with_states _ _). destruct (step_session tl s c So ltac:(lia)) as (r & s' & -> & St). exists r, s'. splits; [done| |done]. apply (stepped_scanned c); [done|done| |].
  - destruct (decide (pos s' <= e)%nat) as [|N]; [done|]. pose proof (st_fast_states _ _ _ _ St eq_refl e te (regs te) ltac:(lia) Et) as M.
    rewrite matches_refl in M. discriminate M. by left.
  - intros NT. destruct (st_progress _ _ _ _ St NT) as [|(? & _)]; done.
Qed.

(** With a breakpoint at the instruction of the state; it is hit there, at the latest. *)
Lemma temporary_stop s s1 e t te r s2 : (pos s < e < last_pos)%nat -> time_at (pos s) = time_at e -> task_at (pos s) = Some t -> task_at e = Some te ->
  same_but s s1 (mkBp (vm_uid t) (ip (regs te))) (S (placed s (mkBp (vm_uid t) (ip (regs te))))) -> stepped (constraints_new RunContinue) s1 r s2 -> (pos s2 <= e)%nat.
Proof.
  intros Le T Et Ete [P1 _ B1] St. destruct (decide (pos s2 <= e)%nat) as [|N]; [done|]. exfalso. destruct (in_execution (step_at (pos s))) eqn:Ei.
  - apply (st_blocked _ _ _ _ St e); [lia|]. assert (in_execution (step_at e) = true) as Ee by (apply (later_execution (pos s)); [lia|done]). split; [done|].
    exists (mkBp (vm_uid te) (ip (regs te))). unfold bp_at. rewrite Ete. split; [done|]. rewrite <- (vm_same (pos s) e t te), B1, bool_decide_true; [lia|done|lia|lia| |done|done].
    split; [done|congruence].
  - assert (step_at (pos s) = TstepNone) as E0 by (by destruct (step_at (pos s))). rewrite <- P1 in E0. pose proof (st_setup _ _ _ _ St E0). lia.
Qed.

(** Adding the breakpoint, the step and removing it leave the other breakpoints alone. *)
Lemma temporary_placed s s1 t t2 a c r s2 s3 : (S (pos s) < last_pos)%nat -> (pos s2 < last_pos)%nat -> time_at (pos s) = time_at (pos s2) ->
  task_at (pos s) = Some t -> task_at (pos s2) = Some t2 -> same_but s s1 (mkBp (vm_uid t) a) (S (placed s (mkBp (vm_uid t) a))) -> stepped c s1 r s2 ->
  same_but s2 s3 (mkBp (vm_uid t2) a) (pred (placed s2 (mkBp (vm_uid t2) a))) ->
  forall b, placed s3 b = if space_at (bp_uid b) (pos s3) then placed s b else O.
Proof.
  intros L L2 T Et Et2 [P1 _ B1] St [P3 _ B3]. pose proof (st_placed _ _ _ _ St) as B2. pose proof (st_forward _ _ _ _ St) as F.
  assert (vm_uid t = vm_uid t2 \/ space_at (vm_uid t) (pos s2) = false /\ space_at (vm_uid t2) (pos s) = false) as V.
  { destruct (decide (pos s = pos s2)) as [E|N]; [left; rewrite E in Et; congruence|]. destruct (in_execution (step_at (pos s))) eqn:Ei.
    - left. apply (vm_same (pos s) (pos s2)); try done; [lia|]. split; [done|]. rewrite Ei. symmetry. apply (later_execution (pos s)); [lia|done].
    - assert (step_at (pos s) = TstepNone) as E0 by (by destruct (step_at (pos s))). rewrite <- P1 in E0. pose proof (st_setup _ _ _ _ St E0) as E2. rewrite P1 in *.
      rewrite E2 in *. destruct (decide (vm_uid t = vm_uid t2)) as [|Nv]; [by left|]. right.
      split; [by apply (exec_alone (pos s) t t2)|]. by destruct (vm_exec (pos s) t t2). }
  intros b. rewrite P3, B3, !B2, !B1. cbn [bp_uid]. destruct V as [<-|[V1 V2]].
  - case_bool_decide as E; [|done]. subst b. cbn [bp_uid]. rewrite bool_decide_true by done. by destruct (space_at _ _).
  - assert (placed s (mkBp (vm_uid t2) a) = O) as P0 by (rewrite placed_here; cbn [bp_uid]; by rewrite V2).
    case_bool_decide as E; [|case_bool_decide as E'; [|done]; subst b; cbn [bp_uid]; by rewrite V1]. subst b. cbn [bp_uid].
    rewrite (task_space (pos s2) t2 Et2). rewrite bool_decide_false; [by rewrite P0|]. intros [= E]. rewrite <- E, (task_space _ _ Et2) in V1. done.
Qed.

(** A hit of the breakpoint alone is not reported. *)
Lemma unreported s s1 r s2 s3 tl e t2 : session_ok tl s -> (pos s1 = pos s /\ pos s3 = pos s2 /\ watched s1 = watched s /\ watched s3 = watched s2) ->
  stepped (constraints_new RunContinue) s1 r s2 -> (pos s2 <= e)%nat -> task_at (pos s2) = Some t2 ->
  (forall n, trapped s n -> trapped s1 n) -> (trapped s1 (pos s) -> trapped s (pos s)) ->
  (forall b, placed s3 b = if space_at (bp_uid b) (pos s3) then placed s b else O) ->
  scanned tl e s (if breakpoint_hit (break_status r) && negb (has_breakpoint_at_address t2 (ip (regs t2)) tl)
                  then set_break_status (set_breakpoint_hit false (break_status r)) r else r) s3.
Proof.
  intros So (P1 & P3 & W1 & W3) St L2 Et2 T01 T10 Pl. set (r' := if _ && _ then _ else _). pose proof (st_forward _ _ _ _ St) as F.
  assert (bp_at (pos s2) = Some (mkBp (vm_uid t2) (ip (regs t2)))) as Eb2 by (unfold bp_at; by rewrite Et2).
  assert (status r' = status r /\ bs_task (break_status r') = bs_task (break_status r) /\ watchpoints_hit (break_status r') = watchpoints_hit (break_status r) /\
    signal (break_status r') = signal (break_status r) /\ (any_break (break_status r') = true -> any_break (break_status r) = true) /\
    breakpoint_hit (break_status r') = breakpoint_hit (break_status r) && has_breakpoint_at_address t2 (ip (regs t2)) tl) as (E1 & E2 & E3 & E4 & E5 & E6).
  { subst r'. destruct (breakpoint_hit (break_status r)) eqn:Eh, (has_breakpoint_at_address _ _ _); cbn; splits; try done.
    unfold any_break. cbn. rewrite Eh. by rewrite orb_true_r. }
  assert (trapped s (pos s) -> pos s3 = pos s /\ breakpoint_hit (break_status r') = true) as Ht.
  { intros Tr. rewrite P3, E6. pose proof (T01 _ Tr) as Tr1. rewrite <- P1 in Tr1. destruct (st_trapped _ _ _ _ St Tr1) as [Ep ->]. split; [congruence|].
    destruct Tr as (_ & b & Eb & Hb). cbn. apply bool_decide_true. rewrite <- P1, <- Ep, Eb2 in Eb. injection Eb as <-. by apply (so_on _ _ So). }
  assert (upgrade (bs_task (break_status r')) s3 = upgrade (bs_task (break_status r)) s2) as Eu.
  { rewrite E2. unfold upgrade. destruct (bs_task (break_status r)); [|done]. cbn. by rewrite !obs_find, P3. }
  split; rewrite ?E1, ?E3, ?E4, ?Eu; try done; try apply St; rewrite ?P3.
  - lia.
  - intros NT. destruct (st_progress _ _ _ _ St) as [|(_ & X & _)]; [rewrite P1; tauto|lia|done].
  - rewrite E6. intros [Hh Hb]%andb_true_iff. destruct (st_hit _ _ _ _ St Hh) as [Tr _]. split; [done|]. eexists. split; [done|]. by apply bool_decide_eq_true in Hb.
  - intros n Hn Tr. destruct (decide (n = pos s)) as [->|N]; [apply Ht in Tr; lia|]. eapply (st_blocked _ _ _ _ St n); [lia|]. by apply trapped_blocked, T01.
  - intros A. by apply St, E5.
  - rewrite E6. intros [Hh Hb]%andb_true_iff. by apply St.
  - rewrite W3. apply St. rewrite W1. apply So.
  - intros Hs. destruct (st_signal _ _ _ _ St Hs) as (n & Hn & ?). exists n. split; [lia|done].
Qed.

Lemma breakpoint_step_ok tl s e t te : session_ok tl s -> (pos s < e < last_pos)%nat -> time_at (pos s) = time_at e -> task_at (pos s) = Some t -> task_at e = Some te ->
  ip (regs t) <> ip (regs te) -> prot_exec t (ip (regs te)) = true ->
  exists s1 r s2 t2 s3, vm_add_breakpoint (vm_uid t) (ip (regs te)) s = Ok (true, s1) /\
    step (constraints_new RunContinue) (set_current (Some s1) tl) = Ok (r, set_current (Some s2) tl) /\ refresh t s2 = t2 /\
    vm_remove_breakpoint (vm_uid t2) (ip (regs te)) s2 = Ok s3 /\
    scanned tl e s (if breakpoint_hit (break_status r) && negb (has_breakpoint_at_address t2 (ip (regs t2)) tl)
                    then set_break_status (set_breakpoint_hit false (break_status r)) r else r) s3.
Proof.
  intros So Le T Et Ete Ni Px. set (a := ip (regs te)) in *. destruct (add_ok s (vm_uid t) a) as (ok & s1 & Ea & SB & Eok); [by apply task_space|].
  rewrite (placeable_exec _ _ _ Et Px) in Eok. cbn in Eok. subst ok. pose proof SB as [P1 W1 B1].
  destruct (step_ok (constraints_new RunContinue) s1 ltac:(lia)) as (r & s2 & Es & St). pose proof (temporary_stop s s1 e t te r s2 Le T Et Ete SB St) as L2.
  pose proof (st_forward _ _ _ _ St) as F. assert (time_at (pos s) = time_at (pos s2)) as T2.
  { pose proof (time_mono (pos s) (pos s2) ltac:(lia)). pose proof (time_mono (pos s2) e ltac:(lia)). lia. }
  destruct (refresh_ok (pos s) t s2 ltac:(lia) ltac:(lia) Et T2) as (t2 & Et2 & Er). destruct (remove_ok s2 (vm_uid t2) a (task_space _ _ Et2)) as (s3 & Em & SB3).
  exists s1, r, s2, t2, s3. splits; [done| |done|done|].
  { unfold step, current_session. cbn [current set_current unwrap mbind res_bind]. rewrite Es. done. }
  pose proof (temporary_placed s s1 t t2 a _ r s2 s3 ltac:(lia) ltac:(lia) T2 Et Et2 SB St SB3) as Pl. destruct SB3 as [P3 W3 B3].
  assert (forall n, trapped s n -> trapped s1 n) as T01.
  { intros n (Tn & b & Eb & Hb). split; [done|]. exists b. split; [done|]. rewrite B1. case_bool_decide; [lia|done]. }
  assert (trapped s1 (pos s) -> trapped s (pos s)) as T10.
  { intros (Tn & b & Eb & Hb). split; [done|]. exists b. split; [done|]. rewrite B1 in Hb. case_bool_decide as E; [|done]. subst b. unfold bp_at in Eb. rewrite Et in Eb. cbn in Eb. congruence. }
  by apply (unreported s s1 r s2 s3 tl e t2).
Qed.

(** ** [replay_step_to_mark] and [seek_to_mark] *)

Lemma nearer_session tl e s s1 : session_ok tl s -> nearer e s s1 -> session_ok (set_current (Some s1) tl) s1.
Proof. intros So [R _ _ _ W P]. apply (carried_session tl s); [done|]. split; [lia|done|done]. Qed.

Lemma proto_mark_ok tl s : session_ok tl s -> (pos s < last_pos)%nat -> exists p, proto_mark tl = Ok p /\ key p = key_at (pos s) /\
  (forall s', (pos s' < last_pos)%nat -> equal_states p s' = Ok (bool_decide (pos s = pos s'))).
Proof.
  intros So L. unfold proto_mark, current_mark_key, current_session. rewrite (so_current _ _ So). cbn. rewrite session_key, obs_task. destruct (task_there _ L) as [t Et]. rewrite Et.
  eexists. splits; [done..|]. intros s' L'. rewrite <- (equal_states_ok _ _ s' (represents_new s L) L'). unfold internal_mark_new. by rewrite obs_task, Et.
Qed.

(** The steps of [replay_step_to_mark] in the event of the mark. *)
Lemma last_steps_ok fuel tl s e t te before : session_ok tl s -> (pos s < e < last_pos)%nat -> time_at (pos s) = time_at e -> task_at (pos s) = Some t -> task_at e = Some te ->
  exists r s', (if negb (ip (regs t) =? ip (regs te)) && prot_exec t (ip (regs te)) then
      '(succeeded, s) ← vm_add_breakpoint (vm_uid t) (ip (regs te)) s;
      _ ← assert_ succeeded;
      let '(constraints, strategy) := setup_step_constraints 0 in
      '(result, tl) ← step constraints (set_current (Some s) tl);
      s ← current_session tl;
      let t := refresh t s in
      tl ← with_session (vm_remove_breakpoint (vm_uid t) (ip (regs te))) tl;
      let result := if breakpoint_hit (break_status result) && negb (has_breakpoint_at_address t (ip (regs t)) tl)
                    then set_break_status (set_breakpoint_hit false (break_status result)) result else result in
      update_strategy_and_fix_watchpoint_quirk fuel strategy constraints result before tl
    else
      '(result, tl) ← step (with_states [regs te] (constraints_new RunSinglestepFastForward)) tl;
      Ok (set_break_status (set_singlestep_complete false (break_status result)) result, 0%nat, tl)) = Ok (r, 0%nat, set_current (Some s') tl) /\ scanned tl e s r s'.
Proof.
  intros So Le T Et Ete. destruct (negb _ && _) eqn:Eb.
  - apply andb_true_iff in Eb as [Ni%negb_true_iff%Z.eqb_neq Px]. destruct (breakpoint_step_ok tl s e t te So Le T Et Ete Ni Px) as (s1 & r & s2 & t2 & s3 & -> & E2 & Er & E3 & Sn).
    cbn [mbind res_bind assert_ setup_step_constraints]. rewrite E2. cbn [mbind res_bind]. unfold with_session, current_session. cbn [current set_current unwrap mbind res_bind].
    rewrite Er, E3. cbn [mbind res_bind]. erewrite no_quirk by exact Sn. eexists _, s3. split; [done|exact Sn].
  - destruct (fast_forward_ok tl s e te So Le Ete) as (r & s' & -> & Sn & _). cbn [mbind res_bind]. eexists _, s'. split; [done|]. by apply scanned_singlestep.
Qed.

Lemma replay_step_to_mark_ok fuel ps tl s m e : inv ps tl s -> ps !! m = Some e -> (pos s < e)%nat ->
  exists r s', replay_step_to_mark fuel m 0 tl = Ok (r, 0%nat, set_current (Some s') tl) /\ scanned tl e s r s'.
Proof.
  intros [Om So Li Ca] Em L. pose proof (place_live _ _ _ _ Om Em) as Le. destruct (task_there _ Li) as [t Et].
  destruct (heap_at _ _ _ _ (mo_heap _ _ Om) Em) as (im & Eh & [_ (te & Ete & Ep) _ _]). destruct (proto_mark_ok tl s So Li) as (before & Eb & Ek & _).
  unfold replay_step_to_mark, current_session. rewrite (so_current _ _ So). cbn [unwrap mbind res_bind]. rewrite obs_task, Et. cbn [unwrap mbind res_bind].
  rewrite Eb. cbn [mbind res_bind]. unfold get_mark. rewrite Eh. cbn [unwrap mbind res_bind]. rewrite Ek, Ep. cbn [key proto_new p_regs].
  rewrite (key_mono (pos s) e) by lia. cbn [assert_ mbind res_bind]. change (trace_time (key_at e)) with (time_at e). rewrite obs_time.
  destruct (Z.ltb_spec (time_at (pos s)) (time_at e)) as [Lt|Ge].
  - cbn [setup_step_constraints]. set (c := with_time (time_at e) (constraints_new RunContinue)). destruct (step_session tl s c So Li) as (r & s' & -> & St). cbn [mbind res_bind].
    assert (scanned tl e s r s') as Sn.
    { apply (stepped_scanned c); [done|done|by apply (st_time _ _ _ _ St); [|cbn; lia|]|]. intros NT. by destruct (st_progress _ _ _ _ St NT) as [|(_ & ? & _)]. }
    erewrite no_quirk by exact Sn. eauto.
  - assert (time_at (pos s) = time_at e) as T by (pose proof (time_mono (pos s) e ltac:(lia)); lia). rewrite (proj2 (Z.eqb_eq _ _)) by done. cbn [assert_ mbind res_bind].
    destruct (step_towards_ticks_ok fuel tl s t e before So ltac:(lia) Et T) as (o & s1 & E1 & Ho). change (ticks (key_at e)) with (tick_at e). rewrite E1. cbn [mbind res_bind].
    destruct o as [r|]; [eauto|]. unfold current_session. cbn [current set_current unwrap mbind res_bind]. pose proof (nr_range _ _ _ Ho) as R1.
    destruct (refresh_ok (pos s) t s1 Li ltac:(lia) Et) as (t1 & Et1 & ->); [by rewrite (nr_time _ _ _ Ho)|].
    destruct (last_steps_ok fuel (set_current (Some s1) tl) s1 e t1 te before) as (r & s' & E & Sn); try done; [by eapply nearer_session|lia|apply Ho|].
    exists r, s'. split; [exact E|]. eapply nearer_scanned; [done| |done]. destruct Sn; by split.
Qed.

Lemma untrapped s n : (forall b, placed s b = O) -> ~ trapped s n.
Proof. intros P (_ & b & _ & Hb). rewrite P in Hb. lia. Qed.

Lemma seek_to_mark_loop_good fuel n ps tl s ext m e : good ps tl s ext -> ps !! m = Some e -> (pos s <= e)%nat -> (e - pos s < n)%nat ->
  exists tl' s', seek_to_mark_loop fuel n m tl = Ok tl' /\ good ps tl' s' ext /\ pos s' = e /\ evolves ps tl s ext ps tl' s' ext.
Proof.
  revert tl s. induction n as [|n IH]; intros tl s G Em L Hn; [lia|]. pose proof (g_inv _ _ _ _ G) as [Om So Li Ca]. pose proof (place_live _ _ _ _ Om Em) as Le.
  cbn [seek_to_mark_loop]. rewrite (at_mark_ok ps tl s m e) by (done || apply So). cbn [mbind res_bind].
  case_bool_decide as E; [exists tl, s; splits; [done..|apply evolves_refl]|].
  destruct (unapply_good ps tl s ext G) as (s1 & -> & P1 & G1). cbn [mbind res_bind].
  destruct (replay_step_to_mark_ok fuel ps (unapplied s1 tl) s1 m e) as (r & s2 & -> & Sn); [apply G1|done|lia|]. cbn [mbind res_bind].
  pose proof (scanned_good _ _ _ _ _ _ _ G1 Sn Le) as G2. pose proof (sn_range _ _ _ _ _ Sn) as R.
  pose proof (sn_moves _ _ _ _ _ Sn (untrapped _ _ (so_off _ _ (i_session _ _ _ (g_inv _ _ _ _ G1)) eq_refl))) as Mv.
  destruct (IH _ s2 G2 Em) as (tl' & s' & -> & G' & P' & Ev); [lia..|]. exists tl', s'. splits; try done. eapply evolves_trans; [|exact Ev]. by split.
Qed.

(** [seek_to_mark] ends in the state of the mark. *)
Lemma seek_to_mark_good fuel ps tl s ext m e : good ps tl s ext -> ps !! m = Some e -> (last_pos < fuel)%nat ->
  exists tl' s' ps', seek_to_mark fuel m tl = Ok tl' /\ good ps' tl' s' ext /\ pos s' = e /\ evolves ps tl s ext ps' tl' s' ext.
Proof.
  intros G Em Hf. unfold seek_to_mark. destruct (seek_up_to_mark_good fuel ps tl s ext m e G Em Hf) as (tl1 & s1 & ps1 & -> & G1 & Ev1 & L1 & _). cbn [mbind res_bind].
  pose proof (ev_places _ _ _ _ _ _ _ _ Ev1 _ _ Em) as Em1. pose proof (place_live _ _ _ _ (i_marks _ _ _ (g_inv _ _ _ _ G1)) Em1) as Le.
  destruct (seek_to_mark_loop_good fuel fuel ps1 tl1 s1 ext m e G1 Em1 L1 ltac:(lia)) as (tl2 & s2 & -> & G2 & P2 & Ev2). cbn [mbind res_bind].
  eexists _, s2, ps1. splits; [done| |done|].
  - destruct G2 as [[Om So Li Ca] C]. split; [|by destruct C]. split; [by eapply marks_ok_frame|by eapply session_ok_frame|done|]. intros ? [= <-]. exists e. split; [done|lia].
  - eapply evolves_trans; [exact Ev1|]. destruct Ev2 as [? [] ?]. by split; [|split|..].
Qed.

End Towards.
End Towards.
