(* ===== verification/TimelineForward.v ===== *)
(** Running forward without stops: [run_forward_to_intermediate_point] ends strictly between
    where it starts and the end of the interval, or stays. *)

From S2P Require Import Prelude Timeline TimelineRun TimelineSpec TimelineMarks TimelineCheckpoints TimelineAutomatic TimelineSeek TimelineTowards.

Module Forward.

Export Towards.

Section Forward.
Context `{Laws : ReplayLaws} {Alone : ExecAlone}.

Lemma checked_sum a b : a + b < USIZE -> checked_add a b = Ok (a + b).
Proof. intros L. unfold checked_add. by rewrite (proj2 (Z.ltb_lt _ _)). Qed.

(** A step of a session without breakpoints. *)
Lemma step_quiet ps tl s ext c : good ps tl s ext -> breakpoints_applied tl = false -> exists r s', step c tl = Ok (r, set_current (Some s') tl) /\ stepped c s r s' /\
  ~ trapped s (pos s) /\ ((pos s' < last_pos)%nat -> good ps (set_current (Some s') tl) s' ext).
Proof.
  intros G Ea. pose proof (g_inv _ _ _ _ G) as [Om So Li Ca]. destruct (step_session tl s c So Li) as (r & s' & E & St). exists r, s'.
  pose proof (untrapped s (pos s) (so_off _ _ So Ea)) as NT. splits; try done. intros L. apply (carried_good ps tl s ext); [done|by eapply stepped_carried|done].
Qed.

(** ** To an event *)

Lemma first_of_event T d p : (p + d < last_pos)%nat -> time_at p < T <= time_at (p + d)%nat ->
  exists q, (p < q <= p + d)%nat /\ time_at q = T /\ forall n, (n < last_pos)%nat -> T <= time_at n -> (q <= n)%nat.
Proof.
  revert p. induction d as [|d IH]; intros p L HT; [rewrite Nat.add_0_r in HT; lia|]. pose proof (time_step p ltac:(lia)) as St.
  destruct (Z.le_gt_cases T (time_at (S p))) as [Le|Gt].
  - exists (S p). split; [lia|]. split; [lia|]. intros n Ln Hn. destruct (decide (S p <= n)%nat); [done|]. pose proof (time_mono n p ltac:(lia)). lia.
  - destruct (IH (S p)) as (q & Lq & Tq & Mq); [lia|rewrite <- Nat.add_succ_comm in HT; lia|]. exists q. split; [lia|done].
Qed.

Lemma run_to_time_ok fuel ps tl s ext T q : good ps tl s ext -> breakpoints_applied tl = false -> (pos s <= q < last_pos)%nat -> time_at q = T ->
  (forall n, (n < last_pos)%nat -> T <= time_at n -> (q <= n)%nat) -> (q - pos s < fuel)%nat ->
  exists s', run_to_time fuel T tl = Ok (set_current (Some s') tl) /\ good ps (set_current (Some s') tl) s' ext /\ pos s' = q.
Proof.
  revert tl s. induction fuel as [|fuel IH]; intros tl s G Ea Lq Tq Mq Hf; [lia|]. pose proof (g_inv _ _ _ _ G) as [Om So Li Ca].
  cbn [run_to_time]. unfold current_session. rewrite (so_current _ _ So). cbn [unwrap mbind res_bind]. rewrite obs_time. destruct (Z.ltb_spec (time_at (pos s)) T) as [Lt|Ge].
  - destruct (step_quiet ps tl s ext (with_time T (constraints_new RunContinue)) G Ea) as (r & s1 & -> & St & NT & G1). cbn [mbind res_bind].
    assert (pos s1 <= q)%nat as L1 by (apply (st_time _ _ _ _ St); [done|cbn; lia|lia]).
    destruct (st_progress _ _ _ _ St NT) as [Pr|(_ & ? & _)]; [|done].
    destruct (IH (set_current (Some s1) tl) s1) as (s' & E & G' & P'); [apply G1; lia|done|lia|done|done|lia|]. exists s'. split; [exact E|]. split; [exact G'|done].
  - assert (pos s = q) as Eq by (pose proof (Mq (pos s) Li Ge); lia). rewrite (proj2 (Z.eqb_eq _ _)) by congruence. cbn [assert_ mbind res_bind].
    exists s. by rewrite set_current_same by apply So.
Qed.

(** ** To a number of ticks *)

Lemma run_to_ticks_ok fuel ps tl s ext t p0 target e r : good ps tl s ext -> breakpoints_applied tl = false -> (p0 < last_pos)%nat -> task_at p0 = Some t ->
  time_at p0 = time_at (pos s) -> 0 < target < frame_ticks_at p0 -> tick_at (pos s) <= target ->
  (forall n, (n < last_pos)%nat -> time_at n = time_at p0 -> tick_at n <= target -> (n < e)%nat) ->
  (e - pos s + Nat.b2n (negb (approaching_ticks_target (break_status r))) < fuel)%nat ->
  exists s', run_to_ticks fuel t target r tl = Ok (set_current (Some s') tl) /\ good ps (set_current (Some s') tl) s' ext /\ (pos s <= pos s' < e)%nat.
Proof.
  revert tl s r. induction fuel as [|fuel IH]; intros tl s r G Ea L0 Et T Ht K He Hf; [lia|]. pose proof (g_inv _ _ _ _ G) as [Om So Li Ca].
  pose proof (He (pos s) Li ltac:(lia) K) as Le. cbn [run_to_ticks]. unfold current_session. rewrite (so_current _ _ So). cbn [unwrap mbind res_bind].
  destruct (refresh_ok p0 t s L0 Li Et T) as (t1 & Et1 & ->). rewrite (tick_at_task _ _ Et1).
  destruct ((tick_at (pos s) <? target) && negb (approaching_ticks_target (break_status r))) eqn:Eb.
  - apply andb_true_iff in Eb as [Lt%Z.ltb_lt Na]. rewrite Na in Hf. cbn in Hf. destruct (step_quiet ps tl s ext (with_ticks target (constraints_new RunContinue)) G Ea) as (r1 & s1 & -> & St & NT & G1).
    cbn [mbind res_bind]. destruct (st_ticks _ _ _ _ St) as (L1 & T1 & K1); [done|cbn; rewrite (frame_same (pos s) p0); done|cbn; lia|]. cbn in K1.
    pose proof (st_forward _ _ _ _ St) as F.
    destruct (IH (set_current (Some s1) tl) s1 r1) as (s' & E & G' & P'); try done; [by apply G1|congruence| |exists s'; split; [exact E|]; split; [exact G'|lia]].
    destruct (st_progress _ _ _ _ St NT) as [Pr|(_ & _ & A & _)]; [destruct (approaching_ticks_target (break_status r1)); cbn; lia|rewrite A; cbn; lia].
  - exists s. rewrite set_current_same by apply So. splits; [done|done|lia..].
Qed.

(** ** Between here and there *)

(** What moving to an intermediate point comes to: [moved] is whether it was possible. *)
Definition between (ps : list nat) (tl : ReplayTimeline) (s : Session) (ext : Mark -> Z) (e : nat) (moved : bool) (tl' : ReplayTimeline) : Prop :=
  exists s', tl' = set_current (Some s') tl /\ good ps tl' s' ext /\ if moved then (pos s < pos s' < e)%nat else pos s' = pos s.

Lemma fast_forward_before_ok ps tl s ext m e te st_ticks en_ticks pm force : good ps tl s ext -> breakpoints_applied tl = false -> ps !! m = Some e -> (pos s < e)%nat ->
  task_at e = Some te -> st_ticks = tick_at (pos s) -> en_ticks = (if time_at e =? time_at (pos s) then Z.min (frame_ticks_at (pos s)) (tick_at e) else frame_ticks_at (pos s)) ->
  (forall s', (pos s' < last_pos)%nat -> equal_states pm s' = Ok (bool_decide (pos s = pos s'))) ->
  exists moved tl', fast_forward_before m st_ticks en_ticks pm force tl = Ok (moved, tl') /\ between ps tl s ext e moved tl'.
Proof.
  intros G Ea Em L Ete -> -> Hp. pose proof (g_inv _ _ _ _ G) as [Om So Li Ca]. pose proof (place_live _ _ _ _ Om Em) as Le. pose proof (numbers (pos s)) as (_ & Nt & _).
  assert (between ps tl s ext e false tl) as Stay by (exists s; rewrite set_current_same by apply So; done).
  unfold fast_forward_before. destruct force; [|eauto]. unfold current_session. rewrite (so_current _ _ So). cbn [unwrap mbind res_bind].
  rewrite checked_sum by lia. cbn [mbind res_bind].
  destruct (heap_at _ _ _ _ (mo_heap _ _ Om) Em) as (im & Eh & [_ (te' & Ete' & Ep) _ _]). simplify_eq. unfold get_mark. rewrite Eh. cbn [unwrap mbind res_bind]. rewrite Ep. cbn [p_regs proto_new].
  destruct (fast_forward_ok tl s e te So ltac:(lia) Ete) as (r & s' & -> & Sn & St). cbn [mbind res_bind]. pose proof (scanned_good _ _ _ _ _ _ _ G Sn Le) as G'.
  pose proof (sn_range _ _ _ _ _ Sn) as R. pose proof (sn_moves _ _ _ _ _ Sn (untrapped _ _ (so_off _ _ So Ea))) as Mv.
  rewrite (at_mark_ok ps _ s' m e) by (apply G' || done || lia). cbn [mbind res_bind]. case_bool_decide as E.
  - assert ((if time_at e =? time_at (pos s) then Z.min (frame_ticks_at (pos s)) (tick_at e) else frame_ticks_at (pos s)) <= tick_at (pos s) + 1) as Lt.
    { pose proof (st_fast_ticks _ _ _ _ St eq_refl) as Ft. rewrite <- E in Ft. destruct (time_at e =? time_at (pos s)); lia. }
    rewrite (proj2 (Z.leb_le _ _) Lt), bool_decide_true by done. cbn [assert_ mbind res_bind]. eexists false, _. split; [done|].
    exists s. split; [done|]. split; [|done]. change (good ps (set_current (Some s) tl) s ext). by rewrite set_current_same by apply So.
  - cbn [current set_current unwrap mbind res_bind]. rewrite Hp by lia. cbn [mbind res_bind]. rewrite bool_decide_false by lia. cbn. eexists true, _. split; [done|]. exists s'. splits; try done; lia.
Qed.

Lemma end_ticks_bounds p e end_ticks : (p < e < last_pos)%nat ->
  end_ticks = (if time_at e =? time_at p then Z.min (frame_ticks_at p) (tick_at e) else frame_ticks_at p) -> tick_at p <= end_ticks <= frame_ticks_at p.
Proof.
  intros L ->. pose proof (event_ticks p p ltac:(lia) ltac:(lia) eq_refl). destruct (Z.eqb_spec (time_at e) (time_at p)) as [T|T]; [|lia].
  pose proof (key_mono p e ltac:(lia)) as M. unfold key_le, key_lt, key_at in M. cbn in M. lia.
Qed.

(** The search for the ticks in the middle. *)
Lemma ticks_between ps tl s ext m e te t end_ticks pm force fuel : good ps tl s ext -> breakpoints_applied tl = false -> ps !! m = Some e -> (pos s < e)%nat -> 0 < tick_at (pos s) ->
  task_at (pos s) = Some t -> task_at e = Some te -> end_ticks = (if time_at e =? time_at (pos s) then Z.min (frame_ticks_at (pos s)) (tick_at e) else frame_ticks_at (pos s)) ->
  (forall s', (pos s' < last_pos)%nat -> equal_states pm s' = Ok (bool_decide (pos s = pos s'))) -> (last_pos < fuel)%nat ->
  let target := Z.min end_ticks ((tick_count t + end_ticks) / 2) in
  exists moved tl', (if negb (target =? end_ticks) then
        '(result, tl) ← step (with_ticks target (constraints_new RunContinue)) tl;
        s ← current_session tl;
        same ← equal_states pm s;
        if negb same then tl ← run_to_ticks fuel t target result tl; Ok (true, tl) else
        _ ← assert_ (approaching_ticks_target (break_status result));
        _ ← assert_ (tick_count (refresh t s) =? tick_count t);
        fast_forward_before m (tick_count t) end_ticks pm force tl
      else fast_forward_before m (tick_count t) end_ticks pm force tl) = Ok (moved, tl') /\ between ps tl s ext e moved tl'.
Proof.
  intros G Ea Em L K0 Et Ete Ee Hp Hf. rewrite (tick_at_task _ _ Et). intros target. pose proof (g_inv _ _ _ _ G) as [Om So Li Ca]. pose proof (place_live _ _ _ _ Om Em) as Le.
  assert (tick_at (pos s) <= end_ticks <= frame_ticks_at (pos s)) as Hend by (apply (end_ticks_bounds _ e); [lia|done]).
  destruct (Z.eqb_spec target end_ticks) as [E|N]; cbn [negb]; [by eapply fast_forward_before_ok|].
  assert (tick_at (pos s) <= target < end_ticks) as Ht by (subst target; split; [apply Z.min_glb; [lia|apply Z.div_le_lower_bound; lia]|lia]).
  destruct (step_quiet ps tl s ext (with_ticks target (constraints_new RunContinue)) G Ea) as (r & s1 & -> & St & NT & G1).
  cbn [mbind res_bind]. destruct (st_ticks _ _ _ _ St) as (L1 & T1 & K1); [done|cbn; lia|cbn; lia|]. cbn in K1. pose proof (st_forward _ _ _ _ St) as F.
  unfold current_session. cbn [current set_current unwrap mbind res_bind]. rewrite Hp by done. cbn [mbind res_bind].
  assert (forall n, (n < last_pos)%nat -> time_at n = time_at (pos s) -> tick_at n <= target -> (n < e)%nat) as Hb.
  { intros n Ln Tn Kn. apply key_lt_pos; [done|done|]. pose proof (time_mono (pos s) e ltac:(lia)). unfold key_lt, key_at. cbn. destruct (Z.eqb_spec (time_at e) (time_at (pos s))); lia. }
  case_bool_decide as Es; cbn [negb].
  - destruct (st_progress _ _ _ _ St NT) as [|(_ & _ & A & _)]; [lia|]. rewrite A. cbn [assert_ mbind res_bind].
    destruct (refresh_ok (pos s) t s1 Li L1 Et ltac:(lia)) as (t1 & Et1 & ->). rewrite (tick_at_task _ _ Et1), <- Es, (proj2 (Z.eqb_eq _ _)) by done. cbn [assert_ mbind res_bind].
    destruct (fast_forward_before_ok ps (set_current (Some s1) tl) s1 ext m e te (tick_at (pos s)) end_ticks pm force) as (mv & tl' & E & s' & -> & G' & P'); try done; try (by rewrite <- Es); [by apply G1|].
    rewrite E. eexists mv, _. split; [done|]. exists s'. splits; [done|done|]. by rewrite Es.
  - destruct (run_to_ticks_ok fuel ps (set_current (Some s1) tl) s1 ext t (pos s) target e r) as (s' & -> & G' & P'); try done; [by apply G1|lia| |].
    + destruct (negb _); cbn; lia.
    + cbn [mbind res_bind]. eexists true, _. split; [done|]. exists s'. splits; [done|done|lia|lia].
Qed.

Lemma run_forward_ok fuel ps tl s ext m e force : good ps tl s ext -> ps !! m = Some e -> (pos s < e)%nat -> 0 < tick_at (pos s) -> (last_pos < fuel)%nat ->
  exists moved tl' s', run_forward_to_intermediate_point fuel m force tl = Ok (moved, tl') /\ good ps tl' s' ext /\ evolves ps tl s ext ps tl' s' ext /\
    if moved then (pos s < pos s' < e)%nat else pos s' = pos s.
Proof.
  intros G Em L K0 Hf. unfold run_forward_to_intermediate_point. destruct (unapply_good ps tl s ext G) as (s1 & -> & P1 & G1). cbn [mbind res_bind].
  set (tl1 := unapplied s1 tl) in *. assert (forall moved tl', between ps tl1 s1 ext e moved tl' ->
    exists s', good ps tl' s' ext /\ evolves ps tl s ext ps tl' s' ext /\ if moved then (pos s < pos s' < e)%nat else pos s' = pos s) as Done.
  { intros moved tl' (s' & -> & G' & P'). exists s'. rewrite <- P1. split; [done|]. split; [by split|done]. }
  match goal with |- exists _ _ _, ?p = _ /\ _ => enough (exists moved tl', p = Ok (moved, tl') /\ between ps tl1 s1 ext e moved tl') as (moved & tl' & E & B) end.
  { destruct (Done _ _ B) as (s' & ? & ? & ?). exists moved, tl', s'. split; [exact E|done]. }
  clear Done. rewrite <- P1 in L, K0. pose proof (g_inv _ _ _ _ G1) as [Om So Li Ca]. pose proof (place_live _ _ _ _ Om Em) as Le.
  pose proof (numbers (pos s1)) as (N1 & N2 & N3). pose proof (numbers e) as (M1 & M2 & _). unfold current_session. rewrite (so_current _ _ So). cbn [unwrap mbind res_bind].
  destruct (heap_at _ _ _ _ (mo_heap _ _ Om) Em) as (im & Eh & [_ (te & Ete & Ep) Es _]). unfold get_mark. rewrite Eh. cbn [unwrap mbind res_bind].
  rewrite Ep, Es, obs_time. cbn [key proto_new]. change (trace_time (key_at e)) with (time_at e). change (ticks (key_at e)) with (tick_at e).
  rewrite (checked_sum (time_at (pos s1))) by lia. cbn [mbind res_bind]. set (mid := (time_at (pos s1) + time_at e) / 2).
  assert (forall T, time_at (pos s1) < T <= time_at e -> exists q, (pos s1 < q <= e)%nat /\ time_at q = T /\ (forall n, (n < last_pos)%nat -> T <= time_at n -> (q <= n)%nat) /\
    exists s', run_to_time fuel T tl1 = Ok (set_current (Some s') tl1) /\ good ps (set_current (Some s') tl1) s' ext /\ pos s' = q) as Run.
  { intros T HT. destruct (first_of_event T (e - pos s1) (pos s1)) as (q & Lq & Tq & Mq); [lia|by replace (pos s1 + (e - pos s1))%nat with e by lia|].
    exists q. split; [lia|]. splits; try done. apply (run_to_time_ok fuel ps tl1 s1 ext T q); try done; lia. }
  destruct ((time_at (pos s1) <? mid) && (mid <? time_at e)) eqn:E1; [|destruct ((time_at (pos s1) <? time_at e) && (start_ticks_at e <? tick_at e)) eqn:E2].
  - destruct (Run mid ltac:(lia)) as (q & Lq & Tq & _ & s' & -> & G' & P'). cbn [mbind res_bind]. eexists true, _. split; [done|]. exists s'. splits; try done; [lia|].
    rewrite P'. destruct (decide (q = e)) as [->|]; [lia|lia].
  - apply andb_true_iff in E2 as [E2%Z.ltb_lt E3%Z.ltb_lt]. destruct (Run (time_at e) (conj E2 (Z.le_refl _))) as (q & Lq & Tq & Mq & s' & -> & G' & P'). cbn [mbind res_bind]. eexists true, _. split; [done|]. exists s'. splits; try done; [lia|].
    rewrite P'. destruct (decide (q = e)) as [->|]; [|lia]. exfalso. rewrite (event_start e e) in E3; try done; [lia|]. intros n Ln Tn. apply Mq; [done|lia].
  - destruct (task_there _ Li) as [t Et]. rewrite obs_task, Et, obs_frame_ticks. set (end_ticks := if time_at e =? _ then _ else _).
    assert (tick_at (pos s1) <= end_ticks <= frame_ticks_at (pos s1)) as Hend by (apply (end_ticks_bounds _ e); [lia|done]).
    rewrite <- (tick_at_task _ _ Et) in Hend, N2. rewrite (proj2 (Z.leb_le (tick_count t) end_ticks)) by apply Hend. cbn [assert_ mbind res_bind]. rewrite checked_sum by lia. cbn [mbind res_bind].
    destruct (proto_mark_ok tl1 s1 So Li) as (pm & -> & _ & Hp). cbn [mbind res_bind].
    destruct (ticks_between ps tl1 s1 ext m e te t end_ticks pm force fuel) as (moved & tl' & E & B); try done. exists moved, tl'. split; [exact E|done].
Qed.

End Forward.
End Forward.
