(* ===== verification/TimelineBackward.v ===== *)
(** Running backward: what one turn of the search of [reverse_continue] sees. *)

From S2P Require Import Prelude Timeline TimelineRun TimelineSpec TimelineMarks TimelineCheckpoints TimelineAutomatic TimelineSeek TimelineTowards TimelineForward.

Module Backward.

Export Forward.

Section Backward.
Context `{Laws : ReplayLaws} {Alone : ExecAlone}.

(** ** Where the debugger wants to stop *)

(** A breakpoint of the debugger is hit in state [n]. *)
Definition hits (bps : gmap TimelineBreakpoint (option BreakpointCondition)) (n : nat) : Prop :=
  traps n = true /\ exists b, bp_at n = Some b /\ is_Some (bps !! b).

(** The condition of the breakpoint holds, and the debugger wants to hear of the task. *)
Definition stops (stop_filter : Task -> bool) (bps : gmap TimelineBreakpoint (option BreakpointCondition)) (n : nat) : Prop :=
  traps n = true /\ exists t c, task_at n = Some t /\ bps !! mkBp (vm_uid t) (ip (regs t)) = Some c /\ stop_filter t = true /\
    match c with Some c => evaluate_at c t n = true | None => True end.

(** From the key [k0] up to the state [last] all breakpoints can be set, no signals arrive,
    the barrier is elsewhere and the tasks have retired a branch. *)
Record quiet (bps : gmap TimelineBreakpoint (option BreakpointCondition)) (barrier : Z) (k0 : MarkKey) (last : nat) : Prop := {
  q_last : (last < last_pos)%nat;
  q_spaces : forall n b, (n <= last)%nat -> key_le k0 (key_at n) = true -> is_Some (bps !! b) -> space_at (bp_uid b) n = true /\ placeable b n = true;
  q_signals : forall n, (n <= last)%nat -> key_le k0 (key_at n) = true -> signals n = false;
  q_barrier : forall n, (n <= last)%nat -> key_le k0 (key_at n) = true -> time_at n <> barrier;
  q_ticks : forall n, (n <= last)%nat -> key_le k0 (key_at n) = true -> 0 < tick_at n }.

Context (stop_filter : Task -> bool) (bps : gmap TimelineBreakpoint (option BreakpointCondition)) (barrier : Z) (k0 : MarkKey) (last : nat).
Hypothesis Q : quiet bps barrier k0 last.

(** The timeline of the search is in that part of the execution.  There is a checkpoint of
    the debugger with the key [k0]. *)
Record live (ps : list nat) (tl : ReplayTimeline) (s : Session) (ext : Mark -> Z) : Prop := {
  lv_good : good ps tl s ext;
  lv_breakpoints : breakpoints tl = bps;
  lv_barrier : reverse_execution_barrier_event tl = barrier;
  lv_key : key_le k0 (key_at (pos s)) = true;
  lv_last : (pos s <= last)%nat;
  lv_armed : breakpoints_applied tl = true -> forall b, is_Some (bps !! b) -> placed s b = 1%nat;
  lv_checkpoint : exists m c, ps !! m = Some c /\ 0 < ext m /\ key_at c = k0 }.

Lemma live_evolves ps tl s ext ps' tl' s' ext' : live ps tl s ext -> good ps' tl' s' ext' -> evolves ps tl s ext ps' tl' s' ext' -> key_le k0 (key_at (pos s')) = true ->
  (pos s' <= last)%nat -> live ps' tl' s' ext'.
Proof.
  intros [G Eb Ebar Lk Ll Ar (m & c & Em & He & Ek)] G' [Ep [Ec Ec'] Ee Ea] Lk' Ll'. split; try done; [congruence|congruence| |].
  - intros A. destruct (Ea A) as [A0 ->]. by apply Ar.
  - exists m, c. specialize (Ee m). splits; [by apply Ep|lia|done].
Qed.

Lemma region_up n n' : (n <= n' < last_pos)%nat -> key_le k0 (key_at n) = true -> key_le k0 (key_at n') = true.
Proof. intros L K. eapply key_le_trans; [exact K|]. by apply key_mono. Qed.

(** ** Stepping off a breakpoint *)

Lemma apply_internal_ok tl s : session_ok tl s -> breakpoints_applied tl = true -> (forall b, placed s b = O) ->
  exists s', apply_breakpoints_internal tl = Ok (set_current (Some s') tl) /\ pos s' = pos s /\ session_ok (set_current (Some s') tl) s' /\
    forall b, is_Some (breakpoints tl !! b) -> space_at (bp_uid b) (pos s) = true -> placeable b (pos s) = true -> placed s' b = 1%nat.
Proof.
  intros So Ea P0. destruct (apply_ok (set_applied false tl) s) as (s' & E & P & So' & B); [by destruct So|]. exists s'. cbn in B. splits; try done.
  - unfold apply_breakpoints_and_watchpoints in E. cbn [breakpoints_applied set_applied] in E. assert (set_applied true (set_applied false tl) = tl) as Es by (destruct tl; cbn in *; by subst).
    rewrite Es in E. destruct (apply_breakpoints_internal tl) as [tl1| | |] eqn:E1; try done. cbn [mbind res_bind] in E.
    unfold apply_breakpoints_internal, with_session, current_session in E1. rewrite (so_current _ _ So) in E1. cbn [unwrap mbind res_bind] in E1.
    rewrite (so_no_watchpoints _ _ So), wp_keys_empty in E1. destruct (for_each apply_bp (bp_keys (breakpoints tl)) s) as [s1| | |]; try done. cbn in E1. injection E1 as <-.
    unfold with_session, current_session in E. cbn [watchpoints set_current] in E. rewrite (so_no_watchpoints _ _ So), wp_keys_empty in E. cbn in E. injection E as ->. done.
  - destruct So'. split; try done. cbn. congruence.
Qed.

Lemma resession_good ps tl s ext s' a : good ps tl s ext -> session_ok (set_current (Some s') (set_applied a tl)) s' -> pos s' = pos s ->
  good ps (set_current (Some s') (set_applied a tl)) s' ext.
Proof.
  intros [[Om So Li Ca] C] So' P. split; [|by destruct C]. split; [by eapply marks_ok_frame|done|by rewrite P|by rewrite P].
Qed.

Lemma apply_live ps tl s ext : live ps tl s ext -> exists s', apply_breakpoints_and_watchpoints tl = Ok (set_current (Some s') (set_applied true tl)) /\
  pos s' = pos s /\ live ps (set_current (Some s') (set_applied true tl)) s' ext.
Proof.
  intros [G Eb Ebar Lk Ll Ar Ck]. destruct (apply_ok tl s (i_session _ _ _ (g_inv _ _ _ _ G))) as (s' & E & P & So' & B). exists s'. splits; try done.
  split; try done; [by apply (resession_good _ _ s)|by rewrite P|lia|]. intros _ b Hb. destruct (breakpoints_applied tl) eqn:Ea; [subst; by apply Ar|].
  rewrite Eb in B. destruct (q_spaces _ _ _ _ Q (pos s) b Ll Lk Hb). by apply B.
Qed.

Lemma hits_trapped ps tl s ext n : live ps tl s ext -> breakpoints_applied tl = true -> hits bps n <-> trapped s n.
Proof.
  intros Lv Ea. split.
  - intros (T & b & Eb & Hb). split; [done|]. exists b. split; [done|]. rewrite (lv_armed _ _ _ _ Lv Ea b Hb). lia.
  - intros (T & b & Eb & Hb). split; [done|]. exists b. split; [done|]. apply (so_on _ _ (i_session _ _ _ (g_inv _ _ _ _ (lv_good _ _ _ _ Lv)))) in Hb.
    by rewrite (lv_breakpoints _ _ _ _ Lv) in Hb.
Qed.

(** Stepping without breakpoints from a state to the next. *)
Lemma singlestep_live ps tl s ext : live ps tl s ext -> breakpoints_applied tl = true -> (pos s < last)%nat ->
  exists r s', singlestep_with_breakpoints_disabled tl = Ok (r, set_current (Some s') tl) /\ live ps (set_current (Some s') tl) s' ext /\ pos s' = S (pos s) /\
    status r = ReplayContinue /\ breakpoint_hit (break_status r) = false /\ watchpoints_hit (break_status r) = [] /\ signal (break_status r) = None /\
    (any_break (break_status r) = true -> is_Some (upgrade (bs_task (break_status r)) s')).
Proof.
  intros Lv Ea L. pose proof (lv_good _ _ _ _ Lv) as G. pose proof (g_inv _ _ _ _ G) as [Om So Li Ca]. pose proof (q_last _ _ _ _ Q) as Ql. unfold singlestep_with_breakpoints_disabled.
  unfold apply_breakpoints_and_watchpoints. rewrite Ea. cbn [mbind res_bind].
  destruct (unapply_internal_ok tl s) as (s1 & -> & P1 & W1 & B1); [apply So..|]. cbn [mbind res_bind].
  assert (session_ok (set_current (Some s1) tl) s1) as So1 by (split; cbn; try done; [apply So|intros b; rewrite B1; split; lia]).
  destruct (step_session _ s1 (constraints_new RunSinglestep) So1 ltac:(lia)) as (r & s2 & E2 & St). unfold replay_step. rewrite E2. cbn [mbind res_bind].
  pose proof (untrapped s1 (pos s1) B1) as NT. pose proof (st_single _ _ _ _ St eq_refl NT) as P2. rewrite P1 in P2.
  assert (forall b, placed s2 b = O) as B2 by (intros b; rewrite (st_placed _ _ _ _ St), B1; by destruct (space_at _ _)).
  assert (session_ok (set_current (Some s2) tl) s2) as So2 by (apply (carried_session (set_current (Some s1) tl) s1); [done|by eapply stepped_carried]).
  destruct (apply_internal_ok (set_current (Some s2) tl) s2 So2 Ea B2) as (s3 & E3 & P3 & So3 & B3). change (set_current (Some s2) (set_current (Some s1) tl)) with (set_current (Some s2) tl). rewrite E3.
  cbn [mbind res_bind]. exists r, s3. assert (key_le k0 (key_at (pos s3)) = true) as Lk by (apply (region_up (pos s)); [lia|apply Lv]).
  destruct (st_watch _ _ _ _ St W1) as [Wh _]. splits; [done| |lia|apply St| |done| |].
  - split; try apply Lv; [|done|lia|].
    + split; [|by destruct (g_checkpoints _ _ _ _ G)]. split; [by eapply marks_ok_frame|done|lia|]. intros m Em. destruct (Ca m Em) as (n & En & Ln). exists n. split; [done|lia].
    + intros _ b Hb. cbn [breakpoints set_current] in B3. rewrite (lv_breakpoints _ _ _ _ Lv), P3 in *. destruct (q_spaces _ _ _ _ Q (pos s2) b ltac:(lia) Lk Hb). by apply B3.
  - destruct (breakpoint_hit _) eqn:Eh; [|done]. by destruct (untrapped s1 (pos s2) B1 (st_hit _ _ _ _ St Eh)).
  - destruct (signal (break_status r)) eqn:Es; [|done]. destruct (st_signal _ _ _ _ St) as (n & Hn & Hs); [by rewrite Es|].
    rewrite (q_signals _ _ _ _ Q n) in Hs; [done|lia|apply (region_up (pos s)); [lia|apply Lv]].
  - intros A. destruct (st_task _ _ _ _ St A) as [t Et]. exists t. unfold upgrade in *. destruct (bs_task (break_status r)); [|done]. cbn in *. by rewrite obs_find in *; rewrite P3.
Qed.

(** ** One step of the search *)

(** What a step shows that ends in state [s']. *)
Record seen (r : ReplayResult) (s' : Session) : Prop := {
  se_status : status r = ReplayContinue;
  se_watch : watchpoints_hit (break_status r) = [];
  se_signal : signal (break_status r) = None;
  se_hit : breakpoint_hit (break_status r) = true -> hits bps (pos s') /\ upgrade (bs_task (break_status r)) s' = task_at (pos s');
  se_task : any_break (break_status r) = true -> is_Some (upgrade (bs_task (break_status r)) s') }.

(** What is left of it when the conditions and the filter have been applied. *)
Record judged (r : ReplayResult) (n : nat) (hit : bool) : Prop := {
  ju_status : status r = ReplayContinue;
  ju_watch : watchpoints_hit (break_status r) = [];
  ju_signal : signal (break_status r) = None;
  ju_hit : breakpoint_hit (break_status r) = true <-> hit = true /\ stops stop_filter bps n;
  ju_task : breakpoint_hit (break_status r) = true -> exists u, bs_task (break_status r) = Some u /\ find_at u n = task_at n }.

Lemma evaluate_conditions_ok r s' tl : seen r s' -> current tl = Some s' -> breakpoints tl = bps ->
  exists r', evaluate_conditions r tl = Ok r' /\ seen r' s' /\ bs_task (break_status r') = bs_task (break_status r) /\
    (breakpoint_hit (break_status r') = true <-> breakpoint_hit (break_status r) = true /\
       exists t c, task_at (pos s') = Some t /\ bps !! mkBp (vm_uid t) (ip (regs t)) = Some c /\ match c with Some c => evaluate_at c t (pos s') = true | None => True end).
Proof.
  intros [Ss Sw Sg Sh St] Ec Eb. unfold evaluate_conditions, current_session. rewrite Ec. cbn [unwrap mbind res_bind].
  destruct (upgrade (bs_task (break_status r)) s') as [t|] eqn:Eu.
  2: { exists r. splits; [done|by split; rewrite ?Eu|done|]. destruct (breakpoint_hit (break_status r)) eqn:Eh; [|naive_solver].
       unfold any_break in St. rewrite Eh, orb_true_r in St. destruct (St eq_refl). done. }
  set (b := if _ && _ then _ else _). assert (watchpoints_hit b = []) as Ew by (subst b; by destruct (_ && _)). rewrite Ew. cbn [to_remove for_each mbind res_bind]. eexists. split; [done|].
  assert (signal b = None /\ bs_task b = bs_task (break_status r) /\ (any_break b = true -> any_break (break_status r) = true) /\
    breakpoint_hit b = breakpoint_hit (break_status r) && condition_holds (breakpoints tl !! mkBp (vm_uid t) (ip (regs t))) t s') as (Eg & Et & Ea & Eh).
  { subst b. destruct (breakpoint_hit (break_status r)) eqn:E, (condition_holds _ _ _); cbn; splits; try done. unfold any_break. cbn. rewrite E. by rewrite !orb_true_r. }
  assert (breakpoint_hit b = true -> breakpoint_hit (break_status r) = true) as Hb by (rewrite Eh; by intros [? _]%andb_true_iff).
  splits; [split|done|]; cbn [status break_status set_break_status set_watchpoints_hit watchpoints_hit signal breakpoint_hit bs_task]; try done.
  - rewrite Et, Eu. intros H'. by apply Sh, Hb.
  - rewrite Et, Eu. by intros _.
  - rewrite Eh, andb_true_iff, Eb. split; intros [H1 H2]; (split; [done|]); destruct (Sh H1) as [_ E].
    + destruct (bps !! _) as [c|] eqn:Ebp; [|done]. exists t, c. splits; try done. cbn in H2. destruct c; [|done]. by rewrite obs_evaluate in H2.
    + destruct H2 as (t' & c & Et' & Ebp & Hc). rewrite <- E in Et'. injection Et' as <-. rewrite Ebp. cbn. destruct c; [|done]. by rewrite obs_evaluate.
Qed.

Lemma judge_step_ok ps tl s' ext r sc : live ps tl s' ext -> seen r s' ->
  exists r' sc', judge_step stop_filter r 0 sc tl = Ok (r', breakpoint_hit (break_status r), sc', tl) /\ judged r' (pos s') (breakpoint_hit (break_status r)) /\
    at_breakpoint sc' = breakpoint_hit (break_status r) /\ strategy sc' = O /\ stop_count sc' = stop_count sc /\ checkpoint_at_first_break sc' = checkpoint_at_first_break sc.
Proof.
  intros Lv Sn. pose proof (g_inv _ _ _ _ (lv_good _ _ _ _ Lv)) as [Om So Li Ca]. unfold judge_step, current_session. rewrite (so_current _ _ So). cbn [unwrap mbind res_bind].
  unfold hardware_or_software_breakpoint_hit. rewrite (se_watch _ _ Sn). cbn [existsb orb]. rewrite bool_decide_true by done. cbn [negb]. rewrite orb_false_r.
  set (sc1 := set_scan_step _ _ _). assert (exists sc', note_stop r (breakpoint_hit (break_status r)) s' sc1 = Ok sc' /\ at_breakpoint sc' = breakpoint_hit (break_status r) /\
    strategy sc' = O /\ stop_count sc' = stop_count sc /\ checkpoint_at_first_break sc' = checkpoint_at_first_break sc) as (sc' & -> & Hsc).
  { unfold note_stop. destruct (breakpoint_hit (break_status r)) eqn:Eh; [|eauto 10]. destruct (se_hit _ _ Sn Eh) as [_ ->].
    destruct (task_there _ Li) as [t Et]. rewrite Et. cbn. eauto 10. }
  cbn [mbind res_bind]. destruct (evaluate_conditions_ok r s' tl Sn (so_current _ _ So) (lv_breakpoints _ _ _ _ Lv)) as (r' & -> & Sn' & Et' & Eh'). cbn [mbind res_bind].
  assert (forall u, bs_task (break_status r') = Some u -> upgrade (bs_task (break_status r')) s' = find_at u (pos s')) as Eup by (intros u ->; cbn; by rewrite obs_find).
  assert (breakpoint_hit (break_status r) = true -> stops stop_filter bps (pos s') -> breakpoint_hit (break_status r') = true /\ exists t, task_at (pos s') = Some t /\ stop_filter t = true) as Hs.
  { intros H1 (_ & t & c & ? & ? & ? & ?). split; [|eauto]. apply Eh'. eauto 10. }
  assert (forall t, breakpoint_hit (break_status r') = true -> task_at (pos s') = Some t -> stop_filter t = true -> breakpoint_hit (break_status r) = true /\ stops stop_filter bps (pos s')) as Hs'.
  { intros t H1 Et Ef. destruct (se_hit _ _ Sn' H1) as [[T _] _]. apply Eh' in H1 as [H1 (t' & c & E1 & E2 & E3)]. split; [done|]. split; [done|]. exists t', c. rewrite Et in E1. injection E1 as <-. done. }
  destruct (any_break (break_status r')) eqn:Ea.
  - destruct (se_task _ _ Sn' Ea) as [t Et]. rewrite Et. cbn [unwrap mbind res_bind]. eexists _, sc'. splits; [done| |apply Hsc..].
    assert (breakpoint_hit (break_status r') = true -> task_at (pos s') = Some t) as Ht by (intros H1; rewrite <- Et; symmetry; by apply Sn').
    destruct (stop_filter t) eqn:Ef; cbn [negb].
    + split; try apply Sn'; [split; [eauto|intros [H1 H2]; by apply Hs]|]. intros H1. destruct (bs_task (break_status r')) as [u|] eqn:Eu; [|done]. exists u. split; [done|].
      rewrite <- (Eup u eq_refl), Et. symmetry. eauto.
    + split; cbn; try done; [apply Sn'|]. split; [done|]. intros [H1 H2]. destruct (Hs H1 H2) as (H3 & t' & E1 & E2). rewrite (Ht H3) in E1. congruence.
  - eexists _, sc'. splits; [done| |apply Hsc..]. assert (breakpoint_hit (break_status r') = false) as Eb.
    { unfold any_break in Ea. destruct (breakpoint_hit (break_status r')); [|done]. by rewrite orb_true_r in Ea. }
    split; try apply Sn'; rewrite Eb; [|done]. split; [done|]. intros [H1 H2]. destruct (Hs H1 H2) as [H3 _]. congruence.
Qed.

(** A step from [p] to [q] on the way to [e]; [at_bp]: it started on a breakpoint that had
    been seen; [hit]: it ended on one. *)
Record turned (p e q : nat) (at_bp hit : bool) : Prop := {
  tn_range : (p <= q <= e)%nat;
  tn_hit : hit = true -> hits bps q;
  tn_moves : (p < q)%nat \/ p = q /\ at_bp = false /\ hit = true;
  tn_skipped : forall n, (p <= n < q)%nat -> hits bps n -> at_bp = true /\ n = p }.

Lemma scanned_live ps tl s ext e r s' : live ps tl s ext -> breakpoints_applied tl = true -> scanned tl e s r s' -> (e <= last)%nat ->
  live ps (set_current (Some s') tl) s' ext /\ seen r s' /\ turned (pos s) e (pos s') false (breakpoint_hit (break_status r)).
Proof.
  intros Lv Ea Sn Le. pose proof (q_last _ _ _ _ Q) as Ql. pose proof (sn_range _ _ _ _ _ Sn) as R. pose proof (fun n => hits_trapped ps tl s ext n Lv Ea) as Ht.
  pose proof (scanned_good _ _ _ _ _ _ _ (lv_good _ _ _ _ Lv) Sn ltac:(lia)) as G'.
  assert (forall n, (pos s <= n <= last)%nat -> key_le k0 (key_at n) = true) as Reg by (intros n Hn; apply (region_up (pos s)); [lia|apply Lv]). splits.
  - split; try apply Lv; [done|apply Reg; lia|lia|]. intros _ b Hb. rewrite (sn_placed _ _ _ _ _ Sn). destruct (q_spaces _ _ _ _ Q (pos s') b ltac:(lia) (Reg (pos s') ltac:(lia)) Hb) as [-> _].
    by apply (lv_armed _ _ _ _ Lv Ea).
  - split; try apply Sn.
    + destruct (signal (break_status r)) eqn:Es; [|done]. destruct (sn_signal _ _ _ _ _ Sn) as (n & Hn & Hs); [by rewrite Es|].
      rewrite (q_signals _ _ _ _ Q n) in Hs; [done|lia|apply Reg; lia].
    + intros Hh. split; [|by apply Sn]. pose proof (sn_hit _ _ _ _ _ Sn Hh) as Hb. by rewrite (lv_breakpoints _ _ _ _ Lv) in Hb.
  - split; [done| | |].
    + intros Hh. pose proof (sn_hit _ _ _ _ _ Sn Hh) as Hb. by rewrite (lv_breakpoints _ _ _ _ Lv) in Hb.
    + destruct (decide (pos s < pos s')%nat) as [|N]; [by left|right]. destruct (breakpoint_hit (break_status r)) eqn:Eh; [splits; [lia|done|done]|].
      destruct N. apply Sn. intros T. destruct (sn_trapped _ _ _ _ _ Sn T). congruence.
    + intros n Hn Hh%Ht. by destruct (sn_skipped _ _ _ _ _ Sn n Hn).
Qed.

Lemma scan_step_ok fuel ps tl s ext m e sc : live ps tl s ext -> ps !! m = Some e -> (pos s < e <= last)%nat -> strategy sc = O ->
  exists r hit sc' tl' s', scan_step stop_filter fuel m sc tl = Ok (r, hit, sc', tl') /\ live ps tl' s' ext /\ turned (pos s) e (pos s') (at_breakpoint sc) hit /\
    judged r (pos s') hit /\ at_breakpoint sc' = hit /\ strategy sc' = O /\ stop_count sc' = stop_count sc /\ checkpoint_at_first_break sc' = checkpoint_at_first_break sc.
Proof.
  intros Lv Em L Es. unfold scan_step. destruct (apply_live ps tl s ext Lv) as (s1 & -> & P1 & Lv1). cbn [mbind res_bind]. rewrite Es. destruct (at_breakpoint sc) eqn:Eb.
  - destruct (singlestep_live _ _ _ _ Lv1 eq_refl ltac:(lia)) as (r & s2 & -> & Lv2 & P2 & Ss & Sh & Sw & Sg & Sk). cbn [mbind res_bind].
    destruct (judge_step_ok _ _ _ _ r sc Lv2) as (r' & sc' & E & Ju & Hsc); [by split; rewrite ?Sh|]. rewrite E. rewrite Sh in *.
    eexists r', false, sc', _, s2. splits; [done|done| |done|apply Hsc..]. split; [lia|done|left; lia|]. intros n Hn _. split; [done|lia].
  - destruct (replay_step_to_mark_ok fuel ps _ s1 m e (g_inv _ _ _ _ (lv_good _ _ _ _ Lv1)) Em ltac:(lia)) as (r & s2 & -> & Sn). cbn [mbind res_bind].
    destruct (scanned_live _ _ _ _ _ _ _ Lv1 eq_refl Sn ltac:(lia)) as (Lv2 & Se & Tn). destruct (judge_step_ok _ _ _ _ r sc Lv2 Se) as (r' & sc' & E & Ju & Hsc). rewrite E.
    eexists r', _, sc', _, s2. splits; [done|done|by rewrite <- P1|done|apply Hsc..].
Qed.

End Backward.
End Backward.
