(* ===== verification/TimelineSearch.v ===== *)
(** The search of [reverse_continue]: it ends, and finds the last stop before the state it
    starts from. *)

From S2P Require Import Prelude Timeline TimelineRun TimelineSpec TimelineMarks TimelineCheckpoints TimelineAutomatic TimelineSeek TimelineTowards TimelineForward TimelineBackward.

Module Searching.

Export Backward.

Section Search.
Context `{Laws : ReplayLaws} {Alone : ExecAlone}.
Context (stop_filter : Task -> bool) (interrupt_check : ReplayTimeline -> bool).
Context (bps : gmap TimelineBreakpoint (option BreakpointCondition)) (barrier : Z) (k0 : MarkKey) (last : nat) (fuel : nat).
Hypothesis Q : quiet bps barrier k0 last.
Hypothesis uninterrupted : forall tl, interrupt_check tl = false.
Hypothesis Hfuel : (last_pos < fuel)%nat.

Local Notation live := (live bps barrier k0 last).
Local Notation stops := (stops stop_filter bps).
Local Notation hits := (hits bps).

Definition extends (ps ps' : list nat) : Prop := forall m n, ps !! m = Some n -> ps' !! m = Some n.

Lemma extends_trans ps1 ps2 ps3 : extends ps1 ps2 -> extends ps2 ps3 -> extends ps1 ps3.
Proof. intros A B m n E. by apply B, A. Qed.

(** No user of a checkpoint is forgotten. *)
Definition grows (ext ext' : Mark -> Z) : Prop := forall m, ext m <= ext' m.

#[export] Instance grows_po : PreOrder grows.
Proof. split; [intros ext m; apply Z.le_refl|]. intros a b c A B m. exact (Z.le_trans _ _ _ (A m) (B m)). Qed.

Lemma stops_hits n : stops n -> hits n.
Proof. intros (T & t & c & Et & Eb & _). split; [done|]. exists (mkBp (vm_uid t) (ip (regs t))). unfold bp_at. rewrite Et. split; [done|]. by exists c. Qed.

(** ** Marks and checkpoints on the way *)

Lemma stay_live ps tl s ext ps' tl' s' ext' : live ps tl s ext -> good ps' tl' s' ext' -> evolves ps tl s ext ps' tl' s' ext' -> pos s' = pos s -> live ps' tl' s' ext' /\ extends ps ps' /\ grows ext ext'.
Proof. intros Lv G Ev P. splits; [eapply live_evolves; [done..| |]; rewrite P; apply Lv|exact (ev_places _ _ _ _ _ _ _ _ Ev)|exact (ev_ext _ _ _ _ _ _ _ _ Ev)]. Qed.

Lemma mark_live ps tl s ext : live ps tl s ext -> exists m tl' s' ps', mark fuel tl = Ok (m, tl') /\ live ps' tl' s' ext /\ extends ps ps' /\ pos s' = pos s /\ ps' !! m = Some (pos s).
Proof.
  intros Lv. destruct (mark_good fuel ps tl s ext (lv_good _ _ _ _ _ _ _ _ Lv) Hfuel) as (m & tl' & s' & ps' & -> & G & P & Em & Ev & _).
  destruct (stay_live _ _ _ _ _ _ _ _ Lv G Ev P) as (? & ? & ?). exists m, tl', s', ps'. by splits.
Qed.

Lemma maybe_add_live ps tl s ext strategy : live ps tl s ext -> exists tl' s' ps' ext', maybe_add_reverse_exec_checkpoint fuel strategy tl = Ok tl' /\ live ps' tl' s' ext' /\
  extends ps ps' /\ grows ext ext' /\ pos s' = pos s.
Proof.
  intros Lv. destruct (maybe_add_good fuel ps tl s ext strategy (lv_good _ _ _ _ _ _ _ _ Lv) Hfuel) as (tl' & s' & ps' & ext' & -> & G & P & Ev & _).
  destruct (stay_live _ _ _ _ _ _ _ _ Lv G Ev P) as (? & ? & ?). exists tl', s', ps', ext'. by splits.
Qed.

Lemma set_short_live ps tl s ext : live ps tl s ext -> exists m tl' s' ps' ext', set_short_checkpoint fuel tl = Ok (m, tl') /\ live ps' tl' s' ext' /\ extends ps ps' /\
  grows ext ext' /\ pos s' = pos s.
Proof.
  intros Lv. destruct (set_short_good fuel ps tl s ext (lv_good _ _ _ _ _ _ _ _ Lv) Hfuel) as (m & tl' & s' & ps' & ext' & -> & G & P & _ & Ev).
  destruct (stay_live _ _ _ _ _ _ _ _ Lv G Ev P) as (? & ? & ?). exists m, tl', s', ps', ext'. by splits.
Qed.

Lemma live_at_mark ps tl s ext m n : live ps tl s ext -> ps !! m = Some n -> at_mark m tl = Ok (bool_decide (n = pos s)).
Proof. intros Lv Em. pose proof (g_inv _ _ _ _ (lv_good _ _ _ _ _ _ _ _ Lv)) as [Om So Li _]. by apply (at_mark_ok ps); [|apply So|..]. Qed.

(** ** What has been found *)

Record dest_at (ps : list nat) (r : Search) (n : nat) : Prop := {
  da_dest : exists d, maybe_dest r = Some d /\ ps !! d = Some n;
  da_stop : stops n;
  da_kind : last_stop_is_watch_or_signal r = false;
  da_task : exists t, task_at n = Some t /\ final_tuid r = Some (tuid t);
  da_result : status (final_result r) = ReplayContinue /\ breakpoint_hit (break_status (final_result r)) = true }.

(** The destination is the last stop from [a] on before [b]. *)
Definition examined (ps : list nat) (r : Search) (a b : nat) : Prop :=
  (maybe_dest r = None /\ forall n, (a <= n < b)%nat -> ~ stops n) \/
  (exists n, dest_at ps r n /\ (a <= n < b)%nat /\ forall n', (n < n' < b)%nat -> ~ stops n').

Lemma dest_extends ps ps' r n : dest_at ps r n -> extends ps ps' -> dest_at ps' r n.
Proof. intros [(d & Ed & Em) ? ? ? ?] X. split; try done. exists d. eauto. Qed.

Lemma examined_extends ps ps' r a b : examined ps r a b -> extends ps ps' -> examined ps' r a b.
Proof. intros [?|(n & D & ?)] X; [by left|right]. exists n. split; [by eapply dest_extends|done]. Qed.

(** Nothing is missed between the end of one step and the end of the next. *)
Lemma examined_up ps r a b b' : examined ps r a b -> (a <= b <= b')%nat -> (forall n, (b <= n < b')%nat -> ~ stops n) -> examined ps r a b'.
Proof.
  intros [[E N]|(n & D & Hn & N)] L H'; [left; split; [done|]|right; exists n; splits; [done|lia|lia|]].
  - intros n Hn. destruct (decide (n < b)%nat); [apply N; lia|apply H'; lia].
  - intros n' Hn'. destruct (decide (n' < b)%nat); [apply N; lia|apply H'; lia].
Qed.

(** ** A turn of the inner loop *)

Lemma note_watch_ok res r tl n hit : judged stop_filter bps res n hit -> note_watch fuel res r tl = Ok (r, tl).
Proof. intros [_ W G _ _]. unfold note_watch, data_watchpoints_hit. by rewrite W, G. Qed.

Lemma note_barrier_ok res r ps tl s ext : live ps tl s ext -> note_barrier fuel res r tl = Ok (r, tl).
Proof.
  intros Lv. pose proof (g_inv _ _ _ _ (lv_good _ _ _ _ _ _ _ _ Lv)) as [_ So _ _]. unfold note_barrier, is_start_of_reverse_execution_barrier_event, current_session.
  rewrite (so_current _ _ So). cbn [unwrap mbind res_bind]. rewrite obs_time, (lv_barrier _ _ _ _ _ _ _ _ Lv).
  rewrite (proj2 (Z.eqb_neq _ _)); [done|]. apply (q_barrier _ _ _ _ Q); apply Lv.
Qed.

Lemma note_breakpoint_ok res r ps tl s ext a b hit : live ps tl s ext -> judged stop_filter bps res (pos s) hit -> examined ps r a b -> (a <= b <= pos s)%nat ->
  (forall n, (b <= n < pos s)%nat -> ~ stops n) -> exists r' tl' s' ps', note_breakpoint fuel res r tl = Ok (r', tl') /\ live ps' tl' s' ext /\ extends ps ps' /\ pos s' = pos s /\
    examined ps' r' a (pos s + Nat.b2n hit) /\ r_end r' = r_end r /\ restart_points r' = restart_points r.
Proof.
  intros Lv Ju Exa L N. unfold note_breakpoint, hardware_or_software_breakpoint_hit. rewrite (ju_watch _ _ _ _ _ Ju). cbn [existsb orb].
  destruct (breakpoint_hit (break_status res)) eqn:Eh.
  - apply (ju_hit _ _ _ _ _ Ju) in Eh as Hs. destruct Hs as [-> Hs]. destruct (mark_live ps tl s ext Lv) as (d & tl' & s' & ps' & -> & Lv' & X & P & Ed). cbn [mbind res_bind].
    pose proof (g_inv _ _ _ _ (lv_good _ _ _ _ _ _ _ _ Lv')) as [_ So' Li' _]. unfold current_session. rewrite (so_current _ _ So'). cbn [unwrap mbind res_bind].
    destruct (ju_task _ _ _ _ _ Ju Eh) as (u & Eu & Ef). destruct (task_there _ Li') as [t Et]. rewrite P in Et. unfold stop_task. rewrite Eu, obs_find, P, Ef, Et. cbn [unwrap mbind res_bind].
    eexists _, tl', s', ps'. splits; try done. right. exists (pos s). split; [|split; [cbn; lia|intros n' Hn'; cbn in Hn'; lia]].
    split; cbn; eauto. split; [apply Ju|done].
  - exists r, tl, s, ps. splits; [done|done|by intros ?|done| |done|done]. eapply examined_up; [done|lia|]. intros n Hn Hs. destruct (decide (n < pos s)%nat); [by apply (N n); [lia|]|].
    destruct hit; cbn in Hn; [|lia]. assert (n = pos s) as -> by lia. apply not_true_iff_false in Eh. apply Eh, (ju_hit _ _ _ _ _ Ju). done.
Qed.

(** How a turn can go on. *)
Definition split_off (start : Mark) (a e p : nat) (r : Search) (ps' : list nat) (s' : Session) (r' : Search) : Prop :=
  maybe_dest r' = None /\ r_end r' = r_end r /\ (a < p < pos s')%nat /\ (pos s' < e)%nat /\
  exists before, ps' !! before = Some p /\
    restart_points r' = before :: match maybe_dest r with Some _ => start :: restart_points r | None => restart_points r end.

Lemma split_interval_ok start avoidable sc r ps tl s ext a e : live ps tl s ext -> ps !! start = Some a -> ps !! r_end r = Some e -> (pos s < e <= last)%nat ->
  (a < pos s)%nat \/ stop_count sc = O ->
  exists fl r' tl' s' ps', split_interval fuel start avoidable sc r tl = Ok (fl, r', tl') /\ live ps' tl' s' ext /\ extends ps ps' /\
    match fl with
    | Loop sc' => r' = r /\ pos s' = pos s /\ at_breakpoint sc' = at_breakpoint sc /\ strategy sc' = strategy sc /\
                  stop_count sc' = (stop_count sc + Nat.b2n avoidable)%nat
    | Break => split_off start a e (pos s) r ps' s' r'
    | Return _ => False
    end.
Proof.
  intros Lv Ea Ee L Hc. unfold split_interval. destruct avoidable; cbn [negb Nat.b2n]; [|exists (Loop sc), r, tl, s, ps; splits; try (by intros ?); try done; lia].
  destruct (Nat.leb_spec (stop_count (count_stop sc)) STOP_COUNT_LIMIT) as [Lc|Lc]; [exists (Loop (count_stop sc)), r, tl, s, ps; splits; try (by intros ?); try done; cbn; lia|].
  cbn in Lc. destruct Hc as [La|Hc]; [|unfold STOP_COUNT_LIMIT in Lc; lia].
  destruct (mark_live ps tl s ext Lv) as (before & tl1 & s1 & ps1 & -> & Lv1 & X1 & P1 & Eb). cbn [mbind res_bind].
  match goal with |- context [run_forward_to_intermediate_point _ _ ?f _] => set (force := f) end. pose proof (X1 _ _ Ee) as Ee1.
  destruct (run_forward_ok fuel ps1 tl1 s1 ext (r_end r) e force (lv_good _ _ _ _ _ _ _ _ Lv1) Ee1 ltac:(lia)) as (moved & tl2 & s2 & -> & G2 & Ev2 & Hm);
    [apply (q_ticks _ _ _ _ Q); apply Lv1|done|]. cbn [mbind res_bind].
  destruct moved.
  - assert (live ps1 tl2 s2 ext) as Lv2.
    { eapply live_evolves; [exact Lv1|done|done| |lia]. apply (region_up k0 (pos s1)); [|apply Lv1]. pose proof (q_last _ _ _ _ Q). lia. }
    rewrite (live_at_mark ps1 tl2 s2 ext (r_end r) e) by done. cbn [mbind res_bind]. rewrite bool_decide_false by lia. cbn [assert_ negb mbind res_bind].
    eexists Break, _, tl2, s2, ps1. splits; [done|done|done|]. split; [done|]. split; [done|]. split; [lia|]. split; [lia|]. exists before. done.
  - destruct (stay_live _ _ _ _ _ _ _ _ Lv1 G2 Ev2 Hm) as (Lv2 & _). exists (Loop (count_stop sc)), r, tl2, s2, ps1. splits; try done; cbn; lia.
Qed.

(** The inner loop looks for stops between the marks [start] and [r_end r]. *)
Record scanning (ps : list nat) (tl : ReplayTimeline) (s : Session) (ext : Mark -> Z) (start : Mark) (a e : nat) (r : Search) (sc : Scan) : Prop := {
  sg_live : live ps tl s ext;
  sg_start : ps !! start = Some a;
  sg_end : ps !! r_end r = Some e;
  sg_range : (a <= pos s < e)%nat /\ (e <= last)%nat;
  sg_strategy : strategy sc = O;
  sg_examined : examined ps r a (pos s + Nat.b2n (at_breakpoint sc));
  sg_count : (a < pos s)%nat \/ (stop_count sc <= Nat.b2n (at_breakpoint sc))%nat }.

(** What is left to do. *)
Definition distance (e : nat) (s : Session) (sc : Scan) : nat := 2 * (e - pos s) + Nat.b2n (negb (at_breakpoint sc)).

(** The inner loop has ended: at the end of the interval, or at a point in it. *)
Definition scan_done (start : Mark) (a e : nat) (r : Search) (ps' : list nat) (s' : Session) (r' : Search) : Prop :=
  (pos s' = e /\ examined ps' r' a e /\ r_end r' = start /\ restart_points r' = restart_points r) \/
  (maybe_dest r' = None /\ r_end r' = r_end r /\ exists before p, ps' !! before = Some p /\ (a < p < pos s')%nat /\ (pos s' < e)%nat /\
     (restart_points r' = before :: restart_points r \/ restart_points r' = before :: start :: restart_points r)).

Lemma upkeep_ok ps tl s ext (sc : Scan) (short : bool) : live ps tl s ext -> exists tl1 sc' tl' s' ps' ext', maybe_add_reverse_exec_checkpoint fuel ExpectShortReverseExecution tl = Ok tl1 /\
  (if short then '(_, tl) ← set_short_checkpoint fuel tl1; Ok (set_first_break false sc, tl) else Ok (sc, tl1)) = Ok (sc', tl') /\ live ps' tl' s' ext' /\ extends ps ps' /\
  grows ext ext' /\ pos s' = pos s /\ at_breakpoint sc' = at_breakpoint sc /\ strategy sc' = strategy sc /\ stop_count sc' = stop_count sc.
Proof.
  intros Lv. destruct (maybe_add_live ps tl s ext ExpectShortReverseExecution Lv) as (tl1 & s1 & ps1 & ext1 & E1 & Lv1 & X1 & W1 & P1). exists tl1. destruct short.
  - destruct (set_short_live ps1 tl1 s1 ext1 Lv1) as (m & tl2 & s2 & ps2 & ext2 & -> & Lv2 & X2 & W2 & P2). eexists _, tl2, s2, ps2, ext2. splits; try done; [by eapply extends_trans|by etransitivity|lia].
  - eexists sc, tl1, s1, ps1, ext1. by splits.
Qed.

Lemma turned_gap p e q at_bp hit : turned bps p e q at_bp hit -> (p + Nat.b2n at_bp <= q)%nat /\ forall n, (p + Nat.b2n at_bp <= n < q)%nat -> ~ stops n.
Proof.
  intros [R _ M Sk]. split; [destruct M as [?|(? & -> & _)]; [destruct at_bp|]; cbn; lia|]. intros n Hn Hs%stops_hits.
  destruct (Sk n ltac:(lia) Hs) as [-> ->]. cbn in Hn. lia.
Qed.

Lemma scan_turn_ok start sc r ps tl s ext a e : scanning ps tl s ext start a e r sc ->
  exists fl r' tl' s' ps' ext', scan_turn stop_filter interrupt_check fuel start sc r tl = Ok (fl, r', tl') /\ extends ps ps' /\ grows ext ext' /\ live ps' tl' s' ext' /\
    match fl with
    | Loop sc' => scanning ps' tl' s' ext' start a e r' sc' /\ (distance e s' sc' < distance e s sc)%nat /\ r_end r' = r_end r /\ restart_points r' = restart_points r
    | Break => scan_done start a e r ps' s' r'
    | Return _ => False
    end.
Proof.
  intros [Lv Ea Ee [R Le] Hst Exa Cnt]. unfold scan_turn.
  destruct (scan_step_ok stop_filter bps barrier k0 last Q fuel ps tl s ext (r_end r) e sc Lv Ee ltac:(lia) Hst) as (res & hit & sc1 & tl1 & s1 & -> & Lv1 & Tn & Ju & Eb1 & Es1 & Ec1 & _).
  cbn [mbind res_bind]. match goal with |- context [if ?b then '(_, _) ← set_short_checkpoint _ _; _ else _] => set (short := b) end.
  destruct (upkeep_ok ps tl1 s1 ext sc1 short Lv1) as (tl2 & sc3 & tl3 & s3 & ps3 & ext3 & -> & E3 & Lv3 & X3 & W3 & P3 & Eb3 & Es3 & Ec3). cbn [mbind res_bind]. rewrite E3. cbn [mbind res_bind].
  rewrite (note_watch_ok res r tl3 _ _ Ju). cbn [mbind res_bind]. rewrite (ju_status _ _ _ _ _ Ju), bool_decide_true by done. cbn [assert_ mbind res_bind].
  rewrite (note_barrier_ok res r ps3 tl3 s3 ext3 Lv3). cbn [mbind res_bind]. rewrite (live_at_mark ps3 tl3 s3 ext3 (r_end r) e Lv3 (X3 _ _ Ee)). cbn [mbind res_bind].
  pose proof (tn_range _ _ _ _ _ _ Tn) as Rq. rewrite <- P3 in *.
  destruct (turned_gap _ _ _ _ _ Tn) as [Lb Nb].
  case_bool_decide as Eend.
  - eexists Break, _, tl3, s3, ps3, ext3. splits; [done|done|done|done|]. left. splits; try done. rewrite Eend.
    assert (examined ps3 r a (pos s3)) as Ex3 by (eapply examined_up; [eapply examined_extends; [exact Exa|exact X3]|lia|done]).
    destruct Ex3 as [?|(n & [? ? ? ? ?] & ?)]; [by left|right]. exists n. split; [by split|done].
  - destruct (note_breakpoint_ok res r ps3 tl3 s3 ext3 a _ hit Lv3 Ju (examined_extends _ _ _ _ _ Exa X3) ltac:(lia) Nb) as (r4 & tl4 & s4 & ps4 & -> & Lv4 & X4 & P4 & Ex4 & Er4 & Ep4).
    cbn [mbind res_bind]. rewrite uninterrupted. pose proof (extends_trans _ _ _ X3 X4) as X34.
    assert ((a < pos s4)%nat \/ stop_count sc3 = O) as Hc.
    { destruct (tn_moves _ _ _ _ _ _ Tn) as [?|(? & Eb & _)]; [left; lia|]. rewrite Eb in Cnt. cbn in Cnt. destruct Cnt; [left; lia|right; lia]. }
    assert (ps4 !! r_end r4 = Some e) as Ee4 by (rewrite Er4; by apply X34).
    destruct (split_interval_ok start hit sc3 r4 ps4 tl4 s4 ext3 a e Lv4 (X34 _ _ Ea) Ee4 ltac:(lia) Hc) as (fl & r5 & tl5 & s5 & ps5 & -> & Lv5 & X5 & Hfl).
    eexists fl, r5, tl5, s5, ps5, ext3. split; [done|]. split; [by eapply extends_trans|]. split; [done|]. split; [done|]. destruct fl as [sc5| |]; [|right|done].
    + destruct Hfl as (-> & P5 & Eb5 & Es5 & Ec5). assert (at_breakpoint sc5 = hit) as Eb by congruence. split; [|split; [|done]].
      * split; rewrite ?Eb; try done; [by apply X5, X34|by apply X5|lia|congruence| |].
        -- rewrite P5, P4. by eapply examined_extends.
        -- destruct Hc as [?|Hc]; [left; lia|right]. lia.
      * unfold distance. rewrite Eb. destruct (tn_moves _ _ _ _ _ _ Tn) as [?|(? & -> & ->)]; [destruct hit, (at_breakpoint sc)|]; cbn; lia.
    + destruct Hfl as (Em & Er & Rp & Lp & before & Ebf & Erp). split; [done|]. split; [congruence|]. exists before, (pos s4). splits; [done|lia..|].
      rewrite Erp, Ep4. destruct (maybe_dest r4); [by right|by left].
Qed.

Lemma scan_loop_ok n start sc r ps tl s ext a e : scanning ps tl s ext start a e r sc -> (distance e s sc < n)%nat ->
  exists r' tl' s' ps' ext', scan_loop stop_filter interrupt_check fuel n start sc r tl = Ok (None, r', tl') /\ extends ps ps' /\ grows ext ext' /\ live ps' tl' s' ext' /\
    scan_done start a e r ps' s' r'.
Proof.
  revert sc r ps tl s ext. induction n as [|n IH]; intros sc r ps tl s ext Sg Hn; [lia|]. cbn [scan_loop].
  destruct (scan_turn_ok start sc r ps tl s ext a e Sg) as (fl & r1 & tl1 & s1 & ps1 & ext1 & -> & X1 & W1 & Lv1 & Hfl). cbn [mbind res_bind]. destruct fl as [sc1| |]; [| |done].
  - destruct Hfl as (Sg1 & D1 & Er & Erp). destruct (IH sc1 r1 ps1 tl1 s1 ext1 Sg1 ltac:(lia)) as (r2 & tl2 & s2 & ps2 & ext2 & -> & X2 & W2 & Lv2 & Dn).
    exists r2, tl2, s2, ps2, ext2. splits; try done; [by eapply extends_trans|by etransitivity|]. unfold scan_done in *. rewrite Erp, Er in Dn. done.
  - exists r1, tl1, s1, ps1, ext1. by splits.
Qed.

(** ** The outer loop *)

(** Restart points are in the opposite order of the execution, before [b]. *)
Definition stack_ok (ps : list nat) (rp : list Mark) (b : nat) : Prop :=
  exists qs, Forall2 (fun m q => ps !! m = Some q /\ key_le k0 (key_at q) = true) rp qs /\ StronglySorted gt (b :: qs).

Lemma stack_extends ps ps' rp b : stack_ok ps rp b -> extends ps ps' -> stack_ok ps' rp b.
Proof. intros (qs & F & S) X. exists qs. split; [|done]. eapply Forall2_impl; [exact F|]. intros m q [? ?]. eauto. Qed.

Lemma stack_up ps rp b b' : stack_ok ps rp b -> (b <= b')%nat -> stack_ok ps rp b'.
Proof.
  intros (qs & F & S) L. exists qs. split; [done|]. apply StronglySorted_inv in S as [S G]. constructor; [done|]. eapply Forall_impl; [exact G|]. cbn. lia.
Qed.

Lemma stack_push ps rp b m b' : stack_ok ps rp b -> ps !! m = Some b -> key_le k0 (key_at b) = true -> (b < b')%nat -> stack_ok ps (m :: rp) b'.
Proof.
  intros (qs & F & S) Em K L. exists (b :: qs). split; [by constructor|]. constructor; [done|]. constructor; [lia|]. apply StronglySorted_inv in S as [_ G].
  eapply Forall_impl; [exact G|]. cbn. lia.
Qed.

Lemma stack_pop ps m rp b : stack_ok ps (m :: rp) b -> exists q, ps !! m = Some q /\ (q < b)%nat /\ key_le k0 (key_at q) = true /\ stack_ok ps rp q.
Proof.
  intros (qs & F & S). destruct qs as [|q qs]; [by inversion F|]. apply Forall2_cons in F as [[Em K] F]. apply StronglySorted_inv in S as [S G]. apply Forall_cons in G as [G _].
  exists q. splits; [done|lia|done|]. by exists qs.
Qed.

(** No stop has been found from the state [e] on, the end of what is left. *)
Record hunting (ps : list nat) (tl : ReplayTimeline) (s : Session) (ext : Mark -> Z) (r : Search) (e : nat) : Prop := {
  hu_live : live ps tl s ext;
  hu_end : ps !! r_end r = Some e;
  hu_last : (e <= last)%nat;
  hu_none : maybe_dest r = None;
  hu_beyond : forall n, (e <= n < last)%nat -> ~ stops n;
  hu_stack : stack_ok ps (restart_points r) (Nat.min (pos s) e) }.

Context (z : nat).
Hypothesis z_stops : stops z.
Hypothesis z_key : key_lt k0 (key_at z) = true.
Hypothesis z_last : (z < last)%nat.

Lemma beyond_z ps tl s ext r e : hunting ps tl s ext r e -> (z < e)%nat /\ key_lt k0 (key_at e) = true.
Proof.
  intros Hu. assert (z < e)%nat as L by (destruct (decide (z < e)%nat); [done|]; destruct (hu_beyond _ _ _ _ _ _ Hu z); [lia|done]). split; [done|].
  eapply key_lt_le; [exact z_key|]. apply key_mono. pose proof (hu_last _ _ _ _ _ _ Hu). pose proof (q_last _ _ _ _ Q). lia.
Qed.

Lemma compare_live ps tl s ext m m' n n' : live ps tl s ext -> ps !! m = Some n -> ps !! m' = Some n' -> mark_ge m m' tl = Ok (bool_decide (n' <= n)%nat).
Proof.
  intros Lv Em Em'. pose proof (g_inv _ _ _ _ (lv_good _ _ _ _ _ _ _ _ Lv)) as [Om _ _ _]. unfold mark_ge. rewrite (mark_cmp_ok ps tl m m' n n' Om Em Em'). cbn.
  destruct (Nat.compare_spec n n'); f_equal; symmetry; (apply bool_decide_true || apply bool_decide_false); lia.
Qed.

(** There is something to look at before the end. *)
Lemma scan_start_ok r ps tl s ext e : hunting ps tl s ext r e ->
  exists start first r' tl' s' ps', scan_start fuel r tl = Ok (Some (start, first), r', tl') /\ extends ps ps' /\ live ps' tl' s' ext /\ ps' !! start = Some (pos s') /\
    (pos s' < e)%nat /\ ((pos s < e)%nat -> pos s' = pos s) /\ r_end r' = r_end r /\ maybe_dest r' = None /\ stack_ok ps' (restart_points r') (pos s').
Proof.
  intros Hu. pose proof (beyond_z _ _ _ _ _ _ Hu) as [Lz Kz]. destruct Hu as [Lv Ee Le Ed Hb St]. unfold scan_start.
  destruct (mark_live ps tl s ext Lv) as (start & tl1 & s1 & ps1 & -> & Lv1 & X1 & P1 & Es). cbn [mbind res_bind]. rewrite <- P1 in Es.
  rewrite (compare_live ps1 tl1 s1 ext start (r_end r) (pos s1) e Lv1 Es (X1 _ _ Ee)). cbn [mbind res_bind]. case_bool_decide as C; cbn [negb].
  2: { exists start, false, r, tl1, s1, ps1. splits; try done; [lia|]. eapply stack_extends; [|exact X1]. eapply stack_up; [exact St|lia]. }
  destruct (restart_points r) as [|seek points] eqn:Erp.
  - pose proof (g_inv _ _ _ _ (lv_good _ _ _ _ _ _ _ _ Lv1)) as [Om1 _ _ _]. rewrite (mark_key_ok ps1 tl1 (r_end r) e (mo_heap _ _ Om1) (X1 _ _ Ee)). cbn [mbind res_bind].
    destruct (seek_to_before_key_good ps1 tl1 s1 ext (key_at e) (lv_good _ _ _ _ _ _ _ _ Lv1)) as (tl2 & s2 & -> & G2 & Sc2 & Ap2 & _ & Hc2). cbn [mbind res_bind].
    destruct (lv_checkpoint _ _ _ _ _ _ _ _ Lv1) as (mc & c & Emc & Hc & Ekc).
    destruct (Hc2 c (ext_checkpointed _ _ _ _ _ _ (lv_good _ _ _ _ _ _ _ _ Lv1) Emc Hc)) as [K1 K2]; [by rewrite Ekc|]. rewrite Ekc in K2.
    assert (pos s2 < e)%nat as L2 by (apply key_lt_pos; [apply G2|pose proof (q_last _ _ _ _ Q); lia|done]).
    assert (live ps1 tl2 s2 ext) as Lv2 by (eapply live_evolves; [exact Lv1|done|by split|done|lia]).
    destruct (mark_live ps1 tl2 s2 ext Lv2) as (start3 & tl3 & s3 & ps3 & -> & Lv3 & X3 & P3 & Es3). cbn [mbind res_bind]. rewrite <- P3 in Es3.
    rewrite (compare_live ps3 tl3 s3 ext start3 (r_end r) (pos s3) e Lv3 Es3) by (by apply X3, X1). cbn [mbind res_bind]. rewrite bool_decide_false by lia.
    eexists start3, true, r, tl3, s3, ps3. splits; try done; [by eapply extends_trans|lia|lia|]. rewrite Erp. exists []. split; [constructor|repeat constructor].
  - destruct (stack_pop _ _ _ _ (stack_extends _ _ _ _ St X1)) as (q & Eq & Lq & Kq & Sq).
    destruct (seek_to_mark_good fuel ps1 tl1 s1 ext seek q (lv_good _ _ _ _ _ _ _ _ Lv1) Eq Hfuel) as (tl2 & s2 & ps2 & -> & G2 & P2 & Ev2). cbn [mbind res_bind].
    assert (live ps2 tl2 s2 ext) as Lv2 by (eapply live_evolves; [exact Lv1|done|done|by rewrite P2|lia]). pose proof (ev_places _ _ _ _ _ _ _ _ Ev2) as X2.
    eexists seek, true, _, tl2, s2, ps2. splits; [done|by eapply extends_trans|done|rewrite P2; by apply X2|lia|lia|done|done|]. cbn. rewrite P2. by eapply stack_extends.
Qed.

(** What is left to do of the outer loop. *)
Definition left_over (e p : nat) : nat := e * (last + 2) + (if (p <? e)%nat then e - p else last + 1).

(** The end of the inner loop ends the search, or less is left to do. *)
Lemma scan_done_hunting ps tl s ext r e start a ps' tl' s' ext' r0 r' : hunting ps tl s ext r e -> extends ps ps' -> live ps' tl' s' ext' -> ps' !! start = Some a -> (a < e)%nat ->
  ((pos s < e)%nat -> a = pos s) -> stack_ok ps' (restart_points r0) a -> r_end r0 = r_end r -> key_le k0 (key_at a) = true ->
  scan_done start a e r0 ps' s' r' ->
  (exists n, dest_at ps' r' n /\ (n < last)%nat /\ forall n', (n < n' < last)%nat -> ~ stops n') \/
  (exists e', hunting ps' tl' s' ext' r' e' /\ (left_over e' (pos s') < left_over e (pos s))%nat).
Proof.
  intros Hu X Lv Ea La Hp St Er0 Ka [(P & Exa & Er & Erp)|(Ed & Er & before & p & Eb & Lp & Lp' & Erp)]; pose proof (hu_last _ _ _ _ _ _ Hu) as Le.
  - destruct Exa as [[Ed N]|(n & D & Hn & N)].
    + right. exists a. split.
      * split; try done; [by rewrite Er|lia| |].
        -- intros n Hn. destruct (decide (n < e)%nat); [apply N; lia|apply Hu; lia].
        -- rewrite Erp, P. replace (Nat.min e a) with a by lia. done.
      * unfold left_over. rewrite P. destruct (Nat.ltb_spec e a); [lia|]. destruct (Nat.ltb_spec (pos s) e); nia.
    + left. exists n. splits; [done|lia|]. intros n' Hn'. destruct (decide (n' < e)%nat); [apply N; lia|apply Hu; lia].
  - right. exists e. assert (key_le k0 (key_at p) = true) as Kp by (apply (region_up k0 a); [pose proof (q_last _ _ _ _ Q); lia|done]). split.
    + split; try done; [rewrite Er, Er0; by apply X, Hu|apply Hu|]. replace (Nat.min (pos s') e) with (pos s') by lia.
      destruct Erp as [-> | ->]; apply (stack_push _ _ p); try done; [eapply stack_up; [done|lia]|lia|eapply stack_push; [done..|lia]|lia].
    + unfold left_over. destruct (Nat.ltb_spec (pos s') e), (Nat.ltb_spec (pos s) e); try lia.
Qed.

Lemma search_loop_ok n r ps tl s ext e : (2 * last + 2 < fuel)%nat -> hunting ps tl s ext r e -> (left_over e (pos s) < n)%nat ->
  exists r' tl' s' ps' ext' d, search_loop stop_filter interrupt_check fuel n r tl = Ok (None, r', tl') /\ live ps' tl' s' ext' /\ extends ps ps' /\ grows ext ext' /\
    dest_at ps' r' d /\ (d < last)%nat /\ forall n', (d < n' < last)%nat -> ~ stops n'.
Proof.
  intros Hf. revert r ps tl s ext e. induction n as [|n IH]; intros r ps tl s ext e Hu Hn; [lia|]. cbn [search_loop]. rewrite (hu_none _ _ _ _ _ _ Hu).
  destruct (scan_start_ok r ps tl s ext e Hu) as (start & first & r1 & tl1 & s1 & ps1 & -> & X1 & Lv1 & Es & L1 & Hp & Er1 & Ed1 & St1). cbn [mbind res_bind].
  destruct (maybe_add_live ps1 tl1 s1 ext ExpectShortReverseExecution Lv1) as (tl2 & s2 & ps2 & ext2 & -> & Lv2 & X2 & W2 & P2). cbn [mbind res_bind].
  pose proof (hu_last _ _ _ _ _ _ Hu) as Le. assert (scanning ps2 tl2 s2 ext2 start (pos s1) e r1 (mkScan first false 0 0 false 0 0)) as Sg.
  { split; try done; [by apply X2|rewrite Er1; by apply X2, X1, Hu|lia| |right; done]. left. split; [done|]. intros n' Hn'. cbn in Hn'. lia. }
  destruct (scan_loop_ok fuel start _ r1 ps2 tl2 s2 ext2 (pos s1) e Sg) as (r3 & tl3 & s3 & ps3 & ext3 & -> & X3 & W3 & Lv3 & Dn); [unfold distance; cbn; lia|]. cbn [mbind res_bind].
  assert (extends ps ps3) as X by (eapply extends_trans; [exact X1|by eapply extends_trans]).
  destruct (scan_done_hunting ps tl s ext r e start (pos s1) ps3 tl3 s3 ext3 r1 r3) as [(d & D & Ld & Nd)|(e' & Hu' & Lo)]; try done.
  - by apply X3, X2.
  - eapply stack_extends; [exact St1|by eapply extends_trans].
  - apply Lv1.
  - destruct n as [|n]; [unfold left_over in Hn; pose proof (beyond_z _ _ _ _ _ _ Hu); destruct (_ <? _)%nat; nia|]. cbn [search_loop].
    destruct (da_dest _ _ _ D) as (m & Em & _). rewrite Em. exists r3, tl3, s3, ps3, ext3, d. splits; try done. by etransitivity.
  - destruct (IH r3 ps3 tl3 s3 ext3 e' Hu' ltac:(lia)) as (r4 & tl4 & s4 & ps4 & ext4 & d & E4 & Lv4 & X4 & W4 & D & Ld & Nd).
    exists r4, tl4, s4, ps4, ext4, d. splits; try done; [by eapply extends_trans|]. etransitivity; [exact W2|by etransitivity].
Qed.

End Search.

Section Continue.
Context `{Laws : ReplayLaws} {Alone : ExecAlone}.

(** The destination becomes the current state. *)
Lemma finish_ok ps tl s ext r d : good ps tl s ext -> pos s = d -> forall t, task_at d = Some t -> final_tuid r = Some (tuid t) ->
  finish_reverse_continue r tl = Ok (set_break_status (set_singlestep_complete false (set_task (Some (tuid t)) (break_status (final_result r)))) (final_result r), tl).
Proof.
  intros G P t Et Ef. unfold finish_reverse_continue, current_session. rewrite (so_current _ _ (i_session _ _ _ (g_inv _ _ _ _ G))). cbn [unwrap mbind res_bind]. rewrite Ef.
  cbn [unwrap mbind res_bind]. rewrite obs_find, P, (task_found _ _ Et). done.
Qed.

(** [reverse_continue] ends on the last state before the current one in which a breakpoint
    is hit, its condition holds and its task is one the debugger wants to stop in. *)
Lemma reverse_continue_ok fuel depth stop_filter interrupt_check ps tl s ext mc c z :
  good ps tl s ext -> ps !! mc = Some c -> 0 < ext mc -> quiet (breakpoints tl) (reverse_execution_barrier_event tl) (key_at c) (pos s) ->
  key_le (key_at c) (key_at (pos s)) = true -> (breakpoints_applied tl = true -> forall b, is_Some (breakpoints tl !! b) -> placed s b = 1%nat) ->
  (forall tl, interrupt_check tl = false) -> ((last_pos + 2) * (last_pos + 2) <= fuel)%nat ->
  stops stop_filter (breakpoints tl) z -> (z < pos s)%nat -> key_lt (key_at c) (key_at z) = true ->
  exists r tl' s' ps' ext', reverse_continue fuel (S depth) stop_filter interrupt_check tl = Ok (r, tl') /\ good ps' tl' s' ext' /\
    stops stop_filter (breakpoints tl) (pos s') /\ (pos s' < pos s)%nat /\ (forall n, (pos s' < n < pos s)%nat -> ~ stops stop_filter (breakpoints tl) n) /\
    status r = ReplayContinue /\ breakpoint_hit (break_status r) = true /\ (exists t, task_at (pos s') = Some t /\ bs_task (break_status r) = Some (tuid t)) /\
    extends ps ps' /\ grows ext ext' /\ same_client tl tl'.
Proof.
  intros G Em He Qt Kp Ar Hi Hf Sz Lz Kz. set (bps := breakpoints tl) in *. set (bar := reverse_execution_barrier_event tl) in *.
  assert (live bps bar (key_at c) (pos s) ps tl s ext) as Lv by (split; try done; eauto). assert (last_pos < fuel)%nat as Hf1 by nia. pose proof (q_last _ _ _ _ Qt) as Ql.
  cbn [reverse_continue]. destruct (mark_live bps bar (key_at c) (pos s) fuel Hf1 ps tl s ext Lv) as (e & tl1 & s1 & ps1 & -> & Lv1 & X1 & P1 & Ee). cbn [mbind res_bind].
  assert (hunting stop_filter bps bar (key_at c) (pos s) ps1 tl1 s1 ext (mkSearch e false (replay_result_new ReplayContinue) None None None []) (pos s)) as Hu.
  { split; try done; [intros n Hn; lia|]. exists []. split; [constructor|repeat constructor]. }
  destruct (search_loop_ok stop_filter interrupt_check bps bar (key_at c) (pos s) fuel Qt Hi Hf1 z Sz Kz Lz fuel _ ps1 tl1 s1 ext (pos s) ltac:(nia) Hu) as (r & tl2 & s2 & ps2 & ext2 & d & -> & Lv2 & X2 & W2 & D & Ld & Nd).
  { unfold left_over. rewrite P1. destruct (Nat.ltb_spec (pos s) (pos s)); nia. }
  cbn [mbind res_bind]. destruct D as [(m & Edm & Epm) Ds Ek (t & Et & Eft) [Rs Rh]]. rewrite Edm, Ek. cbn [unwrap mbind res_bind].
  destruct (seek_to_mark_good fuel ps2 tl2 s2 ext2 m d (lv_good _ _ _ _ _ _ _ _ Lv2) Epm Hf1) as (tl3 & s3 & ps3 & -> & G3 & P3 & Ev3). cbn [mbind res_bind].
  rewrite (finish_ok ps3 tl3 s3 ext2 r d G3 P3 t Et Eft). eexists _, tl3, s3, ps3, ext2. rewrite P3. splits; try done; [by exists t| |].
  - eapply extends_trans; [exact X1|]. eapply extends_trans; [exact X2|]. exact (ev_places _ _ _ _ _ _ _ _ Ev3).
  - destruct (ev_client _ _ _ _ _ _ _ _ Ev3) as [B3 A3]. split; [rewrite B3; apply Lv2|rewrite A3; apply Lv2].
Qed.

End Continue.
End Searching.
