(* ===== verification/TimelineRequests.v ===== *)
(** Requests of a debugger without watchpoints: after marks, checkpoints, seeks, breakpoints
    and steps in both directions the marks of a timeline are in the order of the execution, a
    checkpoint exists exactly as long as it is counted, and the next such request does not
    fail. *)

From S2P Require Import Prelude Timeline TimelineRun TimelineSpec TimelineMarks TimelineCheckpoints TimelineAutomatic TimelineSeek TimelineTowards TimelineForward TimelineBackward TimelineSearch.

Module Requests.

Export Searching.

Section Requests.
Context `{Laws : ReplayLaws} {Alone : ExecAlone}.

(** ** Breakpoints *)

Lemma resettle_good ps tl s ext tl' s' : good ps tl s ext -> session_ok tl' s' -> pos s' = pos s -> heap tl' = heap tl -> marks tl' = marks tl ->
  current_at_or_after_mark tl' = current_at_or_after_mark tl -> same_checkpoints tl tl' -> good ps tl' s' ext.
Proof.
  intros [[Om So Li Ca] C] So' P Eh Em Ea Sk. pose proof (fun m => owned_same tl tl' m Sk) as Ow. destruct Sk as [Ek Er Es]. split.
  - split; [by eapply marks_ok_frame|done|lia|]. intros m. rewrite Ea, P. apply Ca.
  - destruct C as [Ck Cp Cr Cv Cs Cu Cn Ce]. split; rewrite ?Eh, ?Ek, ?Er, ?Es; try done; [intros m c r; rewrite Ow; apply Cu|intros m; rewrite Ow; apply Cn].
Qed.

Lemma remove_breakpoint_good ps tl s ext t addr : good ps tl s ext -> space_at (vm_uid t) (pos s) = true -> has_breakpoint_at_address t addr tl = true ->
  exists tl' s', remove_breakpoint t addr tl = Ok tl' /\ good ps tl' s' ext /\ pos s' = pos s /\ breakpoints tl' = delete (mkBp (vm_uid t) addr) (breakpoints tl).
Proof.
  intros G Sp Hb. pose proof (i_session _ _ _ (g_inv _ _ _ _ G)) as [Ec Hw Nw Hoff Hon]. unfold remove_breakpoint. set (b := mkBp (vm_uid t) addr).
  assert (exists s', (if breakpoints_applied tl then with_session (vm_remove_breakpoint (vm_uid t) addr) tl else Ok tl) = Ok (set_current (Some s') tl) /\ pos s' = pos s /\ watched s' = false /\
    forall b', placed s' b' = if bool_decide (b' = b) then O else placed s b') as (s' & -> & P & W & B).
  { destruct (breakpoints_applied tl) eqn:Ea.
    - destruct (remove_ok s (vm_uid t) addr Sp) as (s' & E & [P W B]). exists s'. unfold with_session, current_session. rewrite Ec. cbn [unwrap mbind res_bind]. rewrite E. splits; [done|done|congruence|].
      intros b'. rewrite B. subst b. case_bool_decide; [|done]. pose proof (Hon (mkBp (vm_uid t) addr)). lia.
    - exists s. rewrite set_current_same by done. splits; try done. intros b'. rewrite !Hoff by done. by case_bool_decide. }
  cbn [mbind res_bind]. unfold has_breakpoint_at_address in *. cbn [breakpoints set_current]. rewrite Hb. cbn [assert_ mbind res_bind]. eexists _, s'. splits; [done| |done|done].
  eapply (resettle_good ps tl s); try done. split; cbn; try done; [intros Ea b'; rewrite B, Hoff by done; by destruct (bool_decide (b' = b))|].
  intros b'. rewrite B. destruct (decide (b' = b)) as [E|E]; [rewrite bool_decide_true by done; split; lia|]. rewrite bool_decide_false by done. rewrite lookup_delete_ne by done. apply Hon.
Qed.

Lemma apply_good ps tl s ext : good ps tl s ext -> exists s', apply_breakpoints_and_watchpoints tl = Ok (set_current (Some s') (set_applied true tl)) /\
  good ps (set_current (Some s') (set_applied true tl)) s' ext /\ pos s' = pos s.
Proof.
  intros G. destruct (apply_ok tl s (i_session _ _ _ (g_inv _ _ _ _ G))) as (s' & E & P & So' & _). exists s'. splits; try done. by eapply (resettle_good ps tl s).
Qed.

Lemma add_breakpoint_good ps tl s ext t addr c : good ps tl s ext -> space_at (vm_uid t) (pos s) = true ->
  exists ok tl' s', add_breakpoint t addr c tl = Ok (ok, tl') /\ good ps tl' s' ext /\ pos s' = pos s.
Proof.
  intros G Sp. unfold add_breakpoint.
  assert (exists tl1 s1, (if has_breakpoint_at_address t addr tl then remove_breakpoint t addr tl else Ok tl) = Ok tl1 /\ good ps tl1 s1 ext /\ pos s1 = pos s /\ breakpoints tl1 !! mkBp (vm_uid t) addr = None)
    as (tl1 & s1 & -> & G1 & P1 & N1).
  { destruct (has_breakpoint_at_address t addr tl) eqn:Hb.
    - destruct (remove_breakpoint_good ps tl s ext t addr G Sp Hb) as (tl1 & s1 & -> & G1 & P1 & Eb). exists tl1, s1. rewrite Eb. splits; try done. apply lookup_delete_eq.
    - exists tl, s. splits; try done. unfold has_breakpoint_at_address in Hb. apply bool_decide_eq_false in Hb. by apply eq_None_not_Some. }
  cbn [mbind res_bind]. destruct (apply_good ps tl1 s1 ext G1) as (s2 & -> & G2 & P2). cbn [mbind res_bind]. unfold current_session. cbn [current set_current unwrap mbind res_bind].
  pose proof (i_session _ _ _ (g_inv _ _ _ _ G2)) as [Ec Hw Nw Hoff Hon]. cbn [breakpoints set_current set_applied] in Hon.
  assert (placed s2 (mkBp (vm_uid t) addr) = O) as P0 by (destruct (Hon (mkBp (vm_uid t) addr)) as [_ I]; destruct (placed s2 _); [done|]; destruct I as [? I]; [lia|congruence]).
  destruct (add_ok s2 (vm_uid t) addr) as (ok & s3 & -> & [P3 W3 B3] & _); [by rewrite P2, P1|]. rewrite P0 in B3. cbn [mbind res_bind]. destruct ok; cbn [negb].
  - eexists true, _, s3. splits; [done| |lia]. eapply (resettle_good ps _ s2); try done. split; cbn; try done; [congruence|]. intros b. rewrite B3.
    case_bool_decide as E; [subst; rewrite lookup_insert_eq; split; [lia|by eexists]|rewrite lookup_insert_ne by done; apply Hon].
  - eexists false, _, s3. splits; [done| |lia]. eapply (resettle_good ps _ s2); try done. split; cbn; try done; [congruence|]. intros b. rewrite B3. case_bool_decide; [split; lia|apply Hon].
Qed.

(** ** Steps forward *)

Lemma visible_good ps tl s ext b : good ps tl s ext -> exists s', visible b tl = Ok (set_current (Some s') tl) /\ s' = set_visible_execution b s /\
  good ps (set_current (Some s') tl) s' ext /\ pos s' = pos s.
Proof.
  intros G. pose proof (i_session _ _ _ (g_inv _ _ _ _ G)) as [Ec Hw Nw Hoff Hon]. destruct (visible_ok b s) as (P & W & B). eexists. unfold visible, with_session, current_session. rewrite Ec. cbn [unwrap mbind res_bind].
  splits; try done. eapply (resettle_good ps tl s); try done. split; cbn; try done; [congruence|intros Ea b'; rewrite B; by apply Hoff|intros b'; rewrite B; apply Hon].
Qed.

Lemma singlestep_good ps tl s ext : good ps tl s ext -> (S (pos s) < last_pos)%nat ->
  exists r tl' s', singlestep_with_breakpoints_disabled tl = Ok (r, tl') /\ good ps tl' s' ext /\ pos s' = S (pos s).
Proof.
  intros G L. unfold singlestep_with_breakpoints_disabled. destruct (apply_good ps tl s ext G) as (s0 & -> & G0 & P0). cbn [mbind res_bind]. set (tl0 := set_current (Some s0) _) in *.
  pose proof (g_inv _ _ _ _ G0) as [Om So Li Ca]. destruct (unapply_internal_ok tl0 s0) as (s1 & -> & P1 & W1 & B1); [apply So..|]. cbn [mbind res_bind].
  assert (session_ok (set_current (Some s1) tl0) s1) as So1 by (split; cbn; try done; [apply So|intros b; rewrite B1; split; lia]).
  destruct (step_session _ s1 (constraints_new RunSinglestep) So1 ltac:(lia)) as (r & s2 & E2 & St). unfold replay_step. rewrite E2. cbn [mbind res_bind].
  pose proof (st_single _ _ _ _ St eq_refl (untrapped s1 (pos s1) B1)) as P2.
  assert (forall b, placed s2 b = O) as B2 by (intros b; rewrite (st_placed _ _ _ _ St), B1; by destruct (space_at _ _)).
  assert (session_ok (set_current (Some s2) tl0) s2) as So2 by (apply (carried_session (set_current (Some s1) tl0) s1); [done|by eapply stepped_carried]).
  destruct (apply_internal_ok (set_current (Some s2) tl0) s2 So2 eq_refl B2) as (s3 & E3 & P3 & So3 & _). change (set_current (Some s2) (set_current (Some s1) tl0)) with (set_current (Some s2) tl0). rewrite E3.
  cbn [mbind res_bind]. eexists r, _, s3. splits; [done| |lia]. split; [|by destruct (g_checkpoints _ _ _ _ G0)]. split; [by eapply marks_ok_frame|done|lia|].
  intros m Em. destruct (Ca m Em) as (n & En & Ln). exists n. split; [done|lia].
Qed.

Lemma no_watchpoint_conditions r tl s : current tl = Some s -> watchpoints_hit (break_status r) = [] -> exists r', evaluate_conditions r tl = Ok r'.
Proof.
  intros Ec Ew. unfold evaluate_conditions, current_session. rewrite Ec. cbn [unwrap mbind res_bind]. destruct (upgrade _ _) as [t|]; [|eauto].
  set (b := if _ && _ then _ else _). assert (watchpoints_hit b = []) as -> by (subst b; by destruct (_ && _)). cbn. eauto.
Qed.

(** A step forward ends before the last state of the recording. *)
Definition ends_before_last (c : RunCommand) (time : Z) (tl : ReplayTimeline) : Prop := forall tl1 s1 r s2,
  apply_breakpoints_and_watchpoints tl = Ok tl1 -> current tl1 = Some s1 ->
  replay_step_with_constraints (with_time time (constraints_new c)) (set_visible_execution true s1) = Ok (r, s2) -> (S (pos s2) < last_pos)%nat.

Lemma replay_step_forward_good fuel ps tl s ext c time : good ps tl s ext -> (last_pos < fuel)%nat -> c <> RunSinglestepFastForward -> ends_before_last c time tl ->
  exists r tl' s' ps' ext', replay_step_forward fuel c time tl = Ok (r, tl') /\ good ps' tl' s' ext' /\ grows ext ext'.
Proof.
  intros G Hf Hc He. unfold replay_step_forward. rewrite (bool_decide_false (c = RunSinglestepFastForward)) by done. cbn [negb assert_ mbind res_bind].
  destruct (apply_good ps tl s ext G) as (s1 & E1 & G1 & P1). rewrite E1. cbn [mbind res_bind]. set (tl1 := set_current (Some s1) _) in *.
  pose proof (g_inv _ _ _ _ G1) as [_ So1 Li1 _]. destruct (proto_mark_ok tl1 s1 So1 Li1) as (before & -> & _). cbn [mbind res_bind].
  destruct (visible_good ps tl1 s1 ext true G1) as (s2 & -> & Es2 & G2 & P2). cbn [mbind res_bind]. pose proof (g_inv _ _ _ _ G2) as [_ So2 Li2 _].
  destruct (step_ok (with_time time (constraints_new c)) s2 Li2) as (r & s3 & E3 & St). unfold step, current_session. cbn [current set_current unwrap mbind res_bind]. rewrite E3. cbn [mbind res_bind].
  rewrite Es2 in E3. pose proof (He tl1 s1 r s3 E1 eq_refl E3) as L3. destruct (st_watch _ _ _ _ St) as [Wh _]; [apply So2|].
  assert (good ps (set_current (Some s3) tl1) s3 ext) as G3 by (apply (carried_good ps (set_current (Some s2) tl1) s2 ext s3 G2); [by eapply stepped_carried|lia]).
  change (set_current (Some s3) (set_current (Some s2) tl1)) with (set_current (Some s3) tl1).
  destruct (visible_good ps _ s3 ext false G3) as (s4 & -> & _ & G4 & P4). cbn [mbind res_bind]. set (tl4 := set_current (Some s4) _) in *.
  assert (exists r4, (if bool_decide (c = RunContinue) then '(_, result, tl) ← fix_watchpoint_coalescing_quirk fuel r before tl4;
      Ok (set_break_status (set_singlestep_complete false (break_status result)) result, tl) else Ok (r, tl4)) = Ok (r4, tl4) /\ watchpoints_hit (break_status r4) = []) as (r4 & -> & W4).
  { case_bool_decide; [|eauto]. unfold fix_watchpoint_coalescing_quirk, data_watchpoints_hit. rewrite Wh. cbn [List.filter filter list_filter]. rewrite (bool_decide_true ([] = [])), orb_true_r by done. cbn. eauto. }
  cbn [mbind res_bind]. destruct (maybe_add_good fuel ps tl4 s4 ext LowOverhead G4 Hf) as (tl5 & s5 & ps5 & ext5 & -> & G5 & P5 & Ev & _). cbn [mbind res_bind].
  destruct (no_watchpoint_conditions r4 tl5 s5) as (r5 & ->); [apply G5|done|]. cbn [mbind res_bind].
  destruct (_ && _); [|eexists _, tl5, s5, ps5, ext5; splits; [done|done|exact (ev_ext _ _ _ _ _ _ _ _ Ev)]].
  destruct (visible_good ps5 tl5 s5 ext5 true G5) as (s6 & -> & _ & G6 & P6). cbn [mbind res_bind].
  destruct (singlestep_good ps5 _ s6 ext5 G6 ltac:(lia)) as (r7 & tl7 & s7 & -> & G7 & _). cbn [mbind res_bind].
  destruct (visible_good ps5 tl7 s7 ext5 false G7) as (s8 & -> & _ & G8 & _). eexists _, _, s8, ps5, ext5. splits; [done|done|exact (ev_ext _ _ _ _ _ _ _ _ Ev)].
Qed.

(** ** Sequences of requests *)

(** What [reverse_continue] needs to find a stop: a checkpoint [mc] the debugger holds, with
    the key [k], after which there are no signals and no barrier, all breakpoints can be set
    and one of them, at [z], is a stop of the debugger. *)
Record can_continue (fuel : nat) (stop_filter : Task -> bool) (interrupt_check : ReplayTimeline -> bool) (tl : ReplayTimeline) (ext : Mark -> Z)
    (s : Session) (mc : Mark) (k : MarkKey) (z : nat) : Prop := {
  cc_current : current tl = Some s;
  cc_held : 0 < ext mc;
  cc_key : mark_key mc tl = Ok k;
  cc_quiet : quiet (breakpoints tl) (reverse_execution_barrier_event tl) k (pos s);
  cc_after : key_le k (key_at (pos s)) = true;
  cc_armed : breakpoints_applied tl = true -> forall b, is_Some (breakpoints tl !! b) -> placed s b = 1%nat;
  cc_uninterrupted : forall tl, interrupt_check tl = false;
  cc_fuel : ((last_pos + 2) * (last_pos + 2) <= fuel)%nat;
  cc_stops : stops stop_filter (breakpoints tl) z;
  cc_before : (z < pos s)%nat;
  cc_stop_key : key_lt k (key_at z) = true }.

(** The timelines a debugger can bring about, and how many checkpoints of each mark it
    holds; [runs] is whether it may also run the program.  A debugger gives back only
    checkpoints it holds, seeks to marks it has got, and sets breakpoints in the address
    space of a task of the current session.  It runs forward not as far as the end of the
    recording, and backward to breakpoints after a checkpoint it holds.  It does not set
    watchpoints, does not singlestep backward, and does not use the lazy reverse steps. *)
Inductive reached (fuel : nat) (runs : bool) : ReplayTimeline -> (Mark -> Z) -> Prop :=
| reached_new s : (pos s < last_pos)%nat -> (forall b, placed s b = O) -> watched s = false -> reached fuel runs (timeline_new s) (fun _ => 0)
| reached_mark tl ext m tl' : reached fuel runs tl ext -> mark fuel tl = Ok (m, tl') -> reached fuel runs tl' ext
| reached_add tl ext m tl' : reached fuel runs tl ext -> add_explicit_checkpoint fuel tl = Ok (m, tl') -> reached fuel runs tl' (bump m 1 ext)
| reached_remove tl ext m tl' : reached fuel runs tl ext -> 0 < ext m -> remove_explicit_checkpoint m tl = Ok tl' -> reached fuel runs tl' (bump m (-1) ext)
| reached_seek tl ext m tl' : reached fuel runs tl ext -> (m < List.length (heap tl))%nat -> seek_to_mark fuel m tl = Ok tl' -> reached fuel runs tl' ext
| reached_before tl ext time tl' : reached fuel runs tl ext -> seek_to_before_event time tl = Ok tl' -> reached fuel runs tl' ext
| reached_add_breakpoint tl ext s t addr c ok tl' : reached fuel runs tl ext -> current tl = Some s -> find_address_space (vm_uid t) s = true ->
    add_breakpoint t addr c tl = Ok (ok, tl') -> reached fuel runs tl' ext
| reached_remove_breakpoint tl ext s t addr tl' : reached fuel runs tl ext -> current tl = Some s -> find_address_space (vm_uid t) s = true ->
    has_breakpoint_at_address t addr tl = true -> remove_breakpoint t addr tl = Ok tl' -> reached fuel runs tl' ext
| reached_barrier tl ext event : reached fuel runs tl ext -> reached fuel runs (set_reverse_execution_barrier_event event tl) ext
| reached_forward tl ext c time r tl' : reached fuel runs tl ext -> runs = true -> c <> RunSinglestepFastForward -> ends_before_last c time tl ->
    replay_step_forward fuel c time tl = Ok (r, tl') -> reached fuel runs tl' ext
| reached_backward tl ext s mc k z depth stop_filter interrupt_check r tl' : reached fuel runs tl ext -> runs = true ->
    can_continue fuel stop_filter interrupt_check tl ext s mc k z ->
    reverse_continue fuel (S depth) stop_filter interrupt_check tl = Ok (r, tl') -> reached fuel runs tl' ext.

Lemma new_good s : (pos s < last_pos)%nat -> (forall b, placed s b = O) -> watched s = false -> good [] (timeline_new s) s (fun _ => 0).
Proof.
  intros L P W. split; [split; [split; try done; by intros m im n ?|split; try done; intros b; rewrite P; split; lia|done|done]|].
  split; try done; constructor.
Qed.

Lemma mark_place ps tl s ext m : good ps tl s ext -> (m < List.length (heap tl))%nat -> exists n, ps !! m = Some n.
Proof.
  intros G L. rewrite (Forall2_length _ _ _ (mo_heap _ _ (i_marks _ _ _ (g_inv _ _ _ _ G)))) in L. by apply lookup_lt_is_Some_2 in L.
Qed.

Lemma held_place ps tl s ext m : good ps tl s ext -> 0 < ext m -> exists n, ps !! m = Some n.
Proof. intros G He. destruct (ps !! m) as [n|] eqn:E; [eauto|]. destruct (co_known _ _ _ (g_checkpoints _ _ _ _ G) m E). lia. Qed.

Lemma add_clones fuel ps tl s ext m tl' : good ps tl s ext -> add_explicit_checkpoint fuel tl = Ok (m, tl') -> can_clone s = true.
Proof.
  intros G E. unfold add_explicit_checkpoint in E. rewrite (can_add_ok tl s) in E by apply G. cbn [mbind res_bind] in E. by destruct (can_clone s).
Qed.

(** The current session of a timeline. *)
Lemma good_current ps tl s ext s0 : good ps tl s ext -> current tl = Some s0 -> s0 = s.
Proof. intros G Ec. pose proof (so_current _ _ (i_session _ _ _ (g_inv _ _ _ _ G))). congruence. Qed.

(** [reverse_continue] needs the checkpoint for its key only. *)
Lemma backward_good fuel depth stop_filter interrupt_check ps tl s ext held s0 mc k z : good ps tl s ext -> grows held ext ->
  can_continue fuel stop_filter interrupt_check tl held s0 mc k z ->
  exists r tl' s' ps' ext', reverse_continue fuel (S depth) stop_filter interrupt_check tl = Ok (r, tl') /\ good ps' tl' s' ext' /\ grows ext ext'.
Proof.
  intros G Hg [Ec Hh Ek Hq Ka Ar Hi Hf Sz Lz Kz]. apply (good_current _ _ _ _ _ G) in Ec as ->. specialize (Hg mc).
  destruct (held_place ps tl s ext mc G ltac:(lia)) as [c En]. rewrite (mark_key_ok ps tl mc c (mo_heap _ _ (i_marks _ _ _ (g_inv _ _ _ _ G))) En) in Ek. injection Ek as <-.
  destruct (reverse_continue_ok fuel depth stop_filter interrupt_check ps tl s ext mc c z) as (r & tl' & s' & ps' & ext' & E & G' & _ & _ & _ & _ & _ & _ & _ & W & _); try done; [lia|].
  exists r, tl', s', ps', ext'. splits; done.
Qed.

(** Requests that take or give back no checkpoints. *)
Definition served (runs : bool) (tl : ReplayTimeline) (held : Mark -> Z) : Prop :=
  exists ps s ext, good ps tl s ext /\ grows held ext /\ (runs = false -> forall m, ext m = held m).

Lemma served_bump runs ps tl s ext held m d : grows held ext -> (runs = false -> forall m, ext m = held m) -> good ps tl s (bump m d ext) -> served runs tl (bump m d held).
Proof.
  intros Hg He G. exists ps, s, (bump m d ext). unfold bump. splits; [done| |].
  - intros m'. specialize (Hg m'). case_bool_decide; lia.
  - intros E m'. specialize (He E m'). case_bool_decide; lia.
Qed.

Lemma reached_served fuel runs tl held : (last_pos < fuel)%nat -> reached fuel runs tl held -> served runs tl held.
Proof.
  intros Hf R. induction R as [s L P W|tl held m tl' R (ps & s & ext & G & Hg & He) E|tl held m tl' R (ps & s & ext & G & Hg & He) E|tl held m tl' R (ps & s & ext & G & Hg & He) Hh E|
    tl held m tl' R (ps & s & ext & G & Hg & He) Lm E|tl held time tl' R (ps & s & ext & G & Hg & He) E|tl held s0 t addr c ok tl' R (ps & s & ext & G & Hg & He) Ec Sp E|
    tl held s0 t addr tl' R (ps & s & ext & G & Hg & He) Ec Sp Hb E|tl held event R (ps & s & ext & G & Hg & He)|tl held c time r tl' R (ps & s & ext & G & Hg & He) -> Hc Hl E|
    tl held s0 mc k z depth filter check r tl' R (ps & s & ext & G & Hg & He) -> Hc E].
  - exists [], s, (fun _ => 0). splits; [by apply new_good|done|done].
  - destruct (mark_good fuel ps tl s ext G Hf) as (m' & tl1 & s' & ps' & E' & G' & _). rewrite E in E'. simplify_eq. by exists ps', s', ext.
  - destruct (add_explicit_checkpoint_good fuel ps tl s ext G Hf (add_clones _ _ _ _ _ _ _ G E)) as (m' & tl1 & s' & ps' & E' & G' & _). rewrite E in E'. simplify_eq. by eapply served_bump.
  - specialize (Hg m) as Hgm. destruct (held_place _ _ _ _ m G ltac:(lia)) as [n En]. destruct (remove_explicit_checkpoint_good ps tl s ext m n G En ltac:(lia)) as (tl1 & E' & G' & _). rewrite E in E'. simplify_eq. by eapply served_bump.
  - destruct (mark_place _ _ _ _ _ G Lm) as [n En]. destruct (seek_to_mark_good fuel ps tl s ext m n G En Hf) as (tl1 & s' & ps' & E' & G' & _). rewrite E in E'. simplify_eq. by exists ps', s', ext.
  - destruct (seek_to_before_key_good ps tl s ext (mkMarkKey time 0 TstepNone) G) as (tl1 & s' & E' & G' & _). unfold seek_to_before_event in E. rewrite E in E'. simplify_eq. by exists ps, s', ext.
  - apply (good_current _ _ _ _ _ G) in Ec as ->. rewrite obs_space in Sp.
    destruct (add_breakpoint_good ps tl s ext t addr c G Sp) as (ok' & tl1 & s' & E' & G' & _). rewrite E in E'. simplify_eq. by exists ps, s', ext.
  - apply (good_current _ _ _ _ _ G) in Ec as ->. rewrite obs_space in Sp.
    destruct (remove_breakpoint_good ps tl s ext t addr G Sp Hb) as (tl1 & s' & E' & G' & _). rewrite E in E'. simplify_eq. by exists ps, s', ext.
  - exists ps, s, ext. splits; try done. eapply (resettle_good ps tl s); try done. by destruct (i_session _ _ _ (g_inv _ _ _ _ G)).
  - destruct (replay_step_forward_good fuel ps tl s ext c time G Hf Hc Hl) as (r' & tl1 & s' & ps' & ext' & E' & G' & W). rewrite E in E'. simplify_eq. exists ps', s', ext'. splits; [done|by etransitivity|done].
  - destruct (backward_good fuel depth filter check ps tl s ext held s0 mc k z G Hg Hc) as (r' & tl1 & s' & ps' & ext' & E' & G' & W). rewrite E in E'. simplify_eq. exists ps', s', ext'. splits; [done|by etransitivity|done].
Qed.

End Requests.
End Requests.
