(* ===== verification/TimelineTheorems.v ===== *)
(** What the replay timeline promises to the debugger. *)

From S2P Require Import Prelude Timeline TimelineRun TimelineSpec TimelineMarks TimelineCheckpoints TimelineAutomatic TimelineSeek TimelineTowards TimelineForward TimelineBackward TimelineSearch TimelineRequests.

Module TimelineTheorems.

Export Requests.

Section Helpers.
Context `{Laws : ReplayLaws} {Alone : ExecAlone}.

(** The marks of a key that have a checkpoint. *)
Definition checkpoints_with (k : MarkKey) (h : list InternalMark) : nat :=
  List.length (List.filter (fun im => bool_decide (is_Some (checkpoint im)) && bool_decide (key (proto im) = k)) h).

Lemma count_checkpoints k h ps : Forall2 represents h ps -> count k (refs h) ps = Z.of_nat (checkpoints_with k h).
Proof.
  unfold count, checkpoints_with. intros F. f_equal. induction F as [|im n h ps R F IH]; [done|]. cbn. destruct R as [_ (t & _ & Ep) _ _]. unfold counted at 1. cbn. rewrite Ep. cbn [key proto_new].
  destruct (bool_decide (is_Some (checkpoint im)) && bool_decide (key_at n = k)); cbn; [f_equal|]; exact IH.
Qed.

(** The mark before another one in the vector of their key. *)
Lemma rposition_lookup (m : Mark) v i : rposition m v = Some i -> v !! i = Some m.
Proof.
  revert i. induction v as [|x v IH]; intros i E; [done|]. cbn in E. destruct (rposition m v) as [j|]; [injection E as <-; by apply IH|].
  case_bool_decide; [|done]. by injection E as <-; subst.
Qed.

Lemma rposition_total (m : Mark) v : m ∈ v -> exists i, rposition m v = Some i.
Proof.
  induction v as [|x v IH]; [by intros []%elem_of_nil|]. cbn. intros [->|Hm]%elem_of_cons.
  - destruct (rposition x v); [eauto|]. rewrite bool_decide_true by done. eauto.
  - destruct (IH Hm) as [i ->]. eauto.
Qed.

(** [m'] is the mark of the state before [m], with its key, and a singlestep from it without
    a signal has led to the next mark. *)
Definition step_before (ps : list nat) (tl : ReplayTimeline) (n : nat) (m' : Mark) : Prop :=
  exists n' im, ps !! m' = Some n' /\ n = S n' /\ key_at n' = key_at n /\ heap tl !! m' = Some im /\ singlestep_to_next_mark_no_signal im = true.

(** No mark of a vector is between those of consecutive states. *)
Lemma adjacent ps k v i j m q n : vector_ok ps k v -> v !! i = Some m -> ps !! m = Some (S n) -> v !! j = Some q -> ps !! q = Some n -> i = S j.
Proof.
  intros [Vs Vk] Ei Em Ej Eq. destruct (Nat.lt_trichotomy i j) as [L|[->|L]].
  - destruct (sorted_lookup _ _ i j m q Vs L Ei Ej) as (? & ? & ? & ? & ?). simplify_eq. lia.
  - simplify_eq. lia.
  - destruct (decide (i = S j)) as [|N]; [done|]. destruct (lookup_lt_is_Some_2 v (S j)) as [p Ep]; [apply lookup_lt_Some in Ei; lia|].
    destruct (sorted_lookup _ _ j (S j) q p Vs ltac:(lia) Ej Ep) as (? & ? & ? & ? & ?). destruct (sorted_lookup _ _ (S j) i p m Vs ltac:(lia) Ep Ei) as (? & ? & ? & ? & ?). simplify_eq. lia.
Qed.

Lemma find_singlestep_before_ok ps tl m n : marks_ok ps tl -> ps !! m = Some n -> exists o, find_singlestep_before m tl = Ok o /\
  forall m', o = Some m' <-> step_before ps tl n m'.
Proof.
  intros Om Em. unfold find_singlestep_before. rewrite (mark_key_ok ps tl m n (mo_heap _ _ Om) Em). cbn [mbind res_bind].
  destruct (mo_in _ _ Om m n Em) as (v & Ev & Hv). rewrite Ev. destruct (rposition_total m v Hv) as [i Ei]. rewrite Ei. cbn [unwrap mbind res_bind].
  apply rposition_lookup in Ei. pose proof (mo_vec _ _ Om _ _ Ev) as V.
  assert (forall m', step_before ps tl n m' -> exists j, v !! j = Some m' /\ i = S j) as Adj.
  { intros m' (n' & im & E1 & -> & Ek & _). destruct (mo_in _ _ Om m' n' E1) as (v' & Ev' & Hv'). rewrite Ek, Ev in Ev'. injection Ev' as <-.
    apply list_elem_of_lookup in Hv' as [j Ej]. exists j. split; [done|]. by eapply (adjacent ps _ v i j m m' n'). }
  destruct i as [|i]; [exists None; split; [done|]; intros m'; split; [done|]; intros (j & _ & ?)%Adj; lia|].
  destruct (lookup_lt_is_Some_2 v i) as [p Ep]; [apply lookup_lt_Some in Ei; lia|]. rewrite Ep. cbn [unwrap mbind res_bind].
  pose proof V as [Vs Vk]. rewrite Forall_forall in Vk. destruct (Vk p) as (np & Enp & Ekp); [by eapply list_elem_of_lookup_2|].
  destruct (heap_at _ _ _ _ (mo_heap _ _ Om) Enp) as (im & Eh & R). unfold get_mark. rewrite Eh. cbn [unwrap mbind res_bind]. eexists. split; [done|]. intros m'.
  destruct (singlestep_to_next_mark_no_signal im) eqn:Ef; [split|split; [done|]].
  - intros [= <-]. exists np, im. splits; try done. destruct (mo_flags _ _ Om p im np Eh Enp Ef) as (q & Eq & Ekq). destruct (mo_in _ _ Om q (S np) Eq) as (v' & Ev' & Hq). rewrite Ekq, Ekp, Ev in Ev'. injection Ev' as <-.
    apply list_elem_of_lookup in Hq as [j Ej]. pose proof (adjacent ps _ v j i q p np V Ej Eq Ep Enp) as ->. by simplify_eq.
  - intros (j & Ej & E)%Adj. injection E as <-. congruence.
  - intros S'. destruct (Adj _ S') as (j & Ej & E). injection E as <-. destruct S' as (n' & im' & _ & _ & _ & E1 & E2). rewrite Ep in Ej. simplify_eq. congruence.
Qed.

(** Removing all elements of a vector by ascending indices. *)
Lemma remove_ascending {A} i k (l : list A) : List.length l = S k -> (0 < i)%nat -> for_each (fun i ws => vec_remove i ws) (seq i (S k)) l = Panic.
Proof.
  revert i l. induction k as [|k IH]; intros i l L Hi; cbn [seq for_each]; unfold vec_remove; destruct (Nat.ltb_spec i (List.length l)) as [Lt|]; try done; [lia|].
  cbn [mbind res_bind]. apply IH; [|lia]. rewrite length_delete; [lia|]. by apply lookup_lt_is_Some_2.
Qed.

Lemma to_remove_all t s tl i ws :
  (forall w, w ∈ ws -> condition_holds (watchpoints tl !! mkWp (vm_uid t) (w_addr w) (w_num_bytes w) (w_type w)) t s = false) -> to_remove t s tl i ws = seq i (List.length ws).
Proof.
  revert i. induction ws as [|w ws IH]; intros i Hw; [done|]. cbn. rewrite Hw by (by left). cbn. f_equal. apply IH. intros w' Hw'. apply Hw. by right.
Qed.

Lemma bound_mono p q : p <= q -> checkpoint_bound p <= checkpoint_bound q.
Proof. intros L. unfold checkpoint_bound. pose proof (Z.log2_le_mono (p / LOW_OVERHEAD_INTER_CHECKPOINT_INTERVAL) (q / LOW_OVERHEAD_INTER_CHECKPOINT_INTERVAL) (Z.div_le_mono p q LOW_OVERHEAD_INTER_CHECKPOINT_INTERVAL eq_refl L)). lia. Qed.

End Helpers.

Section Theorems.
Context `{Laws : ReplayLaws} {Alone : ExecAlone}.

(** C2: [reverse_continue] ends on the last state before the current one in which the
    debugger wants to stop: a breakpoint of the debugger is hit there, its condition holds
    and the filter accepts the task.  The result reports the hit and the task, and marks and
    checkpoints the debugger holds stay valid.  The conditions: there are no watchpoints;
    the debugger holds a checkpoint [mc] and at least one stop [z] is between it and the
    current state; there all breakpoints can be set, no signal arrives, the barrier event is
    elsewhere and the tasks have retired a branch; the interrupt check never fires; and no
    task of the recording executes a program while another task, such as the parent of a
    [vfork], is in its address space ([ExecAlone]).  The session keeps the documented
    behaviour of replay, [ReplayLaws]. *)
Theorem reverse_continue_finds_last_stop fuel depth stop_filter interrupt_check ps tl s ext mc c z :
  good ps tl s ext -> ps !! mc = Some c -> 0 < ext mc -> quiet (breakpoints tl) (reverse_execution_barrier_event tl) (key_at c) (pos s) ->
  key_le (key_at c) (key_at (pos s)) = true -> (breakpoints_applied tl = true -> forall b, is_Some (breakpoints tl !! b) -> placed s b = 1%nat) ->
  (forall tl, interrupt_check tl = false) -> ((last_pos + 2) * (last_pos + 2) <= fuel)%nat ->
  stops stop_filter (breakpoints tl) z -> (z < pos s)%nat -> key_lt (key_at c) (key_at z) = true ->
  exists r tl' s' ps' ext', reverse_continue fuel (S depth) stop_filter interrupt_check tl = Ok (r, tl') /\ good ps' tl' s' ext' /\
    stops stop_filter (breakpoints tl) (pos s') /\ (pos s' < pos s)%nat /\ (forall n, (pos s' < n < pos s)%nat -> ~ stops stop_filter (breakpoints tl) n) /\
    status r = ReplayContinue /\ breakpoint_hit (break_status r) = true /\ (exists t, task_at (pos s') = Some t /\ bs_task (break_status r) = Some (tuid t)) /\
    extends ps ps' /\ grows ext ext' /\ same_client tl tl'.
Proof. apply reverse_continue_ok. Qed.

(** C9: On a timeline that has served any sequence of the following requests the next one
    does not fail: marking the current state, taking and giving back checkpoints, seeking to
    a mark, which ends in the state of that mark, seeking before an event, adding and
    removing breakpoints, running or stepping forward not as far as the end of the recording,
    and [reverse_continue] where it finds a stop ([can_continue]).  Not among the requests
    are watchpoints, whose conditions can make a request panic, and the other reverse steps;
    and no task executes a program while another one is in its address space
    ([ExecAlone]). *)
Theorem requests_succeed fuel runs tl held : (last_pos < fuel)%nat -> reached fuel runs tl held ->
  (exists m tl', mark fuel tl = Ok (m, tl') /\ at_mark m tl' = Ok true) /\
  (can_add_checkpoint tl = Ok true -> exists m tl', add_explicit_checkpoint fuel tl = Ok (m, tl') /\ at_mark m tl' = Ok true) /\
  (forall m, 0 < held m -> exists tl', remove_explicit_checkpoint m tl = Ok tl') /\
  (forall m, (m < List.length (heap tl))%nat -> exists tl', seek_to_mark fuel m tl = Ok tl' /\ at_mark m tl' = Ok true) /\
  (forall time, exists tl', seek_to_before_event time tl = Ok tl') /\
  (forall s t addr c, current tl = Some s -> find_address_space (vm_uid t) s = true -> exists ok tl', add_breakpoint t addr c tl = Ok (ok, tl')) /\
  (forall s t addr, current tl = Some s -> find_address_space (vm_uid t) s = true -> has_breakpoint_at_address t addr tl = true ->
     exists tl', remove_breakpoint t addr tl = Ok tl') /\
  (forall c time, c <> RunSinglestepFastForward -> ends_before_last c time tl -> exists r tl', replay_step_forward fuel c time tl = Ok (r, tl')) /\
  (forall depth stop_filter interrupt_check s mc k z, can_continue fuel stop_filter interrupt_check tl held s mc k z ->
     exists r tl', reverse_continue fuel (S depth) stop_filter interrupt_check tl = Ok (r, tl')).
Proof.
  intros Hf R. destruct (reached_served fuel runs tl held Hf R) as (ps & s & ext & G & Hg & _).
  assert (forall ps tl s ext m, good ps tl s ext -> ps !! m = Some (pos s) -> at_mark m tl = Ok true) as At.
  { intros ps0 tl0 s0 ext0 m [[Om So Li _] _] Em. rewrite (at_mark_ok ps0 tl0 s0 m (pos s0) Om (so_current _ _ So) Li Em). by rewrite bool_decide_true. }
  splits.
  - destruct (mark_good fuel ps tl s ext G Hf) as (m & tl' & s' & ps' & E & G' & P & Em & _). exists m, tl'. rewrite <- P in Em. eauto.
  - rewrite (can_add_ok tl s) by apply G. intros [= Ec]. destruct (add_explicit_checkpoint_good fuel ps tl s ext G Hf Ec) as (m & tl' & s' & ps' & E & G' & P & Em & _).
    exists m, tl'. rewrite <- P in Em. eauto.
  - intros m He. specialize (Hg m). destruct (held_place _ _ _ _ m G ltac:(lia)) as [n En]. destruct (remove_explicit_checkpoint_good ps tl s ext m n G En ltac:(lia)) as (tl' & E & _). eauto.
  - intros m L. destruct (mark_place _ _ _ _ _ G L) as [n En]. destruct (seek_to_mark_good fuel ps tl s ext m n G En Hf) as (tl' & s' & ps' & E & G' & P & Ev).
    exists tl'. split; [done|]. eapply At; [done|]. rewrite P. by apply (ev_places _ _ _ _ _ _ _ _ Ev).
  - intros time. destruct (seek_to_before_key_good ps tl s ext (mkMarkKey time 0 TstepNone) G) as (tl' & s' & E & _). eauto.
  - intros s0 t addr c Ec Sp. apply (good_current _ _ _ _ _ G) in Ec as ->. rewrite obs_space in Sp. destruct (add_breakpoint_good ps tl s ext t addr c G Sp) as (ok & tl' & s' & E & _). eauto.
  - intros s0 t addr Ec Sp Hb. apply (good_current _ _ _ _ _ G) in Ec as ->. rewrite obs_space in Sp. destruct (remove_breakpoint_good ps tl s ext t addr G Sp Hb) as (tl' & s' & E & _). eauto.
  - intros c time Hc Hl. destruct (replay_step_forward_good fuel ps tl s ext c time G Hf Hc Hl) as (r & tl' & s' & ps' & ext' & E & _). eauto.
  - intros depth filter check s0 mc k z Hc. destruct (backward_good fuel depth filter check ps tl s ext held s0 mc k z G Hg Hc) as (r & tl' & s' & ps' & ext' & E & _). eauto.
Qed.

(** C10: On a timeline that has served a sequence of marks, checkpoints, seeks, breakpoints,
    steps forward before the end of the recording and [reverse_continue]s that find a stop
    ([reached]) every mark is of a state of the execution, marks compare as these states
    follow each other, and the vector of a key has its marks in that order, although keys,
    registers and return addresses alone do not order them.  There are no watchpoints and no
    reverse singlesteps, and no task executes a program while another one is in its address
    space ([ExecAlone]). *)
Theorem marks_follow_execution fuel runs tl held : (last_pos < fuel)%nat -> reached fuel runs tl held -> exists ps : list nat, List.length ps = List.length (heap tl) /\
  (forall m n im, ps !! m = Some n -> heap tl !! m = Some im -> exists t, task_at n = Some t /\ proto im = proto_new (key_at n) t) /\
  (forall m m' n n', ps !! m = Some n -> ps !! m' = Some n' -> mark_cmp m m' tl = Ok (n ?= n')%nat) /\
  (forall k v i j m m' n n', marks tl !! k = Some v -> (i < j)%nat -> v !! i = Some m -> v !! j = Some m' -> ps !! m = Some n -> ps !! m' = Some n' -> (n < n')%nat).
Proof.
  intros Hf R. destruct (reached_served fuel runs tl held Hf R) as (ps & s & ext & G & _). pose proof (i_marks _ _ _ (g_inv _ _ _ _ G)) as Om. exists ps. splits.
  - symmetry. by apply (Forall2_length _ _ _ (mo_heap _ _ Om)).
  - intros m n im Em Eh. destruct (heap_at _ _ _ _ (mo_heap _ _ Om) Em) as (im' & Eh' & Rp). rewrite Eh in Eh'. injection Eh' as <-. apply Rp.
  - intros m m' n n' Em Em'. by apply (mark_cmp_ok ps).
  - intros k v i j m m' n n' Ev L Ei Ej Em Em'. destruct (sorted_lookup _ _ i j m m' (vo_sorted _ _ _ (mo_vec _ _ Om _ _ Ev)) L Ei Ej) as (? & ? & ? & ? & ?). by simplify_eq.
Qed.

(** C18: On a timeline that has served a sequence of marks, checkpoints, seeks, breakpoints,
    steps forward before the end of the recording and [reverse_continue]s that find a stop
    ([reached]) a mark has a checkpoint exactly when its count is positive, the count is at
    least the number of users, so no user loses its checkpoint, and the map of keys with
    checkpoints has for each key the number of its marks with checkpoints.  Without steps and
    [reverse_continue]s the count is exactly the number of users; these forget some of the
    checkpoints they take.  There are no watchpoints and no reverse singlesteps, and no task
    executes a program while another one is in its address space ([ExecAlone]). *)
Theorem checkpoints_counted fuel runs tl held : (last_pos < fuel)%nat -> reached fuel runs tl held ->
  (forall m im, heap tl !! m = Some im -> (is_Some (checkpoint im) <-> 0 < checkpoint_refcount im) /\
     owned tl m + held m <= checkpoint_refcount im /\ (runs = false -> checkpoint_refcount im = owned tl m + held m)) /\
  (forall k, default 0 (marks_with_checkpoints tl !! k) = Z.of_nat (checkpoints_with k (heap tl))) /\
  (forall k n, marks_with_checkpoints tl !! k = Some n -> 0 < n).
Proof.
  intros Hf R. destruct (reached_served fuel runs tl held Hf R) as (ps & s & ext & [[Om So Li Ca] C] & Hg & He). splits.
  - intros m im Eh. destruct (lookup_lt_is_Some_2 ps m) as [n En]; [rewrite <- (Forall2_length _ _ _ (mo_heap _ _ Om)); by eapply lookup_lt_Some|].
    destruct (heap_at _ _ _ _ (mo_heap _ _ Om) En) as (im' & Eh' & [_ _ _ Rk]). rewrite Eh in Eh'. injection Eh' as <-. split.
    + destruct (checkpoint im); [split; [intros _; apply Rk|eauto]|rewrite Rk; split; [by intros []|lia]].
    + assert (checkpoint_refcount im = owned tl m + ext m) as -> by (eapply (co_users _ _ _ C); unfold refs; by rewrite list_lookup_fmap, Eh).
      specialize (Hg m). split; [lia|]. intros E. by rewrite (He E m).
  - intros k. rewrite (co_keys _ _ _ C). by apply count_checkpoints, Om.
  - apply C.
Qed.

(** C19: The number of automatic checkpoints is logarithmic in the length of the
    execution: while progress stays below [most], taking another checkpoint succeeds and
    leaves at most [1 + checkpoint_bound most] of them. *)
Theorem automatic_checkpoints_logarithmic fuel strategy ps tl s ext most : (last_pos < fuel)%nat -> good ps tl s ext -> progress_of (statistics s) <= most ->
  Z.of_nat (List.length (reverse_exec_checkpoints tl)) <= 1 + checkpoint_bound most ->
  exists tl' s' ps' ext', maybe_add_reverse_exec_checkpoint fuel strategy tl = Ok tl' /\ good ps' tl' s' ext' /\ pos s' = pos s /\ (forall m, ext m <= ext' m) /\
    Z.of_nat (List.length (reverse_exec_checkpoints tl')) <= 1 + checkpoint_bound most.
Proof.
  intros Hf G Hp L. destruct (maybe_add_good fuel ps tl s ext strategy G Hf) as (tl' & s' & ps' & ext' & E & G' & P & Ev & L'). exists tl', s', ps', ext'.
  pose proof (bound_mono _ _ Hp). splits; try done; [apply Ev|]. lia.
Qed.

(** C34: A lazy reverse singlestep, which moves no session, gives a mark exactly when it is
    safe to: an interval without watchpoint hits is known, and there is a mark of the state
    one instruction before, with the same key, from which a singlestep without a signal has
    been seen; this mark is in the interval, and the debugger has no breakpoint where it
    comes from.  It gives that mark, and never fails.  The marks are those of a timeline as
    the requests leave it ([good]). *)
Theorem lazy_singlestep_one_before ps tl s ext m n t tn : good ps tl s ext -> ps !! m = Some n -> task_at n = Some tn ->
  (no_watchpoints_hit_interval_start tl = None \/ no_watchpoints_hit_interval_end tl = None -> lazy_reverse_singlestep m t tl = Ok None) /\
  (forall a b na nb, no_watchpoints_hit_interval_start tl = Some a -> no_watchpoints_hit_interval_end tl = Some b -> ps !! a = Some na -> ps !! b = Some nb ->
     exists o, lazy_reverse_singlestep m t tl = Ok o /\
       forall m', o = Some m' <-> step_before ps tl n m' /\ (na < n <= nb)%nat /\ has_breakpoint_at_address t (ip (regs tn)) tl = false).
Proof.
  intros G Em Et. pose proof (i_marks _ _ _ (g_inv _ _ _ _ G)) as Om. unfold lazy_reverse_singlestep. split; [by intros [-> | ->]; [|destruct (no_watchpoints_hit_interval_start tl)]|].
  intros a b na nb -> -> Ea Eb. destruct (find_singlestep_before_ok ps tl m n Om Em) as (o & -> & Ho). cbn [mbind res_bind].
  destruct o as [p|]; [|exists None; split; [done|]; intros m'; split; [done|]; intros [S' _]; by apply Ho in S'].
  pose proof (proj1 (Ho p) eq_refl) as (np & ip & Ep & En & _). unfold mark_ge, mark_lt. rewrite !(mark_cmp_ok ps tl p _ np _ Om Ep) by done. cbn [mbind res_bind].
  destruct (heap_at _ _ _ _ (mo_heap _ _ Om) Em) as (im & Eh & [_ (tn' & Etn & Epr) _ _]). rewrite Et in Etn. injection Etn as <-.
  assert (p_regs (proto im) = regs tn) as Er by (by rewrite Epr). unfold get_mark. rewrite Eh.
  assert (forall c : bool, (forall m', (if c then Some p else None) = Some m' <-> step_before ps tl n m' /\ c = true)) as Done.
  { intros c m'. destruct c; [|split; [done|by intros [_ ?]]]. split; [intros E; split; [by apply Ho|done]|]. intros [S' _]. by apply Ho. }
  destruct (Nat.compare_spec np na), (Nat.compare_spec np nb); cbn [mbind res_bind unwrap andb]; rewrite ?Er; destruct (has_breakpoint_at_address t _ tl) eqn:Eb'; cbn [negb andb];
    eexists; (split; [done|]); intros m'; rewrite ?(Done false), ?(Done true); split; intros H'; decompose [and] H'; try done; splits; try done; lia.
Qed.

(** C40: When two or more watchpoints were hit and the condition of none of them holds,
    dropping them from the result panics: each removal moves the later ones, but the
    indices were taken before. *)
Theorem failing_conditions_panic result tl s t : current tl = Some s -> upgrade (bs_task (break_status result)) s = Some t ->
  (1 < List.length (watchpoints_hit (break_status result)))%nat ->
  (forall w, w ∈ watchpoints_hit (break_status result) -> condition_holds (watchpoints tl !! mkWp (vm_uid t) (w_addr w) (w_num_bytes w) (w_type w)) t s = false) ->
  evaluate_conditions result tl = Panic.
Proof.
  intros Ec Eu L Hw. unfold evaluate_conditions, current_session. rewrite Ec. cbn [unwrap mbind res_bind]. rewrite Eu. set (b := if _ && _ then _ else _).
  assert (watchpoints_hit b = watchpoints_hit (break_status result)) as Eb by (subst b; by destruct (_ && _)). rewrite Eb, to_remove_all by done.
  destruct (watchpoints_hit (break_status result)) as [|w [|w' ws]]; cbn in L; try lia. change (seq 0 (List.length (w :: w' :: ws))) with (0%nat :: seq 1 (S (List.length ws))).
  cbn [for_each vec_remove Nat.ltb Nat.leb List.length mbind res_bind]. change (delete 0%nat (w :: w' :: ws)) with (w' :: ws). by rewrite (remove_ascending 1 (List.length ws)) by (done || lia).
Qed.

End Theorems.
End TimelineTheorems.
