(* ===== verification/TimelineExamples.v ===== *)
(** A recording of one task with two events, replayed by a session that stops after each
    instruction: it keeps the laws of replay, so the theorems on the timeline apply to it. *)

From S2P Require Import Prelude Timeline TimelineRun TimelineSpec TimelineMarks TimelineCheckpoints TimelineAutomatic TimelineSeek TimelineTowards TimelineForward TimelineBackward TimelineSearch TimelineRequests TimelineTheorems.

Module TimelineExamples.

Import TimelineTheorems.

(** ** The machine and the recording *)

#[local] Instance ex_machine : Machine := {|
  Registers := Z; default_regs := 0; ip := fun r => r; matches := Z.eqb; ExtraRegisters := unit; default_extra_regs := tt |}.

Definition ex_space : AddressSpaceUid := (1, 1, 1).
Definition ex_uid : TaskUid := (1, 1).

(** The event, the ticks, the step and the instruction of a state. *)
Record Row := mkRow { r_time : Z; r_tick : Z; r_step : ReplayTraceStepType; r_ip : Z }.

Definition ex_rows : list Row :=
  [mkRow 1 1 TstepNone 10; mkRow 1 1 TstepRetire 20; mkRow 1 2 TstepRetire 30; mkRow 1 2 TstepRetire 20; mkRow 1 3 TstepRetire 30;
   mkRow 2 3 TstepNone 40; mkRow 2 3 TstepRetire 20; mkRow 2 4 TstepRetire 30; mkRow 2 4 TstepRetire 20].

Definition row (n : nat) : Row := nth n ex_rows (mkRow 3 4 TstepNone 0).
Definition ex_last : nat := 9.
Definition ex_frame_ticks (n : nat) : Z := if r_time (row n) =? 1 then 3 else 4.
Definition ex_start_ticks (n : nat) : Z := if r_time (row n) =? 1 then 1 else 3.
Definition ex_task (n : nat) : Task := mkTask ex_machine ex_uid ex_space (r_tick (row n)) (r_ip (row n)) tt [] false (fun _ => true).

(** ** The session *)

Record ExSession := mkEx { ex_at : nat; ex_breakpoints : list TimelineBreakpoint; ex_watched : bool }.

Definition ex_pos (s : ExSession) : nat := Nat.min (ex_at s) ex_last.

Definition ex_placed (s : ExSession) (b : TimelineBreakpoint) : nat :=
  if bool_decide (bp_uid b = ex_space) then List.length (List.filter (fun b' => bool_decide (b' = b)) (ex_breakpoints s)) else O.

Definition ex_traps (n : nat) : bool := in_execution (r_step (row n)).

Definition ex_trapped (s : ExSession) : bool := ex_traps (ex_pos s) && (0 <? ex_placed s (mkBp ex_space (r_ip (row (ex_pos s)))))%nat.

(** A step with a target of ticks stays where the next instruction would go beyond it. *)
Definition ex_stays (c : StepConstraints) (p : nat) : bool :=
  bool_decide (command c = RunContinue) && (0 <? ticks_target c) && (ticks_target c <? ex_frame_ticks p) && (r_tick (row p) <=? ticks_target c) &&
  negb ((r_time (row (S p)) =? r_time (row p)) && (r_tick (row (S p)) <=? ticks_target c)).

Definition ex_step (c : StepConstraints) (s : ExSession) : res (ReplayResult * ExSession) :=
  let status hit single approaching := mkResult ReplayContinue (mkBreakStatus (Some ex_uid) [] None hit single approaching false) false false in
  if ex_trapped s then Ok (status true false false, s) else
  if ex_stays c (ex_pos s) then Ok (status false false true, s) else
  Ok (status false (negb (bool_decide (command c = RunContinue))) false, mkEx (S (ex_pos s)) (ex_breakpoints s) (ex_watched s)).

Fixpoint remove_first (b : TimelineBreakpoint) (l : list TimelineBreakpoint) : list TimelineBreakpoint :=
  match l with [] => [] | x :: l => if bool_decide (x = b) then l else x :: remove_first b l end.

Definition ex_find (u : TaskUid) (n : nat) : option Task := if bool_decide (u = ex_uid) then Some (ex_task n) else None.

#[local] Instance ex_sessions : Sessions := {|
  Session := ExSession;
  create := fun _ => Ok (mkEx 0 [] false);
  replay_step_with_constraints := ex_step;
  session_time := fun s => r_time (row (ex_pos s));
  current_trace_frame_ticks := fun s => ex_frame_ticks (ex_pos s);
  current_step_key := fun s => r_step (row (ex_pos s));
  ticks_at_start_of_current_event := fun s => ex_start_ticks (ex_pos s);
  current_task := fun s => Some (ex_task (ex_pos s));
  find_task_from_task_uid := fun u s => ex_find u (ex_pos s);
  can_clone := fun _ => true;
  done_initial_exec := fun _ => true;
  set_visible_execution := fun _ s => s;
  statistics := fun s => mkStatistics 0 (r_tick (row (ex_pos s))) 0;
  find_address_space := fun u _ => bool_decide (u = ex_space);
  vm_add_breakpoint := fun u a s => Ok (true, mkEx (ex_at s) (mkBp u a :: ex_breakpoints s) (ex_watched s));
  vm_remove_breakpoint := fun u a s => Ok (mkEx (ex_at s) (remove_first (mkBp u a) (ex_breakpoints s)) (ex_watched s));
  vm_add_watchpoint := fun _ _ _ _ s => Ok (true, mkEx (ex_at s) (ex_breakpoints s) true);
  vm_remove_watchpoint := fun _ _ _ _ s => Ok s;
  BreakpointCondition := Z;
  evaluate := fun c t _ => tick_count t <=? c |}.

#[local] Instance ex_execution : Execution := {|
  pos := ex_pos; last_pos := ex_last; time_at n := r_time (row n); step_at n := r_step (row n); task_at n := Some (ex_task n); find_at := ex_find;
  start_ticks_at := ex_start_ticks; frame_ticks_at := ex_frame_ticks; space_at u _ := bool_decide (u = ex_space);
  evaluate_at c t _ := tick_count t <=? c; traps := ex_traps; signals _ := false; placeable _ _ := true; placed := ex_placed; watched := ex_watched |}.

(** ** The laws of replay *)

#[local] Arguments row : simpl never.
#[local] Arguments ex_last : simpl never.
#[local] Arguments ex_pos : simpl never.
#[local] Arguments ex_placed : simpl never.
#[local] Arguments ex_frame_ticks : simpl never.
#[local] Arguments ex_traps : simpl never.

Lemma below (P : nat -> bool) : forallb P (seq 0 ex_last) = true -> forall n, (n < ex_last)%nat -> P n = true.
Proof. intros F n L. rewrite forallb_forall in F. apply F, in_seq. lia. Qed.

Lemma below2 (P : nat -> nat -> bool) : forallb (fun p => forallb (P p) (seq 0 ex_last)) (seq 0 ex_last) = true ->
  forall p q, (p < ex_last)%nat -> (q < ex_last)%nat -> P p q = true.
Proof. intros F p q Lp Lq. apply (below (P p)); [|done]. by apply (below (fun p => forallb (P p) (seq 0 ex_last))). Qed.

Lemma ex_key_mono p q : (p <= q < ex_last)%nat -> key_le (key_at p) (key_at q) = true.
Proof.
  intros L. pose proof (below2 (fun p q => negb (p <=? q)%nat || key_le (key_at p) (key_at q)) eq_refl p q ltac:(lia) ltac:(lia)) as E.
  cbv beta in E. rewrite (proj2 (Nat.leb_le p q)) in E by lia. exact E.
Qed.

Lemma ex_unique p q : (p < ex_last)%nat -> (q < ex_last)%nat -> key_at p = key_at q -> r_ip (row p) = r_ip (row q) -> p = q.
Proof.
  intros Lp Lq Ek Ei. pose proof (below2 (fun p q => negb (bool_decide (key_at p = key_at q) && (r_ip (row p) =? r_ip (row q))) || (p =? q)%nat) eq_refl p q Lp Lq) as E.
  cbv beta in E. rewrite (bool_decide_true _ Ek), (proj2 (Z.eqb_eq _ _) Ei) in E. by apply Nat.eqb_eq in E.
Qed.

Lemma ex_pos_le s : (ex_pos s <= ex_last)%nat.
Proof. unfold ex_pos. lia. Qed.

Lemma ex_has_bp s n : has_bp s n <-> (0 < ex_placed s (mkBp ex_space (r_ip (row n))))%nat.
Proof. split; [intros (b & [= <-] & Hb); exact Hb|]. intros Hb. by exists (mkBp ex_space (r_ip (row n))). Qed.

Lemma ex_trapped_iff (s : ExSession) : trapped s (ex_pos s) <-> ex_trapped s = true.
Proof. unfold trapped, ex_trapped. rewrite ex_has_bp, andb_true_iff, Nat.ltb_lt. done. Qed.

Lemma ex_placed_here s s' b : ex_breakpoints s' = ex_breakpoints s -> ex_placed s' b = if bool_decide (bp_uid b = ex_space) then ex_placed s b else O.
Proof. intros E. unfold ex_placed. rewrite E. by destruct (bool_decide _). Qed.

(** The table. *)
Lemma ex_table n : (n < ex_last)%nat ->
  (r_step (row n) = TstepNone -> r_time (row (S n)) = r_time (row n) /\ r_tick (row (S n)) = r_tick (row n) /\ (S n < ex_last)%nat) /\
  (if r_time (row (S n)) =? r_time (row n) then r_tick (row (S n)) <= r_tick (row n) + 1 else ex_frame_ticks n <= r_tick (row n) + 1) /\
  (r_time (row (S n)) = r_time (row n) -> (S n < ex_last)%nat).
Proof.
  intros L. unfold ex_last in L. do 9 (destruct n as [|n]; [cbv; splits; intros; try discriminate; splits; lia|]). lia.
Qed.

Lemma ex_after p n t : (p < ex_last)%nat -> (n < ex_last)%nat -> r_time (row p) < t -> t <= r_time (row n) -> (S p <= n)%nat.
Proof.
  intros Lp Ln H1 H2. destruct (decide (S p <= n)%nat) as [|N]; [done|]. pose proof (ex_key_mono n p ltac:(lia)) as M. cbv [key_le key_lt key_at trace_time ticks step_key time_at ex_execution] in M. lia.
Qed.

Definition ex_result (hit single approaching : bool) : ReplayResult :=
  mkResult ReplayContinue (mkBreakStatus (Some ex_uid) [] None hit single approaching false) false false.

Lemma ex_task_there hit single approaching (s : ExSession) : upgrade (bs_task (break_status (ex_result hit single approaching))) s = Some (ex_task (ex_pos s)).
Proof. done. Qed.

(** The three kinds of steps of the session. *)
Lemma ex_hit_stepped c s : (ex_pos s < ex_last)%nat -> ex_trapped s = true -> stepped c s (ex_result true false false) s.
Proof.
  intros L Et%ex_trapped_iff. pose proof Et as [Tr _]. split; cbn [status break_status ex_result breakpoint_hit approaching_ticks_target did_fast_forward]; try done.
  - cbn. lia.
  - intros E. cbn in E, Tr. unfold ex_traps in Tr. by rewrite E in Tr.
  - cbn. intros; lia.
  - cbn. intros H1 n H2 H3. pose proof (ex_after _ n _ L H3 H1 H2). lia.
  - cbn. intros; lia.
  - cbn. intros; lia.
  - cbn. rewrite Z.eqb_refl. lia.
  - by intros [].
  - intros b. by apply ex_placed_here.
Qed.

Lemma ex_stay_stepped c s : (ex_pos s < ex_last)%nat -> ex_trapped s = false -> ex_stays c (ex_pos s) = true -> stepped c s (ex_result false false true) s.
Proof.
  intros L Et Es. pose proof (ex_table (ex_pos s) L) as (T1 & _ & _). assert (~ trapped s (ex_pos s)) as Nt by (rewrite ex_trapped_iff; by rewrite Et).
  unfold ex_stays in Es. apply andb_true_iff in Es as [Es Ng]. apply andb_true_iff in Es as [Es Lt]. apply andb_true_iff in Es as [Es _]. apply andb_true_iff in Es as [Ec Ep].
  apply bool_decide_eq_true in Ec. apply Z.ltb_lt in Ep. split; cbn [status break_status ex_result breakpoint_hit approaching_ticks_target did_fast_forward]; try done; try (rewrite Ec; done).
  - cbn. lia.
  - cbn. intros E. destruct (T1 E) as (E1 & E2 & _). rewrite E1, E2, Z.eqb_refl, Lt in Ng. done.
  - cbn. intros; lia.
  - intros _. by right.
  - cbn. intros H1 n H2 H3. pose proof (ex_after _ n _ L H3 H1 H2). lia.
  - by intros [].
  - intros b. by apply ex_placed_here.
Qed.

Lemma ex_move_stepped c s : (ex_pos s < ex_last)%nat -> ex_trapped s = false -> ex_stays c (ex_pos s) = false ->
  stepped c s (ex_result false (negb (bool_decide (command c = RunContinue))) false) (mkEx (S (ex_pos s)) (ex_breakpoints s) (ex_watched s)).
Proof.
  intros L Et Es. pose proof (ex_table (ex_pos s) L) as (T1 & T2 & T3). assert (~ trapped s (ex_pos s)) as Nt by (rewrite ex_trapped_iff; by rewrite Et).
  set (s' := mkEx _ _ _). assert (pos s' = S (ex_pos s)) as P by (change (Nat.min (S (ex_pos s)) ex_last = S (ex_pos s)); lia).
  split; rewrite ?P; cbn [status break_status ex_result breakpoint_hit approaching_ticks_target did_fast_forward singlestep_complete]; try done.
  - cbn. lia.
  - cbn. intros; lia.
  - intros _. left. cbn. lia.
  - cbn. intros H1 n H2 H3. by apply (ex_after _ n _ L H3 H1 H2).
  - cbn. intros Ec H1 H2. unfold ex_stays in Es. rewrite bool_decide_true in Es by done. split; [apply T3|]; lia.
  - cbn. intros; lia.
  - intros Ec. rewrite bool_decide_false by (by rewrite Ec). done.
  - by intros [].
  - intros b. by apply ex_placed_here.
Qed.

Lemma ex_step_ok c s : (ex_pos s < ex_last)%nat -> exists r s', ex_step c s = Ok (r, s') /\ stepped c s r s'.
Proof.
  intros L. unfold ex_step. destruct (ex_trapped s) eqn:Et; [|destruct (ex_stays c (ex_pos s)) eqn:Es]; eexists _, _; (split; [done|]).
  - by apply ex_hit_stepped.
  - by apply ex_stay_stepped.
  - by apply ex_move_stepped.
Qed.

Lemma ex_row_bounds n : 0 <= r_time (row n) < 2 ^ 62 /\ 0 <= r_tick (row n) < 2 ^ 62 /\ 0 <= ex_frame_ticks n < 2 ^ 62.
Proof. do 9 (destruct n as [|n]; [cbv; splits; done|]). unfold ex_frame_ticks, row. destruct n; cbn; lia. Qed.

Lemma ex_events p q : (p < ex_last)%nat -> (q < ex_last)%nat -> r_time (row p) = r_time (row q) ->
  (r_step (row p) = TstepNone -> (p <= q)%nat) /\ r_tick (row q) <= ex_frame_ticks p /\ ex_frame_ticks p = ex_frame_ticks q.
Proof.
  intros Lp Lq E. pose proof (below2 (fun p q => negb (r_time (row p) =? r_time (row q)) ||
    ((in_execution (r_step (row p)) || (p <=? q)%nat) && (r_tick (row q) <=? ex_frame_ticks p) && (ex_frame_ticks p =? ex_frame_ticks q))) eq_refl p q Lp Lq) as B.
  cbv beta in B. rewrite (proj2 (Z.eqb_eq _ _) E) in B. cbn [negb orb] in B. apply andb_true_iff in B as [[B1 B2]%andb_true_iff B3]. splits; [|lia..].
  intros Es. rewrite Es in B1. by apply Nat.leb_le.
Qed.

Lemma ex_starts p q : (p < ex_last)%nat -> (q < ex_last)%nat -> r_time (row p) = r_time (row q) ->
  (forall n, (n < ex_last)%nat -> r_time (row n) = r_time (row p) -> (p <= n)%nat) -> ex_start_ticks q = r_tick (row p).
Proof.
  intros Lp Lq E M. pose proof (below2 (fun p q => negb (r_time (row p) =? r_time (row q)) || in_execution (r_step (row p)) || (ex_start_ticks q =? r_tick (row p))) eq_refl p q Lp Lq) as B.
  cbv beta in B. rewrite (proj2 (Z.eqb_eq _ _) E) in B. cbn [negb orb] in B. apply orb_true_iff in B as [B|B]; [|by apply Z.eqb_eq].
  destruct p as [|p]; [done|]. pose proof (below (fun n => match n with O => true | S m => negb (in_execution (r_step (row n))) || (r_time (row m) =? r_time (row n)) end) eq_refl (S p) Lp) as F.
  cbv beta iota in F. rewrite B in F. apply Z.eqb_eq in F. pose proof (M p ltac:(lia) F). lia.
Qed.

Lemma count_remove_first b b' l : List.length (List.filter (fun x => bool_decide (x = b')) (remove_first b l)) =
  (List.length (List.filter (fun x => bool_decide (x = b')) l) - Nat.b2n (bool_decide (b' = b)))%nat.
Proof.
  induction l as [|x l IH]; [by destruct (bool_decide (b' = b))|]. cbn. destruct (decide (x = b)) as [->|N].
  - rewrite (bool_decide_true (b = b)) by done. destruct (decide (b' = b)) as [->|N']; [rewrite !bool_decide_true by done; cbn; lia|]. rewrite !bool_decide_false by done. cbn. lia.
  - rewrite (bool_decide_false (x = b)) by done. cbn. destruct (decide (x = b')) as [->|N']; [|by rewrite !(bool_decide_false (x = b')) by done].
    rewrite !(bool_decide_true (b' = b')) by done. cbn. rewrite IH, bool_decide_false by done. cbn. lia.
Qed.

Lemma ex_ticks n : r_tick (row n) = 1 \/ r_tick (row n) = 2 \/ r_tick (row n) = 3 \/ r_tick (row n) = 4.
Proof. do 9 (destruct n as [|n]; [cbv; lia|]). unfold row. destruct n; cbn; lia. Qed.

#[local] Instance ex_laws : ReplayLaws.
Proof.
  split; try done.
  - apply ex_pos_le.
  - apply ex_key_mono.
  - intros p L E. pose proof (below (fun p => negb (r_time (row p) =? 3)) eq_refl p L) as B. injection E as E _ _. cbv beta in B. cbn in E. rewrite E in B. done.
  - intros p q tp tq Lp Lq Ek [= <-] [= <-] Er _. apply ex_unique; try done. unfold equal_regs in Er. cbn in Er. lia.
  - intros r. apply Z.eqb_refl.
  - by intros p q tp tq _ _ _ [= <-] [= <-].
  - by intros p t [= <-].
  - by intros p t [= <-].
  - by intros p q tp tq _ _ _ [= <-] [= <-].
  - by intros p tp tq _ _ [= <-] [= <-]; left.
  - intros p q Lp Lq Es E. by apply (ex_events p q).
  - intros p q Lp Lq E. by apply (ex_events p q).
  - intros p L. pose proof (below (fun n => r_time (row (S n)) <=? r_time (row n) + 1) eq_refl p ltac:(cbn in L; lia)) as B. by apply Z.leb_le in B.
  - intros p q Lp Lq E. by apply (ex_events p q).
  - intros p q Lp Lq E M. by apply ex_starts.
  - intros p. apply ex_row_bounds.
  - intros s. eexists. splits; [done|done| |done]. intros b. cbn. unfold ex_placed. by destruct (bool_decide _).
  - intros c s L. by apply ex_step_ok.
  - intros s b Hb. cbn in *. unfold ex_placed in Hb. destruct (bool_decide _); [done|lia].
  - intros s u a Sp. eexists true, _. splits; [done| |done]. split; [done..|]. intros b. cbn. unfold ex_placed. cbn [ex_breakpoints List.filter bp_uid].
    cbn in Sp. rewrite Sp. destruct (decide (b = mkBp u a)) as [->|N]; [rewrite !(bool_decide_true (mkBp u a = mkBp u a)) by done; cbn [bp_uid]; by rewrite Sp|].
    rewrite (bool_decide_false (b = mkBp u a)), (bool_decide_false (mkBp u a = b)) by congruence. done.
  - intros s u a Sp. eexists. split; [done|]. split; [done..|]. intros b. cbn. unfold ex_placed. cbn [ex_breakpoints bp_uid]. cbn in Sp. rewrite Sp, count_remove_first.
    destruct (decide (b = mkBp u a)) as [->|N]; [rewrite !(bool_decide_true (mkBp u a = mkBp u a)) by done; cbn [bp_uid]; rewrite Sp; cbn; lia|]. rewrite !(bool_decide_false (b = mkBp u a)) by done. cbn. by rewrite Nat.sub_0_r.
  - intros s. cbn. pose proof (ex_row_bounds (ex_pos s)). lia.
  - intros s. cbn [statistics ex_sessions]. destruct (ex_ticks (ex_pos s)) as [-> | [-> | [-> | ->]]]; by vm_compute.
Qed.

#[local] Instance ex_alone : ExecAlone.
Proof. by intros p tp tq _ _ [= <-] [= <-]. Qed.

(** ** A debugging session *)

Definition ex_fuel : nat := 121.

(** A checkpoint at the first instruction. *)
Definition ex_start : ReplayTimeline := timeline_new (mkEx 1 [] false).
Definition ex_checkpointed : ReplayTimeline := match add_explicit_checkpoint ex_fuel ex_start with Ok (_, tl) => tl | _ => ex_start end.

(** A breakpoint that is hit in the states 1, 3, 6 and 8, with a condition that holds in 1
    and 3, and the session in state 8. *)
Definition ex_bps : gmap TimelineBreakpoint (option BreakpointCondition) := {[mkBp ex_space 20 := Some 2]}.
Definition ex_stopped : ReplayTimeline := set_current (Some (mkEx 8 [] false)) (set_breakpoints ex_bps ex_checkpointed).

Example ex_reverse_continue : (tl ← (x ← reverse_continue ex_fuel 1 (fun _ => true) (fun _ => false) ex_stopped; Ok x.2); s ← current_session tl; Ok (ex_pos s)) = Ok 3%nat.
Proof. by vm_compute. Qed.

Lemma ex_start_good : good [] ex_start (mkEx 1 [] false) (fun _ => 0).
Proof. apply new_good; [cbv; lia| |done]. intros b. cbn. unfold ex_placed. by destruct (bool_decide _). Qed.

Lemma ex_checkpointed_good : exists ps, good ps ex_checkpointed (mkEx 1 [] false) (bump 0 1 (fun _ => 0)) /\ ps !! 0%nat = Some 1%nat.
Proof.
  destruct (add_explicit_checkpoint_good ex_fuel [] ex_start (mkEx 1 [] false) (fun _ => 0) ex_start_good) as (m & tl' & s' & ps' & E & G & P & Em & _); [cbv; lia|done|].
  assert (m = O /\ tl' = ex_checkpointed) as [-> ->].
  { split; [|unfold ex_checkpointed; by rewrite E]. assert ((x ← add_explicit_checkpoint ex_fuel ex_start; Ok x.1) = Ok O) as E0 by (by vm_compute). rewrite E in E0. by injection E0. }
  assert (Some s' = Some (mkEx 1 [] false)) as [= ->]; [|by exists ps'].
  rewrite <- (so_current _ _ (i_session _ _ _ (g_inv _ _ _ _ G))). by vm_compute.
Qed.

Lemma ex_no_breakpoints n b : ex_placed (mkEx n [] false) b = O.
Proof. unfold ex_placed. by destruct (bool_decide _). Qed.

Lemma ex_stopped_good : exists ps, good ps ex_stopped (mkEx 8 [] false) (bump 0 1 (fun _ => 0)) /\ ps !! 0%nat = Some 1%nat.
Proof.
  destruct ex_checkpointed_good as (ps & G & E). exists ps. split; [|done]. unfold ex_stopped. eapply carried_good with (s := mkEx 1 [] false); [|split; [cbv; lia|done|]|cbv; lia].
  - eapply (resettle_good ps ex_checkpointed (mkEx 1 [] false)); try done. destruct (i_session _ _ _ (g_inv _ _ _ _ G)) as [? ? ? Hoff _]. split; try done.
    intros b. cbn. rewrite ex_no_breakpoints. split; lia.
  - intros b. cbn. rewrite !ex_no_breakpoints. by destruct (bool_decide _).
Qed.

Lemma ex_quiet : quiet ex_bps 0 (key_at 1) 8.
Proof.
  assert (forall n, (n <= 8)%nat -> r_time (row n) <> 0 /\ 0 < r_tick (row n)) as Rows by (intros n L; do 9 (destruct n as [|n]; [by cbv|]); lia). split; try done; [cbv; lia| | |].
  - intros n b _ _ [c Hb]. unfold ex_bps in Hb. apply lookup_singleton_Some in Hb as [<- _]. by vm_compute.
  - intros n L _. by apply Rows.
  - intros n L _. by apply Rows.
Qed.

Lemma ex_stops : stops (fun _ => true) ex_bps 3.
Proof. split; [done|]. exists (ex_task 3), (Some 2). splits; by vm_compute. Qed.

(** The debugger continues backward from state 8. *)
Lemma reverse_continue_finds_last_stop_witness : exists r tl' s', reverse_continue ex_fuel 1 (fun _ => true) (fun _ => false) ex_stopped = Ok (r, tl') /\ current tl' = Some s' /\
  stops (fun _ => true) ex_bps (ex_pos s') /\ (ex_pos s' < 8)%nat /\ (forall n, (ex_pos s' < n < 8)%nat -> ~ stops (fun _ => true) ex_bps n) /\ breakpoint_hit (break_status r) = true.
Proof.
  destruct ex_stopped_good as (ps & G & E).
  destruct (reverse_continue_finds_last_stop ex_fuel 0 (fun _ => true) (fun _ => false) ps ex_stopped (mkEx 8 [] false) (bump 0 1 (fun _ => 0)) 0%nat 1%nat 3%nat)
    as (r & tl' & s' & ps' & ext' & Er & G' & St & L & N & _ & Bh & _).
  - exact G.
  - exact E.
  - by vm_compute.
  - exact ex_quiet.
  - by vm_compute.
  - intros A. assert (breakpoints_applied ex_stopped = false) as B by (by vm_compute). congruence.
  - done.
  - apply Nat.leb_le. by vm_compute.
  - exact ex_stops.
  - apply Nat.ltb_lt. by vm_compute.
  - by vm_compute.
  - exists r, tl', s'. splits; [exact Er|exact (so_current _ _ (i_session _ _ _ (g_inv _ _ _ _ G')))|exact St|exact L|exact N|exact Bh].
Defined.

Lemma ex_reached : reached ex_fuel true ex_checkpointed (bump 0 1 (fun _ => 0)).
Proof.
  apply (reached_add ex_fuel true ex_start (fun _ => 0) 0%nat); [apply reached_new; [cbv; lia|apply ex_no_breakpoints|done]|].
  assert ((x ← add_explicit_checkpoint ex_fuel ex_start; Ok x.1) = Ok O) as E0 by (by vm_compute).
  unfold ex_checkpointed. destruct (add_explicit_checkpoint ex_fuel ex_start) as [[m tl]| | |]; [|discriminate..].
  f_equal. f_equal. by injection E0.
Qed.

(** The debugger runs forward, six states, ... *)
Definition ex_forward (tl : ReplayTimeline) : ReplayTimeline := match replay_step_forward ex_fuel RunContinue 0 tl with Ok (_, tl) => tl | _ => tl end.
Definition ex_at_state (n : nat) (tl : ReplayTimeline) : Prop := (s ← current_session tl; Ok (ex_pos s)) = Ok n.

Lemma ex_step_near c s r s' : ex_step c s = Ok (r, s') -> (ex_pos s' <= S (ex_pos s))%nat.
Proof. unfold ex_step. destruct (ex_trapped s), (ex_stays c (ex_pos s)); intros [= <- <-]; try lia. exact (Nat.le_min_l (S (ex_pos s)) ex_last). Qed.

Lemma ex_ends tl held n c time : reached ex_fuel true tl held -> ex_at_state n tl -> (S (S n) < ex_last)%nat -> ends_before_last c time tl.
Proof.
  intros R A L tl1 s1 r s2 E Ec Es. destruct (reached_served ex_fuel true tl held ltac:(apply Nat.ltb_lt; by vm_compute) R) as (ps & s & ext & G & _).
  destruct (apply_good ps tl s ext G) as (s' & E' & _ & P). rewrite E in E'. injection E' as ->. injection Ec as <-. apply ex_step_near in Es.
  unfold ex_at_state, current_session in A. rewrite (so_current _ _ (i_session _ _ _ (g_inv _ _ _ _ G))) in A. injection A as A. cbn in *. lia.
Qed.

Lemma ex_forward_reached tl held n : reached ex_fuel true tl held -> ex_at_state n tl -> (S (S n) < ex_last)%nat -> reached ex_fuel true (ex_forward tl) held.
Proof.
  intros R A L. pose proof (ex_ends tl held n RunContinue 0 R A L) as He. destruct (reached_served ex_fuel true tl held ltac:(apply Nat.ltb_lt; by vm_compute) R) as (ps & s & ext & G & _).
  destruct (replay_step_forward_good ex_fuel ps tl s ext RunContinue 0 G) as (r & tl' & s' & ps' & ext' & E & _); [apply Nat.ltb_lt; by vm_compute|done|done|].
  unfold ex_forward. rewrite E. by eapply (reached_forward ex_fuel true tl held RunContinue 0).
Qed.

Definition ex_ran : ReplayTimeline := Nat.iter 6 ex_forward ex_checkpointed.

Lemma ex_ran_reached : reached ex_fuel true ex_ran (bump 0 1 (fun _ => 0)).
Proof.
  unfold ex_ran. cbn [Nat.iter nat_rect].
  apply (ex_forward_reached _ _ 6%nat); [|by vm_compute|cbv; lia]. apply (ex_forward_reached _ _ 5%nat); [|by vm_compute|cbv; lia]. apply (ex_forward_reached _ _ 4%nat); [|by vm_compute|cbv; lia].
  apply (ex_forward_reached _ _ 3%nat); [|by vm_compute|cbv; lia]. apply (ex_forward_reached _ _ 2%nat); [|by vm_compute|cbv; lia]. apply (ex_forward_reached _ _ 1%nat); [exact ex_reached|by vm_compute|cbv; lia].
Qed.

(** ... sets the breakpoint, and continues backward to state 3. *)
Definition ex_condition : option BreakpointCondition := Some 2.
Definition ex_armed : ReplayTimeline := match add_breakpoint (ex_task 1) 20 ex_condition ex_ran with Ok (_, tl) => tl | _ => ex_ran end.
Definition ex_back : ReplayTimeline := match reverse_continue ex_fuel 1 (fun _ => true) (fun _ => false) ex_armed with Ok (_, tl) => tl | _ => ex_armed end.

Lemma ex_armed_reached : reached ex_fuel true ex_armed (bump 0 1 (fun _ => 0)).
Proof.
  unfold ex_armed. destruct (add_breakpoint (ex_task 1) 20 ex_condition ex_ran) as [[ok tl]| | |] eqn:E; try exact ex_ran_reached.
  destruct (current ex_ran) as [s|] eqn:Es; [|by vm_compute in Es]. by eapply (reached_add_breakpoint ex_fuel true ex_ran _ s); [exact ex_ran_reached|done| |exact E].
Qed.

Lemma ex_armed_session : current ex_armed = Some (mkEx 7 [mkBp ex_space 20] false).
Proof. by vm_compute. Qed.

Lemma ex_armed_breakpoints : breakpoints ex_armed = ex_bps.
Proof. by vm_compute. Qed.

Lemma quiet_earlier bps barrier k last last' : quiet bps barrier k last -> (last' <= last)%nat -> quiet bps barrier k last'.
Proof. intros [Ql Qs Qg Qb Qt] L. split; [lia|..]; intros n *; eauto using Nat.le_trans. Qed.

Lemma ex_can_continue : can_continue ex_fuel (fun _ => true) (fun _ => false) ex_armed (bump 0 1 (fun _ => 0)) (mkEx 7 [mkBp ex_space 20] false) 0 (key_at 1) 3.
Proof.
  split; rewrite ?ex_armed_breakpoints.
  - exact ex_armed_session.
  - by vm_compute.
  - by vm_compute.
  - assert (reverse_execution_barrier_event ex_armed = 0) as -> by (by vm_compute). apply (quiet_earlier _ _ _ 8); [exact ex_quiet|]. cbv. lia.
  - by vm_compute.
  - intros _ b [c Hb]. unfold ex_bps in Hb. apply lookup_singleton_Some in Hb as [<- _]. by vm_compute.
  - done.
  - apply Nat.leb_le. by vm_compute.
  - exact ex_stops.
  - apply Nat.ltb_lt. by vm_compute.
  - by vm_compute.
Qed.

Lemma ex_back_reached : reached ex_fuel true ex_back (bump 0 1 (fun _ => 0)).
Proof.
  unfold ex_back. destruct (reverse_continue ex_fuel 1 (fun _ => true) (fun _ => false) ex_armed) as [[r tl]| | |] eqn:E; try exact ex_armed_reached.
  exact (reached_backward ex_fuel true _ _ _ _ _ _ 0 _ _ _ _ ex_armed_reached eq_refl ex_can_continue E).
Qed.

(** Then it goes back to its checkpoint, and can run forward. *)
Lemma requests_succeed_witness : ex_at_state 3 ex_back /\ (exists tl', seek_to_mark ex_fuel 0 ex_back = Ok tl' /\ at_mark 0 tl' = Ok true) /\
  exists r tl', replay_step_forward ex_fuel RunContinue 0 ex_back = Ok (r, tl').
Proof.
  assert (ex_at_state 3 ex_back) as A by (by vm_compute). split; [exact A|].
  destruct (requests_succeed ex_fuel true ex_back (bump 0 1 (fun _ => 0)) ltac:(apply Nat.ltb_lt; by vm_compute) ex_back_reached) as (_ & _ & _ & Sk & _ & _ & _ & Fw & _). split.
  - apply Sk. apply Nat.ltb_lt. by vm_compute.
  - apply Fw; [discriminate|]. apply (ex_ends _ _ 3%nat _ _ ex_back_reached A). cbv. lia.
Defined.

Lemma marks_follow_execution_witness : exists ps : list nat, List.length ps = List.length (heap ex_back) /\
  (forall m m' n n', ps !! m = Some n -> ps !! m' = Some n' -> mark_cmp m m' ex_back = Ok (n ?= n')%nat).
Proof.
  destruct (marks_follow_execution ex_fuel true ex_back (bump 0 1 (fun _ => 0)) ltac:(apply Nat.ltb_lt; by vm_compute) ex_back_reached) as (ps & L & _ & C & _).
  exists ps. split; [exact L|exact C].
Defined.

Lemma checkpoints_counted_witness : reverse_exec_checkpoints ex_back <> [] /\
  (forall k, default 0 (marks_with_checkpoints ex_back !! k) = Z.of_nat (checkpoints_with k (heap ex_back))).
Proof.
  split; [by vm_compute|]. apply (checkpoints_counted ex_fuel true ex_back (bump 0 1 (fun _ => 0)) ltac:(apply Nat.ltb_lt; by vm_compute) ex_back_reached).
Defined.

Lemma automatic_checkpoints_logarithmic_witness : exists tl', maybe_add_reverse_exec_checkpoint ex_fuel LowOverhead ex_start = Ok tl' /\
  Z.of_nat (List.length (reverse_exec_checkpoints tl')) <= 1 + checkpoint_bound 1000.
Proof.
  destruct (automatic_checkpoints_logarithmic ex_fuel LowOverhead [] ex_start (mkEx 1 [] false) (fun _ => 0) 1000) as (tl' & s' & ps' & ext' & E & _ & _ & _ & L).
  - apply Nat.ltb_lt. by vm_compute.
  - exact ex_start_good.
  - by vm_compute.
  - by vm_compute.
  - exists tl'. split; [exact E|exact L].
Defined.

(** State 3 is marked; in the state before it, which has the same key, a step of
    [reverse_singlestep] is noted, which ends the interval without watchpoint hits at the
    mark. *)
Definition ex_later : ReplayTimeline := match mark ex_fuel (timeline_new (mkEx 3 [] false)) with Ok (_, tl) => tl | _ => ex_start end.
Definition ex_two : ReplayTimeline := set_at_or_after None (set_applied false (set_current (Some (mkEx 2 [] false)) ex_later)).
Definition ex_noted : ReplayTimeline := match update_observable_break_status ex_fuel (replay_result_new ReplayContinue) ex_two with Ok (_, tl) => tl | _ => ex_start end.
Definition ex_stepped : ReplayTimeline := set_interval_end (match no_watchpoints_hit_interval_start ex_noted with Some _ => Some 0%nat | None => None end) ex_noted.

Lemma interval_start_good ps tl s ext o : good ps tl s ext -> good ps (set_interval_start o tl) s ext.
Proof. intros G. eapply (resettle_good ps tl s); try done. by destruct (i_session _ _ _ (g_inv _ _ _ _ G)). Qed.

Lemma interval_end_good ps tl s ext o : good ps tl s ext -> good ps (set_interval_end o tl) s ext.
Proof. intros G. eapply (resettle_good ps tl s); try done. by destruct (i_session _ _ _ (g_inv _ _ _ _ G)). Qed.

Lemma ex_stepped_good : exists ps s, good ps ex_stepped s (fun _ => 0) /\ ps !! 0%nat = Some 3%nat /\ ps !! 1%nat = Some 2%nat.
Proof.
  assert (good [] (timeline_new (mkEx 3 [] false)) (mkEx 3 [] false) (fun _ => 0)) as G0 by (apply new_good; [cbv; lia|apply ex_no_breakpoints|done]).
  destruct (mark_good ex_fuel _ _ _ _ G0 ltac:(apply Nat.ltb_lt; by vm_compute)) as (m1 & tl1 & s1 & ps1 & E1 & G1 & P1 & Em1 & _).
  assert (m1 = O) as -> by (assert ((x ← mark ex_fuel (timeline_new (mkEx 3 [] false)); Ok x.1) = Ok O) as E0 by (by vm_compute); rewrite E1 in E0; by injection E0).
  assert (ex_later = tl1) as El by (unfold ex_later; by rewrite E1).
  pose proof (moved_good ps1 tl1 s1 _ (mkEx 2 [] false) None G1 (ex_no_breakpoints 2) eq_refl ltac:(apply Nat.ltb_lt; by vm_compute) ltac:(done)) as G2.
  rewrite <- El in G2. change (good ps1 ex_two (mkEx 2 [] false) (fun _ => 0)) in G2.
  destruct (mark_good ex_fuel _ _ _ _ G2 ltac:(apply Nat.ltb_lt; by vm_compute)) as (m3 & tl3 & s3 & ps3 & E3 & G3 & P3 & Em3 & Ev3 & _).
  assert (m3 = 1%nat) as -> by (assert ((x ← mark ex_fuel ex_two; Ok x.1) = Ok 1%nat) as E0 by (by vm_compute); rewrite E3 in E0; by injection E0).
  exists ps3, s3. splits; [|by apply (ev_places _ _ _ _ _ _ _ _ Ev3)|exact Em3]. unfold ex_stepped. apply interval_end_good. unfold ex_noted, update_observable_break_status. rewrite E3. cbn [mbind res_bind].
  destruct (_ || _); [by apply interval_start_good|done].
Qed.

Lemma lazy_singlestep_one_before_witness : exists (ps : list nat) o, lazy_reverse_singlestep 0 (ex_task 3) ex_stepped = Ok o /\ o = Some 1%nat /\ ps !! 1%nat = Some 2%nat /\ step_before ps ex_stepped 3 1.
Proof.
  destruct ex_stepped_good as (ps & s & G & E0 & E1).
  destruct (proj2 (lazy_singlestep_one_before ps ex_stepped s (fun _ => 0) 0%nat 3%nat (ex_task 3) (ex_task 3) G E0 eq_refl) 1%nat 0%nat 2%nat 3%nat) as (o & El & Ho); [by vm_compute|by vm_compute|exact E1|exact E0|].
  assert (lazy_reverse_singlestep 0 (ex_task 3) ex_stepped = Ok (Some 1%nat)) as Es by (by vm_compute). rewrite El in Es. injection Es as Es.
  exists ps, o. splits; [exact El|exact Es|exact E1|apply (Ho 1%nat), Es].
Defined.

(** Two watchpoints of the debugger's that are gone were hit. *)
Definition ex_watch_result : ReplayResult :=
  mkResult ReplayContinue (mkBreakStatus (Some ex_uid) [mkConfig 8 4 WatchWrite; mkConfig 16 4 WatchWrite] None false false false false) false false.

Lemma failing_conditions_panic_witness : evaluate_conditions ex_watch_result ex_start = Panic.
Proof.
  apply (failing_conditions_panic ex_watch_result ex_start (mkEx 1 [] false) (ex_task 1)); [done|done|cbv; lia|]. intros w _. cbn [watchpoints ex_start timeline_new]. by rewrite lookup_empty.
Defined.

(** A debugger with an execution watchpoint and no breakpoints: taking the watchpoints out
    leaves the session as it was, with the watchpoint. *)
Lemma exec_watchpoints_stay : forall tl s w, breakpoints tl = ∅ -> wp_type w = WatchExec -> current tl = Some s ->
  watchpoints tl = {[w := None]} -> breakpoints_applied tl = true ->
  exists tl', unapply_breakpoints_and_watchpoints tl = Ok tl' /\ current tl' = Some s.
Proof.
  intros tl s w Eb Ew Ec Ewp Ea. unfold unapply_breakpoints_and_watchpoints, unapply_breakpoints_internal, with_session, current_session.
  rewrite Ea. cbn [negb set_applied current]. rewrite Ec. cbn [unwrap mbind res_bind]. cbn [breakpoints set_applied]. rewrite Eb.
  change (bp_keys (A:=option BreakpointCondition) ∅) with (@nil TimelineBreakpoint). cbn [for_each mbind res_bind unwrap set_current current watchpoints]. change (watchpoints (set_applied false tl)) with (watchpoints tl). rewrite Ewp.
  unfold wp_keys. rewrite map_to_list_singleton. cbn [fmap list_fmap]. unfold merge_sort. cbn.
  unfold unapply_wp. rewrite Ew, bool_decide_true by done. rewrite andb_false_r. cbn [mbind res_bind]. by eexists.
Qed.

(** Checkpoints at 400, 300, 200 and 100 milliseconds, a second into the execution: of the
    first interval with one checkpoint allowed two are kept. *)
Lemma too_many_kept : discard_loop 5 1000000 (inter_checkpoint_interval LowOverhead) [(4%nat, 400000); (3%nat, 300000); (2%nat, 200000); (1%nat, 100000)] 0 0 = Ok [3%nat; 2%nat].
Proof. by vm_compute. Qed.

End TimelineExamples.
