(* ===== verification/TimelineVfork.v ===== *)
(** A recording in which a child of [vfork] executes a program: its address space is that of
    its parent until then, and stays.  Seeking to a state after that leaves the temporary
    breakpoint of [replay_step_to_mark] behind in the address space of the parent. *)

From S2P Require Import Prelude Timeline TimelineRun.

Module TimelineVfork.

Export Run.

#[local] Instance vf_machine : Machine := {|
  Registers := Z; default_regs := 0; ip := fun r => r; matches := Z.eqb; ExtraRegisters := unit; default_extra_regs := tt |}.

(** The address spaces of the parent and of the new program. *)
Definition vf_parent : AddressSpaceUid := (1, 1, 1).
Definition vf_program : AddressSpaceUid := (2, 1, 2).
Definition vf_uid : TaskUid := (2, 1).

Record VfSession := mkVf { vf_at : nat; vf_breakpoints : list TimelineBreakpoint }.

(** State 0 is the beginning of the event in which the child executes the program. *)
Definition vf_task (n : nat) : Task :=
  mkTask vf_machine vf_uid (if (n =? 0)%nat then vf_parent else vf_program) 1 (if (n =? 0)%nat then 10 else 20) tt [] false (fun _ => true).

Definition vf_alive (u : AddressSpaceUid) (n : nat) : bool := bool_decide (u = vf_parent) || (bool_decide (u = vf_program) && negb (n =? 0)%nat).

Fixpoint vf_remove (b : TimelineBreakpoint) (l : list TimelineBreakpoint) : list TimelineBreakpoint :=
  match l with [] => [] | x :: l => if bool_decide (x = b) then l else x :: vf_remove b l end.

#[local] Instance vf_sessions : Sessions := {|
  Session := VfSession;
  create := fun _ => Ok (mkVf 0 []);
  replay_step_with_constraints := fun c s =>
    Ok (mkResult ReplayContinue (mkBreakStatus (Some vf_uid) [] None false false false false) false false, mkVf (S (vf_at s)) (vf_breakpoints s));
  session_time := fun _ => 1;
  current_trace_frame_ticks := fun _ => 1;
  current_step_key := fun s => if (vf_at s =? 0)%nat then TstepNone else TstepRetire;
  ticks_at_start_of_current_event := fun _ => 1;
  current_task := fun s => Some (vf_task (vf_at s));
  find_task_from_task_uid := fun u s => if bool_decide (u = vf_uid) then Some (vf_task (vf_at s)) else None;
  can_clone := fun _ => true;
  done_initial_exec := fun _ => true;
  set_visible_execution := fun _ s => s;
  statistics := fun s => mkStatistics 0 1 0;
  find_address_space := fun u s => vf_alive u (vf_at s);
  vm_add_breakpoint := fun u a s => Ok (true, mkVf (vf_at s) (mkBp u a :: vf_breakpoints s));
  vm_remove_breakpoint := fun u a s => Ok (mkVf (vf_at s) (vf_remove (mkBp u a) (vf_breakpoints s)));
  vm_add_watchpoint := fun _ _ _ _ s => Ok (true, s);
  vm_remove_watchpoint := fun _ _ _ _ s => Ok s;
  BreakpointCondition := unit;
  evaluate := fun _ _ _ => true |}.

(** The debugger marks state 1, goes back to the beginning and seeks to the mark.  It has
    no breakpoints, but the session has one in the address space of the parent. *)
Lemma vfork_leaves_breakpoint :
  (x ← mark 10 (timeline_new (mkVf 1 [])); tl ← seek_to_before_event 0 x.2; tl ← seek_to_mark 10 x.1 tl; s ← current_session tl;
   Ok (bp_keys (breakpoints tl), vf_at s, vf_breakpoints s)) = Ok ([], 1%nat, [mkBp vf_parent 20]).
Proof. by vm_compute. Qed.

End TimelineVfork.
